(* ===== verification/_CoqProject ===== *)
-Q . S2P
Prelude.v
Status.v
ReadWriteBuffer.v
HttpLex.v
StartLine.v
HeaderStore.v
Interfaces.v
HeaderHandler.v
HeaderParser.v
HandlerSafety.v
BodyParsers.v
BodyRun.v
BodyWindow.v
Os.v
Connection.v
Net.v
Poller.v
HeaderWriter.v
Printf.v
MemoryManager.v
PooledList.v
PooledListOps.v
PooledListSpec.v
PooledListRefines.v
PooledListPrograms.v
BlockingQueue.v
Pipeline.v
Url.v
ConfigFile.v
StreamHandler.v
ProxyHandler.v
NewConnection.v
ConfigReading.v
ConfigRoundTrip.v
Startup.v
AsioClient.v
AsioBody.v
AsioExchange.v
ClientHandler.v
HttpClient.v
StreamBody.v
StreamFrame.v
StreamMoves.v
ProxyFrame.v
ClientEvents.v
HostRouting.v
StreamSafety.v
ProxySafety.v
ServerSafety.v
ServerLiveness.v
StartupSafety.v
StreamEnds.v
StreamProgress.v
HttpExchange.v
ClientProperties.v
ProxyEnds.v
StreamProperties.v
MessageForwarding.v
