(* ===== verification/Prelude.v ===== *)
(** * SwitchFlow, an HTTP reverse proxy and the library under it

    This library models the C++ program of the repository and proves what it
    does.  A definition has the name of the member it translates, in a Module
    named after the class; state is passed explicitly, and a call that can
    abort or be undefined returns in the type [res] below.

    ** The program

    [sfrp/app/sfrp_main.cpp] reads a configuration, makes pools of everything
    and enters the dispatch loop of libevent.  A listening socket hands each
    client to a proxy handler, which has two lines: the request line reads the
    client's socket and writes the server's, the response line the reverse.
    Each line has a stream handler that parses a header from the connection's
    buffer, rewrites it, sends it on and forwards the body; the two share a
    queue of pipeline data, through which the request line tells the response
    line what was asked.  Below are the parsers, the storage of headers, the
    socket with its half-open states, and libevent.  The same library has a
    client for connections that are begun by this side.

    ** The files

    Each line names a file here, what it models, and its sources under src/.
    [sf] stands for src/switchflow, [app] for src/sfrp/app, [px] for
    src/sfrp/proxylib.

    The data and the parsers:
    - Prelude: outcomes, machine integers, characters, the tactics.
    - Status: sf/http/http.hpp and sf/socketlib/status.hpp, the codes.
    - ReadWriteBuffer: sf/util/read_write_buffer.cpp, its invariant and
      what each operation does to the window and the positions.
    - HttpLex: the scanners of sf/http/http.cpp, equal to structural
      recursions over the bytes that are left.
    - StartLine: sf/http/start_line_parser.cpp; parsing a line does not depend
      on how it is cut into two buffers.
    - HeaderStore: header_buffer, header_cache, message_buffer, its wrappers,
      static_strings and error_response of sf/http; the shared pool of headers
      is conserved.
    - Interfaces: i_header_receiver and i_body_receiver of sf/http, as classes
      with the laws the parsers are proved against.
    - HeaderHandler, HandlerSafety: sf/http/header_handler.cpp, the receiver of
      a header: what it stores of a message that fits, and that no sequence of
      pieces breaks it.
    - HeaderParser: sf/http/header_parser.cpp; it delivers a well-formed
      message, returns on every buffer, and reads back what was serialised.
    - BodyParsers, BodyRun, BodyWindow: content_length_body_parser,
      chunked_body_parser, end_connection_body_parser and body_parser of
      sf/http, with sf/util/conversions.hpp: what is forwarded at every point
      of a run, cut into buffers anywhere and with a receiver that falls
      behind, and which buffer may follow which.
    - HeaderWriter: sf/http/header_writer.cpp: the message goes out once and in
      order whatever the socket takes of it.
    - Url: sf/http/url.cpp and app/host_rules.hpp.
    - ConfigFile, ConfigReading, ConfigRoundTrip: sf/util/config_file.cpp:
      reading ends, and reads back what was printed.
    - Printf: the conversions of snprintf the code uses.

    The system below:
    - Os, Net: the system calls and the event library as classes of
      operations over an abstract kernel state, a second class with what their
      manual pages promise, and an instance in which sockets answer from
      scripts.
    - Connection: sf/socketlib/connection.cpp.
    - Poller: sf/event/event.cpp, sf/event/poller.cpp.

    The containers:
    - MemoryManager: sf/util/pessimistic_memory_manager.hpp.
    - PooledList, PooledListOps, PooledListSpec, PooledListRefines,
      PooledListPrograms: sf/util/pooled_list.hpp over a memory with the blocks
      of its pools, what each operation does, an abstract specification
      (sequences of values and room in the pools), the simulation, and what
      whole programs see and what becomes of the blocks.
    - BlockingQueue: sf/util/queue.cpp, in every interleaving of the calls of
      the threads library.
    - Pipeline: px/pipeline_data_queue.cpp, app/pipeline_data.cpp,
      app/combined_log_record.cpp, app/access_log.cpp.

    The proxy:
    - StreamHandler: app/http_proxy_stream_handler.cpp over
      px/proxy_stream_interface.cpp; [process_data] is a loop of [turn]s.
    - ProxyHandler: px/proxy_handler.cpp; [handle_event] is [transfer], which
      calls [handle_stream] on both lines, and [wait].
    - NewConnection: px/new_connection_handler.cpp; a [server] is all of its
      proxy handlers, pools and sockets.
    - Startup: app/sfrp_main.cpp and app/host_rules.cpp.
    - StreamBody, StreamFrame, StreamMoves, StreamSafety: one direction: what
      process_data sends over any calls; it is the invariant [process_data]
      keeps, by one lemma for each step of the loop.
    - StreamProperties, MessageForwarding, HostRouting: how a message starts,
      is refused, rewritten and forwarded.
    - ProxyFrame, ProxySafety: one connection, with the other connections
      interleaved.
    - ServerSafety, ServerLiveness, StartupSafety: all connections: what is
      sent, that no wakeup is lost, and that the server the program starts
      with is one of those the theorems are about.
    - StreamEnds, StreamProgress, ProxyEnds: events are handled in finitely
      many steps, and the one way in which they are not.

    The client:
    - ClientHandler, ClientEvents: sf/client/client_handler.cpp with any
      client that keeps the promises of a class.
    - HttpClient, HttpExchange: sf/http/client/http_client_handler.cpp with any
      user, and that it keeps those promises.
    - ClientProperties: both together.
    - AsioClient, AsioBody, AsioExchange: sf/asio-http, the client over
      boost.asio (tcp_connector.cpp, http_client.cpp) and the crawler's
      request (crawler.cpp): its definitions, its body receiver against one
      that the body parsers are proved with, and its runs over any sequence of
      requests and completions.

    ** How the parts meet

    A component that calls another through an interface of the code is proved
    against a class: the parsers against [i_header_receiver] and
    [i_body_receiver], the connection against the class [os], the proxy against
    that of sockets and the event library ([net]), a client handler against [i_client], the HTTP
    client against its user.  The instances are proved to keep the laws: the
    header handler and the stream handler are receivers, the scripted kernel
    is a kernel, the HTTP client is a client.  Objects that several owners
    share (the header pool, the queue between the lines, the pooled stream
    handlers) are in one state that the calls take and give back; a pointer to
    an element of a pool is its index.

    ** What the theorems show

    - Safety of the proxy: [ServerSafety.server_forwards] and
      [ProxySafety.proxy_forwards] for any clients, events and kernel answers;
      [StreamSafety.messages_forwarded] for one direction;
      [StartupSafety.startup_serves] that they apply to the program.
    - Liveness and termination: [ServerLiveness.no_lost_wakeup],
      [ProxyEnds.handle_event_ends] with its exception
      [ProxyEnds.early_response_spins], [StreamSafety.process_data_ends],
      [HeaderParser.parse_headers_total], [ConfigRoundTrip.config_reading_ends].
    - Function: each parser delivers well-formed input and returns on any;
      the writer, the connection and the router do what their contracts say,
      on every branch.
    - Round trips: messages, bodies, chunked bodies through the handler, URLs
      and configurations.
    - Invariants and bounds: buffers, pools, queues; refinements of
      abstract specifications: the pooled list and the pipeline queue.
    - The client: [ClientProperties.http_exchange_delivered],
      [ClientProperties.client_served_to_its_end].
    - The client over asio: [AsioExchange.responses_told], and what it does
      not do: [AsioExchange.one_response_served].
    - Threads: [BlockingQueue.queue_in_order],
      [BlockingQueue.queue_calls_return].

    ** Fuel

    A loop of the code that is not structural takes fuel and answers [NoFuel]
    when it is used up, which no theorem confuses with an answer of the code.
    The scanners and parsers get the bytes that are left, plus one where the
    loop looks at the end; the chunked parser five turns for a byte;
    [process_data] four turns for a byte and six more
    ([process_data_ends]); [handle_event] a number that grows with the
    answers a socket gives before it blocks ([handle_event_ends],
    [ClientEvents.event_fuel]); [parse_file] the characters of the file and a
    few ([config_reading_ends]).  Each of these is proved enough, or the loop
    is shown to have none that is.

    ** Integers and characters

    [unsigned int], [int], [unsigned short] and [size_t] wrap at their width
    where the code computes with them (LP64).  A character is its eight bits;
    where the code orders characters it sees the signed value.

    ** Not modelled

    - The text the logger writes (sf/util/logger.cpp) and where it goes.
    - Reading the command line (app/options.cpp, boost's program_options) and
      looking up addresses (sf/socketlib/inet_addr.cpp, the C library): an
      address is a parameter.
    - Signals, and the scope guards that close the listening socket and the
      log when main returns (sf/util/scope_guard.hpp is third-party code).
    - The Python interpreter inside the crawler; boost.asio is the list of the
      operations that are under way and the completions a run is given.
    - src/sfrp/serverlib: a second accept loop for an abstract handler of which
      there is no implementation.
    - sf/http/uri_query_parser.cpp, which parses nothing, and the headers of
      app that no program includes.
    - Time: a timeout is an event that may come whenever one is registered.
    - The copy of an element of a pooled list does not throw. *)
From stdpp Require Export base option list numbers relations gmap.
From Stdlib Require Import Strings.String Strings.Ascii.
Export String.StringSyntax.
From Stdlib Require Export ZArith Lia.

#[export] Set Warnings "-notation-overridden".
#[global] Open Scope Z_scope.

(** * Outcomes

    Every operation of the program that can fail to return does so through
    this type: [Aborted] is a [CHECK_CONDITION] that does not hold (the
    macro logs and calls [abort()]), [Undef] is undefined behaviour of C++
    (an access outside a vector, a null pointer), [NoFuel] is a loop of the
    model that was given too few iterations. *)
Inductive res (A : Type) : Type :=
  | Ok (a : A)
  | Aborted
  | Undef
  | NoFuel.
Arguments Ok {A} _.
Arguments Aborted {A}.
Arguments Undef {A}.
Arguments NoFuel {A}.

#[global] Instance res_ret : MRet res := @Ok.
#[global] Instance res_bind : MBind res := fun A B f m =>
  match m with
  | Ok a => f a
  | Aborted => Aborted
  | Undef => Undef
  | NoFuel => NoFuel
  end.
#[global] Instance res_fmap : FMap res := fun A B f m =>
  match m with
  | Ok a => Ok (f a)
  | Aborted => Aborted
  | Undef => Undef
  | NoFuel => NoFuel
  end.

(** [CHECK_CONDITION(expr, desc)] of util/logger.hpp. *)
Definition CHECK_CONDITION (b : bool) : res unit :=
  if b then Ok tt else Aborted.

(** [CHECK_CONDITION_VAL(expr, desc, val)] of util/logger.hpp. *)
Definition CHECK_CONDITION_VAL (b : bool) : res unit :=
  if b then Ok tt else Aborted.

Definition of_option {A} (o : option A) : res A :=
  match o with
  | Some a => Ok a
  | None => Undef
  end.

Lemma bind_ok {A B} (a : A) (f : A -> res B) : (x ← Ok a; f x) = f a.
Proof. reflexivity. Qed.

Lemma bind_ok_inv {A B} (m : res A) (f : A -> res B) (b : B) :
  (x ← m; f x) = Ok b -> exists a, m = Ok a /\ f a = Ok b.
Proof. destruct m; simpl; intros H; try discriminate. eauto. Qed.

Lemma check_true (b : bool) : b = true -> CHECK_CONDITION b = Ok tt.
Proof. intros ->. reflexivity. Qed.

(** A result and what is known of it: [may_fail] tells whether the operation
    may abort or be undefined; it never runs out of fuel. *)
Definition yields {A} (may_fail : Prop) (m : res A) (Q : A -> Prop) : Prop :=
  match m with
  | Ok a => Q a
  | Aborted | Undef => may_fail
  | NoFuel => False
  end.

Lemma yields_bind {A B} F (m : res A) (f : A -> res B) P Q :
  yields F m P -> (forall a, P a -> yields F (f a) Q) -> yields F (a ← m; f a) Q.
Proof. destruct m; simpl; auto. Qed.

Lemma yields_mono {A} F (m : res A) (P Q : A -> Prop) :
  yields F m P -> (forall a, P a -> Q a) -> yields F m Q.
Proof. destruct m; simpl; auto. Qed.

Lemma yields_ok {A} F (m : res A) (Q : A -> Prop) a : yields F m Q -> m = Ok a -> Q a.
Proof. intros H ->. exact H. Qed.

Lemma yields_total {A} (m : res A) (Q : A -> Prop) : yields False m Q -> exists a, m = Ok a /\ Q a.
Proof. destruct m; simpl; eauto; done. Qed.

Lemma yields_some {A} (m : res A) (Q : A -> Prop) F a : m = Ok a -> Q a -> yields F m Q.
Proof. intros ->. done. Qed.

(** * Integers at their width

    [unsigned int] is 32 bits wide, [int] is 32 bits wide in two's
    complement, [unsigned short] 16, [size_t] 64 (LP64). *)
Definition u16 (z : Z) : Z := z mod 2 ^ 16.
Definition u32 (z : Z) : Z := z mod 2 ^ 32.
Definition u64 (z : Z) : Z := z mod 2 ^ 64.
Definition s32 (z : Z) : Z := (z + 2 ^ 31) mod 2 ^ 32 - 2 ^ 31.

Lemma u32_small (z : Z) : 0 <= z < 2 ^ 32 -> u32 z = z.
Proof. apply Z.mod_small. Qed.

Lemma u32_bound (z : Z) : 0 <= u32 z < 2 ^ 32.
Proof. apply Z.mod_pos_bound. lia. Qed.

Lemma u64_small (z : Z) : 0 <= z < 2 ^ 64 -> u64 z = z.
Proof. apply Z.mod_small. Qed.

Lemma s32_small (z : Z) : - 2 ^ 31 <= z < 2 ^ 31 -> s32 z = z.
Proof. unfold s32. intros H. rewrite Z.mod_small by lia. lia. Qed.

(** * Bytes, characters and strings

    A [BYTE] is a number in [0, 256).  A [char] is represented by the same
    eight bits; where the code orders characters it sees [to_char], the
    signed value of those bits (the x86 ABI). *)
Definition is_byte (b : Z) : Prop := 0 <= b < 256.
Definition to_char (b : Z) : Z := if b <? 128 then b else b - 256.
Definition bytes_ok (l : list Z) : Prop := Forall is_byte l.

(** A string literal as the list of its characters, without the NUL. *)
Fixpoint str (s : string) : list Z :=
  match s with
  | EmptyString => []
  | String a s' => Z.of_N (N_of_ascii a) :: str s'
  end.

Arguments str _%_string_scope.

(** A C string is the list of its characters before the NUL; [c_at cs i]
    is [*(cs + i)], the NUL itself included. *)
Definition c_at (cs : list Z) (i : nat) : Z := nth i cs 0.
Definition c_string (cs : list Z) : Prop := Forall (fun c => 0 < c < 256) cs.

Create HintDb switchflow.

(** * Tactics *)
Ltac inv_res :=
  repeat match goal with
  | H : (_ ← _; _) = Ok _ |- _ =>
      let a := fresh "a" in let Ha := fresh "Ha" in
      apply bind_ok_inv in H; destruct H as (a & Ha & H)
  | H : CHECK_CONDITION ?b = Ok _ |- _ =>
      unfold CHECK_CONDITION in H; destruct b eqn:?; [clear H|discriminate H]
  | H : CHECK_CONDITION_VAL ?b = Ok _ |- _ =>
      unfold CHECK_CONDITION_VAL in H; destruct b eqn:?; [clear H|discriminate H]
  | H : Ok _ = Ok _ |- _ => injection H; clear H; intros; subst
  | H : mret _ = Ok _ |- _ => unfold mret, res_ret in H
  end.

(** Reflects the boolean tests of the code that occur in the context. *)
Ltac breflect :=
  repeat match goal with
  | H : (_ && _)%bool = true |- _ => apply andb_true_iff in H; destruct H
  | H : (_ || _)%bool = false |- _ => apply orb_false_iff in H; destruct H
  | H : negb _ = true |- _ => apply negb_true_iff in H
  | H : negb _ = false |- _ => apply negb_false_iff in H
  | H : (_ <=? _) = true |- _ => apply Z.leb_le in H
  | H : (_ <=? _) = false |- _ => apply Z.leb_gt in H
  | H : (_ <? _) = true |- _ => apply Z.ltb_lt in H
  | H : (_ <? _) = false |- _ => apply Z.ltb_ge in H
  | H : (_ =? _) = true |- _ => apply Z.eqb_eq in H
  | H : (_ =? _) = false |- _ => apply Z.eqb_neq in H
  end.

(** Closes [c_string], [bytes_ok] and other [Forall]s of concrete lists. *)
Ltac forall_concrete :=
  unfold c_string, bytes_ok, is_byte; cbn; repeat constructor; lia.

(** * Results that are not looked at *)

(** The operation returns or aborts. *)
Abbreviation returns m := (yields True m (fun _ => True)) (only parsing).

Lemma of_option_returns {A} (o : option A) : returns (of_option o).
Proof. by destruct o. Qed.

Lemma check_returns b : returns (CHECK_CONDITION b).
Proof. by destruct b. Qed.

Lemma check_val_returns b : returns (CHECK_CONDITION_VAL b).
Proof. by destruct b. Qed.

#[export] Hint Resolve of_option_returns check_returns check_val_returns : switchflow.

(** Goes past a step of which nothing is kept. *)
Ltac past := eapply yields_bind; [solve [eauto with switchflow]|]; intros ? _.

(** No operation without a loop runs out of fuel: case by case. *)
Ltac returns_by_cases :=
  repeat first
    [ exact I | solve [eauto 2 with switchflow]
    | eapply (yields_bind _ _ _ (fun _ => True)); [|intros ? _] | case_match ].
