(* ===== verification/Status.v ===== *)
(** The status codes of the HTTP library (http/http.hpp), of the socket
    library (socketlib/status.hpp) and the body encodings. *)
From S2P Require Import Prelude.

Module http.

Inductive STATUS :=
  | COMPLETE
  | INCOMPLETE
  | WRITE_INCOMPLETE
  | INVALID
  | DATAOVERFLOW
  | IOFAILURE.

(** The integer value of the enumerator. *)
Definition code (s : STATUS) : Z :=
  match s with
  | COMPLETE => 0
  | INCOMPLETE => 1
  | WRITE_INCOMPLETE => 2
  | INVALID => 3
  | DATAOVERFLOW => 4
  | IOFAILURE => 5
  end.

#[export] Instance STATUS_eq_dec : EqDecision STATUS.
Proof. solve_decision. Defined.

Inductive BODY_ENCODING :=
  | NONE
  | CHUNKED
  | END_CONNECTION
  | CONTENT_LENGTH.

#[export] Instance BODY_ENCODING_eq_dec : EqDecision BODY_ENCODING.
Proof. solve_decision. Defined.

End http.

Module socketlib.

Inductive STATUS :=
  | COMPLETE
  | INCOMPLETE
  | READ_INCOMPLETE
  | WRITE_INCOMPLETE
  | CONNECTION_FAILED
  | SRC_CLOSED
  | DEST_CLOSED
  | DENY.

#[export] Instance STATUS_eq_dec : EqDecision STATUS.
Proof. solve_decision. Defined.

End socketlib.

#[export] Existing Instances http.STATUS_eq_dec http.BODY_ENCODING_eq_dec
  socketlib.STATUS_eq_dec.
