(* ===== verification/ReadWriteBuffer.v ===== *)
(** The read/write buffer of util/read_write_buffer.cpp: a vector of bytes
    with a working length, a position up to which a parser has processed
    it, and the window that remains to be written to a socket.  The file
    holds the class, its invariant, the specification of each operation and
    the window arithmetic the socket and the parsers are proved against. *)
From S2P Require Import Prelude.

(** The vector a [raw_buffer*] points to is held by value; [None] is the
    null pointer.  A static vector can be shared by several buffers, but
    every operation that writes a vector aborts on a static buffer (see
    [static_buffer_never_written]), so that sharing is not observable. *)
Record read_write_buffer := RWB {
  p_buffer_ : option (list Z);
  b_using_static_buffer_ : bool;
  working_length_ : Z;
  process_position_ : Z;
  write_end_position_ : Z;
  write_position_ : Z
}.

(** [p_buffer_->size()] *)
Definition raw_size (raw : list Z) : Z := Z.of_nat (length raw).

(** * Operations *)
Module rwb.

Definition reset (b : read_write_buffer) : read_write_buffer :=
  if negb b.(b_using_static_buffer_) then
    RWB b.(p_buffer_) b.(b_using_static_buffer_) 0 0 0 0
  else
    match b.(p_buffer_) with
    | Some raw => RWB b.(p_buffer_) b.(b_using_static_buffer_)
                      (u32 (raw_size raw)) 0 (u32 (raw_size raw)) 0
    | None => RWB b.(p_buffer_) b.(b_using_static_buffer_) 0 0 0 0
    end.

(** [read_write_buffer(unsigned int physical_length)] *)
Definition make (physical_length : Z) : read_write_buffer :=
  reset (RWB (Some (replicate (Z.to_nat physical_length) 0)) false 0 0 0 0).

(** [read_write_buffer(raw_buffer* p_static_buffer)] *)
Definition make_static (p_static_buffer : option (list Z)) : read_write_buffer :=
  reset (RWB p_static_buffer true 0 0 0 0).

(** [read_write_buffer()] *)
Definition make_default : read_write_buffer :=
  reset (RWB None true 0 0 0 0).

(** [read_write_buffer(const read_write_buffer& rhs)]: the contents of an
    owned vector are not copied, only its size. *)
Definition copy (rhs : read_write_buffer) : res read_write_buffer :=
  if rhs.(b_using_static_buffer_) then
    let wl := match rhs.(p_buffer_) with Some raw => u32 (raw_size raw) | None => 0 end in
    Ok (reset (RWB rhs.(p_buffer_) true wl 0 0 0))
  else
    raw ← of_option rhs.(p_buffer_);
    Ok (reset (RWB (Some (replicate (length raw) 0)) false 0 0 0 0)).

Definition set_static_buffer (p_static_buffer : option (list Z))
    (b : read_write_buffer) : read_write_buffer :=
  reset (RWB p_static_buffer true b.(working_length_) b.(process_position_)
             b.(write_end_position_) b.(write_position_)).

Definition get_raw_buffer (b : read_write_buffer) : res (list Z) :=
  of_option b.(p_buffer_).

Definition set_write_end_position (write_end_position : Z)
    (b : read_write_buffer) : res read_write_buffer :=
  _ ← CHECK_CONDITION (write_end_position <=? b.(working_length_));
  Ok (RWB b.(p_buffer_) b.(b_using_static_buffer_) b.(working_length_)
          b.(process_position_) write_end_position b.(write_position_)).

Definition set_write_position (write_position : Z)
    (b : read_write_buffer) : res read_write_buffer :=
  _ ← CHECK_CONDITION (write_position <=? b.(working_length_));
  Ok (RWB b.(p_buffer_) b.(b_using_static_buffer_) b.(working_length_)
          b.(process_position_) b.(write_end_position_) write_position).

Definition set_process_position (processed_position : Z)
    (b : read_write_buffer) : res read_write_buffer :=
  _ ← CHECK_CONDITION (processed_position <=? b.(working_length_));
  Ok (RWB b.(p_buffer_) b.(b_using_static_buffer_) b.(working_length_)
          processed_position b.(write_end_position_) b.(write_position_)).

Definition set_working_length (working_length : Z)
    (b : read_write_buffer) : res read_write_buffer :=
  raw ← get_raw_buffer b;
  _ ← CHECK_CONDITION (working_length <=? raw_size raw);
  _ ← CHECK_CONDITION (negb b.(b_using_static_buffer_));
  let b := RWB b.(p_buffer_) b.(b_using_static_buffer_) working_length 0
               b.(write_end_position_) b.(write_position_) in
  b ← set_write_end_position working_length b;
  set_write_position 0 b.

Definition get_write_end_position (b : read_write_buffer) : Z := b.(write_end_position_).
Definition get_process_position (b : read_write_buffer) : Z := b.(process_position_).
Definition get_write_position (b : read_write_buffer) : Z := b.(write_position_).
Definition get_working_length (b : read_write_buffer) : Z := b.(working_length_).
Definition size (b : read_write_buffer) : Z := b.(working_length_).

Definition fully_written (b : read_write_buffer) : bool :=
  b.(working_length_) <=? b.(write_position_).

(** [operator[]], read through. *)
Definition at_ (b : read_write_buffer) (i : Z) : res Z :=
  _ ← CHECK_CONDITION ((0 <=? i) && (i <? b.(working_length_)));
  raw ← get_raw_buffer b;
  of_option (raw !! Z.to_nat i).

(** [buf[i] = c], the assignment through [operator[]]. *)
Definition set_at (i c : Z) (b : read_write_buffer) : res read_write_buffer :=
  _ ← CHECK_CONDITION ((0 <=? i) && (i <? b.(working_length_)));
  raw ← get_raw_buffer b;
  _ ← of_option (raw !! Z.to_nat i);
  Ok (RWB (Some (<[Z.to_nat i := c]> raw)) b.(b_using_static_buffer_)
          b.(working_length_) b.(process_position_)
          b.(write_end_position_) b.(write_position_)).

Definition get_physical_length (b : read_write_buffer) : res Z :=
  raw ← get_raw_buffer b;
  Ok (u32 (raw_size raw)).

(** The bytes between two iterators of a vector, [begin() + i] and
    [begin() + j]: outside [0 <= i <= j <= size()] it is undefined. *)
Definition range (raw : list Z) (i j : Z) : res (list Z) :=
  if (0 <=? i) && (i <=? j) && (j <=? raw_size raw) then
    Ok (take (Z.to_nat (j - i)) (drop (Z.to_nat i) raw))
  else Undef.

(** [memcpy] of [bytes] to index [at_pos] of the vector; a copy that does
    not fit is undefined. *)
Definition memcpy (raw : list Z) (at_pos : Z) (bytes : list Z) : res (list Z) :=
  if (0 <=? at_pos) && (at_pos + raw_size bytes <=? raw_size raw) then
    Ok (take (Z.to_nat at_pos) raw ++ bytes
          ++ drop (Z.to_nat at_pos + length bytes) raw)
  else Undef.

(** The two iterators are given as the bytes of their range. *)
Definition copy_from_buffer (bytes : list Z) (b : read_write_buffer)
    : res read_write_buffer :=
  _ ← CHECK_CONDITION (negb b.(b_using_static_buffer_));
  raw ← get_raw_buffer b;
  _ ← CHECK_CONDITION (s32 (raw_size bytes) <=? s32 (raw_size raw));
  let wl := u32 (raw_size bytes) in
  raw' ← memcpy raw 0 (take (Z.to_nat wl) bytes);
  Ok (RWB (Some raw') b.(b_using_static_buffer_) wl b.(process_position_)
          b.(write_end_position_) b.(write_position_)).

Definition append_from_buffer (bytes : list Z) (b : read_write_buffer)
    : res read_write_buffer :=
  _ ← CHECK_CONDITION (negb b.(b_using_static_buffer_));
  raw ← get_raw_buffer b;
  _ ← CHECK_CONDITION (s32 (b.(working_length_) + raw_size bytes) <=? s32 (raw_size raw));
  raw' ← memcpy raw b.(working_length_) bytes;
  let wl := u32 (b.(working_length_) + raw_size bytes) in
  Ok (RWB (Some raw') b.(b_using_static_buffer_) wl b.(process_position_)
          wl b.(write_position_)).

(** The addition is one of [unsigned int]s. *)
Definition fits_in_buffer (size : Z) (b : read_write_buffer) : res bool :=
  phys ← get_physical_length b;
  Ok (u32 (get_working_length b + u32 size) <=? phys).

(** [append_to_string(s, begin, end)]: the loop reads no byte when the
    range is empty, so that a null vector is not dereferenced then. *)
Definition append_to_string_range (s : list Z) (i j : Z) (b : read_write_buffer)
    : res (list Z) :=
  _ ← CHECK_CONDITION ((i <=? j) && (j <=? b.(working_length_)));
  if i =? j then Ok s
  else
    raw ← get_raw_buffer b;
    chars ← range raw i j;
    Ok (s ++ chars).

Definition append_to_string (s : list Z) (b : read_write_buffer) : res (list Z) :=
  append_to_string_range s 0 (get_working_length b) b.

(** Despite its name it overwrites the buffer from its start. *)
Definition append_from_string (cs : list Z) (b : read_write_buffer)
    : res read_write_buffer :=
  let len := raw_size cs in
  phys ← get_physical_length b;
  _ ← CHECK_CONDITION (len <=? phys);
  raw ← get_raw_buffer b;
  raw' ← memcpy raw 0 cs;
  let b := RWB (Some raw') b.(b_using_static_buffer_) b.(working_length_)
               b.(process_position_) b.(write_end_position_) b.(write_position_) in
  b ← set_working_length (u32 len) b;
  set_write_end_position (u32 len) b.

(** [get_const_buffer]: the address and the size of the buffer sequence
    handed to the socket library. *)
Definition get_const_buffer (b : read_write_buffer) : res (Z * Z) :=
  _ ← get_raw_buffer b;
  Ok (b.(write_position_), b.(write_end_position_)).

Definition asci_tolower (c : Z) : Z :=
  if (65 <=? to_char c) && (to_char c <=? 90) then c + 32 else c.

Inductive COMPARE_RESULT := SUBSTRING | EQUAL | NOT_EQUAL.

(** The loop of [compare_no_case]: [n] bounds the positions left. *)
Fixpoint compare_loop (n : nat) (b : read_write_buffer) (cs : list Z) (i : Z)
    : res COMPARE_RESULT :=
  let current_char := c_at cs (Z.to_nat i) in
  if (i <? get_working_length b) && negb (current_char =? 0) then
    match n with
    | O => NoFuel
    | S n' =>
        c ← at_ b i;
        if negb (asci_tolower c =? asci_tolower current_char) then Ok NOT_EQUAL
        else compare_loop n' b cs (i + 1)
    end
  else if (i =? get_working_length b) && (current_char =? 0) then Ok EQUAL
  else Ok SUBSTRING.

Definition compare_no_case (cs : list Z) (b : read_write_buffer)
    : res COMPARE_RESULT :=
  compare_loop (Z.to_nat (get_working_length b)) b cs 0.

Definition equals (cs : list Z) (b : read_write_buffer) : res bool :=
  r ← compare_no_case cs b;
  Ok (match r with EQUAL => true | _ => false end).

End rwb.

(** [init_raw_buffer]: [memcpy] of [buffer.size()] bytes from the string and
    its NUL; reading past the NUL is undefined. *)
Definition init_raw_buffer (buffer init_value : list Z) : res (list Z) :=
  _ ← CHECK_CONDITION (raw_size init_value <=? raw_size buffer);
  if raw_size buffer <=? raw_size init_value + 1 then
    Ok (take (length buffer) (init_value ++ [0]))
  else Undef.

(** * The invariant and the two views of a buffer *)

(** The vector of a buffer, empty for the null pointer. *)
Definition raw_of (b : read_write_buffer) : list Z := default [] b.(p_buffer_).

(** The bytes up to the working length. *)
Definition content (b : read_write_buffer) : list Z :=
  take (Z.to_nat b.(working_length_)) (raw_of b).

(** The bytes [i, j) of the content. *)
Definition slice (b : read_write_buffer) (i j : Z) : list Z :=
  take (Z.to_nat (j - i)) (drop (Z.to_nat i) (raw_of b)).

(** The bytes that remain to be written: [write_position_] up to
    [write_end_position_]. *)
Definition window (b : read_write_buffer) : list Z :=
  slice b b.(write_position_) b.(write_end_position_).

(** The bytes the parsers have not yet processed. *)
Definition unprocessed (b : read_write_buffer) : list Z :=
  drop (Z.to_nat b.(process_position_)) (content b).

(** The buffer with another process position. *)
Definition moved_to (p : Z) (b : read_write_buffer) : read_write_buffer :=
  RWB b.(p_buffer_) b.(b_using_static_buffer_) b.(working_length_) p
      b.(write_end_position_) b.(write_position_).

Record wf (b : read_write_buffer) : Prop := {
  wf_vector : b.(p_buffer_) = Some (raw_of b);
  wf_bytes : bytes_ok (raw_of b);
  wf_size : raw_size (raw_of b) < 2 ^ 31;
  wf_working : 0 <= b.(working_length_) <= raw_size (raw_of b);
  wf_process : 0 <= b.(process_position_) <= b.(working_length_);
  wf_write_end : 0 <= b.(write_end_position_) <= b.(working_length_);
  wf_write : 0 <= b.(write_position_) <= b.(working_length_)
}.

(** The calls a client can make that change a buffer.  [copy_from_buffer]
    has no caller in the repository and is left out: it moves the working
    length and no position, see [copy_from_buffer_stale]. *)
Inductive rwb_step : read_write_buffer -> read_write_buffer -> Prop :=
  | step_reset b : rwb_step b (rwb.reset b)
  | step_set_working_length b b' n :
      0 <= n -> rwb.set_working_length n b = Ok b' -> rwb_step b b'
  | step_set_write_end b b' n :
      0 <= n -> rwb.set_write_end_position n b = Ok b' -> rwb_step b b'
  | step_set_write b b' n :
      0 <= n -> rwb.set_write_position n b = Ok b' -> rwb_step b b'
  | step_set_process b b' n :
      0 <= n -> rwb.set_process_position n b = Ok b' -> rwb_step b b'
  | step_set_at b b' i c :
      is_byte c -> rwb.set_at i c b = Ok b' -> rwb_step b b'
  | step_append b b' bytes :
      bytes_ok bytes -> rwb.append_from_buffer bytes b = Ok b' -> rwb_step b b'
  | step_append_string b b' cs :
      c_string cs -> rwb.append_from_string cs b = Ok b' -> rwb_step b b'.

(** * Lemmas *)

Lemma raw_size_nonneg l : 0 <= raw_size l.
Proof. unfold raw_size. lia. Qed.
Lemma raw_size_app l k : raw_size (l ++ k) = raw_size l + raw_size k.
Proof. unfold raw_size. rewrite length_app. lia. Qed.
Lemma c_string_bytes cs : c_string cs -> bytes_ok cs.
Proof. intros H. eapply Forall_impl; [exact H|]. unfold is_byte. simpl. lia. Qed.
#[export] Hint Resolve raw_size_nonneg c_string_bytes : switchflow.

Lemma memcpy_inv raw p bytes raw' :
  rwb.memcpy raw p bytes = Ok raw' ->
  0 <= p /\ p + raw_size bytes <= raw_size raw /\
  raw' = take (Z.to_nat p) raw ++ bytes ++ drop (Z.to_nat p + length bytes) raw.
Proof.
  unfold rwb.memcpy. destruct (_ && _)%bool eqn:E; [|discriminate].
  intros H. inv_res. breflect. auto.
Qed.

Lemma memcpy_ok raw p bytes raw' :
  rwb.memcpy raw p bytes = Ok raw' -> bytes_ok raw -> bytes_ok bytes ->
  raw_size raw' = raw_size raw /\ bytes_ok raw'.
Proof.
  intros (? & ? & ->)%memcpy_inv Hraw Hb. unfold raw_size in *. split.
  - rewrite !length_app, length_take, length_drop. lia.
  - apply Forall_app. split; [by apply Forall_take|].
    apply Forall_app. split; [done|by apply Forall_drop].
Qed.

Lemma memcpy_append raw wl bytes raw' :
  rwb.memcpy raw wl bytes = Ok raw' ->
  take (Z.to_nat (wl + raw_size bytes)) raw' = take (Z.to_nat wl) raw ++ bytes.
Proof.
  intros (Hwl & Hle & ->)%memcpy_inv. unfold raw_size in *.
  rewrite app_assoc, take_app_le by (rewrite length_app, length_take; lia).
  apply firstn_all2. rewrite length_app, length_take. lia.
Qed.

(** A buffer that was just reset, or read into. *)
Definition just_read (b : read_write_buffer) : Prop :=
  b.(process_position_) = 0 /\ b.(write_position_) = 0 /\ b.(write_end_position_) = b.(working_length_).

Lemma reset_just_read b : just_read (rwb.reset b).
Proof.
  unfold rwb.reset. destruct (negb _); [done|]. by destruct (p_buffer_ b).
Qed.

Lemma set_working_length_just_read n b b' : rwb.set_working_length n b = Ok b' -> just_read b'.
Proof.
  unfold rwb.set_working_length. intros Hb. do 3 (apply bind_ok_inv in Hb as (? & _ & Hb)).
  apply bind_ok_inv in Hb as (b1 & H1 & Hb).
  unfold rwb.set_write_end_position in H1. apply bind_ok_inv in H1 as (? & _ & [= <-]).
  unfold rwb.set_write_position in Hb. apply bind_ok_inv in Hb as (? & _ & [= <-]). done.
Qed.

Lemma reset_wf b : wf b -> wf (rwb.reset b).
Proof.
  intros []. unfold rwb.reset.
  assert (raw_size (raw_of b) < 2 ^ 32) by lia.
  pose proof (raw_size_nonneg (raw_of b)).
  destruct (b_using_static_buffer_ b) eqn:Es; simpl.
  - rewrite wf_vector0. rewrite u32_small by lia.
    constructor; simpl; try done; cbn; lia.
  - constructor; simpl; try done; cbn; lia.
Qed.

Lemma make_wf n : 0 <= n < 2 ^ 31 -> wf (rwb.make n).
Proof.
  intros Hn. unfold rwb.make. apply reset_wf.
  constructor; unfold raw_of, raw_size; simpl; rewrite ?length_replicate; try lia.
  - done.
  - apply Forall_replicate. unfold is_byte. lia.
Qed.

Lemma set_write_end_position_inv n b b' :
  rwb.set_write_end_position n b = Ok b' ->
  n <= b.(working_length_) /\
  b' = RWB b.(p_buffer_) b.(b_using_static_buffer_) b.(working_length_)
           b.(process_position_) n b.(write_position_).
Proof. unfold rwb.set_write_end_position. intros H. inv_res. breflect. auto. Qed.

Lemma set_write_position_inv n b b' :
  rwb.set_write_position n b = Ok b' ->
  n <= b.(working_length_) /\
  b' = RWB b.(p_buffer_) b.(b_using_static_buffer_) b.(working_length_)
           b.(process_position_) b.(write_end_position_) n.
Proof. unfold rwb.set_write_position. intros H. inv_res. breflect. auto. Qed.

Lemma set_process_position_inv n b b' :
  rwb.set_process_position n b = Ok b' ->
  n <= b.(working_length_) /\
  b' = RWB b.(p_buffer_) b.(b_using_static_buffer_) b.(working_length_)
           n b.(write_end_position_) b.(write_position_).
Proof. unfold rwb.set_process_position. intros H. inv_res. breflect. auto. Qed.

Lemma set_write_end_position_ok n b :
  n <= b.(working_length_) ->
  rwb.set_write_end_position n b =
  Ok (RWB b.(p_buffer_) b.(b_using_static_buffer_) b.(working_length_)
          b.(process_position_) n b.(write_position_)).
Proof. intros. unfold rwb.set_write_end_position. rewrite check_true by lia. done. Qed.

Lemma set_write_position_ok n b :
  n <= b.(working_length_) ->
  rwb.set_write_position n b =
  Ok (RWB b.(p_buffer_) b.(b_using_static_buffer_) b.(working_length_)
          b.(process_position_) b.(write_end_position_) n).
Proof. intros. unfold rwb.set_write_position. rewrite check_true by lia. done. Qed.

Lemma set_process_position_ok n b :
  n <= b.(working_length_) ->
  rwb.set_process_position n b =
  Ok (RWB b.(p_buffer_) b.(b_using_static_buffer_) b.(working_length_)
          n b.(write_end_position_) b.(write_position_)).
Proof. intros. unfold rwb.set_process_position. rewrite check_true by lia. done. Qed.

Lemma set_working_length_inv n b b' :
  rwb.set_working_length n b = Ok b' ->
  exists raw, b.(p_buffer_) = Some raw /\ n <= raw_size raw /\
    b.(b_using_static_buffer_) = false /\ 0 <= n /\
    b' = RWB (Some raw) false n 0 n 0.
Proof.
  unfold rwb.set_working_length, rwb.get_raw_buffer. intros H. inv_res. breflect.
  destruct (p_buffer_ b) as [raw|] eqn:Hp; [|discriminate].
  simpl in Ha. inv_res.
  apply set_write_end_position_inv in Ha2 as [? ->].
  apply set_write_position_inv in H as [? ->]; simpl in *.
  exists a. replace (b_using_static_buffer_ b) with false by done. eauto 10 with lia.
Qed.

(** Well-formedness only depends on the vector and the four positions. *)
Lemma wf_positions b wl pp wep wp st :
  wf b -> 0 <= wl <= raw_size (raw_of b) -> 0 <= pp <= wl -> 0 <= wep <= wl ->
  0 <= wp <= wl -> wf (RWB b.(p_buffer_) st wl pp wep wp).
Proof.
  intros [] Hwl Hpp Hwep Hwp. constructor; simpl; try done; change (raw_of _) with (raw_of b); done.
Qed.

Lemma wf_new_vector b raw wl pp wep wp st :
  wf b -> raw_size raw = raw_size (raw_of b) -> bytes_ok raw ->
  0 <= wl <= raw_size raw -> 0 <= pp <= wl -> 0 <= wep <= wl -> 0 <= wp <= wl ->
  wf (RWB (Some raw) st wl pp wep wp).
Proof.
  intros [] Hs Hb Hwl Hpp Hwep Hwp.
  constructor; unfold raw_of in *; simpl in *; try done; lia.
Qed.

Lemma append_from_buffer_inv bytes b b' :
  wf b -> rwb.append_from_buffer bytes b = Ok b' ->
  exists raw', rwb.memcpy (raw_of b) b.(working_length_) bytes = Ok raw' /\
    b.(b_using_static_buffer_) = false /\
    b.(working_length_) + raw_size bytes <= raw_size (raw_of b) /\
    b' = RWB (Some raw') false (b.(working_length_) + raw_size bytes)
             b.(process_position_) (b.(working_length_) + raw_size bytes)
             b.(write_position_).
Proof.
  intros Hwf H. unfold rwb.append_from_buffer, rwb.get_raw_buffer in H. inv_res.
  breflect. destruct Hwf. rewrite wf_vector0 in Ha0. simpl in Ha0. inv_res.
  pose proof (memcpy_inv _ _ _ _ Ha2) as (_ & Hle & _).
  exists a2. replace (b_using_static_buffer_ b) with false by done. pose proof (raw_size_nonneg bytes).
  rewrite u32_small by lia. eauto.
Qed.

Lemma append_from_string_inv cs b b' :
  wf b -> rwb.append_from_string cs b = Ok b' ->
  exists raw', rwb.memcpy (raw_of b) 0 cs = Ok raw' /\
    b.(b_using_static_buffer_) = false /\
    raw_size cs <= raw_size (raw_of b) /\
    b' = RWB (Some raw') false (raw_size cs) 0 (raw_size cs) 0.
Proof.
  intros Hwf H. unfold rwb.append_from_string, rwb.get_physical_length,
    rwb.get_raw_buffer in H. inv_res. breflect.
  destruct Hwf. rewrite wf_vector0 in *. simpl in *. inv_res.
  apply set_working_length_inv in Ha3 as (raw & Hraw & ? & ? & ? & ->).
  simpl in *. injection Hraw as ->.
  apply set_write_end_position_inv in H as [? ->]. simpl in *.
  pose proof (memcpy_inv _ _ _ _ Ha2) as (_ & Hle & _). pose proof (raw_size_nonneg cs).
  exists raw. rewrite u32_small by lia. eauto with lia.
Qed.

Lemma set_at_inv i c b b' :
  rwb.set_at i c b = Ok b' ->
  0 <= i < b.(working_length_) /\ b.(p_buffer_) = Some (raw_of b) /\
  b' = RWB (Some (<[Z.to_nat i := c]> (raw_of b))) b.(b_using_static_buffer_)
           b.(working_length_) b.(process_position_)
           b.(write_end_position_) b.(write_position_).
Proof.
  unfold rwb.set_at, rwb.get_raw_buffer, raw_of. intros H. inv_res. breflect.
  destruct (p_buffer_ b); [|discriminate]. simpl in *. inv_res. auto.
Qed.

(** A step keeps the invariant and the size of the vector. *)
Lemma rwb_step_wf b b' :
  rwb_step b b' -> wf b -> wf b' /\ raw_size (raw_of b') = raw_size (raw_of b).
Proof.
  intros Hstep Hwf. pose proof Hwf as []. destruct Hstep.
  - split; [by apply reset_wf|]. unfold rwb.reset, raw_of in *.
    repeat case_match; done.
  - apply set_working_length_inv in H0 as (raw & Hraw & ? & ? & ? & ->).
    rewrite Hraw in wf_vector0. injection wf_vector0 as ->.
    split; [|done]. apply wf_new_vector with b; try done; lia.
  - apply set_write_end_position_inv in H0 as [? ->].
    split; [|done]. apply wf_positions; done.
  - apply set_write_position_inv in H0 as [? ->].
    split; [|done]. apply wf_positions; done.
  - apply set_process_position_inv in H0 as [? ->].
    split; [|done]. apply wf_positions; try done; lia.
  - apply set_at_inv in H0 as (? & Hp & ->).
    assert (raw_size (<[Z.to_nat i := c]> (raw_of b)) = raw_size (raw_of b)) as Hsz
      by (unfold raw_size; by rewrite length_insert).
    split; [|exact Hsz]. apply wf_new_vector with b; try done; try lia.
    by apply Forall_insert.
  - apply append_from_buffer_inv in H0 as (raw' & Hm & ? & ? & ->); [|done].
    apply memcpy_ok in Hm as [Hsz Hok]; [|done..]. simpl.
    pose proof (raw_size_nonneg bytes).
    split; [|exact Hsz]. apply wf_new_vector with b; try done; lia.
  - apply append_from_string_inv in H0 as (raw' & Hm & ? & ? & ->); [|done].
    apply memcpy_ok in Hm as [Hsz Hok]; [|done|by apply c_string_bytes]. simpl.
    pose proof (raw_size_nonneg cs).
    split; [|exact Hsz]. apply wf_new_vector with b; try done; lia.
Qed.

(** ** Views *)

Lemma moved_to_wf p b : wf b -> 0 <= p <= b.(working_length_) -> wf (moved_to p b).
Proof. intros Hwf Hp. pose proof Hwf as []. by apply wf_positions. Qed.

Lemma length_content b : wf b -> Z.of_nat (length (content b)) = b.(working_length_).
Proof. intros []. unfold content, raw_size in *. rewrite length_take. lia. Qed.

Lemma content_bytes b : wf b -> bytes_ok (content b).
Proof. intros []. by apply Forall_take. Qed.

Lemma at_content b (i : nat) c :
  wf b -> content b !! i = Some c -> rwb.at_ b (Z.of_nat i) = Ok c.
Proof.
  intros Hwf Hc. pose proof (lookup_lt_Some _ _ _ Hc) as Hlt.
  pose proof (length_content _ Hwf). unfold rwb.at_, rwb.get_raw_buffer.
  rewrite check_true by lia. destruct Hwf. rewrite wf_vector0. simpl.
  rewrite Nat2Z.id. unfold content in Hc.
  rewrite lookup_take_Some in Hc. destruct Hc as [-> _]. done.
Qed.

Lemma slice_content b i j :
  wf b -> 0 <= i -> i <= j <= b.(working_length_) ->
  slice b i j = take (Z.to_nat (j - i)) (drop (Z.to_nat i) (content b)).
Proof.
  intros Hwf Hi Hj. unfold slice, content. rewrite skipn_firstn_comm, take_take.
  f_equal. lia.
Qed.

Lemma length_slice b i j :
  wf b -> 0 <= i -> i <= j <= b.(working_length_) ->
  Z.of_nat (length (slice b i j)) = j - i.
Proof.
  intros Hwf Hi Hj. pose proof (length_content _ Hwf).
  rewrite slice_content by done. rewrite length_take, length_drop. lia.
Qed.

Lemma slice_app b i j k :
  wf b -> 0 <= i -> i <= j -> j <= k <= b.(working_length_) ->
  slice b i j ++ slice b j k = slice b i k.
Proof.
  intros Hwf Hi Hj Hk. unfold slice.
  replace (Z.to_nat (k - i)) with (Z.to_nat (j - i) + Z.to_nat (k - j))%nat by lia.
  rewrite <- take_take_drop. rewrite drop_drop. repeat f_equal. lia.
Qed.

Lemma slice_nil b i j : j <= i -> slice b i j = [].
Proof. intros. unfold slice. replace (Z.to_nat (j - i)) with 0%nat by lia. done. Qed.

(** Bytes a client hands to a buffer. *)
Definition piece (l : list Z) : Prop := bytes_ok l /\ raw_size l < 2 ^ 31.

Lemma slice_piece b i j : wf b -> piece (slice b i j).
Proof.
  intros Hwf. pose proof (wf_size _ Hwf). split.
  - apply Forall_take, Forall_drop, wf_bytes, Hwf.
  - unfold slice, raw_size in *. rewrite length_take, length_drop. lia.
Qed.

Lemma range_slice b i j :
  wf b -> 0 <= i <= j -> j <= b.(working_length_) ->
  rwb.range (raw_of b) i j = Ok (slice b i j).
Proof.
  intros [] Hi Hj. unfold rwb.range.
  destruct (_ && _)%bool eqn:E; [done|].
  rewrite !andb_false_iff, !Z.leb_gt in E. lia.
Qed.

Lemma range_inv raw i j l :
  rwb.range raw i j = Ok l ->
  0 <= i <= j /\ j <= raw_size raw /\ l = take (Z.to_nat (j - i)) (drop (Z.to_nat i) raw).
Proof.
  unfold rwb.range. destruct (_ && _)%bool eqn:E; [|discriminate].
  intros. inv_res. breflect. done.
Qed.

(** The reference comparison: equal up to case, one a prefix of the other,
    or neither. *)
Fixpoint compare_ref (l k : list Z) : rwb.COMPARE_RESULT :=
  match l, k with
  | [], [] => rwb.EQUAL
  | [], _ | _, [] => rwb.SUBSTRING
  | x :: l', y :: k' =>
      if rwb.asci_tolower x =? rwb.asci_tolower y then compare_ref l' k'
      else rwb.NOT_EQUAL
  end.

Lemma c_at_drop cs i k :
  drop i cs = k -> c_at cs i = match k with [] => 0 | y :: _ => y end.
Proof.
  intros <-. unfold c_at. revert i. induction cs as [|c cs IH]; intros [|i]; simpl; auto.
Qed.

Lemma c_string_drop cs i y k : c_string cs -> drop i cs = y :: k -> 0 < y < 256.
Proof. intros H Hk. apply (Forall_drop _ i) in H. rewrite Hk in H. by inversion H. Qed.

Lemma compare_loop_ref b cs n i l k :
  wf b -> c_string cs -> drop i (content b) = l -> drop i cs = k ->
  (length l <= n)%nat -> Z.of_nat i <= b.(working_length_) ->
  rwb.compare_loop n b cs (Z.of_nat i) = Ok (compare_ref l k).
Proof.
  intros Hwf Hcs. pose proof (length_content b Hwf) as Hlen.
  revert i l k. induction n as [|n IH]; intros i l k Hl Hk Hn Hi;
    simpl; rewrite Nat2Z.id, (c_at_drop cs i k Hk);
    unfold rwb.get_working_length;
    assert (length l = Z.to_nat b.(working_length_) - i)%nat as Hll
      by (rewrite <- Hl, length_drop; lia).
  - destruct l; [|simpl in Hn; lia]. simpl in Hll.
    replace (Z.of_nat i) with b.(working_length_) by lia.
    rewrite Z.ltb_irrefl, Z.eqb_refl. simpl.
    destruct k as [|y k']; [done|].
    pose proof (c_string_drop _ _ _ _ Hcs Hk).
    replace (y =? 0) with false by lia. done.
  - destruct l as [|x l']; simpl in Hll.
    + replace (Z.of_nat i <? working_length_ b) with false by lia.
      replace (Z.of_nat i =? working_length_ b) with true by lia. simpl.
      destruct k as [|y k']; [done|].
      pose proof (c_string_drop _ _ _ _ Hcs Hk).
      replace (y =? 0) with false by lia. done.
    + replace (Z.of_nat i <? working_length_ b) with true by lia.
      replace (Z.of_nat i =? working_length_ b) with false by lia.
      destruct k as [|y k']; [done|]. simpl.
      pose proof (c_string_drop _ _ _ _ Hcs Hk).
      replace (y =? 0) with false by lia. simpl.
      rewrite (at_content _ _ x) by (try done; by rewrite <- (Nat.add_0_r i), <- lookup_drop, Hl).
      simpl. destruct (_ =? _); simpl; [|done].
      replace (Z.of_nat i + 1) with (Z.of_nat (S i)) by lia.
      apply IH; try (rewrite <- (Nat.add_1_r i), <- drop_drop; rewrite ?Hl, ?Hk; done);
        simpl in *; lia.
Qed.

Definition lower (l : list Z) : list Z := map rwb.asci_tolower l.

Lemma compare_ref_spec l k :
  (compare_ref l k = rwb.EQUAL <-> lower l = lower k) /\
  (compare_ref l k = rwb.NOT_EQUAL <->
     ~ lower l `prefix_of` lower k /\ ~ lower k `prefix_of` lower l).
Proof.
  revert k. induction l as [|x l IH]; intros [|y k]; simpl.
  - split; [done|]. split; [done|]. intros [H _]. destruct H. apply prefix_nil.
  - split; [done|]. split; [done|]. intros [H _]. destruct H. apply prefix_nil.
  - split; [done|]. split; [done|]. intros [_ H]. destruct H. apply prefix_nil.
  - destruct (IH k) as [IH1 IH2]. destruct (Z.eqb_spec (rwb.asci_tolower x) (rwb.asci_tolower y)) as [E|E].
    + rewrite IH1, IH2, E. split; [split; [by intros ->|by intros [= ->]]|].
      split; intros [H1 H2]; split; intros H3.
      * by apply H1, (prefix_cons_inv_2 _ _ _ _ H3).
      * by apply H2, (prefix_cons_inv_2 _ _ _ _ H3).
      * by apply H1, prefix_cons.
      * by apply H2, prefix_cons.
    + split; [split; [done|by intros [= ? ?]]|].
      split; [|done]. intros _. split; intros H3; apply prefix_cons_inv_1 in H3; congruence.
Qed.

(** ** Buffers that store a piece of a message *)

(** An owned vector of [n] bytes whose whole content is to be written. *)
Record stored (n : Z) (b : read_write_buffer) : Prop := {
  stored_wf : wf b;
  stored_size : raw_size (raw_of b) = n;
  stored_owned : b.(b_using_static_buffer_) = false;
  stored_write : b.(write_position_) = 0;
  stored_write_end : b.(write_end_position_) = b.(working_length_)
}.

Lemma stored_make n : 0 <= n < 2 ^ 31 -> stored n (rwb.make n).
Proof.
  intros Hn. constructor; try done; [by apply make_wf|].
  unfold raw_size, raw_of. simpl. rewrite length_replicate. lia.
Qed.

(** An owned vector of [n] bytes, wherever its positions are. *)
Record kept (n : Z) (b : read_write_buffer) : Prop := {
  kept_wf : wf b;
  kept_size : raw_size (raw_of b) = n;
  kept_owned : b.(b_using_static_buffer_) = false
}.

Lemma stored_kept n b : stored n b -> kept n b.
Proof. by intros []. Qed.

Lemma kept_reset n b :
  kept n b -> stored n (rwb.reset b) /\ content (rwb.reset b) = [].
Proof.
  intros [Hwf Hn Ho]. unfold rwb.reset. rewrite Ho. simpl.
  split; [|done]. pose proof Hwf as [].
  constructor; simpl; try done. apply wf_positions; try done; split; try lia; apply raw_size_nonneg.
Qed.

Lemma stored_fits n b size :
  stored n b -> 0 <= size < 2 ^ 31 ->
  rwb.fits_in_buffer size b = Ok (b.(working_length_) + size <=? n).
Proof.
  intros [[] Hn _ _ _] Hs. unfold rwb.fits_in_buffer, rwb.get_physical_length, rwb.get_raw_buffer,
    rwb.get_working_length.
  rewrite wf_vector0. simpl. pose proof (raw_size_nonneg (raw_of b)).
  rewrite (u32_small (raw_size _)), (u32_small size), u32_small, Hn by lia. done.
Qed.

Lemma stored_append n b bytes :
  stored n b -> bytes_ok bytes -> b.(working_length_) + raw_size bytes <= n ->
  exists b', rwb.append_from_buffer bytes b = Ok b' /\ stored n b' /\
    content b' = content b ++ bytes /\ b'.(process_position_) = b.(process_position_).
Proof.
  intros [Hwf Hn Ho Hw He] Hb Hle. pose proof Hwf as []. pose proof (raw_size_nonneg bytes).
  unfold rwb.append_from_buffer, rwb.get_raw_buffer. rewrite Ho, wf_vector0. simpl.
  rewrite !s32_small, check_true by lia. simpl.
  destruct (rwb.memcpy _ _ _) as [raw'| | |] eqn:Em;
    try (unfold rwb.memcpy in Em; case_match; breflect; try done; lia).
  destruct (memcpy_ok _ _ _ _ Em) as [Hrs Hbs]; [done..|].
  rewrite u32_small by lia. eexists. split; [reflexivity|].
  split; [|split; [by apply memcpy_append in Em|done]].
  constructor; simpl; try done; [|by rewrite <- Hn].
  apply wf_new_vector with b; try done; lia.
Qed.

Lemma stored_window n b : stored n b -> window b = content b.
Proof.
  intros [[] _ _ Hw He]. unfold window, slice, content. rewrite Hw, He, drop_0, Z.sub_0_r. done.
Qed.

Lemma compare_no_case_ref cs b :
  wf b -> c_string cs -> rwb.compare_no_case cs b = Ok (compare_ref (content b) cs).
Proof.
  intros Hwf Hcs. pose proof (length_content b Hwf).
  apply (compare_loop_ref b cs _ 0); try done; unfold rwb.get_working_length;
    [lia|destruct Hwf; lia].
Qed.

Lemma equals_spec cs b :
  wf b -> c_string cs -> rwb.equals cs b = Ok (bool_decide (lower (content b) = lower cs)).
Proof.
  intros Hwf Hcs. unfold rwb.equals. rewrite compare_no_case_ref by done.
  rewrite bind_ok. f_equal. destruct (compare_ref_spec (content b) cs) as [He _].
  symmetry. case_match; [apply bool_decide_eq_false|apply bool_decide_eq_true|apply bool_decide_eq_false];
    rewrite <- He; done.
Qed.

(** The buffer of [n] bytes that stores [l]. *)
Definition store (n : nat) (l : list Z) : read_write_buffer :=
  RWB (Some (l ++ replicate (n - length l) 0)) false (raw_size l) 0 (raw_size l) 0.

Lemma stored_store n l :
  bytes_ok l -> (length l <= n)%nat -> Z.of_nat n < 2 ^ 31 ->
  stored (Z.of_nat n) (store n l) /\ content (store n l) = l.
Proof.
  intros Hb Hl Hn. unfold store, content, raw_of, raw_size. simpl. rewrite Nat2Z.id. split.
  - assert (raw_size (l ++ replicate (n - length l) 0) = Z.of_nat n) as Hs
      by (unfold raw_size; rewrite length_app, length_replicate; lia).
    constructor; simpl; try done. constructor; cbn; rewrite ?Hs; try done; try lia.
    apply Forall_app. split; [done|]. apply Forall_replicate. unfold is_byte. lia.
  - by rewrite take_app_length.
Qed.

Lemma append_to_string_content s b :
  wf b -> rwb.append_to_string s b = Ok (s ++ content b).
Proof.
  intros Hwf. pose proof (length_content b Hwf). pose proof Hwf as [].
  unfold rwb.append_to_string, rwb.append_to_string_range, rwb.get_raw_buffer, rwb.get_working_length.
  rewrite check_true, bind_ok by lia. destruct (Z.eqb_spec 0 (working_length_ b)).
  - by rewrite (nil_length_inv (content b)), app_nil_r by lia.
  - rewrite wf_vector0. simpl. rewrite range_slice by (done || lia). simpl.
    unfold slice, content. by rewrite drop_0, Z.sub_0_r.
Qed.

(** * Properties *)


(** [append_from_buffer] appends exactly when [fits_in_buffer] says that
    the bytes fit; it then leaves the vector's size and the process and
    write positions alone and moves the write end to the new working
    length.  Bytes that do not fit abort the process. *)
Theorem append_from_buffer_spec b bytes :
  wf b -> bytes_ok bytes -> b.(working_length_) + raw_size bytes < 2 ^ 31 ->
  b.(b_using_static_buffer_) = false ->
  (rwb.fits_in_buffer (raw_size bytes) b = Ok true ->
   exists b', rwb.append_from_buffer bytes b = Ok b' /\ wf b' /\
     content b' = content b ++ bytes /\
     raw_size (raw_of b') = raw_size (raw_of b) /\
     b'.(process_position_) = b.(process_position_) /\
     b'.(write_position_) = b.(write_position_) /\
     b'.(write_end_position_) = b'.(working_length_)) /\
  (rwb.fits_in_buffer (raw_size bytes) b = Ok false ->
   rwb.append_from_buffer bytes b = Aborted).
Proof.
  intros Hwf Hb Hsz Hst. pose proof Hwf as [].
  pose proof (raw_size_nonneg bytes).
  unfold rwb.fits_in_buffer, rwb.get_physical_length, rwb.append_from_buffer,
    rwb.get_raw_buffer, rwb.get_working_length.
  rewrite wf_vector0, Hst. simpl.
  rewrite (u32_small (raw_size (raw_of b))), (u32_small (raw_size bytes)) by lia.
  rewrite u32_small by lia. rewrite (s32_small (raw_size (raw_of b))) by lia.
  split; intros [= Hfit].
  - apply Z.leb_le in Hfit. rewrite s32_small, check_true by lia. simpl.
    destruct (rwb.memcpy _ _ _) as [raw'| | |] eqn:Em;
      try (unfold rwb.memcpy in Em; case_match; breflect; try done; lia).
    simpl.
    destruct (memcpy_ok _ _ _ _ Em) as [Hrs Hbs]; [done..|].
    eexists. split; [done|]. simpl. split.
    { apply wf_new_vector with b; try done; lia. }
    split; [|done]. by apply memcpy_append in Em.
  - apply Z.leb_gt in Hfit. rewrite s32_small by lia. unfold CHECK_CONDITION.
    replace (_ <=? _) with false by lia. done.
Qed.

(** [compare_no_case] is total on a well-formed buffer: it answers
    [EQUAL] exactly when the content and the C string agree up to ASCII
    case, and [NOT_EQUAL] exactly when neither is a prefix of the other;
    [SUBSTRING] is every other case, a content longer than the string
    included. *)
Theorem compare_no_case_spec b cs :
  wf b -> c_string cs ->
  exists r, rwb.compare_no_case cs b = Ok r /\
    (r = rwb.EQUAL <-> lower (content b) = lower cs) /\
    (r = rwb.NOT_EQUAL <->
       ~ lower (content b) `prefix_of` lower cs /\
       ~ lower cs `prefix_of` lower (content b)).
Proof.
  intros Hwf Hcs. exists (compare_ref (content b) cs).
  split; [by apply compare_no_case_ref|apply compare_ref_spec].
Qed.

(** ** The properties at concrete inputs *)

(** A six-byte buffer that holds [ABC]. *)
Definition sample_buffer : read_write_buffer :=
  RWB (Some [65; 66; 67; 0; 0; 0]) false 3 0 3 0.

Lemma sample_buffer_wf : wf sample_buffer.
Proof.
  constructor; unfold raw_size; simpl; try lia; [done|].
  repeat constructor; unfold is_byte; lia.
Qed.


Lemma append_from_buffer_spec_witness :
  exists b', rwb.append_from_buffer [68; 69] sample_buffer = Ok b' /\
    content b' = [65; 66; 67; 68; 69].
Proof.
  destruct (append_from_buffer_spec sample_buffer [68; 69]) as [H _].
  - exact sample_buffer_wf.
  - forall_concrete.
  - unfold raw_size; simpl; lia.
  - reflexivity.
  - destruct H as (b' & H1 & _ & H2 & _); [reflexivity|]. exists b'. split; [exact H1|exact H2].
Defined.

Lemma compare_no_case_spec_witness :
  exists r, rwb.compare_no_case (str "abc") sample_buffer = Ok r /\ r = rwb.EQUAL.
Proof.
  destruct (compare_no_case_spec sample_buffer (str "abc")) as (r & H1 & H2 & _).
  - exact sample_buffer_wf.
  - forall_concrete.
  - exists r. split; [exact H1|]. apply H2. reflexivity.
Defined.

(** [copy_from_buffer] leaves the positions of the previous content: after
    copying one byte over three, the process position is past the end. *)
Lemma copy_from_buffer_stale :
  exists b', rwb.copy_from_buffer [68] (RWB (Some [65; 66; 67]) false 3 3 3 0) = Ok b' /\
    b'.(working_length_) < b'.(process_position_).
Proof. eexists. split; [reflexivity|]. reflexivity. Qed.
