(* ===== verification/HttpLex.v ===== *)
(** The lexical layer of http/http.cpp: the delimiter sets, the functions
    that scan a token, a run of spaces, one character or a fixed number of
    bytes of a read/write buffer, and the CRLF line parser built on them.
    Each loop is proved equal to a structural recursion over the bytes that
    are left, which gives its result on every branch, and scanning is
    proved independent of how the bytes are split over buffers. *)
From S2P Require Import Prelude Status ReadWriteBuffer.

Definition CR : Z := 13.
Definition LF : Z := 10.
Definition SP : Z := 32.
Definition HT : Z := 9.
Definition DEL : Z := 127.
Definition CHUNK_SIZE_LENGTH : Z := 8.
Definition MAX_FIELD_LENGTH : Z := 512.

(** The global [std::set<char>]s; they are empty until [init]. *)
Record delimiter_sets := DelimiterSets {
  s_space_delimiters : gset Z;
  s_separators : gset Z;
  s_field_delimiters : gset Z;
  s_endline_delimiters : gset Z;
  s_lf_delimiters : gset Z;
  s_white_space : gset Z;
  s_space_endline_delimiters : gset Z
}.

Definition no_delimiters : delimiter_sets := DelimiterSets ∅ ∅ ∅ ∅ ∅ ∅ ∅.

Definition init (g : delimiter_sets) : delimiter_sets :=
  {| s_white_space := g.(s_white_space) ∪ {[HT]} ∪ {[SP]};
     s_space_delimiters := g.(s_space_delimiters) ∪ {[SP]};
     s_field_delimiters := g.(s_field_delimiters) ∪ {[58]};
     s_endline_delimiters := g.(s_endline_delimiters) ∪ {[CR]};
     s_lf_delimiters := g.(s_lf_delimiters) ∪ {[LF]};
     s_space_endline_delimiters := g.(s_space_endline_delimiters) ∪ {[SP]} ∪ {[CR]};
     s_separators := g.(s_separators) ∪ list_to_set (str "()<>@,;:\/[]?={}")
                       ∪ {[34]} ∪ {[SP]} ∪ {[HT]} |}.

(** The sets the parsers run with: [main] calls [init] once. *)
Definition delimiters : delimiter_sets := init no_delimiters.

(** [set.find(c) != set.end()] *)
Definition found (c : Z) (s : gset Z) : bool := bool_decide (c ∈ s).

(** The comparison is one of signed characters, so that every byte of 128
    and above is a control character. *)
Definition is_ctl_char (c : Z) : bool := (to_char c <=? 31) || (to_char c =? DEL).

(** * Scanning a buffer *)

(** [parse_char(buffer, c)] at the process position. *)
Definition parse_char_process (b : read_write_buffer) (c : Z)
    : res (http.STATUS * read_write_buffer) :=
  if rwb.get_working_length b <=? rwb.get_process_position b then Ok (http.INCOMPLETE, b)
  else
    x ← rwb.at_ b (rwb.get_process_position b);
    if x =? c then
      b ← rwb.set_process_position (u32 (rwb.get_process_position b + 1)) b;
      Ok (http.COMPLETE, b)
    else Ok (http.INVALID, b).

(** [parse_char(buffer, begin_offset, end_offset, c)]: the result is the
    status and the final value of [end_offset]. *)
Definition parse_char (b : read_write_buffer) (begin_offset end_offset c : Z)
    : res (http.STATUS * Z) :=
  if rwb.get_working_length b <=? begin_offset then Ok (http.INCOMPLETE, begin_offset)
  else
    x ← rwb.at_ b begin_offset;
    if x =? c then Ok (http.COMPLETE, u32 (begin_offset + 1))
    else Ok (http.INVALID, end_offset).

(** The loop of [parse_token]: [i] and [current_length] are its variables,
    [n] bounds the iterations left.  The result is the status, the final
    [end_offset] and the final [current_length]. *)
Fixpoint parse_token_loop (n : nat) (b : read_write_buffer) (i end_offset current_length
    max_length : Z) (delims : gset Z) : res (http.STATUS * Z * Z) :=
  if (i <? s32 (rwb.get_working_length b)) && (current_length <? max_length) then
    match n with
    | O => NoFuel
    | S n' =>
        c ← rwb.at_ b (u32 i);
        if found c delims then Ok (http.COMPLETE, u32 (i + 1), current_length)
        else if is_ctl_char c then Ok (http.INVALID, end_offset, current_length)
        else parse_token_loop n' b (i + 1) end_offset (u32 (current_length + 1))
               max_length delims
    end
  else if max_length <=? current_length then
    Ok (http.DATAOVERFLOW, end_offset, current_length)
  else Ok (http.INCOMPLETE, u32 i, current_length).

Definition parse_token (b : read_write_buffer) (begin_offset end_offset current_length
    max_length : Z) (delims : gset Z) : res (http.STATUS * Z * Z) :=
  parse_token_loop (Z.to_nat (rwb.get_working_length b - begin_offset)) b
    (s32 begin_offset) end_offset current_length max_length delims.

(** The loop of [parse_equal].  It skips the characters of
    [s_space_delimiters]: the parameter [compare_chars] is not read. *)
Fixpoint parse_equal_loop (n : nat) (b : read_write_buffer) (i end_offset current_length
    max_length : Z) : res (http.STATUS * Z * Z) :=
  if (i <? s32 (rwb.get_working_length b)) && (current_length <? max_length) then
    match n with
    | O => NoFuel
    | S n' =>
        c ← rwb.at_ b (u32 i);
        if negb (found c delimiters.(s_space_delimiters)) then
          Ok (http.COMPLETE, u32 i, current_length)
        else parse_equal_loop n' b (i + 1) end_offset (u32 (current_length + 1)) max_length
    end
  else if max_length <=? current_length then
    Ok (http.DATAOVERFLOW, end_offset, current_length)
  else Ok (http.INCOMPLETE, u32 i, current_length).

Definition parse_equal (b : read_write_buffer) (begin_offset end_offset current_length
    max_length : Z) (compare_chars : gset Z) : res (http.STATUS * Z * Z) :=
  parse_equal_loop (Z.to_nat (rwb.get_working_length b - begin_offset)) b
    (s32 begin_offset) end_offset current_length max_length.

(** The result is the status, the buffer and the final [current_length]. *)
Definition parse_n_length_buffer (b : read_write_buffer) (current_length max_length : Z)
    : res (http.STATUS * read_write_buffer * Z) :=
  let buffer_size := rwb.get_working_length b in
  let begin_offset := rwb.get_process_position b in
  let chars_left_in_buffer := u32 (buffer_size - begin_offset) in
  let missing := u32 (max_length - current_length) in
  let chars_to_add := if chars_left_in_buffer <? missing then chars_left_in_buffer
                      else missing in
  let current_length := u32 (current_length + chars_to_add) in
  _ ← CHECK_CONDITION (current_length <=? max_length);
  b ← rwb.set_process_position (u32 (begin_offset + chars_to_add)) b;
  Ok (if current_length <? max_length then http.INCOMPLETE else http.COMPLETE,
      b, current_length).

(** * The line parser *)
Module line_parser.

Inductive LINE_END_OPTION := ALLOW_ONLY_LF | REQUIRE_CRLF.
Inductive STATE := PARSE_LINE | PARSE_LF | PARSE_COMPLETE.

Record t := LineParser {
  current_length_ : Z;
  max_length_ : Z;
  state_ : STATE;
  line_end_option_ : LINE_END_OPTION
}.

Definition reset (option : LINE_END_OPTION) (max_length : Z) : t :=
  LineParser 0 max_length PARSE_LINE option.

(** The [while(true)] of [parse_line]; [fuel] bounds its iterations. *)
Fixpoint parse_line_loop (fuel : nat) (p : t) (b : read_write_buffer)
    (begin_offset end_offset : Z) : res (http.STATUS * Z * t) :=
  match fuel with
  | O => NoFuel
  | S fuel =>
    match p.(state_) with
    | PARSE_COMPLETE => Ok (http.INVALID, end_offset, p)
    | PARSE_LINE =>
        '(st, end_offset, cur) ← parse_token b begin_offset end_offset
           p.(current_length_) p.(max_length_) delimiters.(s_endline_delimiters);
        let p := LineParser cur p.(max_length_) p.(state_) p.(line_end_option_) in
        match st with
        | http.COMPLETE =>
            parse_line_loop fuel
              (LineParser cur p.(max_length_) PARSE_LF p.(line_end_option_))
              b end_offset end_offset
        | http.INVALID | http.DATAOVERFLOW =>
            Ok (st, end_offset,
                LineParser cur p.(max_length_) PARSE_COMPLETE p.(line_end_option_))
        | http.INCOMPLETE => Ok (st, end_offset, p)
        | _ => Aborted
        end
    | PARSE_LF =>
        '(st, end_offset) ← parse_char b begin_offset end_offset LF;
        match st with
        | http.COMPLETE | http.INVALID | http.DATAOVERFLOW =>
            Ok (st, end_offset,
                LineParser p.(current_length_) p.(max_length_) PARSE_COMPLETE
                  p.(line_end_option_))
        | http.INCOMPLETE => Ok (st, end_offset, p)
        | _ => Aborted
        end
    end
  end.

Definition parse_line (p : t) (b : read_write_buffer) (begin_offset end_offset : Z)
    : res (http.STATUS * Z * t) :=
  parse_line_loop 3 p b begin_offset end_offset.

End line_parser.

(** * Scanning as a recursion over the bytes that are left *)

(** A byte a token can hold. *)
Definition token_char (delims : gset Z) (c : Z) : Prop :=
  found c delims = false /\ is_ctl_char c = false.

(** Status, bytes consumed (the delimiter included) and the final length. *)
Fixpoint scan_token (delims : gset Z) (max cur : Z) (l : list Z)
    : http.STATUS * nat * Z :=
  if max <=? cur then (http.DATAOVERFLOW, 0%nat, cur)
  else
    match l with
    | [] => (http.INCOMPLETE, 0%nat, cur)
    | c :: l' =>
        if found c delims then (http.COMPLETE, 1%nat, cur)
        else if is_ctl_char c then (http.INVALID, 0%nat, cur)
        else
          let '(st, k, cur') := scan_token delims max (cur + 1) l' in (st, S k, cur')
    end.

Fixpoint scan_spaces (max cur : Z) (l : list Z) : http.STATUS * nat * Z :=
  if max <=? cur then (http.DATAOVERFLOW, 0%nat, cur)
  else
    match l with
    | [] => (http.INCOMPLETE, 0%nat, cur)
    | c :: l' =>
        if negb (found c delimiters.(s_space_delimiters)) then (http.COMPLETE, 0%nat, cur)
        else let '(st, k, cur') := scan_spaces max (cur + 1) l' in (st, S k, cur')
    end.

(** [end_offset] is assigned by the two statuses that stop at a position. *)
Definition token_end (st : http.STATUS) (begin_offset end_offset : Z) (k : nat) : Z :=
  match st with
  | http.COMPLETE | http.INCOMPLETE => begin_offset + Z.of_nat k
  | _ => end_offset
  end.

(** What a scan of the bytes [l] can find, declaratively. *)
Inductive token_result (delims : gset Z) (max cur : Z) (l : list Z)
    : http.STATUS -> nat -> Z -> Prop :=
  | token_complete pre d post :
      l = pre ++ d :: post -> Forall (token_char delims) pre ->
      found d delims = true -> cur + raw_size pre < max ->
      token_result delims max cur l http.COMPLETE (S (length pre)) (cur + raw_size pre)
  | token_invalid pre d post :
      l = pre ++ d :: post -> Forall (token_char delims) pre ->
      found d delims = false -> is_ctl_char d = true -> cur + raw_size pre < max ->
      token_result delims max cur l http.INVALID (length pre) (cur + raw_size pre)
  | token_incomplete :
      Forall (token_char delims) l -> cur + raw_size l < max ->
      token_result delims max cur l http.INCOMPLETE (length l) (cur + raw_size l)
  | token_overflow pre post :
      l = pre ++ post -> Forall (token_char delims) pre ->
      cur + raw_size pre = Z.max cur max ->
      token_result delims max cur l http.DATAOVERFLOW (length pre) (cur + raw_size pre).

Lemma raw_size_cons c l : raw_size (c :: l) = raw_size l + 1.
Proof. unfold raw_size. simpl. lia. Qed.

Lemma token_result_cons delims max cur c l st k cur' :
  cur < max -> token_char delims c ->
  token_result delims max (cur + 1) l st k cur' ->
  token_result delims max cur (c :: l) st (S k) cur'.
Proof.
  intros Hlt Hc H. inversion H; subst.
  - replace (cur + 1 + raw_size pre) with (cur + raw_size (c :: pre))
      in * by (rewrite raw_size_cons; lia).
    eapply (token_complete _ _ _ _ (c :: pre)); eauto.
  - replace (cur + 1 + raw_size pre) with (cur + raw_size (c :: pre))
      in * by (rewrite raw_size_cons; lia).
    eapply (token_invalid _ _ _ _ (c :: pre)); eauto.
  - replace (cur + 1 + raw_size l) with (cur + raw_size (c :: l))
      in * by (rewrite raw_size_cons; lia).
    apply token_incomplete; eauto.
  - replace (cur + 1 + raw_size pre) with (cur + raw_size (c :: pre))
      in * by (rewrite raw_size_cons; lia).
    eapply (token_overflow _ _ _ _ (c :: pre)); eauto. lia.
Qed.

(** The scan stops before the first byte: nothing is added to [cur]. *)
Ltac stops_at c :=
  replace c with (c + raw_size []) at 2 by (unfold raw_size; simpl; lia);
  econstructor; try reflexivity; unfold raw_size; simpl; eauto; lia.

Lemma scan_token_result delims max cur l st k cur' :
  scan_token delims max cur l = (st, k, cur') -> token_result delims max cur l st k cur'.
Proof.
  revert cur st k cur'. induction l as [|c l IH]; simpl; intros cur st k cur'.
  - destruct (Z.leb_spec max cur); intros [= <- <- <-]; [|stops_at cur].
    change 0%nat with (length (@nil Z)). stops_at cur.
  - destruct (Z.leb_spec max cur).
    { intros [= <- <- <-]. change 0%nat with (length (@nil Z)).
      replace cur with (cur + raw_size []) at 2 by (unfold raw_size; simpl; lia).
      eapply (token_overflow _ _ _ _ []); eauto; unfold raw_size; simpl; lia. }
    destruct (found c delims) eqn:Ef.
    { intros [= <- <- <-]. change 1%nat with (S (length (@nil Z))). stops_at cur. }
    destruct (is_ctl_char c) eqn:Ec.
    { intros [= <- <- <-]. change 0%nat with (length (@nil Z)). stops_at cur. }
    destruct (scan_token delims max (cur + 1) l) as [[st1 k1] cur1] eqn:Es.
    intros [= <- <- <-]. apply token_result_cons; [done|done|]. by apply IH.
Qed.

(** Scanning two pieces one after the other is scanning them at once. *)
Lemma scan_token_app delims max cur l1 l2 :
  scan_token delims max cur (l1 ++ l2) =
  match scan_token delims max cur l1 with
  | (http.INCOMPLETE, k1, cur1) =>
      let '(st, k2, cur2) := scan_token delims max cur1 l2 in (st, (k1 + k2)%nat, cur2)
  | r => r
  end.
Proof.
  revert cur. induction l1 as [|c l1 IH]; simpl; intros cur.
  - destruct l2; simpl; destruct (max <=? cur) eqn:E; rewrite ?E; try done.
    repeat case_match; by simplify_eq.
  - destruct (max <=? cur); [done|]. destruct (found c delims); [done|].
    destruct (is_ctl_char c); [done|]. rewrite IH.
    destruct (scan_token delims max (cur + 1) l1) as [[[] k1] cur1]; try done.
    by destruct (scan_token delims max cur1 l2) as [[? ?] ?].
Qed.

Lemma scan_token_prefix delims max cur pre l :
  Forall (token_char delims) pre -> cur + raw_size pre <= max ->
  scan_token delims max cur (pre ++ l) =
  let '(st, k, cur') := scan_token delims max (cur + raw_size pre) l in
  (st, (length pre + k)%nat, cur').
Proof.
  intros Hpre. revert cur. induction Hpre as [|c pre [Hf Hc] _ IH]; intros cur Hle.
  - unfold raw_size. simpl. rewrite Z.add_0_r.
    by destruct (scan_token delims max cur l) as [[? ?] ?].
  - rewrite raw_size_cons in *. pose proof (raw_size_nonneg pre). simpl.
    replace (max <=? cur) with false by lia. rewrite Hf, Hc, IH by lia.
    replace (cur + (raw_size pre + 1)) with (cur + 1 + raw_size pre) by lia.
    by destruct (scan_token delims max (cur + 1 + raw_size pre) l) as [[? ?] ?].
Qed.

Lemma scan_token_complete delims max cur pre d post :
  Forall (token_char delims) pre -> found d delims = true -> cur + raw_size pre < max ->
  scan_token delims max cur (pre ++ d :: post) =
  (http.COMPLETE, S (length pre), cur + raw_size pre).
Proof.
  intros Hpre Hd Hlt. rewrite scan_token_prefix by (done || lia). simpl.
  replace (max <=? _) with false by lia. rewrite Hd. do 2 f_equal. lia.
Qed.

Lemma scan_token_incomplete delims max cur l :
  Forall (token_char delims) l -> cur + raw_size l < max ->
  scan_token delims max cur l = (http.INCOMPLETE, length l, cur + raw_size l).
Proof.
  intros Hl Hlt. rewrite <- (app_nil_r l) at 1. rewrite scan_token_prefix by (done || lia).
  simpl. replace (max <=? _) with false by lia. do 2 f_equal. lia.
Qed.

(** The byte at the loop variable, and the rest of the content after it. *)
Lemma at_drop b (i : nat) c l :
  wf b -> drop i (content b) = c :: l ->
  rwb.at_ b (Z.of_nat i) = Ok c /\ drop (S i) (content b) = l /\
  Z.of_nat i < b.(working_length_).
Proof.
  intros Hwf Hd. pose proof (length_content b Hwf).
  assert (content b !! i = Some c) as Hc
    by (by rewrite <- (Nat.add_0_r i), <- lookup_drop, Hd).
  pose proof (lookup_lt_Some _ _ _ Hc).
  split; [by apply at_content|]. split; [|lia].
  rewrite <- (Nat.add_1_r i), <- drop_drop, Hd. done.
Qed.

Lemma parse_token_loop_scan b delims max e n i cur l :
  wf b -> max < 2 ^ 31 -> 0 <= cur -> drop i (content b) = l ->
  Z.of_nat i <= b.(working_length_) -> (length l <= n)%nat ->
  parse_token_loop n b (Z.of_nat i) e cur max delims =
  let '(st, k, cur') := scan_token delims max cur l in
  Ok (st, token_end st (Z.of_nat i) e k, cur').
Proof.
  intros Hwf Hmax. pose proof Hwf as [].
  revert i cur l. induction n as [|n IH]; intros i cur l Hcur Hl Hi Hn; simpl;
    unfold rwb.get_working_length; rewrite (s32_small (working_length_ b)) by lia;
    pose proof (length_content b Hwf) as Hlen;
    assert (length l = Z.to_nat b.(working_length_) - i)%nat as Hll
      by (rewrite <- Hl, length_drop; lia);
    destruct l as [|c l]; simpl in Hn, Hll; try lia.
  1,2: replace (Z.of_nat i <? working_length_ b) with false by lia; simpl;
       destruct (max <=? cur); simpl; rewrite ?Z.add_0_r, ?u32_small by lia; done.
  destruct (at_drop b i c l Hwf Hl) as (Hat & Hd & Hlt).
  replace (Z.of_nat i <? working_length_ b) with true by lia. simpl.
  rewrite Z.ltb_antisym. destruct (max <=? cur) eqn:Em; simpl; [done|].
  rewrite (u32_small (Z.of_nat i)), Hat by lia. simpl.
  destruct (found c delims); simpl; [by rewrite u32_small by lia|].
  destruct (is_ctl_char c); simpl; [done|]. apply Z.leb_gt in Em.
  rewrite u32_small by lia. replace (Z.of_nat i + 1) with (Z.of_nat (S i)) by lia.
  rewrite (IH (S i) (cur + 1) l) by (try done; lia).
  destruct (scan_token delims max (cur + 1) l) as [[st k] cur'].
  do 3 f_equal. destruct st; simpl; try done; lia.
Qed.

(** [parse_token] is the scan of the content after [begin_offset]. *)
Lemma parse_token_scan b begin_offset e cur max delims :
  wf b -> max < 2 ^ 31 -> 0 <= cur -> 0 <= begin_offset <= b.(working_length_) ->
  parse_token b begin_offset e cur max delims =
  let '(st, k, cur') :=
    scan_token delims max cur (drop (Z.to_nat begin_offset) (content b)) in
  Ok (st, token_end st begin_offset e k, cur').
Proof.
  intros Hwf Hmax Hcur Hb. pose proof Hwf as []. pose proof (length_content b Hwf).
  unfold parse_token, rwb.get_working_length.
  rewrite s32_small by lia. rewrite <- (Z2Nat.id begin_offset) at 2 by lia.
  rewrite parse_token_loop_scan with (l := drop (Z.to_nat begin_offset) (content b));
    rewrite ?length_drop; try done; try lia.
  rewrite Z2Nat.id by lia. done.
Qed.

Lemma parse_equal_loop_scan b max e n i cur l :
  wf b -> max < 2 ^ 31 -> 0 <= cur -> drop i (content b) = l ->
  Z.of_nat i <= b.(working_length_) -> (length l <= n)%nat ->
  parse_equal_loop n b (Z.of_nat i) e cur max =
  let '(st, k, cur') := scan_spaces max cur l in
  Ok (st, token_end st (Z.of_nat i) e k, cur').
Proof.
  intros Hwf Hmax. pose proof Hwf as [].
  revert i cur l. induction n as [|n IH]; intros i cur l Hcur Hl Hi Hn; simpl;
    unfold rwb.get_working_length; rewrite (s32_small (working_length_ b)) by lia;
    pose proof (length_content b Hwf) as Hlen;
    assert (length l = Z.to_nat b.(working_length_) - i)%nat as Hll
      by (rewrite <- Hl, length_drop; lia);
    destruct l as [|c l]; simpl in Hn, Hll; try lia.
  1,2: replace (Z.of_nat i <? working_length_ b) with false by lia; simpl;
       destruct (max <=? cur); simpl; rewrite ?Z.add_0_r, ?u32_small by lia; done.
  destruct (at_drop b i c l Hwf Hl) as (Hat & Hd & Hlt).
  replace (Z.of_nat i <? working_length_ b) with true by lia. simpl.
  rewrite Z.ltb_antisym. destruct (max <=? cur) eqn:Em; simpl; [done|].
  rewrite (u32_small (Z.of_nat i)), Hat by lia. simpl.
  destruct (found c _); simpl; [|by rewrite Z.add_0_r]. apply Z.leb_gt in Em.
  rewrite u32_small by lia. replace (Z.of_nat i + 1) with (Z.of_nat (S i)) by lia.
  rewrite (IH (S i) (cur + 1) l) by (try done; lia).
  destruct (scan_spaces max (cur + 1) l) as [[st k] cur'].
  do 3 f_equal. destruct st; simpl; try done; lia.
Qed.

Lemma parse_equal_scan b begin_offset e cur max cs :
  wf b -> max < 2 ^ 31 -> 0 <= cur -> 0 <= begin_offset <= b.(working_length_) ->
  parse_equal b begin_offset e cur max cs =
  let '(st, k, cur') :=
    scan_spaces max cur (drop (Z.to_nat begin_offset) (content b)) in
  Ok (st, token_end st begin_offset e k, cur').
Proof.
  intros Hwf Hmax Hcur Hb. pose proof Hwf as []. pose proof (length_content b Hwf).
  unfold parse_equal, rwb.get_working_length.
  rewrite s32_small by lia. rewrite <- (Z2Nat.id begin_offset) at 2 by lia.
  rewrite parse_equal_loop_scan with (l := drop (Z.to_nat begin_offset) (content b));
    rewrite ?length_drop; try done; try lia.
  rewrite Z2Nat.id by lia. done.
Qed.

Lemma parse_char_spec b begin_offset e c :
  wf b -> 0 <= begin_offset ->
  parse_char b begin_offset e c =
  match drop (Z.to_nat begin_offset) (content b) with
  | [] => Ok (http.INCOMPLETE, begin_offset)
  | x :: _ => if x =? c then Ok (http.COMPLETE, begin_offset + 1) else Ok (http.INVALID, e)
  end.
Proof.
  intros Hwf Hb. pose proof Hwf as []. pose proof (length_content b Hwf) as Hlen.
  unfold parse_char, rwb.get_working_length.
  destruct (drop _ _) as [|x l] eqn:Ed.
  - apply (f_equal length) in Ed. rewrite length_drop in Ed. simpl in Ed.
    replace (_ <=? _) with true by lia. done.
  - destruct (at_drop b _ x l Hwf Ed) as (Hat & _ & Hlt).
    rewrite Z2Nat.id in Hat, Hlt by lia.
    replace (_ <=? _) with false by lia. rewrite Hat. simpl.
    rewrite u32_small by lia. done.
Qed.

Lemma parse_char_process_spec b c :
  wf b ->
  parse_char_process b c =
  match unprocessed b with
  | [] => Ok (http.INCOMPLETE, b)
  | x :: _ =>
      if x =? c then Ok (http.COMPLETE, moved_to (b.(process_position_) + 1) b)
      else Ok (http.INVALID, b)
  end.
Proof.
  intros Hwf. pose proof Hwf as []. pose proof (length_content b Hwf) as Hlen.
  unfold parse_char_process, rwb.get_working_length, rwb.get_process_position, unprocessed.
  destruct (drop _ _) as [|x l] eqn:Ed.
  - apply (f_equal length) in Ed. rewrite length_drop in Ed. simpl in Ed.
    replace (_ <=? _) with true by lia. done.
  - destruct (at_drop b _ x l Hwf Ed) as (Hat & _ & Hlt).
    rewrite Z2Nat.id in Hat, Hlt by lia.
    replace (_ <=? _) with false by lia. rewrite Hat. simpl.
    destruct (x =? c); [|done]. rewrite u32_small by lia.
    by rewrite set_process_position_ok by lia.
Qed.

(** The byte classes of the two delimiter sets differ in CR alone, which is
    a control character. *)
Lemma token_char_space_endline c :
  token_char delimiters.(s_space_delimiters) c ->
  token_char delimiters.(s_space_endline_delimiters) c.
Proof.
  intros [Hf Hc]. split; [|done]. unfold found in *. rewrite bool_decide_eq_false in *.
  intros Hin. unfold delimiters, init in *. simpl in *. apply elem_of_union in Hin as [Hin|Hin].
  - apply Hf. set_solver.
  - apply elem_of_singleton in Hin. subst c. done.
Qed.

Lemma parse_n_length_ok b cur max :
  wf b -> 0 <= cur <= max -> max < 2 ^ 32 ->
  let k := Z.min (b.(working_length_) - b.(process_position_)) (max - cur) in
  parse_n_length_buffer b cur max =
  Ok (if cur + k <? max then http.INCOMPLETE else http.COMPLETE,
      moved_to (b.(process_position_) + k) b, cur + k).
Proof.
  intros Hwf Hcur Hmax k. pose proof Hwf as []. unfold parse_n_length_buffer,
    rwb.get_working_length, rwb.get_process_position.
  rewrite (u32_small (working_length_ b - _)), (u32_small (max - cur)) by lia.
  replace (if _ <? _ then _ else _) with k by (unfold k; destruct (Z.ltb_spec
    (working_length_ b - process_position_ b) (max - cur)); lia).
  rewrite (u32_small (cur + k)), (u32_small (_ + k)) by (unfold k; lia).
  rewrite check_true by (unfold k; lia). simpl.
  rewrite set_process_position_ok by (unfold k; lia). done.
Qed.

(** * Properties *)

(** On a well-formed buffer [parse_token] never aborts, never reads
    outside the buffer and always returns: it stops just after the first
    delimiter ([COMPLETE]), at the first control character ([INVALID]), at
    the length limit ([DATAOVERFLOW]) or at the end of the data
    ([INCOMPLETE]), and it moves [end_offset] exactly in the first and the
    last case. *)
Theorem parse_token_spec b begin_offset e cur max delims :
  wf b -> max < 2 ^ 31 -> 0 <= cur -> 0 <= begin_offset <= b.(working_length_) ->
  exists st k cur',
    parse_token b begin_offset e cur max delims =
      Ok (st, token_end st begin_offset e k, cur') /\
    token_result delims max cur (drop (Z.to_nat begin_offset) (content b)) st k cur'.
Proof.
  intros Hwf Hmax Hcur Hb. rewrite parse_token_scan by done.
  destruct (scan_token _ _ _ _) as [[st k] cur'] eqn:E.
  exists st, k, cur'. split; [done|]. by apply scan_token_result.
Qed.

(** Token scanning does not depend on how the bytes arrive: if a token
    is still incomplete at the end of one buffer, then scanning the next
    buffer with the length reached so far ends with the same status and
    the same length as scanning one buffer that holds the bytes of both,
    and stops at the same byte. *)
Theorem parse_token_split b1 b2 b12 o1 o2 o12 e1 e2 e12 cur max delims end1 cur1 :
  wf b1 -> wf b2 -> wf b12 -> max < 2 ^ 31 -> 0 <= cur ->
  0 <= o1 <= b1.(working_length_) -> 0 <= o2 <= b2.(working_length_) ->
  0 <= o12 <= b12.(working_length_) ->
  drop (Z.to_nat o12) (content b12) =
    drop (Z.to_nat o1) (content b1) ++ drop (Z.to_nat o2) (content b2) ->
  parse_token b1 o1 e1 cur max delims = Ok (http.INCOMPLETE, end1, cur1) ->
  end1 = b1.(working_length_) /\
  exists st end2 end12 cur2,
    parse_token b2 o2 e2 cur1 max delims = Ok (st, end2, cur2) /\
    parse_token b12 o12 e12 cur max delims = Ok (st, end12, cur2) /\
    (st = http.COMPLETE \/ st = http.INCOMPLETE ->
     end12 - o12 = (end1 - o1) + (end2 - o2)).
Proof.
  intros Hwf1 Hwf2 Hwf12 Hmax Hcur Ho1 Ho2 Ho12 Happ H1.
  pose proof (length_content b1 Hwf1) as Hlen.
  rewrite parse_token_scan in H1 by done.
  destruct (scan_token delims max cur (drop _ (content b1))) as [[st1 k1] c1] eqn:E1.
  injection H1 as -> <- ->. pose proof (scan_token_result _ _ _ _ _ _ _ E1) as R1.
  inversion R1; subst. rewrite length_drop in *. simpl.
  split; [unfold raw_size in *; lia|].
  rewrite !parse_token_scan by (try done; pose proof (raw_size_nonneg
    (drop (Z.to_nat o1) (content b1))); lia).
  rewrite Happ, scan_token_app, E1.
  destruct (scan_token delims max _ (drop _ (content b2))) as [[st2 k2] c2] eqn:E2.
  do 4 eexists. split; [done|]. split; [done|].
  intros [-> | ->]; simpl; lia.
Qed.

(** [parse_n_length_buffer] consumes exactly as many bytes as are both
    present and missing, moves the process position by that number and
    reports [COMPLETE] exactly when the requested length is reached. *)
Theorem parse_n_length_buffer_spec b cur max :
  wf b -> 0 <= cur <= max -> max < 2 ^ 32 ->
  let k := Z.min (b.(working_length_) - b.(process_position_)) (max - cur) in
  parse_n_length_buffer b cur max =
  Ok (if cur + k <? max then http.INCOMPLETE else http.COMPLETE,
      moved_to (b.(process_position_) + k) b, cur + k).
Proof.
  exact (parse_n_length_ok b cur max).
Qed.

(** A fresh line parser accepts a line of fewer than [max] characters
    ended by CR LF, whatever its line-end option, stops just after the LF
    and refuses everything until it is reset. *)
Theorem parse_line_spec b begin_offset e option max pre post :
  wf b -> 0 <= begin_offset <= b.(working_length_) -> max < 2 ^ 31 ->
  drop (Z.to_nat begin_offset) (content b) = pre ++ CR :: LF :: post ->
  Forall (token_char delimiters.(s_endline_delimiters)) pre -> raw_size pre < max ->
  exists p,
    line_parser.parse_line (line_parser.reset option max) b begin_offset e =
      Ok (http.COMPLETE, begin_offset + raw_size pre + 2, p) /\
    forall b' o e', line_parser.parse_line p b' o e' = Ok (http.INVALID, e', p).
Proof.
  intros Hwf Hb Hmax Hd Hpre Hlen. pose proof Hwf as []. pose proof (raw_size_nonneg pre).
  pose proof (length_content b Hwf). assert (length (drop (Z.to_nat begin_offset) (content b))
    = length (pre ++ CR :: LF :: post)) as Hll by (by rewrite Hd).
  rewrite length_drop, length_app in Hll. simpl in Hll.
  unfold line_parser.parse_line, line_parser.reset. simpl.
  rewrite parse_token_scan, Hd, scan_token_complete by done. simpl.
  rewrite parse_char_spec by (try done; lia).
  replace (Z.to_nat (begin_offset + Z.of_nat (S (length pre))))
    with (Z.to_nat begin_offset + S (length pre))%nat by lia.
  rewrite <- drop_drop, Hd, (cons_middle CR), app_assoc.
  rewrite drop_app_length' by (rewrite length_app; simpl; lia). simpl.
  replace (begin_offset + Z.of_nat (S (length pre)) + 1)
    with (begin_offset + raw_size pre + 2) by (unfold raw_size; lia).
  eexists. split; [reflexivity|]. intros. reflexivity.
Qed.

(** ** The properties at concrete inputs *)

(** The request line fragment [GET /] and its continuation. *)
Definition sample_get : read_write_buffer := RWB (Some (str "GET /")) false 5 0 5 0.
Definition sample_ge : read_write_buffer := RWB (Some (str "GE")) false 2 0 2 0.
Definition sample_t : read_write_buffer := RWB (Some (str "T /")) false 3 0 3 0.

Ltac concrete_wf :=
  constructor; unfold raw_size; cbn; try lia; try reflexivity; forall_concrete.

Lemma sample_get_wf : wf sample_get.
Proof. concrete_wf. Qed.
Lemma sample_ge_wf : wf sample_ge.
Proof. concrete_wf. Qed.
Lemma sample_t_wf : wf sample_t.
Proof. concrete_wf. Qed.

Lemma parse_token_spec_witness :
  exists st k cur',
    parse_token sample_get 0 0 0 MAX_FIELD_LENGTH delimiters.(s_space_delimiters) =
      Ok (st, token_end st 0 0 k, cur') /\
    token_result delimiters.(s_space_delimiters) MAX_FIELD_LENGTH 0 (str "GET /") st k cur'.
Proof.
  apply (parse_token_spec sample_get 0 0 0 MAX_FIELD_LENGTH).
  - exact sample_get_wf.
  - unfold MAX_FIELD_LENGTH. lia.
  - lia.
  - cbn. lia.
Defined.

Lemma parse_token_split_witness :
  exists st end2 end12 cur2,
    parse_token sample_t 0 0 2 512 delimiters.(s_space_delimiters) = Ok (st, end2, cur2) /\
    parse_token sample_get 0 0 0 512 delimiters.(s_space_delimiters) = Ok (st, end12, cur2).
Proof.
  destruct (parse_token_split sample_ge sample_t sample_get 0 0 0 0 0 0 0 512
    delimiters.(s_space_delimiters) 2 2) as (_ & st & e2 & e12 & c2 & H1 & H2 & _);
    try exact sample_ge_wf; try exact sample_t_wf; try exact sample_get_wf;
    try (cbn; lia); try (vm_compute; reflexivity).
  exists st, e2, e12, c2. split; [exact H1|exact H2].
Defined.

Lemma parse_n_length_buffer_spec_witness :
  parse_n_length_buffer sample_get 1 4 = Ok (http.COMPLETE, moved_to 3 sample_get, 4).
Proof. apply (parse_n_length_buffer_spec sample_get 1 4); [exact sample_get_wf|lia|lia]. Defined.

Lemma parse_line_spec_witness :
  exists p, line_parser.parse_line (line_parser.reset line_parser.ALLOW_ONLY_LF 80)
    (RWB (Some (str "ab" ++ [13; 10])) false 4 0 4 0) 0 0 = Ok (http.COMPLETE, 4, p).
Proof.
  destruct (parse_line_spec (RWB (Some (str "ab" ++ [13; 10])) false 4 0 4 0) 0 0
    line_parser.ALLOW_ONLY_LF 80 (str "ab") []) as (p & H & _).
  - concrete_wf.
  - cbn. lia.
  - lia.
  - reflexivity.
  - repeat constructor.
  - unfold raw_size. cbn. lia.
  - exists p. exact H.
Defined.

(** [parse_equal] is called with the set of space and tab but skips only
    spaces: a tab ends the run of white space. *)
Lemma parse_equal_ignores_its_set :
  found HT delimiters.(s_white_space) = true /\
  parse_equal (RWB (Some [HT; 65]) false 2 0 2 0) 0 0 0 MAX_FIELD_LENGTH
    delimiters.(s_white_space) = Ok (http.COMPLETE, 0, 0).
Proof. split; vm_compute; reflexivity. Qed.
