(* ===== verification/StartLine.v ===== *)
(** The start-line parser of http/start_line_parser.cpp and the scanners of
    http/http.cpp it uses, which work on the const buffers of the socket
    library.  That library is not part of the program: its const buffer is
    the class [ConstBuffer], with the documented behaviour of the four
    operations the parser calls as its laws. *)
From S2P Require Import Prelude Status ReadWriteBuffer HttpLex.

(** A const buffer is an address and a size.  [buffer_cast] gives the bytes
    between them. *)
Class ConstBuffer (B : Type) := {
  cb_default : B;
  buffer_cast : B -> list Z;
  cb_prefix : B -> nat -> B;
  cb_advance : B -> nat -> B
}.

Class ConstBufferLaws (B : Type) `{ConstBuffer B} : Prop := {
  cast_default : buffer_cast cb_default = [];
  cast_prefix b n :
    (n <= length (buffer_cast b))%nat -> buffer_cast (cb_prefix b n) = take n (buffer_cast b);
  cast_advance b n : buffer_cast (cb_advance b n) = drop n (buffer_cast b)
}.

(** The receiver is handed the bytes of a token. *)
Class i_start_line_receiver (R : Type) := {
  start_line_token1 : R -> list Z -> bool -> R * http.STATUS;
  start_line_token2 : R -> list Z -> bool -> R * http.STATUS;
  start_line_token3 : R -> list Z -> bool -> R * http.STATUS
}.

Record parse_result (B : Type) := ParseResult {
  status : http.STATUS;
  result_buffer : B;
  remaining_buffer : B;
  delimiter : option Z
}.
Arguments ParseResult {B}.
Arguments status {B}.
Arguments result_buffer {B}.
Arguments remaining_buffer {B}.
Arguments delimiter {B}.

Section scanners.
Context {B : Type} `{ConstBuffer B}.

Definition buffer_size (b : B) : Z := raw_size (buffer_cast b).

(** The loop of [parse_token] on const buffers; [n] bounds the iterations. *)
Fixpoint cb_parse_token_loop (n : nat) (b : B) (i : nat) (current_length max_length : Z)
    (delims : gset Z) : res (parse_result B) :=
  if (Z.of_nat i <? s32 (buffer_size b)) && (current_length <? max_length) then
    match n with
    | O => NoFuel
    | S n' =>
        c ← of_option (buffer_cast b !! i);
        if found c delims then
          Ok (ParseResult http.COMPLETE (cb_prefix b i) (cb_advance b (i + 1)) (Some c))
        else if is_ctl_char c then
          Ok (ParseResult http.INVALID cb_default cb_default None)
        else cb_parse_token_loop n' b (i + 1) (current_length + 1) max_length delims
    end
  else if max_length <=? current_length then
    Ok (ParseResult http.DATAOVERFLOW cb_default cb_default None)
  else Ok (ParseResult http.INCOMPLETE b cb_default None).

Definition cb_parse_token (b : B) (current_length max_length : Z) (delims : gset Z)
    : res (parse_result B) :=
  cb_parse_token_loop (length (buffer_cast b)) b 0 current_length max_length delims.

Definition cb_parse_char (b : B) (c : Z) : res (http.STATUS * B) :=
  if s32 (buffer_size b) <? 1 then Ok (http.INCOMPLETE, b)
  else
    x ← of_option (buffer_cast b !! 0%nat);
    if negb (x =? c) then Ok (http.INVALID, b)
    else Ok (http.COMPLETE, cb_advance b 1).

End scanners.

Module start_line_parser.

Inductive PARSE_OPTION := STRICT | LOOSE.
Inductive PARSE_STATE := STATE_TOKEN_1 | STATE_TOKEN_2 | STATE_TOKEN_3 | STATE_LF.

#[export] Instance PARSE_STATE_eq_dec : EqDecision PARSE_STATE.
Proof. solve_decision. Defined.

Record t := StartLineParser {
  state_ : PARSE_STATE;
  current_length_ : Z;
  token1_max_length_ : Z;
  token2_max_length_ : Z;
  token3_max_length_ : Z
}.

Definition make (token1_max_length token2_max_length token3_max_length : Z) : t :=
  StartLineParser STATE_TOKEN_1 0 token1_max_length token2_max_length token3_max_length.

Definition set_state (s : PARSE_STATE) (len : Z) (p : t) : t :=
  StartLineParser s len p.(token1_max_length_) p.(token2_max_length_) p.(token3_max_length_).

Definition reset (p : t) : t := set_state STATE_TOKEN_1 0 p.

Section parser.
Context {B R : Type} `{ConstBuffer B, i_start_line_receiver R}.

(** [OVERFLOW] is not an enumerator of [STATUS]: it is a macro of the C
    library's <math.h>, whose value the code compares the status with. *)
Variable OVERFLOW : Z.

Definition next_state (d : option Z) (p : t) : res t :=
  match p.(state_) with
  | STATE_TOKEN_1 =>
      d ← of_option d;
      _ ← CHECK_CONDITION_VAL (d =? SP);
      Ok (set_state STATE_TOKEN_2 0 p)
  | STATE_TOKEN_2 =>
      d ← of_option d;
      if d =? CR then Ok (set_state STATE_LF 0 p)
      else if d =? SP then Ok (set_state STATE_TOKEN_3 0 p)
      else Aborted
  | STATE_TOKEN_3 =>
      d ← of_option d;
      _ ← CHECK_CONDITION_VAL (d =? CR);
      Ok (set_state STATE_LF 0 p)
  | STATE_LF => Ok (set_state STATE_TOKEN_1 0 p)
  end.

Definition set_token (p : t) (r : R) (bytes : list Z) (b_complete : bool)
    : res (R * http.STATUS) :=
  match p.(state_) with
  | STATE_TOKEN_1 => Ok (start_line_token1 r bytes b_complete)
  | STATE_TOKEN_2 => Ok (start_line_token2 r bytes b_complete)
  | STATE_TOKEN_3 => Ok (start_line_token3 r bytes b_complete)
  | STATE_LF => Aborted
  end.

Definition get_token_delimiters (p : t) (option : PARSE_OPTION) : res (gset Z) :=
  match p.(state_) with
  | STATE_TOKEN_1 => Ok delimiters.(s_space_delimiters)
  | STATE_TOKEN_2 =>
      match option with
      | STRICT => Ok delimiters.(s_space_delimiters)
      | LOOSE => Ok delimiters.(s_space_endline_delimiters)
      end
  | STATE_TOKEN_3 => Ok delimiters.(s_endline_delimiters)
  | STATE_LF => Aborted
  end.

(** The status and the remaining buffer that are returned, the parser and
    the receiver. *)
Definition parse_token (p : t) (r : R) (b : B) (max_length : Z) (option : PARSE_OPTION)
    : res (http.STATUS * B * t * R) :=
  delims ← get_token_delimiters p option;
  result ← cb_parse_token b p.(current_length_) max_length delims;
  if (http.code result.(status) =? OVERFLOW) || bool_decide (result.(status) = http.INVALID)
  then Ok (result.(status), result.(result_buffer), p, r)
  else
    let p := set_state p.(state_)
               (u64 (p.(current_length_) + buffer_size result.(result_buffer))) p in
    '(r, return_value) ← set_token p r (buffer_cast result.(result_buffer))
                           (bool_decide (result.(status) = http.COMPLETE));
    if bool_decide (return_value = http.DATAOVERFLOW) || bool_decide (return_value = http.INVALID)
    then Ok (result.(status), result.(remaining_buffer), p, r)
    else if bool_decide (result.(status) = http.COMPLETE) then
      p ← next_state result.(delimiter) p;
      Ok (result.(status), result.(remaining_buffer), p, r)
    else Ok (result.(status), result.(remaining_buffer), p, r).

(** The cases of the switch have no [break]: each falls through to the
    next assignment. *)
Definition token_max_length (p : t) : Z :=
  let m := 0 in
  let m := if bool_decide (p.(state_) = STATE_TOKEN_1) then p.(token1_max_length_) else m in
  let m := if bool_decide (p.(state_) = STATE_TOKEN_1) || bool_decide (p.(state_) = STATE_TOKEN_2)
           then p.(token2_max_length_) else m in
  let m := if negb (bool_decide (p.(state_) = STATE_LF))
           then p.(token3_max_length_) else m in
  m.

(** The loop [while(buffer_size(buffer) > 0)]. *)
Fixpoint parse_start_line_loop (fuel : nat) (return_value : http.STATUS * B) (b : B)
    (p : t) (r : R) (option : PARSE_OPTION) : res (http.STATUS * B * t * R) :=
  match fuel with
  | O => NoFuel
  | S fuel =>
    if 0 <? buffer_size b then
      match p.(state_) with
      | STATE_LF =>
          return_value ← cb_parse_char b LF;
          Ok (return_value, p, r)
      | _ =>
          '(st, b, p, r) ← parse_token p r b (token_max_length p) option;
          if negb (bool_decide (st = http.COMPLETE)) then Ok (st, b, p, r)
          else parse_start_line_loop fuel (http.INCOMPLETE, b) b p r option
      end
    else Ok (return_value, p, r)
  end.

Definition parse_start_line (p : t) (r : R) (b : B) (option : PARSE_OPTION)
    : res (http.STATUS * B * t * R) :=
  parse_start_line_loop (S (length (buffer_cast b))) (http.INCOMPLETE, b) b p r option.

End parser.
End start_line_parser.

(** * The scanner as a recursion over bytes *)

Section scanner_lemmas.
Context {B : Type} `{ConstBufferLaws B}.

(** The bytes a parse result hands over and the bytes after them. *)
Definition scan_buffers (delims : gset Z) (max cur : Z) (l : list Z)
    : http.STATUS * list Z * list Z * option Z :=
  match scan_token delims max cur l with
  | (http.COMPLETE, k, _) => (http.COMPLETE, take (k - 1) l, drop k l, l !! (k - 1)%nat)
  | (http.INCOMPLETE, _, _) => (http.INCOMPLETE, l, [], None)
  | (st, _, _) => (st, [], [], None)
  end.

Definition result_bytes (r : parse_result B) : http.STATUS * list Z * list Z * option Z :=
  (r.(status), buffer_cast r.(result_buffer), buffer_cast r.(remaining_buffer), r.(delimiter)).

Lemma cb_parse_token_loop_scan b delims max n i cur :
  raw_size (buffer_cast b) < 2 ^ 31 -> (i <= length (buffer_cast b))%nat ->
  (length (buffer_cast b) - i <= n)%nat ->
  exists r, cb_parse_token_loop n b i cur max delims = Ok r /\
    result_bytes r =
    match scan_token delims max cur (drop i (buffer_cast b)) with
    | (http.COMPLETE, k, _) =>
        (http.COMPLETE, take (i + k - 1) (buffer_cast b), drop (i + k) (buffer_cast b),
         buffer_cast b !! (i + k - 1)%nat)
    | (http.INCOMPLETE, _, _) => (http.INCOMPLETE, buffer_cast b, [], None)
    | (st, _, _) => (st, [], [], None)
    end.
Proof.
  intros Hsz. revert i cur. set (l := buffer_cast b) in *.
  induction n as [|n IH]; intros i cur Hi Hn; cbn [cb_parse_token_loop];
    unfold buffer_size; fold l; rewrite s32_small by (pose proof (raw_size_nonneg l); lia);
    (destruct (drop i l) as [|c k] eqn:Ed;
     [apply (f_equal length) in Ed; rewrite length_drop in Ed; simpl in Ed;
      replace (_ <? raw_size l) with false by (unfold raw_size; lia); simpl;
      destruct (max <=? cur); simpl; eexists; (split; [reflexivity|]);
      unfold result_bytes; simpl; rewrite ?cast_default; done|]).
  - apply (f_equal length) in Ed. rewrite length_drop in Ed. simpl in Ed. lia.
  - assert (l !! i = Some c) as Hc by (by rewrite <- (Nat.add_0_r i), <- lookup_drop, Ed).
    pose proof (lookup_lt_Some _ _ _ Hc).
    replace (_ <? raw_size l) with true by (unfold raw_size; lia). simpl.
    rewrite Z.ltb_antisym. destruct (max <=? cur) eqn:Em; simpl.
    { eexists. split; [reflexivity|]. unfold result_bytes. simpl. by rewrite cast_default. }
    fold l. rewrite Hc. simpl. destruct (found c delims).
    { eexists. split; [reflexivity|]. unfold result_bytes. simpl. fold l.
      rewrite cast_prefix, cast_advance by (fold l; lia).
      replace (i + 1 - 1)%nat with i by lia. fold l. by rewrite Hc. }
    destruct (is_ctl_char c).
    { eexists. split; [reflexivity|]. unfold result_bytes. simpl. by rewrite cast_default. }
    destruct (IH (i + 1)%nat (cur + 1)) as (r & Hr & Hb); [lia|lia|].
    exists r. split; [done|]. rewrite Hb, <- drop_drop, Ed. simpl. rewrite drop_0.
    destruct (scan_token delims max (cur + 1) k) as [[[] m] ?]; try done.
    replace (i + 1 + m)%nat with (i + S m)%nat by lia. done.
Qed.

Lemma cb_parse_token_scan b delims max cur :
  raw_size (buffer_cast b) < 2 ^ 31 ->
  exists r, cb_parse_token b cur max delims = Ok r /\
    result_bytes r = scan_buffers delims max cur (buffer_cast b).
Proof.
  intros Hsz. destruct (cb_parse_token_loop_scan b delims max (length (buffer_cast b)) 0 cur)
    as (r & Hr & Hb); [done|lia|lia|].
  exists r. split; [done|]. rewrite Hb. unfold scan_buffers.
  destruct (scan_token _ _ _ _) as [[[] k] ?]; done.
Qed.

Lemma scan_buffers_complete delims max cur l x y d :
  scan_buffers delims max cur l = (http.COMPLETE, x, y, d) ->
  exists c, d = Some c /\ found c delims = true /\ l = x ++ c :: y /\
    Forall (token_char delims) x /\ cur + raw_size x < max.
Proof.
  unfold scan_buffers. destruct (scan_token _ _ _ _) as [[st k] cur'] eqn:E.
  apply scan_token_result in E. destruct E; try discriminate.
  subst l. replace (S (length pre) - 1)%nat with (length pre) by lia.
  rewrite take_app_length, list_lookup_middle by done.
  rewrite (cons_middle d0), (app_assoc pre), drop_app_length' by (rewrite length_app; simpl; lia).
  rewrite <- app_assoc. intros [= <- <- <-]. eauto 10.
Qed.

Lemma scan_buffers_incomplete delims max cur l x y d :
  scan_buffers delims max cur l = (http.INCOMPLETE, x, y, d) ->
  x = l /\ y = [] /\ Forall (token_char delims) l /\ cur + raw_size l < max.
Proof.
  unfold scan_buffers. destruct (scan_token _ _ _ _) as [[st k] cur'] eqn:E.
  apply scan_token_result in E. destruct E; try discriminate. intros [= <- <- <-]. auto.
Qed.

Lemma scan_buffers_app delims max cur l1 l2 :
  scan_buffers delims max cur (l1 ++ l2) =
  match scan_buffers delims max cur l1 with
  | (http.INCOMPLETE, _, _, _) =>
      match scan_buffers delims max (cur + raw_size l1) l2 with
      | (http.COMPLETE, x, y, d) => (http.COMPLETE, l1 ++ x, y, d)
      | (http.INCOMPLETE, x, y, d) => (http.INCOMPLETE, l1 ++ x, y, d)
      | r => r
      end
  | (http.COMPLETE, x, y, d) => (http.COMPLETE, x, y ++ l2, d)
  | r => r
  end.
Proof.
  unfold scan_buffers at 1 2. rewrite scan_token_app.
  destruct (scan_token delims max cur l1) as [[st k] cur'] eqn:E.
  apply scan_token_result in E. destruct E; try done.
  - subst l1. replace (S (length pre) - 1)%nat with (length pre) by lia.
    rewrite <- !app_assoc, <- app_comm_cons. simpl.
    rewrite !take_app_length, !list_lookup_middle by done.
    rewrite !(cons_middle d), !(app_assoc pre), !drop_app_length'
      by (rewrite length_app; simpl; lia). done.
  - unfold scan_buffers. destruct (scan_token delims max _ l2) as [[st2 k2] cur2] eqn:E2.
    apply scan_token_result in E2. destruct E2; try done.
    replace (length l1 + S (length pre) - 1)%nat with (length l1 + (S (length pre) - 1))%nat by lia.
    rewrite take_app_add, drop_app_add.
    rewrite lookup_app_r by lia.
    by replace (length l1 + (S (length pre) - 1) - length l1)%nat
      with (S (length pre) - 1)%nat by lia.
Qed.

End scanner_lemmas.

(** * The parser as a function of bytes *)

Section byte_parser.
Context {R : Type} `{i_start_line_receiver R}.
Variable OVERFLOW : Z.

Import start_line_parser.

(** [parse_token] and [parse_start_line] with the buffer replaced by its
    bytes. *)
Definition token_of_bytes (p : t) (r : R) (l : list Z) (option : PARSE_OPTION)
    : res (http.STATUS * list Z * t * R) :=
  delims ← get_token_delimiters p option;
  let '(st, x, y, d) := scan_buffers delims (token_max_length p) p.(current_length_) l in
  if (http.code st =? OVERFLOW) || bool_decide (st = http.INVALID) then Ok (st, x, p, r)
  else
    let p := set_state p.(state_) (u64 (p.(current_length_) + raw_size x)) p in
    '(r, return_value) ← set_token p r x (bool_decide (st = http.COMPLETE));
    if bool_decide (return_value = http.DATAOVERFLOW) || bool_decide (return_value = http.INVALID)
    then Ok (st, y, p, r)
    else if bool_decide (st = http.COMPLETE) then p ← next_state d p; Ok (st, y, p, r)
    else Ok (st, y, p, r).

Fixpoint start_line_of_bytes (fuel : nat) (l : list Z) (p : t) (r : R) (option : PARSE_OPTION)
    : res (http.STATUS * list Z * t * R) :=
  match fuel with
  | O => NoFuel
  | S fuel =>
    match l with
    | [] => Ok (http.INCOMPLETE, [], p, r)
    | c :: l' =>
      if bool_decide (p.(state_) = STATE_LF) then
        if c =? LF then Ok (http.COMPLETE, l', p, r) else Ok (http.INVALID, l, p, r)
      else
        '(st, l, p, r) ← token_of_bytes p r l option;
        if bool_decide (st = http.COMPLETE) then start_line_of_bytes fuel l p r option
        else Ok (st, l, p, r)
    end
  end.

Context {B : Type} `{ConstBufferLaws B}.

(** What a caller sees of a result. *)
Definition observe (m : res (http.STATUS * B * t * R)) : res (http.STATUS * list Z * t * R) :=
  '(st, b, p, r) ← m; Ok (st, buffer_cast b, p, r).

Lemma parse_token_bytes p r b option :
  raw_size (buffer_cast b) < 2 ^ 31 ->
  observe (parse_token OVERFLOW p r b (token_max_length p) option) =
  token_of_bytes p r (buffer_cast b) option.
Proof.
  intros Hsz. unfold parse_token, token_of_bytes.
  destruct (get_token_delimiters p option) as [delims| | |]; try done. simpl.
  destruct (cb_parse_token_scan b delims (token_max_length p) (current_length_ p))
    as (res & Hr & Hb); [done|]. rewrite Hr, <- Hb. unfold result_bytes, buffer_size. simpl.
  destruct (_ || _); [done|].
  destruct (set_token _ _ _ _) as [[r' st]| | |]; try done. simpl.
  destruct (_ || _); [done|]. destruct (bool_decide _); [|done].
  by destruct (next_state _ _).
Qed.

Lemma token_of_bytes_shorter p r l option st l' p' r' :
  token_of_bytes p r l option = Ok (st, l', p', r') -> st = http.COMPLETE ->
  (length l' < length l)%nat.
Proof.
  intros Ht ->. unfold token_of_bytes in Ht. inv_res.
  destruct (scan_buffers _ _ _ _) as [[[st x] y] d] eqn:Es.
  assert (st = http.COMPLETE /\ (l' = y \/ ((http.code st =? OVERFLOW) = true /\ l' = x))) as (-> & Hl).
  { case_match eqn:Eo; inv_res.
    - split; [done|]. right. split; [|done]. rewrite orb_false_r in Eo. done.
    - destruct a0 as [r1 rv]. case_match; inv_res; [auto|]. case_match; inv_res; auto. }
  apply scan_buffers_complete in Es as (c & _ & _ & -> & _).
  rewrite length_app. simpl. destruct Hl as [->|[_ ->]]; lia.
Qed.

Lemma parse_start_line_loop_bytes fuel option :
  forall l' b p r, l' = buffer_cast b -> raw_size l' < 2 ^ 31 -> (length l' < fuel)%nat ->
  observe (parse_start_line_loop OVERFLOW fuel (http.INCOMPLETE, b) b p r option) =
  start_line_of_bytes fuel l' p r option.
Proof.
  induction fuel as [|fuel IH]; intros l' b p r -> Hsz Hf; [lia|].
  cbn [parse_start_line_loop start_line_of_bytes]. unfold buffer_size.
  destruct (buffer_cast b) as [|c l] eqn:Eb.
  { simpl. by rewrite Eb. }
  replace (0 <? raw_size (c :: l)) with true
    by (rewrite raw_size_cons; pose proof (raw_size_nonneg l); lia).
  destruct (bool_decide_reflect (p.(state_) = STATE_LF)) as [->|Hne].
  { unfold cb_parse_char, buffer_size. rewrite Eb.
    rewrite s32_small by (pose proof (raw_size_nonneg (c :: l)); lia).
    replace (_ <? 1) with false
      by (rewrite raw_size_cons; pose proof (raw_size_nonneg l); lia).
    simpl. destruct (c =? LF); simpl; rewrite ?cast_advance, Eb; done. }
  pose proof (parse_token_bytes p r b option) as Ht. rewrite Eb in Ht.
  specialize (Ht Hsz). rewrite <- Ht.
  assert (forall m k, (match p.(state_) with STATE_LF => m | _ => k end
            : res (http.STATUS * B * t * R)) = k) as Hm by (intros; by destruct (state_ p)).
  rewrite Hm. clear Hm.
  destruct (parse_token OVERFLOW p r b _ option) as [[[[st b'] p'] r']| | |] eqn:Ep; try done.
  simpl in Ht |- *.
  destruct (bool_decide_reflect (st = http.COMPLETE)) as [->|]; simpl; [|done].
  pose proof (token_of_bytes_shorter _ _ _ _ _ _ _ _ (eq_sym Ht) eq_refl) as Hlt.
  unfold raw_size in *. simpl in *. apply IH; [done|lia|lia].
Qed.

Lemma parse_start_line_bytes p r b option :
  raw_size (buffer_cast b) < 2 ^ 31 ->
  observe (parse_start_line OVERFLOW p r b option) =
  start_line_of_bytes (S (length (buffer_cast b))) (buffer_cast b) p r option.
Proof. intros. apply parse_start_line_loop_bytes; [done|done|lia]. Qed.

(** The fuel only bounds: more of it gives the same result. *)
Lemma start_line_of_bytes_fuel option f1 :
  forall f2 l p r, (length l < f1)%nat -> (length l < f2)%nat ->
  start_line_of_bytes f1 l p r option = start_line_of_bytes f2 l p r option.
Proof.
  induction f1 as [|f1 IH]; intros [|f2] l p r H1' H2'; try lia. simpl.
  destruct l as [|c l]; [done|]. destruct (bool_decide _); [done|].
  destruct (token_of_bytes p r (c :: l) option) as [[[[st l'] p'] r']| | |] eqn:Et; try done.
  simpl. destruct (bool_decide_reflect (st = http.COMPLETE)) as [->|]; [|done].
  pose proof (token_of_bytes_shorter _ _ _ _ _ _ _ _ Et eq_refl). simpl in *.
  apply IH; lia.
Qed.

(** The function with the fuel the code's loop needs. *)
Definition start_line (l : list Z) (p : t) (r : R) (option : PARSE_OPTION)
    : res (http.STATUS * list Z * t * R) :=
  start_line_of_bytes (S (length l)) l p r option.

Lemma start_line_cons c l p r option :
  start_line (c :: l) p r option =
  if bool_decide (p.(state_) = STATE_LF) then
    if c =? LF then Ok (http.COMPLETE, l, p, r) else Ok (http.INVALID, c :: l, p, r)
  else
    '(st, l, p, r) ← token_of_bytes p r (c :: l) option;
    if bool_decide (st = http.COMPLETE) then start_line l p r option
    else Ok (st, l, p, r).
Proof.
  unfold start_line. cbn [start_line_of_bytes length]. case_match; [done|].
  destruct (token_of_bytes p r (c :: l) option) as [[[[st l'] p'] r']| | |] eqn:Et; try done.
  simpl. destruct (bool_decide_reflect (st = http.COMPLETE)) as [->|]; [|done].
  pose proof (token_of_bytes_shorter _ _ _ _ _ _ _ _ Et eq_refl) as Hlt. simpl in Hlt.
  exact (start_line_of_bytes_fuel option (S (length l)) (S (length l')) l' p' r' Hlt (Nat.lt_succ_diag_r _)).
Qed.

End byte_parser.

(** A receiver that takes a token in fragments: it accepts every fragment,
    and a fragment followed by more of the token is the token. *)
Class FragmentReceiver (R : Type) `{i_start_line_receiver R} : Prop := {
  fragment1 r x : (start_line_token1 r x false).2 = http.COMPLETE;
  fragment2 r x : (start_line_token2 r x false).2 = http.COMPLETE;
  fragment3 r x : (start_line_token3 r x false).2 = http.COMPLETE;
  fragment1_app r x y c :
    start_line_token1 (start_line_token1 r x false).1 y c = start_line_token1 r (x ++ y) c;
  fragment2_app r x y c :
    start_line_token2 (start_line_token2 r x false).1 y c = start_line_token2 r (x ++ y) c;
  fragment3_app r x y c :
    start_line_token3 (start_line_token3 r x false).1 y c = start_line_token3 r (x ++ y) c
}.

(** The bounds under which no length of the parser wraps around. *)
Definition parser_ok (p : start_line_parser.t) : Prop :=
  0 <= start_line_parser.current_length_ p /\ start_line_parser.token3_max_length_ p < 2 ^ 63.

Section fragments.
Context {R : Type} `{FragmentReceiver R}.
Variable OVERFLOW : Z.
(** The macro is neither of the two statuses that are no error. *)
Hypothesis OVERFLOW_complete : OVERFLOW <> http.code http.COMPLETE.
Hypothesis OVERFLOW_incomplete : OVERFLOW <> http.code http.INCOMPLETE.

Import start_line_parser.

Lemma set_token_fragment p len r x :
  p.(state_) <> STATE_LF ->
  exists r', set_token p r x false = Ok (r', http.COMPLETE) /\
    forall y c, set_token (set_state p.(state_) len p) r' y c = set_token p r (x ++ y) c.
Proof.
  intros Hs. unfold set_token. simpl.
  destruct (state_ p); [..|done].
  - exists (start_line_token1 r x false).1. split.
    + rewrite <- (fragment1 r x). by destruct (start_line_token1 r x false).
    + intros y c. by rewrite <- fragment1_app.
  - exists (start_line_token2 r x false).1. split.
    + rewrite <- (fragment2 r x). by destruct (start_line_token2 r x false).
    + intros y c. by rewrite <- fragment2_app.
  - exists (start_line_token3 r x false).1. split.
    + rewrite <- (fragment3 r x). by destruct (start_line_token3 r x false).
    + intros y c. by rewrite <- fragment3_app.
Qed.

Lemma token_max_length_t3 p : p.(state_) <> STATE_LF -> token_max_length p = p.(token3_max_length_).
Proof. intros Hs. unfold token_max_length. by rewrite bool_decide_false. Qed.

Lemma get_delimiters_ok p option :
  p.(state_) <> STATE_LF -> exists d, get_token_delimiters p option = Ok d.
Proof. unfold get_token_delimiters. destruct (state_ p), option; eauto; done. Qed.

Lemma token_incomplete_rest p r l option y p1 r1 :
  token_of_bytes OVERFLOW p r l option = Ok (http.INCOMPLETE, y, p1, r1) -> y = [].
Proof.
  unfold token_of_bytes. intros Ht. inv_res.
  destruct (scan_buffers _ _ _ _) as [[[st x] z] d] eqn:Es.
  assert (st = http.INCOMPLETE) as ->.
  { case_match; inv_res; [done|]. destruct a0 as [? ?].
    case_match; inv_res; [done|]. case_match; inv_res; done. }
  apply scan_buffers_incomplete in Es as (-> & -> & _).
  replace (http.code http.INCOMPLETE =? OVERFLOW) with false in Ht
    by (symmetry; apply Z.eqb_neq; congruence). simpl in Ht. inv_res.
  destruct a0 as [? ?]. case_match; inv_res; done.
Qed.

Lemma start_line_incomplete_rest option n :
  forall l p r y p1 r1, (length l < n)%nat ->
  start_line OVERFLOW l p r option = Ok (http.INCOMPLETE, y, p1, r1) -> y = [].
Proof.
  induction n as [|n IH]; intros l p r y p1 r1 Hn Hsl; [lia|].
  destruct l as [|c l]; [unfold start_line in Hsl; simpl in Hsl; inv_res; done|].
  rewrite start_line_cons in Hsl. case_match.
  { case_match; inv_res; done. }
  destruct (token_of_bytes OVERFLOW p r (c :: l) option) as [[[[st y'] p'] r']| | |] eqn:Et;
    try done. simpl in Hsl.
  destruct (bool_decide_reflect (st = http.COMPLETE)) as [->|Hst].
  - pose proof (token_of_bytes_shorter _ _ _ _ _ _ _ _ _ Et eq_refl) as Hlt.
    eapply IH; [|done]. simpl in *. lia.
  - inv_res. by eapply token_incomplete_rest.
Qed.

(** Equal results, or the same error at the same byte. *)
Definition agree (m1 m2 : res (http.STATUS * list Z * t * R)) : Prop :=
  m1 = m2 \/
  exists st l p1 r1 p2 r2,
    m1 = Ok (st, l, p1, r1) /\ m2 = Ok (st, l, p2, r2) /\
    st <> http.COMPLETE /\ st <> http.INCOMPLETE.

(** What a token that is not finished leaves behind. *)
Lemma token_incomplete_inv p r l option y p1 r1 :
  parser_ok p -> p.(state_) <> STATE_LF ->
  token_of_bytes OVERFLOW p r l option = Ok (http.INCOMPLETE, y, p1, r1) ->
  y = [] /\ p1 = set_state p.(state_) (p.(current_length_) + raw_size l) p /\
  parser_ok p1 /\ p.(current_length_) + raw_size l < p.(token3_max_length_) /\
  set_token p r l false = Ok (r1, http.COMPLETE) /\
  exists delims, get_token_delimiters p option = Ok delims /\
    Forall (token_char delims) l.
Proof.
  intros [Hc Hm] Hs Ht. unfold token_of_bytes in Ht.
  destruct (get_delimiters_ok p option Hs) as [delims Hd]. rewrite Hd in Ht. simpl in Ht.
  rewrite token_max_length_t3 in Ht by done.
  destruct (scan_buffers _ _ _ _) as [[[st x] z] d] eqn:Es.
  assert (st = http.INCOMPLETE) as ->.
  { case_match; inv_res; [done|]. destruct a as [? ?].
    case_match; inv_res; [done|]. case_match; inv_res; done. }
  apply scan_buffers_incomplete in Es as (-> & -> & Hl & Hlt).
  pose proof (raw_size_nonneg l).
  replace (http.code http.INCOMPLETE =? OVERFLOW) with false in Ht by lia. simpl in Ht.
  rewrite u64_small in Ht by lia.
  destruct (set_token_fragment p (p.(current_length_) + raw_size l) r l Hs) as (r' & Hr & _).
  change (set_token (set_state _ _ p) r l false) with (set_token p r l false) in Ht.
  rewrite Hr in Ht. simpl in Ht. inv_res.
  split; [done|]. split; [done|]. split; [split; simpl; lia|]. eauto.
Qed.

Lemma token_app p r l1 l2 option y p1 r1 :
  parser_ok p -> p.(state_) <> STATE_LF ->
  token_of_bytes OVERFLOW p r l1 option = Ok (http.INCOMPLETE, y, p1, r1) ->
  agree (token_of_bytes OVERFLOW p r (l1 ++ l2) option)
        (token_of_bytes OVERFLOW p1 r1 l2 option).
Proof.
  intros Hok Hs Ht.
  destruct (token_incomplete_inv _ _ _ _ _ _ _ Hok Hs Ht)
    as (-> & -> & _ & Hlt & Hr & delims & Hd & Hl). clear Ht.
  destruct (set_token_fragment p (p.(current_length_) + raw_size l1) r l1 Hs)
    as (r' & Hr' & Happ). rewrite Hr in Hr'. injection Hr' as <-.
  unfold token_of_bytes.
  change (get_token_delimiters (set_state _ _ p) option) with (get_token_delimiters p option).
  rewrite Hd. simpl. change (token_max_length (set_state _ _ p)) with (token_max_length p).
  rewrite token_max_length_t3 by done. rewrite scan_buffers_app.
  assert (scan_buffers delims (token3_max_length_ p) (current_length_ p) l1 =
          (http.INCOMPLETE, l1, [], None)) as ->
    by (unfold scan_buffers; by rewrite scan_token_incomplete).
  destruct (scan_buffers _ _ (_ + _) l2) as [[[st x] z] d] eqn:Es.
  assert (forall x', u64 (current_length_ p + raw_size l1 + raw_size x') =
          u64 (current_length_ p + raw_size (l1 ++ x'))) as Hu
    by (intros; rewrite raw_size_app, Z.add_assoc; done).
  destruct (decide (st = http.COMPLETE \/ st = http.INCOMPLETE)) as [Hst|Hst].
  { left.
    assert ((http.code st =? OVERFLOW) || bool_decide (st = http.INVALID) = false) as Ho.
    { apply orb_false_iff. split; [apply Z.eqb_neq|apply bool_decide_eq_false];
        destruct Hst as [-> | ->]; congruence. }
    assert (forall x', set_token (set_state (state_ p) (u64 (current_length_ p
                + raw_size (l1 ++ x'))) p) r (l1 ++ x') (bool_decide (st = http.COMPLETE))
              = set_token (set_state (state_ p) (u64 (current_length_ p + raw_size l1
                + raw_size x')) (set_state (state_ p) (current_length_ p + raw_size l1) p))
                r1 x' (bool_decide (st = http.COMPLETE))) as Hset
      by (intros x'; exact (eq_sym (Happ x' _))).
    destruct Hst as [-> | ->]; cbv beta iota; rewrite Ho, Hset; clear Ho Hset;
      cbn [set_state current_length_ state_ token1_max_length_ token2_max_length_
           token3_max_length_]; by rewrite Hu. }
  right.
  assert (scan_buffers delims (token3_max_length_ p) (current_length_ p + raw_size l1) l2
          = (st, [], [], None)) as Es'.
  { rewrite Es. unfold scan_buffers in Es. repeat case_match; simplify_eq; try done; naive_solver. }
  rewrite Es in Es'. simplify_eq. clear Happ Hr Hu.
  destruct st; try (exfalso; apply Hst; auto; fail); cbv beta iota;
    (destruct (_ || _) eqn:Eo; [repeat eexists; eauto|]).
  all: rewrite bool_decide_false by done.
  all: destruct (set_token_fragment (set_state (state_ p) (u64 (current_length_ p + raw_size [])) p)
    0 r [] Hs) as (ra & -> & _);
  destruct (set_token_fragment (set_state (state_ p) (u64 (current_length_ p + raw_size l1
    + raw_size [])) (set_state (state_ p) (current_length_ p + raw_size l1) p))
    0 r1 [] Hs) as (rb & Hrb & _).
  all: cbn [set_state current_length_ state_ token1_max_length_ token2_max_length_
       token3_max_length_] in *; rewrite Hrb; simpl; repeat eexists; eauto.
Qed.

(** A finished token is finished by the same byte when more bytes follow. *)
Lemma token_complete_app p r l1 l2 option y p1 r1 :
  parser_ok p -> p.(state_) <> STATE_LF ->
  token_of_bytes OVERFLOW p r l1 option = Ok (http.COMPLETE, y, p1, r1) ->
  token_of_bytes OVERFLOW p r (l1 ++ l2) option = Ok (http.COMPLETE, y ++ l2, p1, r1) /\
  parser_ok p1.
Proof.
  intros [Hc Hm] Hs Ht. unfold token_of_bytes in *.
  destruct (get_delimiters_ok p option Hs) as [delims Hd]. rewrite Hd in *. simpl in *.
  rewrite scan_buffers_app.
  destruct (scan_buffers _ _ _ l1) as [[[st x] z] d] eqn:Es.
  assert (st = http.COMPLETE) as ->.
  { case_match; inv_res; [done|]. destruct a as [? ?].
    case_match; inv_res; [done|]. case_match; inv_res; done. }
  replace (http.code http.COMPLETE =? OVERFLOW) with false in *
    by (symmetry; apply Z.eqb_neq; intros E; exact (OVERFLOW_complete (eq_sym E))).
  simpl in *. destruct (set_token _ _ _ _) as [[r' rv]| | |]; try done. simpl in *.
  pose proof (Z.mod_pos_bound (current_length_ p + raw_size x) (2 ^ 64) eq_refl).
  case_match; inv_res; [split; [done|split; simpl; unfold u64; lia]|].
  rewrite Ha. simpl. split; [done|].
  unfold next_state in Ha. destruct (state_ p) eqn:Ep; simpl in Ha; rewrite ?Ep in Ha; simpl in Ha;
    inv_res; [..|done]; repeat case_match; inv_res; try done; split; simpl; lia.
Qed.

Lemma start_line_app option n :
  forall l1 l2 p r y p1 r1, (length l1 < n)%nat -> parser_ok p ->
  start_line OVERFLOW l1 p r option = Ok (http.INCOMPLETE, y, p1, r1) ->
  agree (start_line OVERFLOW (l1 ++ l2) p r option) (start_line OVERFLOW l2 p1 r1 option).
Proof.
  induction n as [|n IH]; intros l1 l2 p r y p1 r1 Hn Hok Hsl; [lia|].
  destruct l1 as [|c l1]; [unfold start_line in Hsl; simpl in Hsl; inv_res; by left|].
  destruct l2 as [|c2 l2].
  { left. rewrite app_nil_r. rewrite Hsl. unfold start_line. simpl.
    by rewrite (start_line_incomplete_rest option _ _ _ _ _ _ _ (Nat.lt_succ_diag_r _) Hsl). }
  rewrite start_line_cons in Hsl. simpl app. rewrite !start_line_cons.
  destruct (bool_decide_reflect (state_ p = STATE_LF)) as [|Hs].
  { case_match; inv_res; done. }
  destruct (token_of_bytes OVERFLOW p r (c :: l1) option) as [[[[st y'] p'] r']| | |] eqn:Et;
    try done. simpl in Hsl.
  destruct (bool_decide_reflect (st = http.COMPLETE)) as [->|Hst].
  - pose proof (token_of_bytes_shorter _ _ _ _ _ _ _ _ _ Et eq_refl) as Hlt.
    apply (token_complete_app _ _ _ (c2 :: l2)) in Et as [Et Hok']; [|done..].
    simpl in Et, Hlt, Hn |- *. rewrite Et, <- start_line_cons. simpl.
    eapply IH; eauto. lia.
  - inv_res. pose proof Et as Hinv. apply token_incomplete_inv in Hinv as (_ & -> & _); [|done..].
    cbn [set_state state_]. rewrite (bool_decide_false _ Hs).
    destruct (token_app _ _ _ (c2 :: l2) _ _ _ _ Hok Hs Et) as [Heq|Herr].
    + simpl in Heq. rewrite Heq. by left.
    + right. destruct Herr as (st & l & pa & ra & pb & rb & H1 & H2 & Hc & Hi).
      simpl in H1. rewrite H1, H2. simpl. rewrite bool_decide_false by done.
      repeat eexists; eauto.
Qed.
End fragments.

Section whole_lines.
Context {R : Type} `{i_start_line_receiver R}.
Variable OVERFLOW : Z.

Import start_line_parser.

(** The delimiter a token ends with always selects a next state. *)
Lemma next_state_total p option delims c len :
  p.(state_) <> STATE_LF -> get_token_delimiters p option = Ok delims -> found c delims = true ->
  exists p', next_state (Some c) (set_state p.(state_) len p) = Ok p'.
Proof.
  intros Hs Hd Hf. unfold found in Hf. apply bool_decide_eq_true in Hf.
  unfold get_token_delimiters, next_state in *. simpl in *.
  destruct (state_ p), option; try done; simplify_eq;
    unfold delimiters, init in Hf; simpl in Hf; set_unfold; simpl;
    repeat match goal with H : _ \/ _ |- _ => destruct H end; try done; subst; vm_compute; eauto.
Qed.

Lemma token_total p r l option :
  p.(state_) <> STATE_LF -> exists x, token_of_bytes OVERFLOW p r l option = Ok x.
Proof.
  intros Hs. unfold token_of_bytes.
  destruct (get_delimiters_ok p option Hs) as [delims Hd]. rewrite Hd. simpl.
  destruct (scan_buffers _ _ _ _) as [[[st x] z] d] eqn:Es.
  case_match; [eauto|].
  assert (forall len c, exists y, set_token (set_state (state_ p) len p) r x c = Ok y) as Hset
    by (intros; unfold set_token; simpl; destruct (state_ p); eauto; done).
  destruct (Hset (u64 (current_length_ p + raw_size x)) (bool_decide (st = http.COMPLETE)))
    as [[r' rv] ->]. simpl.
  case_match; [eauto|].
  destruct (bool_decide_reflect (st = http.COMPLETE)) as [->|]; [|eauto].
  apply scan_buffers_complete in Es as (c & -> & Hf & _).
  destruct (next_state_total p option delims c (u64 (current_length_ p + raw_size x)) Hs Hd Hf)
    as [p' ->]. simpl. eauto.
Qed.

Lemma start_line_total option n :
  forall l p r, (length l < n)%nat -> exists x, start_line OVERFLOW l p r option = Ok x.
Proof.
  induction n as [|n IH]; intros l p r Hn; [lia|].
  destruct l as [|c l]; [by eexists|]. rewrite start_line_cons.
  destruct (bool_decide_reflect (state_ p = STATE_LF)) as [|Hs]; [case_match; eauto|].
  destruct (token_total p r (c :: l) option Hs) as [[[[st y] p'] r'] Et]. rewrite Et. simpl.
  destruct (bool_decide_reflect (st = http.COMPLETE)) as [->|]; [|eauto].
  pose proof (token_of_bytes_shorter _ _ _ _ _ _ _ _ _ Et eq_refl). simpl in *.
  apply IH. lia.
Qed.

(** The receiver goes on. *)
Definition accepts (st : http.STATUS) : Prop := st <> http.DATAOVERFLOW /\ st <> http.INVALID.

Lemma token_accepted p r x d y option delims r' st p' :
  OVERFLOW <> http.code http.COMPLETE ->
  p.(state_) <> STATE_LF -> get_token_delimiters p option = Ok delims ->
  Forall (token_char delims) x -> found d delims = true ->
  p.(current_length_) + raw_size x < p.(token3_max_length_) ->
  set_token p r x true = Ok (r', st) -> accepts st ->
  next_state (Some d) p = Ok p' ->
  start_line OVERFLOW (x ++ d :: y) p r option = start_line OVERFLOW y p' r' option.
Proof.
  intros Ho Hs Hd Hx Hf Hlt Hset [Ha1 Ha2] Hn.
  assert (token_of_bytes OVERFLOW p r (x ++ d :: y) option = Ok (http.COMPLETE, y, p', r')) as Ht.
  { unfold token_of_bytes. rewrite Hd. simpl.
    rewrite token_max_length_t3 by done. unfold scan_buffers. rewrite scan_token_complete by done.
    replace (http.code http.COMPLETE =? OVERFLOW) with false
      by (symmetry; apply Z.eqb_neq; congruence). simpl.
    rewrite Nat.sub_0_r, take_app_length, list_lookup_middle by done.
    rewrite (cons_middle d), (app_assoc x), drop_app_length' by (rewrite length_app; simpl; lia).
    change (set_token (set_state _ _ p) r x true) with (set_token p r x true).
    rewrite Hset. simpl. rewrite !bool_decide_false by done. simpl.
    assert (next_state (Some d) (set_state (state_ p) (u64 (current_length_ p + raw_size x)) p)
            = Ok p') as ->; [|done].
    rewrite <- Hn. unfold next_state. simpl. by destruct (state_ p). }
  destruct (x ++ d :: y) as [|c l] eqn:El; [by destruct x|].
  rewrite start_line_cons, (bool_decide_false _ Hs), Ht. done.
Qed.

End whole_lines.

(** * Properties *)

(** [parse_start_line] returns on every buffer, from every state of the
    parser and with every receiver: no state it can reach aborts, reads
    outside the buffer or loops. *)
Theorem parse_start_line_total {B R} `{ConstBufferLaws B, i_start_line_receiver R}
    (OVERFLOW : Z) (p : start_line_parser.t) (r : R) (b : B) option :
  raw_size (buffer_cast b) < 2 ^ 31 ->
  exists st rest p' r',
    start_line_parser.parse_start_line OVERFLOW p r b option = Ok (st, rest, p', r').
Proof.
  intros Hsz. destruct (start_line_total OVERFLOW option _ (buffer_cast b) p r
    (Nat.lt_succ_diag_r _)) as [x Hx].
  pose proof (parse_start_line_bytes OVERFLOW p r b option Hsz) as Ho.
  unfold start_line in Hx. rewrite Hx in Ho. unfold observe in Ho.
  destruct (start_line_parser.parse_start_line _ _ _ _ _) as [[[[st rest] p'] r']| | |]; [|done..].
  eauto 10.
Qed.

(** A request or status line of three tokens that the receiver accepts,
    separated by single spaces and ended by CR LF, is accepted in both
    modes: each token is handed to the receiver whole and in order and the
    bytes after the line remain.  The parser stays where it waits for a LF:
    it has to be reset before the next line.
    The only length limit is the one of the third token. *)
Theorem parse_start_line_wellformed {B R} `{ConstBufferLaws B, i_start_line_receiver R}
    (OVERFLOW : Z) (m1 m2 m3 : Z) (r r1 r2 r3 : R) (st1 st2 st3 : http.STATUS) (b : B) option
    (t1 t2 t3 rest : list Z) :
  OVERFLOW <> http.code http.COMPLETE ->
  raw_size (buffer_cast b) < 2 ^ 31 ->
  buffer_cast b = t1 ++ SP :: t2 ++ SP :: t3 ++ CR :: LF :: rest ->
  Forall (token_char delimiters.(s_space_delimiters)) t1 ->
  Forall (token_char delimiters.(s_space_delimiters)) t2 ->
  Forall (token_char delimiters.(s_endline_delimiters)) t3 ->
  raw_size t1 < m3 -> raw_size t2 < m3 -> raw_size t3 < m3 ->
  start_line_token1 r t1 true = (r1, st1) -> accepts st1 ->
  start_line_token2 r1 t2 true = (r2, st2) -> accepts st2 ->
  start_line_token3 r2 t3 true = (r3, st3) -> accepts st3 ->
  exists b', buffer_cast b' = rest /\
    start_line_parser.parse_start_line OVERFLOW (start_line_parser.make m1 m2 m3) r b option =
      Ok (http.COMPLETE, b', start_line_parser.set_state start_line_parser.STATE_LF 0
            (start_line_parser.make m1 m2 m3), r3).
Proof.
  intros Ho Hsz Hb H1' H2' H3' L1 L2 L3 R1 A1 R2 A2 R3 A3.
  pose proof (parse_start_line_bytes OVERFLOW (start_line_parser.make m1 m2 m3) r b option Hsz)
    as Hbytes. fold (start_line OVERFLOW (buffer_cast b) (start_line_parser.make m1 m2 m3) r option)
    in Hbytes. rewrite Hb in Hbytes.
  set (p := start_line_parser.make m1 m2 m3) in *.
  assert (exists d, start_line_parser.get_token_delimiters
            (start_line_parser.set_state start_line_parser.STATE_TOKEN_2 0 p) option = Ok d /\
          Forall (token_char d) t2 /\ found SP d = true) as (d2 & Hd2 & Hc2 & Hf2).
  { destruct option; eexists; (split; [reflexivity|]); (split; [|by vm_compute]); [done|].
    eapply Forall_impl; [exact H2'|]. exact token_char_space_endline. }
  rewrite (token_accepted OVERFLOW p r t1 SP _ option delimiters.(s_space_delimiters) r1 st1 
    (start_line_parser.set_state start_line_parser.STATE_TOKEN_2 0 p) Ho) in Hbytes; try done;
    [|unfold p, start_line_parser.set_token; simpl; congruence].
  rewrite (token_accepted OVERFLOW (start_line_parser.set_state start_line_parser.STATE_TOKEN_2 0 p) r1 t2 SP _ option d2 r2 st2 
    (start_line_parser.set_state start_line_parser.STATE_TOKEN_3 0 p) Ho) in Hbytes; try done;
    [|unfold start_line_parser.set_token; simpl; congruence].
  rewrite (token_accepted OVERFLOW (start_line_parser.set_state start_line_parser.STATE_TOKEN_3 0 p) r2 t3 CR _ option delimiters.(s_endline_delimiters) r3 st3 
    (start_line_parser.set_state start_line_parser.STATE_LF 0 p) Ho) in Hbytes; try done;
    [|unfold start_line_parser.set_token; simpl; congruence].
  rewrite start_line_cons in Hbytes. simpl in Hbytes. unfold observe in Hbytes.
  destruct (start_line_parser.parse_start_line _ _ _ _ _) as [[[[st b'] p'] r']| | |]; try done.
  simpl in Hbytes. injection Hbytes as -> <- -> ->. exists b'. done.
Qed.

(** C37: Parsing a line as it arrives in two buffers is parsing it in one:
    when the first buffer leaves the parser waiting, what the second gives
    (status, bytes left, parser and receiver) is what a buffer with the
    bytes of both gives; an error is found at the same byte.  The receiver
    is any that concatenates the fragments of a token. *)
Theorem parse_start_line_split {B R} `{ConstBufferLaws B, FragmentReceiver R}
    (OVERFLOW : Z) (p p1 : start_line_parser.t) (r r1 : R) (b1 b2 b12 y : B) option :
  OVERFLOW <> http.code http.COMPLETE -> OVERFLOW <> http.code http.INCOMPLETE ->
  parser_ok p -> raw_size (buffer_cast b12) < 2 ^ 31 ->
  buffer_cast b12 = buffer_cast b1 ++ buffer_cast b2 ->
  start_line_parser.parse_start_line OVERFLOW p r b1 option = Ok (http.INCOMPLETE, y, p1, r1) ->
  agree (observe (start_line_parser.parse_start_line OVERFLOW p r b12 option))
        (observe (start_line_parser.parse_start_line OVERFLOW p1 r1 b2 option)).
Proof.
  intros Ho1 Ho2 Hok Hsz Hb Hp.
  assert (raw_size (buffer_cast b1) < 2 ^ 31 /\ raw_size (buffer_cast b2) < 2 ^ 31) as [Hs1 Hs2].
  { rewrite Hb, raw_size_app in Hsz. pose proof (raw_size_nonneg (buffer_cast b1)).
    pose proof (raw_size_nonneg (buffer_cast b2)). lia. }
  pose proof (parse_start_line_bytes OVERFLOW p r b1 option Hs1) as Hb1.
  rewrite Hp in Hb1. unfold observe in Hb1. simpl in Hb1.
  rewrite !parse_start_line_bytes, Hb by done.
  eapply start_line_app; eauto.
Qed.

(** ** The properties at concrete inputs *)

(** A buffer that is a list of bytes, and a receiver that records them. *)
#[local] Instance list_buffer : ConstBuffer (list Z) := {
  cb_default := [];
  buffer_cast l := l;
  cb_prefix l n := take n l;
  cb_advance l n := drop n l
}.

#[local] Instance list_buffer_laws : ConstBufferLaws (list Z).
Proof. by constructor. Qed.

#[local] Instance recorder : i_start_line_receiver (list Z * list Z * list Z) := {
  start_line_token1 r x _ := (r.1.1 ++ x, r.1.2, r.2, http.COMPLETE);
  start_line_token2 r x _ := (r.1.1, r.1.2 ++ x, r.2, http.COMPLETE);
  start_line_token3 r x _ := (r.1.1, r.1.2, r.2 ++ x, http.COMPLETE)
}.

#[local] Instance recorder_fragments : FragmentReceiver (list Z * list Z * list Z).
Proof. constructor; intros; simpl; rewrite ?app_assoc; done. Qed.

(** The value the macro has where the C library defines it. *)
Definition libm_OVERFLOW : Z := 3.

Definition sample_line : list Z := str "GET / HTTP/1.1" ++ [13; 10] ++ str "H".

Lemma parse_start_line_total_witness :
  exists st rest p' r',
    start_line_parser.parse_start_line libm_OVERFLOW (start_line_parser.make 9 9 9)
      ([], [], []) sample_line start_line_parser.LOOSE = Ok (st, rest, p', r').
Proof. apply (parse_start_line_total libm_OVERFLOW). reflexivity. Defined.

Lemma parse_start_line_wellformed_witness :
  exists b', buffer_cast b' = str "H" /\
    start_line_parser.parse_start_line libm_OVERFLOW (start_line_parser.make 1 1 9)
      ([], [], []) sample_line start_line_parser.STRICT =
      Ok (http.COMPLETE, b', start_line_parser.set_state start_line_parser.STATE_LF 0
            (start_line_parser.make 1 1 9), (str "GET", str "/", str "HTTP/1.1")).
Proof.
  apply (parse_start_line_wellformed libm_OVERFLOW 1 1 9 ([], [], [])
    (str "GET", [], []) (str "GET", str "/", []) _ http.COMPLETE http.COMPLETE http.COMPLETE
    sample_line start_line_parser.STRICT (str "GET") (str "/") (str "HTTP/1.1"));
    try discriminate; try reflexivity; try (repeat constructor; done); done.
Defined.

Lemma parse_start_line_split_witness :
  agree
    (observe (start_line_parser.parse_start_line libm_OVERFLOW (start_line_parser.make 9 9 9)
       ([], [], []) sample_line start_line_parser.STRICT))
    (observe (start_line_parser.parse_start_line libm_OVERFLOW
       (start_line_parser.StartLineParser start_line_parser.STATE_TOKEN_3 2 9 9 9)
       (str "GET", str "/", str "HT") (drop 8 sample_line) start_line_parser.STRICT)).
Proof.
  apply (parse_start_line_split libm_OVERFLOW _ _ _ _ (str "GET / HT") _ _ []);
    try discriminate; try reflexivity. split; [discriminate|reflexivity].
Defined.

(** The receiver's refusal of the first token is dropped: the parser stays
    in the state of the first token and takes the second for it. *)
Definition refuser : i_start_line_receiver (list Z * list Z * list Z) := {|
  start_line_token1 r x _ := (r.1.1 ++ x, r.1.2, r.2, http.INVALID);
  start_line_token2 r x _ := (r.1.1, r.1.2 ++ x, r.2, http.COMPLETE);
  start_line_token3 r x _ := (r.1.1, r.1.2, r.2 ++ x, http.COMPLETE)
|}.

Lemma refused_token_reparsed :
  start_line_parser.parse_start_line (H0 := refuser) libm_OVERFLOW
    (start_line_parser.make 9 9 9) ([], [], []) (str "GET / X") start_line_parser.STRICT =
  Ok (http.INCOMPLETE, [], start_line_parser.StartLineParser start_line_parser.STATE_TOKEN_1 5 9 9 9,
      (str "GET/X", [], [])).
Proof. vm_compute. reflexivity. Qed.

(** The limits of the first two tokens are not used. *)
Lemma token1_limit_unused :
  start_line_parser.token_max_length (start_line_parser.make 1 2 9) = 9.
Proof. reflexivity. Qed.

(** A token over the limit: the overflow is not caught by the comparison
    with the macro, and the receiver is handed an empty fragment. *)
Lemma overflow_reaches_receiver :
  start_line_parser.parse_start_line libm_OVERFLOW
    (start_line_parser.make 3 3 3) (str "A", [], []) (str "GETX /") start_line_parser.STRICT =
  Ok (http.DATAOVERFLOW, [], start_line_parser.make 3 3 3, (str "A", [], [])).
Proof. vm_compute. reflexivity. Qed.
