(* ===== verification/HeaderStore.v ===== *)
(** The storage of a parsed message: the header buffers of
    http/header_buffer.cpp, the pool they come from (http/header_cache.cpp),
    the message that borrows them (http/message_buffer.cpp), its two
    wrappers and the static strings of the library.  A pool is shared by
    the messages of several streams, so that every operation that touches
    it takes it and gives it back. *)
From S2P Require Import Prelude Status ReadWriteBuffer HttpLex.

(** * Header buffers *)
Record header_buffer := HeaderBuffer {
  name_ : read_write_buffer;
  value_ : read_write_buffer
}.

Module hb.

Definition make (max_name_length max_value_length : Z) : header_buffer :=
  HeaderBuffer (rwb.make max_name_length) (rwb.make max_value_length).

Definition make_default : header_buffer := HeaderBuffer rwb.make_default rwb.make_default.

(** The implicit copy constructor: it copies the two buffers. *)
Definition copy (h : header_buffer) : res header_buffer :=
  n ← rwb.copy h.(name_);
  v ← rwb.copy h.(value_);
  Ok (HeaderBuffer n v).

Definition get_name (h : header_buffer) : read_write_buffer := h.(name_).
Definition get_value (h : header_buffer) : read_write_buffer := h.(value_).

Definition reset (h : header_buffer) : header_buffer :=
  HeaderBuffer (rwb.reset h.(name_)) (rwb.reset h.(value_)).

Definition append_to_name (bytes : list Z) (h : header_buffer) : res header_buffer :=
  n ← rwb.append_from_buffer bytes h.(name_);
  Ok (HeaderBuffer n h.(value_)).

Definition append_to_value (bytes : list Z) (h : header_buffer) : res header_buffer :=
  v ← rwb.append_from_buffer bytes h.(value_);
  Ok (HeaderBuffer h.(name_) v).

Definition name_equals (cs : list Z) (h : header_buffer) : res bool := rwb.equals cs h.(name_).
Definition value_equals (cs : list Z) (h : header_buffer) : res bool := rwb.equals cs h.(value_).

End hb.

(** * The pool *)
Record header_cache := HeaderCache { headers_ : list header_buffer }.

Module cache.

Definition make (num_headers max_name_length max_value_length : Z) : header_cache :=
  HeaderCache (replicate (Z.to_nat num_headers) (hb.make max_name_length max_value_length)).

Definition empty (c : header_cache) : bool :=
  match c.(headers_) with [] => true | _ :: _ => false end.

(** The front of the pool is reset and spliced to the end of the list. *)
Definition alloc_header (header_list : list header_buffer) (c : header_cache)
    : res (list header_buffer * header_cache) :=
  _ ← CHECK_CONDITION (negb (empty c));
  match c.(headers_) with
  | h :: hs => Ok (header_list ++ [hb.reset h], HeaderCache hs)
  | [] => Undef
  end.

(** The list is spliced to the end of the pool. *)
Definition release_headers (header_list : list header_buffer) (c : header_cache)
    : res (list header_buffer * header_cache) :=
  _ ← CHECK_CONDITION (negb (empty c));
  Ok ([], HeaderCache (c.(headers_) ++ header_list)).

Definition num_available_headers (c : header_cache) : Z := Z.of_nat (length c.(headers_)).

End cache.

(** * The message *)
Module message_buffer.

(** [cache_] tells whether the pointer to the pool is set; the pool itself
    is an argument of the operations that use it. *)
Record t := MessageBuffer {
  current_num_fields_ : Z;
  max_fields_ : Z;
  start_line1_ : read_write_buffer;
  start_line2_ : read_write_buffer;
  start_line3_ : read_write_buffer;
  headers_ : list header_buffer;
  cache_ : bool
}.

Definition new_line : list Z := [13; 10].
Definition field_sep : list Z := str ": ".
Definition space : list Z := str " ".

Definition make (cache : bool) (max_start_line1Length max_start_line2Length
    max_start_line3Length max_num_headers : Z) : t :=
  MessageBuffer 0 max_num_headers (rwb.make max_start_line1Length)
    (rwb.make max_start_line2Length) (rwb.make max_start_line3Length) [] cache.

(** The constructor of a static message: the fields are copied. *)
Fixpoint push_fields (fields : list header_buffer) (m : t) : res t :=
  match fields with
  | [] => Ok m
  | f :: fs =>
      f ← hb.copy f;
      push_fields fs (MessageBuffer (u32 (m.(current_num_fields_) + 1)) (u32 (m.(max_fields_) + 1))
        m.(start_line1_) m.(start_line2_) m.(start_line3_) (m.(headers_) ++ [f]) m.(cache_))
  end.

Definition make_static (start_line1 start_line2 start_line3 : option (list Z))
    (fields : list header_buffer) : res t :=
  push_fields fields (MessageBuffer 0 0 (rwb.make_static start_line1)
    (rwb.make_static start_line2) (rwb.make_static start_line3) [] false).

Definition with_headers (hs : list header_buffer) (m : t) : t :=
  MessageBuffer m.(current_num_fields_) m.(max_fields_) m.(start_line1_) m.(start_line2_)
    m.(start_line3_) hs m.(cache_).

Definition reset_lines (n : Z) (hs : list header_buffer) (m : t) : t :=
  MessageBuffer n m.(max_fields_) (rwb.reset m.(start_line1_)) (rwb.reset m.(start_line2_))
    (rwb.reset m.(start_line3_)) hs m.(cache_).

Definition reset (m : t) (c : header_cache) : res (t * header_cache) :=
  if m.(cache_) then
    '(hs, c) ← cache.release_headers m.(headers_) c;
    Ok (reset_lines 0 hs m, c)
  else Ok (reset_lines m.(current_num_fields_) (map hb.reset m.(headers_)) m, c).

(** [~message_buffer()]: what is left is the pool. *)
Definition destroy (m : t) (c : header_cache) : res header_cache :=
  if m.(cache_) then '(_, c) ← cache.release_headers m.(headers_) c; Ok c else Ok c.

(** The three start-line buffers, by their number. *)
Definition append_to_status_line_1 (bytes : list Z) (m : t) : res (bool * t) :=
  fits ← rwb.fits_in_buffer (raw_size bytes) m.(start_line1_);
  if fits : bool then
    b ← rwb.append_from_buffer bytes m.(start_line1_);
    Ok (true, MessageBuffer m.(current_num_fields_) m.(max_fields_) b m.(start_line2_)
                m.(start_line3_) m.(headers_) m.(cache_))
  else Ok (false, m).

Definition append_to_status_line_2 (bytes : list Z) (m : t) : res (bool * t) :=
  fits ← rwb.fits_in_buffer (raw_size bytes) m.(start_line2_);
  if fits : bool then
    b ← rwb.append_from_buffer bytes m.(start_line2_);
    Ok (true, MessageBuffer m.(current_num_fields_) m.(max_fields_) m.(start_line1_) b
                m.(start_line3_) m.(headers_) m.(cache_))
  else Ok (false, m).

Definition append_to_status_line_3 (bytes : list Z) (m : t) : res (bool * t) :=
  fits ← rwb.fits_in_buffer (raw_size bytes) m.(start_line3_);
  if fits : bool then
    b ← rwb.append_from_buffer bytes m.(start_line3_);
    Ok (true, MessageBuffer m.(current_num_fields_) m.(max_fields_) m.(start_line1_)
                m.(start_line2_) b m.(headers_) m.(cache_))
  else Ok (false, m).

(** The parameter is an [int], which the comparison converts back to an
    [unsigned int]; the loop over it is one of [int]s.  Walking past the
    end of the list is undefined. *)
Definition get_header (n : Z) (m : t) : res header_buffer :=
  let n := s32 n in
  _ ← CHECK_CONDITION (u32 n <? m.(current_num_fields_));
  of_option (m.(headers_) !! Z.to_nat n).

(** The header that [get_header n] refers to is replaced. *)
Definition set_header (n : Z) (h : header_buffer) (m : t) : t :=
  with_headers (<[Z.to_nat (s32 n) := h]> m.(headers_)) m.

Definition append_to_name (n : Z) (bytes : list Z) (m : t) : res (bool * t) :=
  h ← get_header n m;
  fits ← rwb.fits_in_buffer (raw_size bytes) (hb.get_name h);
  if fits : bool then h ← hb.append_to_name bytes h; Ok (true, set_header n h m)
  else Ok (false, m).

Definition append_to_value (n : Z) (bytes : list Z) (m : t) : res (bool * t) :=
  h ← get_header n m;
  fits ← rwb.fits_in_buffer (raw_size bytes) (hb.get_value h);
  if fits : bool then h ← hb.append_to_value bytes h; Ok (true, set_header n h m)
  else Ok (false, m).

Definition get_status_line_1 (m : t) : read_write_buffer := m.(start_line1_).
Definition get_status_line_2 (m : t) : read_write_buffer := m.(start_line2_).
Definition get_status_line_3 (m : t) : read_write_buffer := m.(start_line3_).

Definition get_field_name (n : Z) (m : t) : res read_write_buffer :=
  _ ← CHECK_CONDITION (n <? m.(current_num_fields_));
  h ← get_header n m;
  Ok (hb.get_name h).

Definition get_field_value (n : Z) (m : t) : res read_write_buffer :=
  _ ← CHECK_CONDITION (n <? m.(current_num_fields_));
  h ← get_header n m;
  Ok (hb.get_value h).

(** Assignments through the two references. *)
Definition set_field_name (n : Z) (b : read_write_buffer) (m : t) : res t :=
  h ← get_header n m;
  Ok (set_header n (HeaderBuffer b h.(value_)) m).

Definition set_field_value (n : Z) (b : read_write_buffer) (m : t) : res t :=
  h ← get_header n m;
  Ok (set_header n (HeaderBuffer h.(name_) b) m).

Definition field_name_equals (n : Z) (cs : list Z) (m : t) : res bool :=
  _ ← CHECK_CONDITION (n <? m.(current_num_fields_));
  h ← get_header n m;
  hb.name_equals cs h.

Definition field_value_equals (n : Z) (cs : list Z) (m : t) : res bool :=
  _ ← CHECK_CONDITION (n <? m.(current_num_fields_));
  h ← get_header n m;
  hb.value_equals cs h.

Definition get_max_fields (m : t) : Z := m.(max_fields_).
Definition get_num_fields (m : t) : Z := m.(current_num_fields_).

Definition add_field (m : t) (c : header_cache) : res (bool * t * header_cache) :=
  _ ← CHECK_CONDITION (m.(current_num_fields_) <? get_max_fields m);
  _ ← CHECK_CONDITION m.(cache_);
  if cache.empty c then Ok (false, m, c)
  else
    '(hs, c) ← cache.alloc_header m.(headers_) c;
    let m := MessageBuffer (u32 (m.(current_num_fields_) + 1)) m.(max_fields_) m.(start_line1_)
               m.(start_line2_) m.(start_line3_) hs m.(cache_) in
    _ ← CHECK_CONDITION (Z.of_nat (length m.(headers_)) =? m.(current_num_fields_));
    Ok (true, m, c).

(** The loop of [get_header_index_by_name] over the headers from index [i]. *)
Fixpoint index_by_name (cs : list Z) (i : Z) (hs : list header_buffer) : res (option Z) :=
  match hs with
  | [] => Ok None
  | h :: hs =>
      eq ← hb.name_equals cs h;
      if eq : bool then Ok (Some (u32 i)) else index_by_name cs (i + 1) hs
  end.

(** [None] is the return value [false], [index] is then not assigned. *)
Definition get_header_index_by_name (cs : list Z) (m : t) : res (option Z) :=
  index_by_name cs 0 m.(headers_).

(** The string is appended to; [false] leaves it alone. *)
Definition get_header_value (cs : list Z) (header_value : list Z) (m : t)
    : res (bool * list Z) :=
  i ← get_header_index_by_name cs m;
  match i with
  | Some i =>
      b ← get_field_value i m;
      s ← rwb.append_to_string header_value b;
      Ok (true, s)
  | None => Ok (false, header_value)
  end.

(** The bytes a socket reads through the const buffer of a buffer. *)
Definition const_bytes (b : read_write_buffer) : res (list Z) :=
  '(address, size) ← rwb.get_const_buffer b;
  raw ← rwb.get_raw_buffer b;
  rwb.range raw address (address + size).

Fixpoint field_buffers (hs : list header_buffer) : res (list (list Z)) :=
  match hs with
  | [] => Ok []
  | h :: hs =>
      n ← const_bytes (hb.get_name h);
      v ← const_bytes (hb.get_value h);
      l ← field_buffers hs;
      Ok (n :: field_sep :: v :: new_line :: l)
  end.

(** The buffer sequence, each buffer given by its bytes. *)
Definition get_const_buffers (m : t) : res (list (list Z)) :=
  l1 ← const_bytes m.(start_line1_);
  l2 ← const_bytes m.(start_line2_);
  l3 ← const_bytes m.(start_line3_);
  l ← field_buffers m.(headers_);
  Ok ([l1; space; l2; space; l3; new_line] ++ l ++ [new_line]).

End message_buffer.

(** * The wrappers *)
Module request_buffer_wrapper.

Inductive VERSION := HTTP1 | HTTP1_1 | INVALID.

Definition get_method := message_buffer.get_status_line_1.
Definition get_uri := message_buffer.get_status_line_2.
Definition get_http_version_buffer := message_buffer.get_status_line_3.
Definition get_field_value_n := message_buffer.get_field_value.
Definition get_header_with_name_index := message_buffer.get_header_index_by_name.

Definition get_http_version (m : message_buffer.t) : res VERSION :=
  e ← rwb.equals (str "HTTP/1.1") (message_buffer.get_status_line_3 m);
  if e : bool then Ok HTTP1_1
  else
    e ← rwb.equals (str "HTTP/1.0") (message_buffer.get_status_line_3 m);
    if e : bool then Ok HTTP1 else Ok INVALID.

End request_buffer_wrapper.

Module response_buffer_wrapper.

Definition get_http_version := message_buffer.get_status_line_1.
Definition get_status_code := message_buffer.get_status_line_2.
Definition get_reason_phrase := message_buffer.get_status_line_3.

End response_buffer_wrapper.

(** * The static strings and the static error response *)
Record static_strings := StaticStrings {
  space_ : list Z;
  endline_ : list Z;
  fieldsep_ : list Z
}.

Definition make_strings : res static_strings :=
  space ← init_raw_buffer (replicate 1 0) (str " ");
  fieldsep ← init_raw_buffer (replicate 2 0) (str ": ");
  Ok (StaticStrings space (<[1%nat := LF]> (<[0%nat := CR]> (replicate 2 0))) fieldsep).

Definition strings_ : static_strings := StaticStrings [32] [13; 10] [58; 32].

(** [error_response::static_buffers] and the message made from them. *)
Definition error_response : res (message_buffer.t * header_cache) :=
  l1 ← init_raw_buffer (replicate 8 0) (str "HTTP/1.x");
  l2 ← init_raw_buffer (replicate 3 0) (str "400");
  l3 ← init_raw_buffer (replicate 11 0) (str "Bad Request");
  n ← init_raw_buffer (replicate 10 0) (str "Connection");
  v ← init_raw_buffer (replicate 5 0) (str "close");
  let field := HeaderBuffer (rwb.set_static_buffer (Some n) rwb.make_default)
                 (rwb.set_static_buffer (Some v) rwb.make_default) in
  m ← message_buffer.make_static (Some l1) (Some l2) (Some l3) [field];
  message_buffer.reset m (HeaderCache []).

(** * Invariants *)

(** The sizes of the vectors of a message. *)
Record sizes := Sizes {
  n_line1 : Z;
  n_line2 : Z;
  n_line3 : Z;
  n_name : Z;
  n_value : Z
}.

Record hb_ok (z : sizes) (h : header_buffer) : Prop := {
  hb_name : stored z.(n_name) h.(name_);
  hb_value : stored z.(n_value) h.(value_)
}.

(** A header of these sizes, written or not. *)
Record hb_kept (z : sizes) (h : header_buffer) : Prop := {
  hk_name : kept z.(n_name) h.(name_);
  hk_value : kept z.(n_value) h.(value_)
}.

Definition cache_ok (z : sizes) (c : header_cache) : Prop := Forall (hb_kept z) c.(headers_).

(** A message whose headers come from a pool. *)
Record message_ok (z : sizes) (m : message_buffer.t) : Prop := {
  mb_cache : message_buffer.cache_ m = true;
  mb_num : message_buffer.current_num_fields_ m = Z.of_nat (length (message_buffer.headers_ m));
  mb_max : message_buffer.current_num_fields_ m <= message_buffer.max_fields_ m < 2 ^ 31;
  mb_line1 : stored z.(n_line1) (message_buffer.start_line1_ m);
  mb_line2 : stored z.(n_line2) (message_buffer.start_line2_ m);
  mb_line3 : stored z.(n_line3) (message_buffer.start_line3_ m);
  mb_headers : Forall (hb_ok z) (message_buffer.headers_ m)
}.

(** The same for a message that may have been written to a socket. *)
Record message_kept (z : sizes) (m : message_buffer.t) : Prop := {
  mk_cache : message_buffer.cache_ m = true;
  mk_max : 0 <= message_buffer.max_fields_ m < 2 ^ 31;
  mk_line1 : kept z.(n_line1) (message_buffer.start_line1_ m);
  mk_line2 : kept z.(n_line2) (message_buffer.start_line2_ m);
  mk_line3 : kept z.(n_line3) (message_buffer.start_line3_ m);
  mk_headers : Forall (hb_kept z) (message_buffer.headers_ m)
}.

(** The contents of a message: its start line and its fields. *)
Definition field_of (h : header_buffer) : list Z * list Z :=
  (content h.(name_), content h.(value_)).
Definition fields_of (m : message_buffer.t) : list (list Z * list Z) :=
  map field_of (message_buffer.headers_ m).

(** A message on the wire. *)
Definition serialize_field (f : list Z * list Z) : list Z :=
  f.1 ++ message_buffer.field_sep ++ f.2 ++ message_buffer.new_line.
Definition serialize (t1 t2 t3 : list Z) (fields : list (list Z * list Z)) : list Z :=
  t1 ++ message_buffer.space ++ t2 ++ message_buffer.space ++ t3 ++ message_buffer.new_line
     ++ concat (map serialize_field fields) ++ message_buffer.new_line.

(** * Lemmas *)

Lemma hb_make_ok z :
  0 <= z.(n_name) < 2 ^ 31 -> 0 <= z.(n_value) < 2 ^ 31 ->
  hb_ok z (hb.make z.(n_name) z.(n_value)).
Proof. intros. constructor; by apply stored_make. Qed.

Lemma hb_ok_kept z h : hb_ok z h -> hb_kept z h.
Proof. intros []. constructor; by apply stored_kept. Qed.

Lemma message_ok_kept z m : message_ok z m -> message_kept z m.
Proof.
  intros []. constructor; try done; try (by apply stored_kept); [lia|].
  eapply Forall_impl; [exact mb_headers0|]. apply hb_ok_kept.
Qed.

Lemma hb_reset_ok z h : hb_kept z h -> hb_ok z (hb.reset h) /\ field_of (hb.reset h) = ([], []).
Proof.
  intros [Hn Hv]. apply kept_reset in Hn as [? Hn], Hv as [? Hv].
  split; [done|]. unfold field_of. simpl. by rewrite Hn, Hv.
Qed.

Lemma get_header_ok z m n h :
  message_ok z m -> 0 <= n -> message_buffer.headers_ m !! Z.to_nat n = Some h ->
  message_buffer.get_header n m = Ok h /\ s32 n = n /\
  0 <= n < message_buffer.current_num_fields_ m.
Proof.
  intros [] Hn Hh. pose proof (lookup_lt_Some _ _ _ Hh).
  unfold message_buffer.get_header. rewrite s32_small, u32_small, check_true by lia. simpl.
  rewrite Hh. split; [done|lia].
Qed.

(** Replacing a header by one of the same sizes. *)
Lemma set_header_ok z m n h :
  message_ok z m -> 0 <= n < message_buffer.current_num_fields_ m -> hb_ok z h ->
  message_ok z (message_buffer.set_header n h m) /\
  fields_of (message_buffer.set_header n h m) = <[Z.to_nat n := field_of h]> (fields_of m).
Proof.
  intros [] Hn Hh. unfold message_buffer.set_header. rewrite s32_small by lia. split.
  - constructor; simpl; rewrite ?length_insert; try done. by apply Forall_insert.
  - unfold fields_of. simpl. apply list_fmap_insert.
Qed.

Lemma append_to_name_ok z m n h bytes :
  message_ok z m -> 0 <= n -> message_buffer.headers_ m !! Z.to_nat n = Some h ->
  bytes_ok bytes -> raw_size bytes < 2 ^ 31 ->
  if raw_size (field_of h).1 + raw_size bytes <=? z.(n_name) then
    exists h', message_buffer.append_to_name n bytes m =
        Ok (true, message_buffer.set_header n h' m) /\ hb_ok z h' /\
      field_of h' = ((field_of h).1 ++ bytes, (field_of h).2)
  else message_buffer.append_to_name n bytes m = Ok (false, m).
Proof.
  intros Hm Hn Hh Hb Hsz. destruct (get_header_ok _ _ _ _ Hm Hn Hh) as (Hg & Hs & Hlt).
  pose proof Hm as []. pose proof (proj1 (Forall_lookup _ _) mb_headers0 _ _ Hh) as [Hname Hval].
  unfold message_buffer.append_to_name. rewrite Hg. simpl.
  pose proof (raw_size_nonneg bytes). unfold hb.get_name.
  rewrite (stored_fits _ _ _ Hname) by lia. simpl.
  assert (raw_size (content (name_ h)) = working_length_ (name_ h)) as ->
    by (apply length_content, Hname).
  destruct (Z.leb_spec (working_length_ (name_ h) + raw_size bytes) (n_name z)); [|done].
  destruct (stored_append _ _ _ Hname Hb) as (b' & Hb' & Hok & Hc & _); [done|].
  unfold hb.append_to_name. rewrite Hb'. simpl.
  exists (HeaderBuffer b' (value_ h)). split; [done|]. split; [done|].
  unfold field_of. simpl. by rewrite Hc.
Qed.

Lemma append_to_value_ok z m n h bytes :
  message_ok z m -> 0 <= n -> message_buffer.headers_ m !! Z.to_nat n = Some h ->
  bytes_ok bytes -> raw_size bytes < 2 ^ 31 ->
  if raw_size (field_of h).2 + raw_size bytes <=? z.(n_value) then
    exists h', message_buffer.append_to_value n bytes m =
        Ok (true, message_buffer.set_header n h' m) /\ hb_ok z h' /\
      field_of h' = ((field_of h).1, (field_of h).2 ++ bytes)
  else message_buffer.append_to_value n bytes m = Ok (false, m).
Proof.
  intros Hm Hn Hh Hb Hsz. destruct (get_header_ok _ _ _ _ Hm Hn Hh) as (Hg & Hs & Hlt).
  pose proof Hm as []. pose proof (proj1 (Forall_lookup _ _) mb_headers0 _ _ Hh) as [Hname Hval].
  unfold message_buffer.append_to_value. rewrite Hg. simpl.
  pose proof (raw_size_nonneg bytes). unfold hb.get_value.
  rewrite (stored_fits _ _ _ Hval) by lia. simpl.
  assert (raw_size (content (value_ h)) = working_length_ (value_ h)) as ->
    by (apply length_content, Hval).
  destruct (Z.leb_spec (working_length_ (value_ h) + raw_size bytes) (n_value z)); [|done].
  destruct (stored_append _ _ _ Hval Hb) as (b' & Hb' & Hok & Hc & _); [done|].
  unfold hb.append_to_value. rewrite Hb'. simpl.
  exists (HeaderBuffer (name_ h) b'). split; [done|]. split; [done|].
  unfold field_of. simpl. by rewrite Hc.
Qed.

(** Appending to a stored buffer, or not when the bytes do not fit. *)
Ltac append_stored :=
  intros Hb Hsz;
  match goal with
  | Hs : stored _ ?b |- context [rwb.fits_in_buffer (raw_size ?bytes) ?b] =>
      rewrite (stored_fits _ _ _ Hs) by (split; [apply raw_size_nonneg|exact Hsz]); simpl;
      replace (raw_size (content b)) with (working_length_ b)
        by (symmetry; apply length_content, Hs);
      let Hle := fresh in
      match goal with |- context [?x <=? ?y] => destruct (Z.leb_spec x y) as [Hle|] end; [|done];
      let b' := fresh "b" in
      destruct (stored_append _ _ _ Hs Hb Hle) as (b' & -> & Hok & Hc & _); simpl; by exists b'
  end.

Lemma append_to_status_line_1_ok z m bytes :
  message_ok z m -> bytes_ok bytes -> raw_size bytes < 2 ^ 31 ->
  if raw_size (content (message_buffer.start_line1_ m)) + raw_size bytes <=? z.(n_line1) then
    exists b,
      message_buffer.append_to_status_line_1 bytes m =
        Ok (true, message_buffer.MessageBuffer (message_buffer.current_num_fields_ m)
                    (message_buffer.max_fields_ m) b (message_buffer.start_line2_ m) (message_buffer.start_line3_ m)
                    (message_buffer.headers_ m) (message_buffer.cache_ m)) /\
      stored z.(n_line1) b /\ content b = content (message_buffer.start_line1_ m) ++ bytes
  else message_buffer.append_to_status_line_1 bytes m = Ok (false, m).
Proof. intros []. unfold message_buffer.append_to_status_line_1. by append_stored. Qed.

Lemma append_to_status_line_2_ok z m bytes :
  message_ok z m -> bytes_ok bytes -> raw_size bytes < 2 ^ 31 ->
  if raw_size (content (message_buffer.start_line2_ m)) + raw_size bytes <=? z.(n_line2) then
    exists b,
      message_buffer.append_to_status_line_2 bytes m =
        Ok (true, message_buffer.MessageBuffer (message_buffer.current_num_fields_ m)
                    (message_buffer.max_fields_ m) (message_buffer.start_line1_ m) b (message_buffer.start_line3_ m)
                    (message_buffer.headers_ m) (message_buffer.cache_ m)) /\
      stored z.(n_line2) b /\ content b = content (message_buffer.start_line2_ m) ++ bytes
  else message_buffer.append_to_status_line_2 bytes m = Ok (false, m).
Proof. intros []. unfold message_buffer.append_to_status_line_2. by append_stored. Qed.

Lemma append_to_status_line_3_ok z m bytes :
  message_ok z m -> bytes_ok bytes -> raw_size bytes < 2 ^ 31 ->
  if raw_size (content (message_buffer.start_line3_ m)) + raw_size bytes <=? z.(n_line3) then
    exists b,
      message_buffer.append_to_status_line_3 bytes m =
        Ok (true, message_buffer.MessageBuffer (message_buffer.current_num_fields_ m)
                    (message_buffer.max_fields_ m) (message_buffer.start_line1_ m) (message_buffer.start_line2_ m) b
                    (message_buffer.headers_ m) (message_buffer.cache_ m)) /\
      stored z.(n_line3) b /\ content b = content (message_buffer.start_line3_ m) ++ bytes
  else message_buffer.append_to_status_line_3 bytes m = Ok (false, m).
Proof. intros []. unfold message_buffer.append_to_status_line_3. by append_stored. Qed.

Lemma add_field_ok z m c :
  message_ok z m -> cache_ok z c ->
  message_buffer.current_num_fields_ m < message_buffer.max_fields_ m ->
  if cache.empty c then message_buffer.add_field m c = Ok (false, m, c)
  else exists m' c',
    message_buffer.add_field m c = Ok (true, m', c') /\ message_ok z m' /\ cache_ok z c' /\
    fields_of m' = fields_of m ++ [([], [])] /\
    cache.num_available_headers c = cache.num_available_headers c' + 1 /\
    m' = message_buffer.MessageBuffer (message_buffer.current_num_fields_ m + 1)
           (message_buffer.max_fields_ m) (message_buffer.start_line1_ m)
           (message_buffer.start_line2_ m) (message_buffer.start_line3_ m)
           (message_buffer.headers_ m') true.
Proof.
  intros Hm Hc Hlt. pose proof Hm as []. unfold message_buffer.add_field, message_buffer.get_max_fields.
  rewrite (check_true (_ <? _)) by lia. simpl. rewrite mb_cache0. simpl.
  unfold cache.empty, cache.alloc_header, cache_ok, cache.num_available_headers in *.
  destruct c as [[|h hs]]; simpl in *; [done|].
  inversion Hc as [|? ? Hh Hhs]; subst. apply hb_reset_ok in Hh as [Hh Hf].
  rewrite length_app, u32_small by lia. simpl.
  rewrite (check_true (_ =? _)) by (apply Z.eqb_eq; rewrite mb_num0, Nat2Z.inj_add; reflexivity). simpl. do 2 eexists. split; [done|].
  split; [|split; [done|split; [|split; [simpl; lia|done]]]].
  - constructor; simpl; try done; rewrite ?length_app; simpl; try lia.
    apply Forall_app; auto.
  - unfold fields_of. simpl. rewrite map_app. simpl. by rewrite Hf.
Qed.

Lemma reset_ok z m c :
  message_kept z m -> cache_ok z c ->
  if cache.empty c then message_buffer.reset m c = Aborted
  else exists m' c',
    message_buffer.reset m c = Ok (m', c') /\ message_ok z m' /\ cache_ok z c' /\
    fields_of m' = [] /\ message_buffer.headers_ m' = [] /\
    message_buffer.current_num_fields_ m' = 0 /\
    message_buffer.max_fields_ m' = message_buffer.max_fields_ m /\
    content (message_buffer.start_line1_ m') = [] /\
    content (message_buffer.start_line2_ m') = [] /\
    content (message_buffer.start_line3_ m') = [] /\
    cache.empty c' = false /\
    cache.num_available_headers c' =
      cache.num_available_headers c + Z.of_nat (length (message_buffer.headers_ m)).
Proof.
  intros [] Hc. unfold message_buffer.reset. rewrite mk_cache0.
  unfold cache.release_headers, cache.empty. destruct c as [[|h hs]]; simpl in *; [done|].
  apply kept_reset in mk_line4 as [? H1'], mk_line5 as [? H2'], mk_line6 as [? H3'].
  do 2 eexists. split; [done|]. split; [constructor; simpl; try done; lia|].
  split; [by apply (Forall_app_2 _ (h :: hs))|]. do 8 (split; [done|]).
  unfold cache.num_available_headers. simpl. rewrite length_app. lia.
Qed.

Lemma const_bytes_stored n b : stored n b -> message_buffer.const_bytes b = Ok (content b).
Proof.
  intros Hs. pose proof (stored_window _ _ Hs) as Hw. destruct Hs as [Hwf _ _ Hwr He].
  pose proof (wf_write_end _ Hwf). pose proof (wf_working _ Hwf).
  unfold message_buffer.const_bytes, rwb.get_const_buffer, rwb.get_raw_buffer.
  rewrite (wf_vector _ Hwf). simpl. rewrite Hwr, Z.add_0_l, He, range_slice by (done || lia).
  unfold window in Hw. rewrite Hwr, He in Hw. by rewrite Hw.
Qed.

Lemma field_buffers_ok z hs :
  Forall (hb_ok z) hs ->
  exists l, message_buffer.field_buffers hs = Ok l /\
    concat l = concat (map serialize_field (map field_of hs)).
Proof.
  induction 1 as [|h hs [Hn Hv] _ (l & Hl & Hc)]; [by exists []|]. simpl.
  unfold hb.get_name, hb.get_value.
  rewrite (const_bytes_stored _ _ Hn), (const_bytes_stored _ _ Hv), Hl. simpl.
  eexists. split; [done|]. cbn [concat map]. rewrite <- Hc. unfold serialize_field, field_of.
  cbn [fst snd]. by rewrite <- !app_assoc.
Qed.

Lemma index_by_name_spec z cs hs i :
  Forall (hb_ok z) hs -> c_string cs -> 0 <= i -> i + Z.of_nat (length hs) < 2 ^ 32 ->
  exists r, message_buffer.index_by_name cs i hs = Ok r /\
    match r with
    | Some j =>
        i <= j < i + Z.of_nat (length hs) /\
        (exists h, hs !! Z.to_nat (j - i) = Some h /\ lower (field_of h).1 = lower cs) /\
        forall k h, (k < Z.to_nat (j - i))%nat -> hs !! k = Some h -> lower (field_of h).1 <> lower cs
    | None => Forall (fun h => lower (field_of h).1 <> lower cs) hs
    end.
Proof.
  intros Hhs Hcs. revert i. induction Hhs as [|h hs [Hn Hv] _ IH]; intros i Hi Hlt.
  { by exists None. }
  simpl in *. unfold hb.name_equals. rewrite (equals_spec cs) by (done || apply Hn). simpl.
  destruct (bool_decide_reflect (lower (content (name_ h)) = lower cs)) as [He|He].
  - eexists. split; [reflexivity|]. rewrite u32_small by lia. split; [lia|].
    rewrite Z.sub_diag. simpl. split; [eauto|]. intros k h' Hk. lia.
  - destruct (IH (i + 1)) as (r & -> & Hr); [lia|lia|]. eexists. split; [reflexivity|].
    destruct r as [j|]; [|by constructor].
    destruct Hr as (Hj & (h' & Hh' & Hl) & Hbefore). split; [lia|].
    replace (Z.to_nat (j - i)) with (S (Z.to_nat (j - (i + 1)))) by lia.
    split; [eauto|]. intros [|k] h'' Hk Hh''; simpl in *; [by simplify_eq|].
    eapply Hbefore; [|done]. lia.
Qed.

Lemma const_buffers_ok z m :
  message_ok z m ->
  exists l, message_buffer.get_const_buffers m = Ok l /\
    concat l = serialize (content (message_buffer.start_line1_ m))
                 (content (message_buffer.start_line2_ m))
                 (content (message_buffer.start_line3_ m)) (fields_of m).
Proof.
  intros []. unfold message_buffer.get_const_buffers.
  rewrite (const_bytes_stored _ _ mb_line4), (const_bytes_stored _ _ mb_line5),
    (const_bytes_stored _ _ mb_line6). simpl.
  destruct (field_buffers_ok _ _ mb_headers0) as (l & -> & Hl). simpl.
  eexists. split; [done|]. unfold serialize, fields_of. cbn [concat app].
  rewrite concat_app, Hl. simpl. done.
Qed.

Lemma const_buffers_concat z m l :
  message_ok z m -> message_buffer.get_const_buffers m = Ok l ->
  concat l = serialize (content (message_buffer.start_line1_ m))
               (content (message_buffer.start_line2_ m))
               (content (message_buffer.start_line3_ m)) (fields_of m).
Proof. intros Hm Hl. destruct (const_buffers_ok _ _ Hm) as (l' & Hl' & H). congruence. Qed.

(** * The pool shared by the messages of a process *)

(** A state is the messages alive and the pool. *)
Definition pool_state : Type := list message_buffer.t * header_cache.

(** The operations that move headers or write into them, on message [i]. *)
Inductive pool_step : pool_state -> pool_state -> Prop :=
  | pool_make ms c n1 n2 n3 n :
      pool_step (ms, c) (ms ++ [message_buffer.make true n1 n2 n3 n], c)
  | pool_add ms c i m r m' c' :
      ms !! i = Some m -> message_buffer.add_field m c = Ok (r, m', c') ->
      pool_step (ms, c) (<[i := m']> ms, c')
  | pool_reset ms c i m m' c' :
      ms !! i = Some m -> message_buffer.reset m c = Ok (m', c') ->
      pool_step (ms, c) (<[i := m']> ms, c')
  | pool_destroy ms c i m c' :
      ms !! i = Some m -> message_buffer.destroy m c = Ok c' ->
      pool_step (ms, c) (delete i ms, c')
  | pool_name ms c i m n bytes r m' :
      ms !! i = Some m -> message_buffer.append_to_name n bytes m = Ok (r, m') ->
      pool_step (ms, c) (<[i := m']> ms, c)
  | pool_value ms c i m n bytes r m' :
      ms !! i = Some m -> message_buffer.append_to_value n bytes m = Ok (r, m') ->
      pool_step (ms, c) (<[i := m']> ms, c).

Definition held (ms : list message_buffer.t) : nat :=
  list_sum (map (fun m => length (message_buffer.headers_ m)) ms).

Definition counted (m : message_buffer.t) : Prop :=
  message_buffer.cache_ m = true /\
  message_buffer.current_num_fields_ m = Z.of_nat (length (message_buffer.headers_ m)) /\
  (message_buffer.headers_ m = [] \/
   message_buffer.current_num_fields_ m <= message_buffer.max_fields_ m).

Definition pool_inv (total : Z) (s : pool_state) : Prop :=
  cache.num_available_headers s.2 + Z.of_nat (held s.1) = total /\
  0 < cache.num_available_headers s.2 + Z.of_nat (held s.1) < 2 ^ 32 /\
  Forall counted s.1.

Lemma held_insert ms i m m' :
  ms !! i = Some m ->
  (held (<[i := m']> ms) + length (message_buffer.headers_ m) =
   held ms + length (message_buffer.headers_ m'))%nat.
Proof.
  unfold held. revert i. induction ms as [|m0 ms IH]; intros [|i] Hi; simpl in *; try done.
  - simplify_eq. lia.
  - specialize (IH _ Hi). lia.
Qed.

Lemma held_delete ms i m :
  ms !! i = Some m -> (held (delete i ms) + length (message_buffer.headers_ m) = held ms)%nat.
Proof.
  unfold held. revert i. induction ms as [|m0 ms IH]; intros [|i] Hi; simpl in *; try done.
  - simplify_eq. lia.
  - specialize (IH _ Hi). lia.
Qed.

Lemma set_header_counted n h m :
  counted m -> counted (message_buffer.set_header n h m) /\
  length (message_buffer.headers_ (message_buffer.set_header n h m)) =
  length (message_buffer.headers_ m).
Proof.
  intros (? & ? & Hm). unfold counted. simpl. rewrite length_insert. split; [|done].
  split; [done|]. split; [done|]. destruct Hm as [->|]; [left|right]; done.
Qed.

Lemma pool_step_inv total s s' : pool_step s s' -> pool_inv total s -> pool_inv total s'.
Proof.
  assert (forall ms c i m m' c', ms !! i = Some m -> counted m' ->
    (Z.of_nat (length (message_buffer.headers_ m')) + cache.num_available_headers c' =
     Z.of_nat (length (message_buffer.headers_ m)) + cache.num_available_headers c) ->
    pool_inv total (ms, c) -> pool_inv total (<[i := m']> ms, c')) as Hupd.
  { intros ms c i m m' c' Hi Hm' Hlen (Ht & Hpos & Hc). unfold pool_inv in *. simpl in *.
    pose proof (held_insert _ _ _ m' Hi). split; [lia|]. split; [lia|].
    by apply Forall_insert. }
  intros Hs Hinv. pose proof Hinv as (Ht & Hpos & Hc). simpl in *.
  destruct Hs as [ms c n1 n2 n3 n|ms c i m r m' c' Hi H|ms c i m m' c' Hi H|ms c i m c' Hi H
    |ms c i m n bytes r m' Hi H|ms c i m n bytes r m' Hi H];
    try (pose proof (proj1 (Forall_lookup _ _) Hc _ _ Hi) as Hm; pose proof Hm as (Hca & Hnum & Hmax)).
  - unfold pool_inv, held in *. simpl in *. rewrite map_app, list_sum_app. simpl.
    rewrite !Nat.add_0_r. split; [done|]. split; [done|]. apply Forall_app. split; [done|].
    by repeat constructor.
  - unfold message_buffer.add_field, cache.alloc_header in H. inv_res. breflect.
    destruct c as [[|h hs]]; simpl in H; inv_res; [by eapply Hupd|].
    simpl in *. rewrite length_app in *. simpl in *. breflect.
    apply (Hupd ms (HeaderCache (h :: hs)) i m);
      [done| |unfold cache.num_available_headers; simpl; rewrite length_app; simpl; lia|done].
    split; [done|]. simpl. rewrite length_app. simpl. split; [lia|]. right. pose proof (held_delete _ _ _ Hi). unfold message_buffer.get_max_fields in *.
    unfold cache.num_available_headers in Hpos. simpl in Hpos.
    rewrite u32_small by lia. lia.
  - unfold message_buffer.reset, cache.release_headers in H. rewrite Hca in H. inv_res.
    eapply Hupd; [done|repeat split; simpl; auto| |done].
    unfold cache.num_available_headers. simpl. rewrite length_app. lia.
  - unfold message_buffer.destroy, cache.release_headers in H. rewrite Hca in H. inv_res.
    pose proof (held_delete _ _ _ Hi). unfold pool_inv, cache.num_available_headers in *. simpl in *.
    rewrite length_app. split; [lia|]. split; [lia|]. by apply Forall_delete.
  - unfold message_buffer.append_to_name in H. inv_res. destruct a0; inv_res; [|by eapply Hupd].
    apply (set_header_counted n a0) in Hm as [? Hlen].
    by apply (Hupd ms c i m); rewrite ?Hlen.
  - unfold message_buffer.append_to_value in H. inv_res. destruct a0; inv_res; [|by eapply Hupd].
    apply (set_header_counted n a0) in Hm as [? Hlen].
    by apply (Hupd ms c i m); rewrite ?Hlen.
Qed.

(** * Properties *)

(** C26: Whatever the order in which messages are made, filled, reset and
    destroyed, no header of the pool is lost or duplicated: those available
    and those the messages hold always add up to the size of the pool, and
    every message counts its headers right and stays within its maximum. *)
Theorem header_pool_conserved num name_len value_len ms c :
  0 < num < 2 ^ 32 ->
  rtc pool_step ([], cache.make num name_len value_len) (ms, c) ->
  cache.num_available_headers c + Z.of_nat (held ms) = num /\
  Forall (fun m => message_buffer.get_num_fields m = Z.of_nat (length (message_buffer.headers_ m)) /\
                   (message_buffer.headers_ m = [] \/
                    message_buffer.get_num_fields m <= message_buffer.get_max_fields m)) ms.
Proof.
  intros Hn Hs.
  assert (pool_inv num ([], cache.make num name_len value_len)) as Hinv.
  { unfold pool_inv, cache.num_available_headers, held. simpl. rewrite length_replicate.
    split; [lia|]. split; [lia|constructor]. }
  assert (forall s s', rtc pool_step s s' -> pool_inv num s -> pool_inv num s') as Hrtc
    by (induction 1; eauto using pool_step_inv).
  destruct (Hrtc _ _ Hs Hinv) as (Ht & _ & Hc). split; [done|].
  eapply Forall_impl; [exact Hc|]. intros m (_ & ? & ?). done.
Qed.

(** [add_field] on a message below its maximum takes the front header of
    the pool, emptied, or answers [false] and changes nothing when the pool
    is empty; [reset] gives every header back and empties the message, but
    aborts the process when the pool is empty at that moment. *)
Theorem add_field_reset_spec z m c :
  message_ok z m -> cache_ok z c ->
  (message_buffer.current_num_fields_ m < message_buffer.max_fields_ m ->
   if cache.empty c then message_buffer.add_field m c = Ok (false, m, c)
   else exists m' c',
     message_buffer.add_field m c = Ok (true, m', c') /\ message_ok z m' /\ cache_ok z c' /\
     fields_of m' = fields_of m ++ [([], [])] /\
     cache.num_available_headers c = cache.num_available_headers c' + 1) /\
  (if cache.empty c then message_buffer.reset m c = Aborted
   else exists m' c',
     message_buffer.reset m c = Ok (m', c') /\ message_ok z m' /\ cache_ok z c' /\
     fields_of m' = [] /\
     cache.num_available_headers c' =
       cache.num_available_headers c + Z.of_nat (length (message_buffer.headers_ m))).
Proof.
  intros Hm Hc. split.
  - intros Hlt. pose proof (add_field_ok _ _ _ Hm Hc Hlt) as H. destruct (cache.empty c); [done|].
    destruct H as (m' & c' & ? & ? & ? & ? & ? & _). eauto 10.
  - pose proof (reset_ok _ _ _ (message_ok_kept _ _ Hm) Hc) as H. destruct (cache.empty c); [done|].
    destruct H as (m' & c' & ? & ? & ? & ? & _ & _ & _ & _ & _ & _ & _ & ?). eauto 10.
Qed.

(** Appending to the name of field [n] extends that name and touches no
    other field, or answers [false] and changes nothing when the bytes do
    not fit the header's vector; a field that does not exist aborts. *)
Theorem append_to_name_spec z m n bytes :
  message_ok z m -> bytes_ok bytes -> raw_size bytes < 2 ^ 31 -> 0 <= n < 2 ^ 31 ->
  match fields_of m !! Z.to_nat n with
  | None => message_buffer.append_to_name n bytes m = Aborted
  | Some (name, value) =>
      if raw_size name + raw_size bytes <=? z.(n_name) then
        exists m', message_buffer.append_to_name n bytes m = Ok (true, m') /\ message_ok z m' /\
          fields_of m' = <[Z.to_nat n := (name ++ bytes, value)]> (fields_of m)
      else message_buffer.append_to_name n bytes m = Ok (false, m)
  end.
Proof.
  intros Hm Hb Hsz Hn. unfold fields_of at 1. rewrite list_lookup_fmap.
  destruct (message_buffer.headers_ m !! Z.to_nat n) as [h|] eqn:Hh; simpl.
  - pose proof (append_to_name_ok z m n h bytes Hm (proj1 Hn) Hh Hb Hsz) as H. simpl in H.
    case_match; [|done]. destruct H as (h' & H1 & H2 & H3).
    destruct (get_header_ok _ _ _ _ Hm (proj1 Hn) Hh) as (_ & _ & Hlt).
    destruct (set_header_ok _ _ _ _ Hm Hlt H2) as [Hok Hf].
    eexists. split; [done|]. split; [done|]. by rewrite Hf, H3.
  - apply lookup_ge_None_1 in Hh. destruct Hm.
    unfold message_buffer.append_to_name, message_buffer.get_header.
    rewrite s32_small, u32_small by lia. unfold CHECK_CONDITION.
    replace (n <? _) with false by lia. done.
Qed.

(** [get_header_value] finds the first field whose name equals the
    string up to ASCII case and appends its value, and answers [false]
    exactly when there is none. *)
Theorem get_header_value_spec z m cs s :
  message_ok z m -> c_string cs ->
  exists r, message_buffer.get_header_value cs s m = Ok r /\
  match r with
  | (true, s') =>
      exists pre name value post,
        fields_of m = pre ++ (name, value) :: post /\ lower name = lower cs /\
        Forall (fun f => lower f.1 <> lower cs) pre /\ s' = s ++ value
  | (false, s') => Forall (fun f => lower f.1 <> lower cs) (fields_of m) /\ s' = s
  end.
Proof.
  intros Hm Hcs. pose proof Hm as []. unfold message_buffer.get_header_value,
    message_buffer.get_header_index_by_name.
  destruct (index_by_name_spec z cs (message_buffer.headers_ m) 0) as (r & -> & Hr);
    [done|done|lia|lia|]. simpl.
  destruct r as [j|].
  - destruct Hr as (Hj & (h & Hh & Hl) & Hbefore). rewrite Z.sub_0_r in *.
    unfold message_buffer.get_field_value. rewrite check_true by lia. simpl.
    destruct (get_header_ok _ _ _ _ Hm (proj1 Hj) Hh) as (-> & _). simpl.
    pose proof (proj1 (Forall_lookup _ _) mb_headers0 _ _ Hh) as [_ Hv].
    rewrite (append_to_string_content _ _ (stored_wf _ _ Hv)). simpl.
    eexists. split; [done|].
    exists (map field_of (take (Z.to_nat j) (message_buffer.headers_ m))), (field_of h).1,
      (field_of h).2, (map field_of (drop (S (Z.to_nat j)) (message_buffer.headers_ m))).
    split; [|split; [done|split; [|done]]].
    + unfold fields_of. rewrite <- (take_drop_middle _ _ _ Hh) at 1.
      rewrite map_app. cbn [map]. by rewrite <- (surjective_pairing (field_of h)).
    + apply Forall_map, Forall_lookup. intros k h' Hk. apply lookup_take_Some in Hk as [Hk ?].
      by eapply Hbefore.
  - eexists. split; [done|]. split; [|done]. by apply Forall_map.
Qed.

(** The buffer sequence of a message is its serialization: the three
    tokens of the start line separated by spaces, the fields as
    [name: value], each line ended by CR LF, and an empty line. *)
Theorem get_const_buffers_serialize z m :
  message_ok z m ->
  exists l, message_buffer.get_const_buffers m = Ok l /\
    concat l = serialize (content (message_buffer.start_line1_ m))
                 (content (message_buffer.start_line2_ m))
                 (content (message_buffer.start_line3_ m)) (fields_of m).
Proof.
  apply const_buffers_ok.
Qed.

(** ** The properties at concrete inputs *)

Definition sample_sizes : sizes := Sizes 4 4 8 8 8.

Definition sample_message : message_buffer.t :=
  message_buffer.MessageBuffer 1 2 (store 4 (str "GET")) (store 4 (str "/"))
    (store 8 (str "HTTP/1.1")) [HeaderBuffer (store 8 (str "Host")) (store 8 (str "a"))] true.

Ltac concrete_stored :=
  unfold sample_message; cbn [message_buffer.start_line1_ message_buffer.start_line2_
    message_buffer.start_line3_ name_ value_];
  match goal with |- stored _ (store ?n ?l) => refine (proj1 (stored_store n l _ _ _)) end;
  [forall_concrete|cbn; lia|cbn; lia].

Lemma sample_message_ok : message_ok sample_sizes sample_message.
Proof.
  constructor; try reflexivity; try concrete_stored; [split; discriminate || reflexivity|].
  constructor; [|constructor]. constructor; concrete_stored.
Qed.

Lemma sample_cache_ok : cache_ok sample_sizes (cache.make 1 8 8).
Proof.
  constructor; [|constructor]. apply hb_ok_kept, (hb_make_ok sample_sizes); split; reflexivity || discriminate.
Qed.

Lemma header_pool_conserved_witness :
  exists m c, rtc pool_step ([], cache.make 2 8 8) ([m], c) /\
    cache.num_available_headers c = 1 /\ cache.num_available_headers c + Z.of_nat (held [m]) = 2.
Proof.
  pose (m := message_buffer.make true 4 4 8 2).
  pose (m' := message_buffer.MessageBuffer 1 2 (rwb.make 4) (rwb.make 4) (rwb.make 8)
                [hb.make 8 8] true).
  assert (rtc pool_step ([], cache.make 2 8 8) ([m'], cache.make 1 8 8)) as H.
  { eapply rtc_l; [apply (pool_make [] _ 4 4 8 2)|].
    apply rtc_once. exact (pool_add [m] (cache.make 2 8 8) 0 m true m' _ eq_refl eq_refl). }
  exists m', (cache.make 1 8 8). split; [exact H|]. split; [reflexivity|].
  refine (proj1 (header_pool_conserved 2 8 8 _ _ _ H)). split; reflexivity.
Defined.

Lemma add_field_reset_spec_witness :
  exists m' c', message_buffer.add_field sample_message (cache.make 1 8 8) = Ok (true, m', c') /\
    cache.num_available_headers c' = 0 /\ message_buffer.reset m' c' = Aborted.
Proof.
  destruct (add_field_reset_spec _ _ _ sample_message_ok sample_cache_ok) as [H _].
  destruct H as (m' & c' & H1 & H2 & H3 & _ & H4); [reflexivity|].
  exists m', c'. split; [exact H1|].
  destruct (add_field_reset_spec _ _ _ H2 H3) as [_ H5].
  revert H4 H5. destruct c' as [[|]]; intros H4 H5; [split; [reflexivity|exact H5]|].
  exfalso. revert H4. unfold cache.num_available_headers. simpl. lia.
Defined.

Lemma append_to_name_spec_witness :
  exists m', message_buffer.append_to_name 0 (str "XY") sample_message = Ok (true, m') /\
    fields_of m' = [(str "HostXY", str "a")].
Proof.
  pose proof (append_to_name_spec _ _ 0 (str "XY") sample_message_ok) as H.
  destruct H as (m' & H1 & _ & H2); [forall_concrete|reflexivity|split; [discriminate|reflexivity]|].
  exists m'. split; [exact H1|exact H2].
Defined.

Lemma get_header_value_spec_witness :
  exists r, message_buffer.get_header_value (str "hOST") (str "x") sample_message = Ok r /\
    r = (true, str "xa").
Proof.
  destruct (get_header_value_spec _ _ (str "hOST") (str "x") sample_message_ok) as (r & H & _).
  - forall_concrete.
  - exists r. split; [exact H|].
    assert (Ok r = Ok (true, str "xa")) as E by (rewrite <- H; vm_compute; reflexivity).
    injection E as ->. reflexivity.
Defined.

Lemma get_const_buffers_serialize_witness :
  exists l, message_buffer.get_const_buffers sample_message = Ok l /\
    concat l = str "GET / HTTP/1.1" ++ [13; 10] ++ str "Host: a" ++ [13; 10; 13; 10].
Proof.
  destruct (get_const_buffers_serialize _ _ sample_message_ok) as (l & H1 & H2).
  exists l. split; [exact H1|]. rewrite H2. vm_compute. reflexivity.
Defined.

(** An exhausted pool aborts the process when a message without headers is
    reset or destroyed, although nothing has to be given back. *)
Lemma reset_aborts_on_empty_pool :
  message_buffer.reset (message_buffer.make true 4 4 8 2) (HeaderCache []) = Aborted /\
  message_buffer.destroy (message_buffer.make true 4 4 8 2) (HeaderCache []) = Aborted.
Proof. split; reflexivity. Qed.

(** The static response of an error is a response. *)
Lemma error_response_bytes :
  (('(m, _) ← error_response; l ← message_buffer.get_const_buffers m; Ok (concat l)) : res (list Z)) =
  Ok (str "HTTP/1.x 400 Bad Request" ++ [13; 10] ++ str "Connection: close" ++ [13; 10; 13; 10]) /\
  make_strings = Ok strings_.
Proof. split; vm_compute; reflexivity. Qed.
