(* ===== verification/Interfaces.v ===== *)
(** The interfaces through which the parsers hand what they parsed to the
    rest of the program: http/i_header_receiver.hpp and
    http/i_body_receiver.hpp, each a class of operations, with the promises
    the parsers are proved against. *)
From S2P Require Import Prelude Status ReadWriteBuffer.

(** * Header receivers

    A receiver reads the range [[i_begin, i_end)] of the buffer. *)
Class i_header_receiver (R : Type) := {
  start_line_token1 : R -> read_write_buffer -> Z -> Z -> bool -> res (R * http.STATUS);
  start_line_token2 : R -> read_write_buffer -> Z -> Z -> bool -> res (R * http.STATUS);
  start_line_token3 : R -> read_write_buffer -> Z -> Z -> bool -> res (R * http.STATUS);
  set_field_name : R -> read_write_buffer -> Z -> Z -> bool -> res (R * http.STATUS);
  set_field_value : R -> read_write_buffer -> Z -> Z -> bool -> res (R * http.STATUS);
  end_fields : R -> res (R * http.STATUS)
}.

(** What a header receiver promises: what it does depends on the bytes of
    the range alone. *)
Class HeaderReceiver (R : Type) `{i_header_receiver R} := {
  recv_token1 : R -> list Z -> bool -> res (R * http.STATUS);
  recv_token2 : R -> list Z -> bool -> res (R * http.STATUS);
  recv_token3 : R -> list Z -> bool -> res (R * http.STATUS);
  recv_name : R -> list Z -> bool -> res (R * http.STATUS);
  recv_value : R -> list Z -> bool -> res (R * http.STATUS);
  token1_bytes r b i j c : wf b -> 0 <= i <= j -> j <= b.(working_length_) ->
    start_line_token1 r b i j c = recv_token1 r (slice b i j) c;
  token2_bytes r b i j c : wf b -> 0 <= i <= j -> j <= b.(working_length_) ->
    start_line_token2 r b i j c = recv_token2 r (slice b i j) c;
  token3_bytes r b i j c : wf b -> 0 <= i <= j -> j <= b.(working_length_) ->
    start_line_token3 r b i j c = recv_token3 r (slice b i j) c;
  name_bytes r b i j c : wf b -> 0 <= i <= j -> j <= b.(working_length_) ->
    set_field_name r b i j c = recv_name r (slice b i j) c;
  value_bytes r b i j c : wf b -> 0 <= i <= j -> j <= b.(working_length_) ->
    set_field_value r b i j c = recv_value r (slice b i j) c
}.

(** A receiver takes a whole message: every token, field by field, and the
    end of the fields. *)
Inductive delivers_fields {R} `{HeaderReceiver R} : R -> list (list Z * list Z) -> R -> Prop :=
  | delivers_nil r : delivers_fields r [] r
  | delivers_cons r r1 r2 r3 name value fields :
      recv_name r name true = Ok (r1, http.COMPLETE) ->
      recv_value r1 value true = Ok (r2, http.COMPLETE) ->
      delivers_fields r2 fields r3 ->
      delivers_fields r ((name, value) :: fields) r3.

Record delivers {R} `{HeaderReceiver R} (r : R) (t1 t2 t3 : list Z)
    (fields : list (list Z * list Z)) (r' : R) : Prop := {
  delivers_tokens : exists r1 r2 r3 r4,
    recv_token1 r t1 true = Ok (r1, http.COMPLETE) /\
    recv_token2 r1 t2 true = Ok (r2, http.COMPLETE) /\
    recv_token3 r2 t3 true = Ok (r3, http.COMPLETE) /\
    delivers_fields r3 fields r4 /\
    end_fields r4 = Ok (r', http.COMPLETE)
}.

Lemma delivers_fields_app {R} `{HeaderReceiver R} r fs r1 gs r2 :
  delivers_fields r fs r1 -> delivers_fields r1 gs r2 -> delivers_fields r (fs ++ gs) r2.
Proof. induction 1; simpl; eauto using delivers_fields. Qed.

(** * Body receivers *)
Class i_body_receiver (R : Type) := {
  set_body_encoding : R -> http.BODY_ENCODING -> R;
  set_body : R -> read_write_buffer -> bool -> res (R * read_write_buffer * http.STATUS);
  set_chunk_size : R -> Z -> res R;
  forward_chunk_size : R -> res (R * http.STATUS);
  forward_chunk_trailer : R -> res (R * http.STATUS)
}.

(** The buffer with another write position. *)
Definition written_to (p : Z) (b : read_write_buffer) : read_write_buffer :=
  RWB b.(p_buffer_) b.(b_using_static_buffer_) b.(working_length_) b.(process_position_)
      b.(write_end_position_) p.

Lemma written_to_wf p b : wf b -> 0 <= p <= b.(working_length_) -> wf (written_to p b).
Proof. intros Hwf Hp. pose proof Hwf as []. by apply wf_positions. Qed.

Lemma window_length b :
  wf b -> b.(write_position_) <= b.(write_end_position_) ->
  Z.of_nat (length (window b)) = b.(write_end_position_) - b.(write_position_).
Proof.
  intros Hwf Hle. pose proof Hwf as []. unfold window. apply length_slice; try done; lia.
Qed.

(** Writing [k] bytes of the window leaves the rest of it. *)
Lemma window_written b (k : nat) :
  wf b -> b.(write_position_) <= b.(write_end_position_) -> (k <= length (window b))%nat ->
  wf (written_to (b.(write_position_) + Z.of_nat k) b) /\
  window (written_to (b.(write_position_) + Z.of_nat k) b) = drop k (window b) /\
  b.(write_position_) + Z.of_nat k <= b.(write_end_position_).
Proof.
  intros Hwf Hle Hk. pose proof (window_length b Hwf Hle) as Hl. pose proof Hwf as [].
  split; [apply written_to_wf; [done|lia]|]. split; [|lia].
  unfold window, written_to, slice, raw_of. simpl.
  rewrite skipn_firstn_comm, drop_drop. f_equal; [lia|]. f_equal. lia.
Qed.

(** What a body receiver promises.  It takes some bytes from the front of
    the buffer's write window, in order, moves the write position past them,
    and answers [COMPLETE] only when it took them all (a window that ends
    before it begins is empty, and may abort); [received] is every
    byte it took or put out so far.  A chunk's size and its trailer are put
    out by the receiver as the bytes [size_bytes] and [trailer_bytes], of
    which [size_left] and [trailer_left] remain.  [receiver_ok] is the
    receiver's own invariant. *)
Class BodyReceiver (R : Type) `{i_body_receiver R} := {
  receiver_ok : R -> Prop;
  received : R -> list Z;
  size_bytes : Z -> list Z;
  trailer_bytes : list Z;
  size_left : R -> list Z;
  trailer_left : R -> list Z;
  set_body_yields r b c :
    receiver_ok r -> wf b ->
    yields (b.(write_end_position_) < b.(write_position_)) (set_body r b c)
      (fun '(r', b', st) => exists k : nat,
        b' = written_to (b.(write_position_) + Z.of_nat k) b /\
        (k <= length (window b))%nat /\ received r' = received r ++ take k (window b) /\
        (st = http.COMPLETE -> k = length (window b)) /\ st <> http.WRITE_INCOMPLETE /\
        receiver_ok r' /\ size_left r' = size_left r /\ trailer_left r' = trailer_left r);
  set_chunk_size_total r n :
    receiver_ok r -> 0 <= n < 2 ^ 32 ->
    exists r', set_chunk_size r n = Ok r' /\ received r' = received r /\ receiver_ok r' /\
      size_left r' = size_bytes n /\ trailer_left r' = trailer_bytes;
  forward_chunk_size_total r :
    receiver_ok r ->
    exists r' put st, forward_chunk_size r = Ok (r', st) /\ received r' = received r ++ put /\
      size_left r = put ++ size_left r' /\ (st = http.COMPLETE -> size_left r' = []) /\
      st <> http.WRITE_INCOMPLETE /\ receiver_ok r' /\ trailer_left r' = trailer_left r;
  forward_chunk_trailer_total r :
    receiver_ok r ->
    exists r' put st, forward_chunk_trailer r = Ok (r', st) /\ received r' = received r ++ put /\
      trailer_left r = put ++ trailer_left r' /\ (st = http.COMPLETE -> trailer_left r' = []) /\
      st <> http.WRITE_INCOMPLETE /\ receiver_ok r'
}.

Lemma set_body_takes {R} `{BodyReceiver R} (r : R) b c :
  receiver_ok r -> wf b -> b.(write_position_) <= b.(write_end_position_) ->
  exists r' (k : nat) st,
    set_body r b c = Ok (r', written_to (b.(write_position_) + Z.of_nat k) b, st) /\
    (k <= length (window b))%nat /\ received r' = received r ++ take k (window b) /\
    (st = http.COMPLETE -> k = length (window b)) /\ st <> http.WRITE_INCOMPLETE /\
    receiver_ok r' /\ size_left r' = size_left r /\ trailer_left r' = trailer_left r.
Proof.
  intros Hok Hwf Hle. pose proof (set_body_yields r b c Hok Hwf) as Hy.
  destruct (set_body r b c) as [[[r' b'] st]| | |]; simpl in Hy; try lia; try done.
  destruct Hy as (k & -> & Hy). by exists r', k, st.
Qed.
