(* ===== verification/HeaderHandler.v ===== *)
(** The receiver of parsed headers, http/header_handler.cpp: it stores the
    start line and the fields in a message, checks the method of a request
    and derives from the fields how the body is delimited. *)
From S2P Require Import Prelude Status ReadWriteBuffer HttpLex HeaderStore Interfaces.

(** * [atoi] of the C library

    It skips white space, takes an optional sign and the digits that
    follow.  A value that is no [int] is undefined, and so is a string that
    does not end within the vector it is in. *)
Definition isspace (c : Z) : bool := (c =? 32) || ((9 <=? c) && (c <=? 13)).
Definition isdigit (c : Z) : bool := (48 <=? c) && (c <=? 57).

Fixpoint atoi_digits (acc : Z) (cs : list Z) : res Z :=
  match cs with
  | [] => Undef
  | c :: cs => if isdigit c then atoi_digits (acc * 10 + (c - 48)) cs else Ok acc
  end.

Definition atoi_sign (cs : list Z) : res Z :=
  match cs with
  | [] => Undef
  | c :: cs' =>
      if c =? 45 then n ← atoi_digits 0 cs'; Ok (- n)
      else if c =? 43 then atoi_digits 0 cs' else atoi_digits 0 cs
  end.

Fixpoint atoi_spaces (cs : list Z) : res Z :=
  match cs with
  | [] => Undef
  | c :: cs' => if isspace c then atoi_spaces cs' else atoi_sign cs
  end.

Definition atoi (cs : list Z) : res Z :=
  n ← atoi_spaces cs;
  if (- 2 ^ 31 <=? n) && (n <? 2 ^ 31) then Ok n else Undef.

(** * The handler *)
Inductive STREAM_TYPE := REQUEST | RESPONSE.

#[export] Instance STREAM_TYPE_eq_dec : EqDecision STREAM_TYPE.
Proof. solve_decision. Defined.

Definition valid_methods : list (list Z) := [str "GET"; str "POST"; str "HEAD"].

(** The loop keeps the greatest length so far. *)
Definition max_method_length : Z :=
  fold_left (fun max m => if max <? raw_size m then raw_size m else max) valid_methods 0.

Definition max_version_length : Z := 8.

(** [*working_end() = c]: the byte after the working length. *)
Definition set_working_end (c : Z) (b : read_write_buffer) : res read_write_buffer :=
  raw ← rwb.get_raw_buffer b;
  _ ← of_option (raw !! Z.to_nat b.(working_length_));
  Ok (RWB (Some (<[Z.to_nat b.(working_length_) := c]> raw)) b.(b_using_static_buffer_)
          b.(working_length_) b.(process_position_)
          b.(write_end_position_) b.(write_position_)).

Module header_handler.

Record t := HeaderHandler {
  message_buffer_ : message_buffer.t;
  current_field_ : Z;
  message_size_ : Z;
  have_host_header_ : bool;
  ignore_body_encoding_headers_ : bool;
  body_encoding_ : http.BODY_ENCODING;
  stream_type_ : STREAM_TYPE
}.

Definition with_message (m : message_buffer.t) (h : t) : t :=
  HeaderHandler m h.(current_field_) h.(message_size_) h.(have_host_header_)
    h.(ignore_body_encoding_headers_) h.(body_encoding_) h.(stream_type_).

Definition with_field (n : Z) (h : t) : t :=
  HeaderHandler h.(message_buffer_) n h.(message_size_) h.(have_host_header_)
    h.(ignore_body_encoding_headers_) h.(body_encoding_) h.(stream_type_).

Definition with_host (host : bool) (h : t) : t :=
  HeaderHandler h.(message_buffer_) h.(current_field_) h.(message_size_) host
    h.(ignore_body_encoding_headers_) h.(body_encoding_) h.(stream_type_).

Definition with_body (enc : http.BODY_ENCODING) (size : Z) (ignore : bool) (h : t) : t :=
  HeaderHandler h.(message_buffer_) h.(current_field_) size h.(have_host_header_)
    ignore enc h.(stream_type_).

(** [header_handler::reset]; the pool is the one the message borrows from. *)
Definition reset (h : t) (c : header_cache) : res (t * header_cache) :=
  '(m, c) ← message_buffer.reset h.(message_buffer_) c;
  Ok (HeaderHandler m 0 0 false false
        (match h.(stream_type_) with REQUEST => http.NONE | RESPONSE => http.END_CONNECTION end)
        h.(stream_type_), c).

(** The constructor: what it leaves unset, [reset] sets. *)
Definition make (response : message_buffer.t) (stream_type : STREAM_TYPE) (c : header_cache)
    : res (t * header_cache) :=
  reset (HeaderHandler response 0 0 false false http.NONE stream_type) c.

(** The loop over the methods. *)
Fixpoint match_method (methods : list (list Z)) (token : read_write_buffer) (b_complete : bool)
    : res http.STATUS :=
  match methods with
  | [] => Ok http.INVALID
  | m :: ms =>
      result ← rwb.compare_no_case m token;
      match result, b_complete with
      | rwb.EQUAL, true => Ok http.COMPLETE
      | rwb.SUBSTRING, false => Ok http.COMPLETE
      | _, _ => match_method ms token b_complete
      end
  end.

(** The bytes of [[begin() + i_begin, begin() + i_end)]. *)
Definition bytes_of (b : read_write_buffer) (i_begin i_end : Z) : res (list Z) :=
  raw ← rwb.get_raw_buffer b;
  rwb.range raw i_begin i_end.

Definition receive_token1 (h : t) (bytes : list Z) (b_complete : bool) : res (t * http.STATUS) :=
  '(fits, m) ← message_buffer.append_to_status_line_1 bytes h.(message_buffer_);
  let h := with_message m h in
  if fits : bool then
    match h.(stream_type_) with
    | REQUEST =>
        st ← match_method valid_methods (message_buffer.get_status_line_1 m) b_complete;
        Ok (h, st)
    | RESPONSE => Ok (h, http.COMPLETE)
    end
  else Ok (h, http.DATAOVERFLOW).

Definition scan_return_code (h : t) : res t :=
  e ← rwb.equals (str "304") (response_buffer_wrapper.get_status_code h.(message_buffer_));
  if e : bool then Ok (with_body http.NONE h.(message_size_) true h) else Ok h.

Definition receive_token2 (h : t) (bytes : list Z) (b_complete : bool) : res (t * http.STATUS) :=
  '(fits, m) ← message_buffer.append_to_status_line_2 bytes h.(message_buffer_);
  let h := with_message m h in
  if fits : bool then
    if b_complete && bool_decide (h.(stream_type_) = RESPONSE) then
      h ← scan_return_code h; Ok (h, http.COMPLETE)
    else Ok (h, http.COMPLETE)
  else Ok (h, http.DATAOVERFLOW).

Definition receive_token3 (h : t) (bytes : list Z) (b_complete : bool) : res (t * http.STATUS) :=
  '(fits, m) ← message_buffer.append_to_status_line_3 bytes h.(message_buffer_);
  let h := with_message m h in
  Ok (h, if fits : bool then http.COMPLETE else http.DATAOVERFLOW).

Definition receive_name (h : t) (c : header_cache) (bytes : list Z) (b_complete : bool)
    : res (t * header_cache * http.STATUS) :=
  '(h, c, refused) ←
    if message_buffer.get_num_fields h.(message_buffer_) =? h.(current_field_) then
      if message_buffer.get_max_fields h.(message_buffer_) <=? h.(current_field_) then
        Ok (h, c, true)
      else
        '(added, m, c) ← message_buffer.add_field h.(message_buffer_) c;
        Ok (with_message m h, c, negb added)
    else Ok (h, c, false);
  if refused : bool then Ok (h, c, http.DATAOVERFLOW)
  else
    '(fits, m) ← message_buffer.append_to_name h.(current_field_) bytes h.(message_buffer_);
    Ok (with_message m h, c, if fits : bool then http.COMPLETE else http.DATAOVERFLOW).

(** The value is terminated in place, and read from its vector. *)
Definition scan_content_length (h : t) : res t :=
  let n := h.(current_field_) in
  if bool_decide (h.(body_encoding_) = http.CHUNKED) then Ok h
  else
    field_value ← message_buffer.get_field_value n h.(message_buffer_);
    field_value ← set_working_end 0 field_value;
    m ← message_buffer.set_field_value n field_value h.(message_buffer_);
    raw ← rwb.get_raw_buffer field_value;
    size ← atoi raw;
    Ok (with_body http.CONTENT_LENGTH (u32 size) h.(ignore_body_encoding_headers_)
          (with_message m h)).

Definition scan_field (h : t) : res t :=
  let n := h.(current_field_) in
  _ ← message_buffer.get_field_value n h.(message_buffer_);
  host ← if h.(have_host_header_) then Ok true
         else message_buffer.field_name_equals n (str "host") h.(message_buffer_);
  let h := with_host host h in
  if h.(ignore_body_encoding_headers_) then Ok h
  else
    e ← message_buffer.field_name_equals n (str "content-length") h.(message_buffer_);
    if e : bool then scan_content_length h
    else
      e ← message_buffer.field_name_equals n (str "transfer-encoding") h.(message_buffer_);
      if e : bool then
        e ← message_buffer.field_value_equals n (str "chunked") h.(message_buffer_);
        if e : bool then
          Ok (with_body http.CHUNKED h.(message_size_) h.(ignore_body_encoding_headers_) h)
        else Ok h
      else Ok h.

Definition receive_value (h : t) (bytes : list Z) (b_complete : bool) : res (t * http.STATUS) :=
  '(fits, m) ← message_buffer.append_to_value h.(current_field_) bytes h.(message_buffer_);
  let h := with_message m h in
  if fits : bool then
    if b_complete then
      h ← scan_field h;
      Ok (with_field (u32 (h.(current_field_) + 1)) h, http.COMPLETE)
    else Ok (h, http.COMPLETE)
  else Ok (h, http.DATAOVERFLOW).

Definition end_fields (h : t) : res (t * http.STATUS) :=
  match h.(stream_type_) with
  | REQUEST =>
      v ← request_buffer_wrapper.get_http_version h.(message_buffer_);
      match v with
      | request_buffer_wrapper.HTTP1_1 =>
          Ok (h, if h.(have_host_header_) then http.COMPLETE else http.INVALID)
      | _ => Ok (h, http.COMPLETE)
      end
  | RESPONSE => Ok (h, http.COMPLETE)
  end.

Definition get_body_encoding (h : t) : http.BODY_ENCODING := h.(body_encoding_).
Definition get_message_size (h : t) : Z := h.(message_size_).
Definition get_message_buffer (h : t) : message_buffer.t := h.(message_buffer_).

(** ** The handler as a receiver, with the pool it draws from *)
Definition state : Type := t * header_cache.

Definition lift (s : state) (m : res (t * http.STATUS)) : res (state * http.STATUS) :=
  '(h, st) ← m; Ok ((h, s.2), st).

Definition lift_cache (m : res (t * header_cache * http.STATUS)) : res (state * http.STATUS) :=
  '(h, c, st) ← m; Ok ((h, c), st).

#[global] Instance receiver : i_header_receiver state := {
  start_line_token1 s b i j c :=
    bytes ← bytes_of b i j; lift s (receive_token1 s.1 bytes c);
  start_line_token2 s b i j c :=
    bytes ← bytes_of b i j; lift s (receive_token2 s.1 bytes c);
  start_line_token3 s b i j c :=
    bytes ← bytes_of b i j; lift s (receive_token3 s.1 bytes c);
  set_field_name s b i j c :=
    bytes ← bytes_of b i j; lift_cache (receive_name s.1 s.2 bytes c);
  set_field_value s b i j c :=
    bytes ← bytes_of b i j; lift s (receive_value s.1 bytes c);
  end_fields s := lift s (end_fields s.1)
}.

Lemma bytes_of_slice b i j :
  wf b -> 0 <= i <= j -> j <= b.(working_length_) -> bytes_of b i j = Ok (slice b i j).
Proof.
  intros Hwf Hi Hj. unfold bytes_of, rwb.get_raw_buffer. rewrite (wf_vector _ Hwf). simpl.
  by apply range_slice.
Qed.

#[global] Instance receiver_bytes : HeaderReceiver state.
Proof.
  refine {|
    recv_token1 s l c := lift s (receive_token1 s.1 l c);
    recv_token2 s l c := lift s (receive_token2 s.1 l c);
    recv_token3 s l c := lift s (receive_token3 s.1 l c);
    recv_name s l c := lift_cache (receive_name s.1 s.2 l c);
    recv_value s l c := lift s (receive_value s.1 l c) |};
    intros; simpl; by rewrite bytes_of_slice.
Defined.

End header_handler.

(** * What the fields say of the body *)

(** The handler's summary of the fields. *)
Record body_info := BodyInfo {
  encoding : http.BODY_ENCODING;
  body_size : Z;
  host_seen : bool;
  no_body : bool
}.

Definition dec_value (ds : list Z) : Z := fold_left (fun acc c => acc * 10 + (c - 48)) ds 0.

Definition named (f : list Z * list Z) (cs : list Z) : bool := bool_decide (lower f.1 = lower cs).

(** A field is noted the way RFC 2616, 4.4 asks for: a content length does
    not count once the body is chunked. *)
Definition note_field (i : body_info) (f : list Z * list Z) : body_info :=
  let host := i.(host_seen) || named f (str "host") in
  if i.(no_body) then BodyInfo i.(encoding) i.(body_size) host true
  else if named f (str "content-length") then
    if bool_decide (i.(encoding) = http.CHUNKED) then BodyInfo i.(encoding) i.(body_size) host false
    else BodyInfo http.CONTENT_LENGTH (dec_value f.2) host false
  else if named f (str "transfer-encoding") && bool_decide (lower f.2 = lower (str "chunked")) then
    BodyInfo http.CHUNKED i.(body_size) host false
  else BodyInfo i.(encoding) i.(body_size) host false.

Definition info (h : header_handler.t) : body_info :=
  BodyInfo (header_handler.body_encoding_ h) (header_handler.message_size_ h)
    (header_handler.have_host_header_ h) (header_handler.ignore_body_encoding_headers_ h).

(** The handler between two fields. *)
Record handler_ok (z : sizes) (h : header_handler.t) : Prop := {
  ho_message : message_ok z (header_handler.message_buffer_ h);
  ho_field : header_handler.current_field_ h =
    Z.of_nat (length (fields_of (header_handler.message_buffer_ h)))
}.

(** A field a handler can store; the vector of a content length has room
    for the NUL, and the value is a decimal [int]. *)
Record field_fits (z : sizes) (f : list Z * list Z) : Prop := {
  ff_name : bytes_ok f.1 /\ raw_size f.1 <= z.(n_name) < 2 ^ 31;
  ff_value : bytes_ok f.2 /\ raw_size f.2 <= z.(n_value) < 2 ^ 31;
  ff_length : named f (str "content-length") = true ->
    Forall (fun c => isdigit c = true) f.2 /\ dec_value f.2 < 2 ^ 31 /\ raw_size f.2 < z.(n_value)
}.

(** * Lemmas *)

Lemma atoi_digits_ok ds rest acc :
  Forall (fun c => isdigit c = true) ds ->
  atoi_digits acc (ds ++ 0 :: rest) = Ok (fold_left (fun acc c => acc * 10 + (c - 48)) ds acc).
Proof. intros H. revert acc. induction H as [|c ds Hc _ IH]; intros acc; simpl; [done|]. by rewrite Hc. Qed.

Lemma dec_value_nonneg ds acc :
  Forall (fun c => isdigit c = true) ds -> 0 <= acc ->
  acc <= fold_left (fun acc c => acc * 10 + (c - 48)) ds acc.
Proof.
  intros H. revert acc. induction H as [|c ds Hc _ IH]; intros acc Ha; simpl; [lia|].
  unfold isdigit in Hc. breflect. specialize (IH (acc * 10 + (c - 48))). lia.
Qed.

Lemma atoi_ok ds rest :
  Forall (fun c => isdigit c = true) ds -> dec_value ds < 2 ^ 31 ->
  atoi (ds ++ 0 :: rest) = Ok (dec_value ds).
Proof.
  intros H Hlt. pose proof (dec_value_nonneg ds 0 H). unfold dec_value in *.
  assert (atoi_spaces (ds ++ 0 :: rest) = atoi_digits 0 (ds ++ 0 :: rest)) as Hs.
  { destruct H as [|c ds Hc H]; [done|]. simpl. unfold isspace, isdigit in *. breflect.
    replace (c =? 32) with false by lia. replace (c <=? 13) with false by lia.
    rewrite andb_false_r. simpl. replace (c =? 45) with false by lia.
    replace (c =? 43) with false by lia. done. }
  unfold atoi. rewrite Hs, atoi_digits_ok by done. simpl.
  destruct (_ && _) eqn:E; [done|]. rewrite andb_false_iff in E. breflect.
  destruct E as [E|E]; breflect; lia.
Qed.

Lemma set_working_end_ok n b :
  stored n b -> b.(working_length_) < n ->
  exists b' rest, set_working_end 0 b = Ok b' /\ stored n b' /\ content b' = content b /\
    rwb.get_raw_buffer b' = Ok (content b ++ 0 :: rest).
Proof.
  intros [Hwf Hs Ho Hw He] Hlt. pose proof Hwf as [].
  unfold set_working_end, rwb.get_raw_buffer. rewrite wf_vector. simpl.
  set (raw := raw_of b) in *. set (wl := Z.to_nat (working_length_ b)).
  assert (wl < length raw)%nat as Hwl by (unfold raw_size, wl in *; lia).
  destruct (lookup_lt_is_Some_2 raw wl Hwl) as [x Hx]. rewrite Hx. simpl.
  assert (raw_size (<[wl := 0]> raw) = raw_size raw) as Hrs
    by (unfold raw_size; by rewrite length_insert).
  do 2 eexists. split; [reflexivity|]. split; [|split].
  - constructor; simpl; try done; [|by rewrite <- Hs; rewrite <- Hrs].
    apply wf_new_vector with b; try done; try lia.
    apply Forall_insert; [done|]. split; done.
  - unfold content, raw_of at 1. simpl. fold raw wl. by rewrite take_insert_ge by lia.
  - simpl. f_equal. rewrite insert_take_drop by done. done.
Qed.

Import header_handler.

Lemma num_fields_length z m :
  message_ok z m -> message_buffer.current_num_fields_ m = Z.of_nat (length (fields_of m)).
Proof. intros []. unfold fields_of. by rewrite length_map. Qed.

Lemma field_equals_ok z m n name value cs :
  message_ok z m -> 0 <= n -> fields_of m !! Z.to_nat n = Some (name, value) -> c_string cs ->
  message_buffer.field_name_equals n cs m = Ok (bool_decide (lower name = lower cs)) /\
  message_buffer.field_value_equals n cs m = Ok (bool_decide (lower value = lower cs)).
Proof.
  intros Hm Hn Hf Hcs. unfold fields_of in Hf. rewrite list_lookup_fmap in Hf.
  destruct (message_buffer.headers_ m !! Z.to_nat n) as [h|] eqn:Hh; [|done].
  simpl in Hf. unfold field_of in Hf. simplify_eq.
  destruct (get_header_ok _ _ _ _ Hm Hn Hh) as (Hg & _ & Hlt).
  pose proof (proj1 (Forall_lookup _ _) (mb_headers _ _ Hm) _ _ Hh) as [Hname Hval].
  unfold message_buffer.field_name_equals, message_buffer.field_value_equals,
    hb.name_equals, hb.value_equals.
  rewrite !check_true by lia. simpl. rewrite Hg. simpl.
  rewrite !equals_spec; try done; [apply Hval|apply Hname].
Qed.

(** The last field as a header of the message. *)
Lemma last_header z m fs f :
  message_ok z m -> fields_of m = fs ++ [f] ->
  exists h, message_buffer.headers_ m !! length fs = Some h /\ field_of h = f /\ hb_ok z h.
Proof.
  intros Hm Hf.
  assert (fields_of m !! length fs = Some f) as Hl by (rewrite Hf; by apply list_lookup_middle).
  unfold fields_of in Hl. rewrite list_lookup_fmap in Hl.
  destruct (message_buffer.headers_ m !! length fs) as [h|] eqn:Hh; [|done].
  simpl in Hl. simplify_eq. exists h. split; [done|]. split; [done|].
  exact (proj1 (Forall_lookup _ _) (mb_headers _ _ Hm) _ _ Hh).
Qed.

(** The parts of a message that its fields do not touch. *)
Record same_lines (m m' : message_buffer.t) : Prop := {
  same1 : message_buffer.start_line1_ m' = message_buffer.start_line1_ m;
  same2 : message_buffer.start_line2_ m' = message_buffer.start_line2_ m;
  same3 : message_buffer.start_line3_ m' = message_buffer.start_line3_ m;
  same_max : message_buffer.max_fields_ m' = message_buffer.max_fields_ m
}.

Lemma same_lines_trans m1 m2 m3 : same_lines m1 m2 -> same_lines m2 m3 -> same_lines m1 m3.
Proof. intros [] []. constructor; congruence. Qed.

Lemma scan_content_length_ok z h fs name value :
  message_ok z h.(message_buffer_) -> fields_of h.(message_buffer_) = fs ++ [(name, value)] ->
  h.(current_field_) = Z.of_nat (length fs) ->
  Forall (fun c => isdigit c = true) value -> dec_value value < 2 ^ 31 ->
  raw_size value < z.(n_value) ->
  exists m', scan_content_length h =
      Ok (if bool_decide (h.(body_encoding_) = http.CHUNKED) then h
          else with_body http.CONTENT_LENGTH (dec_value value) h.(ignore_body_encoding_headers_)
                 (with_message m' h)) /\
    message_ok z m' /\ fields_of m' = fields_of h.(message_buffer_) /\
    same_lines h.(message_buffer_) m'.
Proof.
  intros Hm Hf Hcur Hd Hlt Hroom.
  destruct (last_header _ _ _ _ Hm Hf) as (hd & Hh & Hfo & Hname & Hval).
  unfold scan_content_length. case_bool_decide; [by exists h.(message_buffer_)|].
  assert (0 <= h.(current_field_)) as Hn by lia.
  assert (message_buffer.headers_ h.(message_buffer_) !! Z.to_nat h.(current_field_) = Some hd)
    as Hh' by (rewrite Hcur, Nat2Z.id; done).
  destruct (get_header_ok _ _ _ _ Hm Hn Hh') as (Hg & _ & Hlt').
  unfold message_buffer.get_field_value, message_buffer.set_field_value, hb.get_value.
  rewrite check_true, bind_ok, Hg, bind_ok, bind_ok by lia.
  unfold field_of in Hfo. simplify_eq.
  destruct (set_working_end_ok _ _ Hval) as (b & rest & Hb & Hbok & Hbc & Hbr).
  { rewrite <- (length_content _ (stored_wf _ _ Hval)). exact Hroom. }
  rewrite Hb, bind_ok, Hbr, !bind_ok, atoi_ok, bind_ok by done.
  pose proof (dec_value_nonneg _ 0 Hd). unfold dec_value in *.
  rewrite u32_small by lia. eexists. split; [reflexivity|].
  assert (hb_ok z (HeaderBuffer (name_ hd) b)) as Hok by done.
  destruct (set_header_ok _ _ _ _ Hm Hlt' Hok) as [? ->]. split; [done|]. split; [|done].
  rewrite Hf, Hcur, Nat2Z.id. unfold field_of. simpl. rewrite Hbc.
  by rewrite insert_app_r_alt, Nat.sub_diag by lia.
Qed.

Lemma scan_field_ok z h fs f :
  message_ok z h.(message_buffer_) -> fields_of h.(message_buffer_) = fs ++ [f] ->
  h.(current_field_) = Z.of_nat (length fs) -> field_fits z f ->
  exists h', scan_field h = Ok h' /\ message_ok z h'.(message_buffer_) /\
    fields_of h'.(message_buffer_) = fields_of h.(message_buffer_) /\
    h'.(current_field_) = h.(current_field_) /\ h'.(stream_type_) = h.(stream_type_) /\
    same_lines h.(message_buffer_) h'.(message_buffer_) /\
    info h' = note_field (info h) f.
Proof.
  intros Hm Hf Hcur Hfit. destruct f as [name value].
  destruct (last_header _ _ _ _ Hm Hf) as (hd & Hh & Hfo & Hname & Hval).
  assert (0 <= h.(current_field_)) as Hn by lia.
  assert (fields_of h.(message_buffer_) !! Z.to_nat h.(current_field_) = Some (name, value)) as Hl
    by (rewrite Hf, Hcur, Nat2Z.id; by apply list_lookup_middle).
  pose proof (fun cs Hcs => proj1 (field_equals_ok _ _ _ _ _ cs Hm Hn Hl Hcs)) as Hen.
  pose proof (fun cs Hcs => proj2 (field_equals_ok _ _ _ _ _ cs Hm Hn Hl Hcs)) as Hev.
  assert (message_buffer.headers_ h.(message_buffer_) !! Z.to_nat h.(current_field_) = Some hd)
    as Hh' by (rewrite Hcur, Nat2Z.id; done).
  destruct (get_header_ok _ _ _ _ Hm Hn Hh') as (Hg & _ & Hlt').
  assert (same_lines h.(message_buffer_) h.(message_buffer_)) as Hsame by done.
  unfold scan_field, message_buffer.get_field_value at 1.
  rewrite check_true, bind_ok, Hg, !bind_ok by lia.
  assert ((if have_host_header_ h then Ok true
           else message_buffer.field_name_equals (current_field_ h) (str "host") (message_buffer_ h))
          = Ok (have_host_header_ h || named (name, value) (str "host"))) as ->.
  { destruct (have_host_header_ h); [done|]. apply Hen. forall_concrete. }
  rewrite bind_ok. unfold note_field, info.
  cbn [ignore_body_encoding_headers_ message_buffer_ with_host host_seen no_body encoding body_size].
  generalize (have_host_header_ h || named (name, value) (str "host")). intros host.
  destruct (ignore_body_encoding_headers_ h) eqn:Ei.
  { eexists. split; [reflexivity|]. simpl. rewrite Ei. auto 20. }
  rewrite (Hen (str "content-length")), bind_ok by forall_concrete.
  change (bool_decide (lower name = lower (str "content-length"))) with (named (name, value) (str "content-length")).
  destruct (named (name, value) (str "content-length")) eqn:Ecl.
  { destruct (ff_length _ _ Hfit Ecl) as (Hd & Hdl & Hroom).
    destruct (scan_content_length_ok z (with_host host h) fs name value) as (m' & Hs & Hm' & Hf' & Hsm); try done.
    rewrite Hs. eexists. split; [reflexivity|].
    destruct (bool_decide (body_encoding_ (with_host host h) = http.CHUNKED)) eqn:Ec;
      simpl in *; rewrite Ec, ?Ei; auto 20. }
  rewrite (Hen (str "transfer-encoding")), bind_ok by forall_concrete.
  change (bool_decide (lower name = lower (str "transfer-encoding"))) with (named (name, value) (str "transfer-encoding")).
  destruct (named (name, value) (str "transfer-encoding")).
  - rewrite Hev, bind_ok by forall_concrete. simpl.
    case_bool_decide; eexists; (split; [reflexivity|]); simpl; rewrite ?Ei; auto 20.
  - eexists. split; [reflexivity|]. simpl. rewrite Ei. auto 20.
Qed.

(** Replacing the last field. *)
Lemma set_last z m fs f h' :
  message_ok z m -> fields_of m = fs ++ [f] -> hb_ok z h' ->
  message_ok z (message_buffer.set_header (Z.of_nat (length fs)) h' m) /\
  fields_of (message_buffer.set_header (Z.of_nat (length fs)) h' m) = fs ++ [field_of h'].
Proof.
  intros Hm Hf Hh. pose proof (num_fields_length _ _ Hm) as Hn.
  rewrite Hf, length_app in Hn. simpl in Hn.
  assert (0 <= Z.of_nat (length fs) < message_buffer.current_num_fields_ m) as Hlt by lia.
  destruct (set_header_ok _ _ _ _ Hm Hlt Hh) as [? ->]. split; [done|].
  rewrite Hf, Nat2Z.id. by rewrite insert_app_r_alt, Nat.sub_diag by lia.
Qed.

Lemma receive_name_new z h c name :
  handler_ok z h -> cache_ok z c -> cache.empty c = false ->
  message_buffer.current_num_fields_ h.(message_buffer_) <
    message_buffer.max_fields_ h.(message_buffer_) ->
  bytes_ok name -> raw_size name <= z.(n_name) < 2 ^ 31 ->
  exists m' c', receive_name h c name true = Ok (with_message m' h, c', http.COMPLETE) /\
    message_ok z m' /\ cache_ok z c' /\
    fields_of m' = fields_of h.(message_buffer_) ++ [(name, [])] /\
    same_lines h.(message_buffer_) m' /\
    cache.num_available_headers c = cache.num_available_headers c' + 1.
Proof.
  intros [Hm Hcur] Hc He Hlt Hb Hsz. pose proof (num_fields_length _ _ Hm) as Hn.
  pose proof (add_field_ok _ _ _ Hm Hc Hlt) as Ha. rewrite He in Ha.
  destruct Ha as (m1 & c1 & Ha & Hm1 & Hc1 & Hf1 & Hav & Heq).
  unfold receive_name, message_buffer.get_num_fields, message_buffer.get_max_fields.
  rewrite Hcur, <- Hn, Z.eqb_refl. replace (_ <=? _) with false by lia.
  rewrite Ha, !bind_ok. cbn [negb with_message message_buffer_ current_field_].
  destruct (last_header _ _ _ _ Hm1 Hf1) as (hd & Hh & Hfo & _).
  rewrite ?Hcur. rewrite <- (Nat2Z.id (length _)) in Hh.
  assert (raw_size name < 2 ^ 31) as Hsz' by lia.
  pose proof (append_to_name_ok z m1 _ hd name Hm1 (Nat2Z.is_nonneg _) Hh Hb Hsz') as Hap.
  rewrite Hfo in Hap. cbn [fst snd] in Hap.
  rewrite (proj2 (Z.leb_le _ _)) in Hap by (change (raw_size []) with 0; lia).
  destruct Hap as (h' & Hap & Hok & Hfo'). rewrite Hap, bind_ok.
  destruct (set_last _ _ _ _ _ Hm1 Hf1 Hok) as [Hm2 Hf2].
  do 2 eexists. split; [reflexivity|]. split; [done|]. split; [done|].
  split; [by rewrite Hf2, Hfo'|]. split; [|done]. by rewrite Heq.
Qed.

Lemma receive_value_last z h fs name value :
  message_ok z h.(message_buffer_) -> fields_of h.(message_buffer_) = fs ++ [(name, [])] ->
  h.(current_field_) = Z.of_nat (length fs) -> field_fits z (name, value) ->
  exists h', receive_value h value true = Ok (h', http.COMPLETE) /\ handler_ok z h' /\
    fields_of h'.(message_buffer_) = fs ++ [(name, value)] /\
    h'.(stream_type_) = h.(stream_type_) /\
    same_lines h.(message_buffer_) h'.(message_buffer_) /\
    info h' = note_field (info h) (name, value).
Proof.
  intros Hm Hf Hcur Hfit. destruct (ff_value _ _ Hfit) as [Hb Hsz]. simpl in Hb, Hsz.
  destruct (last_header _ _ _ _ Hm Hf) as (hd & Hh & Hfo & _).
  rewrite <- (Nat2Z.id (length _)) in Hh. assert (raw_size value < 2 ^ 31) as Hsz' by lia.
  pose proof (append_to_value_ok z _ _ hd value Hm (Nat2Z.is_nonneg _) Hh Hb Hsz') as Hap.
  rewrite Hfo in Hap. cbn [fst snd] in Hap.
  rewrite (proj2 (Z.leb_le _ _)) in Hap by (change (raw_size []) with 0; lia).
  destruct Hap as (h' & Hap & Hok & Hfo').
  destruct (set_last _ _ _ _ _ Hm Hf Hok) as [Hm2 Hf2]. rewrite Hfo' in Hf2. simpl in Hf2.
  unfold receive_value. rewrite Hcur, Hap, bind_ok.
  destruct (scan_field_ok z (with_message (message_buffer.set_header (Z.of_nat (length fs)) h'
    (message_buffer_ h)) h) fs (name, value)) as (h2 & -> & Hm3 & Hf3 & Hc3 & Hst & Hsl & Hi);
    try done.
  rewrite bind_ok. eexists. split; [reflexivity|]. cbn [with_field message_buffer_ stream_type_].
  rewrite Hf3. simpl in Hc3, Hsl, Hi, Hst.
  split; [|split; [done|split; [done|split; [|done]]]].
  - constructor; simpl; [done|]. rewrite Hf3. simpl. rewrite Hf2, length_app. simpl.
    pose proof (num_fields_length _ _ Hm) as Hn. rewrite Hf, length_app in Hn. simpl in Hn.
    destruct (mb_max _ _ Hm). rewrite Hc3, Hcur, u32_small by lia. lia.
  - eapply same_lines_trans; [|exact Hsl]. done.
Qed.

(** Fields one after the other. *)
Lemma deliver_fields_ok z fields :
  forall h c, handler_ok z h -> cache_ok z c -> Forall (field_fits z) fields ->
  message_buffer.current_num_fields_ h.(message_buffer_) + Z.of_nat (length fields) <=
    message_buffer.max_fields_ h.(message_buffer_) ->
  Z.of_nat (length fields) <= cache.num_available_headers c ->
  exists h' c', delivers_fields (h, c) fields (h', c') /\ handler_ok z h' /\ cache_ok z c' /\
    fields_of h'.(message_buffer_) = fields_of h.(message_buffer_) ++ fields /\
    h'.(stream_type_) = h.(stream_type_) /\
    same_lines h.(message_buffer_) h'.(message_buffer_) /\
    info h' = fold_left note_field fields (info h) /\
    cache.num_available_headers c = cache.num_available_headers c' + Z.of_nat (length fields).
Proof.
  induction fields as [|[name value] fields IH]; intros h c Hok Hc Hfit Hmax Hav.
  { exists h, c. rewrite app_nil_r. simpl. split; [constructor|]. rewrite Z.add_0_r. done. }
  inversion Hfit as [|? ? Hf Hfs]; subst. simpl in Hmax, Hav.
  assert (cache.empty c = false) as He
    by (destruct c as [[|]]; [unfold cache.num_available_headers in Hav; simpl in Hav; lia|done]).
  destruct (ff_name _ _ Hf) as [Hnb Hnl]. simpl in Hnb, Hnl.
  destruct (receive_name_new z h c name Hok Hc He) as (m1 & c1 & H1 & Hm1 & Hc1 & Hf1 & Hs1 & Ha1);
    [lia|done|done|].
  destruct (receive_value_last z (with_message m1 h) _ name value Hm1 Hf1 (ho_field _ _ Hok) Hf)
    as (h2 & H2' & Hok2 & Hf2 & Hst2 & Hs2 & Hi2).
  destruct (IH h2 c1 Hok2 Hc1 Hfs) as (h3 & c3 & Hd & Hok3 & Hc3 & Hf3 & Hst3 & Hs3 & Hi3 & Ha3).
  { pose proof (num_fields_length _ _ (ho_message _ _ Hok)) as Hn.
    rewrite (num_fields_length _ _ (ho_message _ _ Hok2)), Hf2, length_app. simpl.
    simpl in Hs2. rewrite (same_max _ _ Hs2), (same_max _ _ Hs1). lia. }
  { lia. }
  exists h3, c3. split.
  - apply (delivers_cons _ (with_message m1 h, c1) (h2, c1) _); [| |exact Hd].
    + change (lift_cache (receive_name h c name true) = Ok (with_message m1 h, c1, http.COMPLETE)).
      by rewrite H1.
    + change (lift (with_message m1 h, c1) (receive_value (with_message m1 h) value true)
              = Ok (h2, c1, http.COMPLETE)). by rewrite H2'.
  - split; [done|]. split; [done|]. simpl in *.
    split; [by rewrite Hf3, Hf2, <- app_assoc|]. split; [congruence|].
    split; [by do 2 (eapply same_lines_trans; [done|])|]. split; [by rewrite Hi3, Hi2|lia].
Qed.

Lemma match_method_complete ms b :
  wf b -> Forall c_string ms ->
  match_method ms b true =
  Ok (if existsb (fun m => bool_decide (lower (content b) = lower m)) ms
      then http.COMPLETE else http.INVALID).
Proof.
  intros Hwf. induction 1 as [|m ms Hm _ IH]; [done|]. simpl.
  rewrite compare_no_case_ref by done. simpl.
  destruct (compare_ref_spec (content b) m) as [He _]. rewrite IH.
  destruct (compare_ref (content b) m);
    [rewrite bool_decide_false by (intros E%He; done)
    |rewrite bool_decide_true by (by apply He)
    |rewrite bool_decide_false by (intros E%He; done)]; done.
Qed.

Lemma host_seen_fold fields i :
  host_seen (fold_left note_field fields i) =
  host_seen i || existsb (fun f => named f (str "host")) fields.
Proof.
  revert i. induction fields as [|f fields IH]; intros i; simpl; [by rewrite orb_false_r|].
  rewrite IH. unfold note_field. repeat case_match; simpl; by rewrite orb_assoc.
Qed.

(** What is assumed of the body before any field is seen. *)
Definition initial_info (st : STREAM_TYPE) (status_code : list Z) : body_info :=
  match st with
  | REQUEST => BodyInfo http.NONE 0 false false
  | RESPONSE =>
      if bool_decide (lower status_code = lower (str "304")) then BodyInfo http.NONE 0 false true
      else BodyInfo http.END_CONNECTION 0 false false
  end.

(** A handler as [reset] leaves it. *)
Record handler_fresh (z : sizes) (h : header_handler.t) : Prop := {
  fresh_ok : handler_ok z h;
  fresh_line1 : content (message_buffer.start_line1_ h.(message_buffer_)) = [];
  fresh_line2 : content (message_buffer.start_line2_ h.(message_buffer_)) = [];
  fresh_line3 : content (message_buffer.start_line3_ h.(message_buffer_)) = [];
  fresh_fields : fields_of h.(message_buffer_) = [];
  fresh_info : info h = match h.(stream_type_) with
                        | REQUEST => BodyInfo http.NONE 0 false false
                        | RESPONSE => BodyInfo http.END_CONNECTION 0 false false
                        end
}.

Lemma reset_fresh z h c :
  message_ok z h.(message_buffer_) -> cache_ok z c -> cache.empty c = false ->
  exists h' c', reset h c = Ok (h', c') /\ handler_fresh z h' /\ cache_ok z c' /\
    h'.(stream_type_) = h.(stream_type_) /\
    message_buffer.max_fields_ h'.(message_buffer_) = message_buffer.max_fields_ h.(message_buffer_) /\
    cache.num_available_headers c' =
      cache.num_available_headers c + message_buffer.current_num_fields_ h.(message_buffer_).
Proof.
  intros Hm Hc He. pose proof (reset_ok _ _ _ (message_ok_kept _ _ Hm) Hc) as H. rewrite He in H.
  destruct H as (m' & c' & Hr & Hm' & Hc' & Hf & Hh & Hn & Hmax & H1 & H2 & H3 & _ & Hav).
  unfold reset. rewrite Hr, bind_ok. do 2 eexists. split; [reflexivity|]. simpl.
  split; [|split; [done|split; [done|split; [done|]]]].
  - constructor; simpl; try done.
    + constructor; simpl; [done|]. by rewrite Hf.
    + by destruct (stream_type_ h).
  - rewrite Hav. destruct Hm. by rewrite mb_num.
Qed.

(** Tokens that fit their buffers. *)
Definition token_fits (n : Z) (l : list Z) : Prop := bytes_ok l /\ raw_size l <= n < 2 ^ 31.

Lemma receive_token1_ok z h t1 :
  handler_ok z h -> content (message_buffer.start_line1_ h.(message_buffer_)) = [] ->
  token_fits z.(n_line1) t1 ->
  exists b, let m := h.(message_buffer_) in
    receive_token1 h t1 true =
      Ok (with_message (message_buffer.MessageBuffer (message_buffer.current_num_fields_ m)
            (message_buffer.max_fields_ m) b (message_buffer.start_line2_ m)
            (message_buffer.start_line3_ m) (message_buffer.headers_ m) (message_buffer.cache_ m)) h,
          match h.(stream_type_) with
          | REQUEST => if existsb (fun m => bool_decide (lower t1 = lower m)) valid_methods
                       then http.COMPLETE else http.INVALID
          | RESPONSE => http.COMPLETE
          end) /\
    stored z.(n_line1) b /\ content b = t1.
Proof.
  intros [Hm _] He [Hb Hsz]. assert (raw_size t1 < 2 ^ 31) as Hlt by lia.
  pose proof (append_to_status_line_1_ok z _ t1 Hm Hb Hlt) as Ha. rewrite He in Ha.
  rewrite (proj2 (Z.leb_le _ _)) in Ha by (change (raw_size []) with 0; lia).
  destruct Ha as (b & Ha & Hs & Hc). simpl in Hc. exists b. split; [|done].
  unfold receive_token1. rewrite Ha, bind_ok. cbn [with_message stream_type_].
  destruct (stream_type_ h); [|done].
  unfold message_buffer.get_status_line_1. cbn [message_buffer.start_line1_].
  rewrite match_method_complete, Hc; [done|apply Hs|]. repeat constructor; forall_concrete.
Qed.

Lemma receive_token2_ok z h t2 :
  handler_ok z h -> content (message_buffer.start_line2_ h.(message_buffer_)) = [] ->
  token_fits z.(n_line2) t2 ->
  exists b, let m := h.(message_buffer_) in
    receive_token2 h t2 true =
      Ok (let h := with_message (message_buffer.MessageBuffer (message_buffer.current_num_fields_ m)
            (message_buffer.max_fields_ m) (message_buffer.start_line1_ m) b
            (message_buffer.start_line3_ m) (message_buffer.headers_ m) (message_buffer.cache_ m)) h in
          if bool_decide (h.(stream_type_) = RESPONSE) && bool_decide (lower t2 = lower (str "304"))
          then with_body http.NONE h.(message_size_) true h else h, http.COMPLETE) /\
    stored z.(n_line2) b /\ content b = t2.
Proof.
  intros [Hm _] He [Hb Hsz]. assert (raw_size t2 < 2 ^ 31) as Hlt by lia.
  pose proof (append_to_status_line_2_ok z _ t2 Hm Hb Hlt) as Ha. rewrite He in Ha.
  rewrite (proj2 (Z.leb_le _ _)) in Ha by (change (raw_size []) with 0; lia).
  destruct Ha as (b & Ha & Hs & Hc). simpl in Hc. exists b. split; [|done].
  unfold receive_token2. rewrite Ha, bind_ok. cbn [with_message stream_type_ andb].
  destruct (bool_decide (stream_type_ h = RESPONSE)); [|done].
  unfold scan_return_code, response_buffer_wrapper.get_status_code, message_buffer.get_status_line_2.
  cbn [message_buffer_ with_message message_buffer.start_line2_].
  rewrite equals_spec, Hc, bind_ok by (apply Hs || forall_concrete).
  by destruct (bool_decide (lower t2 = _)).
Qed.

Lemma receive_token3_ok z h t3 :
  handler_ok z h -> content (message_buffer.start_line3_ h.(message_buffer_)) = [] ->
  token_fits z.(n_line3) t3 ->
  exists b, let m := h.(message_buffer_) in
    receive_token3 h t3 true =
      Ok (with_message (message_buffer.MessageBuffer (message_buffer.current_num_fields_ m)
            (message_buffer.max_fields_ m) (message_buffer.start_line1_ m)
            (message_buffer.start_line2_ m) b (message_buffer.headers_ m)
            (message_buffer.cache_ m)) h, http.COMPLETE) /\
    stored z.(n_line3) b /\ content b = t3.
Proof.
  intros [Hm _] He [Hb Hsz]. assert (raw_size t3 < 2 ^ 31) as Hlt by lia.
  pose proof (append_to_status_line_3_ok z _ t3 Hm Hb Hlt) as Ha. rewrite He in Ha.
  rewrite (proj2 (Z.leb_le _ _)) in Ha by (change (raw_size []) with 0; lia).
  destruct Ha as (b & Ha & Hs & Hc). simpl in Hc. exists b. split; [|done].
  unfold receive_token3. by rewrite Ha, bind_ok.
Qed.

Lemma end_fields_ok z h :
  handler_ok z h ->
  end_fields h =
  Ok (h, match h.(stream_type_) with
         | REQUEST =>
             if bool_decide (lower (content (message_buffer.start_line3_ h.(message_buffer_))) =
                             lower (str "HTTP/1.1")) && negb h.(have_host_header_)
             then http.INVALID else http.COMPLETE
         | RESPONSE => http.COMPLETE
         end).
Proof.
  intros [Hm _]. unfold end_fields, request_buffer_wrapper.get_http_version,
    message_buffer.get_status_line_3. destruct (stream_type_ h); [|done].
  rewrite !equals_spec by (apply (stored_wf _ _ (mb_line3 _ _ Hm)) || forall_concrete).
  rewrite !bind_ok. destruct (bool_decide (_ = lower (str "HTTP/1.1"))).
  - rewrite bind_ok. by destruct (have_host_header_ h).
  - by destruct (bool_decide _).
Qed.

(** A handler with other start-line buffers. *)
Lemma handler_ok_lines z h n b1 b2 b3 :
  let m := h.(message_buffer_) in
  handler_ok z h -> n = message_buffer.current_num_fields_ m ->
  stored z.(n_line1) b1 -> stored z.(n_line2) b2 -> stored z.(n_line3) b3 ->
  message_ok z (message_buffer.MessageBuffer n
    (message_buffer.max_fields_ m) b1 b2 b3 (message_buffer.headers_ m) (message_buffer.cache_ m)).
Proof. intros m [[] ?] -> H1' H2' H3'. by constructor. Qed.

(** What a complete message is for a handler of this stream type. *)
Definition message_complete (st : STREAM_TYPE) (t1 t3 : list Z) (fields : list (list Z * list Z))
    : Prop :=
  st = REQUEST ->
  existsb (fun m => bool_decide (lower t1 = lower m)) valid_methods = true /\
  (lower t3 = lower (str "HTTP/1.1") ->
   existsb (fun f => named f (str "host")) fields = true).

Lemma deliver_message_ok z h c t1 t2 t3 fields :
  handler_fresh z h -> cache_ok z c ->
  token_fits z.(n_line1) t1 -> token_fits z.(n_line2) t2 -> token_fits z.(n_line3) t3 ->
  Forall (field_fits z) fields ->
  Z.of_nat (length fields) <= message_buffer.max_fields_ h.(message_buffer_) ->
  Z.of_nat (length fields) <= cache.num_available_headers c ->
  message_complete h.(stream_type_) t1 t3 fields ->
  exists h' c', delivers (h, c) t1 t2 t3 fields (h', c') /\ handler_ok z h' /\ cache_ok z c' /\
    content (message_buffer.start_line1_ h'.(message_buffer_)) = t1 /\
    content (message_buffer.start_line2_ h'.(message_buffer_)) = t2 /\
    content (message_buffer.start_line3_ h'.(message_buffer_)) = t3 /\
    fields_of h'.(message_buffer_) = fields /\
    info h' = fold_left note_field fields (initial_info h.(stream_type_) t2) /\
    cache.num_available_headers c = cache.num_available_headers c' + Z.of_nat (length fields).
Proof.
  intros [Hok Hl1 Hl2 Hl3 Hf0 Hi0] Hc Ht1 Ht2 Ht3 Hfit Hmax Hav Hcomp.
  pose proof (ho_message _ _ Hok) as Hm. pose proof (num_fields_length _ _ Hm) as Hn0.
  rewrite Hf0 in Hn0. simpl in Hn0.
  destruct (receive_token1_ok z h t1 Hok Hl1 Ht1) as (b1 & R1 & Hb1 & Hc1).
  set (h1 := with_message _ h) in R1.
  assert (handler_ok z h1) as Hok1.
  { constructor; [|exact (ho_field _ _ Hok)]. apply handler_ok_lines; try done; apply Hm. }
  destruct (receive_token2_ok z h1 t2 Hok1 Hl2 Ht2) as (b2 & R2 & Hb2 & Hc2).
  match type of R2 with _ = Ok (?x, _) => set (h2 := x) in R2 end.
  assert (message_buffer_ h2 = message_buffer.MessageBuffer
    (message_buffer.current_num_fields_ (message_buffer_ h))
    (message_buffer.max_fields_ (message_buffer_ h)) b1 b2
    (message_buffer.start_line3_ (message_buffer_ h)) (message_buffer.headers_ (message_buffer_ h))
    (message_buffer.cache_ (message_buffer_ h)) /\ current_field_ h2 = current_field_ h /\
    stream_type_ h2 = stream_type_ h /\ info h2 = initial_info (stream_type_ h) t2)
    as (Hm2 & Hf2 & Hst2 & Hi2).
  { unfold info in *. unfold h2, h1, initial_info. cbn [stream_type_ with_message].
    clear -Hi0. destruct (stream_type_ h) eqn:Es; cbn [bool_decide decide andb];
      [|change (bool_decide (RESPONSE = RESPONSE)) with true; cbn [andb];
        destruct (bool_decide (lower t2 = _))];
      injection Hi0; intros; repeat split; simpl; congruence. }
  assert (handler_ok z h2) as Hok2.
  { constructor; [|rewrite Hf2, Hm2; exact (ho_field _ _ Hok)]. rewrite Hm2.
    apply handler_ok_lines; try done; apply Hm. }
  assert (content (message_buffer.start_line3_ (message_buffer_ h2)) = []) as Hl3'
    by (rewrite Hm2; exact Hl3).
  destruct (receive_token3_ok z h2 t3 Hok2 Hl3' Ht3) as (b3 & R3 & Hb3 & Hc3).
  set (h3 := with_message _ h2) in R3.
  assert (handler_ok z h3) as Hok3.
  { constructor; [|exact (ho_field _ _ Hok2)]. rewrite Hm2 in *.
    unfold h3. rewrite Hm2. simpl. apply handler_ok_lines; try done; apply Hm. }
  destruct (deliver_fields_ok z fields h3 c Hok3 Hc Hfit)
    as (h4 & c4 & Hd & Hok4 & Hc4 & Hf4 & Hst4 & Hs4 & Hi4 & Ha4).
  { unfold h3. rewrite Hm2. simpl. lia. }
  { done. }
  assert (message_buffer_ h3 = message_buffer.MessageBuffer
    (message_buffer.current_num_fields_ (message_buffer_ h))
    (message_buffer.max_fields_ (message_buffer_ h)) b1 b2 b3
    (message_buffer.headers_ (message_buffer_ h))
    (message_buffer.cache_ (message_buffer_ h))) as Hm3 by (unfold h3; rewrite Hm2; done).
  destruct Hs4 as [S1 S2 S3 _]. rewrite Hm3 in S1, S2, S3. simpl in S1, S2, S3.
  change (stream_type_ h3) with (stream_type_ h2) in Hst4.
  change (info h3) with (info h2) in Hi4. rewrite Hi2 in Hi4.
  exists h4, c4. split; [constructor; exists (h1, c), (h2, c), (h3, c), (h4, c4)|].
  - split; [|split; [|split; [|split; [exact Hd|]]]].
    + change (lift (h, c) (receive_token1 h t1 true) = Ok (h1, c, http.COMPLETE)).
      rewrite R1. simpl. destruct (stream_type_ h) eqn:Es; [|done].
      destruct (Hcomp eq_refl) as [Hmeth _]. simpl in Hmeth. by rewrite Hmeth.
    + change (lift (h1, c) (receive_token2 h1 t2 true) = Ok (h2, c, http.COMPLETE)).
      by rewrite R2.
    + change (lift (h2, c) (receive_token3 h2 t3 true) = Ok (h3, c, http.COMPLETE)).
      by rewrite R3.
    + change (lift (h4, c4) (end_fields h4) = Ok (h4, c4, http.COMPLETE)).
      rewrite (end_fields_ok _ _ Hok4), Hst4, Hst2, S3, Hc3. clear R1 R2 R3.
      destruct (stream_type_ h) eqn:Es; [|done]. destruct (Hcomp eq_refl) as [_ Hhost].
      destruct (bool_decide_reflect (lower t3 = lower (str "HTTP/1.1"))) as [E|]; [|done].
      assert (have_host_header_ h4 = true) as ->; [|done].
      change (host_seen (info h4) = true).
      rewrite Hi4, host_seen_fold, (Hhost E). apply orb_true_r.
  - rewrite S1, S2, S3, Hc1, Hc2, Hc3, Hf4. unfold fields_of. rewrite Hm3.
    unfold fields_of in Hf0. simpl. rewrite Hf0. done.
Qed.

(** * Properties *)

(** C19: A handler that was just reset takes any message that fits its
    buffers and its pool, from either side: it accepts every token and
    field and the end of the fields, stores the start line and the fields
    unchanged and in order, and its body encoding and length are what the
    fields say in order (the last content length before any chunked
    encoding, nothing after a 304); a request needs a known method and, in
    HTTP/1.1, a host field. *)
Theorem handler_takes_message z m st c t1 t2 t3 fields :
  message_ok z m -> cache_ok z c -> cache.empty c = false ->
  token_fits z.(n_line1) t1 -> token_fits z.(n_line2) t2 -> token_fits z.(n_line3) t3 ->
  Forall (field_fits z) fields ->
  Z.of_nat (length fields) <= message_buffer.max_fields_ m ->
  Z.of_nat (length fields) <= cache.num_available_headers c ->
  message_complete st t1 t3 fields ->
  exists h0 c0 h' c',
    make m st c = Ok (h0, c0) /\
    delivers (h0, c0) t1 t2 t3 fields (h', c') /\
    content (message_buffer.get_status_line_1 (get_message_buffer h')) = t1 /\
    content (message_buffer.get_status_line_2 (get_message_buffer h')) = t2 /\
    content (message_buffer.get_status_line_3 (get_message_buffer h')) = t3 /\
    fields_of (get_message_buffer h') = fields /\
    message_ok z (get_message_buffer h') /\
    get_body_encoding h' = encoding (fold_left note_field fields (initial_info st t2)) /\
    get_message_size h' = body_size (fold_left note_field fields (initial_info st t2)).
Proof.
  intros Hm Hc He Ht1 Ht2 Ht3 Hfit Hmax Hav Hcomp.
  destruct (reset_fresh z (HeaderHandler m 0 0 false false http.NONE st) c Hm Hc He)
    as (h0 & c0 & Hr & Hfresh & Hc0 & Hst & Hmax0 & Hav0). simpl in Hst, Hmax0, Hav0.
  assert (0 <= message_buffer.current_num_fields_ m) as Hn by (destruct Hm; lia).
  destruct (deliver_message_ok z h0 c0 t1 t2 t3 fields) as (h' & c' & Hd & Hok & _ & H1 & H2 & H3 & Hf & Hi & _);
    try done; [lia|lia|by rewrite Hst|].
  exists h0, c0, h', c'. rewrite Hst in Hi.
  split; [done|]. split; [done|]. do 4 (split; [done|]). split; [apply Hok|].
  by rewrite <- Hi.
Qed.

(** A request whose third token is HTTP/1.1, in any case, is refused at
    the end of its fields exactly when no field was named host. *)
Theorem host_required z h :
  handler_ok z h -> h.(stream_type_) = REQUEST ->
  lower (content (message_buffer.start_line3_ h.(message_buffer_))) = lower (str "HTTP/1.1") ->
  end_fields h = Ok (h, if h.(have_host_header_) then http.COMPLETE else http.INVALID).
Proof.
  intros Hok Hst Hv. rewrite (end_fields_ok _ _ Hok), Hst, bool_decide_true by done.
  by destruct (have_host_header_ h).
Qed.

(** ** The properties at concrete inputs *)

Definition sample_fresh : message_buffer.t := message_buffer.make true 4 4 8 2.

Lemma sample_fresh_ok : message_ok (Sizes 4 4 8 16 8) sample_fresh.
Proof.
  constructor; try reflexivity; try (apply stored_make; split; discriminate || reflexivity);
    [split; discriminate || reflexivity|constructor].
Qed.

Definition sample_fields : list (list Z * list Z) :=
  [(str "Host", str "a"); (str "content-length", str "42")].

Lemma handler_takes_message_witness :
  exists h0 c0 h' c',
    make sample_fresh REQUEST (cache.make 3 16 8) = Ok (h0, c0) /\
    delivers (h0, c0) (str "GET") (str "/") (str "HTTP/1.1") sample_fields (h', c') /\
    fields_of (get_message_buffer h') = sample_fields /\
    get_body_encoding h' = http.CONTENT_LENGTH /\ get_message_size h' = 42.
Proof.
  destruct (handler_takes_message (Sizes 4 4 8 16 8) sample_fresh REQUEST (cache.make 3 16 8)
    (str "GET") (str "/") (str "HTTP/1.1") sample_fields)
    as (h0 & c0 & h' & c' & H1 & H2 & _ & _ & _ & H3 & _ & H4 & H5).
  - exact sample_fresh_ok.
  - repeat (constructor; [apply hb_ok_kept, hb_make_ok; split; discriminate || reflexivity|]). constructor.
  - reflexivity.
  - split; [forall_concrete|split; discriminate || reflexivity].
  - split; [forall_concrete|split; discriminate || reflexivity].
  - split; [forall_concrete|split; discriminate || reflexivity].
  - constructor; [|constructor; [|constructor]]; constructor;
      try (split; [forall_concrete|split; discriminate || reflexivity]).
    intros E. exfalso. revert E. vm_compute. discriminate.
  - discriminate.
  - discriminate.
  - intros _. split; reflexivity.
  - exists h0, c0, h', c'. split; [exact H1|]. split; [exact H2|]. split; [exact H3|].
    split; [exact H4|exact H5].
Defined.

Definition sample_handler : header_handler.t :=
  HeaderHandler (message_buffer.MessageBuffer 0 2 (store 4 (str "GET")) (store 4 (str "/"))
    (store 8 (str "http/1.1")) [] true) 0 0 false false http.NONE REQUEST.

Lemma host_required_witness :
  end_fields sample_handler = Ok (sample_handler, http.INVALID).
Proof.
  apply (host_required (Sizes 4 4 8 16 8)); [|reflexivity|reflexivity].
  constructor; [|reflexivity].
  constructor; try reflexivity; [split; discriminate || reflexivity| | | |constructor].
  - refine (proj1 (stored_store 4 (str "GET") _ _ _)); [forall_concrete|cbn; lia|cbn; lia].
  - refine (proj1 (stored_store 4 (str "/") _ _ _)); [forall_concrete|cbn; lia|cbn; lia].
  - refine (proj1 (stored_store 8 (str "http/1.1") _ _ _)); [forall_concrete|cbn; lia|cbn; lia].
Defined.

(** The first fragment of a request's method is refused when the buffer
    ends exactly at the end of the method: the comparison then answers
    [EQUAL], and the fragment is accepted only for [SUBSTRING]. *)
Lemma whole_method_fragment_refused :
  match_method valid_methods (store 4 (str "GET")) false = Ok http.INVALID /\
  match_method valid_methods (store 4 (str "GE")) false = Ok http.COMPLETE.
Proof. split; vm_compute; reflexivity. Qed.

(** A value that fills its vector: the NUL is written past its end. *)
Lemma content_length_past_the_end :
  set_working_end 0 (store 2 (str "42")) = Undef.
Proof. vm_compute. reflexivity. Qed.

(** A negative length is taken for a huge one. *)
Lemma negative_content_length :
  (n ← atoi (str "-1" ++ [0]); Ok (u32 n)) = Ok 4294967295.
Proof. vm_compute. reflexivity. Qed.

(** A second value for the field that was just finished, which is what the
    parser delivers for a continuation line, aborts the process. *)
Lemma continuation_aborts :
  (_ ← receive_value (HeaderHandler (message_buffer.MessageBuffer 0 2 (rwb.make 4) (rwb.make 4)
         (rwb.make 8) [] true) 0 0 false false http.NONE REQUEST) (str "x") true; Ok tt) = Aborted.
Proof. vm_compute. reflexivity. Qed.
