(* ===== verification/HeaderParser.v ===== *)
(** The header parser of http/header_parser.cpp: the state machine that
    finds the start line and the fields of a message in a read/write buffer
    and hands them to an [i_header_receiver].  It is proved against the
    interface: the buffer is first seen as the bytes that are left, then a
    serialized message is shown to be delivered to the receiver as a whole. *)
From S2P Require Import Prelude Status ReadWriteBuffer HttpLex HeaderStore Interfaces HeaderHandler.

Module header_parser.

Inductive PARSE_OPTION := STRICT | LOOSE.

Inductive STATUS_LINE_PARSE_STATE :=
  | STATUS_LINE_TOKEN_1
  | STATUS_LINE_TOKEN_2
  | STATUS_LINE_TOKEN_3
  | STATUS_LINE_LF.

Inductive PARSE_STATE :=
  | STATUS_LINE
  | END_HEADERS_CR
  | END_HEADERS_LF
  | FIELD_NAME
  | FIELD_VALUE_LEADING_LWS
  | FIELD_VALUE_LWS_LF
  | FIELD_VALUE_LWS
  | FIELD_VALUE_CONTENT.

#[export] Instance PARSE_STATE_eq_dec : EqDecision PARSE_STATE.
Proof. solve_decision. Defined.

Inductive TRANSITION_CURRENT_LENGTH_OPTION := RESET_CURRENT_LENGTH | NOT_RESET_CURRENT_LENGTH.

Record t := HeaderParser {
  current_state_ : PARSE_STATE;
  status_line_state_ : STATUS_LINE_PARSE_STATE;
  current_length_ : Z
}.

Definition make : t := HeaderParser STATUS_LINE STATUS_LINE_TOKEN_1 0.

Definition with_length (n : Z) (p : t) : t :=
  HeaderParser p.(current_state_) p.(status_line_state_) n.

Definition transition_to_state (new_state : PARSE_STATE)
    (reset_option : TRANSITION_CURRENT_LENGTH_OPTION) (p : t) : t :=
  HeaderParser new_state p.(status_line_state_)
    (match reset_option with
     | RESET_CURRENT_LENGTH => 0
     | NOT_RESET_CURRENT_LENGTH => p.(current_length_)
     end).

Definition reset (p : t) : t :=
  transition_to_state STATUS_LINE RESET_CURRENT_LENGTH
    (HeaderParser p.(current_state_) STATUS_LINE_TOKEN_1 p.(current_length_)).

Definition set_status_line_state (s : STATUS_LINE_PARSE_STATE) (p : t) : t :=
  HeaderParser p.(current_state_) s 0.

Definition next_status_line_state (delimiter : Z) (p : t) : res t :=
  match p.(status_line_state_) with
  | STATUS_LINE_TOKEN_1 =>
      _ ← CHECK_CONDITION_VAL (delimiter =? SP);
      Ok (set_status_line_state STATUS_LINE_TOKEN_2 p)
  | STATUS_LINE_TOKEN_2 =>
      if delimiter =? CR then Ok (set_status_line_state STATUS_LINE_LF p)
      else if delimiter =? SP then Ok (set_status_line_state STATUS_LINE_TOKEN_3 p)
      else Aborted
  | STATUS_LINE_TOKEN_3 =>
      _ ← CHECK_CONDITION_VAL (delimiter =? CR);
      Ok (set_status_line_state STATUS_LINE_LF p)
  | STATUS_LINE_LF => Ok (set_status_line_state STATUS_LINE_TOKEN_1 p)
  end.

Definition get_status_token_delimiters (p : t) (option : PARSE_OPTION) : res (gset Z) :=
  match p.(status_line_state_) with
  | STATUS_LINE_TOKEN_1 => Ok delimiters.(s_space_delimiters)
  | STATUS_LINE_TOKEN_2 =>
      match option with
      | STRICT => Ok delimiters.(s_space_delimiters)
      | LOOSE => Ok delimiters.(s_space_endline_delimiters)
      end
  | STATUS_LINE_TOKEN_3 => Ok delimiters.(s_endline_delimiters)
  | STATUS_LINE_LF => Aborted
  end.

Definition refuses (st : http.STATUS) : bool :=
  bool_decide (st = http.DATAOVERFLOW) || bool_decide (st = http.INVALID).

Section parser.
Context {R : Type} `{i_header_receiver R}.

(** The offsets are converted to [int]. *)
Definition receive_status_line_token (p : t) (r : R) (b : read_write_buffer) (i_begin i_end : Z)
    (b_complete : bool) : res (R * http.STATUS) :=
  match p.(status_line_state_) with
  | STATUS_LINE_TOKEN_1 => start_line_token1 r b (s32 i_begin) (s32 i_end) b_complete
  | STATUS_LINE_TOKEN_2 => start_line_token2 r b (s32 i_begin) (s32 i_end) b_complete
  | STATUS_LINE_TOKEN_3 => start_line_token3 r b (s32 i_begin) (s32 i_end) b_complete
  | STATUS_LINE_LF => Aborted
  end.

(** The result is the status, the final [end_offset], the parser and the
    receiver. *)
Definition parse_status_token (p : t) (r : R) (b : read_write_buffer) (begin_offset end_offset : Z)
    (option : PARSE_OPTION) : res (http.STATUS * Z * t * R) :=
  delims ← get_status_token_delimiters p option;
  '(return_value, end_offset, cur) ←
    parse_token b begin_offset end_offset p.(current_length_) MAX_FIELD_LENGTH delims;
  let p := with_length cur p in
  match return_value with
  | http.COMPLETE =>
      '(r, return_value) ← receive_status_line_token p r b begin_offset (u32 (end_offset - 1)) true;
      if negb (refuses return_value) then
        delimiter ← rwb.at_ b (u32 (end_offset - 1));
        p ← next_status_line_state delimiter p;
        Ok (return_value, end_offset, p, r)
      else Ok (return_value, end_offset, p, r)
  | http.INCOMPLETE =>
      '(r, forward_status) ← receive_status_line_token p r b begin_offset end_offset false;
      Ok (if refuses forward_status then forward_status else http.INCOMPLETE, end_offset, p, r)
  | _ => Ok (http.INVALID, end_offset, p, r)
  end.

(** The [while(!buffer_parse_complete)] of [parse_status_line]; the result
    is the status, the final [current_offset], the parser and the receiver. *)
Fixpoint status_line_loop (fuel : nat) (p : t) (r : R) (b : read_write_buffer)
    (current_offset : Z) (option : PARSE_OPTION) : res (http.STATUS * Z * t * R) :=
  match fuel with
  | O => NoFuel
  | S fuel =>
    let begin_offset := current_offset in
    match p.(status_line_state_) with
    | STATUS_LINE_LF =>
        '(return_value, current_offset) ← parse_char b begin_offset current_offset LF;
        Ok (return_value, current_offset, p, r)
    | _ =>
        '(return_value, current_offset, p, r) ←
          parse_status_token p r b begin_offset current_offset option;
        if bool_decide (return_value = http.COMPLETE) then
          status_line_loop fuel p r b current_offset option
        else Ok (return_value, current_offset, p, r)
    end
  end.

Definition parse_status_line (p : t) (r : R) (b : read_write_buffer) (option : PARSE_OPTION)
    : res (http.STATUS * read_write_buffer * t * R) :=
  '(return_value, current_offset, p, r) ←
    status_line_loop (Z.to_nat (rwb.get_working_length b) + 2) p r b
      (rwb.get_process_position b) option;
  b ← rwb.set_process_position current_offset b;
  b ← rwb.set_write_position current_offset b;
  Ok (return_value, b, p, r).

(** A receiver's answer to a field: only [DATAOVERFLOW] counts. *)
Definition overflows (st : http.STATUS) : bool := bool_decide (st = http.DATAOVERFLOW).

(** The [while(!buffer_parse_complete)] of [parse_headers]; the result is
    the status, [finished], the final [current_offset], the buffer, the
    parser and the receiver. *)
Fixpoint headers_loop (fuel : nat) (p : t) (r : R) (b : read_write_buffer) (current_offset : Z)
    (option : PARSE_OPTION) : res (http.STATUS * bool * Z * read_write_buffer * t * R) :=
  match fuel with
  | O => NoFuel
  | S fuel =>
    let begin_offset := current_offset in
    let to s := transition_to_state s RESET_CURRENT_LENGTH in
    match p.(current_state_) with
    | STATUS_LINE =>
        '(st, b, p, r) ← parse_status_line p r b option;
        if bool_decide (st = http.COMPLETE) then
          headers_loop fuel (to END_HEADERS_CR p) r b (rwb.get_process_position b) option
        else Ok (st, false, current_offset, b, p, r)
    | END_HEADERS_CR =>
        '(st, current_offset) ← parse_char b begin_offset current_offset CR;
        match st with
        | http.COMPLETE => headers_loop fuel (to END_HEADERS_LF p) r b current_offset option
        | http.INVALID => headers_loop fuel (to FIELD_NAME p) r b current_offset option
        | _ => Ok (st, false, current_offset, b, p, r)
        end
    | END_HEADERS_LF =>
        '(st, current_offset) ← parse_char b begin_offset current_offset LF;
        match st with
        | http.COMPLETE =>
            '(r, st) ← end_fields r;
            Ok (st, bool_decide (st = http.COMPLETE), current_offset, b, p, r)
        | _ => Ok (st, false, current_offset, b, p, r)
        end
    | FIELD_NAME =>
        '(st, current_offset, cur) ← parse_token b begin_offset current_offset p.(current_length_)
                                       MAX_FIELD_LENGTH delimiters.(s_field_delimiters);
        let p := with_length cur p in
        match st with
        | http.COMPLETE =>
            '(r, forward) ← set_field_name r b (s32 begin_offset) (s32 (u32 (current_offset - 1))) true;
            if overflows forward then Ok (http.DATAOVERFLOW, false, current_offset, b, p, r)
            else headers_loop fuel (to FIELD_VALUE_LEADING_LWS p) r b current_offset option
        | http.INCOMPLETE =>
            '(r, forward) ← set_field_name r b (s32 begin_offset) (s32 current_offset) false;
            Ok (if overflows forward then http.DATAOVERFLOW else http.INCOMPLETE,
                false, current_offset, b, p, r)
        | _ => Ok (st, false, current_offset, b, p, r)
        end
    | FIELD_VALUE_LEADING_LWS =>
        '(st, current_offset, cur) ← parse_equal b begin_offset current_offset p.(current_length_)
                                       MAX_FIELD_LENGTH delimiters.(s_white_space);
        let p := with_length cur p in
        match st with
        | http.COMPLETE =>
            headers_loop fuel (transition_to_state FIELD_VALUE_CONTENT NOT_RESET_CURRENT_LENGTH p)
              r b current_offset option
        | _ => Ok (st, false, current_offset, b, p, r)
        end
    | FIELD_VALUE_LWS_LF =>
        '(st, current_offset) ← parse_char b begin_offset current_offset LF;
        match st with
        | http.COMPLETE => headers_loop fuel (to FIELD_VALUE_LWS p) r b current_offset option
        | _ => Ok (st, false, current_offset, b, p, r)
        end
    | FIELD_VALUE_LWS =>
        '(st, current_offset, cur) ← parse_equal b begin_offset current_offset p.(current_length_)
                                       MAX_FIELD_LENGTH delimiters.(s_white_space);
        let p := with_length cur p in
        match st with
        | http.COMPLETE =>
            headers_loop fuel
              (to (if current_offset =? begin_offset then END_HEADERS_CR else FIELD_VALUE_CONTENT) p)
              r b current_offset option
        | _ => Ok (st, false, current_offset, b, p, r)
        end
    | FIELD_VALUE_CONTENT =>
        '(st, current_offset, cur) ← parse_token b begin_offset current_offset p.(current_length_)
                                       MAX_FIELD_LENGTH delimiters.(s_endline_delimiters);
        let p := with_length cur p in
        match st with
        | http.COMPLETE =>
            '(r, forward) ← set_field_value r b (s32 begin_offset) (s32 (u32 (current_offset - 1))) true;
            let p := to FIELD_VALUE_LWS_LF p in
            if overflows forward then Ok (http.DATAOVERFLOW, false, current_offset, b, p, r)
            else headers_loop fuel p r b current_offset option
        | http.INCOMPLETE =>
            '(r, forward) ← set_field_value r b (s32 begin_offset) (s32 current_offset) false;
            Ok (if overflows forward then http.DATAOVERFLOW else http.INCOMPLETE,
                false, current_offset, b, p, r)
        | _ => Ok (st, false, current_offset, b, p, r)
        end
    end
  end.

Definition parse_headers (p : t) (r : R) (b : read_write_buffer) (option : PARSE_OPTION)
    : res (http.STATUS * read_write_buffer * t * R) :=
  '(return_value, finished, current_offset, b, p, r) ←
    headers_loop (3 * Z.to_nat (rwb.get_working_length b) + 4) p r b
      (rwb.get_process_position b) option;
  b ← rwb.set_process_position current_offset b;
  b ← rwb.set_write_position current_offset b;
  Ok (if bool_decide (return_value = http.COMPLETE) && negb finished then http.INCOMPLETE
      else return_value, b, p, r).

End parser.
End header_parser.

Import header_parser.

(** * The buffer as the bytes that are left *)

Definition rest (b : read_write_buffer) (o : Z) : list Z := drop (Z.to_nat o) (content b).

(** The buffer with its process and write positions at [o]: the parsed
    bytes count as written. *)
Definition parsed_to (o : Z) (b : read_write_buffer) : read_write_buffer :=
  RWB b.(p_buffer_) b.(b_using_static_buffer_) b.(working_length_) o b.(write_end_position_) o.

Lemma parsed_to_wf o b : wf b -> 0 <= o <= b.(working_length_) -> wf (parsed_to o b).
Proof. intros Hwf Ho. pose proof Hwf as []. by apply wf_positions. Qed.

Lemma set_parsed o b :
  o <= b.(working_length_) ->
  (b ← rwb.set_process_position o b; rwb.set_write_position o b) = Ok (parsed_to o b).
Proof.
  intros Ho. rewrite set_process_position_ok by done. simpl. by rewrite set_write_position_ok.
Qed.

Section offsets.
Variable b : read_write_buffer.
Hypothesis Hwf : wf b.

Lemma rest_length o :
  0 <= o <= b.(working_length_) -> raw_size (rest b o) = b.(working_length_) - o.
Proof.
  intros Ho. pose proof (length_content b Hwf). unfold rest, raw_size. rewrite length_drop. lia.
Qed.

(** The bytes [x] at offset [o]: the offset after them, and the slice. *)
Lemma rest_app o x l :
  rest b o = x ++ l -> 0 <= o <= b.(working_length_) ->
  o + raw_size x <= b.(working_length_) /\ rest b (o + raw_size x) = l /\
  slice b o (o + raw_size x) = x.
Proof.
  intros Hr Ho. pose proof (rest_length o Ho) as Hl. rewrite Hr, raw_size_app in Hl.
  pose proof (raw_size_nonneg x). pose proof (raw_size_nonneg l).
  split; [lia|]. split.
  - unfold rest in *. replace (Z.to_nat (o + raw_size x)) with (Z.to_nat o + length x)%nat
      by (unfold raw_size; lia).
    by rewrite <- drop_drop, Hr, drop_app_length.
  - rewrite slice_content by (done || lia). unfold rest in Hr. rewrite Hr.
    replace (Z.to_nat (o + raw_size x - o)) with (length x) by (unfold raw_size; lia).
    apply take_app_length.
Qed.

Lemma rest_cons o c l :
  rest b o = c :: l -> 0 <= o <= b.(working_length_) ->
  o + 1 <= b.(working_length_) /\ rest b (o + 1) = l /\ rwb.at_ b o = Ok c.
Proof.
  intros Hr Ho. destruct (rest_app o [c] l Hr Ho) as (H1 & H2 & _). split; [done|].
  split; [done|]. rewrite <- (Z2Nat.id o) by lia. apply at_content; [done|].
  unfold rest in Hr. by rewrite <- (Nat.add_0_r (Z.to_nat o)), <- lookup_drop, Hr.
Qed.

(** The three scanners at an offset whose bytes are known. *)
Lemma parse_token_at o e cur delims x d l :
  0 <= cur -> 0 <= o <= b.(working_length_) -> rest b o = x ++ d :: l ->
  Forall (token_char delims) x -> found d delims = true -> cur + raw_size x < MAX_FIELD_LENGTH ->
  parse_token b o e cur MAX_FIELD_LENGTH delims =
  Ok (http.COMPLETE, o + raw_size x + 1, cur + raw_size x).
Proof.
  intros Hcur Ho Hr Hx Hd Hlt. unfold MAX_FIELD_LENGTH in *. rewrite parse_token_scan by (done || lia).
  fold (rest b o). rewrite Hr, scan_token_complete by done. simpl.
  unfold raw_size. do 3 f_equal. lia.
Qed.

Lemma parse_char_at o e c d l :
  0 <= o -> rest b o = d :: l ->
  parse_char b o e c =
  if d =? c then Ok (http.COMPLETE, o + 1) else Ok (http.INVALID, e).
Proof. intros Ho Hr. rewrite parse_char_spec by done. fold (rest b o). by rewrite Hr. Qed.

Lemma parse_equal_at o e cs cur n d l :
  0 <= cur -> cur + Z.of_nat n < MAX_FIELD_LENGTH -> 0 <= o <= b.(working_length_) ->
  rest b o = replicate n SP ++ d :: l -> d <> SP ->
  parse_equal b o e cur MAX_FIELD_LENGTH cs = Ok (http.COMPLETE, o + Z.of_nat n, cur + Z.of_nat n).
Proof.
  intros Hcur Hn Ho Hr Hd. unfold MAX_FIELD_LENGTH in *. rewrite parse_equal_scan by (done || lia).
  fold (rest b o). rewrite Hr.
  assert (scan_spaces 512 cur (replicate n SP ++ d :: l) = (http.COMPLETE, n, cur + Z.of_nat n)) as ->;
    [|done].
  clear Hr Ho o. revert cur Hcur Hn. induction n as [|n IH]; intros cur Hcur Hn; cbn [scan_spaces replicate app].
  - replace (512 <=? cur) with false by lia.
    assert (found d delimiters.(s_space_delimiters) = false) as ->; [|by rewrite Z.add_0_r].
    unfold found. apply bool_decide_eq_false. intros [Hin|Hin]%elem_of_union;
      [by apply elem_of_empty in Hin|by apply elem_of_singleton in Hin].
  - replace (512 <=? cur) with false by lia. change (found SP _) with true. cbn [negb].
    rewrite IH by lia. cbn beta iota. f_equal. lia.
Qed.

End offsets.

(** * Well-formed messages *)

(** A field the parser accepts: printable characters, no colon in the name,
    no leading space, and lengths below the limit (the space before the
    value counts). *)
Record field_wf (f : list Z * list Z) : Prop := {
  fw_name : Forall (token_char delimiters.(s_field_delimiters)) f.1;
  fw_name_head : head f.1 <> Some SP;
  fw_name_size : raw_size f.1 < MAX_FIELD_LENGTH;
  fw_value : Forall (token_char delimiters.(s_endline_delimiters)) f.2;
  fw_value_head : head f.2 <> Some SP;
  fw_value_size : raw_size f.2 + 1 < MAX_FIELD_LENGTH
}.

Definition line_token (delims : gset Z) (l : list Z) : Prop :=
  Forall (token_char delims) l /\ raw_size l < MAX_FIELD_LENGTH.

Record start_line_wf (t1 t2 t3 : list Z) : Prop := {
  slw_1 : line_token delimiters.(s_space_delimiters) t1;
  slw_2 : line_token delimiters.(s_space_delimiters) t2;
  slw_3 : line_token delimiters.(s_endline_delimiters) t3
}.

Lemma found_own c : found c ({[c]} : gset Z) = true.
Proof. unfold found. apply bool_decide_eq_true. set_solver. Qed.

Section deliver.
Context {R : Type} `{HeaderReceiver R}.
Variable b : read_write_buffer.
Hypothesis Hwf : wf b.
Variable option : PARSE_OPTION.

(** ** The fields *)

Lemma name_step n p r r' st o name l :
  rest b o = name ++ 58 :: l -> 0 <= o <= b.(working_length_) ->
  p.(current_state_) = FIELD_NAME -> p.(current_length_) = 0 ->
  Forall (token_char delimiters.(s_field_delimiters)) name -> raw_size name < MAX_FIELD_LENGTH ->
  recv_name r name true = Ok (r', st) -> st <> http.DATAOVERFLOW ->
  headers_loop (S n) p r b o option =
  headers_loop n (transition_to_state FIELD_VALUE_LEADING_LWS RESET_CURRENT_LENGTH p) r' b
    (o + raw_size name + 1) option.
Proof.
  intros Hr Ho Hs Hl Hn Hlen Hrecv Hst. cbn [headers_loop]. rewrite Hs, Hl.
  pose proof (raw_size_nonneg name). pose proof (wf_size _ Hwf). pose proof (wf_working _ Hwf).
  destruct (rest_app b Hwf o name (58 :: l) Hr Ho) as (Hle & Hr2 & Hsl).
  destruct (rest_cons b Hwf (o + raw_size name) 58 l) as (Hle2 & _ & _); [done|lia|].
  rewrite (parse_token_at b Hwf o o 0 _ name 58 l) by (done || lia). simpl.
  rewrite u32_small, !s32_small by lia.
  replace (o + raw_size name + 1 - 1) with (o + raw_size name) by lia.
  rewrite name_bytes, Hsl, Hrecv by (done || lia). simpl.
  unfold overflows. by rewrite bool_decide_false.
Qed.

Lemma value_step n p r r' st o value l :
  rest b o = value ++ CR :: l -> 0 <= o <= b.(working_length_) ->
  p.(current_state_) = FIELD_VALUE_CONTENT -> 0 <= p.(current_length_) ->
  Forall (token_char delimiters.(s_endline_delimiters)) value ->
  p.(current_length_) + raw_size value < MAX_FIELD_LENGTH ->
  recv_value r value true = Ok (r', st) -> st <> http.DATAOVERFLOW ->
  headers_loop (S n) p r b o option =
  headers_loop n (transition_to_state FIELD_VALUE_LWS_LF RESET_CURRENT_LENGTH p) r' b
    (o + raw_size value + 1) option.
Proof.
  intros Hr Ho Hs Hl Hn Hlen Hrecv Hst. cbn [headers_loop]. rewrite Hs.
  pose proof (raw_size_nonneg value). pose proof (wf_size _ Hwf). pose proof (wf_working _ Hwf).
  destruct (rest_app b Hwf o value (CR :: l) Hr Ho) as (Hle & Hr2 & Hsl).
  destruct (rest_cons b Hwf (o + raw_size value) CR l) as (Hle2 & _ & _); [done|lia|].
  rewrite (parse_token_at b Hwf o o _ _ value CR l) by (done || lia). simpl.
  rewrite u32_small, !s32_small by lia.
  replace (o + raw_size value + 1 - 1) with (o + raw_size value) by lia.
  rewrite value_bytes, Hsl, Hrecv by (done || lia). simpl.
  unfold overflows. by rewrite bool_decide_false.
Qed.

(** A character the machine expects. *)
Lemma char_step n p r o c l s s' :
  rest b o = c :: l -> 0 <= o <= b.(working_length_) ->
  (s, c, s') ∈ [(FIELD_VALUE_LWS_LF, LF, FIELD_VALUE_LWS); (END_HEADERS_CR, CR, END_HEADERS_LF)] ->
  p.(current_state_) = s ->
  headers_loop (S n) p r b o option =
  headers_loop n (transition_to_state s' RESET_CURRENT_LENGTH p) r b (o + 1) option.
Proof.
  intros Hr Ho Hin Hs. cbn [headers_loop]. rewrite Hs.
  repeat (apply elem_of_cons in Hin as [[= -> -> ->]|Hin]; [
    by rewrite (parse_char_at b Hwf o o _ _ l) by (done || lia)|]).
  by apply elem_of_nil in Hin.
Qed.

Lemma spaces_step n k p r o c l s :
  rest b o = replicate k SP ++ c :: l -> 0 <= o <= b.(working_length_) -> c <> SP ->
  (s = FIELD_VALUE_LEADING_LWS \/ s = FIELD_VALUE_LWS /\ k = 0%nat) ->
  p.(current_state_) = s -> p.(current_length_) = 0 -> Z.of_nat k < MAX_FIELD_LENGTH ->
  headers_loop (S n) p r b o option =
  headers_loop n (HeaderParser (if bool_decide (s = FIELD_VALUE_LWS) then END_HEADERS_CR
                                else FIELD_VALUE_CONTENT) p.(status_line_state_) (Z.of_nat k))
    r b (o + Z.of_nat k) option.
Proof.
  intros Hr Ho Hc Hks Hs Hl Hk. cbn [headers_loop]. rewrite Hs, Hl.
  destruct Hks as [->|[-> ->]].
  - rewrite (parse_equal_at b Hwf o o _ 0 k c l) by (done || lia). done.
  - rewrite (parse_equal_at b Hwf o o _ 0 0 c l) by (done || lia). simpl.
    by rewrite Z.add_0_r, Z.eqb_refl.
Qed.

(** The first character of a value, or the CR that ends an empty one. *)
Lemma value_head_cons value l :
  head value <> Some SP -> exists c l', value ++ CR :: l = c :: l' /\ c <> SP.
Proof. destruct value as [|c value]; simpl; [by eexists _, _|]. intros. exists c, (value ++ CR :: l). split; congruence. Qed.

(** One field, from its name to the start of the next line. *)
Lemma field_steps n p r r1 r2 o name value c l :
  rest b o = serialize_field (name, value) ++ c :: l -> 0 <= o <= b.(working_length_) ->
  c <> SP -> field_wf (name, value) ->
  p.(current_state_) = FIELD_NAME -> p.(current_length_) = 0 ->
  recv_name r name true = Ok (r1, http.COMPLETE) -> recv_value r1 value true = Ok (r2, http.COMPLETE) ->
  headers_loop (5 + n) p r b o option =
  headers_loop n (HeaderParser END_HEADERS_CR p.(status_line_state_) 0) r2 b
    (o + raw_size (serialize_field (name, value))) option.
Proof.
  intros Hr Ho Hc [Hn Hnh Hns Hv Hvh Hvs] Hs Hl R1 R2.
  unfold serialize_field in *. cbn [fst snd] in *.
  unfold message_buffer.field_sep, message_buffer.new_line in *.
  assert (rest b o = name ++ 58 :: ([SP] ++ value ++ CR :: LF :: c :: l)) as Hr1
    by (rewrite Hr, <- !app_assoc; reflexivity).
  destruct (value_head_cons value (LF :: c :: l) Hvh) as (d & l' & Hd & Hdsp).
  pose proof (raw_size_nonneg name). pose proof (raw_size_nonneg value).
  destruct (rest_app b Hwf o name _ Hr1 Ho) as (L1 & E1 & _).
  destruct (rest_cons b Hwf _ 58 _ E1 ltac:(lia)) as (L2 & E2 & _).
  destruct (rest_cons b Hwf _ SP _ E2 ltac:(lia)) as (L3 & E3 & _).
  destruct (rest_app b Hwf _ value _ E3 ltac:(lia)) as (L4 & E4 & _).
  destruct (rest_cons b Hwf _ CR _ E4 ltac:(lia)) as (L5 & E5 & _).
  destruct (rest_cons b Hwf _ LF _ E5 ltac:(lia)) as (L6 & E6 & _).
  change (5 + n)%nat with (S (S (S (S (S n))))).
  rewrite (name_step _ p r r1 http.COMPLETE o name _ Hr1 Ho) by done.
  rewrite (spaces_step _ 1 _ _ (o + raw_size name + 1) d l' FIELD_VALUE_LEADING_LWS);
    [|by rewrite E2, <- Hd|lia|done|by left|done|done|done].
  rewrite bool_decide_false by done. change (Z.of_nat 1) with 1.
  rewrite (value_step _ _ r1 r2 http.COMPLETE _ value _ E3 ltac:(lia)); try done; [|simpl; lia].
  rewrite (char_step _ _ _ _ LF _ FIELD_VALUE_LWS_LF FIELD_VALUE_LWS E5 ltac:(lia)); [|left|done].
  rewrite (spaces_step _ 0 _ _ _ c l FIELD_VALUE_LWS E6 ltac:(lia)); try done; [|by right].
  rewrite bool_decide_true by done. cbn [status_line_state_ transition_to_state].
  f_equal. rewrite !raw_size_app. change (raw_size [58; 32]) with 2. change (raw_size [13; 10]) with 2.
  change (raw_size (str ": ")) with 2. lia.
Qed.

(** All the fields, the empty line and the end of the fields. *)
Lemma fields_steps fields :
  forall n p r r1 r2 o body,
  rest b o = concat (map serialize_field fields) ++ CR :: LF :: body ->
  0 <= o <= b.(working_length_) -> Forall field_wf fields ->
  p.(current_state_) = END_HEADERS_CR -> p.(current_length_) = 0 ->
  delivers_fields r fields r1 -> end_fields r1 = Ok (r2, http.COMPLETE) ->
  exists p', headers_loop (6 * length fields + 2 + n) p r b o option =
    Ok (http.COMPLETE, true, o + raw_size (concat (map serialize_field fields)) + 2, b, p', r2).
Proof.
  induction fields as [|[name value] fields IH]; intros n p r r1 r2 o body Hr Ho Hf Hs Hl Hd He.
  - inversion Hd; subst. cbn [map concat app] in Hr.
    destruct (rest_cons b Hwf _ CR _ Hr Ho) as (L1 & E1 & _).
    change (6 * length (@nil (list Z * list Z)) + 2 + n)%nat with (S (S n)).
    rewrite (char_step _ _ _ _ CR _ END_HEADERS_CR END_HEADERS_LF Hr Ho);
      [|apply list_elem_of_further, list_elem_of_here|done].
    cbn [headers_loop transition_to_state current_state_].
    rewrite (parse_char_at b Hwf _ _ LF LF body) by (done || lia). simpl.
    rewrite He. simpl. eexists.
    change (raw_size []) with 0. do 5 f_equal. lia.
  - inversion Hd as [|? ra rb ? ? ? ? Hn Hv Hrest]; subst.
    inversion Hf as [|? ? Hfw Hfs]; subst.
    cbn [map concat] in Hr. rewrite <- app_assoc in Hr.
    assert (exists d l', concat (map serialize_field fields) ++ CR :: LF :: body = d :: l' /\ d <> SP)
      as (d & l' & Hd' & Hdsp).
    { destruct Hfs as [|[nm vl] fs Hw _]; [by eexists _, _|]. destruct Hw as [_ Hh _ _ _ _].
      cbn [map concat]. unfold serialize_field at 1. cbn [fst snd] in *.
      destruct nm as [|x nm]; [by eexists _, _|]. eexists x, _. split; [reflexivity|].
      intros ->. by apply Hh. }
    rewrite Hd' in Hr.
    assert (exists c l2, rest b o = c :: l2 /\ c <> CR) as (c & l2 & Hc & Hcr).
    { rewrite Hr. destruct Hfw as [Hw _ _ _ _ _]. unfold serialize_field. cbn [fst snd] in *.
      destruct name as [|x name]; [by eexists _, _|]. eexists x, _. split; [reflexivity|].
      intros ->. inversion Hw as [|? ? [_ Hctl] _]. done. }
    replace (6 * length ((name, value) :: fields) + 2 + n)%nat
      with (S (5 + (6 * length fields + 2 + n))) by (simpl; lia).
    cbn [headers_loop]. rewrite Hs.
    rewrite (parse_char_at b Hwf _ _ CR c l2) by (done || lia).
    replace (c =? CR) with false by lia. rewrite bind_ok.
    destruct (rest_app b Hwf o _ _ Hr Ho) as (L1 & E1 & _).
    rewrite (field_steps _ _ r ra rb o name value d l' Hr Ho Hdsp Hfw); try done.
    rewrite <- Hd' in E1. pose proof (raw_size_nonneg (serialize_field (name, value))).
    destruct (IH n (HeaderParser END_HEADERS_CR (status_line_state_ p) 0) rb r1 r2 _ body E1)
      as (p' & Hp'); try done; [lia|].
    exists p'. cbn [status_line_state_ transition_to_state]. rewrite Hp'.
    cbn [map concat]. rewrite raw_size_app. do 5 f_equal. lia.
Qed.

(** ** The start line *)

Lemma token_step n p r r' o x d l delims p' :
  rest b o = x ++ d :: l -> 0 <= o <= b.(working_length_) ->
  p.(status_line_state_) <> STATUS_LINE_LF -> p.(current_length_) = 0 ->
  get_status_token_delimiters p option = Ok delims -> line_token delims x ->
  found d delims = true ->
  match p.(status_line_state_) with
  | STATUS_LINE_TOKEN_1 => recv_token1 r x true
  | STATUS_LINE_TOKEN_2 => recv_token2 r x true
  | _ => recv_token3 r x true
  end = Ok (r', http.COMPLETE) ->
  next_status_line_state d p = Ok p' ->
  status_line_loop (S n) p r b o option = status_line_loop n p' r' b (o + raw_size x + 1) option.
Proof.
  intros Hr Ho Hs Hl Hd [Hx Hlen] Hf Hrecv Hnext.
  pose proof (raw_size_nonneg x). pose proof (wf_size _ Hwf). pose proof (wf_working _ Hwf).
  destruct (rest_app b Hwf o x _ Hr Ho) as (L1 & E1 & Hsl).
  destruct (rest_cons b Hwf _ d _ E1 ltac:(lia)) as (L2 & _ & Hat).
  assert (parse_status_token p r b o o option = Ok (http.COMPLETE, o + raw_size x + 1, p', r')) as Ht.
  { unfold parse_status_token. rewrite Hd, bind_ok, Hl.
    rewrite (parse_token_at b Hwf o o 0 _ x d l) by (done || lia). rewrite bind_ok.
    rewrite u32_small by lia. replace (o + raw_size x + 1 - 1) with (o + raw_size x) by lia.
    assert (receive_status_line_token (with_length (0 + raw_size x) p) r b o (o + raw_size x) true
            = Ok (r', http.COMPLETE)) as ->.
    { unfold receive_status_line_token. cbn [with_length status_line_state_].
      rewrite !s32_small by lia. rewrite <- Hrecv.
      destruct (status_line_state_ p); try done;
        rewrite ?token1_bytes, ?token2_bytes, ?token3_bytes, Hsl by (done || lia); done. }
    rewrite bind_ok. cbn [refuses negb]. rewrite Hat, bind_ok.
    assert (next_status_line_state d (with_length (0 + raw_size x) p) = Ok p') as ->; [|done].
    rewrite <- Hnext. unfold next_status_line_state, set_status_line_state, with_length. simpl.
    by destruct (status_line_state_ p). }
  cbn [status_line_loop].
  assert (forall m k, (match p.(status_line_state_) with STATUS_LINE_LF => m | _ => k end
            : res (http.STATUS * Z * t * R)) = k) as Hm by (intros; by destruct (status_line_state_ p)).
  by rewrite Hm, Ht, bind_ok, bool_decide_true.
Qed.

Lemma start_line_steps n r r1 r2 r3 o t1 t2 t3 l :
  rest b o = t1 ++ SP :: t2 ++ SP :: t3 ++ CR :: LF :: l ->
  0 <= o <= b.(working_length_) -> start_line_wf t1 t2 t3 ->
  recv_token1 r t1 true = Ok (r1, http.COMPLETE) ->
  recv_token2 r1 t2 true = Ok (r2, http.COMPLETE) ->
  recv_token3 r2 t3 true = Ok (r3, http.COMPLETE) ->
  status_line_loop (4 + n) make r b o option =
  Ok (http.COMPLETE, o + raw_size t1 + raw_size t2 + raw_size t3 + 4,
      HeaderParser STATUS_LINE STATUS_LINE_LF 0, r3).
Proof.
  intros Hr Ho [W1 W2 W3] R1 R2 R3. change (4 + n)%nat with (S (S (S (S n)))).
  pose proof (raw_size_nonneg t1). pose proof (raw_size_nonneg t2). pose proof (raw_size_nonneg t3).
  destruct (rest_app b Hwf o t1 _ Hr Ho) as (L1 & E1 & _).
  destruct (rest_cons b Hwf _ SP _ E1 ltac:(lia)) as (L2 & E2 & _).
  destruct (rest_app b Hwf _ t2 _ E2 ltac:(lia)) as (L3 & E3 & _).
  destruct (rest_cons b Hwf _ SP _ E3 ltac:(lia)) as (L4 & E4 & _).
  destruct (rest_app b Hwf _ t3 _ E4 ltac:(lia)) as (L5 & E5 & _).
  destruct (rest_cons b Hwf _ CR _ E5 ltac:(lia)) as (L6 & E6 & _).
  rewrite (token_step _ make r r1 o t1 SP _ delimiters.(s_space_delimiters)
    (HeaderParser STATUS_LINE STATUS_LINE_TOKEN_2 0) Hr Ho);
    try done.
  assert (exists d, get_status_token_delimiters (HeaderParser STATUS_LINE STATUS_LINE_TOKEN_2 0) option
            = Ok d /\ line_token d t2 /\ found SP d = true) as (d2 & Hd2 & Wd2 & Hf2).
  { destruct W2 as [W2 L]. destruct option; eexists; (split; [reflexivity|]);
      (split; [split; [|done]|done]); [done|].
    eapply Forall_impl; [exact W2|]. exact token_char_space_endline. }
  rewrite (token_step _ (HeaderParser STATUS_LINE STATUS_LINE_TOKEN_2 0) r1 r2 _ t2 SP _ d2
    (HeaderParser STATUS_LINE STATUS_LINE_TOKEN_3 0) E2 ltac:(lia)); try done.
  rewrite (token_step _ (HeaderParser STATUS_LINE STATUS_LINE_TOKEN_3 0) r2 r3 _ t3 CR _ delimiters.(s_endline_delimiters)
    (HeaderParser STATUS_LINE STATUS_LINE_LF 0) E4 ltac:(lia)); try done.
  cbn [status_line_loop status_line_state_].
  rewrite (parse_char_at b Hwf _ _ LF LF l) by (done || lia). simpl. do 4 f_equal. lia.
Qed.

End deliver.

Lemma serialize_length t1 t2 t3 fields :
  raw_size (serialize t1 t2 t3 fields) =
  raw_size t1 + raw_size t2 + raw_size t3 + 4 + raw_size (concat (map serialize_field fields)) + 2.
Proof.
  unfold serialize. rewrite !raw_size_app.
  change (raw_size message_buffer.space) with 1. change (raw_size message_buffer.new_line) with 2. lia.
Qed.

Lemma fields_length fields :
  4 * Z.of_nat (length fields) <= raw_size (concat (map serialize_field fields)).
Proof.
  induction fields as [|f fields IH]; [done|]. cbn [map concat length].
  unfold serialize_field at 1. rewrite !raw_size_app.
  change (raw_size message_buffer.field_sep) with 2. change (raw_size message_buffer.new_line) with 2.
  pose proof (raw_size_nonneg f.1). pose proof (raw_size_nonneg f.2). lia.
Qed.

Lemma parse_message_ok {R} `{HeaderReceiver R} (b : read_write_buffer) (r r' : R) option
    t1 t2 t3 fields body :
  wf b -> unprocessed b = serialize t1 t2 t3 fields ++ body ->
  start_line_wf t1 t2 t3 -> Forall field_wf fields -> delivers r t1 t2 t3 fields r' ->
  exists p', parse_headers make r b option =
    Ok (http.COMPLETE,
        parsed_to (b.(process_position_) + raw_size (serialize t1 t2 t3 fields)) b, p', r').
Proof.
  intros Hwf Hr Hsl Hf [(r1 & r2 & r3 & r4 & D1 & D2 & D3 & D4 & D5)].
  set (o := process_position_ b) in *. change (unprocessed b) with (rest b o) in Hr.
  pose proof (wf_process _ Hwf) as Ho. fold o in Ho. pose proof (wf_size _ Hwf).
  pose proof (wf_working _ Hwf).
  destruct (rest_app b Hwf o _ _ Hr Ho) as (L & _ & _). rewrite serialize_length in L.
  assert (rest b o = t1 ++ SP :: t2 ++ SP :: t3 ++ CR :: LF ::
            concat (map serialize_field fields) ++ CR :: LF :: body) as Hr'.
  { rewrite Hr. unfold serialize. rewrite <- !app_assoc. done. }
  pose proof (raw_size_nonneg t1). pose proof (raw_size_nonneg t2). pose proof (raw_size_nonneg t3).
  pose proof (fields_length fields).
  set (o1 := o + raw_size t1 + raw_size t2 + raw_size t3 + 4).
  assert (0 <= o1 <= working_length_ b) as Ho1 by lia.
  assert (parse_status_line make r b option =
          Ok (http.COMPLETE, parsed_to o1 b, HeaderParser STATUS_LINE STATUS_LINE_LF 0, r3)) as Hsl1.
  { unfold parse_status_line, rwb.get_working_length, rwb.get_process_position. fold o.
    replace (Z.to_nat (working_length_ b) + 2)%nat with (4 + (Z.to_nat (working_length_ b) - 2))%nat
      by lia.
    erewrite start_line_steps; try done. rewrite bind_ok. fold o1.
    rewrite set_process_position_ok, bind_ok by lia.
    rewrite set_write_position_ok, bind_ok; [done|simpl; lia]. }
  assert (rest (parsed_to o1 b) o1 = concat (map serialize_field fields) ++ CR :: LF :: body) as Hr1.
  { destruct (rest_app b Hwf o (t1 ++ SP :: t2 ++ SP :: t3 ++ [CR; LF])
      (concat (map serialize_field fields) ++ CR :: LF :: body)) as (_ & E & _); [|done|].
    - rewrite Hr'. by repeat (rewrite <- app_assoc; cbn [app]).
    - rewrite <- E. change (rest (parsed_to o1 b)) with (rest b). f_equal. unfold o1.
      rewrite raw_size_app, raw_size_cons, raw_size_app, raw_size_cons, raw_size_app.
      change (raw_size [CR; LF]) with 2. lia. }
  pose proof (parsed_to_wf o1 b Hwf Ho1) as Hwf1.
  unfold parse_headers, rwb.get_working_length, rwb.get_process_position. fold o.
  replace (3 * Z.to_nat (working_length_ b) + 4)%nat with
    (S (6 * length fields + 2 + (3 * Z.to_nat (working_length_ b) + 1 - 6 * length fields)))%nat by lia.
  cbn [headers_loop current_state_ make]. rewrite Hsl1, bind_ok, bool_decide_true by done.
  destruct (fields_steps (parsed_to o1 b) Hwf1 option fields
    (3 * Z.to_nat (working_length_ b) + 1 - 6 * length fields)
    (transition_to_state END_HEADERS_CR RESET_CURRENT_LENGTH
      (HeaderParser STATUS_LINE STATUS_LINE_LF 0)) r3 r4 r' o1 body Hr1 Ho1 Hf)
    as (p' & Hp'); try done.
  change (rwb.get_process_position (parsed_to o1 b)) with o1. rewrite Hp', bind_ok.
  rewrite set_process_position_ok, bind_ok by (simpl; lia).
  rewrite set_write_position_ok, bind_ok by (simpl; lia). exists p'.
  cbn [bool_decide decide negb andb]. rewrite andb_false_r.
  unfold parsed_to. simpl. rewrite serialize_length. do 4 f_equal. f_equal; unfold o1; lia.
Qed.

(** * Every buffer is parsed *)

(** A receiver whose operations keep an invariant and end; [may_fail] tells
    whether they may abort. *)
Class SafeReceiver (may_fail : Prop) (R : Type) (inv : R -> Prop) `{HeaderReceiver R} : Prop := {
  safe_token1 r l c : inv r -> piece l -> yields may_fail (recv_token1 r l c) (fun x => inv x.1);
  safe_token2 r l c : inv r -> piece l -> yields may_fail (recv_token2 r l c) (fun x => inv x.1);
  safe_token3 r l c : inv r -> piece l -> yields may_fail (recv_token3 r l c) (fun x => inv x.1);
  safe_name r l c : inv r -> piece l -> yields may_fail (recv_name r l c) (fun x => inv x.1);
  safe_value r l c : inv r -> piece l -> yields may_fail (recv_value r l c) (fun x => inv x.1);
  safe_end r : inv r -> yields may_fail (end_fields r) (fun x => inv x.1)
}.

(** A receiver that always answers. *)
Class TotalReceiver (R : Type) `{HeaderReceiver R} : Prop := {
  total_token1 r l c : exists x, recv_token1 r l c = Ok x;
  total_token2 r l c : exists x, recv_token2 r l c = Ok x;
  total_token3 r l c : exists x, recv_token3 r l c = Ok x;
  total_name r l c : exists x, recv_name r l c = Ok x;
  total_value r l c : exists x, recv_value r l c = Ok x;
  total_end r : exists x, end_fields r = Ok x
}.

#[export] Instance total_safe R `{TotalReceiver R} : SafeReceiver False R (fun _ => True).
Proof.
  constructor; intros.
  - by destruct (total_token1 r l c) as [x ->].
  - by destruct (total_token2 r l c) as [x ->].
  - by destruct (total_token3 r l c) as [x ->].
  - by destruct (total_name r l c) as [x ->].
  - by destruct (total_value r l c) as [x ->].
  - by destruct (total_end r) as [x ->].
Qed.

Section total.
Variable b : read_write_buffer.
Hypothesis Hwf : wf b.

(** The three scanners at any offset. *)
Lemma parse_token_any o cur delims :
  0 <= cur -> 0 <= o <= b.(working_length_) ->
  exists st o' cur', parse_token b o o cur MAX_FIELD_LENGTH delims = Ok (st, o', cur') /\
    o <= o' <= b.(working_length_) /\ 0 <= cur' /\
    match st with
    | http.COMPLETE => o < o' /\ exists d, rwb.at_ b (o' - 1) = Ok d /\ found d delims = true
    | http.INCOMPLETE | http.INVALID | http.DATAOVERFLOW => True
    | _ => False
    end.
Proof.
  intros Hcur Ho. rewrite parse_token_scan by (done || unfold MAX_FIELD_LENGTH; lia).
  fold (rest b o). destruct (scan_token delims _ cur (rest b o)) as [[st k] cur'] eqn:Es.
  apply scan_token_result in Es. pose proof (raw_size_nonneg (rest b o)).
  do 3 eexists. split; [reflexivity|].
  destruct Es as [pre d post Hr _ Hd _|pre d post Hr _ _ _ _|_ _|pre post Hr _ _]; simpl;
    try (pose proof (raw_size_nonneg pre)); try (split; [lia|]; split; [lia|]; done).
  - destruct (rest_app b Hwf o pre (d :: post) Hr Ho) as (L1 & E1 & _).
    destruct (rest_cons b Hwf _ d post E1 ltac:(lia)) as (L2 & _ & Hat).
    unfold raw_size in *. split; [lia|]. split; [lia|]. split; [lia|]. exists d.
    split; [|done]. rewrite <- Hat. f_equal. lia.
  - pose proof (rest_length b Hwf o Ho). unfold raw_size in *. split; [lia|]. split; [lia|done].
Qed.

Lemma parse_equal_any o cur cs :
  0 <= cur -> 0 <= o <= b.(working_length_) ->
  exists st o' cur', parse_equal b o o cur MAX_FIELD_LENGTH cs = Ok (st, o', cur') /\
    o <= o' <= b.(working_length_) /\ 0 <= cur' /\
    match st with http.COMPLETE | http.INCOMPLETE | http.DATAOVERFLOW => True | _ => False end.
Proof.
  intros Hcur Ho. rewrite parse_equal_scan by (done || unfold MAX_FIELD_LENGTH; lia).
  fold (rest b o). pose proof (rest_length b Hwf o Ho) as Hl. revert Hl. generalize (rest b o).
  intros l Hl. assert (exists st k cur', scan_spaces MAX_FIELD_LENGTH cur l = (st, k, cur') /\
    (k <= length l)%nat /\ 0 <= cur' /\
    match st with http.COMPLETE | http.INCOMPLETE | http.DATAOVERFLOW => True | _ => False end)
    as (st & k & cur' & -> & Hk & Hc & Hst).
  { clear Hl Ho. revert cur Hcur. induction l as [|c l IH]; intros cur Hcur; cbn [scan_spaces].
    - destruct (_ <=? _); do 3 eexists; (split; [reflexivity|]); simpl; auto.
    - destruct (_ <=? _); [do 3 eexists; (split; [reflexivity|]); simpl; auto with lia|].
      destruct (negb _); [do 3 eexists; (split; [reflexivity|]); simpl; auto with lia|].
      destruct (IH (cur + 1)) as (st & k & cur' & -> & Hk & Hc & Hst); [lia|].
      do 3 eexists. split; [reflexivity|]. simpl. repeat split; lia || done. }
  do 3 eexists. split; [reflexivity|]. unfold raw_size in *.
  destruct st; try done; simpl; (split; [lia|]; done).
Qed.

Lemma parse_char_any o c :
  0 <= o <= b.(working_length_) ->
  exists st o', parse_char b o o c = Ok (st, o') /\ o <= o' <= b.(working_length_) /\
    match st with
    | http.COMPLETE => o < o'
    | http.INCOMPLETE | http.INVALID => True
    | _ => False
    end.
Proof.
  intros Ho. rewrite parse_char_spec by (done || lia). fold (rest b o).
  destruct (rest b o) as [|d l] eqn:Hr; [do 2 eexists; (split; [reflexivity|]); split; [lia|done]|].
  destruct (rest_cons b Hwf _ _ _ Hr Ho) as (L & _ & _).
  destruct (d =? c); do 2 eexists; (split; [reflexivity|]); (split; [lia|]); simpl; lia || done.
Qed.

Variable option : PARSE_OPTION.

Lemma next_state_any p delims d cur :
  p.(status_line_state_) <> STATUS_LINE_LF ->
  get_status_token_delimiters p option = Ok delims -> found d delims = true ->
  exists p', next_status_line_state d (with_length cur p) = Ok p' /\ p'.(current_length_) = 0 /\
    p'.(current_state_) = p.(current_state_).
Proof.
  intros Hs Hd Hf. unfold found in Hf. apply bool_decide_eq_true in Hf.
  unfold get_status_token_delimiters, next_status_line_state in *. simpl in *.
  destruct (status_line_state_ p), option; try done; simplify_eq;
    unfold delimiters, init in Hf; simpl in Hf; set_unfold;
    repeat match goal with H : _ \/ _ |- _ => destruct H end; try done; subst; vm_compute; eauto.
Qed.

Context {may_fail : Prop} {R : Type} {inv : R -> Prop} `{SafeReceiver may_fail R inv}.

Lemma receive_any p r i j c :
  inv r -> p.(status_line_state_) <> STATUS_LINE_LF -> 0 <= i <= j -> j <= b.(working_length_) ->
  yields may_fail (receive_status_line_token p r b i j c) (fun x => inv x.1).
Proof.
  intros Hr Hs Hi Hj. pose proof (wf_size _ Hwf). pose proof (wf_working _ Hwf).
  pose proof (slice_piece b i j Hwf).
  unfold receive_status_line_token. rewrite !s32_small by lia.
  destruct (status_line_state_ p); [rewrite token1_bytes by done; by apply safe_token1
    |rewrite token2_bytes by done; by apply safe_token2
    |rewrite token3_bytes by done; by apply safe_token3|done].
Qed.

Definition token_post (p : t) (o : Z) (x : http.STATUS * Z * t * R) : Prop :=
  let '(st, o', p', r') := x in
  o <= o' <= b.(working_length_) /\ 0 <= p'.(current_length_) /\
  p'.(current_state_) = p.(current_state_) /\ inv r' /\ (st = http.COMPLETE -> o < o').

Lemma status_token_any p r o :
  inv r -> p.(status_line_state_) <> STATUS_LINE_LF -> 0 <= p.(current_length_) ->
  0 <= o <= b.(working_length_) ->
  yields may_fail (parse_status_token p r b o o option) (token_post p o).
Proof.
  intros Hr Hs Hcur Ho. pose proof (wf_size _ Hwf). pose proof (wf_working _ Hwf).
  unfold parse_status_token.
  assert (exists delims, get_status_token_delimiters p option = Ok delims) as [delims Hd]
    by (unfold get_status_token_delimiters; destruct (status_line_state_ p), option; eauto; done).
  rewrite Hd, bind_ok.
  destruct (parse_token_any o _ delims Hcur Ho) as (st & o' & cur' & -> & Ho' & Hc' & Hst).
  rewrite bind_ok. destruct st; try done; try (repeat split; done || lia).
  - destruct Hst as (Hlt & d & Hat & Hf). rewrite u32_small by lia.
    eapply yields_bind; [apply (receive_any (with_length cur' p) r o (o' - 1) true Hr Hs); lia|].
    intros [r' st'] Hr'. destruct (negb _); [|repeat split; done || lia].
    rewrite Hat, bind_ok. destruct (next_state_any p delims d cur' Hs Hd Hf) as (p' & -> & Hl & Hcs).
    rewrite bind_ok. simpl. rewrite Hl. repeat split; done || lia.
  - eapply yields_bind; [apply (receive_any (with_length cur' p) r o o' false Hr Hs); lia|].
    intros [r' st'] Hr'. simpl. repeat split; try (done || lia). unfold refuses. by destruct st'.
Qed.

Lemma status_line_any fuel :
  forall p r o, inv r -> 0 <= p.(current_length_) -> 0 <= o <= b.(working_length_) ->
  b.(working_length_) - o + 1 < Z.of_nat fuel ->
  yields may_fail (status_line_loop fuel p r b o option) (token_post p o).
Proof.
  induction fuel as [|fuel IH]; intros p r o Hr Hcur Ho Hf; [lia|]. cbn [status_line_loop].
  assert (forall m k, p.(status_line_state_) <> STATUS_LINE_LF ->
    (match p.(status_line_state_) with STATUS_LINE_LF => m | _ => k end
            : res (http.STATUS * Z * t * R)) = k) as Hm by (intros; by destruct (status_line_state_ p)).
  assert (p.(status_line_state_) = STATUS_LINE_LF \/ p.(status_line_state_) <> STATUS_LINE_LF)
    as [Hs|Hs] by (destruct (status_line_state_ p); auto).
  - rewrite Hs. destruct (parse_char_any o LF Ho) as (st & o' & -> & Ho' & Hst). rewrite bind_ok.
    repeat split; try (done || lia). by intros ->.
  - rewrite Hm by done. eapply yields_bind; [apply status_token_any; done|].
    intros [[[st o'] p'] r'] (Ho' & Hc' & Hcs & Hr' & Hst).
    destruct (bool_decide_reflect (st = http.COMPLETE)) as [->|Hne];
      [|split; [done|]; split; [done|]; split; [done|]; split; [done|]; intros E; by destruct Hne].
    specialize (Hst eq_refl). eapply yields_mono; [apply (IH p' r' o'); [done|lia|lia|lia]|].
    intros [[[st2 o2] p2] r2] (? & ? & ? & ? & Hst2).
    split; [lia|]. split; [done|]. split; [congruence|]. split; [done|].
    intros E. specialize (Hst2 E). lia.
Qed.

End total.

(** How many steps a state can take without consuming a byte. *)
Definition rank (s : PARSE_STATE) : Z :=
  match s with
  | FIELD_VALUE_LEADING_LWS | END_HEADERS_CR => 1
  | FIELD_VALUE_LWS => 2
  | _ => 0
  end.

Section total_loop.
Context {may_fail : Prop} {R : Type} {inv : R -> Prop} `{SafeReceiver may_fail R inv}.
Variable option : PARSE_OPTION.

(** What a finished loop leaves: the offset within the buffer, past where it
    began when the message is complete. *)
Definition loop_ok (b : read_write_buffer) (o : Z)
    (x : http.STATUS * bool * Z * read_write_buffer * t * R) : Prop :=
  let '(_, fin, o', b', p', r') := x in
  wf b' /\ b'.(p_buffer_) = b.(p_buffer_) /\ b'.(working_length_) = b.(working_length_) /\
  o <= o' <= b.(working_length_) /\ (fin = true -> o < o') /\ 0 <= p'.(current_length_) /\ inv r'.

(** The loop stops with a result whose offset lies in the buffer. *)
Ltac loop_stops :=
  split; [done|]; split; [done|]; split; [done|]; split; [lia|];
  split; [intros ?; done || lia|]; split; [simpl; lia|done].

Lemma loop_later b o o' x : o <= o' -> loop_ok b o' x -> loop_ok b o x.
Proof.
  intros Ho. destruct x as [[[[[st fin] o2] b2] p2] r2]. intros (? & ? & ? & ? & Hf & ? & ?).
  split; [done|]. split; [done|]. split; [done|]. split; [lia|].
  split; [intros E; specialize (Hf E); lia|done].
Qed.

Lemma headers_loop_any fuel :
  forall b p r o, inv r -> wf b -> 0 <= p.(current_length_) -> 0 <= o <= b.(working_length_) ->
  (p.(current_state_) = STATUS_LINE -> o = b.(process_position_)) ->
  3 * (b.(working_length_) - o) + rank p.(current_state_) < Z.of_nat fuel ->
  yields may_fail (headers_loop fuel p r b o option) (loop_ok b o).
Proof.
  induction fuel as [|fuel IH]; intros b p r o Hr Hwf Hcur Ho Hpos Hf;
    [destruct (current_state_ p); simpl in Hf; lia|].
  pose proof (wf_size _ Hwf). pose proof (wf_working _ Hwf).
  assert (forall p2 r2 o2, inv r2 -> p2.(current_state_) <> STATUS_LINE -> 0 <= p2.(current_length_) ->
    o <= o2 <= b.(working_length_) ->
    3 * (b.(working_length_) - o2) + rank p2.(current_state_) < Z.of_nat fuel ->
    yields may_fail (headers_loop fuel p2 r2 b o2 option) (loop_ok b o)) as Hnext.
  { intros p2 r2 o2 Hr2 Hs2 Hc2 Ho2 Hf2. eapply yields_mono; [apply IH; done || lia|].
    intros x. apply loop_later. lia. }
  cbn [headers_loop]. destruct (current_state_ p) eqn:Es; simpl in Hf.
  - unfold parse_status_line, rwb.get_working_length, rwb.get_process_position.
    rewrite <- (Hpos eq_refl).
    pose proof (status_line_any b Hwf option (Z.to_nat (working_length_ b) + 2) p r o Hr Hcur Ho
      ltac:(lia)) as Hy.
    destruct (status_line_loop _ _ _ _ _ _) as [[[[st o'] p'] r']| | |]; try done.
    destruct Hy as (Ho' & Hc' & Hcs & Hr' & Hst).
    rewrite bind_ok, set_process_position_ok, bind_ok by lia.
    rewrite set_write_position_ok, !bind_ok by (simpl; lia).
    cbn [p_buffer_ b_using_static_buffer_ working_length_ process_position_ write_end_position_
      write_position_]. fold (parsed_to o' b).
    assert (wf (parsed_to o' b)) as Hwf' by (apply parsed_to_wf; [done|lia]).
    destruct (bool_decide_reflect (st = http.COMPLETE)) as [E|]; [|loop_stops].
    specialize (Hst E). change (process_position_ (parsed_to o' b)) with o'.
    eapply yields_mono; [apply (IH (parsed_to o' b)
      (transition_to_state END_HEADERS_CR RESET_CURRENT_LENGTH p') r' o'); try done; simpl; lia|].
    intros x Hx. apply (loop_later b o o'); [lia|]. exact Hx.
  - destruct (parse_char_any b Hwf o CR Ho) as (st & o' & -> & Ho' & Hst). rewrite bind_ok.
    destruct st; try done; try loop_stops; apply Hnext; done || (simpl; lia).
  - destruct (parse_char_any b Hwf o LF Ho) as (st & o' & -> & Ho' & Hst). rewrite bind_ok.
    destruct st; try done; try loop_stops.
    eapply yields_bind; [by apply safe_end|]. intros [r' st'] Hr'. loop_stops.
  - destruct (parse_token_any b Hwf o _ delimiters.(s_field_delimiters) Hcur Ho)
      as (st & o' & cur' & -> & Ho' & Hc' & Hst). rewrite bind_ok.
    destruct st; try done; try loop_stops.
    + destruct Hst as [Hlt _]. rewrite u32_small, !s32_small by lia.
      rewrite name_bytes by (done || lia).
      eapply yields_bind; [apply safe_name; [done|by apply slice_piece]|]. intros [r' fw] Hr'.
      destruct (overflows fw); [loop_stops|]. apply Hnext; done || (simpl; lia).
    + rewrite !s32_small by lia. rewrite name_bytes by (done || lia).
      eapply yields_bind; [apply safe_name; [done|by apply slice_piece]|]. intros [r' fw] Hr'. loop_stops.
  - destruct (parse_equal_any b Hwf o _ delimiters.(s_white_space) Hcur Ho)
      as (st & o' & cur' & -> & Ho' & Hc' & Hst). rewrite bind_ok.
    destruct st; try done; try loop_stops. apply Hnext; done || (simpl; lia).
  - destruct (parse_char_any b Hwf o LF Ho) as (st & o' & -> & Ho' & Hst). rewrite bind_ok.
    destruct st; try done; try loop_stops. apply Hnext; done || (simpl; lia).
  - destruct (parse_equal_any b Hwf o _ delimiters.(s_white_space) Hcur Ho)
      as (st & o' & cur' & -> & Ho' & Hc' & Hst). rewrite bind_ok.
    destruct st; try done; try loop_stops.
    destruct (Z.eqb_spec o' o); apply Hnext; done || (simpl; lia).
  - destruct (parse_token_any b Hwf o _ delimiters.(s_endline_delimiters) Hcur Ho)
      as (st & o' & cur' & -> & Ho' & Hc' & Hst). rewrite bind_ok.
    destruct st; try done; try loop_stops.
    + destruct Hst as [Hlt _]. rewrite u32_small, !s32_small by lia.
      rewrite value_bytes by (done || lia).
      eapply yields_bind; [apply safe_value; [done|by apply slice_piece]|]. intros [r' fw] Hr'.
      destruct (overflows fw); [loop_stops|]. apply Hnext; done || (simpl; lia).
    + rewrite !s32_small by lia. rewrite value_bytes by (done || lia).
      eapply yields_bind; [apply safe_value; [done|by apply slice_piece]|]. intros [r' fw] Hr'. loop_stops.
Qed.

(** What a call leaves: the same bytes, the positions at its end, and
    something taken when the message is complete. *)
Definition headers_post (b : read_write_buffer) (x : http.STATUS * read_write_buffer * t * R) : Prop :=
  let '(st, b', p', r') := x in
  wf b' /\ b'.(p_buffer_) = b.(p_buffer_) /\ b'.(working_length_) = b.(working_length_) /\
  b.(process_position_) <= b'.(process_position_) /\ b'.(write_position_) = b'.(process_position_) /\
  (st = http.COMPLETE -> b.(process_position_) < b'.(process_position_)) /\
  0 <= p'.(current_length_) /\ inv r'.

Lemma parse_headers_any b p r :
  inv r -> wf b -> 0 <= p.(current_length_) ->
  yields may_fail (parse_headers p r b option) (headers_post b).
Proof.
  intros Hr Hwf Hcur. pose proof (wf_process _ Hwf). unfold parse_headers, rwb.get_working_length,
    rwb.get_process_position.
  eapply yields_bind; [apply (headers_loop_any (3 * Z.to_nat (working_length_ b) + 4) b p r
    (process_position_ b)); try done; destruct (current_state_ p); simpl; lia|].
  intros [[[[[st fin] o'] b'] p'] r'] (Hwf' & Hv & Hw & Ho & Hfin & Hl & Hr').
  rewrite set_process_position_ok, bind_ok by lia.
  rewrite set_write_position_ok, bind_ok by (simpl; lia).
  cbn [p_buffer_ b_using_static_buffer_ working_length_ process_position_ write_end_position_
    write_position_]. fold (parsed_to o' b'). simpl.
  split; [apply parsed_to_wf; [done|lia]|]. split; [done|]. split; [done|].
  split; [lia|]. split; [done|]. split; [|done].
  intros E. destruct (bool_decide_reflect (st = http.COMPLETE)); cbn [andb] in E; [|done].
  apply Hfin. by destruct fin.
Qed.

End total_loop.

(** * Properties *)

(** C18: A message whose start line and fields are well formed is parsed
    whole, in both modes: the receiver is handed the three tokens, every
    field in order and the end of the fields; the parser answers [COMPLETE]
    and leaves the buffer at the first byte of the body. *)
Theorem parse_headers_delivers {R} `{HeaderReceiver R} (b : read_write_buffer) (r r' : R) option
    t1 t2 t3 fields body :
  wf b -> unprocessed b = serialize t1 t2 t3 fields ++ body ->
  start_line_wf t1 t2 t3 -> Forall field_wf fields -> delivers r t1 t2 t3 fields r' ->
  exists b' p', parse_headers make r b option = Ok (http.COMPLETE, b', p', r') /\
    wf b' /\ content b' = content b /\ unprocessed b' = body /\
    b'.(write_position_) = b'.(process_position_).
Proof.
  intros Hwf Hr Hsl Hf Hd.
  destruct (parse_message_ok b r r' option _ _ _ _ _ Hwf Hr Hsl Hf Hd) as (p' & Hp).
  destruct (rest_app b Hwf _ _ _ Hr (wf_process _ Hwf)) as (L & E & _).
  pose proof (raw_size_nonneg (serialize t1 t2 t3 fields)). pose proof (wf_process _ Hwf).
  eexists _, p'. split; [exact Hp|]. split; [apply parsed_to_wf; [done|lia]|]. done.
Qed.

(** C15: What a message writes, the parser reads back: when the buffer
    sequence of a message is parsed into a fresh handler, the new message
    has the same start line and the same fields in the same order, and the
    parser stops at the byte after it. *)
Theorem message_roundtrip z m z' m' st c b option l body :
  message_ok z m -> message_buffer.get_const_buffers m = Ok l ->
  let t1 := content (message_buffer.start_line1_ m) in
  let t2 := content (message_buffer.start_line2_ m) in
  let t3 := content (message_buffer.start_line3_ m) in
  wf b -> unprocessed b = concat l ++ body ->
  start_line_wf t1 t2 t3 -> Forall field_wf (fields_of m) ->
  message_ok z' m' -> cache_ok z' c -> cache.empty c = false ->
  token_fits z'.(n_line1) t1 -> token_fits z'.(n_line2) t2 -> token_fits z'.(n_line3) t3 ->
  Forall (field_fits z') (fields_of m) ->
  Z.of_nat (length (fields_of m)) <= message_buffer.max_fields_ m' ->
  Z.of_nat (length (fields_of m)) <= cache.num_available_headers c ->
  message_complete st t1 t3 (fields_of m) ->
  exists h0 c0 h c' b' p',
    header_handler.make m' st c = Ok (h0, c0) /\
    parse_headers make (h0, c0) b option = Ok (http.COMPLETE, b', p', (h, c')) /\
    unprocessed b' = body /\
    content (message_buffer.start_line1_ (header_handler.get_message_buffer h)) = t1 /\
    content (message_buffer.start_line2_ (header_handler.get_message_buffer h)) = t2 /\
    content (message_buffer.start_line3_ (header_handler.get_message_buffer h)) = t3 /\
    fields_of (header_handler.get_message_buffer h) = fields_of m.
Proof.
  intros Hm Hl t1 t2 t3 Hwf Hb Hsl Hf Hm' Hc He Ht1 Ht2 Ht3 Hfit Hmax Hav Hcomp.
  rewrite (const_buffers_concat _ _ _ Hm Hl) in Hb. fold t1 t2 t3 in Hb.
  destruct (reset_fresh z' (header_handler.HeaderHandler m' 0 0 false false http.NONE st) c Hm' Hc He)
    as (h0 & c0 & Hr & Hfresh & Hc0 & Hst & Hmax0 & Hav0). simpl in Hst, Hmax0, Hav0.
  assert (0 <= message_buffer.current_num_fields_ m') as Hn by (destruct Hm'; lia).
  destruct (deliver_message_ok z' h0 c0 t1 t2 t3 (fields_of m))
    as (h & c' & Hd & _ & _ & H1 & H2 & H3 & Hfo & _); try done; [lia|lia|by rewrite Hst|].
  destruct (parse_message_ok b _ _ option _ _ _ _ _ Hwf Hb Hsl Hf Hd) as (p' & Hp).
  destruct (rest_app b Hwf _ _ _ Hb (wf_process _ Hwf)) as (_ & E & _).
  eexists h0, c0, h, c', _, p'. split; [exact Hr|]. split; [exact Hp|]. done.
Qed.

(** C29: The parser returns on every well-formed buffer, from every state and
    in both modes, for every receiver that answers: it never aborts, never
    reads outside the buffer, never loops; the bytes are untouched and count
    as written up to the process position. *)
Theorem parse_headers_total {R} `{TotalReceiver R} (p : t) (r : R) (b : read_write_buffer) option :
  wf b -> 0 <= p.(current_length_) ->
  exists st b' p' r', parse_headers p r b option = Ok (st, b', p', r') /\
    wf b' /\ content b' = content b /\ b'.(write_position_) = b'.(process_position_).
Proof.
  intros Hwf Hcur.
  destruct (yields_total _ _ (parse_headers_any (may_fail := False) (inv := fun _ => True) option b p r
    I Hwf Hcur)) as ([[[st b'] p'] r'] & Hp & Hwf' & Hv & Hw & _ & Hpos & _).
  exists st, b', p', r'. split; [exact Hp|]. split; [exact Hwf'|]. split; [|exact Hpos].
  unfold content, raw_of. by rewrite Hv, Hw.
Qed.

(** ** The properties at concrete inputs *)

(** A receiver that records what it is handed. *)
Definition log : Type := list (Z * list Z * bool).

Definition record_ (n : Z) (s : log) (b : read_write_buffer) (i j : Z) (c : bool)
    : res (log * http.STATUS) :=
  bytes ← header_handler.bytes_of b i j; Ok (s ++ [(n, bytes, c)], http.COMPLETE).

#[local] Instance recorder : i_header_receiver log := {
  start_line_token1 := record_ 1;
  start_line_token2 := record_ 2;
  start_line_token3 := record_ 3;
  set_field_name := record_ 4;
  set_field_value := record_ 5;
  end_fields s := Ok (s ++ [(6, [], true)], http.COMPLETE)
}.

#[local] Instance recorder_bytes : HeaderReceiver log.
Proof.
  refine {|
    recv_token1 s l c := Ok (s ++ [(1, l, c)], http.COMPLETE);
    recv_token2 s l c := Ok (s ++ [(2, l, c)], http.COMPLETE);
    recv_token3 s l c := Ok (s ++ [(3, l, c)], http.COMPLETE);
    recv_name s l c := Ok (s ++ [(4, l, c)], http.COMPLETE);
    recv_value s l c := Ok (s ++ [(5, l, c)], http.COMPLETE) |};
    intros; simpl; unfold record_; by rewrite header_handler.bytes_of_slice.
Defined.

#[local] Instance recorder_total : TotalReceiver log.
Proof. constructor; intros; eexists; reflexivity. Qed.

Definition sample_text : list Z :=
  str "GET / HTTP/1.1" ++ [13; 10] ++ str "Host: a" ++ [13; 10; 13; 10] ++ str "B".

Definition sample_request : read_write_buffer :=
  RWB (Some sample_text) false 28 0 28 0.

Lemma sample_request_wf : wf sample_request.
Proof. concrete_wf. Qed.

Lemma sample_start_line_wf : start_line_wf (str "GET") (str "/") (str "HTTP/1.1").
Proof. constructor; (split; [repeat constructor|reflexivity]). Qed.

Lemma sample_field_wf : field_wf (str "Host", str "a").
Proof. constructor; (reflexivity || discriminate || (repeat constructor)). Qed.

Lemma parse_headers_delivers_witness :
  exists b' p', parse_headers make ([] : log) sample_request STRICT =
    Ok (http.COMPLETE, b', p',
        [(1, str "GET", true); (2, str "/", true); (3, str "HTTP/1.1", true);
         (4, str "Host", true); (5, str "a", true); (6, [], true)]) /\
    unprocessed b' = str "B".
Proof.
  destruct (parse_headers_delivers sample_request ([] : log)
    [(1, str "GET", true); (2, str "/", true); (3, str "HTTP/1.1", true);
     (4, str "Host", true); (5, str "a", true); (6, [], true)] STRICT
    (str "GET") (str "/") (str "HTTP/1.1") [(str "Host", str "a")] (str "B"))
    as (b' & p' & H1 & _ & _ & H2 & _).
  - exact sample_request_wf.
  - reflexivity.
  - exact sample_start_line_wf.
  - constructor; [exact sample_field_wf|constructor].
  - constructor. do 4 eexists.
    split; [reflexivity|]. split; [reflexivity|]. split; [reflexivity|].
    split; [eapply delivers_cons; [reflexivity|reflexivity|apply delivers_nil]|reflexivity].
  - exists b', p'. split; [exact H1|exact H2].
Defined.

Lemma message_roundtrip_witness :
  exists h0 c0 h c' b' p',
    header_handler.make (message_buffer.make true 4 4 8 2) REQUEST (cache.make 2 8 8) = Ok (h0, c0) /\
    parse_headers make (h0, c0) sample_request LOOSE = Ok (http.COMPLETE, b', p', (h, c')) /\
    fields_of (header_handler.get_message_buffer h) = [(str "Host", str "a")].
Proof.
  destruct (message_roundtrip sample_sizes sample_message sample_sizes
    (message_buffer.make true 4 4 8 2) REQUEST (cache.make 2 8 8) sample_request LOOSE
    [str "GET"; [32]; str "/"; [32]; str "HTTP/1.1"; [13; 10]; str "Host"; [58; 32]; str "a";
     [13; 10]; [13; 10]] (str "B"))
    as (h0 & c0 & h & c' & b' & p' & H1 & H2 & _ & _ & _ & _ & H3).
  - exact sample_message_ok.
  - vm_compute. reflexivity.
  - exact sample_request_wf.
  - reflexivity.
  - exact sample_start_line_wf.
  - constructor; [exact sample_field_wf|constructor].
  - constructor; try reflexivity; try (apply stored_make; split; discriminate || reflexivity);
      [split; discriminate || reflexivity|constructor].
  - repeat (constructor; [apply hb_ok_kept, (hb_make_ok sample_sizes); split; discriminate || reflexivity|]).
    constructor.
  - reflexivity.
  - split; [forall_concrete|split; discriminate || reflexivity].
  - split; [forall_concrete|split; discriminate || reflexivity].
  - split; [forall_concrete|split; discriminate || reflexivity].
  - constructor; [|constructor]. constructor;
      try (split; [forall_concrete|split; discriminate || reflexivity]).
    intros E. exfalso. revert E. vm_compute. discriminate.
  - discriminate.
  - discriminate.
  - intros _. split; reflexivity.
  - exists h0, c0, h, c', b', p'. split; [exact H1|]. split; [exact H2|exact H3].
Defined.

Lemma parse_headers_total_witness :
  exists st b' p' r', parse_headers make ([] : log) sample_request STRICT = Ok (st, b', p', r') /\
    wf b'.
Proof.
  destruct (parse_headers_total make ([] : log) sample_request STRICT)
    as (st & b' & p' & r' & H1 & H2 & _).
  - exact sample_request_wf.
  - discriminate.
  - exists st, b', p', r'. split; [exact H1|exact H2].
Defined.

(** A start line that is not complete when the buffer ends: the positions
    go back to where the call began while the states and the receiver have
    moved on, so that the next call takes the method for the second token. *)
Lemma incomplete_start_line_parsed_twice :
  let b := RWB (Some (str "GET /")) false 5 0 5 0 in
  parse_headers make ([] : log) b STRICT =
    Ok (http.INCOMPLETE, b, HeaderParser STATUS_LINE STATUS_LINE_TOKEN_2 1,
        [(1, str "GET", true); (2, str "/", false)]) /\
  parse_headers (HeaderParser STATUS_LINE STATUS_LINE_TOKEN_2 1)
      [(1, str "GET", true); (2, str "/", false)] b STRICT =
    Ok (http.INCOMPLETE, b, HeaderParser STATUS_LINE STATUS_LINE_TOKEN_3 1,
        [(1, str "GET", true); (2, str "/", false); (2, str "GET", true); (3, str "/", false)]).
Proof. split; vm_compute; reflexivity. Qed.
