(* ===== verification/HandlerSafety.v ===== *)
(** The header handler under any sequence of pieces: whatever the parser
    hands it, in any order and cut anywhere, it keeps its message well formed
    and does not loop; it may abort.  This is what the parser is run against
    by the proxy, where the pieces are those of arbitrary buffers. *)
From S2P Require Import Prelude Status ReadWriteBuffer HttpLex Interfaces HeaderStore HeaderHandler HeaderParser.

(** * Buffers *)

Lemma fits_yields F n b size :
  stored n b -> yields F (rwb.fits_in_buffer size b) (fun _ => True).
Proof.
  intros [[] _ _ _ _]. unfold rwb.fits_in_buffer, rwb.get_physical_length, rwb.get_raw_buffer.
  by rewrite wf_vector.
Qed.

Lemma append_yields n b bytes :
  stored n b -> piece bytes -> yields True (rwb.append_from_buffer bytes b) (stored n).
Proof.
  intros Hb [Hbytes Hlen]. destruct (Z.leb_spec (b.(working_length_) + raw_size bytes) n).
  - by destruct (stored_append n b bytes Hb Hbytes) as (b' & -> & Hs & _).
  - destruct Hb as [Hwf Hn Ho _ _]. pose proof Hwf as []. pose proof (raw_size_nonneg bytes).
    unfold rwb.append_from_buffer, rwb.get_raw_buffer. rewrite Ho, wf_vector. cbn [of_option].
    rewrite bind_ok. unfold CHECK_CONDITION. cbn [negb]. rewrite bind_ok.
    destruct (_ <=? _); [|done]. rewrite bind_ok. unfold rwb.memcpy. replace (_ && _) with false; [done|].
    symmetry. apply andb_false_iff. rewrite !Z.leb_gt. lia.
Qed.

Lemma set_working_end_yields n b : stored n b -> yields True (set_working_end 0 b) (stored n).
Proof.
  intros Hb. destruct (Z.ltb_spec b.(working_length_) n).
  - by destruct (set_working_end_ok n b Hb) as (b' & rest & -> & Hs & _).
  - destruct Hb as [Hwf Hn Ho _ _]. pose proof Hwf as []. unfold set_working_end, rwb.get_raw_buffer.
    rewrite wf_vector. simpl. rewrite lookup_ge_None_2; [done|]. unfold raw_size in *. lia.
Qed.

(** [append_from_string] replaces the content. *)
Lemma append_from_string_ok n b cs :
  stored n b -> bytes_ok cs -> raw_size cs <= n ->
  exists b', rwb.append_from_string cs b = Ok b' /\ stored n b' /\ content b' = cs.
Proof.
  intros [Hwf Hn Ho Hw He] Hcs Hle. pose proof Hwf as []. pose proof (raw_size_nonneg cs).
  pose proof (raw_size_nonneg (raw_of b)).
  unfold rwb.append_from_string, rwb.get_physical_length, rwb.get_raw_buffer. rewrite wf_vector.
  cbn [of_option]. rewrite !bind_ok, (u32_small (raw_size (raw_of b))) by lia.
  rewrite (check_true (raw_size cs <=? _)), bind_ok by lia.
  assert (exists raw', rwb.memcpy (raw_of b) 0 cs = Ok raw') as [raw' Em].
  { unfold rwb.memcpy. rewrite Z.add_0_l. replace (raw_size cs <=? raw_size (raw_of b)) with true by lia. eauto. }
  rewrite Em. destruct (memcpy_ok _ _ _ _ Em) as [Hrs Hbs]; [done..|].
  pose proof (memcpy_append _ _ _ _ Em) as Happ. rewrite bind_ok, u32_small by lia.
  unfold rwb.set_working_length, rwb.get_raw_buffer. cbn [p_buffer_ of_option b_using_static_buffer_].
  rewrite bind_ok, (check_true (raw_size cs <=? raw_size raw')), bind_ok by lia.
  rewrite Ho. cbn [negb]. rewrite check_true, bind_ok by done.
  rewrite set_write_end_position_ok, bind_ok by (simpl; lia).
  rewrite set_write_position_ok, bind_ok by (simpl; lia).
  rewrite set_write_end_position_ok by (simpl; lia). eexists. split; [reflexivity|]. split.
  - constructor; try done; [|unfold raw_of; simpl; lia].
    constructor; unfold raw_of; simpl; done || lia.
  - unfold content, raw_of. simpl. unfold id. by rewrite Z.add_0_l in Happ.
Qed.

Lemma append_from_string_aborts n b cs :
  stored n b -> n < raw_size cs -> rwb.append_from_string cs b = Aborted.
Proof.
  intros Hb Hlt. pose proof (stored_wf _ _ Hb) as []. pose proof (stored_size _ _ Hb).
  pose proof (raw_size_nonneg (raw_of b)).
  unfold rwb.append_from_string, rwb.get_physical_length, rwb.get_raw_buffer. rewrite wf_vector.
  cbn [of_option]. rewrite !bind_ok, (u32_small (raw_size (raw_of b))) by lia.
  unfold CHECK_CONDITION. by replace (raw_size cs <=? raw_size (raw_of b)) with false by lia.
Qed.

Lemma append_from_string_yields n b cs :
  stored n b -> bytes_ok cs -> yields True (rwb.append_from_string cs b) (stored n).
Proof.
  intros Hb Hcs. destruct (Z.leb_spec (raw_size cs) n) as [Hle|Hlt].
  - by destruct (append_from_string_ok n b cs Hb Hcs Hle) as (b' & -> & Hb' & _).
  - by rewrite (append_from_string_aborts n).
Qed.

(** * The message *)
Section message.
Variable z : sizes.

Lemma get_header_yields n m :
  message_ok z m -> yields True (message_buffer.get_header n m) (hb_ok z).
Proof.
  intros []. unfold message_buffer.get_header, CHECK_CONDITION. destruct (_ <? _); [|done].
  rewrite bind_ok. destruct (_ !! _) eqn:E; [|done]. simpl.
  exact (proj1 (Forall_lookup _ _) mb_headers _ _ E).
Qed.

Lemma set_header_any n h m :
  message_ok z m -> hb_ok z h -> message_ok z (message_buffer.set_header n h m).
Proof.
  intros [] Hh. constructor; simpl; rewrite ?length_insert; try done. by apply Forall_insert.
Qed.

Lemma append_to_name_yields n bytes m :
  message_ok z m -> piece bytes ->
  yields True (message_buffer.append_to_name n bytes m) (fun x => message_ok z x.2).
Proof.
  intros Hm Hb. unfold message_buffer.append_to_name.
  eapply yields_bind; [by apply get_header_yields|]. intros h [Hn Hv].
  eapply yields_bind; [by eapply fits_yields|]. intros [] _; [|done].
  unfold hb.append_to_name. eapply yields_bind;
    [eapply yields_bind; [by eapply append_yields|]|intros h' Hh'; by apply set_header_any].
  intros b Hs. by constructor.
Qed.

Lemma append_to_value_yields n bytes m :
  message_ok z m -> piece bytes ->
  yields True (message_buffer.append_to_value n bytes m) (fun x => message_ok z x.2).
Proof.
  intros Hm Hb. unfold message_buffer.append_to_value.
  eapply yields_bind; [by apply get_header_yields|]. intros h [Hn Hv].
  eapply yields_bind; [by eapply fits_yields|]. intros [] _; [|done].
  unfold hb.append_to_value. eapply yields_bind;
    [eapply yields_bind; [by eapply append_yields|]|intros h' Hh'; by apply set_header_any].
  intros b Hs. by constructor.
Qed.

Lemma status_lines_yield bytes m :
  message_ok z m -> piece bytes ->
  yields True (message_buffer.append_to_status_line_1 bytes m) (fun x => message_ok z x.2) /\
  yields True (message_buffer.append_to_status_line_2 bytes m) (fun x => message_ok z x.2) /\
  yields True (message_buffer.append_to_status_line_3 bytes m) (fun x => message_ok z x.2).
Proof.
  intros Hm Hb. pose proof Hm as [].
  split; [|split];
    (eapply yields_bind; [by eapply fits_yields|]; intros [] _; [|done];
     eapply yields_bind; [by eapply append_yields|]; intros b Hs; by constructor).
Qed.

Lemma field_value_yields n m :
  message_ok z m -> yields True (message_buffer.get_field_value n m) (stored z.(n_value)).
Proof.
  intros Hm. unfold message_buffer.get_field_value, CHECK_CONDITION. destruct (_ <? _); [|done].
  rewrite bind_ok. eapply yields_bind; [by apply get_header_yields|]. by intros h [].
Qed.

Lemma set_field_value_yields n b m :
  message_ok z m -> stored z.(n_value) b ->
  yields True (message_buffer.set_field_value n b m) (message_ok z).
Proof.
  intros Hm Hb. eapply yields_bind; [by apply get_header_yields|]. intros h [Hn _].
  apply set_header_any; [done|]. by constructor.
Qed.

Lemma equals_yields F n b cs :
  stored n b -> c_string cs -> yields F (rwb.equals cs b) (fun _ => True).
Proof. intros [Hwf _ _ _ _] Hcs. by rewrite equals_spec. Qed.

Lemma field_equals_yields n cs m :
  message_ok z m -> c_string cs ->
  yields True (message_buffer.field_name_equals n cs m) (fun _ => True) /\
  yields True (message_buffer.field_value_equals n cs m) (fun _ => True).
Proof.
  intros Hm Hcs. unfold message_buffer.field_name_equals, message_buffer.field_value_equals, CHECK_CONDITION.
  destruct (_ <? _); [|done]. rewrite !bind_ok.
  split; (eapply yields_bind; [by apply get_header_yields|]); intros h []; by eapply equals_yields.
Qed.

End message.

(** * The handler *)
Section handler.
Variable z : sizes.

Import header_handler.

Definition message_well (h : t) : Prop := message_ok z h.(message_buffer_).

(** The handler with the pool it draws from. *)
Definition handler_safe (s : state) : Prop := message_well s.1 /\ cache_ok z s.2.

Lemma match_method_yields n ms b c :
  stored n b -> Forall c_string ms -> yields True (match_method ms b c) (fun _ => True).
Proof.
  intros [Hwf _ _ _ _]. induction 1 as [|m ms Hm _ IH]; [done|]. cbn [match_method].
  rewrite compare_no_case_ref, bind_ok by done. by destruct (compare_ref _ _), c.
Qed.

Lemma token1_yields h l c :
  message_well h -> piece l -> yields True (receive_token1 h l c) (fun x => message_well x.1).
Proof.
  intros Hm Hl. unfold receive_token1.
  eapply yields_bind; [by apply (status_lines_yield z)|]. intros [fits m] Hm'.
  destruct fits; [|done]. cbn [with_message stream_type_]. destruct (stream_type_ h); [|done].
  eapply yields_bind; [eapply match_method_yields; [apply (mb_line1 _ _ Hm')|]|by intros st _].
  repeat constructor; forall_concrete.
Qed.

Lemma token2_yields h l c :
  message_well h -> piece l -> yields True (receive_token2 h l c) (fun x => message_well x.1).
Proof.
  intros Hm Hl. unfold receive_token2.
  eapply yields_bind; [by apply (status_lines_yield z)|]. intros [fits m] Hm'.
  destruct fits; [|done]. destruct (_ && _); [|done].
  eapply yields_bind; [|intros h' Hh'; exact Hh'].
  unfold scan_return_code. eapply yields_bind;
    [eapply equals_yields; [apply (mb_line2 _ _ Hm')|forall_concrete]|]. by intros [] _.
Qed.

Lemma token3_yields h l c :
  message_well h -> piece l -> yields True (receive_token3 h l c) (fun x => message_well x.1).
Proof.
  intros Hm Hl. unfold receive_token3.
  eapply yields_bind; [by apply (status_lines_yield z)|]. by intros [fits m] Hm'.
Qed.

Lemma name_yields h c l b :
  message_well h -> cache_ok z c -> piece l ->
  yields True (receive_name h c l b) (fun x => handler_safe x.1).
Proof.
  intros Hm Hc Hl. unfold receive_name.
  eapply (yields_bind _ _ _ (fun x => handler_safe x.1)).
  - destruct (_ =? _); [|done]. destruct (Z.leb_spec (message_buffer.get_max_fields (message_buffer_ h))
      (current_field_ h)); [done|].
    destruct (Z.ltb_spec (message_buffer.current_num_fields_ (message_buffer_ h))
      (message_buffer.max_fields_ (message_buffer_ h))) as [Hlt|Hge].
    + pose proof (add_field_ok z _ c Hm Hc Hlt) as Ha.
      destruct (cache.empty c); [by rewrite Ha|]. by destruct Ha as (m' & c' & -> & Hm' & Hc' & _).
    + unfold message_buffer.add_field, message_buffer.get_max_fields, CHECK_CONDITION.
      by rewrite (proj2 (Z.ltb_ge _ _) Hge).
  - intros [[h' c'] refused] [Hm' Hc']. destruct refused; [done|].
    eapply yields_bind; [by apply append_to_name_yields|]. by intros [fits m] Hm2.
Qed.

Lemma atoi_yields cs : yields True (atoi cs) (fun _ => True).
Proof.
  assert (forall cs acc, yields True (atoi_digits acc cs) (fun _ => True)) as Hd.
  { clear. induction cs as [|c cs IH]; intros acc; [done|]. simpl. by destruct (isdigit c). }
  assert (forall cs, yields True (atoi_sign cs) (fun _ => True)) as Hs.
  { clear -Hd. intros [|c cs]; [done|]. unfold atoi_sign. destruct (c =? 45); [|by destruct (c =? 43)].
    by eapply yields_bind. }
  assert (forall cs, yields True (atoi_spaces cs) (fun _ => True)) as Hsp.
  { clear -Hs. induction cs as [|c cs IH]; [done|]. cbn [atoi_spaces]. destruct (isspace c); [done|apply Hs]. }
  unfold atoi. eapply yields_bind; [apply Hsp|]. intros v _. by case_match.
Qed.

Lemma scan_content_length_yields h :
  message_well h -> yields True (scan_content_length h) message_well.
Proof.
  intros Hm. unfold scan_content_length. destruct (bool_decide _); [done|].
  eapply yields_bind; [by apply (field_value_yields z)|]. intros v Hv.
  eapply yields_bind; [by apply set_working_end_yields|]. intros v' Hv'.
  eapply yields_bind; [by apply (set_field_value_yields z)|]. intros m Hm'.
  unfold rwb.get_raw_buffer. rewrite (wf_vector _ (stored_wf _ _ Hv')). cbn [of_option]. rewrite bind_ok.
  eapply yields_bind; [apply atoi_yields|]. by intros size _.
Qed.

Lemma scan_field_yields h : message_well h -> yields True (scan_field h) message_well.
Proof.
  intros Hm. unfold scan_field.
  assert (forall n cs, c_string cs -> yields True
    (message_buffer.field_name_equals n cs (message_buffer_ h)) (fun _ => True)) as Hname
    by (intros; by apply (field_equals_yields z)).
  eapply yields_bind; [by apply (field_value_yields z)|]. intros v Hv.
  eapply (yields_bind _ _ _ (fun _ => True)).
  { destruct (have_host_header_ h); [done|]. apply Hname. forall_concrete. }
  intros host _. cbn [with_host ignore_body_encoding_headers_]. destruct (_ : bool); [done|].
  eapply yields_bind; [apply Hname; forall_concrete|]. intros [] _;
    [by apply scan_content_length_yields|].
  eapply yields_bind; [apply Hname; forall_concrete|]. intros [] _; [|done].
  eapply yields_bind; [apply (field_equals_yields z); [done|forall_concrete]|]. by intros [] _.
Qed.

Lemma value_yields h l c :
  message_well h -> piece l -> yields True (receive_value h l c) (fun x => message_well x.1).
Proof.
  intros Hm Hl. unfold receive_value.
  eapply yields_bind; [by apply (append_to_value_yields z)|]. intros [fits m] Hm'.
  destruct fits; [|done]. destruct c; [|done].
  eapply yields_bind; [by apply scan_field_yields|]. by intros h' Hh'.
Qed.

Lemma end_fields_yields h :
  message_well h -> yields True (header_handler.end_fields h) (fun x => message_well x.1).
Proof.
  intros Hm. unfold header_handler.end_fields, request_buffer_wrapper.get_http_version.
  destruct (stream_type_ h); [|done]. pose proof (mb_line3 _ _ Hm) as H3.
  rewrite !equals_spec by (apply H3 || forall_concrete). rewrite !bind_ok.
  destruct (bool_decide _); [by destruct (have_host_header_ h)|]. by destruct (bool_decide _).
Qed.

Lemma lift_yields s m :
  handler_safe s -> yields True m (fun x => message_well x.1) ->
  yields True (lift s m) (fun x => handler_safe x.1).
Proof. intros [_ Hc] Hm. eapply yields_bind; [exact Hm|]. by intros [h st] Hh. Qed.

#[export] Instance handler_is_safe : SafeReceiver True state handler_safe.
Proof.
  constructor; simpl.
  - intros s l c Hs Hl. apply lift_yields; [done|]. apply token1_yields; [apply Hs|done].
  - intros s l c Hs Hl. apply lift_yields; [done|]. apply token2_yields; [apply Hs|done].
  - intros s l c Hs Hl. apply lift_yields; [done|]. apply token3_yields; [apply Hs|done].
  - intros s l c [Hm Hc] Hl. eapply yields_bind; [by apply name_yields|]. by intros [[h' c'] st] Hh.
  - intros s l c Hs Hl. apply lift_yields; [done|]. apply value_yields; [apply Hs|done].
  - intros s Hs. apply lift_yields; [done|]. apply end_fields_yields, Hs.
Qed.

Lemma reset_yields h c :
  message_kept z h.(message_buffer_) -> cache_ok z c -> yields True (reset h c) handler_safe.
Proof.
  intros Hm Hc. unfold reset. pose proof (reset_ok z _ c Hm Hc) as Hr.
  destruct (cache.empty c); [by rewrite Hr|]. by destruct Hr as (m' & c' & -> & Hm' & Hc' & _).
Qed.

End handler.
