(* ===== verification/BodyParsers.v ===== *)
(** The body parsers of http/: a body of known length
    (content_length_body_parser.cpp), a chunked body
    (chunked_body_parser.cpp), a body ended by the connection
    (end_connection_body_parser.cpp) and the parser that chooses between them
    (body_parser.cpp).  They forward the body to an [i_body_receiver] while
    they find its end. *)
From S2P Require Import Prelude Status ReadWriteBuffer HttpLex Interfaces.

(** * Hexadecimal characters, util/conversions.hpp *)
Definition ISDIGIT (x : Z) : bool := (48 <=? x) && (x <=? 57).
Definition ISHEXCHAR (x : Z) : bool := ((97 <=? x) && (x <=? 102)) || ((65 <=? x) && (x <=? 70)).
Definition ISHEX (x : Z) : bool := ISDIGIT x || ISHEXCHAR x.
Definition HC2INT (x : Z) : Z :=
  if (97 <=? x) && (x <=? 102) then x - 97 + 10
  else if (65 <=? x) && (x <=? 70) then x - 65 + 10 else x - 48.

(** * Content length *)
Module content_length_body_parser.

Inductive PARSE_STATE :=
  | MESSAGE_BODY_PARSE
  | INCOMPLETE_MESSAGE_BODY_FORWARD
  | COMPLETE_MESSAGE_BODY_FORWARD.

Record t := ContentLengthBodyParser {
  content_length_ : Z;
  current_offset_ : Z;
  current_length_ : Z;
  parse_state_ : PARSE_STATE
}.

Definition reset (message_size : Z) : t :=
  ContentLengthBodyParser message_size 0 0 MESSAGE_BODY_PARSE.

Definition make : t := reset 0.

Definition transition_to_state (new_state : PARSE_STATE) (p : t) : t :=
  ContentLengthBodyParser p.(content_length_) p.(current_offset_) p.(current_length_) new_state.

Definition with_length (n : Z) (p : t) : t :=
  ContentLengthBodyParser p.(content_length_) p.(current_offset_) n p.(parse_state_).

Section parser.
Context {R : Type} `{i_body_receiver R}.

Definition result : Type := http.STATUS * read_write_buffer * t * R.

(** The two forwarding states, each of which ends the call. *)
Definition forward_incomplete (p : t) (r : R) (b : read_write_buffer) : res result :=
  '(r, b, return_value) ← set_body r b false;
  match return_value with
  | http.COMPLETE => Ok (http.INCOMPLETE, b, transition_to_state MESSAGE_BODY_PARSE p, r)
  | http.INCOMPLETE => Ok (http.WRITE_INCOMPLETE, b, p, r)
  | _ => Ok (return_value, b, p, r)
  end.

Definition forward_complete (p : t) (r : R) (b : read_write_buffer) : res result :=
  '(r, b, return_value) ← set_body r b true;
  match return_value with
  | http.INCOMPLETE => Ok (http.WRITE_INCOMPLETE, b, p, r)
  | _ => Ok (return_value, b, p, r)
  end.

(** The [while(!current_buffer_processed)]: parsing goes on to one of the
    forwarding states. *)
Fixpoint parse_loop (fuel : nat) (p : t) (r : R) (b : read_write_buffer) : res result :=
  match fuel with
  | O => NoFuel
  | S fuel =>
    match p.(parse_state_) with
    | MESSAGE_BODY_PARSE =>
        b ← rwb.set_write_position (rwb.get_process_position b) b;
        '(return_value, b, cur) ← parse_n_length_buffer b p.(current_length_) p.(content_length_);
        let p := with_length cur p in
        b ← rwb.set_write_end_position (rwb.get_process_position b) b;
        match return_value with
        | http.COMPLETE => parse_loop fuel (transition_to_state COMPLETE_MESSAGE_BODY_FORWARD p) r b
        | http.INCOMPLETE => parse_loop fuel (transition_to_state INCOMPLETE_MESSAGE_BODY_FORWARD p) r b
        | _ => parse_loop fuel p r b
        end
    | INCOMPLETE_MESSAGE_BODY_FORWARD => forward_incomplete p r b
    | COMPLETE_MESSAGE_BODY_FORWARD => forward_complete p r b
    end
  end.

Definition parse_content_length_body (p : t) (r : R) (b : read_write_buffer) : res result :=
  parse_loop 2 p r b.

End parser.
End content_length_body_parser.

(** * The end of the connection *)
Module end_connection_body_parser.

Definition parse_end_connection_body {R} `{i_body_receiver R} (r : R) (b : read_write_buffer)
    : res (http.STATUS * read_write_buffer * R) :=
  '(r, b, return_value) ← set_body r b false;
  Ok (match return_value with
      | http.COMPLETE => http.INCOMPLETE
      | http.INCOMPLETE => http.WRITE_INCOMPLETE
      | _ => return_value
      end, b, r).

End end_connection_body_parser.

(** * Chunks *)
Module chunked_body_parser.

Inductive STATE :=
  | PARSE_CHUNKSIZE
  | PARSE_CHUNK
  | PARSE_CHUNKSIZE_LF
  | FORWARD_CHUNKSIZE
  | FORWARD_INCOMPLETE_CHUNK
  | FORWARD_COMPLETE_CHUNK
  | PARSE_TRAILER_CR
  | PARSE_TRAILER_LF
  | FORWARD_TRAILER_CRLF.

Record t := ChunkedBodyParser {
  state_ : STATE;
  chunksize_ : Z;
  current_chunksize_length_ : Z;
  max_chunksize_length_ : Z;
  current_chunk_length_ : Z;
  num_chunk_size_spaces_ : Z
}.

Definition make (max_chunksize_length : Z) : t :=
  ChunkedBodyParser PARSE_CHUNKSIZE 0 0 max_chunksize_length 0 0.

Definition reset (p : t) : t := make p.(max_chunksize_length_).

Definition to (s : STATE) (p : t) : t :=
  ChunkedBodyParser s p.(chunksize_) p.(current_chunksize_length_) p.(max_chunksize_length_)
    p.(current_chunk_length_) p.(num_chunk_size_spaces_).

Definition with_size (size len spaces : Z) (p : t) : t :=
  ChunkedBodyParser p.(state_) size len p.(max_chunksize_length_) p.(current_chunk_length_) spaces.

Definition with_chunk_length (n : Z) (p : t) : t :=
  ChunkedBodyParser p.(state_) p.(chunksize_) p.(current_chunksize_length_)
    p.(max_chunksize_length_) n p.(num_chunk_size_spaces_).

(** The loop of [parse_chunk_size]; [n] bounds the bytes left. *)
Fixpoint parse_chunk_size_loop (n : nat) (p : t) (b : read_write_buffer)
    : res (http.STATUS * read_write_buffer * t) :=
  if rwb.get_working_length b <=? rwb.get_process_position b then Ok (http.INCOMPLETE, b, p)
  else
    match n with
    | O => NoFuel
    | S n =>
      ch ← rwb.at_ b (rwb.get_process_position b);
      if ISHEX ch && (p.(num_chunk_size_spaces_) =? 0) then
        if p.(max_chunksize_length_) <=? p.(current_chunksize_length_) then
          Ok (http.DATAOVERFLOW, b, with_size p.(chunksize_) p.(current_chunksize_length_) 0 p)
        else
          b ← rwb.set_process_position (u32 (rwb.get_process_position b + 1)) b;
          parse_chunk_size_loop n
            (with_size (u32 (16 * p.(chunksize_) + HC2INT ch))
               (u32 (p.(current_chunksize_length_) + 1)) p.(num_chunk_size_spaces_) p) b
      else if (ch =? 32) && (p.(num_chunk_size_spaces_) <? 256) then
        b ← rwb.set_process_position (u32 (rwb.get_process_position b + 1)) b;
        parse_chunk_size_loop n
          (with_size p.(chunksize_) p.(current_chunksize_length_)
             (u32 (p.(num_chunk_size_spaces_) + 1)) p) b
      else if ch =? CR then
        b ← rwb.set_process_position (u32 (rwb.get_process_position b + 1)) b;
        Ok (http.COMPLETE, b, with_size p.(chunksize_) p.(current_chunksize_length_) 0 p)
      else Ok (http.INVALID, b, with_size p.(chunksize_) p.(current_chunksize_length_) 0 p)
    end.

Definition parse_chunk_size (p : t) (b : read_write_buffer)
    : res (http.STATUS * read_write_buffer * t) :=
  parse_chunk_size_loop (Z.to_nat (rwb.get_working_length b)) p b.

Section parser.
Context {R : Type} `{i_body_receiver R}.

(** One turn of the [for(;;)]: [Some] status returns, [None] goes on. *)
Definition outcome : Type := option http.STATUS * read_write_buffer * t * R.

(** The write window is made empty at the process position. *)
Definition close_window (b : read_write_buffer) : res read_write_buffer :=
  b ← rwb.set_write_position (rwb.get_process_position b) b;
  rwb.set_write_end_position (rwb.get_process_position b) b.

Definition do_parse_chunksize (p : t) (r : R) (b : read_write_buffer) : res outcome :=
  '(status, b, p) ← parse_chunk_size p b;
  b ← close_window b;
  match status with
  | http.COMPLETE => Ok (None, b, to PARSE_CHUNKSIZE_LF p, r)
  | _ => Ok (Some status, b, p, r)
  end.

Definition do_parse_chunksize_lf (p : t) (r : R) (b : read_write_buffer) : res outcome :=
  '(status, b) ← parse_char_process b LF;
  match status with
  | http.COMPLETE =>
      r ← set_chunk_size r p.(chunksize_);
      Ok (None, b, to FORWARD_CHUNKSIZE p, r)
  | _ => Ok (Some status, b, p, r)
  end.

Definition do_forward_chunksize (p : t) (r : R) (b : read_write_buffer) : res outcome :=
  '(r, status) ← forward_chunk_size r;
  match status with
  | http.COMPLETE =>
      if 0 <? p.(chunksize_) then Ok (None, b, to PARSE_CHUNK p, r)
      else
        b ← rwb.set_write_position (rwb.get_process_position b) b;
        Ok (None, b, to PARSE_TRAILER_CR p, r)
  | http.INCOMPLETE => Ok (Some http.WRITE_INCOMPLETE, b, p, r)
  | _ => Ok (Some status, b, p, r)
  end.

Definition do_parse_chunk (p : t) (r : R) (b : read_write_buffer) : res outcome :=
  b ← rwb.set_write_position (rwb.get_process_position b) b;
  '(status, b, cur) ← parse_n_length_buffer b p.(current_chunk_length_) p.(chunksize_);
  let p := with_chunk_length cur p in
  b ← rwb.set_write_end_position (rwb.get_process_position b) b;
  match status with
  | http.COMPLETE => Ok (None, b, to FORWARD_COMPLETE_CHUNK p, r)
  | http.INCOMPLETE => Ok (None, b, to FORWARD_INCOMPLETE_CHUNK p, r)
  | _ => Ok (None, b, p, r)
  end.

Definition do_forward_incomplete (p : t) (r : R) (b : read_write_buffer) : res outcome :=
  '(r, b, status) ← set_body r b false;
  match status with
  | http.COMPLETE =>
      b ← rwb.set_write_end_position (rwb.get_working_length b) b;
      Ok (Some http.INCOMPLETE, b, to PARSE_CHUNK p, r)
  | http.INCOMPLETE => Ok (Some http.WRITE_INCOMPLETE, b, p, r)
  | _ => Ok (Some status, b, p, r)
  end.

Definition do_forward_complete (p : t) (r : R) (b : read_write_buffer) : res outcome :=
  '(r, b, status) ← set_body r b false;
  match status with
  | http.COMPLETE =>
      b ← rwb.set_write_end_position (rwb.get_working_length b) b;
      Ok (None, b, to PARSE_TRAILER_CR p, r)
  | http.INCOMPLETE => Ok (Some http.WRITE_INCOMPLETE, b, p, r)
  | _ => Ok (Some status, b, p, r)
  end.

Definition do_parse_trailer (c : Z) (next : STATE) (p : t) (r : R) (b : read_write_buffer)
    : res outcome :=
  '(status, b) ← parse_char_process b c;
  match status with
  | http.COMPLETE =>
      b ← rwb.set_write_position (rwb.get_process_position b) b;
      Ok (None, b, to next p, r)
  | _ => Ok (Some status, b, p, r)
  end.

Definition do_forward_trailer (p : t) (r : R) (b : read_write_buffer) : res outcome :=
  '(r, status) ← forward_chunk_trailer r;
  match status with
  | http.COMPLETE =>
      if p.(chunksize_) =? 0 then
        '(r, null_buffer, status) ← set_body r (rwb.make 0) true;
        Ok (Some http.COMPLETE, b, p, r)
      else Ok (None, b, reset (to PARSE_CHUNKSIZE p), r)
  | http.INCOMPLETE => Ok (Some http.WRITE_INCOMPLETE, b, p, r)
  | _ => Ok (Some status, b, p, r)
  end.

Definition parse_step (p : t) (r : R) (b : read_write_buffer) : res outcome :=
  match p.(state_) with
  | PARSE_CHUNKSIZE => do_parse_chunksize p r b
  | PARSE_CHUNKSIZE_LF => do_parse_chunksize_lf p r b
  | FORWARD_CHUNKSIZE => do_forward_chunksize p r b
  | PARSE_CHUNK => do_parse_chunk p r b
  | FORWARD_INCOMPLETE_CHUNK => do_forward_incomplete p r b
  | FORWARD_COMPLETE_CHUNK => do_forward_complete p r b
  | PARSE_TRAILER_CR => do_parse_trailer CR PARSE_TRAILER_LF p r b
  | PARSE_TRAILER_LF => do_parse_trailer LF FORWARD_TRAILER_CRLF p r b
  | FORWARD_TRAILER_CRLF => do_forward_trailer p r b
  end.

Fixpoint parse_loop (fuel : nat) (p : t) (r : R) (b : read_write_buffer)
    : res (http.STATUS * read_write_buffer * t * R) :=
  match fuel with
  | O => NoFuel
  | S fuel =>
    '(o, b, p, r) ← parse_step p r b;
    match o : option http.STATUS with
    | Some status => Ok (status, b, p, r)
    | None => parse_loop fuel p r b
    end
  end.

Definition parse_body (p : t) (r : R) (b : read_write_buffer)
    : res (http.STATUS * read_write_buffer * t * R) :=
  parse_loop (5 * Z.to_nat (rwb.get_working_length b) + 6) p r b.

End parser.
End chunked_body_parser.

(** * The choice *)
Module body_parser.

Record t := BodyParser {
  body_encoding_ : http.BODY_ENCODING;
  chunked_ : chunked_body_parser.t;
  content_length_ : content_length_body_parser.t
}.

Definition make (body_encoding : http.BODY_ENCODING) : t :=
  BodyParser body_encoding (chunked_body_parser.make CHUNK_SIZE_LENGTH)
    content_length_body_parser.make.

(** The size is an [int] that becomes an [unsigned int] again. *)
Definition reset (body_encoding : http.BODY_ENCODING) (message_size : Z) (p : t) : t :=
  BodyParser body_encoding (chunked_body_parser.reset p.(chunked_))
    (content_length_body_parser.reset (u32 (s32 message_size))).

Definition encoding (p : t) : http.BODY_ENCODING := p.(body_encoding_).

Definition parse_body {R} `{i_body_receiver R} (p : t) (r : R) (b : read_write_buffer)
    : res (http.STATUS * read_write_buffer * t * R) :=
  match p.(body_encoding_) with
  | http.NONE => Ok (http.COMPLETE, b, p, r)
  | http.CHUNKED =>
      '(st, b, c, r) ← chunked_body_parser.parse_body p.(chunked_) r b;
      Ok (st, b, BodyParser p.(body_encoding_) c p.(content_length_), r)
  | http.END_CONNECTION =>
      '(st, b, r) ← end_connection_body_parser.parse_end_connection_body r b;
      Ok (st, b, p, r)
  | http.CONTENT_LENGTH =>
      '(st, b, c, r) ← content_length_body_parser.parse_content_length_body p.(content_length_) r b;
      Ok (st, b, BodyParser p.(body_encoding_) p.(chunked_) c, r)
  end.

End body_parser.

(** * Runs of a body parser over the buffers of a connection *)

(** The bytes a call took from a buffer. *)
Definition processed (b b' : read_write_buffer) : list Z :=
  slice b b.(process_position_) b'.(process_position_).

Section runs.
Context {P R : Type} `{BodyReceiver R}.
Variable parse : P -> R -> read_write_buffer -> res (http.STATUS * read_write_buffer * P * R).

(** The calls a connection makes: after [INCOMPLETE] the parser is given the
    next buffer, after [WRITE_INCOMPLETE] the same buffer again.  The list is
    what all calls together took from the buffers. *)
Inductive run (p0 : P) (r0 : R) :
    http.STATUS -> read_write_buffer -> P -> R -> list Z -> Prop :=
  | run_start b : wf b -> run p0 r0 http.INCOMPLETE b p0 r0 []
  | run_next b1 p r consumed b st b' p' r' :
      run p0 r0 http.INCOMPLETE b1 p r consumed -> wf b ->
      parse p r b = Ok (st, b', p', r') ->
      run p0 r0 st b' p' r' (consumed ++ processed b b')
  | run_retry b p r consumed st b' p' r' :
      run p0 r0 http.WRITE_INCOMPLETE b p r consumed ->
      parse p r b = Ok (st, b', p', r') ->
      run p0 r0 st b' p' r' (consumed ++ processed b b').
End runs.

Lemma processed_same b b' :
  b'.(process_position_) = b.(process_position_) -> processed b b' = [].
Proof. intros E. unfold processed. rewrite E. apply slice_nil. lia. Qed.

(** The process position moved by [k], as the front of what was left. *)
Lemma processed_take b (k : Z) :
  wf b -> 0 <= k <= b.(working_length_) - b.(process_position_) ->
  slice b b.(process_position_) (b.(process_position_) + k) = take (Z.to_nat k) (unprocessed b) /\
  raw_size (slice b b.(process_position_) (b.(process_position_) + k)) = k.
Proof.
  intros Hwf Hk. pose proof Hwf as []. split.
  - rewrite slice_content by (done || lia). unfold unprocessed. f_equal. lia.
  - unfold raw_size. rewrite length_slice by (done || lia). lia.
Qed.

Lemma unprocessed_length b :
  wf b -> raw_size (unprocessed b) = b.(working_length_) - b.(process_position_).
Proof.
  intros Hwf. pose proof (length_content b Hwf). pose proof Hwf as [].
  unfold unprocessed, raw_size. rewrite length_drop. lia.
Qed.

(** A buffer whose process position moved on. *)
Record advances (b b' : read_write_buffer) : Prop := {
  adv_vector : b'.(p_buffer_) = b.(p_buffer_);
  adv_working : b'.(working_length_) = b.(working_length_);
  adv_process : b.(process_position_) <= b'.(process_position_) <= b.(working_length_)
}.

Lemma advances_refl b : wf b -> advances b b.
Proof. intros []. constructor; try done. lia. Qed.

Lemma processed_trans b b1 b2 :
  wf b -> advances b b1 -> advances b1 b2 ->
  processed b b2 = processed b b1 ++ processed b1 b2 /\ advances b b2.
Proof.
  intros Hwf [V1 W1 P1] [V2 W2 P2]. pose proof Hwf as []. split; [|constructor; congruence || lia].
  unfold processed. rewrite <- (slice_app b (process_position_ b) (process_position_ b1)) by (done || lia).
  f_equal. unfold slice, raw_of. by rewrite V1.
Qed.

(** What a call leaves behind, whatever it answers. *)
Record left_ok {R} `{BodyReceiver R} (r r' : R) (b b' : read_write_buffer) : Prop := {
  lo_wf : wf b';
  lo_receiver : receiver_ok r';
  lo_received : received r `prefix_of` received r';
  lo_advances : advances b b'
}.

Lemma left_trans {R} `{BodyReceiver R} (r r1 r2 : R) b b1 b2 :
  wf b -> left_ok r r1 b b1 -> left_ok r1 r2 b1 b2 -> left_ok r r2 b b2.
Proof.
  intros Hwf [_ _ Hp Ha] [Hwf2 Hok2 Hp2 Ha2]. constructor; [done|done|by etransitivity|].
  by apply (processed_trans b b1 b2).
Qed.

Lemma left_same {R} `{BodyReceiver R} (r r' : R) b l :
  wf b -> receiver_ok r' -> received r' = received r ++ l -> left_ok r r' b b.
Proof.
  intros Hwf Hok Hr. constructor; [done|done|rewrite Hr; by apply prefix_app_r|by apply advances_refl].
Qed.

Lemma left_moved {R} `{BodyReceiver R} (r : R) b b' :
  receiver_ok r -> wf b' -> advances b b' -> left_ok r r b b'.
Proof. by constructor. Qed.

(** * The content-length parser *)
Section content_length.
Context {R : Type} `{BodyReceiver R}.
Import content_length_body_parser.

(** Between the turns of the loop: [consumed] was taken from the buffers,
    [base] was received before. *)
Record cl_inv (n : Z) (base : list Z) (p : t) (r : R) (b : read_write_buffer) (consumed : list Z)
    : Prop := {
  cl_wf : wf b;
  cl_ok : receiver_ok r;
  cl_window : b.(write_position_) <= b.(write_end_position_);
  cl_n : p.(content_length_) = n;
  cl_cur : p.(current_length_) = raw_size consumed;
  cl_le : raw_size consumed <= n;
  cl_state : match p.(parse_state_) with
    | MESSAGE_BODY_PARSE => received r = base ++ consumed
    | INCOMPLETE_MESSAGE_BODY_FORWARD =>
        received r ++ window b = base ++ consumed /\ raw_size consumed < n /\ unprocessed b = []
    | COMPLETE_MESSAGE_BODY_FORWARD =>
        received r ++ window b = base ++ consumed /\ raw_size consumed = n
    end
}.

Lemma written_left (r r' : R) b p l :
  receiver_ok r' -> wf b -> wf (written_to p b) -> received r' = received r ++ l ->
  left_ok r r' b (written_to p b).
Proof.
  intros Hr [] Hwf' Hl. constructor; [done|done|rewrite Hl; by apply prefix_app_r|].
  constructor; try done. simpl. lia.
Qed.

(** What a status says. *)
Definition cl_result (n : Z) (base : list Z) (st : http.STATUS) (p : t) (r : R)
    (b : read_write_buffer) (consumed : list Z) : Prop :=
  received r `prefix_of` base ++ consumed /\ raw_size consumed <= n /\
  match st with
  | http.COMPLETE => received r = base ++ consumed /\ raw_size consumed = n
  | http.INCOMPLETE =>
      cl_inv n base p r b consumed /\ p.(parse_state_) = MESSAGE_BODY_PARSE /\
      raw_size consumed < n /\ unprocessed b = []
  | _ => cl_inv n base p r b consumed /\ p.(parse_state_) <> MESSAGE_BODY_PARSE
  end.

Lemma received_prefix (r r' : R) b base consumed (k : nat) :
  received r ++ window b = base ++ consumed ->
  received r' = received r ++ take k (window b) ->
  received r' `prefix_of` base ++ consumed.
Proof.
  intros <- ->. rewrite <- (take_drop k (window b)) at 2. rewrite app_assoc. by apply prefix_app_r.
Qed.

Lemma forward_complete_ok n base p r b consumed :
  cl_inv n base p r b consumed -> p.(parse_state_) = COMPLETE_MESSAGE_BODY_FORWARD ->
  exists st b' p' r', forward_complete p r b = Ok (st, b', p', r') /\
    cl_result n base st p' r' b' consumed /\ b'.(process_position_) = b.(process_position_) /\
    left_ok r r' b b'.
Proof.
  intros [Hwf Hok Hw Hn Hc Hle Hs] E. rewrite E in Hs. destruct Hs as [Hr Hl].
  destruct (set_body_takes r b true Hok Hwf Hw) as (r' & k & st & Hset & Hk & Hrec & Hst & Hne & Hok' & _).
  unfold forward_complete. rewrite Hset, bind_ok.
  destruct (window_written b k Hwf Hw Hk) as (Hwf' & Hwin & Hle').
  pose proof (written_left r r' b _ _ Hok' Hwf Hwf' Hrec) as Hleft.
  pose proof (received_prefix _ _ _ _ _ _ Hr Hrec) as Hpre.
  destruct st; try done; do 4 eexists; (split; [reflexivity|]); (split; [|done]);
    (split; [done|]); (split; [done|]); try done.
  1: { rewrite (Hst eq_refl), firstn_all in Hrec. by rewrite Hrec, Hr. }
  all: split; [|by rewrite E]; constructor; try done; rewrite E; split; [|done];
    by rewrite Hrec, Hwin, <- app_assoc, take_drop.
Qed.

Lemma forward_incomplete_ok n base p r b consumed :
  cl_inv n base p r b consumed -> p.(parse_state_) = INCOMPLETE_MESSAGE_BODY_FORWARD ->
  exists st b' p' r', forward_incomplete p r b = Ok (st, b', p', r') /\
    cl_result n base st p' r' b' consumed /\ b'.(process_position_) = b.(process_position_) /\
    left_ok r r' b b'.
Proof.
  intros [Hwf Hok Hw Hn Hc Hle Hs] E. rewrite E in Hs. destruct Hs as (Hr & Hl & Hu).
  destruct (set_body_takes r b false Hok Hwf Hw) as (r' & k & st & Hset & Hk & Hrec & Hst & Hne & Hok' & Hsl & Htl).
  unfold forward_incomplete. rewrite Hset, bind_ok.
  destruct (window_written b k Hwf Hw Hk) as (Hwf' & Hwin & Hle').
  pose proof (written_left r r' b _ _ Hok' Hwf Hwf' Hrec) as Hleft.
  pose proof (received_prefix _ _ _ _ _ _ Hr Hrec) as Hpre.
  destruct st; try done; do 4 eexists; (split; [reflexivity|]); (split; [|done]);
    (split; [done|]); (split; [done|]); try done.
  1: { rewrite (Hst eq_refl), firstn_all in Hrec. split; [|done].
       constructor; try done. simpl. by rewrite Hrec, Hr. }
  all: split; [|by rewrite E]; constructor; try done; rewrite E; split; [|done];
    by rewrite Hrec, Hwin, <- app_assoc, take_drop.
Qed.

Lemma content_length_call n base p r b consumed :
  n < 2 ^ 32 -> cl_inv n base p r b consumed ->
  exists st b' p' r', parse_content_length_body p r b = Ok (st, b', p', r') /\ left_ok r r' b b' /\
    cl_result n base st p' r' b' (consumed ++ processed b b').
Proof.
  intros Hn Hinv. unfold parse_content_length_body. cbn [parse_loop].
  destruct (parse_state_ p) eqn:Es.
  2: { destruct (forward_incomplete_ok _ _ _ _ _ _ Hinv Es) as (st & b' & p' & r' & F1 & F2 & F3 & F4).
       exists st, b', p', r'. by rewrite processed_same, app_nil_r. }
  2: { destruct (forward_complete_ok _ _ _ _ _ _ Hinv Es) as (st & b' & p' & r' & F1 & F2 & F3 & F4).
       exists st, b', p', r'. by rewrite processed_same, app_nil_r. }
  destruct Hinv as [Hwf Hok Hw Hcn Hc Hle Hs]. rewrite Es in Hs. pose proof Hwf as [].
  unfold rwb.get_process_position. rewrite set_write_position_ok, bind_ok by lia.
  set (b1 := RWB _ _ _ _ _ _).
  assert (wf b1) as Hwf1 by (apply wf_positions; done).
  pose proof (raw_size_nonneg consumed).
  rewrite (parse_n_length_ok b1 _ _ Hwf1) by lia.
  set (k := Z.min _ _). rewrite bind_ok.
  assert (0 <= k <= working_length_ b - process_position_ b) as Hk
    by (unfold k; change (working_length_ b1) with (working_length_ b);
        change (process_position_ b1) with (process_position_ b); lia).
  assert (k <= n - raw_size consumed) as Hk2 by (unfold k; lia).
  destruct (processed_take b k Hwf Hk) as [Hpt Hps].
  unfold moved_to. cbn [process_position_ b1 p_buffer_ b_using_static_buffer_ working_length_
    write_end_position_ write_position_].
  rewrite set_write_end_position_ok, bind_ok by (simpl; lia).
  cbn [process_position_ b1 p_buffer_ b_using_static_buffer_ working_length_
    write_end_position_ write_position_].
  set (b2 := RWB _ _ _ _ _ _).
  assert (wf b2) as Hwf2 by (apply wf_positions; try done; lia).
  assert (window b2 = processed b b2) as Hwin by reflexivity.
  assert (advances b b2) as Hadv by (constructor; [done|done|simpl; lia]).
  change (slice b (process_position_ b) (process_position_ b + k)) with (processed b b2) in Hpt, Hps.
  rewrite Hcn, Hc.
  assert (forall st', (raw_size consumed + k < n -> st' = INCOMPLETE_MESSAGE_BODY_FORWARD) ->
            (raw_size consumed + k = n -> st' = COMPLETE_MESSAGE_BODY_FORWARD) ->
            cl_inv n base (transition_to_state st' (with_length (raw_size consumed + k) p)) r b2
              (consumed ++ processed b b2)) as Hinv2.
  { intros st' F1 F2. constructor; simpl; rewrite ?raw_size_app, ?Hps; try done; try lia.
    destruct (Z.eq_dec (raw_size consumed + k) n) as [E|E].
    - rewrite (F2 E), Hwin, Hs, <- app_assoc. done.
    - rewrite F1 by lia. rewrite Hwin, Hs, <- app_assoc. split; [done|]. split; [lia|].
      apply nil_length_inv. pose proof (unprocessed_length b2 Hwf2) as Hul.
      unfold raw_size in Hul. simpl in Hul. unfold k in *. simpl in *. lia. }
  destruct (Z.ltb_spec (raw_size consumed + k) n).
  - destruct (forward_incomplete_ok _ _ _ _ _ _ (Hinv2 INCOMPLETE_MESSAGE_BODY_FORWARD
      ltac:(done) ltac:(lia)) eq_refl) as (st & b' & p' & r' & F1 & F2 & F3 & F4).
    exists st, b', p', r'. split; [done|]. split; [by apply (left_trans _ r _ b b2); [|apply left_moved|]|].
    unfold processed in *. by rewrite F3.
  - destruct (forward_complete_ok _ _ _ _ _ _ (Hinv2 COMPLETE_MESSAGE_BODY_FORWARD
      ltac:(lia) ltac:(done)) eq_refl) as (st & b' & p' & r' & F1 & F2 & F3 & F4).
    exists st, b', p', r'. split; [done|]. split; [by apply (left_trans _ r _ b b2); [|apply left_moved|]|].
    unfold processed in *. by rewrite F3.
Qed.

(** After [INCOMPLETE] any buffer may follow: its write window is not read. *)
Lemma content_length_next n base p r b1 b consumed :
  n < 2 ^ 32 -> cl_inv n base p r b1 consumed -> p.(parse_state_) = MESSAGE_BODY_PARSE -> wf b ->
  exists st b' p' r', parse_content_length_body p r b = Ok (st, b', p', r') /\ left_ok r r' b b' /\
    cl_result n base st p' r' b' (consumed ++ processed b b').
Proof.
  intros Hn [Hwf1 Hok Hw1 Hcn Hc Hle Hs] Es Hwf.
  assert (cl_inv n base p r (written_to 0 b) consumed) as Hinv.
  { constructor; try done; [apply written_to_wf; [done|destruct Hwf; lia]|simpl; destruct Hwf; lia|].
    rewrite Es in *. done. }
  destruct (content_length_call n _ _ _ _ _ Hn Hinv) as (st & b' & p' & r' & Hp & [Hl1 Hl2 Hl3 []] & Hres).
  exists st, b', p', r'. split; [|split; [by constructor|done]]. rewrite <- Hp. unfold parse_content_length_body.
  cbn [parse_loop]. by rewrite Es.
Qed.

Lemma content_length_start n (r0 : R) b :
  0 <= n -> receiver_ok r0 -> wf b -> cl_inv n (received r0) (reset n) r0 (written_to 0 b) [].
Proof.
  intros Hn Hok Hwf. constructor; try done; [apply written_to_wf; [done|destruct Hwf; lia]
    |simpl; destruct Hwf; lia|]. simpl. by rewrite app_nil_r.
Qed.

Lemma content_length_run n r0 st b p r consumed :
  0 <= n < 2 ^ 32 -> receiver_ok r0 ->
  run parse_content_length_body (reset n) r0 st b p r consumed ->
  st = http.INCOMPLETE /\ p = reset n /\ r = r0 /\ consumed = [] /\ wf b \/
  cl_result n (received r0) st p r b consumed.
Proof.
  intros Hn Hok. induction 1 as [b Hwf|b1 p r consumed b st b' p' r' _ IH Hwf Hp
    |b p r consumed st b' p' r' _ IH Hp]; [by left|right..].
  - destruct IH as [(_ & -> & -> & -> & Hwf1)|(_ & _ & Hinv & Es & _)].
    + destruct (content_length_next n _ _ _ _ b _ (proj2 Hn)
        (content_length_start n r0 b1 (proj1 Hn) Hok Hwf1) eq_refl Hwf) as (? & ? & ? & ? & Hp' & _ & Hres).
      rewrite Hp in Hp'. by injection Hp' as <- <- <- <-.
    + destruct (content_length_next n _ _ _ _ b _ (proj2 Hn) Hinv Es Hwf) as (? & ? & ? & ? & Hp' & _ & Hres).
      rewrite Hp in Hp'. by injection Hp' as <- <- <- <-.
  - destruct IH as [(? & _)|(_ & _ & Hinv & _)]; [done|].
    destruct (content_length_call n _ _ _ _ _ (proj2 Hn) Hinv) as (? & ? & ? & ? & Hp' & _ & Hres).
    rewrite Hp in Hp'. by injection Hp' as <- <- <- <-.
Qed.

Lemma content_length_returns n r0 st b p r consumed :
  0 <= n < 2 ^ 32 -> receiver_ok r0 ->
  run parse_content_length_body (reset n) r0 st b p r consumed ->
  (st = http.INCOMPLETE -> forall b', wf b' -> exists x, parse_content_length_body p r b' = Ok x) /\
  (st = http.WRITE_INCOMPLETE -> exists x, parse_content_length_body p r b = Ok x).
Proof.
  intros Hn Hok Hrun. apply content_length_run in Hrun; [|done..]. split; intros ->.
  - intros b' Hwf. destruct Hrun as [(_ & -> & -> & -> & Hwf1)|(_ & _ & Hinv & Es & _)].
    + destruct (content_length_next n _ _ _ _ b' _ (proj2 Hn)
        (content_length_start n r0 b (proj1 Hn) Hok Hwf1) eq_refl Hwf) as (? & ? & ? & ? & Hp' & _). eauto.
    + destruct (content_length_next n _ _ _ _ b' _ (proj2 Hn) Hinv Es Hwf) as (? & ? & ? & ? & Hp' & _).
      eauto.
  - destruct Hrun as [(? & _)|(_ & _ & Hinv & _)]; [done|].
    destruct (content_length_call n _ _ _ _ _ (proj2 Hn) Hinv) as (? & ? & ? & ? & Hp' & _). eauto.
Qed.

End content_length.

(** * The chunk size *)
Section chunk_size.
Import chunked_body_parser.

(** [parse_chunk_size] as a recursion over the bytes that are left: the
    status, the bytes consumed and the parser. *)
Fixpoint scan_size (p : t) (l : list Z) : http.STATUS * nat * t :=
  match l with
  | [] => (http.INCOMPLETE, 0%nat, p)
  | ch :: l =>
      if ISHEX ch && (p.(num_chunk_size_spaces_) =? 0) then
        if p.(max_chunksize_length_) <=? p.(current_chunksize_length_) then
          (http.DATAOVERFLOW, 0%nat, with_size p.(chunksize_) p.(current_chunksize_length_) 0 p)
        else
          let '(st, k, p) := scan_size (with_size (u32 (16 * p.(chunksize_) + HC2INT ch))
            (u32 (p.(current_chunksize_length_) + 1)) p.(num_chunk_size_spaces_) p) l in
          (st, S k, p)
      else if (ch =? 32) && (p.(num_chunk_size_spaces_) <? 256) then
        let '(st, k, p) := scan_size (with_size p.(chunksize_) p.(current_chunksize_length_)
          (u32 (p.(num_chunk_size_spaces_) + 1)) p) l in
        (st, S k, p)
      else if ch =? CR then
        (http.COMPLETE, 1%nat, with_size p.(chunksize_) p.(current_chunksize_length_) 0 p)
      else (http.INVALID, 0%nat, with_size p.(chunksize_) p.(current_chunksize_length_) 0 p)
  end.

Lemma unprocessed_cons b c l :
  wf b -> unprocessed b = c :: l ->
  b.(process_position_) < b.(working_length_) /\ rwb.at_ b b.(process_position_) = Ok c /\
  unprocessed (moved_to (b.(process_position_) + 1) b) = l /\
  wf (moved_to (b.(process_position_) + 1) b).
Proof.
  intros Hwf Hu. pose proof Hwf as []. unfold unprocessed in Hu.
  destruct (at_drop b _ c l Hwf Hu) as (Hat & Hd & Hlt). rewrite Z2Nat.id in Hat, Hlt by lia.
  split; [done|]. split; [done|]. split; [|apply moved_to_wf; [done|lia]].
  unfold unprocessed. change (content (moved_to _ b)) with (content b). simpl.
  replace (Z.to_nat (process_position_ b + 1)) with (S (Z.to_nat (process_position_ b))) by lia.
  done.
Qed.

Lemma moved_to_moved n m b : moved_to n (moved_to m b) = moved_to n b.
Proof. done. Qed.

Lemma moved_to_same b : moved_to b.(process_position_) b = b.
Proof. by destruct b. Qed.

Lemma parse_chunk_size_loop_scan l :
  forall n p b, wf b -> unprocessed b = l -> (length l <= n)%nat ->
  parse_chunk_size_loop n p b =
  let '(st, k, p) := scan_size p l in
  Ok (st, moved_to (b.(process_position_) + Z.of_nat k) b, p).
Proof.
  induction l as [|ch l IH]; intros n p b Hwf Hu Hn; pose proof (unprocessed_length b Hwf) as Hl;
    rewrite Hu in Hl; pose proof Hwf as [].
  - unfold raw_size in Hl. simpl in Hl. destruct n; cbn [parse_chunk_size_loop];
      unfold rwb.get_working_length, rwb.get_process_position;
      replace (_ <=? _) with true by lia; simpl; by rewrite Z.add_0_r, moved_to_same.
  - destruct n as [|n]; [simpl in Hn; lia|]. simpl in Hn.
    destruct (unprocessed_cons b ch l Hwf Hu) as (Hlt & Hat & Hu' & Hwf').
    cbn [parse_chunk_size_loop scan_size]. unfold rwb.get_working_length, rwb.get_process_position.
    replace (_ <=? _) with false by lia. rewrite Hat, bind_ok.
    rewrite (u32_small (process_position_ b + 1)), set_process_position_ok by lia.
    fold (moved_to (process_position_ b + 1) b).
    destruct (ISHEX ch && _).
    { destruct (_ <=? _); [simpl; by rewrite Z.add_0_r, moved_to_same|]. rewrite bind_ok.
      rewrite IH by (done || lia). destruct (scan_size _ l) as [[st k] p2].
      rewrite moved_to_moved. cbn [process_position_ moved_to].
      by replace (process_position_ b + 1 + Z.of_nat k) with (process_position_ b + Z.of_nat (S k))
        by lia. }
    destruct (_ && _).
    { rewrite bind_ok, IH by (done || lia). destruct (scan_size _ l) as [[st k] p2].
      rewrite moved_to_moved. cbn [process_position_ moved_to].
      by replace (process_position_ b + 1 + Z.of_nat k) with (process_position_ b + Z.of_nat (S k))
        by lia. }
    destruct (ch =? CR); [done|]. simpl. by rewrite Z.add_0_r, moved_to_same.
Qed.

Lemma parse_chunk_size_scan p b :
  wf b ->
  parse_chunk_size p b =
  let '(st, k, p) := scan_size p (unprocessed b) in
  Ok (st, moved_to (b.(process_position_) + Z.of_nat k) b, p).
Proof.
  intros Hwf. pose proof (unprocessed_length b Hwf). pose proof Hwf as [].
  apply parse_chunk_size_loop_scan; [done|done|].
  unfold rwb.get_working_length, raw_size in *. lia.
Qed.

(** The value of hexadecimal digits. *)
Definition hexval (ds : list Z) : Z := fold_left (fun acc c => 16 * acc + HC2INT c) ds 0.

Lemma hexval_snoc ds c : hexval (ds ++ [c]) = 16 * hexval ds + HC2INT c.
Proof. unfold hexval. by rewrite fold_left_app. Qed.

Lemma HC2INT_range c : ISHEX c = true -> 0 <= HC2INT c < 16.
Proof.
  unfold ISHEX, ISHEXCHAR, ISDIGIT, HC2INT. intros Hc.
  repeat case_match; breflect; lia.
Qed.

Lemma hexval_range ds :
  Forall (fun c => ISHEX c = true) ds -> 0 <= hexval ds < 16 ^ raw_size ds.
Proof.
  induction ds as [|c ds IH] using rev_ind; intros Hds; [done|].
  apply Forall_app in Hds as [Hds Hc]. inversion Hc as [|? ? Hx _]; subst.
  specialize (IH Hds). pose proof (HC2INT_range c Hx). pose proof (raw_size_nonneg ds).
  rewrite hexval_snoc, raw_size_app. change (raw_size [c]) with 1.
  rewrite Z.pow_add_r by lia. lia.
Qed.

(** A chunk size that is being read: the digits, then the spaces. *)
Record size_partial (max : Z) (p : t) (ds : list Z) (sp : nat) : Prop := {
  sz_hex : Forall (fun c => ISHEX c = true) ds;
  sz_len : raw_size ds <= max;
  sz_sp : (sp <= 256)%nat;
  sz_max : p.(max_chunksize_length_) = max;
  sz_value : p.(chunksize_) = hexval ds;
  sz_cur : p.(current_chunksize_length_) = raw_size ds;
  sz_spaces : p.(num_chunk_size_spaces_) = Z.of_nat sp
}.

(** A line that is refused leaves the digits, and no spaces. *)
Lemma size_refused max p ds sp :
  size_partial max p ds sp ->
  exists ds', size_partial max (with_size p.(chunksize_) p.(current_chunksize_length_) 0 p) ds' 0.
Proof. intros []. exists ds. constructor; try done. lia. Qed.

Record same_chunk (p p' : t) : Prop := {
  sc_state : p'.(state_) = p.(state_);
  sc_max : p'.(max_chunksize_length_) = p.(max_chunksize_length_);
  sc_chunk : p'.(current_chunk_length_) = p.(current_chunk_length_)
}.

Definition spaces (sp : nat) : list Z := replicate sp SP.

Definition scan_size_post (max : Z) (p : t) (read l : list Z) (x : http.STATUS * nat * t) : Prop :=
  let '(st, k, p') := x in
  (k <= length l)%nat /\ same_chunk p p' /\
  match st with
  | http.INCOMPLETE => k = length l /\
      exists ds sp, size_partial max p' ds sp /\ read ++ l = ds ++ spaces sp
  | http.COMPLETE =>
      exists ds sp, Forall (fun c => ISHEX c = true) ds /\ raw_size ds <= max /\ (sp <= 256)%nat /\
        p'.(chunksize_) = hexval ds /\ read ++ take k l = ds ++ spaces sp ++ [CR]
  | http.INVALID | http.DATAOVERFLOW => exists ds, size_partial max p' ds 0
  | _ => False
  end.

Lemma scan_size_post_cons max p p1 read c l x :
  same_chunk p p1 -> scan_size_post max p1 (read ++ [c]) l x ->
  scan_size_post max p read (c :: l) (let '(st, k, p') := x in (st, S k, p')).
Proof.
  destruct x as [[st k] p']. intros [] (Hk & [] & Hst).
  split; [simpl; lia|]. split; [constructor; congruence|].
  destruct st; try done.
  - destruct Hst as (ds & sp & ? & ? & ? & ? & E). exists ds, sp. simpl.
    rewrite <- app_assoc in E. done.
  - destruct Hst as (-> & ds & sp & ? & E). split; [done|]. exists ds, sp.
    rewrite <- app_assoc in E. done.
Qed.

Lemma scan_size_sound max l :
  0 <= max <= 8 -> forall p ds sp, size_partial max p ds sp ->
  scan_size_post max p (ds ++ spaces sp) l (scan_size p l).
Proof.
  intros Hmax. induction l as [|ch l IH]; intros p ds sp Hp; pose proof Hp as [].
  { cbn [scan_size]. split; [done|]. split; [done|]. split; [done|]. exists ds, sp.
    by rewrite app_nil_r. }
  cbn [scan_size]. pose proof (raw_size_nonneg ds). pose proof (hexval_range ds (sz_hex _ _ _ _ Hp)).
  destruct (ISHEX ch) eqn:Eh; cbn [andb].
  - destruct (Z.eqb_spec (num_chunk_size_spaces_ p) 0) as [E0|].
    + destruct (Z.leb_spec (max_chunksize_length_ p) (current_chunksize_length_ p));
        [split; [simpl; lia|]; split; [done|by eapply size_refused]|].
      assert (sp = 0%nat) as -> by lia. pose proof (HC2INT_range ch Eh).
      eapply scan_size_post_cons; [|change (spaces 0) with (@nil Z); rewrite app_nil_r;
        rewrite <- (app_nil_r (ds ++ [ch])); apply (IH _ (ds ++ [ch]) 0%nat)]; [done|].
      assert (16 ^ raw_size ds <= 16 ^ 7) by (apply Z.pow_le_mono_r; lia).
      constructor; simpl; try done; try lia.
      * apply Forall_app. auto.
      * rewrite raw_size_app. change (raw_size [ch]) with 1. lia.
      * rewrite u32_small, hexval_snoc by lia. congruence.
      * rewrite u32_small by lia. rewrite raw_size_app. change (raw_size [ch]) with 1. lia.
    + assert ((ch =? 32) = false) as ->.
      { apply Z.eqb_neq. intros ->. done. }
      cbn [andb]. assert ((ch =? CR) = false) as -> by (apply Z.eqb_neq; intros ->; done).
      split; [simpl; lia|]. split; [done|by eapply size_refused].
  - destruct (Z.eqb_spec ch 32) as [->|]; cbn [andb].
    + destruct (Z.ltb_spec (num_chunk_size_spaces_ p) 256); [|split; [simpl; lia|]; split; [done|by eapply size_refused]].
      eapply scan_size_post_cons; [|rewrite <- app_assoc;
        replace (spaces sp ++ [32]) with (spaces (S sp))
          by (unfold spaces; by rewrite replicate_S_end);
        apply IH]; [done|].
      constructor; simpl; try done; try lia. rewrite u32_small by lia. lia.
    + destruct (Z.eqb_spec ch CR) as [->|]; [|split; [simpl; lia|]; split; [done|by eapply size_refused]].
      split; [simpl; lia|]. split; [done|]. exists ds, sp. simpl.
      rewrite <- app_assoc. done.
Qed.

(** Digits ended by CR are read to their value. *)
Lemma scan_size_digits max ds2 l :
  0 <= max <= 8 -> forall p ds, size_partial max p ds 0 ->
  Forall (fun c => ISHEX c = true) ds2 -> raw_size (ds ++ ds2) <= max ->
  scan_size p (ds2 ++ CR :: l) =
  (http.COMPLETE, S (length ds2), with_size (hexval (ds ++ ds2)) (raw_size (ds ++ ds2)) 0 p).
Proof.
  intros Hmax. induction ds2 as [|ch ds2 IH]; intros p ds Hp Hds Hlen; pose proof Hp as [].
  - cbn [app scan_size length]. rewrite app_nil_r. change (ISHEX CR) with false. cbn [andb].
    change (CR =? 32) with false. cbn [andb]. rewrite Z.eqb_refl. by rewrite sz_value0, sz_cur0.
  - inversion Hds as [|? ? Hx Hds']; subst. cbn [app scan_size length]. rewrite Hx, sz_spaces0.
    cbn [andb]. change (Z.of_nat 0 =? 0) with true. cbn iota.
    pose proof (raw_size_nonneg ds). pose proof (raw_size_nonneg ds2).
    pose proof (hexval_range ds (sz_hex _ _ _ _ Hp)). pose proof (HC2INT_range ch Hx).
    rewrite raw_size_app, raw_size_cons in Hlen.
    replace (_ <=? _) with false by (rewrite sz_cur0; lia).
    assert (16 ^ raw_size ds <= 16 ^ 7) by (apply Z.pow_le_mono_r; lia).
    rewrite (IH _ (ds ++ [ch])); [|constructor|done|].
    + rewrite <- app_assoc. simpl. done.
    + apply Forall_app. auto.
    + rewrite raw_size_app. change (raw_size [ch]) with 1. lia.
    + lia.
    + done.
    + simpl. rewrite u32_small, hexval_snoc by lia. congruence.
    + simpl. rewrite u32_small by lia. rewrite raw_size_app. change (raw_size [ch]) with 1. lia.
    + done.
    + rewrite !raw_size_app. change (raw_size [ch]) with 1. lia.
Qed.

End chunk_size.

(** * The grammar of a chunked body *)
Section grammar.
Variable max : Z.

(** A chunk-size line: digits, the spaces that are put up with, CR LF. *)
Definition size_line (n : Z) (line : list Z) : Prop :=
  exists ds sp, Forall (fun c => ISHEX c = true) ds /\ raw_size ds <= max /\ (sp <= 256)%nat /\
    n = hexval ds /\ line = ds ++ spaces sp ++ [CR; LF].

(** Whole chunks, and the data of each. *)
Inductive chunks : list Z -> list (list Z) -> Prop :=
  | chunks_nil : chunks [] []
  | chunks_snoc s ds line data :
      chunks s ds -> size_line (raw_size data) line -> 0 < raw_size data ->
      chunks (s ++ line ++ data ++ [CR; LF]) (ds ++ [data]).

(** The chunks, the last chunk of size 0 and the CR LF after it. *)
Definition chunked_body (s : list Z) (ds : list (list Z)) : Prop :=
  exists s0 line, chunks s0 ds /\ size_line 0 line /\ s = s0 ++ line ++ [CR; LF].

End grammar.

(** What a receiver puts out for chunks, and for a whole body. *)
Definition put_out {R} `{BodyReceiver R} (ds : list (list Z)) : list Z :=
  concat (map (fun data => size_bytes (raw_size data) ++ data ++ trailer_bytes) ds).

Lemma put_out_snoc {R} `{BodyReceiver R} ds data :
  put_out ds ++ size_bytes (raw_size data) ++ data ++ trailer_bytes = put_out (ds ++ [data]).
Proof. unfold put_out. rewrite map_app, concat_app. simpl. by rewrite app_nil_r. Qed.

Section chunked.
Context {R : Type} `{BodyReceiver R}.
Import chunked_body_parser.

Variable max : Z.
Hypothesis Hmax : 0 <= max <= 8.
Variable base : list Z.

Lemma size_line_range n line : size_line max n line -> 0 <= n < 2 ^ 32.
Proof.
  intros (ds & sp & Hd & Hl & _ & -> & _). pose proof (hexval_range ds Hd).
  assert (16 ^ raw_size ds <= 16 ^ 8) by (apply Z.pow_le_mono_r; lia). lia.
Qed.

(** Where the parser is in the stream, state by state: [s] is what was
    consumed for the chunks before this one, [out] what was put out for
    them. *)
Definition ck_state (p : t) (r : R) (b : read_write_buffer) (consumed s out : list Z) : Prop :=
  let n := p.(chunksize_) in
  match p.(state_) with
  | PARSE_CHUNKSIZE => exists ds sp, size_partial max p ds sp /\ consumed = s ++ ds ++ spaces sp /\
      received r = base ++ out /\ p.(current_chunk_length_) = 0
  | PARSE_CHUNKSIZE_LF => exists l, size_line max n (l ++ [LF]) /\ consumed = s ++ l /\
      received r = base ++ out /\ p.(current_chunk_length_) = 0
  | FORWARD_CHUNKSIZE => exists line, size_line max n line /\ consumed = s ++ line /\
      received r ++ size_left r = base ++ out ++ size_bytes n /\ trailer_left r = trailer_bytes /\
      p.(current_chunk_length_) = 0
  | PARSE_CHUNK => exists line data, size_line max n line /\
      consumed = s ++ line ++ data /\ received r = base ++ out ++ size_bytes n ++ data /\
      trailer_left r = trailer_bytes /\ p.(current_chunk_length_) = raw_size data /\ raw_size data < n
  | FORWARD_INCOMPLETE_CHUNK => exists line data, size_line max n line /\
      consumed = s ++ line ++ data /\
      received r ++ window b = base ++ out ++ size_bytes n ++ data /\ trailer_left r = trailer_bytes /\
      p.(current_chunk_length_) = raw_size data /\ raw_size data < n /\
      b.(write_position_) <= b.(write_end_position_) /\ unprocessed b = []
  | FORWARD_COMPLETE_CHUNK => exists line data, size_line max n line /\
      consumed = s ++ line ++ data /\
      received r ++ window b = base ++ out ++ size_bytes n ++ data /\ trailer_left r = trailer_bytes /\
      raw_size data = n /\ b.(write_position_) <= b.(write_end_position_)
  | PARSE_TRAILER_CR => exists line data, size_line max n line /\
      consumed = s ++ line ++ data /\ received r = base ++ out ++ size_bytes n ++ data /\
      trailer_left r = trailer_bytes /\ raw_size data = n
  | PARSE_TRAILER_LF => exists line data, size_line max n line /\
      consumed = s ++ line ++ data ++ [CR] /\ received r = base ++ out ++ size_bytes n ++ data /\
      trailer_left r = trailer_bytes /\ raw_size data = n
  | FORWARD_TRAILER_CRLF => exists line data, size_line max n line /\
      consumed = s ++ line ++ data ++ [CR; LF] /\
      received r ++ trailer_left r = base ++ out ++ size_bytes n ++ data ++ trailer_bytes /\
      raw_size data = n
  end.

Record ck_inv (p : t) (r : R) (b : read_write_buffer) (consumed : list Z) : Prop := {
  ck_wf : wf b;
  ck_ok : receiver_ok r;
  ck_max : p.(max_chunksize_length_) = max;
  ck_where : exists s ds, chunks max s ds /\ ck_state p r b consumed s (put_out ds)
}.

(** The states that wait for the next buffer. *)
Definition waits (s : STATE) : bool :=
  match s with
  | FORWARD_CHUNKSIZE | FORWARD_INCOMPLETE_CHUNK | FORWARD_COMPLETE_CHUNK | FORWARD_TRAILER_CRLF => false
  | _ => true
  end.

(** A chunk that is not the last one. *)
Definition chunk_data (d : list Z) : Prop := 0 < raw_size d < 2 ^ 32.

(** The receiver was given a part of the chunks of some body. *)
Definition sends_chunks (r : R) : Prop :=
  exists ds, Forall chunk_data ds /\ received r `prefix_of` base ++ put_out (ds ++ [[]]).

Lemma chunks_nonempty s ds : chunks max s ds -> Forall chunk_data ds.
Proof.
  induction 1 as [|s ds line data _ IH Hl Hd]; [constructor|]. apply Forall_app. split; [done|].
  apply size_line_range in Hl. constructor; [|constructor]. unfold chunk_data. lia.
Qed.

Lemma put_out_app (ds ds' : list (list Z)) : put_out (ds ++ ds') = put_out ds ++ put_out ds'.
Proof. unfold put_out. by rewrite map_app, concat_app. Qed.

(** Between two chunks, *)
Lemma sends_between (r : R) ds :
  Forall chunk_data ds -> received r = base ++ put_out ds -> sends_chunks r.
Proof.
  intros Hds Hr. exists ds. split; [done|]. rewrite Hr, put_out_app, app_assoc. by apply prefix_app_r.
Qed.

(** in the data of one, *)
Lemma sends_data (r : R) ds n data :
  Forall chunk_data ds -> raw_size data <= n < 2 ^ 32 ->
  received r `prefix_of` base ++ put_out ds ++ size_bytes n ++ data -> sends_chunks r.
Proof.
  intros Hds Hn Hr. pose proof (raw_size_nonneg data).
  set (data' := data ++ replicate (Z.to_nat (n - raw_size data)) 0).
  assert (raw_size data' = n) as Hd
    by (unfold data', raw_size in *; rewrite length_app, length_replicate; lia).
  assert (received r `prefix_of` base ++ put_out (ds ++ [data'])) as Hp.
  { etransitivity; [exact Hr|]. apply prefix_app. rewrite put_out_app. apply prefix_app.
    unfold put_out. cbn [map concat]. rewrite Hd, <- app_assoc. apply prefix_app.
    unfold data'. rewrite <- !app_assoc. by apply prefix_app_r. }
  destruct (Z.eq_dec n 0) as [E|E].
  - assert (data' = []) as Ed by (apply nil_length_inv; unfold raw_size in *; lia).
    rewrite Ed in Hp. by exists ds.
  - exists (ds ++ [data']).
    split; [apply Forall_app; split; [done|]; constructor; [unfold chunk_data; lia|done]|].
    etransitivity; [exact Hp|]. rewrite (put_out_app (ds ++ [data'])), app_assoc. by apply prefix_app_r.
Qed.

(** and in its trailer. *)
Lemma sends_trailer (r : R) ds data :
  Forall chunk_data ds -> raw_size data < 2 ^ 32 ->
  received r `prefix_of` base ++ put_out ds ++ size_bytes (raw_size data) ++ data ++ trailer_bytes ->
  sends_chunks r.
Proof.
  intros Hds Hd Hr. rewrite put_out_snoc in Hr. pose proof (raw_size_nonneg data).
  destruct (Z.eq_dec (raw_size data) 0) as [E|E].
  - assert (data = []) as -> by (apply nil_length_inv; unfold raw_size in *; lia). by exists ds.
  - exists (ds ++ [data]).
    split; [apply Forall_app; split; [done|]; constructor; [unfold chunk_data; lia|done]|].
    etransitivity; [exact Hr|]. rewrite (put_out_app (ds ++ [data])), app_assoc. by apply prefix_app_r.
Qed.

Lemma ck_inv_sends p r b consumed : ck_inv p r b consumed -> sends_chunks r.
Proof.
  intros [_ _ _ (s & ds & Hch & Hst)]. apply chunks_nonempty in Hch. unfold ck_state in Hst.
  assert (forall n l, size_line max n l -> 0 <= n < 2 ^ 32) as Hn
    by (intros; eapply size_line_range; eassumption).
  destruct (state_ p).
  - destruct Hst as (? & ? & _ & _ & Hr & _). eauto using sends_between.
  - destruct Hst as (line & data & Hl & _ & Hr & _ & _ & Hlt).
    apply (sends_data r ds (chunksize_ p) data); [done|specialize (Hn _ _ Hl); lia|]. by rewrite Hr.
  - destruct Hst as (? & _ & _ & Hr & _). eauto using sends_between.
  - destruct Hst as (line & Hl & _ & Hr & _). apply (sends_data r ds (chunksize_ p) []); [done| |].
    + specialize (Hn _ _ Hl). unfold raw_size. simpl. lia.
    + rewrite app_nil_r, <- Hr. by apply prefix_app_r.
  - destruct Hst as (line & data & Hl & _ & Hr & _ & _ & Hlt & _).
    apply (sends_data r ds (chunksize_ p) data); [done|specialize (Hn _ _ Hl); lia|]. rewrite <- Hr. by apply prefix_app_r.
  - destruct Hst as (line & data & Hl & _ & Hr & _ & Hlt & _).
    apply (sends_data r ds (chunksize_ p) data); [done|specialize (Hn _ _ Hl); lia|]. rewrite <- Hr. by apply prefix_app_r.
  - destruct Hst as (line & data & Hl & _ & Hr & _ & Hlt).
    apply (sends_data r ds (chunksize_ p) data); [done|specialize (Hn _ _ Hl); lia|]. by rewrite Hr.
  - destruct Hst as (line & data & Hl & _ & Hr & _ & Hlt).
    apply (sends_data r ds (chunksize_ p) data); [done|specialize (Hn _ _ Hl); lia|]. by rewrite Hr.
  - destruct Hst as (line & data & Hl & _ & Hr & Hlt). apply (sends_trailer r ds data); [done|specialize (Hn _ _ Hl); lia|].
    rewrite Hlt, <- Hr. by apply prefix_app_r.
Qed.

Definition ck_result (st : http.STATUS) (p : t) (r : R) (b : read_write_buffer) (consumed : list Z)
    : Prop :=
  match st with
  | http.COMPLETE => exists ds, chunked_body max consumed ds /\
      received r = base ++ put_out (ds ++ [[]])
  | http.INCOMPLETE => ck_inv p r b consumed /\ waits p.(state_) = true /\ unprocessed b = []
  | http.WRITE_INCOMPLETE => ck_inv p r b consumed /\ waits p.(state_) = false
  | _ => exists consumed', ck_inv p r b consumed'
  end.

Definition rank (s : STATE) : Z :=
  match s with
  | PARSE_CHUNKSIZE | PARSE_TRAILER_CR => 1
  | FORWARD_TRAILER_CRLF | FORWARD_COMPLETE_CHUNK => 2
  | PARSE_CHUNK => 3
  | FORWARD_CHUNKSIZE => 4
  | _ => 0
  end.

Definition measure (p : t) (b : read_write_buffer) : Z :=
  5 * (b.(working_length_) - b.(process_position_)) + rank p.(state_).

Definition step_post (p : t) (r : R) (b : read_write_buffer) (consumed : list Z) (x : outcome) : Prop :=
  let '(o, b', p', r') := x in
  left_ok r r' b b' /\
  match o with
  | Some st => ck_result st p' r' b' (consumed ++ processed b b')
  | None => ck_inv p' r' b' (consumed ++ processed b b') /\ measure p' b' < measure p b
  end.

(** A step of a state that took the next byte. *)
Lemma step_byte b c l b' :
  wf b -> unprocessed b = c :: l -> b'.(p_buffer_) = b.(p_buffer_) ->
  b'.(working_length_) = b.(working_length_) ->
  b'.(process_position_) = b.(process_position_) + 1 ->
  advances b b' /\ processed b b' = [c].
Proof.
  intros Hwf Hu Hv Hw Hp. destruct (unprocessed_cons b c l Hwf Hu) as (Hlt & _ & _ & _).
  split; [constructor; try done; lia|]. unfold processed. rewrite Hp.
  destruct (processed_take b 1 Hwf) as [-> _]; [lia|]. by rewrite Hu.
Qed.

Lemma close_window_ok b :
  wf b -> exists b', close_window b = Ok b' /\ wf b' /\ b'.(p_buffer_) = b.(p_buffer_) /\
    b'.(working_length_) = b.(working_length_) /\ b'.(process_position_) = b.(process_position_).
Proof.
  intros Hwf. pose proof Hwf as []. unfold close_window, rwb.get_process_position.
  rewrite set_write_position_ok, bind_ok by lia. rewrite set_write_end_position_ok by (simpl; lia).
  eexists. split; [reflexivity|]. split; [|done]. by apply wf_positions.
Qed.

Lemma step_chunksize p r b consumed :
  ck_inv p r b consumed -> p.(state_) = PARSE_CHUNKSIZE ->
  exists x, do_parse_chunksize p r b = Ok x /\ step_post p r b consumed x.
Proof.
  intros Hinv Es. destruct Hinv as [Hwf Hok Hm (s & body & Hch & Hst)]. unfold ck_state in Hst. rewrite Es in Hst.
  destruct Hst as (ds & sp & Hsz & -> & Hr & Hc).
  pose proof (scan_size_sound max (unprocessed b) Hmax p ds sp Hsz) as Hscan.
  unfold do_parse_chunksize. rewrite parse_chunk_size_scan by done.
  destruct (scan_size p (unprocessed b)) as [[st k] p'] eqn:Escan. rewrite bind_ok.
  destruct Hscan as (Hk & [Ss Sm Sc] & Hres).
  pose proof (unprocessed_length b Hwf) as Hul. unfold raw_size in Hul. pose proof Hwf as [].
  set (b1 := moved_to (process_position_ b + Z.of_nat k) b).
  assert (wf b1) as Hwf1 by (apply moved_to_wf; [done|lia]).
  destruct (close_window_ok b1 Hwf1) as (b2 & Hb2 & Hwf2 & V & W & P). rewrite Hb2, bind_ok.
  simpl in V, W, P.
  assert (advances b b2) as Hadv by (constructor; [done|done|lia]).
  pose proof (left_moved r b b2 Hok ltac:(done) Hadv) as Hleft.
  assert (processed b b2 = take k (unprocessed b)) as Hproc.
  { unfold processed. rewrite P. destruct (processed_take b (Z.of_nat k) Hwf) as [-> _]; [lia|].
    by rewrite Nat2Z.id. }
  assert (forall ds', size_partial max p' ds' 0 -> exists consumed', ck_inv p' r b2 consumed') as Hrefused.
  { intros ds' Hsz'. exists (s ++ ds' ++ spaces 0). constructor; [done|done|by rewrite Sm|].
    exists s, body. split; [done|]. unfold ck_state. rewrite Ss, Es. exists ds', 0%nat. by rewrite Sc. }
  destruct st; try done; (eexists; split; [reflexivity|]); (split; [done|]); rewrite Hproc; try done;
    try (destruct Hres as [ds' Hsz']; by apply (Hrefused ds')).
  - destruct Hres as (ds' & sp' & Hhex & Hlen & Hsp & Hval & Eq). split.
    + constructor; [done|done|by simpl; rewrite Sm|]. exists s, body. split; [done|].
      unfold ck_state. simpl. exists (ds' ++ spaces sp' ++ [CR]). rewrite Hval.
      split; [exists ds', sp'; rewrite <- !app_assoc; done|].
      rewrite <- !app_assoc, <- Eq, <- app_assoc. split; [done|]. split; [done|congruence].
    + unfold measure. rewrite W, P, Es. simpl. assert (0 < k)%nat; [|lia].
      destruct k; [|lia]. exfalso. simpl in Eq. rewrite app_nil_r in Eq.
      assert (CR ∈ ds ++ spaces sp) as Hin
        by (rewrite Eq, !elem_of_app; right; right; apply list_elem_of_here).
      apply elem_of_app in Hin as [Hin|Hin].
      * destruct Hsz. by apply (proj1 (Forall_forall _ _) sz_hex0) in Hin.
      * apply elem_of_replicate in Hin as [Hin _]. done.
  - destruct Hres as (-> & ds' & sp' & Hsz' & Eq). split; [|split].
    + constructor; [done|done|by rewrite Sm|]. exists s, body. split; [done|].
      unfold ck_state. rewrite Ss, Es. exists ds', sp'. split; [done|].
      rewrite firstn_all, <- app_assoc, Eq. split; [done|]. split; [done|congruence].
    + by rewrite Ss, Es.
    + apply nil_length_inv. pose proof (unprocessed_length b2 Hwf2) as Hul2. unfold raw_size in Hul2.
      lia.
Qed.

Lemma parse_char_process_any b c :
  wf b ->
  unprocessed b = [] /\ parse_char_process b c = Ok (http.INCOMPLETE, b) \/
  (exists l, unprocessed b = c :: l /\
     parse_char_process b c = Ok (http.COMPLETE, moved_to (b.(process_position_) + 1) b)) \/
  parse_char_process b c = Ok (http.INVALID, b).
Proof.
  intros Hwf. rewrite parse_char_process_spec by done.
  destruct (unprocessed b) as [|x l]; [by left|]. destruct (Z.eqb_spec x c) as [->|]; eauto.
Qed.

Lemma step_chunksize_lf p r b consumed :
  ck_inv p r b consumed -> p.(state_) = PARSE_CHUNKSIZE_LF ->
  exists x, do_parse_chunksize_lf p r b = Ok x /\ step_post p r b consumed x.
Proof.
  intros Hinv Es. pose proof Hinv as [Hwf Hok Hm (s & body & Hch & Hst)].
  unfold ck_state in Hst. rewrite Es in Hst. destruct Hst as (l & Hl & -> & Hr & Hc).
  unfold do_parse_chunksize_lf. pose proof (left_moved r b b Hok Hwf (advances_refl b Hwf)).
  destruct (parse_char_process_any b LF Hwf) as [[Hu ->]|[(l' & Hu & ->)| ->]]; rewrite bind_ok.
  - eexists. split; [reflexivity|]. split; [done|]. rewrite processed_same, app_nil_r by done.
    split; [done|]. by rewrite Es.
  - destruct (set_chunk_size_total r (chunksize_ p) Hok (size_line_range _ _ Hl))
      as (r' & -> & Hr' & Hok' & Hsl & Htl). rewrite bind_ok.
    eexists. split; [reflexivity|].
    destruct (unprocessed_cons b LF l' Hwf Hu) as (_ & _ & _ & Hwf').
    destruct (step_byte b LF l' (moved_to (process_position_ b + 1) b) Hwf Hu) as [Ha Hpr]; try done.
    split; [constructor; try done; rewrite ?Hr'; done|]. rewrite Hpr. split.
    + constructor; try done. exists s, body. split; [done|]. unfold ck_state. simpl.
      exists (l ++ [LF]). rewrite <- app_assoc, Hr', Hsl, Hr, <- app_assoc. done.
    + unfold measure. rewrite Es. simpl. lia.
  - eexists. split; [reflexivity|]. split; [done|]. by eexists.
Qed.

Lemma step_forward_chunksize p r b consumed :
  ck_inv p r b consumed -> p.(state_) = FORWARD_CHUNKSIZE ->
  exists x, do_forward_chunksize p r b = Ok x /\ step_post p r b consumed x.
Proof.
  intros Hinv Es. pose proof Hinv as [Hwf Hok Hm (s & body & Hch & Hst)].
  unfold ck_state in Hst. rewrite Es in Hst. destruct Hst as (l & Hl & -> & Hr & Htr & Hc).
  pose proof Hwf as []. pose proof (size_line_range _ _ Hl).
  unfold do_forward_chunksize.
  destruct (forward_chunk_size_total r Hok)
    as (r' & put & st & -> & Hr' & Hput & Hst & Hne & Hok' & Htl). rewrite bind_ok.
  assert (received r' ++ size_left r' = base ++ put_out body ++ size_bytes (chunksize_ p)) as Hout
    by (rewrite Hr', <- Hr, Hput, <- app_assoc; done).
  pose proof (left_same r r' b _ Hwf Hok' Hr') as Hleft.
  assert (ck_inv p r' b (s ++ l)) as Hinv'.
  { constructor; try done. exists s, body. split; [done|].
    unfold ck_state. rewrite Es. exists l. by rewrite Htl. }
  destruct st; try done; try (eexists; split; [reflexivity|]; by split; [|eexists]).
  - rewrite (Hst eq_refl), app_nil_r in Hout. destruct (Z.ltb_spec 0 (chunksize_ p)).
    + eexists. split; [reflexivity|]. split; [done|]. rewrite processed_same, app_nil_r by done.
      split; [|unfold measure; rewrite Es; simpl; lia].
      constructor; try done. exists s, body. split; [done|]. unfold ck_state. simpl.
      exists l, []. rewrite !app_nil_r, Htl. done.
    + unfold rwb.get_process_position. rewrite set_write_position_ok, bind_ok by lia.
      eexists. split; [reflexivity|]. split.
      { constructor; [by apply wf_positions|done|by apply Hleft|]. constructor; [done|done|simpl; lia]. }
      rewrite processed_same, app_nil_r by done.
      split; [|unfold measure; rewrite Es; simpl; lia].
      constructor; [by apply wf_positions|done|done|]. exists s, body. split; [done|]. unfold ck_state. simpl.
      exists l, []. rewrite !app_nil_r, Htl. split; [done|]. split; [done|]. split; [done|].
      split; [done|]. unfold raw_size. simpl. lia.
  - eexists. split; [reflexivity|]. split; [done|]. rewrite processed_same, app_nil_r by done.
    split; [done|by rewrite Es].
Qed.

Lemma step_chunk p r b consumed :
  ck_inv p r b consumed -> p.(state_) = PARSE_CHUNK ->
  exists x, do_parse_chunk p r b = Ok x /\ step_post p r b consumed x.
Proof.
  intros [Hwf Hok Hm (s & body & Hch & Hst)] Es.
  unfold ck_state in Hst. rewrite Es in Hst. destruct Hst as (l & data & Hl & -> & Hr & Htr & Hc & Hlt).
  pose proof Hwf as []. pose proof (size_line_range _ _ Hl). pose proof (raw_size_nonneg data).
  unfold do_parse_chunk, rwb.get_process_position. rewrite set_write_position_ok, bind_ok by lia.
  set (b1 := RWB _ _ _ _ _ _). assert (wf b1) as Hwf1 by (by apply wf_positions).
  rewrite (parse_n_length_ok b1 _ _ Hwf1), bind_ok by lia. set (k := Z.min _ _).
  assert (0 <= k <= working_length_ b - process_position_ b /\ k <= chunksize_ p - raw_size data)
    as [Hk Hk2].
  { unfold k. change (working_length_ b1) with (working_length_ b).
    change (process_position_ b1) with (process_position_ b). lia. }
  destruct (processed_take b k Hwf Hk) as [_ Hps].
  unfold moved_to. cbn [process_position_ b1 p_buffer_ b_using_static_buffer_ working_length_
    write_end_position_ write_position_].
  rewrite set_write_end_position_ok, bind_ok by (simpl; lia).
  cbn [process_position_ b1 p_buffer_ b_using_static_buffer_ working_length_
    write_end_position_ write_position_].
  set (b2 := RWB _ _ _ _ _ _).
  assert (wf b2) as Hwf2 by (apply wf_positions; try done; lia).
  assert (window b2 = processed b b2) as Hwin by reflexivity.
  change (slice b (process_position_ b) (process_position_ b + k)) with (processed b b2) in Hps.
  assert (advances b b2) as Hadv by (constructor; [done|done|simpl; lia]).
  pose proof (left_moved r b b2 Hok ltac:(done) Hadv) as Hleft.
  assert (received r ++ window b2 =
    base ++ put_out body ++ size_bytes (chunksize_ p) ++ data ++ processed b b2) as Hrw
    by (rewrite Hwin, Hr, <- !app_assoc; done).
  rewrite Hc. destruct (Z.ltb_spec (raw_size data + k) (chunksize_ p)).
  - eexists. split; [reflexivity|]. split; [done|].
    split; [|unfold measure; rewrite Es; simpl; lia].
    constructor; [done|done|done|]. exists s, body. split; [done|]. unfold ck_state. simpl.
    exists l, (data ++ processed b b2). rewrite raw_size_app, Hps, <- !app_assoc.
    split; [done|]. split; [done|]. split; [done|]. split; [done|]. split; [done|]. split; [lia|].
    split; [lia|].
    apply nil_length_inv. pose proof (unprocessed_length b2 Hwf2) as Hul.
    unfold raw_size in Hul. simpl in Hul. unfold k in *. simpl in *. lia.
  - eexists. split; [reflexivity|]. split; [done|].
    split; [|unfold measure; rewrite Es; simpl; lia].
    constructor; [done|done|done|]. exists s, body. split; [done|]. unfold ck_state. simpl.
    exists l, (data ++ processed b b2). rewrite raw_size_app, Hps, <- !app_assoc.
    split; [done|]. split; [done|]. split; [done|]. split; [done|]. split; [lia|lia].
Qed.

Lemma step_forward_incomplete p r b consumed :
  ck_inv p r b consumed -> p.(state_) = FORWARD_INCOMPLETE_CHUNK ->
  exists x, do_forward_incomplete p r b = Ok x /\ step_post p r b consumed x.
Proof.
  intros [Hwf Hok Hm (s & body & Hch & Hst)] Es. unfold ck_state in Hst. rewrite Es in Hst.
  destruct Hst as (l & data & Hl & -> & Hr & Htr & Hc & Hlt & Hw & Hu).
  destruct (set_body_takes r b false Hok Hwf Hw) as (r' & k & st & Hset & Hk & Hrec & Hst & Hne & Hok' & Hsl & Htl).
  destruct (window_written b k Hwf Hw Hk) as (Hwf' & Hwin & Hle').
  pose proof (written_left r r' b _ _ Hok' Hwf Hwf' Hrec) as Hleft.
  assert (ck_inv p r' (written_to (write_position_ b + Z.of_nat k) b) (s ++ l ++ data)) as Hinv'.
  { constructor; try done. exists s, body. split; [done|]. unfold ck_state. rewrite Es. exists l, data.
    split; [done|]. split; [done|]. rewrite Hrec, Hwin, <- app_assoc, take_drop, Htl. done. }
  unfold do_forward_incomplete. rewrite Hset, bind_ok.
  destruct st; try done; try (eexists; split; [reflexivity|]; by split; [|eexists]).
  - unfold rwb.get_working_length. rewrite set_write_end_position_ok, bind_ok by (simpl; lia).
    eexists. split; [reflexivity|]. pose proof Hwf' as [].
    split; [destruct Hleft as [_ _ ? []]; constructor; [apply wf_positions; done || lia|done|done|by constructor]|].
    rewrite processed_same, app_nil_r by done.
    rewrite (Hst eq_refl), firstn_all, Hr in Hrec.
    split; [|done]. constructor; [apply wf_positions; try done; lia|done|done|]. exists s, body.
    split; [done|]. unfold ck_state. simpl. exists l, data. by rewrite Htl.
  - eexists. split; [reflexivity|]. split; [done|]. rewrite processed_same, app_nil_r by done.
    split; [done|by rewrite Es].
Qed.

Lemma step_forward_complete p r b consumed :
  ck_inv p r b consumed -> p.(state_) = FORWARD_COMPLETE_CHUNK ->
  exists x, do_forward_complete p r b = Ok x /\ step_post p r b consumed x.
Proof.
  intros [Hwf Hok Hm (s & body & Hch & Hst)] Es. unfold ck_state in Hst. rewrite Es in Hst.
  destruct Hst as (l & data & Hl & -> & Hr & Htr & Hc & Hw).
  destruct (set_body_takes r b false Hok Hwf Hw) as (r' & k & st & Hset & Hk & Hrec & Hst & Hne & Hok' & Hsl & Htl).
  destruct (window_written b k Hwf Hw Hk) as (Hwf' & Hwin & Hle').
  pose proof (written_left r r' b _ _ Hok' Hwf Hwf' Hrec) as Hleft.
  assert (ck_inv p r' (written_to (write_position_ b + Z.of_nat k) b) (s ++ l ++ data)) as Hinv'.
  { constructor; try done. exists s, body. split; [done|]. unfold ck_state. rewrite Es. exists l, data.
    split; [done|]. split; [done|]. rewrite Hrec, Hwin, <- app_assoc, take_drop, Htl. done. }
  unfold do_forward_complete. rewrite Hset, bind_ok.
  destruct st; try done; try (eexists; split; [reflexivity|]; by split; [|eexists]).
  - unfold rwb.get_working_length. rewrite set_write_end_position_ok, bind_ok by (simpl; lia).
    eexists. split; [reflexivity|]. pose proof Hwf' as [].
    split; [destruct Hleft as [_ _ ? []]; constructor; [apply wf_positions; done || lia|done|done|by constructor]|].
    rewrite processed_same, app_nil_r by done.
    rewrite (Hst eq_refl), firstn_all, Hr in Hrec.
    split; [|unfold measure; rewrite Es; simpl; lia].
    constructor; [apply wf_positions; try done; lia|done|done|]. exists s, body.
    split; [done|]. unfold ck_state. simpl. exists l, data. by rewrite Htl.
  - eexists. split; [reflexivity|]. split; [done|]. rewrite processed_same, app_nil_r by done.
    split; [done|by rewrite Es].
Qed.

Lemma step_trailer_cr p r b consumed :
  ck_inv p r b consumed -> p.(state_) = PARSE_TRAILER_CR ->
  exists x, do_parse_trailer CR PARSE_TRAILER_LF p r b = Ok x /\ step_post p r b consumed x.
Proof.
  intros Hinv Es. pose proof Hinv as [Hwf Hok Hm (s & body & Hch & Hst)].
  unfold ck_state in Hst. rewrite Es in Hst. destruct Hst as (l & data & Hl & -> & Hr & Htr & Hd).
  unfold do_parse_trailer. pose proof (left_moved r b b Hok Hwf (advances_refl b Hwf)). pose proof Hwf as [].
  destruct (parse_char_process_any b CR Hwf) as [[Hu ->]|[(l' & Hu & ->)| ->]]; rewrite bind_ok.
  - eexists. split; [reflexivity|]. split; [done|]. rewrite processed_same, app_nil_r by done.
    split; [done|]. by rewrite Es.
  - destruct (unprocessed_cons b CR l' Hwf Hu) as (Hlt & _ & _ & Hwf').
    unfold rwb.get_process_position. rewrite set_write_position_ok, bind_ok by (simpl; lia).
    eexists. split; [reflexivity|].
    match goal with |- step_post _ _ _ _ (_, ?b', _, _) =>
      assert (wf b') as Hwf2 by (apply wf_positions; try done; simpl; lia);
      destruct (step_byte b CR l' b' Hwf Hu) as [Ha Hpr]; try done end.
    split; [constructor; try done; rewrite ?Hr'; done|]. rewrite Hpr. split.
    + constructor; [apply wf_positions; try done; simpl; lia|done|done|]. exists s, body. split; [done|].
      unfold ck_state. simpl. exists l, data. rewrite <- !app_assoc. done.
    + unfold measure. rewrite Es. simpl. lia.
  - eexists. split; [reflexivity|]. split; [done|]. by eexists.
Qed.

Lemma step_trailer_lf p r b consumed :
  ck_inv p r b consumed -> p.(state_) = PARSE_TRAILER_LF ->
  exists x, do_parse_trailer LF FORWARD_TRAILER_CRLF p r b = Ok x /\ step_post p r b consumed x.
Proof.
  intros Hinv Es. pose proof Hinv as [Hwf Hok Hm (s & body & Hch & Hst)].
  unfold ck_state in Hst. rewrite Es in Hst. destruct Hst as (l & data & Hl & -> & Hr & Htr & Hd).
  unfold do_parse_trailer. pose proof (left_moved r b b Hok Hwf (advances_refl b Hwf)). pose proof Hwf as [].
  destruct (parse_char_process_any b LF Hwf) as [[Hu ->]|[(l' & Hu & ->)| ->]]; rewrite bind_ok.
  - eexists. split; [reflexivity|]. split; [done|]. rewrite processed_same, app_nil_r by done.
    split; [done|]. by rewrite Es.
  - destruct (unprocessed_cons b LF l' Hwf Hu) as (Hlt & _ & _ & Hwf').
    unfold rwb.get_process_position. rewrite set_write_position_ok, bind_ok by (simpl; lia).
    eexists. split; [reflexivity|].
    match goal with |- step_post _ _ _ _ (_, ?b', _, _) =>
      assert (wf b') as Hwf2 by (apply wf_positions; try done; simpl; lia);
      destruct (step_byte b LF l' b' Hwf Hu) as [Ha Hpr]; try done end.
    split; [constructor; try done; rewrite ?Hr'; done|]. rewrite Hpr. split.
    + constructor; [apply wf_positions; try done; simpl; lia|done|done|]. exists s, body. split; [done|].
      unfold ck_state. simpl. exists l, data. rewrite Hr, Htr, <- !app_assoc. done.
    + unfold measure. rewrite Es. simpl. lia.
  - eexists. split; [reflexivity|]. split; [done|]. by eexists.
Qed.

Lemma step_forward_trailer p r b consumed :
  ck_inv p r b consumed -> p.(state_) = FORWARD_TRAILER_CRLF ->
  exists x, do_forward_trailer p r b = Ok x /\ step_post p r b consumed x.
Proof.
  intros [Hwf Hok Hm (s & body & Hch & Hst)] Es. unfold ck_state in Hst. rewrite Es in Hst.
  destruct Hst as (l & data & Hl & -> & Hr & Hd). 
  pose proof (size_line_range _ _ Hl). pose proof (raw_size_nonneg data).
  unfold do_forward_trailer.
  destruct (forward_chunk_trailer_total r Hok)
    as (r' & put & st & -> & Hr' & Hput & Hst & Hne & Hok'). rewrite bind_ok.
  assert (received r' ++ trailer_left r' =
    base ++ put_out body ++ size_bytes (chunksize_ p) ++ data ++ trailer_bytes) as Hout
    by (rewrite Hr', <- Hr, Hput, <- app_assoc; done).
  pose proof (left_same r r' b _ Hwf Hok' Hr') as Hleft.
  assert (ck_inv p r' b (s ++ l ++ data ++ [CR; LF])) as Hinv'.
  { constructor; try done. exists s, body. split; [done|].
    unfold ck_state. rewrite Es. by exists l, data. }
  destruct st; try done; try (eexists; split; [reflexivity|]; by split; [|eexists]).
  - rewrite (Hst eq_refl), app_nil_r, <- Hd, put_out_snoc in Hout.
    destruct (Z.eqb_spec (chunksize_ p) 0) as [E0|].
    + destruct (set_body_takes r' (rwb.make 0) true Hok') as (r2 & k & st2 & -> & Hk & Hrec & _ & _ & Hok2 & _);
        [apply make_wf; lia|done|]. rewrite bind_ok.
      eexists. split; [reflexivity|]. split.
      { apply (left_same r r2 b (put ++ take k (window (rwb.make 0)))); [done|done|]. by rewrite Hrec, Hr', <- app_assoc. }
      rewrite processed_same, app_nil_r by done.
      assert (data = []) as -> by (apply nil_length_inv; unfold raw_size in *; lia).
      exists body. split; [exists s, l; rewrite E0 in Hl; done|].
      change (window (rwb.make 0)) with (@nil Z) in Hrec.
      by rewrite Hrec, take_nil, app_nil_r.
    + eexists. split; [reflexivity|]. split; [done|]. rewrite processed_same, app_nil_r by done.
      split; [|unfold measure; rewrite Es; simpl; lia].
      constructor; [done|done|by simpl|]. exists (s ++ l ++ data ++ [CR; LF]), (body ++ [data]).
      rewrite <- Hd in Hl. split; [constructor; [done|done|lia]|].
      unfold ck_state. simpl. exists [], 0%nat. change (spaces 0) with (@nil Z).
      rewrite !app_nil_r. split; [|done].
      constructor; simpl; try done; unfold raw_size; simpl; lia.
  - eexists. split; [reflexivity|]. split; [done|]. rewrite processed_same, app_nil_r by done.
    split; [done|by rewrite Es].
Qed.

Lemma chunk_step p r b consumed :
  ck_inv p r b consumed -> exists x, parse_step p r b = Ok x /\ step_post p r b consumed x.
Proof.
  intros Hinv. unfold parse_step. destruct (state_ p) eqn:Es;
    auto using step_chunksize, step_chunk, step_chunksize_lf, step_forward_chunksize,
      step_forward_incomplete, step_forward_complete, step_trailer_cr, step_trailer_lf,
      step_forward_trailer.
Qed.

Lemma chunk_loop fuel :
  forall p r b consumed, ck_inv p r b consumed -> measure p b < Z.of_nat fuel ->
  exists st b' p' r', parse_loop fuel p r b = Ok (st, b', p', r') /\ left_ok r r' b b' /\
    ck_result st p' r' b' (consumed ++ processed b b').
Proof.
  induction fuel as [|fuel IH]; intros p r b consumed Hinv Hf.
  { destruct (ck_wf _ _ _ _ Hinv). unfold measure in Hf. destruct (state_ p); simpl in Hf; lia. }
  cbn [parse_loop]. destruct (chunk_step p r b consumed Hinv) as ([[[o b1] p1] r1] & -> & Hadv & Hpost).
  rewrite bind_ok. destruct o as [st|]; [by exists st, b1, p1, r1|].
  destruct Hpost as [Hinv1 Hlt].
  destruct (IH p1 r1 b1 _ Hinv1) as (st & b2 & p2 & r2 & Hp & Hadv2 & Hres); [lia|].
  destruct (processed_trans b b1 b2 (ck_wf _ _ _ _ Hinv) (lo_advances _ _ _ _ Hadv)
    (lo_advances _ _ _ _ Hadv2)) as [Heq Ha].
  exists st, b2, p2, r2. split; [done|].
  split; [apply (left_trans r r1 r2 b b1 b2); [apply Hinv|done|done]|]. by rewrite Heq, app_assoc.
Qed.

Lemma chunk_call p r b consumed :
  ck_inv p r b consumed ->
  exists st b' p' r', parse_body p r b = Ok (st, b', p', r') /\ left_ok r r' b b' /\
    ck_result st p' r' b' (consumed ++ processed b b').
Proof.
  intros Hinv. apply chunk_loop; [done|]. destruct (ck_wf _ _ _ _ Hinv).
  unfold measure, rwb.get_working_length. destruct (state_ p); simpl; lia.
Qed.

(** Between buffers only the state matters. *)
Lemma ck_inv_buffer p r b b' consumed :
  ck_inv p r b consumed -> waits p.(state_) = true -> wf b' -> ck_inv p r b' consumed.
Proof.
  intros [Hwf Hok Hm (s & body & Hch & Hst)] Hw Hwf'. constructor; [done|done|done|].
  exists s, body. split; [done|]. unfold ck_state in *. by destruct (state_ p).
Qed.

Lemma ck_start r b :
  received r = base -> receiver_ok r -> wf b -> ck_inv (make max) r b [].
Proof.
  intros Hr Hok Hwf. constructor; [done|done|done|]. exists [], []. split; [constructor|].
  unfold ck_state. simpl. exists [], 0%nat. split; [|split; [done|split; [by rewrite app_nil_r|done]]].
  constructor; simpl; try done; unfold raw_size; simpl; lia.
Qed.

Lemma chunk_run r0 st b p r consumed :
  received r0 = base -> receiver_ok r0 -> run parse_body (make max) r0 st b p r consumed ->
  ck_result st p r b consumed \/
  st = http.INCOMPLETE /\ ck_inv p r b consumed /\ waits p.(state_) = true.
Proof.
  intros Hr0 Hok0. induction 1 as [b Hwf|b1 p r consumed b st b' p' r' _ IH Hwf Hp
    |b p r consumed st b' p' r' _ IH Hp].
  - right. split; [done|]. split; [by apply ck_start|done].
  - left. assert (ck_inv p r b1 consumed /\ waits p.(state_) = true) as [Hinv Hw]
      by (destruct IH as [(? & ? & _)|(_ & ? & ?)]; done).
    pose proof (ck_inv_buffer _ _ _ b _ Hinv Hw Hwf) as Hinv'.
    destruct (chunk_call _ _ _ _ Hinv') as (? & ? & ? & ? & Hp' & _ & Hres).
    rewrite Hp in Hp'. by injection Hp' as <- <- <- <-.
  - left. destruct IH as [[Hinv _]|(? & _)]; [|done].
    destruct (chunk_call _ _ _ _ Hinv) as (? & ? & ? & ? & Hp' & _ & Hres).
    rewrite Hp in Hp'. by injection Hp' as <- <- <- <-.
Qed.

End chunked.

(** * A chunked body in one buffer *)

(** A receiver that never falls behind. *)
Class AcceptingReceiver (R : Type) `{BodyReceiver R} : Prop := {
  accepts_body r b c r' b' st :
    receiver_ok r -> wf b -> b.(write_position_) <= b.(write_end_position_) ->
    set_body r b c = Ok (r', b', st) -> st = http.COMPLETE;
  accepts_chunk_size r r' st :
    receiver_ok r -> forward_chunk_size r = Ok (r', st) -> st = http.COMPLETE;
  accepts_trailer r r' st :
    receiver_ok r -> forward_chunk_trailer r = Ok (r', st) -> st = http.COMPLETE
}.

(** A chunk with its digits. *)
Definition encode_chunk (c : list Z * list Z) : list Z :=
  c.1 ++ [CR; LF] ++ c.2 ++ [CR; LF].

Record chunk_wf (c : list Z * list Z) : Prop := {
  cw_hex : Forall (fun d => ISHEX d = true) c.1;
  cw_len : raw_size c.1 <= CHUNK_SIZE_LENGTH;
  cw_value : hexval c.1 = raw_size c.2
}.

Section accepting.
Context {R : Type} `{AcceptingReceiver R}.
Import chunked_body_parser.

Lemma set_body_accepts r b c :
  receiver_ok r -> wf b -> b.(write_position_) <= b.(write_end_position_) ->
  exists r', set_body r b c = Ok (r', written_to b.(write_end_position_) b, http.COMPLETE) /\
    received r' = received r ++ window b /\ receiver_ok r' /\ trailer_left r' = trailer_left r.
Proof.
  intros Hok Hwf Hw.
  destruct (set_body_takes r b c Hok Hwf Hw) as (r' & k & st & Hs & Hk & Hr & Hst & _ & Hok' & _ & Ht).
  pose proof (accepts_body _ _ _ _ _ _ Hok Hwf Hw Hs) as ->. specialize (Hst eq_refl). subst k.
  pose proof (window_length b Hwf Hw). exists r'. rewrite Hs, Hr, firstn_all.
  replace (write_position_ b + Z.of_nat (length (window b))) with (write_end_position_ b) by lia.
  done.
Qed.

(** The loop reaches [x] with enough fuel. *)
Definition runs_to (p : t) (r : R) (b : read_write_buffer)
    (x : http.STATUS * read_write_buffer * t * R) : Prop :=
  exists n, forall k, parse_loop (n + k) p r b = Ok x.

(** The loop goes on from one state to the other. *)
Definition leads_to (p : t) (r : R) (b : read_write_buffer) (p' : t) (r' : R)
    (b' : read_write_buffer) : Prop :=
  forall x, runs_to p' r' b' x -> runs_to p r b x.

Lemma runs_to_step p r b p' r' b' x :
  parse_step p r b = Ok (None, b', p', r') -> runs_to p' r' b' x -> runs_to p r b x.
Proof.
  intros Hs (n & Hn). exists (S n). intros k. cbn [Nat.add parse_loop]. by rewrite Hs, bind_ok.
Qed.

Lemma runs_to_return p r b p' r' b' st :
  parse_step p r b = Ok (Some st, b', p', r') -> runs_to p r b (st, b', p', r').
Proof. intros Hs. exists 1%nat. intros k. cbn [Nat.add parse_loop]. by rewrite Hs, bind_ok. Qed.

(** The loop is given enough fuel. *)
Lemma parse_loop_more fuel p r b x k :
  parse_loop fuel p r b = Ok x -> parse_loop (fuel + k) p r b = Ok x.
Proof.
  revert p r b. induction fuel as [|fuel IH]; intros p r b; [done|]. cbn [Nat.add parse_loop].
  destruct (parse_step p r b) as [[[[o b1] p1] r1]| | |]; try done. rewrite !bind_ok.
  destruct o; [done|apply IH].
Qed.

Lemma runs_to_parse_body p r b x y :
  runs_to p r b x -> parse_body p r b = Ok y -> y = x.
Proof.
  intros (n & Hn) Hp. apply (parse_loop_more _ _ _ _ _ n) in Hp.
  specialize (Hn (5 * Z.to_nat (rwb.get_working_length b) + 6)%nat).
  rewrite Nat.add_comm in Hn. congruence.
Qed.

Lemma unprocessed_drop b k :
  wf b -> 0 <= k <= b.(working_length_) - b.(process_position_) ->
  wf (moved_to (b.(process_position_) + k) b) /\
  unprocessed (moved_to (b.(process_position_) + k) b) = drop (Z.to_nat k) (unprocessed b).
Proof.
  intros Hwf Hk. pose proof Hwf as []. split; [apply moved_to_wf; [done|lia]|].
  unfold unprocessed. change (content (moved_to _ b)) with (content b). simpl.
  rewrite drop_drop. f_equal. lia.
Qed.

(** From the size to the state that forwards it. *)
Lemma size_steps r b ds l :
  receiver_ok r -> wf b -> Forall (fun d => ISHEX d = true) ds -> raw_size ds <= CHUNK_SIZE_LENGTH ->
  unprocessed b = ds ++ CR :: LF :: l ->
  exists b' r', wf b' /\ unprocessed b' = l /\ receiver_ok r' /\ received r' = received r /\
    size_left r' = size_bytes (hexval ds) /\ trailer_left r' = trailer_bytes /\
    leads_to (make CHUNK_SIZE_LENGTH) r b
      (ChunkedBodyParser FORWARD_CHUNKSIZE (hexval ds) (raw_size ds) CHUNK_SIZE_LENGTH 0 0) r' b'.
Proof.
  intros Hok Hwf Hds Hlen Hu.
  pose proof (unprocessed_length b Hwf) as Hul. rewrite Hu, raw_size_app, !raw_size_cons in Hul.
  pose proof (raw_size_nonneg ds). pose proof (raw_size_nonneg l).
  assert (size_partial CHUNK_SIZE_LENGTH (make CHUNK_SIZE_LENGTH) [] 0) as Hsz
    by (constructor; simpl; try done; unfold raw_size, CHUNK_SIZE_LENGTH; simpl; lia).
  pose proof (scan_size_digits CHUNK_SIZE_LENGTH ds (LF :: l) ltac:(unfold CHUNK_SIZE_LENGTH; lia)
    _ _ Hsz Hds Hlen) as Hscan. cbn [app] in Hscan.
  destruct (unprocessed_drop b (raw_size ds + 1) Hwf) as [Hwf1 Hu1]; [lia|].
  rewrite Hu, (cons_middle CR), app_assoc, drop_app_length' in Hu1
    by (rewrite length_app; unfold raw_size; simpl; lia).
  destruct (close_window_ok _ Hwf1) as (b2 & Hb2 & Hwf2 & V2 & W2 & P2).
  assert (unprocessed b2 = LF :: l) as Hu2.
  { rewrite <- Hu1. unfold unprocessed, content, raw_of. by rewrite P2, W2, V2. }
  destruct (unprocessed_cons b2 LF l Hwf2 Hu2) as (_ & _ & Hu3 & Hwf3).
  assert (0 <= hexval ds < 2 ^ 32) as Hrange.
  { pose proof (hexval_range ds Hds). unfold CHUNK_SIZE_LENGTH in Hlen.
    assert (16 ^ raw_size ds <= 16 ^ 8) by (apply Z.pow_le_mono_r; lia). lia. }
  destruct (set_chunk_size_total r (hexval ds) Hok Hrange) as (r' & Hset & Hr' & Hok' & Hsl & Htl).
  exists (moved_to (process_position_ b2 + 1) b2), r'.
  repeat (split; [done|]). intros x Hrun.
  eapply runs_to_step.
  { unfold parse_step. cbn [state_ make]. unfold do_parse_chunksize.
    rewrite parse_chunk_size_scan by done. rewrite Hu, Hscan, bind_ok.
    replace (process_position_ b + Z.of_nat (S (length ds))) with
      (process_position_ b + (raw_size ds + 1)) by (unfold raw_size; lia).
    rewrite Hb2, bind_ok. reflexivity. }
  eapply runs_to_step; [|exact Hrun].
  unfold parse_step. cbn [state_ to with_size]. unfold do_parse_chunksize_lf.
  rewrite parse_char_process_spec, Hu2 by done. rewrite Z.eqb_refl, bind_ok.
  cbn [chunksize_ to with_size]. rewrite Hset, bind_ok. reflexivity.
Qed.

(** From the state that waits for the CR after the data to the trailer. *)
Lemma trailer_steps p r b l :
  wf b -> p.(state_) = PARSE_TRAILER_CR -> unprocessed b = CR :: LF :: l ->
  exists b', wf b' /\ unprocessed b' = l /\
    leads_to p r b (to FORWARD_TRAILER_CRLF p) r b'.
Proof.
  intros Hwf Es Hu. destruct (unprocessed_cons b CR _ Hwf Hu) as (L1 & _ & Hu1 & Hwf1).
  set (b1 := moved_to (process_position_ b + 1) b) in *. pose proof Hwf1 as [].
  set (b2 := RWB b1.(p_buffer_) b1.(b_using_static_buffer_) b1.(working_length_)
    b1.(process_position_) b1.(write_end_position_) b1.(process_position_)).
  assert (wf b2) as Hwf2 by (by apply wf_positions).
  assert (unprocessed b2 = LF :: l) as Hu2 by exact Hu1.
  destruct (unprocessed_cons b2 LF _ Hwf2 Hu2) as (L3 & _ & Hu3 & Hwf3).
  set (b3 := moved_to (process_position_ b2 + 1) b2) in *. pose proof Hwf3 as [].
  exists (RWB b3.(p_buffer_) b3.(b_using_static_buffer_) b3.(working_length_)
    b3.(process_position_) b3.(write_end_position_) b3.(process_position_)).
  split; [by apply wf_positions|]. split; [exact Hu3|]. intros x Hrun.
  eapply runs_to_step.
  { unfold parse_step. rewrite Es. unfold do_parse_trailer.
    rewrite parse_char_process_spec, Hu by done. rewrite Z.eqb_refl, bind_ok. fold b1.
    unfold rwb.get_process_position. rewrite set_write_position_ok, bind_ok by lia. reflexivity. }
  eapply runs_to_step; [|exact Hrun].
  unfold parse_step. cbn [state_ to]. unfold do_parse_trailer. fold b2.
  rewrite parse_char_process_spec, Hu2 by done. rewrite Z.eqb_refl, bind_ok. fold b3.
  unfold rwb.get_process_position. rewrite set_write_position_ok, bind_ok by lia. reflexivity.
Qed.

Lemma forward_size_accepts p r b :
  p.(state_) = FORWARD_CHUNKSIZE -> receiver_ok r -> wf b ->
  exists r', received r' = received r ++ size_left r /\ receiver_ok r' /\
    trailer_left r' = trailer_left r /\
    parse_step p r b =
    if 0 <? p.(chunksize_) then Ok (None, b, to PARSE_CHUNK p, r')
    else Ok (None, written_to b.(process_position_) b, to PARSE_TRAILER_CR p, r').
Proof.
  intros Es Hok Hwf.
  destruct (forward_chunk_size_total r Hok) as (r' & put & st & Hf & Hr & Hput & Hst & _ & Hok' & Ht).
  pose proof (accepts_chunk_size _ _ _ Hok Hf) as ->.
  rewrite (Hst eq_refl), app_nil_r in Hput. exists r'. rewrite Hput.
  split; [done|]. split; [done|]. split; [done|].
  unfold parse_step. rewrite Es. unfold do_forward_chunksize. rewrite Hf, bind_ok.
  destruct (0 <? chunksize_ p); [done|]. unfold rwb.get_process_position. pose proof Hwf as [].
  by rewrite set_write_position_ok, bind_ok by lia.
Qed.

(** The data of a chunk that is whole in the buffer. *)
Lemma data_steps p r b data l :
  receiver_ok r -> wf b -> p.(state_) = PARSE_CHUNK -> p.(current_chunk_length_) = 0 ->
  p.(chunksize_) = raw_size data -> unprocessed b = data ++ l ->
  exists b' r', wf b' /\ unprocessed b' = l /\ receiver_ok r' /\ received r' = received r ++ data /\
    trailer_left r' = trailer_left r /\
    leads_to p r b (to PARSE_TRAILER_CR (with_chunk_length (raw_size data) p)) r' b'.
Proof.
  intros Hok Hwf Es Hc Hsz Hu. pose proof Hwf as []. pose proof (raw_size_nonneg data).
  pose proof (unprocessed_length b Hwf) as Hul. rewrite Hu, raw_size_app in Hul.
  pose proof (raw_size_nonneg l).
  set (b1 := written_to b.(process_position_) b).
  assert (wf b1) as Hwf1 by (apply written_to_wf; [done|lia]).
  set (b2 := RWB b.(p_buffer_) b.(b_using_static_buffer_) b.(working_length_)
    (b.(process_position_) + raw_size data) (b.(process_position_) + raw_size data)
    b.(process_position_)).
  assert (wf b2) as Hwf2 by (apply wf_positions; done || lia).
  assert (window b2 = data) as Hwin.
  { change (window b2) with (slice b (process_position_ b) (process_position_ b + raw_size data)).
    destruct (processed_take b (raw_size data) Hwf) as [-> _]; [lia|].
    rewrite Hu. unfold raw_size. by rewrite Nat2Z.id, take_app_length. }
  destruct (set_body_accepts r b2 false Hok Hwf2) as (r' & Hset & Hr' & Hok' & Ht'); [simpl; lia|].
  set (b3 := written_to (write_end_position_ b2) b2) in *.
  assert (wf b3) as Hwf3 by (apply written_to_wf; [done|simpl; lia]).
  set (b4 := RWB b3.(p_buffer_) b3.(b_using_static_buffer_) b3.(working_length_)
    b3.(process_position_) b3.(working_length_) b3.(write_position_)).
  exists b4, r'. split; [by destruct Hwf3; apply wf_positions; simpl in *; done || lia|].
  split.
  { change (unprocessed b4) with (unprocessed (moved_to (process_position_ b + raw_size data) b)).
    destruct (unprocessed_drop b (raw_size data) Hwf) as [_ ->]; [lia|].
    rewrite Hu. unfold raw_size. by rewrite Nat2Z.id, drop_app_length. }
  split; [done|]. split; [by rewrite Hr', Hwin|]. split; [done|]. intros x Hrun.
  eapply runs_to_step.
  { unfold parse_step. rewrite Es. unfold do_parse_chunk, rwb.get_process_position.
    rewrite set_write_position_ok, bind_ok by lia. fold (written_to (process_position_ b) b). fold b1.
    rewrite (parse_n_length_ok b1 _ _ Hwf1) by lia. rewrite bind_ok.
    change (working_length_ b1) with (working_length_ b).
    change (process_position_ b1) with (process_position_ b).
    replace (Z.min _ _) with (raw_size data) by lia.
    rewrite set_write_end_position_ok, bind_ok by (simpl; lia).
    rewrite Hc, Z.add_0_l, Hsz, Z.ltb_irrefl. reflexivity. }
  eapply runs_to_step; [|exact Hrun].
  unfold parse_step. cbn [state_ to with_chunk_length]. unfold do_forward_complete.
  change (RWB _ _ _ _ _ _) with b2. rewrite Hset, bind_ok.
  unfold rwb.get_working_length. rewrite set_write_end_position_ok, bind_ok by (simpl; lia).
  reflexivity.
Qed.

Lemma forward_trailer_accepts p r b :
  p.(state_) = FORWARD_TRAILER_CRLF -> receiver_ok r ->
  exists r', received r' = received r ++ trailer_left r /\ receiver_ok r' /\
    parse_step p r b =
    if p.(chunksize_) =? 0 then Ok (Some http.COMPLETE, b, p, r')
    else Ok (None, b, reset (to PARSE_CHUNKSIZE p), r').
Proof.
  intros Es Hok.
  destruct (forward_chunk_trailer_total r Hok) as (r' & put & st & Hf & Hr & Hput & Hst & _ & Hok').
  pose proof (accepts_trailer _ _ _ Hok Hf) as ->. rewrite (Hst eq_refl), app_nil_r in Hput.
  unfold parse_step. rewrite Es. unfold do_forward_trailer. rewrite Hf, bind_ok, Hput.
  destruct (Z.eqb_spec (chunksize_ p) 0); [|by exists r'].
  destruct (set_body_takes r' (rwb.make 0) true Hok') as (r2 & k & st & -> & _ & Hrec & _ & _ & Hok2 & _);
    [apply make_wf; lia|done|]. exists r2. change (window (rwb.make 0)) with (@nil Z) in Hrec.
  by rewrite Hrec, take_nil, app_nil_r.
Qed.

(** One chunk, whole in the buffer. *)
Lemma chunk_steps r b c l :
  receiver_ok r -> wf b -> chunk_wf c -> 0 < raw_size c.2 -> unprocessed b = encode_chunk c ++ l ->
  exists b' r', wf b' /\ unprocessed b' = l /\ receiver_ok r' /\
    received r' = received r ++ put_out [c.2] /\
    leads_to (make CHUNK_SIZE_LENGTH) r b (make CHUNK_SIZE_LENGTH) r' b'.
Proof.
  destruct c as [ds data]. intros Hok Hwf [Hds Hlen Hval] Hpos Hu. cbn [fst snd] in *.
  unfold encode_chunk in Hu. cbn [fst snd] in Hu.
  assert (unprocessed b = ds ++ CR :: LF :: data ++ CR :: LF :: l) as Hu'
    by (rewrite Hu; by repeat (rewrite <- app_assoc; cbn [app])).
  destruct (size_steps r b ds _ Hok Hwf Hds Hlen Hu')
    as (b1 & r1 & W1 & U1 & K1 & R1 & L1 & T1 & S1).
  set (p1 := ChunkedBodyParser FORWARD_CHUNKSIZE _ _ _ _ _) in S1.
  destruct (forward_size_accepts p1 r1 b1 eq_refl K1 W1) as (r2 & R2 & K2 & T2 & S2).
  change (chunksize_ p1) with (hexval ds) in S2. rewrite Hval in L1, S2.
  replace (0 <? raw_size data) with true in S2 by lia.
  destruct (data_steps (to PARSE_CHUNK p1) r2 b1 data _ K2 W1 eq_refl eq_refl Hval U1)
    as (b3 & r3 & W3 & U3 & K3 & R3 & T3 & S3).
  destruct (trailer_steps (to PARSE_TRAILER_CR (with_chunk_length (raw_size data) (to PARSE_CHUNK p1)))
    r3 b3 l W3 eq_refl U3) as (b4 & W4 & U4 & S4).
  destruct (forward_trailer_accepts (to FORWARD_TRAILER_CRLF
    (to PARSE_TRAILER_CR (with_chunk_length (raw_size data) (to PARSE_CHUNK p1)))) r3 b4 eq_refl K3)
    as (r5 & R5 & K5 & S5).
  cbn [chunksize_ to with_chunk_length p1] in S5. rewrite Hval in S5.
  replace (raw_size data =? 0) with false in S5 by lia.
  exists b4, r5. split; [done|]. split; [done|]. split; [done|]. split.
  - rewrite R5, R3, R2, R1, L1, T3, T2, T1. unfold put_out. cbn [map concat].
    by rewrite app_nil_r, <- !app_assoc.
  - intros x Hrun. apply S1. eapply runs_to_step; [exact S2|].
    apply S3, S4. eapply runs_to_step; [exact S5|exact Hrun].
Qed.

Lemma chunked_body_runs cs :
  forall r b ds rest, receiver_ok r -> wf b ->
  Forall (fun c => chunk_wf c /\ 0 < raw_size c.2) cs -> chunk_wf (ds, []) ->
  unprocessed b = concat (map encode_chunk cs) ++ encode_chunk (ds, []) ++ rest ->
  exists b' p' r', runs_to (make CHUNK_SIZE_LENGTH) r b (http.COMPLETE, b', p', r') /\
    unprocessed b' = rest /\ received r' = received r ++ put_out (map snd cs ++ [[]]).
Proof.
  induction cs as [|c cs IH]; intros r b ds rest Hok Hwf Hcs Hlast Hu.
  - destruct Hlast as [Hds Hlen Hval]. cbn [fst snd] in *. change (raw_size []) with 0 in Hval.
    assert (unprocessed b = ds ++ CR :: LF :: CR :: LF :: rest) as Hu'
      by (rewrite Hu; unfold encode_chunk; cbn [map concat app fst snd];
          by repeat (rewrite <- app_assoc; cbn [app])).
    destruct (size_steps r b ds _ Hok Hwf Hds Hlen Hu')
      as (b1 & r1 & W1 & U1 & K1 & R1 & L1 & T1 & S1).
    set (p1 := ChunkedBodyParser FORWARD_CHUNKSIZE _ _ _ _ _) in S1.
    destruct (forward_size_accepts p1 r1 b1 eq_refl K1 W1) as (r2 & R2 & K2 & T2 & S2).
    change (chunksize_ p1) with (hexval ds) in S2. rewrite Hval in L1, S2.
    change (0 <? 0) with false in S2.
    assert (wf (written_to (process_position_ b1) b1)) as W2
      by (apply written_to_wf; [done|destruct W1; lia]).
    destruct (trailer_steps (to PARSE_TRAILER_CR p1) r2 _ rest W2 eq_refl U1) as (b3 & W3 & U3 & S3).
    destruct (forward_trailer_accepts (to FORWARD_TRAILER_CRLF (to PARSE_TRAILER_CR p1)) r2 b3
      eq_refl K2) as (r4 & R4 & K4 & S4).
    cbn [chunksize_ to p1] in S4. rewrite Hval in S4. cbn in S4.
    do 3 eexists. split; [|split; [exact U3|]].
    + apply S1. eapply runs_to_step; [exact S2|]. apply S3, runs_to_return. exact S4.
    + rewrite R4, R2, R1, L1, T2, T1. unfold put_out. cbn [map concat app].
      change (raw_size []) with 0. by rewrite app_nil_r, <- app_assoc.
  - inversion Hcs as [|? ? [Hc Hpos] Hcs']; subst. cbn [map concat] in Hu.
    rewrite <- app_assoc in Hu.
    destruct (chunk_steps r b c _ Hok Hwf Hc Hpos Hu) as (b1 & r1 & W1 & U1 & K1 & R1 & S1).
    destruct (IH r1 b1 ds rest K1 W1 Hcs' Hlast U1) as (b' & p' & r' & Hrun & U2 & R2).
    exists b', p', r'. split; [by apply S1|]. split; [done|].
    rewrite R2, R1. unfold put_out. cbn [map concat app]. by rewrite app_nil_r, <- app_assoc.
Qed.

End accepting.

(** * Whole bodies in one buffer *)
Section whole.
Context {R : Type} `{AcceptingReceiver R}.

Lemma content_length_whole (r : R) b bytes rest :
  receiver_ok r -> wf b -> raw_size bytes < 2 ^ 32 -> unprocessed b = bytes ++ rest ->
  exists b' p' r',
    content_length_body_parser.parse_content_length_body
      (content_length_body_parser.reset (raw_size bytes)) r b = Ok (http.COMPLETE, b', p', r') /\
    unprocessed b' = rest /\ received r' = received r ++ bytes.
Proof.
  intros Hok Hwf Hn Hu. pose proof Hwf as []. pose proof (raw_size_nonneg bytes).
  pose proof (raw_size_nonneg rest).
  pose proof (unprocessed_length b Hwf) as Hul. rewrite Hu, raw_size_app in Hul.
  set (b1 := written_to b.(process_position_) b).
  assert (wf b1) as Hwf1 by (apply written_to_wf; [done|lia]).
  set (b2 := RWB b.(p_buffer_) b.(b_using_static_buffer_) b.(working_length_)
    (b.(process_position_) + raw_size bytes) (b.(process_position_) + raw_size bytes)
    b.(process_position_)).
  assert (wf b2) as Hwf2 by (apply wf_positions; done || lia).
  assert (window b2 = bytes) as Hwin.
  { change (window b2) with (slice b (process_position_ b) (process_position_ b + raw_size bytes)).
    destruct (processed_take b (raw_size bytes) Hwf) as [-> _]; [lia|].
    rewrite Hu. unfold raw_size. by rewrite Nat2Z.id, take_app_length. }
  destruct (set_body_accepts r b2 true Hok Hwf2) as (r' & Hset & Hr' & _); [simpl; lia|].
  do 3 eexists. split; [|split].
  - unfold content_length_body_parser.parse_content_length_body.
    cbn [content_length_body_parser.parse_loop content_length_body_parser.parse_state_
      content_length_body_parser.reset content_length_body_parser.current_length_
      content_length_body_parser.content_length_].
    unfold rwb.get_process_position.
    rewrite set_write_position_ok, bind_ok by lia. fold (written_to (process_position_ b) b). fold b1.
    rewrite (parse_n_length_ok b1 _ _ Hwf1), bind_ok by lia.
    change (working_length_ b1) with (working_length_ b).
    change (process_position_ b1) with (process_position_ b).
    replace (Z.min _ _) with (raw_size bytes) by lia.
    rewrite set_write_end_position_ok, bind_ok by (simpl; lia).
    rewrite Z.add_0_l, Z.ltb_irrefl.
    change (RWB _ _ _ _ _ _) with b2.
    unfold content_length_body_parser.forward_complete.
    rewrite Hset, bind_ok. reflexivity.
  - change (unprocessed (moved_to (process_position_ b + raw_size bytes) b) = rest).
    destruct (unprocessed_drop b (raw_size bytes) Hwf) as [_ ->]; [lia|].
    rewrite Hu. unfold raw_size. by rewrite Nat2Z.id, drop_app_length.
  - by rewrite Hr', Hwin.
Qed.

Lemma chunked_whole (r : R) b cs ds rest :
  receiver_ok r -> wf b -> Forall (fun c => chunk_wf c /\ 0 < raw_size c.2) cs -> chunk_wf (ds, []) ->
  unprocessed b = concat (map encode_chunk cs) ++ encode_chunk (ds, []) ++ rest ->
  exists b' p' r',
    chunked_body_parser.parse_body (chunked_body_parser.make CHUNK_SIZE_LENGTH) r b =
      Ok (http.COMPLETE, b', p', r') /\
    unprocessed b' = rest /\ received r' = received r ++ put_out (map snd cs ++ [[]]).
Proof.
  intros Hok Hwf Hcs Hds Hu.
  destruct (chunked_body_runs cs r b ds rest Hok Hwf Hcs Hds Hu) as (b' & p' & r' & Hrun & Hu' & Hr').
  assert (0 <= CHUNK_SIZE_LENGTH <= 8) as Hmax by (unfold CHUNK_SIZE_LENGTH; lia).
  destruct (chunk_call _ Hmax (received r) _ _ _ _ (ck_start _ Hmax _ r b eq_refl Hok Hwf))
    as (st & b2 & p2 & r2 & Hp & _).
  pose proof (runs_to_parse_body _ _ _ _ _ Hrun Hp) as E. injection E as -> -> -> ->.
  eauto 6.
Qed.

End whole.

(** How a body is framed in the stream, by its encoding, and what a
    receiver makes of it. *)
Inductive framed {R} `{BodyReceiver R} : http.BODY_ENCODING -> Z -> list Z -> list Z -> Prop :=
  | framed_none n : framed http.NONE n [] []
  | framed_length body :
      raw_size body < 2 ^ 31 -> framed http.CONTENT_LENGTH (raw_size body) body body
  | framed_chunked n cs ds :
      Forall (fun c => chunk_wf c /\ 0 < raw_size c.2) cs -> chunk_wf (ds, []) ->
      framed http.CHUNKED n (concat (map encode_chunk cs) ++ encode_chunk (ds, []))
        (put_out (map snd cs ++ [[]])).

(** * A receiver that collects the body *)
Section collector.

#[local] Instance collector : i_body_receiver (list Z) := {
  set_body_encoding r _ := r;
  set_body r b _ :=
    Ok (r ++ window b, written_to (b.(write_position_) + Z.of_nat (length (window b))) b, http.COMPLETE);
  set_chunk_size r _ := Ok r;
  forward_chunk_size r := Ok (r, http.COMPLETE);
  forward_chunk_trailer r := Ok (r, http.COMPLETE)
}.

#[local] Program Instance collector_receives : BodyReceiver (list Z) := {
  receiver_ok _ := True;
  received r := r;
  size_bytes _ := [];
  trailer_bytes := [];
  size_left _ := [];
  trailer_left _ := []
}.
Next Obligation.
  intros r b c _ _. exists (length (window b)). split; [done|]. split; [done|].
  split; [|done]. by rewrite firstn_all.
Qed.
Next Obligation. intros r n _ _. by exists r. Qed.
Next Obligation. intros r _. exists r, [], http.COMPLETE. by rewrite app_nil_r. Qed.
Next Obligation. intros r _. exists r, [], http.COMPLETE. by rewrite app_nil_r. Qed.

Lemma collector_ok (r : list Z) : receiver_ok r.
Proof. exact I. Qed.

#[local] Instance collector_accepts : AcceptingReceiver (list Z).
Proof. split; simpl; congruence. Qed.

(** * Properties *)

(** C22: over any sequence of calls, with buffers cut anywhere and a receiver
    that may fall behind, the content-length parser hands the receiver the
    bytes it took from the stream, in order, and never more than the content
    length; [COMPLETE] means that the receiver has exactly that many bytes,
    [INCOMPLETE] that the receiver has all of them so far and the buffer is
    used up, [WRITE_INCOMPLETE] that what it does not have yet is the
    buffer's write window. *)
Theorem content_length_forwards {R} `{BodyReceiver R} n (r0 : R) st b p r consumed :
  0 <= n < 2 ^ 32 -> receiver_ok r0 ->
  run content_length_body_parser.parse_content_length_body
    (content_length_body_parser.reset n) r0 st b p r consumed ->
  received r `prefix_of` received r0 ++ consumed /\ raw_size consumed <= n /\
  match st with
  | http.COMPLETE => received r = received r0 ++ consumed /\ raw_size consumed = n
  | http.INCOMPLETE => received r = received r0 ++ consumed /\
      (consumed = [] \/ raw_size consumed < n /\ unprocessed b = [])
  | http.WRITE_INCOMPLETE => received r ++ window b = received r0 ++ consumed
  | _ => True
  end.
Proof.
  intros Hn Hok Hrun. apply content_length_run in Hrun; [|done..].
  destruct Hrun as [(-> & -> & -> & -> & _)|(Hp & Hl & Hst)].
  { rewrite app_nil_r. split; [done|]. split; [unfold raw_size; simpl; lia|]. auto. }
  split; [done|]. split; [done|]. destruct st; try done.
  - destruct Hst as ([] & Es & Hlt & Hu). rewrite Es in *. auto.
  - destruct Hst as ([] & Es). destruct (content_length_body_parser.parse_state_ p); [done|..].
    + by destruct cl_state0 as (? & _).
    + by destruct cl_state0 as (? & _).
Qed.

(** The buffer of the examples. *)
Lemma sample_wf l : bytes_ok l -> (length l <= 64)%nat -> wf (store 64 l).
Proof. intros Hb Hl. by destruct (stored_store 64 l Hb Hl) as [[] _]. Qed.

Lemma content_length_forwards_witness :
  raw_size (str "abc") <= 3 /\ (str "abc" : list Z) = [] ++ str "abc".
Proof.
  assert (wf (store 64 (str "abcd"))) as Hwf by (apply sample_wf; [forall_concrete|simpl; lia]).
  assert (run content_length_body_parser.parse_content_length_body
    (content_length_body_parser.reset 3) ([] : list Z) http.COMPLETE
    (RWB (p_buffer_ (store 64 (str "abcd"))) false 4 3 3 3)
    (content_length_body_parser.ContentLengthBodyParser 3 0 3
       content_length_body_parser.COMPLETE_MESSAGE_BODY_FORWARD) (str "abc") (str "abc")) as Hrun.
  { eapply (run_next _ _ _ _ _ _ [] (store 64 (str "abcd")));
      [apply (run_start _ _ _ _ Hwf)|exact Hwf|vm_compute; reflexivity]. }
  destruct (content_length_forwards 3 ([] : list Z) _ _ _ _ _ ltac:(lia) (collector_ok _) Hrun)
    as (_ & H2 & H3 & _).
  split; [exact H2|exact H3].
Defined.


Definition sample_chunks : list Z :=
  str "3" ++ [CR; LF] ++ str "abc" ++ [CR; LF; 48; CR; LF; CR; LF].

Lemma sample_chunks_wf : wf (store 64 (sample_chunks ++ str "x")).
Proof. apply sample_wf; [unfold sample_chunks, CR, LF; forall_concrete|simpl; lia]. Qed.

Definition sample_end : read_write_buffer :=
  RWB (p_buffer_ (store 64 (sample_chunks ++ str "x"))) false 14 13 10 13.


(** C25: a body that is whole in the buffer is parsed by the encoding the
    header announced: the parser, reset with the announced encoding and
    size, answers [COMPLETE], an accepting receiver gets the body, and the
    bytes after the body are left in the buffer. *)
Theorem body_parser_delivers {R} `{AcceptingReceiver R} (r : R) b p0 encoding n bytes body rest :
  (p0.(body_parser.chunked_)).(chunked_body_parser.max_chunksize_length_) = CHUNK_SIZE_LENGTH ->
  receiver_ok r -> wf b -> framed (R := R) encoding n bytes body -> unprocessed b = bytes ++ rest ->
  exists b' p' r',
    body_parser.parse_body (body_parser.reset encoding n p0) r b = Ok (http.COMPLETE, b', p', r') /\
    unprocessed b' = rest /\ received r' = received r ++ body.
Proof.
  intros Hp0 Hok Hwf Hf Hu. destruct Hf as [n|body Hn|n cs ds Hcs Hds].
  - do 3 eexists. split; [reflexivity|]. by rewrite app_nil_r.
  - destruct (content_length_whole r b body rest Hok Hwf ltac:(lia) Hu) as (b' & p' & r' & Hp & Hu' & Hr').
    pose proof (raw_size_nonneg body). unfold body_parser.parse_body, body_parser.reset.
    cbn [body_parser.body_encoding_ body_parser.content_length_].
    rewrite (s32_small (raw_size body)), (u32_small (raw_size body)), Hp, bind_ok by lia. eauto 6.
  - rewrite <- app_assoc in Hu.
    destruct (chunked_whole r b cs ds rest Hok Hwf Hcs Hds Hu) as (b' & p' & r' & Hp & Hu' & Hr').
    unfold body_parser.parse_body, body_parser.reset, chunked_body_parser.reset.
    cbn [body_parser.body_encoding_ body_parser.chunked_]. rewrite Hp0, Hp, bind_ok. eauto 6.
Qed.

Lemma body_parser_delivers_witness :
  exists b' p' (r' : list Z),
    body_parser.parse_body (body_parser.reset http.CHUNKED 0 (body_parser.make http.NONE)) []
      (store 64 (sample_chunks ++ str "x")) = Ok (http.COMPLETE, b', p', r') /\
    unprocessed b' = str "x" /\ r' = [] ++ str "abc".
Proof.
  refine (body_parser_delivers ([] : list Z) (store 64 (sample_chunks ++ str "x"))
    (body_parser.make http.NONE) http.CHUNKED 0 sample_chunks (str "abc") (str "x") _ (collector_ok _) _ _ _).
  - reflexivity.
  - exact sample_chunks_wf.
  - refine (framed_chunked (R := list Z) 0 [(str "3", str "abc")] (str "0") _ _).
    + constructor; [|constructor]. split; [|reflexivity].
      constructor; [repeat constructor|discriminate|reflexivity].
    + constructor; [repeat constructor|discriminate|reflexivity].
  - reflexivity.
Defined.

(** The body parsers return: at every point of a run the next call
    returns, after [INCOMPLETE] on any buffer and after [WRITE_INCOMPLETE]
    on the same one, without aborting and without reading outside the
    buffer, and the chunked parser needs no more than five turns of its loop
    for a byte. *)
Theorem body_parsers_return {R} `{BodyReceiver R} n max (r0 : R) :
  0 <= n < 2 ^ 32 -> 0 <= max <= 8 -> receiver_ok r0 ->
  (forall st b p r consumed,
     run content_length_body_parser.parse_content_length_body
       (content_length_body_parser.reset n) r0 st b p r consumed ->
     (st = http.INCOMPLETE -> forall b', wf b' ->
        exists x, content_length_body_parser.parse_content_length_body p r b' = Ok x) /\
     (st = http.WRITE_INCOMPLETE ->
        exists x, content_length_body_parser.parse_content_length_body p r b = Ok x)) /\
  (forall st b p r consumed,
     run chunked_body_parser.parse_body (chunked_body_parser.make max) r0 st b p r consumed ->
     (st = http.INCOMPLETE -> forall b', wf b' ->
        exists x, chunked_body_parser.parse_body p r b' = Ok x) /\
     (st = http.WRITE_INCOMPLETE -> exists x, chunked_body_parser.parse_body p r b = Ok x)).
Proof.
  intros Hn Hmax Hok. split; intros st b p r consumed Hrun.
  { exact (content_length_returns n r0 st b p r consumed Hn Hok Hrun). }
  apply (chunk_run max Hmax _ _ _ _ _ _ _ eq_refl Hok) in Hrun. split; intros ->.
  - intros b' Hwf.
    assert (ck_inv max (received r0) p r b consumed /\ waits p.(chunked_body_parser.state_) = true)
      as [Hinv Hw] by (destruct Hrun as [(? & ? & _)|(_ & ? & ?)]; done).
    destruct (chunk_call max Hmax _ _ _ _ _ (ck_inv_buffer max _ _ _ _ b' _ Hinv Hw Hwf))
      as (? & ? & ? & ? & Hp & _). eauto.
  - destruct Hrun as [[Hinv _]|(? & _)]; [|done].
    destruct (chunk_call max Hmax _ _ _ _ _ Hinv) as (? & ? & ? & ? & Hp & _). eauto.
Qed.

Lemma body_parsers_return_witness :
  exists x, chunked_body_parser.parse_body (chunked_body_parser.make 8) ([] : list Z)
    (store 64 (str "3")) = Ok x.
Proof.
  assert (wf (store 64 (str "3"))) as Hwf by (apply sample_wf; [forall_concrete|simpl; lia]).
  apply (proj1 (proj2 (body_parsers_return 3 8 ([] : list Z) ltac:(lia) ltac:(lia) (collector_ok _)) _ _ _ _ _
    (run_start _ _ _ _ Hwf)) eq_refl _ Hwf).
Defined.

(** A chunk-size line without any digit is taken for the last chunk. *)
Lemma empty_chunk_size_is_zero :
  exists b' p', chunked_body_parser.parse_body (chunked_body_parser.make CHUNK_SIZE_LENGTH)
    ([] : list Z) (store 64 [CR; LF; CR; LF]) = Ok (http.COMPLETE, b', p', []).
Proof. do 2 eexists. vm_compute. reflexivity. Qed.

End collector.

(** The receiver's answer to the end of a chunked body is not looked at: the
    parser answers [COMPLETE] when the receiver asked to be called again. *)
Lemma end_of_chunks_status_ignored {R} `{i_body_receiver R} p (r r1 r2 : R) b b2 st :
  p.(chunked_body_parser.state_) = chunked_body_parser.FORWARD_TRAILER_CRLF ->
  p.(chunked_body_parser.chunksize_) = 0 ->
  forward_chunk_trailer r = Ok (r1, http.COMPLETE) ->
  set_body r1 (rwb.make 0) true = Ok (r2, b2, st) ->
  chunked_body_parser.parse_body p r b = Ok (http.COMPLETE, b, p, r2).
Proof.
  intros Es E0 Ht Hs. unfold chunked_body_parser.parse_body.
  rewrite Nat.add_succ_r. cbn [chunked_body_parser.parse_loop].
  unfold chunked_body_parser.parse_step. rewrite Es.
  unfold chunked_body_parser.do_forward_trailer. by rewrite Ht, bind_ok, E0, Z.eqb_refl, Hs.
Qed.
