(* ===== verification/BodyRun.v ===== *)
(** The body parser over the buffers of a connection, whatever the encoding:
    what a receiver was given at every point of a body, and what one more
    call does.  This is the form in which the proxy uses the body parsers. *)
From S2P Require Import Prelude Status ReadWriteBuffer HttpLex Interfaces BodyParsers.

(** * What the parsers never change *)
Section keeps.
Import chunked_body_parser.

Lemma parse_chunk_size_max n : forall p b st b' p',
  parse_chunk_size_loop n p b = Ok (st, b', p') ->
  p'.(max_chunksize_length_) = p.(max_chunksize_length_).
Proof.
  induction n as [|n IH]; intros p b st b' p' Hp; cbn [parse_chunk_size_loop] in Hp;
    (destruct (_ <=? _); [by injection Hp as <- <- <-|]); [done|].
  apply bind_ok_inv in Hp as (ch & _ & Hp). repeat (case_match; try by injection Hp as <- <- <-);
    apply bind_ok_inv in Hp as (b1 & _ & Hp); try (apply IH in Hp; exact Hp); by injection Hp as <- <- <-.
Qed.

Context {R : Type} `{i_body_receiver R}.

(** What every operation of the receiver keeps, the parsers keep. *)
Variable Q : R -> R -> Prop.
Context `{!PreOrder Q}.
Hypothesis set_body_keeps : forall r b c r' b' st, set_body r b c = Ok (r', b', st) -> Q r r'.
Hypothesis set_chunk_size_keeps : forall r n r', set_chunk_size r n = Ok r' -> Q r r'.
Hypothesis forward_chunk_size_keeps : forall r r' st, forward_chunk_size r = Ok (r', st) -> Q r r'.
Hypothesis forward_trailer_keeps : forall r r' st, forward_chunk_trailer r = Ok (r', st) -> Q r r'.

Ltac step_ends := match goal with H : Ok _ = Ok _ |- _ => injection H as <- <- <- <- end; eauto.

Lemma parse_step_keeps p (r : R) b o b' p' r' :
  parse_step p r b = Ok (o, b', p', r') ->
  p'.(max_chunksize_length_) = p.(max_chunksize_length_) /\ Q r r'.
Proof.
  assert (Q r r) as Hr by reflexivity. intros Hp. unfold parse_step in Hp. destruct (state_ p).
  - apply bind_ok_inv in Hp as ([[st b1] p1] & Hs & Hp). apply bind_ok_inv in Hp as (b2 & _ & Hp).
    apply parse_chunk_size_max in Hs. destruct st; by step_ends.
  - apply bind_ok_inv in Hp as (b1 & _ & Hp). apply bind_ok_inv in Hp as ([[st b2] cur] & _ & Hp).
    apply bind_ok_inv in Hp as (b3 & _ & Hp). destruct st; by step_ends.
  - apply bind_ok_inv in Hp as ([st b1] & _ & Hp). destruct st; try by step_ends.
    apply bind_ok_inv in Hp as (r1 & Hs & Hp). step_ends.
  - apply bind_ok_inv in Hp as ([r1 st] & Hs & Hp). destruct st; try by step_ends.
    destruct (_ <? _); [by step_ends|]. apply bind_ok_inv in Hp as (b1 & _ & Hp). step_ends.
  - apply bind_ok_inv in Hp as ([[r1 b1] st] & Hs & Hp). destruct st; try by step_ends.
    apply bind_ok_inv in Hp as (b2 & _ & Hp). step_ends.
  - apply bind_ok_inv in Hp as ([[r1 b1] st] & Hs & Hp). destruct st; try by step_ends.
    apply bind_ok_inv in Hp as (b2 & _ & Hp). step_ends.
  - apply bind_ok_inv in Hp as ([st b1] & _ & Hp). destruct st; try by step_ends.
    apply bind_ok_inv in Hp as (b2 & _ & Hp). step_ends.
  - apply bind_ok_inv in Hp as ([st b1] & _ & Hp). destruct st; try by step_ends.
    apply bind_ok_inv in Hp as (b2 & _ & Hp). step_ends.
  - apply bind_ok_inv in Hp as ([r1 st] & Hs & Hp). destruct st; try by step_ends.
    destruct (_ =? _); [|by step_ends].
    apply bind_ok_inv in Hp as ([[r2 b1] st] & Hs2 & Hp). apply forward_trailer_keeps in Hs.
    apply set_body_keeps in Hs2. step_ends. split; [done|by etransitivity].
Qed.

Lemma chunked_keeps p (r : R) b st b' p' r' :
  parse_body p r b = Ok (st, b', p', r') ->
  p'.(max_chunksize_length_) = p.(max_chunksize_length_) /\ Q r r'.
Proof.
  unfold parse_body. generalize (5 * Z.to_nat (rwb.get_working_length b) + 6)%nat. intros n. revert p r b.
  induction n as [|n IH]; intros p r b Hp; [done|]. cbn [parse_loop] in Hp.
  apply bind_ok_inv in Hp as ([[[o b1] p1] r1] & Hs & Hp). apply parse_step_keeps in Hs as [Hm Hq].
  destruct o; [by injection Hp as <- <- <- <-|]. apply IH in Hp as [Hm' Hq'].
  split; [congruence|by etransitivity].
Qed.

Lemma content_length_keeps p (r : R) b st b' p' r' :
  content_length_body_parser.parse_content_length_body p r b = Ok (st, b', p', r') -> Q r r'.
Proof.
  unfold content_length_body_parser.parse_content_length_body. generalize 2%nat. intros n. revert p r b.
  induction n as [|n IH]; intros p r b Hp; [done|]. cbn [content_length_body_parser.parse_loop] in Hp.
  destruct (content_length_body_parser.parse_state_ p).
  - apply bind_ok_inv in Hp as (b1 & _ & Hp). apply bind_ok_inv in Hp as ([[st1 b2] cur] & _ & Hp).
    apply bind_ok_inv in Hp as (b3 & _ & Hp). destruct st1; by apply IH in Hp.
  - apply bind_ok_inv in Hp as ([[r1 b1] st1] & Hs & Hp). destruct st1; step_ends.
  - apply bind_ok_inv in Hp as ([[r1 b1] st1] & Hs & Hp). destruct st1; step_ends.
Qed.

Lemma body_keeps p (r : R) b st b' p' r' :
  body_parser.parse_body p r b = Ok (st, b', p', r') -> Q r r'.
Proof.
  unfold body_parser.parse_body. destruct (body_parser.body_encoding_ p); intros Hp.
  - by injection Hp as <- <- <- <-.
  - apply bind_ok_inv in Hp as ([[[st1 b1] p1] r1] & Hs & Hp). apply chunked_keeps in Hs as [_ Hs].
    by injection Hp as <- <- <- <-.
  - apply bind_ok_inv in Hp as ([[st1 b1] r1] & Hs & Hp). injection Hp as <- <- <- <-.
    apply bind_ok_inv in Hs as ([[r2 b2] st2] & Hs & Hp). injection Hp as <- <- <-. by eapply set_body_keeps.
  - apply bind_ok_inv in Hp as ([[[st1 b1] p1] r1] & Hs & Hp). apply content_length_keeps in Hs.
    by injection Hp as <- <- <- <-.
Qed.

End keeps.

(** * Receivers that take all they are given *)
Section greedy.
Import chunked_body_parser.
Context {R : Type} `{i_body_receiver R}.
Hypothesis takes_body : forall (r : R) b c r' b' st, set_body r b c = Ok (r', b', st) -> st = http.COMPLETE.
Hypothesis takes_size : forall (r : R) r' st, forward_chunk_size r = Ok (r', st) -> st = http.COMPLETE.
Hypothesis takes_trailer : forall (r : R) r' st, forward_chunk_trailer r = Ok (r', st) -> st = http.COMPLETE.

(** The parser was not kept from going on. *)
Definition unblocked (st : http.STATUS) : Prop :=
  match st with
  | http.IOFAILURE | http.WRITE_INCOMPLETE => False
  | _ => True
  end.

Lemma chunk_size_unblocked n : forall p b st b' p',
  parse_chunk_size_loop n p b = Ok (st, b', p') -> unblocked st.
Proof.
  induction n as [|n IH]; intros p b st b' p' Hp; cbn [parse_chunk_size_loop] in Hp;
    (destruct (_ <=? _); [by injection Hp as <- <- <-|]); [done|].
  apply bind_ok_inv in Hp as (ch & _ & Hp). repeat (case_match; try by injection Hp as <- <- <-);
    apply bind_ok_inv in Hp as (b1 & _ & Hp); try (by eapply IH); by injection Hp as <- <- <-.
Qed.

Lemma char_unblocked b c st b' : parse_char_process b c = Ok (st, b') -> unblocked st.
Proof.
  unfold parse_char_process. destruct (_ <=? _); [by intros [= <- _]|]. intros Hp.
  apply bind_ok_inv in Hp as (x & _ & Hp). destruct (x =? c); [|by injection Hp as <- _].
  by apply bind_ok_inv in Hp as (b1 & _ & [= <- _]).
Qed.

Lemma step_unblocked p (r : R) b st b' p' r' :
  parse_step p r b = Ok (Some st, b', p', r') -> unblocked st.
Proof.
  unfold parse_step, do_parse_chunksize, do_parse_chunksize_lf, do_forward_chunksize, do_parse_chunk,
    do_forward_incomplete, do_forward_complete, do_parse_trailer, do_forward_trailer, parse_chunk_size.
  destruct (state_ p); intros Hp.
  - apply bind_ok_inv in Hp as ([[st1 b1] p1] & Hc & Hp). apply chunk_size_unblocked in Hc.
    apply bind_ok_inv in Hp as (b2 & _ & Hp). destruct st1; by simplify_eq/=.
  - apply bind_ok_inv in Hp as (b1 & _ & Hp). apply bind_ok_inv in Hp as ([[st1 b2] n] & _ & Hp).
    apply bind_ok_inv in Hp as (b3 & _ & Hp). by destruct st1.
  - apply bind_ok_inv in Hp as ([st1 b1] & Hc & Hp). apply char_unblocked in Hc.
    destruct st1; try (by simplify_eq/=). by apply bind_ok_inv in Hp as (r1 & _ & Hp).
  - apply bind_ok_inv in Hp as ([r1 st1] & Hc & Hp). apply takes_size in Hc as ->.
    destruct (0 <? _); [done|]. by apply bind_ok_inv in Hp as (b1 & _ & Hp).
  - apply bind_ok_inv in Hp as ([[r1 b1] st1] & Hc & Hp). apply takes_body in Hc as ->.
    by apply bind_ok_inv in Hp as (b2 & _ & [= <- _ _ _]).
  - apply bind_ok_inv in Hp as ([[r1 b1] st1] & Hc & Hp). apply takes_body in Hc as ->.
    by apply bind_ok_inv in Hp as (b2 & _ & Hp).
  - apply bind_ok_inv in Hp as ([st1 b1] & Hc & Hp). apply char_unblocked in Hc.
    destruct st1; try (by simplify_eq/=). by apply bind_ok_inv in Hp as (r1 & _ & Hp).
  - apply bind_ok_inv in Hp as ([st1 b1] & Hc & Hp). apply char_unblocked in Hc.
    destruct st1; try (by simplify_eq/=). by apply bind_ok_inv in Hp as (r1 & _ & Hp).
  - apply bind_ok_inv in Hp as ([r1 st1] & Hc & Hp). apply takes_trailer in Hc as ->.
    destruct (_ =? 0); [|done]. by apply bind_ok_inv in Hp as ([[r2 b2] st2] & _ & [= <- _ _ _]).
Qed.

Lemma chunks_unblocked fuel : forall p (r : R) b st b' p' r',
  parse_loop fuel p r b = Ok (st, b', p', r') -> unblocked st.
Proof.
  induction fuel as [|fuel IH]; intros p r b st b' p' r' Hp; [done|]. cbn [parse_loop] in Hp.
  apply bind_ok_inv in Hp as ([[[o b1] p1] r1] & Hs & Hp). destruct o as [st1|]; [|by eapply IH].
  injection Hp as -> _ _ _. by eapply step_unblocked.
Qed.

Lemma length_unblocked fuel : forall p (r : R) b st b' p' r',
  content_length_body_parser.parse_loop fuel p r b = Ok (st, b', p', r') -> unblocked st.
Proof.
  induction fuel as [|fuel IH]; intros p r b st b' p' r' Hp; [done|].
  cbn [content_length_body_parser.parse_loop] in Hp. destruct (content_length_body_parser.parse_state_ p).
  - apply bind_ok_inv in Hp as (b1 & _ & Hp). apply bind_ok_inv in Hp as ([[st1 b2] n] & _ & Hp).
    apply bind_ok_inv in Hp as (b3 & _ & Hp). destruct st1; by eapply IH.
  - unfold content_length_body_parser.forward_incomplete in Hp. apply bind_ok_inv in Hp as ([[r1 b1] st1] & Hc & Hp).
    apply takes_body in Hc as ->. by injection Hp as <- _ _ _.
  - unfold content_length_body_parser.forward_complete in Hp. apply bind_ok_inv in Hp as ([[r1 b1] st1] & Hc & Hp).
    apply takes_body in Hc as ->. by injection Hp as <- _ _ _.
Qed.

(** A receiver that takes all it is given never blocks the parser. *)
Lemma body_unblocked p (r : R) b st b' p' r' :
  body_parser.parse_body p r b = Ok (st, b', p', r') -> unblocked st.
Proof.
  unfold body_parser.parse_body. destruct (body_parser.body_encoding_ p); intros Hp.
  - by injection Hp as <- _ _ _.
  - apply bind_ok_inv in Hp as ([[[st1 b1] c] r1] & Hc & [= <- _ _ _]). by apply chunks_unblocked in Hc.
  - apply bind_ok_inv in Hp as ([[st1 b1] r1] & Hc & [= <- _ _ _]).
    unfold end_connection_body_parser.parse_end_connection_body in Hc.
    apply bind_ok_inv in Hc as ([[r2 b2] st2] & Hb & [= <- _ _]). by apply takes_body in Hb as ->.
  - apply bind_ok_inv in Hp as ([[[st1 b1] c] r1] & Hc & [= <- _ _ _]). by apply length_unblocked in Hc.
Qed.

End greedy.

#[export] Instance always_preorder (R : Type) : PreOrder (fun _ _ : R => True).
Proof. by split. Qed.

Lemma parse_body_max {R} `{i_body_receiver R} p (r : R) b st b' p' r' :
  chunked_body_parser.parse_body p r b = Ok (st, b', p', r') ->
  p'.(chunked_body_parser.max_chunksize_length_) = p.(chunked_body_parser.max_chunksize_length_).
Proof. intros Hp. by apply (chunked_keeps (fun _ _ => True)) in Hp as [Hp _]. Qed.

(** * A body on the wire *)

(** What a receiver was given for a whole body of this encoding; [n] is the
    announced length. *)
Inductive body_output {R} `{BodyReceiver R} : http.BODY_ENCODING -> Z -> list Z -> Prop :=
  | output_none n : body_output http.NONE n []
  | output_length body : body_output http.CONTENT_LENGTH (raw_size body) body
  | output_chunks n ds : Forall chunk_data ds ->
      body_output http.CHUNKED n (put_out (ds ++ [[]]))
  | output_end n body : body_output http.END_CONNECTION n body.

(** A part of a body. *)
Definition body_part {R} `{BodyReceiver R} (encoding : http.BODY_ENCODING) (n : Z) (l : list Z) : Prop :=
  exists whole, body_output encoding n whole /\ l `prefix_of` whole.

Section body.
Context {R : Type} `{BodyReceiver R}.

Lemma body_part_length n l : raw_size l <= n -> body_part http.CONTENT_LENGTH n l.
Proof.
  intros Hl. pose proof (raw_size_nonneg l). set (l' := l ++ replicate (Z.to_nat (n - raw_size l)) 0).
  assert (raw_size l' = n) as Hn
    by (unfold l', raw_size in *; rewrite length_app, length_replicate; lia).
  exists l'. split; [rewrite <- Hn; constructor|]. by apply prefix_app_r.
Qed.

Lemma body_output_part encoding n l : body_output encoding n l -> body_part encoding n l.
Proof. by exists l. Qed.

Definition max_chunk (p : body_parser.t) : Z :=
  p.(body_parser.chunked_).(chunked_body_parser.max_chunksize_length_).

(** Between two calls: [base] was received before the body, which is
    announced with [n] bytes. *)
Definition body_inv (base : list Z) (n : Z) (p : body_parser.t) (r : R) (b : read_write_buffer) : Prop :=
  wf b /\ receiver_ok r /\ base `prefix_of` received r /\
  match p.(body_parser.body_encoding_) with
  | http.NONE => received r = base
  | http.CONTENT_LENGTH => exists b1 consumed,
      cl_inv n base p.(body_parser.content_length_) r b1 consumed /\
      (b1 = b \/ p.(body_parser.content_length_).(content_length_body_parser.parse_state_) =
         content_length_body_parser.MESSAGE_BODY_PARSE)
  | http.CHUNKED => exists consumed, ck_inv CHUNK_SIZE_LENGTH base p.(body_parser.chunked_) r b consumed
  | http.END_CONNECTION => True
  end.

(** What a call does. *)
Definition body_result (base : list Z) (n : Z) (p : body_parser.t) (r : R) (b : read_write_buffer)
    (x : http.STATUS * read_write_buffer * body_parser.t * R) : Prop :=
  let '(st, b', p', r') := x in
  let encoding := p.(body_parser.body_encoding_) in
  left_ok r r' b b' /\ p'.(body_parser.body_encoding_) = encoding /\ max_chunk p' = max_chunk p /\
  exists out, received r' = base ++ out /\ body_part encoding n out /\
    match st with
    | http.COMPLETE => body_output encoding n out
    | http.INCOMPLETE => forall b2, wf b2 -> body_inv base n p' r' b2
    | _ => body_inv base n p' r' b'
    end.

Lemma sends_part base (r : R) n :
  base `prefix_of` received r -> sends_chunks base r ->
  exists out, received r = base ++ out /\ body_part http.CHUNKED n out.
Proof.
  intros [out Hout] (ds & Hds & Hp). exists out. split; [done|].
  rewrite Hout in Hp. apply prefix_app_inv in Hp. exists (put_out (ds ++ [[]])). split; [by constructor|done].
Qed.

Lemma chunk_range : 0 <= CHUNK_SIZE_LENGTH <= 8.
Proof. unfold CHUNK_SIZE_LENGTH. lia. Qed.

Lemma call_content_length base n p (r : R) b :
  0 <= n < 2 ^ 32 -> body_inv base n p r b ->
  p.(body_parser.body_encoding_) = http.CONTENT_LENGTH ->
  yields True (body_parser.parse_body p r b) (body_result base n p r b).
Proof.
  intros Hn (Hwf & Hok & Hbase & Hinv) Ee. rewrite Ee in Hinv. destruct Hinv as (b1 & consumed & Hcl & Hb).
  assert (exists st b' p' r',
    content_length_body_parser.parse_content_length_body (body_parser.content_length_ p) r b =
      Ok (st, b', p', r') /\ left_ok r r' b b' /\
    cl_result n base st p' r' b' (consumed ++ processed b b'))
    as (st & b' & p' & r' & Hp & Hleft & Hpre & Hle & Hres).
  { destruct Hb as [->|Hs]; [apply content_length_call; [lia|done]|].
    apply (content_length_next n base _ r b1); [lia|done..]. }
  unfold body_parser.parse_body. rewrite Ee, Hp, bind_ok. unfold yields, body_result. rewrite Ee.
  split; [done|]. split; [done|]. split; [done|].
  pose proof (lo_received _ _ _ _ Hleft) as Hrec.
  assert (base `prefix_of` received r') as [out Hout] by (by etransitivity).
  exists out. split; [done|]. rewrite Hout in Hpre. apply prefix_app_inv in Hpre as Hpre'.
  assert (raw_size out <= n) as Hout_le.
  { destruct Hpre' as [l Hl]. rewrite Hl, raw_size_app in Hle. pose proof (raw_size_nonneg l). lia. }
  split; [by apply body_part_length|]. destruct Hleft as [Hwf' Hok' _ _].
  assert (base `prefix_of` received r') as Hbase' by (rewrite Hout; by apply prefix_app_r).
  destruct st.
  1: { destruct Hres as [Heq Hsz]. rewrite Hout in Heq. apply app_inv_head in Heq as ->.
       rewrite <- Hsz. constructor. }
  1: { destruct Hres as (Hinv & Hs & _). intros b2 Hwf2. split; [done|]. split; [done|]. split; [done|].
       simpl. exists b', (consumed ++ processed b b'). auto. }
  all: destruct Hres as [Hinv _]; split; [done|]; split; [done|]; split; [done|];
    simpl; exists b', (consumed ++ processed b b'); auto.
Qed.

Lemma call_chunked base n p (r : R) b :
  body_inv base n p r b -> p.(body_parser.body_encoding_) = http.CHUNKED ->
  yields True (body_parser.parse_body p r b) (body_result base n p r b).
Proof.
  intros (Hwf & Hok & Hbase & Hinv) Ee. rewrite Ee in Hinv. destruct Hinv as [consumed Hck].
  destruct (chunk_call _ chunk_range _ _ _ _ _ Hck) as (st & b' & p' & r' & Hp & Hleft & Hres).
  unfold body_parser.parse_body. rewrite Ee, Hp, bind_ok. apply parse_body_max in Hp.
  unfold yields, body_result. rewrite Ee. split; [done|]. split; [done|]. split; [done|].
  pose proof (lo_received _ _ _ _ Hleft) as Hrec.
  assert (base `prefix_of` received r') as Hbase' by (by etransitivity).
  destruct Hleft as [Hwf' Hok' _ _].
  assert (sends_chunks base r') as Hsends.
  { destruct st.
    1: { destruct Hres as (ds & (s0 & line & Hch & _) & Hr). exists ds.
         split; [exact (chunks_nonempty _ chunk_range _ _ Hch)|by rewrite Hr]. }
    1-2: destruct Hres as [Hres _]; by eapply ck_inv_sends; [apply chunk_range|].
    all: destruct Hres as [consumed' Hres]; by eapply ck_inv_sends; [apply chunk_range|]. }
  destruct (sends_part base r' n Hbase' Hsends) as (out & Hout & Hpart).
  exists out. split; [done|]. split; [done|]. destruct st.
  1: { destruct Hres as (ds & (s0 & line & Hch & _) & Hr). rewrite Hout in Hr. apply app_inv_head in Hr as ->.
       constructor. exact (chunks_nonempty _ chunk_range _ _ Hch). }
  1: { destruct Hres as (Hinv & Hw & _). intros b2 Hwf2. split; [done|]. split; [done|]. split; [done|].
       simpl. eexists. by eapply ck_inv_buffer. }
  1: destruct Hres as [Hinv _].
  2-4: destruct Hres as [consumed' Hinv].
  all: split; [done|]; split; [done|]; split; [done|]; simpl; eauto.
Qed.

Lemma call_end_connection base n p (r : R) b :
  body_inv base n p r b -> p.(body_parser.body_encoding_) = http.END_CONNECTION ->
  yields True (body_parser.parse_body p r b) (body_result base n p r b).
Proof.
  intros (Hwf & Hok & Hbase & _) Ee. unfold body_parser.parse_body. rewrite Ee.
  unfold end_connection_body_parser.parse_end_connection_body.
  pose proof (set_body_yields r b false Hok Hwf) as Hy.
  destruct (set_body r b false) as [[[r' b'] st]| | |]; try done. rewrite !bind_ok.
  destruct Hy as (k & -> & Hk & Hr & _ & Hne & Hok' & _). unfold yields, body_result. rewrite Ee.
  assert (wf (written_to (b.(write_position_) + Z.of_nat k) b)) as Hwf'.
  { apply written_to_wf; [done|]. pose proof Hwf as []. split; [lia|].
    unfold window, slice in Hk. rewrite length_take in Hk. lia. }
  pose proof (written_left r r' b _ _ Hok' Hwf Hwf' Hr) as Hleft.
  assert (base `prefix_of` received r') as Hbase' by (etransitivity; [exact Hbase|apply Hleft]).
  split; [done|]. split; [done|]. split; [done|]. destruct Hbase' as [out Hout]. exists out.
  split; [done|]. assert (body_output http.END_CONNECTION n out) as Hb by constructor.
  split; [by apply body_output_part|].
  assert (base `prefix_of` received r') as Hbase' by (rewrite Hout; by apply prefix_app_r).
  destruct st; try done; try intros b2 Hwf2; (split; [done|]; split; [done|]; split; [done|]; by rewrite Ee).
Qed.

(** One more call, at any point. *)
Lemma body_call base n p (r : R) b :
  0 <= n < 2 ^ 32 -> body_inv base n p r b ->
  yields True (body_parser.parse_body p r b) (body_result base n p r b).
Proof.
  intros Hn Hinv. destruct (body_parser.body_encoding_ p) eqn:Ee.
  - destruct Hinv as (Hwf & Hok & _ & Hr). rewrite Ee in Hr. unfold body_parser.parse_body. rewrite Ee.
    unfold yields, body_result. rewrite Ee.
    split; [by apply left_moved; [..|apply advances_refl]|]. split; [done|]. split; [done|].
    exists []. rewrite app_nil_r. split; [done|].
    assert (body_output http.NONE n []) as Hb by constructor. split; [by apply body_output_part|done].
  - by apply call_chunked.
  - by apply call_end_connection.
  - by apply call_content_length.
Qed.

(** The parser when it was just reset. *)
Lemma body_start encoding size p (r : R) b :
  receiver_ok r -> wf b -> max_chunk p = CHUNK_SIZE_LENGTH ->
  body_inv (received r) (u32 (s32 size)) (body_parser.reset encoding size p) r b.
Proof.
  intros Hok Hwf Hm. split; [done|]. split; [done|]. split; [done|]. destruct encoding; simpl; try done.
  - exists []. unfold chunked_body_parser.reset. unfold max_chunk in Hm. rewrite Hm.
    by apply (ck_start _ chunk_range).
  - exists (written_to 0 b), []. split; [|by right].
    apply content_length_start; [apply u32_bound|done|done].
Qed.

(** At every point a part of a body was received. *)
Lemma body_inv_part base n p (r : R) b :
  0 <= n -> body_inv base n p r b ->
  exists out, received r = base ++ out /\ body_part p.(body_parser.body_encoding_) n out.
Proof.
  intros Hn (Hwf & Hok & Hbase & Hinv). destruct (body_parser.body_encoding_ p).
  - exists []. rewrite app_nil_r. split; [done|]. apply body_output_part. constructor.
  - destruct Hinv as [consumed Hck]. apply sends_part; [done|].
    by eapply ck_inv_sends; [apply chunk_range|].
  - destruct Hbase as [out Hout]. exists out. split; [done|]. apply body_output_part. constructor.
  - destruct Hinv as (b1 & consumed & [] & _).
    assert (received r `prefix_of` base ++ consumed) as Hpre.
    { destruct (content_length_body_parser.parse_state_ _); [by rewrite cl_state| |];
        destruct cl_state as [<- _]; by apply prefix_app_r. }
    destruct Hbase as [out Hout]. exists out. split; [done|]. apply body_part_length.
    rewrite Hout in Hpre. apply prefix_app_inv in Hpre. destruct Hpre as [l ->].
    rewrite raw_size_app in *. pose proof (raw_size_nonneg l). lia.
Qed.

(** Only what the receiver was given and what it has still to put out
    matter. *)
Record same_receiver (r r' : R) : Prop := {
  re_ok : receiver_ok r';
  re_received : received r' = received r;
  re_size : size_left r' = size_left r;
  re_trailer : trailer_left r' = trailer_left r
}.

Lemma body_inv_receiver base n p (r r' : R) b :
  same_receiver r r' -> body_inv base n p r b -> body_inv base n p r' b.
Proof.
  intros [Hok Hr Hs Ht] (Hwf & _ & Hbase & Hinv). unfold body_inv. rewrite Hr.
  split; [done|]. split; [done|]. split; [done|]. destruct (body_parser.body_encoding_ p); try done.
  - destruct Hinv as [consumed [? ? ? (s & ds & Hch & Hck)]]. exists consumed.
    constructor; try done. exists s, ds. split; [done|]. unfold ck_state in *. by rewrite Hr, Hs, Ht.
  - destruct Hinv as (b1 & consumed & [] & Hb). exists b1, consumed. split; [|done].
    constructor; try done. by rewrite Hr.
Qed.

End body.
