(* ===== verification/BodyWindow.v ===== *)
(** Which buffer a body parser may be given next.  A parser that stopped
    because its receiver would block goes on with the write window of the
    buffer it stopped in; the connection reads the next buffer as soon as that
    window is empty.  No byte is lost or sent twice, because a receiver that
    is ready never blocks on an empty window: this is what the receiver
    promises here in addition to [BodyReceiver]. *)
From stdpp Require Import list.
From S2P Require Import Prelude Status ReadWriteBuffer HttpLex Interfaces BodyParsers BodyRun.

Class ReadyReceiver (R : Type) `{BodyReceiver R} := {
  ready : R -> Prop;
  ready_body r b c r' b' st :
    receiver_ok r -> wf b -> set_body r b c = Ok (r', b', st) ->
    match st with
    | http.COMPLETE => ready r'
    | http.INCOMPLETE => window b <> [] \/ ready r -> window b' <> []
    | http.WRITE_INCOMPLETE => False
    | _ => window b' <> []
    end;
  ready_size r r' : receiver_ok r -> forward_chunk_size r = Ok (r', http.COMPLETE) -> ready r'
}.

(** Whether a parser writes from the window of this buffer or goes on to
    write from a window it makes itself. *)
Inductive place := READS | WRITES | FREE.

Definition place_of (p : body_parser.t) : place :=
  match p.(body_parser.body_encoding_) with
  | http.CONTENT_LENGTH =>
      match p.(body_parser.content_length_).(content_length_body_parser.parse_state_) with
      | content_length_body_parser.MESSAGE_BODY_PARSE => READS
      | _ => WRITES
      end
  | http.CHUNKED =>
      match p.(body_parser.chunked_).(chunked_body_parser.state_) with
      | chunked_body_parser.PARSE_CHUNK => READS
      | chunked_body_parser.FORWARD_INCOMPLETE_CHUNK | chunked_body_parser.FORWARD_COMPLETE_CHUNK => WRITES
      | _ => FREE
      end
  | _ => FREE
  end.

Lemma set_write_position_wf n b b' :
  0 <= n -> rwb.set_write_position n b = Ok b' -> wf b -> wf b'.
Proof. intros Hn Hs Hwf. exact (proj1 (rwb_step_wf _ _ (step_set_write _ _ _ Hn Hs) Hwf)). Qed.

Lemma set_write_end_wf n b b' :
  0 <= n -> rwb.set_write_end_position n b = Ok b' -> wf b -> wf b'.
Proof. intros Hn Hs Hwf. exact (proj1 (rwb_step_wf _ _ (step_set_write_end _ _ _ Hn Hs) Hwf)). Qed.

Lemma parse_n_length_wf b cur max st b' cur' :
  parse_n_length_buffer b cur max = Ok (st, b', cur') -> wf b -> wf b'.
Proof.
  unfold parse_n_length_buffer. intros Hp Hwf. apply bind_ok_inv in Hp as ([] & _ & Hp).
  apply bind_ok_inv in Hp as (b1 & Hs & [= _ <- _]).
  exact (proj1 (rwb_step_wf _ _ (step_set_process _ _ _ (proj1 (u32_bound _)) Hs) Hwf)).
Qed.

Lemma process_bound b : wf b -> 0 <= rwb.get_process_position b.
Proof. intros []. unfold rwb.get_process_position. lia. Qed.

Lemma parse_chunk_size_state p b st b' p' :
  chunked_body_parser.parse_chunk_size p b = Ok (st, b', p') ->
  chunked_body_parser.state_ p' = chunked_body_parser.state_ p.
Proof.
  unfold chunked_body_parser.parse_chunk_size. generalize (Z.to_nat (rwb.get_working_length b)). intros n.
  revert p b. induction n as [|n IH]; intros p b Hp; cbn [chunked_body_parser.parse_chunk_size_loop] in Hp;
    (destruct (_ <=? _); [by injection Hp as <- <- <-|]); [done|].
  apply bind_ok_inv in Hp as (ch & _ & Hp). repeat (case_match; try by injection Hp as <- <- <-);
    apply bind_ok_inv in Hp as (b1 & _ & Hp); try (apply IH in Hp; exact Hp); by injection Hp as <- <- <-.
Qed.

Section window.
Context {R : Type} `{ReadyReceiver R}.

(** The condition a call needs: a parser that will write from a window it
    makes finds the receiver ready. *)
Definition settled_at (x : place) (r : R) (b : read_write_buffer) : Prop :=
  match x with
  | READS => ready r
  | WRITES => window b <> [] \/ ready r
  | FREE => True
  end.
Definition settled (p : body_parser.t) (r : R) (b : read_write_buffer) : Prop := settled_at (place_of p) r b.

(** ... and what it leaves. *)
Definition settles (st : http.STATUS) (x : place) (r : R) (b : read_write_buffer) : Prop :=
  match st with
  | http.COMPLETE => True
  | http.INCOMPLETE => x <> WRITES /\ settled_at x r b
  | _ => x <> READS /\ (x = WRITES -> window b <> [])
  end.

(** ** Content length *)
Import content_length_body_parser.

Definition cl_place (p : t) : place := match p.(parse_state_) with MESSAGE_BODY_PARSE => READS | _ => WRITES end.

Lemma forward_settles p (r : R) b st b' p' r' :
  receiver_ok r -> wf b -> window b <> [] \/ ready r -> p.(parse_state_) <> MESSAGE_BODY_PARSE ->
  forward_incomplete p r b = Ok (st, b', p', r') \/
  forward_complete p r b = Ok (st, b', p', r') ->
  settles st (cl_place p') r' b'.
Proof.
  intros Hok Hwf Hset Hne. assert (cl_place p <> READS) by (unfold cl_place; by destruct (parse_state_ p)).
  intros [Hf|Hf]; apply bind_ok_inv in Hf as ([[r1 b1] st1] & Hs & Hf);
    pose proof (ready_body _ _ _ _ _ _ Hok Hwf Hs) as Hr; destruct st1; injection Hf as <- <- <- <-;
    simpl; auto; done.
Qed.

Lemma content_length_settles p (r : R) b st b' p' r' :
  receiver_ok r -> wf b -> settled_at (cl_place p) r b ->
  parse_content_length_body p r b = Ok (st, b', p', r') -> settles st (cl_place p') r' b'.
Proof.
  intros Hok Hwf Hset Hp. unfold parse_content_length_body in Hp. cbn [parse_loop] in Hp.
  unfold cl_place in Hset. destruct (parse_state_ p) eqn:Es.
  - apply bind_ok_inv in Hp as (b1 & Hw1 & Hp). apply bind_ok_inv in Hp as ([[st1 b2] cur] & Hn & Hp).
    apply bind_ok_inv in Hp as (b3 & Hw3 & Hp).
    apply set_write_position_wf in Hw1 as Hwf1; [|by apply process_bound|done].
    apply parse_n_length_wf in Hn as Hwf2; [|done].
    apply set_write_end_wf in Hw3 as Hwf3; [|by apply process_bound|done].
    destruct st1; cbn [parse_state_ transition_to_state with_length] in Hp;
      try (eapply forward_settles; [exact Hok|exact Hwf3|right; exact Hset| |eauto; fail]; done);
      apply bind_ok_inv in Hn as ([] & _ & Hn); apply bind_ok_inv in Hn as (b4 & _ & Hn);
      destruct (_ <? _); discriminate Hn.
  - eapply forward_settles; [exact Hok|exact Hwf|exact Hset| |by left]. by rewrite Es.
  - eapply forward_settles; [exact Hok|exact Hwf|exact Hset| |by right]. by rewrite Es.
Qed.

(** ** Chunks *)
Import chunked_body_parser.

Definition ck_place (p : t) : place :=
  match p.(state_) with
  | PARSE_CHUNK => READS
  | FORWARD_INCOMPLETE_CHUNK | FORWARD_COMPLETE_CHUNK => WRITES
  | _ => FREE
  end.

Lemma step_settles base p (r : R) b consumed o b' p' r' :
  ck_inv CHUNK_SIZE_LENGTH base p r b consumed -> settled_at (ck_place p) r b ->
  parse_step p r b = Ok (o, b', p', r') ->
  match o with
  | Some st => settles st (ck_place p') r' b'
  | None => settled_at (ck_place p') r' b'
  end.
Proof.
  intros [Hwf Hok _ _] Hset Hp. unfold parse_step in Hp. unfold ck_place in Hset.
  destruct (state_ p) eqn:Es.
  - apply bind_ok_inv in Hp as ([[st b1] p1] & Hs & Hp). apply bind_ok_inv in Hp as (b2 & _ & Hp).
    assert (ck_place p1 = FREE) as Hf.
    { unfold ck_place. apply parse_chunk_size_state in Hs. by rewrite Hs, Es. }
    destruct st; injection Hp as <- <- <- <-; simpl; rewrite ?Hf; done.
  - apply bind_ok_inv in Hp as (b1 & Hw1 & Hp). apply bind_ok_inv in Hp as ([[st b2] cur] & Hn & Hp).
    apply bind_ok_inv in Hp as (b3 & Hw3 & Hp).
    destruct st; injection Hp as <- <- <- <-; simpl; unfold ck_place; simpl; rewrite ?Es; auto.
  - apply bind_ok_inv in Hp as ([st b1] & _ & Hp). destruct st; try (injection Hp as <- <- <- <-;
      simpl; unfold ck_place; simpl; rewrite ?Es; done).
    apply bind_ok_inv in Hp as (r1 & _ & Hp). injection Hp as <- <- <- <-. done.
  - apply bind_ok_inv in Hp as ([r1 st] & Hs & Hp). destruct st; try (injection Hp as <- <- <- <-;
      simpl; unfold ck_place; simpl; rewrite ?Es; done).
    apply ready_size in Hs; [|done].
    destruct (_ <? _); [|apply bind_ok_inv in Hp as (b1 & _ & Hp)]; injection Hp as <- <- <- <-; done.
  - apply bind_ok_inv in Hp as ([[r1 b1] st] & Hs & Hp). pose proof (ready_body _ _ _ _ _ _ Hok Hwf Hs) as Hr.
    destruct st; try (injection Hp as <- <- <- <-; simpl; unfold ck_place; simpl; rewrite ?Es; auto; done).
    apply bind_ok_inv in Hp as (b2 & _ & Hp). injection Hp as <- <- <- <-. done.
  - apply bind_ok_inv in Hp as ([[r1 b1] st] & Hs & Hp). pose proof (ready_body _ _ _ _ _ _ Hok Hwf Hs) as Hr.
    destruct st; try (injection Hp as <- <- <- <-; simpl; unfold ck_place; simpl; rewrite ?Es; auto; done).
    apply bind_ok_inv in Hp as (b2 & _ & Hp). injection Hp as <- <- <- <-. done.
  - apply bind_ok_inv in Hp as ([st b1] & _ & Hp). destruct st; try (injection Hp as <- <- <- <-;
      simpl; unfold ck_place; simpl; rewrite ?Es; done).
    apply bind_ok_inv in Hp as (b2 & _ & Hp). injection Hp as <- <- <- <-. done.
  - apply bind_ok_inv in Hp as ([st b1] & _ & Hp). destruct st; try (injection Hp as <- <- <- <-;
      simpl; unfold ck_place; simpl; rewrite ?Es; done).
    apply bind_ok_inv in Hp as (b2 & _ & Hp). injection Hp as <- <- <- <-. done.
  - apply bind_ok_inv in Hp as ([r1 st] & Hs & Hp). destruct st; try (injection Hp as <- <- <- <-;
      simpl; unfold ck_place; simpl; rewrite ?Es; done).
    destruct (_ =? _); [apply bind_ok_inv in Hp as ([[r2 b2] st2] & _ & Hp)|]; injection Hp as <- <- <- <-; done.
Qed.

Lemma loop_settles base fuel : forall p (r : R) b consumed st b' p' r',
  ck_inv CHUNK_SIZE_LENGTH base p r b consumed -> settled_at (ck_place p) r b ->
  parse_loop fuel p r b = Ok (st, b', p', r') -> settles st (ck_place p') r' b'.
Proof.
  induction fuel as [|fuel IH]; intros p r b consumed st b' p' r' Hinv Hset Hp; [done|].
  cbn [parse_loop] in Hp. destruct (chunk_step _ chunk_range _ _ _ _ _ Hinv) as ([[[o b1] p1] r1] & Hs & _ & Hpost).
  rewrite Hs, bind_ok in Hp. pose proof (step_settles _ _ _ _ _ _ _ _ _ Hinv Hset Hs) as Hset1.
  destruct o as [st1|]; [by injection Hp as <- <- <- <-|]. destruct Hpost as [Hinv1 _].
  by eapply IH.
Qed.

(** ** The body parser *)

Lemma body_settles base n p (r : R) b st b' p' r' :
  body_inv base n p r b -> settled p r b -> body_parser.parse_body p r b = Ok (st, b', p', r') ->
  settles st (place_of p') r' b'.
Proof.
  intros (Hwf & Hok & _ & Hinv) Hset Hp. unfold settled, place_of in *. unfold body_parser.parse_body in Hp.
  destruct (body_parser.body_encoding_ p) eqn:Ee.
  - injection Hp as <- <- <- <-. done.
  - apply bind_ok_inv in Hp as ([[[st1 b1] c] r1] & Hc & [= <- <- <- <-]). simpl.
    destruct Hinv as [consumed Hck]. unfold parse_body in Hc. by eapply loop_settles.
  - apply bind_ok_inv in Hp as ([[st1 b1] r1] & Hc & [= <- <- <- <-]). rewrite Ee. by destruct st1.
  - apply bind_ok_inv in Hp as ([[[st1 b1] c] r1] & Hc & [= <- <- <- <-]). simpl.
    by eapply content_length_settles.
Qed.

(** A parser that is not inside a window may be given any buffer. *)
Lemma body_inv_buffer base n p (r : R) b b2 :
  body_inv base n p r b -> place_of p <> WRITES -> wf b2 -> body_inv base n p r b2.
Proof.
  intros (Hwf & Hok & Hbase & Hinv) Hpl Hwf2. split; [done|]. split; [done|]. split; [done|].
  unfold place_of in Hpl. destruct (body_parser.body_encoding_ p); try done.
  - destruct Hinv as (consumed & [? ? ? (s & ds & Hch & Hst)]). exists consumed. constructor; try done.
    exists s, ds. split; [done|]. unfold ck_state in *. by destruct (state_ _).
  - destruct Hinv as (b1 & consumed & Hcl & Hb). exists b1, consumed. split; [done|]. right.
    by destruct (content_length_body_parser.parse_state_ _).
Qed.

Lemma settled_reset encoding size p (r : R) b :
  ready r -> settled (body_parser.reset encoding size p) r b.
Proof. intros Hr. unfold settled. by destruct encoding. Qed.

(** Only the receiver's readiness matters. *)
Lemma settled_receiver p (r r' : R) b : (ready r -> ready r') -> settled p r b -> settled p r' b.
Proof. intros Hr. unfold settled, settled_at. destruct (place_of p); [auto|intros [?|?]; auto|auto]. Qed.

Lemma settles_settled st p (r : R) b :
  settles st (place_of p) r b -> st = http.WRITE_INCOMPLETE -> settled p r b.
Proof.
  intros Hs ->. unfold settled. destruct Hs as [Hne Hw]. destruct (place_of p); simpl; auto; done.
Qed.

Lemma settles_next p (r : R) b b2 : settles http.INCOMPLETE (place_of p) r b -> settled p r b2.
Proof. intros [Hne Hs]. unfold settled. by destruct (place_of p). Qed.

(** A buffer that was written to its end has an empty window. *)
Lemma written_window b : wf b -> rwb.fully_written b = true -> window b = [].
Proof.
  intros [] Hf. apply Z.leb_le in Hf. apply nil_length_inv. unfold window, slice. rewrite length_take, length_drop. lia.
Qed.

Lemma free_place p (r : R) b :
  wf b -> rwb.fully_written b = true -> settles http.WRITE_INCOMPLETE (place_of p) r b ->
  place_of p <> WRITES /\ forall b2, settled p r b2.
Proof.
  intros Hwf Hf [Hne Hw]. apply written_window in Hf; [|done]. unfold settled.
  destruct (place_of p); try done. by specialize (Hw eq_refl).
Qed.

End window.
