(* ===== verification/Os.v ===== *)
(** The operating system below socketlib/connection.cpp: the system calls the
    code makes are the operations of a class over an abstract kernel state,
    and what their manual pages promise is a second class.  A kernel that
    answers from a script shows that the promises can be kept. *)
From S2P Require Import Prelude ReadWriteBuffer.

(** The values of [errno] the code tells apart. *)
Inductive errno :=
  | EINTR
  | EAGAIN
  | ECONNRESET
  | EPIPE
  | EBADF
  | EINPROGRESS
  | EOTHER (n : Z).

#[export] Instance errno_eq_dec : EqDecision errno.
Proof. solve_decision. Defined.

(** The calls on a connected socket: [read] answers the bytes it stored or an
    error, [write] the number of bytes it took.  [write_calls] bounds the
    calls a socket takes before it blocks or fails: the send queue of a
    socket is finite. *)
Class os (K : Type) := {
  sys_read : K -> Z -> Z -> K * (list Z + errno);
  sys_write : K -> Z -> list Z -> K * (Z + errno);
  sys_setsockopt_cork : K -> Z -> Z -> K;
  sys_fcntl_setfl : K -> Z -> K * bool;
  sys_getpeername : K -> Z -> option (list Z);
  write_calls : K -> Z -> nat
}.

(** The streams of a kernel state are those of another. *)
Record same_streams {K} (sent : K -> Z -> list Z) (open_fd : K -> Z -> Prop) (k k' : K) : Prop := {
  ss_sent fd : sent k' fd = sent k fd;
  ss_open fd : open_fd k fd -> open_fd k' fd
}.

(** What the manual pages promise: [sent] is what was written to a socket so
    far, [open_fd] the descriptors that are valid. *)
Class OsLaws (K : Type) `{os K} := {
  sent : K -> Z -> list Z;
  open_fd : K -> Z -> Prop;
  write_takes k fd data k' n :
    sys_write k fd data = (k', inl n) ->
    0 <= n <= raw_size data /\ sent k' fd = sent k fd ++ take (Z.to_nat n) data /\
    (forall fd', fd' <> fd -> sent k' fd' = sent k fd') /\
    (forall fd', open_fd k fd' -> open_fd k' fd');
  write_fails k fd data k' e :
    sys_write k fd data = (k', inr e) ->
    same_streams sent open_fd k k' /\ (open_fd k fd -> e <> EBADF);
  write_blocks k fd data k' x :
    sys_write k fd data = (k', x) -> (forall e, x = inr e -> e = EINTR) ->
    (write_calls k' fd < write_calls k fd)%nat;
  read_gives k fd n k' l :
    0 <= n -> sys_read k fd n = (k', inl l) -> raw_size l <= n /\ bytes_ok l;
  read_streams k fd n : same_streams sent open_fd k (sys_read k fd n).1;
  cork_streams k fd v : same_streams sent open_fd k (sys_setsockopt_cork k fd v);
  fcntl_streams k fd : same_streams sent open_fd k (sys_fcntl_setfl k fd).1
}.

(** * A scripted kernel *)

(** The answers to the next calls: a write takes as many bytes as the answer
    says, at most all of them; a read gets what the answer holds, cut at the
    buffer's size.  A kernel at the end of its script blocks. *)
Record script := Script {
  writes : list (nat + errno);
  reads : list (list Z + errno);
  out : list (Z * list Z)
}.

Definition sent_to (o : list (Z * list Z)) (fd : Z) : list Z :=
  concat (map (fun p => if p.1 =? fd then p.2 else []) o).

Definition not_ebadf (e : errno) : errno := if decide (e = EBADF) then EPIPE else e.

Definition script_read (k : script) (fd n : Z) : script * (list Z + errno) :=
  match k.(reads) with
  | [] => (k, inr EAGAIN)
  | inl l :: rs =>
      (Script k.(writes) rs k.(out), inl (map (fun c => c mod 256) (take (Z.to_nat n) l)))
  | inr e :: rs => (Script k.(writes) rs k.(out), inr e)
  end.

Definition script_write (k : script) (fd : Z) (data : list Z) : script * (Z + errno) :=
  match k.(writes) with
  | [] => (k, inr EAGAIN)
  | inl n :: ws =>
      let n := Nat.min n (length data) in
      (Script ws k.(reads) (k.(out) ++ [(fd, take n data)]), inl (Z.of_nat n))
  | inr e :: ws => (Script ws k.(reads) k.(out), inr (not_ebadf e))
  end.

#[export] Instance script_os : os script := {
  sys_read := script_read;
  sys_write := script_write;
  sys_setsockopt_cork k _ _ := k;
  sys_fcntl_setfl k _ := (k, true);
  sys_getpeername _ _ := None;
  write_calls k _ := length k.(writes)
}.

Lemma sent_to_snoc o fd l fd' :
  sent_to (o ++ [(fd, l)]) fd' = sent_to o fd' ++ (if fd =? fd' then l else []).
Proof. unfold sent_to. rewrite map_app, concat_app. simpl. by rewrite app_nil_r. Qed.

Lemma script_streams k k' :
  k'.(out) = k.(out) -> same_streams (fun k => sent_to k.(out)) (fun _ _ => True) k k'.
Proof. intros E. constructor; [intros fd; by rewrite E|done]. Qed.

#[export] Program Instance script_laws : OsLaws script := {
  sent k := sent_to k.(out);
  open_fd _ _ := True
}.
Next Obligation.
  intros k fd data k' n. cbn. unfold script_write.
  destruct (writes k) as [|[m|e] ws]; [done| |done]. intros [= <- <-].
  unfold raw_size. split; [lia|]. cbn [out]. split; [|split; [|done]].
  - by rewrite sent_to_snoc, Z.eqb_refl, Nat2Z.id.
  - intros fd' Hne. rewrite sent_to_snoc. replace (fd =? fd') with false by lia. by rewrite app_nil_r.
Qed.
Next Obligation.
  intros k fd data k' e. cbn. unfold script_write.
  destruct (writes k) as [|[m|e'] ws]; [| done|]; intros [= <- <-]; (split; [by apply script_streams|]).
  - done.
  - intros _. unfold not_ebadf. by destruct (decide _).
Qed.
Next Obligation.
  intros k fd data k' x. cbn. unfold script_write.
  destruct (writes k) as [|[m|e] ws]; intros [= <- <-] He; cbn; [by specialize (He _ eq_refl)|lia|lia].
Qed.
Next Obligation.
  intros k fd n k' l Hn. cbn. unfold script_read.
  destruct (reads k) as [|[bs|e] rs]; [done| |done]. intros [= <- <-].
  unfold raw_size. rewrite length_map, length_take. split; [lia|].
  unfold bytes_ok. apply Forall_forall. intros c Hc. apply list_elem_of_fmap in Hc as (y & -> & _).
  apply Z.mod_pos_bound. lia.
Qed.
Next Obligation.
  intros k fd n. cbn. unfold script_read. destruct (reads k) as [|[bs|e] rs]; by apply script_streams.
Qed.
Next Obligation. intros k fd v. by apply script_streams. Qed.
Next Obligation. intros k fd. by apply script_streams. Qed.

Lemma script_open (k : script) fd : open_fd k fd.
Proof. exact I. Qed.
