(* ===== verification/Connection.v ===== *)
(** A socket with its input buffer, socketlib/connection.cpp: its half-open
    states, the non-blocking read into the buffer and the non-blocking write
    of a buffer's window. *)
From S2P Require Import Prelude Status ReadWriteBuffer Interfaces Os.

Module connection.

(** [connection::STATE] *)
Inductive STATE :=
  | NOT_CONNECTED
  | CONNECTED
  | CONNECTING
  | READ_SHUT
  | WRITE_SHUT
  | HUNGUP.

#[export] Instance STATE_eq_dec : EqDecision STATE.
Proof. solve_decision. Defined.

Record t := Connection {
  ready_to_read_ : bool;
  ready_to_write_ : bool;
  fd_ : Z;
  buffer_ : read_write_buffer;
  state_ : STATE;
  ip_addr_ : list Z
}.

Definition make (buffer_length : Z) : t :=
  Connection false false (-1) (rwb.make buffer_length) NOT_CONNECTED (replicate 11 0).

Definition reset (c : t) : t :=
  Connection false false (-1) (rwb.reset c.(buffer_)) NOT_CONNECTED [].

Definition set_ready_to_read (b_value : bool) (c : t) : t :=
  Connection b_value c.(ready_to_write_) c.(fd_) c.(buffer_) c.(state_) c.(ip_addr_).

Definition set_ready_to_write (b_value : bool) (c : t) : t :=
  Connection c.(ready_to_read_) b_value c.(fd_) c.(buffer_) c.(state_) c.(ip_addr_).

Definition open_for_read (c : t) : bool :=
  bool_decide (c.(state_) = CONNECTED) || bool_decide (c.(state_) = WRITE_SHUT).

Definition open_for_write (c : t) : bool :=
  bool_decide (c.(state_) = CONNECTED) || bool_decide (c.(state_) = READ_SHUT).

Definition ready_to_read (c : t) : bool := c.(ready_to_read_) && open_for_read c.
Definition ready_to_write (c : t) : bool := c.(ready_to_write_) && open_for_write c.

Definition state (c : t) : STATE := c.(state_).

(** [state(new_state)]: two [if]s, the second of which has the [else]. *)
Definition set_state (new_state : STATE) (c : t) : t :=
  let with_state s :=
    Connection c.(ready_to_read_) c.(ready_to_write_) c.(fd_) c.(buffer_) s c.(ip_addr_) in
  let s1 := if bool_decide (new_state = WRITE_SHUT) && bool_decide (c.(state_) = READ_SHUT)
            then HUNGUP else c.(state_) in
  if bool_decide (new_state = READ_SHUT) && bool_decide (s1 = WRITE_SHUT)
  then with_state HUNGUP else with_state new_state.

Definition read_buffer (c : t) : read_write_buffer := c.(buffer_).

(** What is assigned through the reference [read_buffer()]. *)
Definition set_read_buffer (b : read_write_buffer) (c : t) : t :=
  Connection c.(ready_to_read_) c.(ready_to_write_) c.(fd_) b c.(state_) c.(ip_addr_).

Definition fd (c : t) : Z := c.(fd_).

Section calls.
Context {K : Type} `{os K}.

(** Linux: [TCP_CORK] is defined and [TCP_NOPUSH] is not. *)
Definition cork_state (k : K) (state : Z) (c : t) : K := sys_setsockopt_cork k c.(fd_) state.
Definition cork (k : K) (c : t) : K := cork_state k 1 c.
Definition uncork (k : K) (c : t) : K := cork_state k 0 c.
Definition flush (k : K) (c : t) : K := cork_state (cork_state k 0 c) 1 c.

Definition set_fd (k : K) (new_fd : Z) (c : t) : K * t :=
  if negb (new_fd =? -1) then
    let c := Connection false false new_fd c.(buffer_) c.(state_) c.(ip_addr_) in
    (cork_state k 1 c, c)
  else (k, Connection c.(ready_to_read_) c.(ready_to_write_) new_fd c.(buffer_) c.(state_) c.(ip_addr_)).

Definition get_ip_addr (k : K) (c : t) : option (list Z) := sys_getpeername k c.(fd_).

Definition set_nonblocking (k : K) (c : t) : K := (sys_fcntl_setfl k c.(fd_)).1.

Definition non_blocking_read (k : K) (c : t) : res (K * t * socketlib.STATUS) :=
  if negb (ready_to_read c) then Ok (k, c, socketlib.COMPLETE)
  else if negb (rwb.fully_written (read_buffer c)) then Ok (k, c, socketlib.COMPLETE)
  else
    let b := rwb.reset (read_buffer c) in
    physical_length ← rwb.get_physical_length b;
    raw ← rwb.get_raw_buffer b;
    _ ← of_option (raw !! 0%nat);
    let c := set_read_buffer b c in
    match sys_read k c.(fd_) physical_length with
    | (k, inl bytes) =>
        raw ← rwb.memcpy raw 0 bytes;
        let b := RWB (Some raw) b.(b_using_static_buffer_) b.(working_length_)
                   b.(process_position_) b.(write_end_position_) b.(write_position_) in
        let c := set_read_buffer b c in
        let ret_val := s32 (raw_size bytes) in
        if ret_val =? 0 then Ok (k, set_state READ_SHUT c, socketlib.SRC_CLOSED)
        else
          b ← rwb.set_working_length (u32 ret_val) b;
          Ok (k, set_read_buffer b c, socketlib.COMPLETE)
    | (k, inr EINTR) => Ok (k, c, socketlib.COMPLETE)
    | (k, inr EAGAIN) => Ok (k, set_ready_to_read false c, socketlib.COMPLETE)
    | (k, inr ECONNRESET) => Ok (k, set_state READ_SHUT c, socketlib.SRC_CLOSED)
    | (k, inr _) => Ok (k, set_state READ_SHUT c, socketlib.SRC_CLOSED)
    end.

(** The [for(;;)] of [non_blocking_write]. *)
Fixpoint write_loop (fuel : nat) (k : K) (c : t) (buf : read_write_buffer)
    : res (K * t * read_write_buffer * socketlib.STATUS) :=
  match fuel with
  | O => NoFuel
  | S fuel =>
    if negb (ready_to_write c) then Ok (k, c, buf, socketlib.INCOMPLETE)
    else
      let start_position := s32 (rwb.get_write_position buf) in
      let num_bytes_to_write := s32 (u32 (rwb.get_write_end_position buf - start_position)) in
      _ ← CHECK_CONDITION (0 <=? num_bytes_to_write);
      _ ← CHECK_CONDITION (u32 num_bytes_to_write <=? rwb.get_write_end_position buf);
      _ ← CHECK_CONDITION (u32 num_bytes_to_write <=? rwb.get_working_length buf);
      physical_length ← rwb.get_physical_length buf;
      _ ← CHECK_CONDITION (rwb.get_working_length buf <=? physical_length);
      _ ← CHECK_CONDITION (0 <=? start_position);
      if (rwb.get_working_length buf =? 0) || (num_bytes_to_write =? 0) then
        Ok (k, c, buf, socketlib.COMPLETE)
      else
        _ ← CHECK_CONDITION (u32 start_position <? rwb.get_working_length buf);
        if num_bytes_to_write =? 0 then Ok (k, c, buf, socketlib.COMPLETE)
        else
          raw ← rwb.get_raw_buffer buf;
          data ← rwb.range raw start_position (start_position + num_bytes_to_write);
          match sys_write k c.(fd_) data with
          | (k, inl ret_val) =>
              buf ← rwb.set_write_position (u32 (start_position + ret_val)) buf;
              if num_bytes_to_write <=? ret_val then Ok (k, c, buf, socketlib.COMPLETE)
              else write_loop fuel k c buf
          | (k, inr e) =>
              _ ← CHECK_CONDITION_VAL (negb (bool_decide (e = EBADF)));
              match e with
              | EINTR => write_loop fuel k c buf
              | EAGAIN => Ok (k, set_ready_to_write false c, buf, socketlib.INCOMPLETE)
              | EPIPE | ECONNRESET => Ok (k, set_state WRITE_SHUT c, buf, socketlib.DEST_CLOSED)
              | _ => Ok (k, set_state WRITE_SHUT c, buf, socketlib.DEST_CLOSED)
              end
          end
  end.

Definition non_blocking_write (k : K) (c : t) (buf : read_write_buffer)
    : res (K * t * read_write_buffer * socketlib.STATUS) :=
  write_loop (S (write_calls k c.(fd_))) k c buf.

End calls.
End connection.

#[export] Existing Instance connection.STATE_eq_dec.
Import connection.

(** * Writing *)
Section writing.
Context {K : Type} `{OsLaws K}.

(** A socket that is open for writing has a valid descriptor. *)
Definition usable (k : K) (c : t) : Prop := open_for_write c = true -> open_fd k c.(fd_).

(** What a write did: [n] bytes of the window went out, in order, to the
    connection's socket and to no other. *)
Record wrote (k : K) (c : t) (b : read_write_buffer) (k' : K) (c' : t) (b' : read_write_buffer)
    (st : socketlib.STATUS) (n : nat) : Prop := {
  wr_buffer : b' = written_to (b.(write_position_) + Z.of_nat n) b;
  wr_le : (n <= length (window b))%nat;
  wr_sent : sent k' c.(fd_) = sent k c.(fd_) ++ take n (window b);
  wr_others fd' : fd' <> c.(fd_) -> sent k' fd' = sent k fd';
  wr_open fd' : open_fd k fd' -> open_fd k' fd';
  wr_fd : c'.(fd_) = c.(fd_);
  wr_input : c'.(buffer_) = c.(buffer_);
  wr_reads : c'.(ready_to_read_) = c.(ready_to_read_);
  wr_writable : open_for_write c' = true -> open_for_write c = true;
  wr_status : match st with
    | socketlib.COMPLETE => n = length (window b) /\ c' = c /\ ready_to_write c = true
    | socketlib.INCOMPLETE => ready_to_write c' = false /\ c'.(state_) = c.(state_) /\
        ((n < length (window b))%nat \/ window b = [] /\ ready_to_write c = false)
    | socketlib.DEST_CLOSED => open_for_write c' = false /\ (n < length (window b))%nat
    | _ => False
    end
}.

Lemma written_to_same b : written_to b.(write_position_) b = b.
Proof. by destruct b. Qed.

Lemma wrote_nothing k c b k' c' st :
  same_streams sent open_fd k k' -> c'.(fd_) = c.(fd_) -> c'.(buffer_) = c.(buffer_) ->
  c'.(ready_to_read_) = c.(ready_to_read_) ->
  (open_for_write c' = true -> open_for_write c = true) ->
  match st with
  | socketlib.COMPLETE => window b = [] /\ c' = c /\ ready_to_write c = true
  | socketlib.INCOMPLETE => ready_to_write c' = false /\ c'.(state_) = c.(state_) /\
      (window b = [] -> ready_to_write c = false)
  | socketlib.DEST_CLOSED => open_for_write c' = false /\ window b <> []
  | _ => False
  end -> wrote k c b k' c' b st 0.
Proof.
  intros [Hs Ho] Hf Hb Hr Hwr Hst. constructor; try done; try lia.
  - by rewrite Z.add_0_r, written_to_same.
  - by rewrite take_0, app_nil_r.
  - destruct st; try done; [by destruct Hst as (-> & ? & ?)|..].
    + destruct Hst as (? & ? & Hne). split; [done|]. split; [done|].
      destruct (window b); simpl; [by auto|left; lia].
    + destruct Hst as [? Hne]. split; [done|]. destruct (window b); simpl; [done|lia].
Qed.

(** A write that took some bytes, and the writes after it. *)
Lemma wrote_more k c b (n : nat) k1 k' c' b' st m :
  wf b -> b.(write_position_) <= b.(write_end_position_) -> (n <= length (window b))%nat ->
  sent k1 c.(fd_) = sent k c.(fd_) ++ take n (window b) ->
  (forall fd', fd' <> c.(fd_) -> sent k1 fd' = sent k fd') ->
  (forall fd', open_fd k fd' -> open_fd k1 fd') ->
  (n < length (window b))%nat \/ st = socketlib.COMPLETE ->
  wrote k1 c (written_to (b.(write_position_) + Z.of_nat n) b) k' c' b' st m ->
  wrote k c b k' c' b' st (n + m).
Proof.
  intros Hwf Hw Hn Hs Ho Hop Hmore [].
  destruct (window_written b n Hwf Hw Hn) as (_ & Hwin & _). rewrite Hwin, ?length_drop in *.
  constructor; try done.
  - rewrite wr_buffer0. unfold written_to. simpl. f_equal. lia.
  - lia.
  - rewrite wr_sent0, Hs, <- app_assoc. f_equal. by rewrite take_take_drop.
  - intros fd' Hne. rewrite wr_others0 by done. auto.
  - auto.
  - destruct st; try done.
    + destruct wr_status0 as (Hs1 & Hs2 & Hs3). split; [lia|done].
    + destruct wr_status0 as (Hs1 & Hs2 & Hs3).
      split; [done|]. split; [done|]. destruct Hs3 as [Hs3|[Hs3 Hr]]; [left; lia|].
      apply (f_equal length) in Hs3. rewrite length_drop in Hs3. simpl in Hs3.
      destruct Hmore; [lia|done].
    + destruct wr_status0 as [Hs1 Hs2]. split; [done|lia].
Qed.

Lemma set_state_write_shut c : open_for_write (set_state WRITE_SHUT c) = false.
Proof. unfold set_state, open_for_write. destruct (state_ c); reflexivity. Qed.

Lemma set_state_read_shut c : open_for_read (set_state READ_SHUT c) = false.
Proof. unfold set_state, open_for_read. destruct (state_ c); reflexivity. Qed.

Lemma set_state_fields s c :
  fd_ (set_state s c) = fd_ c /\ buffer_ (set_state s c) = buffer_ c /\
  ready_to_read_ (set_state s c) = ready_to_read_ c.
Proof. unfold set_state. by destruct (_ && _). Qed.

(** A call of [write] that failed. *)
Lemma write_failed k c b k' e :
  sys_write k c.(fd_) (window b) = (k', inr e) -> open_fd k c.(fd_) -> window b <> [] ->
  e <> EBADF /\
  (e = EAGAIN -> wrote k c b k' (set_ready_to_write false c) b socketlib.INCOMPLETE 0) /\
  wrote k c b k' (set_state WRITE_SHUT c) b socketlib.DEST_CLOSED 0.
Proof.
  intros Hw Ho Hne. apply write_fails in Hw as [Hs He]. split; [auto|].
  destruct (set_state_fields WRITE_SHUT c) as (? & ? & ?).
  split; intros; apply wrote_nothing; try done; rewrite set_state_write_shut; done.
Qed.

Lemma wrote_usable k c b k' c' b' st n : wrote k c b k' c' b' st n -> usable k c -> usable k' c'.
Proof. intros [] Hu Hw. rewrite wr_fd0. auto. Qed.

(** The window is what [write] is given. *)
Lemma window_range b raw :
  wf b -> b.(p_buffer_) = Some raw -> b.(write_position_) <= b.(write_end_position_) ->
  rwb.range raw b.(write_position_) b.(write_end_position_) = Ok (window b).
Proof.
  intros Hwf Hr Hle. pose proof Hwf as []. rewrite wf_vector in Hr. injection Hr as <-.
  rewrite range_slice by (done || lia). done.
Qed.

Lemma write_loop_ok fuel :
  forall k c b, wf b -> b.(write_position_) <= b.(write_end_position_) ->
  usable k c -> (write_calls k c.(fd_) < fuel)%nat ->
  exists k' c' b' st n, write_loop fuel k c b = Ok (k', c', b', st) /\ wrote k c b k' c' b' st n.
Proof.
  induction fuel as [|fuel IH]; intros k c b Hwf Hle Hopen Hfuel; [lia|]. cbn [write_loop].
  destruct (ready_to_write c) eqn:Er; cbn [negb].
  2: { exists k, c, b, socketlib.INCOMPLETE, 0%nat. split; [done|]. by apply wrote_nothing. }
  assert (open_fd k c.(fd_)) as Hfd by (apply Hopen; by apply andb_true_iff in Er as [_ ?]).
  pose proof Hwf as []. unfold rwb.get_write_position, rwb.get_write_end_position,
    rwb.get_working_length, rwb.get_physical_length, rwb.get_raw_buffer.
  set (n := write_end_position_ b - write_position_ b).
  rewrite (s32_small (write_position_ b)) by lia. fold n.
  rewrite !(u32_small n), (s32_small n), !(u32_small n), (u32_small (write_position_ b)) by (unfold n; lia).
  rewrite wf_vector.
  pose proof (raw_size_nonneg (raw_of b)).
  rewrite (check_true (0 <=? n)), bind_ok by lia. rewrite (check_true (n <=? _)), bind_ok by lia.
  rewrite (check_true (n <=? _)), bind_ok by lia. cbn [of_option]. rewrite !bind_ok.
  rewrite (u32_small (raw_size _)) by lia.
  rewrite (check_true (_ <=? raw_size _)), bind_ok by lia.
  rewrite (check_true (0 <=? write_position_ b)), bind_ok by lia.
  pose proof (window_length b Hwf Hle) as Hwl.
  destruct (_ || _) eqn:E0.
  { exists k, c, b, socketlib.COMPLETE, 0%nat. split; [done|]. apply wrote_nothing; try done.
    split; [|done]. apply nil_length_inv. apply orb_true_iff in E0 as [E0|E0]; breflect; lia. }
  breflect. rewrite (check_true (write_position_ b <? _)), bind_ok by lia.
  replace (n =? 0) with false by lia.
  replace (write_position_ b + n) with (write_end_position_ b) by lia.
  rewrite window_range, bind_ok by done.
  destruct (sys_write k (fd_ c) (window b)) as [k1 [m|e]] eqn:Ew.
  - pose proof (write_blocks _ _ _ _ _ Ew ltac:(done)) as Hless.
    apply write_takes in Ew as (Hm & Hs & Ho & Hop). unfold raw_size in Hm.
    rewrite u32_small, set_write_position_ok, bind_ok by lia.
    fold (written_to (write_position_ b + m) b).
    destruct (window_written b (Z.to_nat m) Hwf Hle) as (Hwf' & Hwin & Hle'); [lia|].
    rewrite Z2Nat.id in Hwf', Hwin, Hle' by lia.
    assert (forall k' c' b' st j, m < n \/ st = socketlib.COMPLETE ->
      wrote k1 c (written_to (write_position_ b + m) b) k' c' b' st j ->
      wrote k c b k' c' b' st (Z.to_nat m + j)) as Hmore.
    { intros k' c' b' st j Hl Hj. apply (wrote_more _ _ _ _ k1); try done; [lia| |].
      - destruct Hl; [left; lia|by right].
      - by rewrite Z2Nat.id by lia. }
    destruct (Z.leb_spec n m).
    + do 5 eexists. split; [reflexivity|]. apply Hmore; [by right|]. apply wrote_nothing; try done.
      split; [|done]. rewrite Hwin. apply skipn_all2. lia.
    + destruct (IH k1 c _ Hwf' Hle' (fun Hw => Hop _ (Hopen Hw))) as (k' & c' & b' & st & j & Hl & Hj); [lia|].
      rewrite Hl. do 5 eexists. split; [reflexivity|]. apply Hmore; [by left|done].
  - assert (window b <> []) as Hnil by (intros E; rewrite E in Hwl; simpl in Hwl; lia).
    destruct (write_failed k c b k1 e Ew Hfd Hnil) as (Hne & Hagain & Hclosed).
    rewrite bool_decide_eq_false_2 by done.
    change (CHECK_CONDITION_VAL (negb false)) with (Ok tt). rewrite bind_ok.
    destruct e; try done; try (do 5 eexists; split; [reflexivity|]; by eauto).
    pose proof (write_blocks _ _ _ _ _ Ew ltac:(congruence)) as Hless.
    apply write_fails in Ew as [[Hs Ho] _].
    destruct (IH k1 c b Hwf Hle (fun Hw => Ho _ (Hopen Hw))) as (k' & c' & b' & st & j & Hl & Hj); [lia|].
    rewrite Hl. exists k', c', b', st, j. split; [done|].
    change j with (0 + j)%nat. apply (wrote_more _ _ _ _ k1); try done; [lia| |left; lia|].
    + by rewrite Hs, take_0, app_nil_r.
    + by rewrite Z.add_0_r, written_to_same.
Qed.

Lemma write_ok k c b :
  wf b -> b.(write_position_) <= b.(write_end_position_) -> usable k c ->
  exists k' c' b' st n, non_blocking_write k c b = Ok (k', c', b', st) /\ wrote k c b k' c' b' st n.
Proof. intros Hwf Hle Ho. apply write_loop_ok; try done. lia. Qed.

End writing.

(** The vector of a buffer is the same one, whatever its positions. *)
Record same_vector (b b' : read_write_buffer) : Prop := {
  sv_vector : b'.(p_buffer_) = b.(p_buffer_);
  sv_static : b'.(b_using_static_buffer_) = b.(b_using_static_buffer_)
}.

#[export] Instance same_vector_preorder : PreOrder same_vector.
Proof. split; [by constructor|]. intros b1 b2 b3 [] []. constructor; congruence. Qed.

Lemma write_loop_same {K} `{os K} fuel : forall (k : K) c b k' c' b' st,
  write_loop fuel k c b = Ok (k', c', b', st) -> same_vector b b'.
Proof.
  induction fuel as [|fuel IH]; intros k c b k' c' b' st Hw; [done|]. cbn [write_loop] in Hw.
  destruct (negb (ready_to_write c)); [by injection Hw as <- <- <- <-|].
  do 3 apply bind_ok_inv in Hw as ([] & _ & Hw). apply bind_ok_inv in Hw as (n & _ & Hw).
  do 2 apply bind_ok_inv in Hw as ([] & _ & Hw).
  destruct (_ || _); [by injection Hw as <- <- <- <-|].
  apply bind_ok_inv in Hw as ([] & _ & Hw). destruct (_ =? 0); [by injection Hw as <- <- <- <-|].
  apply bind_ok_inv in Hw as (raw & _ & Hw). apply bind_ok_inv in Hw as (data & _ & Hw).
  destruct (sys_write _ _ _) as [k1 [n1|e]].
  - apply bind_ok_inv in Hw as (b1 & Hb & Hw).
    assert (same_vector b b1) as Hs
      by (unfold rwb.set_write_position in Hb; inv_res; by constructor).
    destruct (_ <=? _); [by injection Hw as <- <- <- <-|]. etransitivity; [exact Hs|]. by eapply IH.
  - apply bind_ok_inv in Hw as ([] & _ & Hw).
    destruct e; try by injection Hw as <- <- <- <-. by eapply IH.
Qed.

Lemma write_same {K} `{os K} (k : K) c b k' c' b' st :
  non_blocking_write k c b = Ok (k', c', b', st) -> same_vector b b'.
Proof. unfold non_blocking_write. intros Hw. exact (write_loop_same _ _ _ _ _ _ _ _ Hw). Qed.

(** * Reading *)
Section reading.
Context {K : Type} `{OsLaws K}.

(** The input buffer of a connection: it owns a vector of [n] bytes. *)
Record input_ok (n : Z) (b : read_write_buffer) : Prop := {
  in_wf : wf b;
  in_size : raw_size (raw_of b) = n;
  in_owned : b.(b_using_static_buffer_) = false
}.

Lemma input_make n : 0 <= n < 2 ^ 31 -> input_ok n (rwb.make n).
Proof.
  intros Hn. constructor; [by apply make_wf| |done].
  unfold raw_size, raw_of. simpl. rewrite length_replicate. lia.
Qed.

Lemma input_reset n b :
  input_ok n b -> rwb.reset b = RWB (Some (raw_of b)) false 0 0 0 0 /\ input_ok n (rwb.reset b).
Proof.
  intros [Hwf Hs Ho]. pose proof (reset_wf _ Hwf) as Hr. revert Hr. unfold rwb.reset. rewrite Ho.
  cbn [negb]. destruct Hwf. rewrite wf_vector. intros Hr. split; [done|]. by constructor.
Qed.

Lemma memcpy_fits raw bytes :
  raw_size bytes <= raw_size raw -> exists raw', rwb.memcpy raw 0 bytes = Ok raw'.
Proof.
  intros Hle. unfold rwb.memcpy. rewrite Z.add_0_l.
  replace (raw_size bytes <=? raw_size raw) with true by lia. eauto.
Qed.

(** The buffer after a read of [bytes] into it. *)
Lemma filled_ok n raw raw' bytes :
  input_ok n (RWB (Some raw) false 0 0 0 0) -> bytes_ok bytes ->
  rwb.memcpy raw 0 bytes = Ok raw' ->
  input_ok n (RWB (Some raw') false 0 0 0 0) /\
  exists b, rwb.set_working_length (raw_size bytes) (RWB (Some raw') false 0 0 0 0) = Ok b /\
    input_ok n b /\ unprocessed b = bytes /\ window b = bytes.
Proof.
  intros [[] Hs _] Hb Hm. unfold raw_of in *. cbn in *.
  pose proof (memcpy_ok _ _ _ _ Hm wf_bytes Hb) as [Hs' Hb'].
  pose proof (memcpy_append _ _ _ _ Hm) as Happ. apply memcpy_inv in Hm as (_ & Hle & _).
  pose proof (raw_size_nonneg bytes). cbn [Z.to_nat take app] in Happ. rewrite Z.add_0_l in *.
  split; [constructor; cbn; [constructor; cbn; done || lia|lia|done]|].
  eexists. split.
  { unfold rwb.set_working_length, rwb.get_raw_buffer. cbn [p_buffer_ of_option].
    rewrite (check_true (raw_size bytes <=? _)), bind_ok by lia. unfold rwb.set_write_end_position. cbn [working_length_].
    rewrite (check_true (raw_size bytes <=? _)), !bind_ok by lia.
    unfold rwb.set_write_position. cbn [working_length_].
    rewrite (check_true (0 <=? _)), bind_ok by lia. reflexivity. }
  cbn. split; [constructor; cbn; [constructor; cbn; done || lia|lia|done]|].
  unfold unprocessed, content, window, slice, raw_of. cbn. rewrite drop_0, Z.sub_0_r. done.
Qed.

(** What a read does: nothing when the socket is not ready or bytes of the
    last read are still to be written, else one [read] of the buffer's
    size, whose answer is told apart. *)
Definition read_outcome (c c' : t) (st : socketlib.STATUS) (x : list Z + errno) : Prop :=
  match x with
  | inl [] => st = socketlib.SRC_CLOSED /\ open_for_read c' = false
  | inl bytes => st = socketlib.COMPLETE /\ unprocessed c'.(buffer_) = bytes /\
      window c'.(buffer_) = bytes /\ c'.(state_) = c.(state_) /\ c'.(ready_to_read_) = true
  | inr EINTR => st = socketlib.COMPLETE /\ content c'.(buffer_) = [] /\ c'.(state_) = c.(state_) /\
      c'.(ready_to_read_) = true
  | inr EAGAIN => st = socketlib.COMPLETE /\ content c'.(buffer_) = [] /\ c'.(state_) = c.(state_) /\
      c'.(ready_to_read_) = false
  | inr _ => st = socketlib.SRC_CLOSED /\ open_for_read c' = false
  end.

Record same_socket (c c' : t) : Prop := {
  so_fd : c'.(fd_) = c.(fd_);
  so_writes : c'.(ready_to_write_) = c.(ready_to_write_)
}.

Lemma read_happens n k c :
  input_ok n c.(buffer_) -> 0 < n -> ready_to_read c = true ->
  rwb.fully_written c.(buffer_) = true ->
  exists c' st, non_blocking_read k c = Ok ((sys_read k c.(fd_) n).1, c', st) /\
    read_outcome c c' st (sys_read k c.(fd_) n).2 /\ input_ok n c'.(buffer_) /\ same_socket c c'.
Proof.
  intros Hb Hn Hr Hf. unfold non_blocking_read. rewrite Hr. unfold read_buffer. rewrite Hf. cbn [negb].
  assert (ready_to_read_ c = true) as Hrr by (unfold ready_to_read in Hr; apply andb_true_iff in Hr; apply Hr).
  destruct (input_reset n _ Hb) as [-> Hb0]. set (raw := raw_of (buffer_ c)).
  pose proof Hb as [Hwf Hs _]. pose proof Hwf as [].
  unfold rwb.get_physical_length, rwb.get_raw_buffer. cbn [p_buffer_ of_option]. rewrite !bind_ok.
  fold raw in Hs, wf_size. rewrite u32_small by lia. rewrite Hs.
  destruct raw as [|byte raw'] eqn:Eraw; [unfold raw_size in Hs; simpl in Hs; lia|].
  cbn [lookup list_lookup of_option]. rewrite bind_ok. rewrite <- Eraw in *. clear Eraw byte raw'.
  destruct (input_reset n _ Hb) as [E0 Hb1]. fold raw in E0. rewrite E0 in Hb1.
  cbn [fd_ set_read_buffer].
  destruct (sys_read k (fd_ c) n) as [k' [bytes|e]] eqn:Er; cbn [fst snd].
  - apply read_gives in Er as [Hle Hbytes]; [|lia]. pose proof (raw_size_nonneg bytes).
    destruct (memcpy_fits raw bytes) as [raw' Em]; [lia|]. rewrite Em.
    rewrite bind_ok. destruct (filled_ok n raw raw' bytes Hb1 Hbytes Em) as (Hb2 & b & Hsw & Hb3 & Hu & Hw).
    cbn [b_using_static_buffer_ working_length_ process_position_ write_end_position_ write_position_].
    rewrite s32_small by lia. destruct (Z.eqb_spec (raw_size bytes) 0) as [E|].
    + do 2 eexists. split; [reflexivity|].
      destruct bytes; [|unfold raw_size in E; simpl in E; lia].
      destruct (set_state_fields READ_SHUT
        (set_read_buffer (RWB (Some raw') false 0 0 0 0) (set_read_buffer (RWB (Some raw) false 0 0 0 0) c)))
        as (F1 & F2 & F3).
      split; [split; [done|apply set_state_read_shut]|]. split; [by rewrite F2|].
      constructor; [by rewrite F1|]. unfold set_state. by destruct (_ && _).
    + rewrite u32_small, Hsw, bind_ok by lia. do 2 eexists. split; [reflexivity|].
      split; [|split; [done|by constructor]]. destruct bytes; [done|]. by repeat split.
  - assert (read_outcome c (set_state READ_SHUT (set_read_buffer (RWB (Some raw) false 0 0 0 0) c))
      socketlib.SRC_CLOSED (inr ECONNRESET)) as Hclosed by (split; [done|apply set_state_read_shut]).
    destruct (set_state_fields READ_SHUT (set_read_buffer (RWB (Some raw) false 0 0 0 0) c)) as (F1 & F2 & F3).
    assert (same_socket c (set_state READ_SHUT (set_read_buffer (RWB (Some raw) false 0 0 0 0) c)))
      as Hsame by (constructor; [by rewrite F1|unfold set_state; by destruct (_ && _)]).
    destruct e; do 2 eexists; (split; [reflexivity|]);
      try (split; [exact Hclosed|split; [by rewrite F2|exact Hsame]]);
      (split; [by repeat split|split; [done|by constructor]]).
Qed.

End reading.

(** * Properties *)

(** C21: [non_blocking_write] of a well-formed buffer to an open socket
    returns; it sends some bytes from the front of the buffer's write window
    to this socket and to no other, in order, each byte once, moves the write
    position past exactly those, and touches nothing else of the buffer.
    [COMPLETE] means the whole window was sent, [INCOMPLETE] that the socket
    is no longer ready to write, [DEST_CLOSED] that it is closed for
    writing, with some of the window not sent. *)
Theorem non_blocking_write_spec {K} `{OsLaws K} (k : K) (c : t) (b : read_write_buffer) :
  wf b -> b.(write_position_) <= b.(write_end_position_) -> usable k c ->
  exists k' c' st (n : nat),
    non_blocking_write k c b = Ok (k', c', written_to (b.(write_position_) + Z.of_nat n) b, st) /\
    (n <= length (window b))%nat /\
    sent k' c.(fd_) = sent k c.(fd_) ++ take n (window b) /\
    (forall fd', fd' <> c.(fd_) -> sent k' fd' = sent k fd') /\
    c'.(fd_) = c.(fd_) /\ c'.(buffer_) = c.(buffer_) /\
    match st with
    | socketlib.COMPLETE => n = length (window b) /\ c' = c /\ ready_to_write c = true
    | socketlib.INCOMPLETE => ready_to_write c' = false /\ c'.(state_) = c.(state_) /\
        ((n < length (window b))%nat \/ window b = [] /\ ready_to_write c = false)
    | socketlib.DEST_CLOSED => open_for_write c' = false /\ (n < length (window b))%nat
    | _ => False
    end.
Proof.
  intros Hwf Hle Ho. destruct (write_ok k c b Hwf Hle Ho) as (k' & c' & b' & st & n & Hw & []).
  exists k', c', st, n. rewrite Hw, wr_buffer0. done.
Qed.

Definition sample_connection : t := Connection true true 3 (rwb.make 8) CONNECTED [].

Definition sample_window : read_write_buffer := written_to 1 (store 8 (str "abcd")).

Lemma non_blocking_write_spec_witness :
  exists c' st n, (n <= 3)%nat /\
    non_blocking_write (Script [inl 2%nat; inr EINTR] [] [(3, str "x")]) sample_connection sample_window =
    Ok (Script [] [] [(3, str "x"); (3, str "bc")], c', written_to (1 + Z.of_nat n) sample_window, st) /\
    st = socketlib.INCOMPLETE /\ n = 2%nat.
Proof.
  destruct (non_blocking_write_spec (Script [inl 2%nat; inr EINTR] [] [(3, str "x")])
    sample_connection sample_window) as (k' & c' & st & n & Hw & Hn & Hsent & _).
  - apply written_to_wf; [|split; discriminate].
    destruct (stored_store 8 (str "abcd")) as [[] _]; [forall_concrete|simpl; lia|lia|done].
  - discriminate.
  - intros _. exact I.
  - vm_compute in Hw. injection Hw as <- <- Hn' <-.
    assert (n = 2%nat) as -> by (vm_compute in Hn; destruct n as [|[|[|[|n]]]]; [discriminate..|reflexivity|discriminate|lia]).
    exists (set_ready_to_write false sample_connection), socketlib.INCOMPLETE, 2%nat.
    repeat split; vm_compute in *; lia || reflexivity.
Defined.

(** [non_blocking_read] never drops bytes that are still to be written:
    unless the socket is ready and the buffer fully written it changes
    nothing; otherwise it makes exactly one [read] of the buffer's size, and
    the result tells the answers apart: data (the buffer holds exactly the
    bytes read, nothing processed or written), end of file and errors (closed
    for reading), an interrupted call and a read that would block. *)
Theorem non_blocking_read_spec {K} `{OsLaws K} n (k : K) (c : t) :
  input_ok n c.(buffer_) -> 0 < n ->
  exists k' c' st, non_blocking_read k c = Ok (k', c', st) /\
    input_ok n c'.(buffer_) /\ c'.(fd_) = c.(fd_) /\
    if ready_to_read c && rwb.fully_written c.(buffer_) then
      k' = (sys_read k c.(fd_) n).1 /\ read_outcome c c' st (sys_read k c.(fd_) n).2
    else k' = k /\ c' = c /\ st = socketlib.COMPLETE.
Proof.
  intros Hb Hn. destruct (ready_to_read c) eqn:Er.
  2: { exists k, c, socketlib.COMPLETE. unfold non_blocking_read. by rewrite Er. }
  destruct (rwb.fully_written (buffer_ c)) eqn:Ef.
  2: { exists k, c, socketlib.COMPLETE. unfold non_blocking_read, read_buffer. by rewrite Er, Ef. }
  destruct (read_happens n k c Hb Hn Er Ef) as (c' & st & Hr & Hout & Hb' & []).
  exists (sys_read k c.(fd_) n).1, c', st. done.
Qed.

Lemma non_blocking_read_spec_witness :
  exists k' c' st, non_blocking_read (Script [] [inl (str "GET")] []) sample_connection = Ok (k', c', st) /\
    unprocessed c'.(buffer_) = str "GET".
Proof.
  destruct (non_blocking_read_spec 8 (Script [] [inl (str "GET")] []) sample_connection)
    as (k' & c' & st & Hr & _ & _ & Hout).
  - apply input_make. lia.
  - lia.
  - exists k', c', st. split; [exact Hr|]. exact (proj1 (proj2 (proj2 Hout))).
Defined.

(** The second [if] of [state] undoes the first: shutting the write side of
    a socket whose read side is shut does not make it [HUNGUP] but open for
    reading again. *)
Lemma write_shut_reopens_read c :
  c.(state_) = READ_SHUT -> open_for_read c = false ->
  state (set_state WRITE_SHUT c) = WRITE_SHUT /\ open_for_read (set_state WRITE_SHUT c) = true.
Proof. unfold set_state, open_for_read. intros -> _. done. Qed.
