(* ===== verification/Net.v ===== *)
(** The rest of the operating system the proxy uses: the calls that make,
    connect and close sockets, and the event library below event/poller.cpp,
    with what their manual pages promise, and a kernel with a script for every
    descriptor that keeps the promises. *)
From stdpp Require Import gmap.
From S2P Require Import Prelude ReadWriteBuffer Os.

(** The masks of event.h. *)
Definition EV_READ : Z := 2.
Definition EV_WRITE : Z := 4.

(** The calls of proxylib/; [A] is the type of an IP address.  [getsockopt]
    of [SO_ERROR] answers the pending error, or fails.  An event structure is
    known by its address. *)
Class net (K A : Type) `{os K} := {
  sys_socket : K -> K * Z;
  sys_connect : K -> Z -> A * Z -> K * (unit + errno);
  sys_getsockopt_error : K -> Z -> K * option Z;
  sys_shutdown_rd : K -> Z -> K;
  sys_close : K -> Z -> K;
  sys_accept : K -> Z -> K * Z;
  event_set : K -> Z -> Z -> Z -> K;
  event_add : K -> Z -> option Z -> K;
  event_del : K -> Z -> K;
  event_pending : K -> Z -> bool;
  read_calls : K -> Z -> nat;
  accept_calls : K -> nat
}.

(** The events are as before. *)
Definition same_events {K} (pending : K -> Z -> bool) (watches : K -> Z -> Z * Z) (k k' : K) : Prop :=
  forall e, pending k' e = pending k e /\ watches k' e = watches k e.

(** What the manual pages promise.  [event_watches] is the descriptor and the
    mask an event was set to; an event that is set, added or deleted does not
    change another, and the calls on sockets change none.  [accept] answers a
    finite number of connections. *)
Class NetLaws (K A : Type) `{net K A, !OsLaws K} := {
  event_watches : K -> Z -> Z * Z;
  socket_streams k : same_streams sent open_fd k (sys_socket k).1;
  socket_fresh k k' fd :
    sys_socket k = (k', fd) -> fd <> -1 -> open_fd k' fd /\ not (open_fd k fd);
  accept_streams k lfd : same_streams sent open_fd k (sys_accept k lfd).1;
  accept_fresh k lfd k' fd :
    sys_accept k lfd = (k', fd) -> fd <> -1 ->
    open_fd k' fd /\ not (open_fd k fd) /\ (accept_calls k' < accept_calls k)%nat;
  close_sent k fd fd' : sent (sys_close k fd) fd' = sent k fd';
  close_open k fd fd' : fd' <> fd -> open_fd k fd' -> open_fd (sys_close k fd) fd';
  connect_streams k fd a : same_streams sent open_fd k (sys_connect k fd a).1;
  so_error_streams k fd : same_streams sent open_fd k (sys_getsockopt_error k fd).1;
  shutdown_streams k fd : same_streams sent open_fd k (sys_shutdown_rd k fd);
  event_set_streams k e fd m : same_streams sent open_fd k (event_set k e fd m);
  event_add_streams k e t : same_streams sent open_fd k (event_add k e t);
  event_del_streams k e : same_streams sent open_fd k (event_del k e);
  event_set_watches k e fd m : event_watches (event_set k e fd m) e = (fd, m);
  event_add_watches k e t : event_watches (event_add k e t) e = event_watches k e;
  event_set_others k e fd m e' :
    e' <> e -> event_pending (event_set k e fd m) e' = event_pending k e' /\
    event_watches (event_set k e fd m) e' = event_watches k e';
  event_add_others k e t e' :
    e' <> e -> event_pending (event_add k e t) e' = event_pending k e' /\
    event_watches (event_add k e t) e' = event_watches k e';
  event_del_others k e e' :
    e' <> e -> event_pending (event_del k e) e' = event_pending k e' /\
    event_watches (event_del k e) e' = event_watches k e';
  fcntl_events k fd : same_events event_pending event_watches k (sys_fcntl_setfl k fd).1;
  read_events k fd n : same_events event_pending event_watches k (sys_read k fd n).1;
  write_events k fd data : same_events event_pending event_watches k (sys_write k fd data).1;
  cork_events k fd v : same_events event_pending event_watches k (sys_setsockopt_cork k fd v);
  socket_events k : same_events event_pending event_watches k (sys_socket k).1;
  accept_events k fd : same_events event_pending event_watches k (sys_accept k fd).1;
  connect_events k fd a : same_events event_pending event_watches k (sys_connect k fd a).1;
  so_error_events k fd : same_events event_pending event_watches k (sys_getsockopt_error k fd).1;
  shutdown_events k fd : same_events event_pending event_watches k (sys_shutdown_rd k fd);
  close_events k fd : same_events event_pending event_watches k (sys_close k fd);
  fcntl_open k fd : open_fd k fd -> (sys_fcntl_setfl k fd).2 = true
}.

(** While an event is handled a socket gives a finite number of answers before
    it has nothing to give, whatever else the connection does. *)
Class FiniteReads (K A : Type) `{net K A} := {
  read_answers k fd n k' x :
    sys_read k fd n = (k', x) -> x <> inr EAGAIN -> (read_calls k' fd < read_calls k fd)%nat;
  reads_write k fd data fd' : (read_calls (sys_write k fd data).1 fd' <= read_calls k fd')%nat;
  reads_cork k fd v fd' : (read_calls (sys_setsockopt_cork k fd v) fd' <= read_calls k fd')%nat;
  reads_socket k fd' : (read_calls (sys_socket k).1 fd' <= read_calls k fd')%nat;
  reads_connect k fd a fd' : (read_calls (sys_connect k fd a).1 fd' <= read_calls k fd')%nat;
  reads_event_set k ev fd m fd' : (read_calls (event_set k ev fd m) fd' <= read_calls k fd')%nat;
  reads_event_add k ev t fd' : (read_calls (event_add k ev t) fd' <= read_calls k fd')%nat;
  reads_event_del k ev fd' : (read_calls (event_del k ev) fd' <= read_calls k fd')%nat;
  reads_fcntl k fd fd' : (read_calls (sys_fcntl_setfl k fd).1 fd' <= read_calls k fd')%nat;
  reads_shutdown k fd fd' : (read_calls (sys_shutdown_rd k fd) fd' <= read_calls k fd')%nat;
  reads_so_error k fd fd' : (read_calls (sys_getsockopt_error k fd).1 fd' <= read_calls k fd')%nat
}.

(** * A scripted kernel *)

(** A script for every descriptor, the answers to the calls that make
    sockets, and the events that were set. *)
Record host := Host {
  io : gmap Z script;
  new_sockets : list Z;
  connects : list errno;
  so_errors : list Z;
  connections : list Z;
  events : gmap Z (Z * Z * bool);
  opened : gset Z
}.

Definition no_script : script := Script [] [] [].
Definition io_of (k : host) (fd : Z) : script := default no_script (k.(io) !! fd).

Definition with_io (fd : Z) (s : script) (k : host) : host :=
  Host (<[fd := s]> k.(io)) k.(new_sockets) k.(connects) k.(so_errors) k.(connections) k.(events) k.(opened).
Definition with_events (e : gmap Z (Z * Z * bool)) (k : host) : host :=
  Host k.(io) k.(new_sockets) k.(connects) k.(so_errors) k.(connections) e k.(opened).

#[export] Instance host_os : os host := {
  sys_read k fd n := let '(s, x) := script_read (io_of k fd) fd n in (with_io fd s k, x);
  sys_write k fd data := let '(s, x) := script_write (io_of k fd) fd data in (with_io fd s k, x);
  sys_setsockopt_cork k _ _ := k;
  sys_fcntl_setfl k fd := (k, bool_decide (fd ∈ k.(opened)));
  sys_getpeername _ _ := Some (str "10.0.0.1");
  write_calls k fd := length (io_of k fd).(writes)
}.

(** A descriptor that is handed out is one that was not open. *)
Definition host_socket (k : host) : host * Z :=
  match k.(new_sockets) with
  | fd :: fds =>
      if bool_decide (fd ∈ k.(opened)) then (k, -1)
      else (Host k.(io) fds k.(connects) k.(so_errors) k.(connections) k.(events) ({[fd]} ∪ k.(opened)), fd)
  | [] => (k, -1)
  end.

Definition host_accept (k : host) (_ : Z) : host * Z :=
  match k.(connections) with
  | fd :: fds =>
      if bool_decide (fd ∈ k.(opened)) then (k, -1)
      else (Host k.(io) k.(new_sockets) k.(connects) k.(so_errors) fds k.(events) ({[fd]} ∪ k.(opened)), fd)
  | [] => (k, -1)
  end.

#[export] Instance host_net (A : Type) : net host A := {
  sys_socket := host_socket;
  sys_connect k _ _ :=
    match k.(connects) with
    | e :: es => (Host k.(io) k.(new_sockets) es k.(so_errors) k.(connections) k.(events) k.(opened), inr e)
    | [] => (k, inr EINPROGRESS)
    end;
  sys_getsockopt_error k _ :=
    match k.(so_errors) with
    | e :: es => (Host k.(io) k.(new_sockets) k.(connects) es k.(connections) k.(events) k.(opened), Some e)
    | [] => (k, Some 0)
    end;
  sys_shutdown_rd k _ := k;
  sys_close k fd :=
    Host k.(io) k.(new_sockets) k.(connects) k.(so_errors) k.(connections) k.(events) (k.(opened) ∖ {[fd]});
  sys_accept := host_accept;
  event_set k e fd m := with_events (<[e := (fd, m, false)]> k.(events)) k;
  event_add k e _ := with_events (alter (fun x => (x.1, true)) e k.(events)) k;
  event_del k e := with_events (alter (fun x => (x.1, false)) e k.(events)) k;
  event_pending k e := match k.(events) !! e with Some (_, p) => p | None => false end;
  read_calls k fd := length (io_of k fd).(reads);
  accept_calls k := length k.(connections)
}.

Lemma io_of_same fd s k : io_of (with_io fd s k) fd = s.
Proof. unfold io_of, with_io. simpl. by rewrite lookup_insert_eq. Qed.

Lemma io_of_other fd s k fd' : fd' <> fd -> io_of (with_io fd s k) fd' = io_of k fd'.
Proof. intros Hne. unfold io_of, with_io. simpl. by rewrite lookup_insert_ne. Qed.

Definition host_sent (k : host) (fd : Z) : list Z := sent_to (io_of k fd).(out) fd.

Lemma host_streams k fd s :
  s.(out) = (io_of k fd).(out) ->
  same_streams host_sent (fun k fd => fd ∈ k.(opened)) k (with_io fd s k).
Proof.
  intros E. constructor; [|done]. intros fd'. unfold host_sent.
  destruct (decide (fd' = fd)) as [->|Hne]; [by rewrite io_of_same, E|by rewrite io_of_other].
Qed.

#[export] Program Instance host_laws : OsLaws host := {
  sent := host_sent;
  open_fd k fd := fd ∈ k.(opened)
}.
Next Obligation.
  intros k fd data k' n. cbn. destruct (script_write (io_of k fd) fd data) as [s x] eqn:E.
  intros [= <- ->]. destruct (@write_takes script script_os script_laws _ _ _ _ _ E) as (Hn & Hs & _). split; [done|].
  unfold host_sent. rewrite io_of_same. split; [done|]. split; [|done].
  intros fd' Hne. by rewrite io_of_other.
Qed.
Next Obligation.
  intros k fd data k' e. cbn. destruct (script_write (io_of k fd) fd data) as [s x] eqn:E.
  intros [= <- ->]. destruct (@write_fails script script_os script_laws _ _ _ _ _ E) as [_ He].
  split; [|intros _; by apply He]. apply host_streams. revert E. unfold script_write.
  destruct (writes (io_of k fd)) as [|[m|e'] ws]; [by intros [= <- _]|done|by intros [= <- _]].
Qed.
Next Obligation.
  intros k fd data k' x. cbn. destruct (script_write (io_of k fd) fd data) as [s y] eqn:E.
  intros [= <- ->] He. rewrite io_of_same. exact (@write_blocks script script_os script_laws _ _ _ _ _ E He).
Qed.
Next Obligation.
  intros k fd n k' l Hn. cbn. destruct (script_read (io_of k fd) fd n) as [s y] eqn:E.
  intros [= <- ->]. exact (@read_gives script script_os script_laws _ _ _ _ _ Hn E).
Qed.
Next Obligation.
  intros k fd n. cbn. destruct (script_read (io_of k fd) fd n) as [s y] eqn:E. apply host_streams.
  revert E. unfold script_read. destruct (reads (io_of k fd)) as [|[l|e] rs]; by intros [= <- _].
Qed.
Next Obligation. intros k fd v. constructor; done. Qed.
Next Obligation. intros k fd. constructor; done. Qed.

(** Changes that leave the sockets alone. *)
Lemma host_same k k' :
  k'.(io) = k.(io) -> k'.(opened) = k.(opened) ->
  same_streams host_sent (fun k fd => fd ∈ k.(opened)) k k'.
Proof.
  intros E1 E2. constructor; intros fd; [|congruence]. unfold host_sent, io_of. by rewrite E1.
Qed.

(** A descriptor becomes open. *)
Lemma host_opens k k' fd :
  k'.(io) = k.(io) -> k'.(opened) = {[fd]} ∪ k.(opened) ->
  same_streams host_sent (fun k fd => fd ∈ k.(opened)) k k'.
Proof.
  intros E1 E2. constructor; intros fd'; [unfold host_sent, io_of; by rewrite E1|].
  intros Ho. rewrite E2. by apply elem_of_union_r.
Qed.

#[export] Program Instance host_net_laws (A : Type) : NetLaws host A := {
  event_watches (k : host) e := match (k.(events) !! e : option (Z * Z * bool)) with Some (fd, m, _) => (fd, m) | None => (0, 0) end
}.
Next Obligation.
  intros A k. cbn. unfold host_socket. destruct (new_sockets k) as [|x fds]; [by apply host_same|].
  case_bool_decide; [by apply host_same|by eapply host_opens].
Qed.
Next Obligation.
  intros A k k' fd. cbn. unfold host_socket. destruct (new_sockets k) as [|x fds]; [by intros [= <- <-]|].
  case_bool_decide; intros [= <- <-]; [done|]. intros _. split; [set_solver|done].
Qed.
Next Obligation.
  intros A k lfd. cbn. unfold host_accept. destruct (connections k) as [|x fds]; [by apply host_same|].
  case_bool_decide; [by apply host_same|by eapply host_opens].
Qed.
Next Obligation.
  intros A k lfd k' fd. cbn. unfold host_accept. destruct (connections k) as [|x fds] eqn:E; [by intros [= <- <-]|].
  case_bool_decide as Hin; intros [= <- <-]; [done|]. intros _. cbn. split; [set_solver|]. split; [done|lia].
Qed.
Next Obligation. done. Qed.
Next Obligation. intros A k fd fd' Hne. cbn. set_solver. Qed.
Next Obligation. intros A k fd a. cbn. destruct (connects k); by apply host_same. Qed.
Next Obligation. intros A k fd. cbn. destruct (so_errors k); by apply host_same. Qed.
Next Obligation. intros A k fd. by apply host_same. Qed.
Next Obligation. intros A k e fd m. by apply host_same. Qed.
Next Obligation. intros A k e t. by apply host_same. Qed.
Next Obligation. intros A k e. by apply host_same. Qed.
Next Obligation. intros A k e fd m. cbn. by rewrite lookup_insert_eq. Qed.
Next Obligation. intros A k e t. cbn. rewrite lookup_alter_eq. by destruct (events k !! e) as [[[fd m] p]|]. Qed.
Next Obligation. intros A k e fd m e' Hne. cbn. by rewrite lookup_insert_ne. Qed.
Next Obligation. intros A k e t e' Hne. cbn. by rewrite lookup_alter_ne. Qed.
Next Obligation. intros A k e e' Hne. cbn. by rewrite lookup_alter_ne. Qed.
Next Obligation. done. Qed.
Next Obligation. intros A k fd n e. cbn. by destruct (script_read (io_of k fd) fd n). Qed.
Next Obligation. intros A k fd data e. cbn. by destruct (script_write (io_of k fd) fd data). Qed.
Next Obligation. done. Qed.
Next Obligation.
  intros A k e. cbn. unfold host_socket. destruct (new_sockets k); [done|]. by case_bool_decide.
Qed.
Next Obligation.
  intros A k fd e. cbn. unfold host_accept. destruct (connections k); [done|]. by case_bool_decide.
Qed.
Next Obligation. intros A k fd a e. cbn. by destruct (connects k). Qed.
Next Obligation. intros A k fd e. cbn. by destruct (so_errors k). Qed.
Next Obligation. done. Qed.
Next Obligation. done. Qed.
Next Obligation. intros A k fd Ho. cbn. by apply bool_decide_eq_true. Qed.

#[export] Program Instance host_reads (A : Type) : FiniteReads host A.
Next Obligation.
  intros A k fd n k' x. cbn. destruct (script_read (io_of k fd) fd n) as [sc y] eqn:E. intros [= <- ->] Hne.
  rewrite io_of_same. revert E. unfold script_read.
  destruct (reads (io_of k fd)) as [|[l|er] rs]; intros [= <- <-]; cbn; done || lia.
Qed.
Next Obligation.
  intros A k fd data fd'. cbn. destruct (script_write (io_of k fd) fd data) as [sc y] eqn:E. cbn.
  destruct (decide (fd' = fd)) as [->|Hne]; [|by rewrite io_of_other]. rewrite io_of_same.
  revert E. unfold script_write. by destruct (writes (io_of k fd)) as [|[m|er] ws]; intros [= <- _].
Qed.
Next Obligation. done. Qed.
Next Obligation.
  intros A k fd'. cbn. unfold host_socket. destruct (new_sockets k); [done|]. by case_bool_decide.
Qed.
Next Obligation. intros A k fd a fd'. cbn. by destruct (connects k). Qed.
Next Obligation. done. Qed.
Next Obligation. done. Qed.
Next Obligation. done. Qed.
Next Obligation. done. Qed.
Next Obligation. done. Qed.
Next Obligation. intros A k fd fd'. cbn. by destruct (so_errors k). Qed.
