(* ===== verification/Poller.v ===== *)
(** The thin layer over the event library: event/event.cpp and
    event/poller.cpp.  The poller has no state of its own. *)
From S2P Require Import Prelude Os Net.

Module event.

(** [event_] is the address of the library's structure, the handler a
    pointer. *)
Record t := Event {
  event_ : Z;
  fd_ : Z;
  p_event_handler_ : option Z
}.

Definition make (a : Z) : t := Event a (-1) None.

Section set.
Context {K A : Type} `{net K A}.

Definition set (fd : Z) (p_event_handler : Z) (k : K) (e : t) : K * t :=
  (event_set (A := A) k e.(event_) fd 0, Event e.(event_) fd (Some p_event_handler)).

End set.
End event.

Module poller.
Section poller.
Context {K : Type} (A : Type) `{net K A}.

(** What [event_callback] calls: the handler the event was set to. *)
Definition event_callback (e : event.t) : res Z := of_option e.(event.p_event_handler_).

Definition pending (k : K) (r_event : event.t) : bool := event_pending (A := A) k r_event.(event.event_).

Definition del_event (k : K) (r_event : event.t) : res K :=
  if negb (r_event.(event.fd_) =? -1) && pending k r_event then
    let k := event_del (A := A) k r_event.(event.event_) in
    _ ← CHECK_CONDITION (negb (pending k r_event));
    Ok k
  else Ok k.

(** The statement that should add [EV_TIMEOUT] to the mask compares it
    instead: it does nothing.  When [fcntl] fails the event is not added. *)
Definition add_event (k : K) (r_event : event.t) (event_id timeoutsecs : Z) : res K :=
  k ← (if pending k r_event then
         k ← del_event k r_event;
         _ ← CHECK_CONDITION (negb (pending k r_event));
         Ok k
       else Ok k);
  let '(k, set) := sys_fcntl_setfl k r_event.(event.fd_) in
  if negb set then Ok k
  else
    let k := event_set (A := A) k r_event.(event.event_) r_event.(event.fd_) event_id in
    let k := event_add (A := A) k r_event.(event.event_)
               (if 0 <? timeoutsecs then Some timeoutsecs else None) in
    _ ← CHECK_CONDITION (pending k r_event);
    Ok k.

End poller.
End poller.

Import poller.

Section events.
Context {K A : Type} `{NetLaws K A}.

(** What a call of the poller leaves alone: the sockets, and the events but
    one. *)
Record touches (e : Z) (k k' : K) : Prop := {
  to_streams : same_streams sent open_fd k k';
  to_pending e' : e' <> e -> event_pending (A := A) k' e' = event_pending (A := A) k e';
  to_watches e' : e' <> e -> event_watches (A := A) k' e' = event_watches (A := A) k e'
}.

Lemma streams_refl (k : K) : same_streams sent open_fd k k.
Proof. by constructor. Qed.

Lemma streams_trans (k1 k2 k3 : K) :
  same_streams sent open_fd k1 k2 -> same_streams sent open_fd k2 k3 -> same_streams sent open_fd k1 k3.
Proof. intros [S1 O1] [S2 O2]. constructor; intros fd; [congruence|auto]. Qed.

Lemma touches_refl e (k : K) : touches e k k.
Proof. constructor; [apply streams_refl|done..]. Qed.

Lemma touches_trans e (k1 k2 k3 : K) : touches e k1 k2 -> touches e k2 k3 -> touches e k1 k3.
Proof.
  intros [S1 P1 W1] [S2 P2 W2]. constructor; [by eapply streams_trans|..]; intros e' He;
    rewrite ?P2, ?W2 by done; auto.
Qed.

Lemma touches_set e fd m (k : K) : touches e k (event_set (A := A) k e fd m).
Proof. constructor; [apply event_set_streams|..]; intros e' He; by apply event_set_others. Qed.

Lemma touches_add e t (k : K) : touches e k (event_add (A := A) k e t).
Proof. constructor; [apply event_add_streams|..]; intros e' He; by apply event_add_others. Qed.

Lemma touches_del e (k : K) : touches e k (event_del (A := A) k e).
Proof. constructor; [apply event_del_streams|..]; intros e' He; by apply event_del_others. Qed.

Lemma touches_cork e fd v (k : K) : touches e k (sys_setsockopt_cork k fd v).
Proof. constructor; [apply cork_streams|..]; intros e' _; apply cork_events. Qed.

Lemma touches_socket e (k : K) : touches e k (sys_socket (A := A) k).1.
Proof. constructor; [apply socket_streams|..]; intros e' _; apply socket_events. Qed.

Lemma touches_connect e fd a (k : K) : touches e k (sys_connect (A := A) k fd a).1.
Proof. constructor; [apply connect_streams|..]; intros e' _; apply connect_events. Qed.

Lemma touches_fcntl e fd (k : K) : touches e k (sys_fcntl_setfl k fd).1.
Proof. constructor; [apply fcntl_streams|..]; intros e' _; apply fcntl_events. Qed.

(** The event is no longer pending, or it belongs to no descriptor. *)
Lemma del_event_yields (k : K) ev :
  yields True (del_event A k ev) (fun k' => touches ev.(event.event_) k k' /\
    (ev.(event.fd_) <> -1 -> pending A k' ev = false)).
Proof.
  unfold del_event. destruct (negb _ && _) eqn:E; simpl.
  - unfold CHECK_CONDITION. destruct (negb (pending _ _ _)) eqn:En; simpl; [|done].
    split; [apply touches_del|]. intros _. by apply negb_true_iff.
  - split; [apply touches_refl|]. intros Hne. apply andb_false_iff in E as [E|E]; [|done].
    apply negb_false_iff in E. lia.
Qed.

(** The event is pending for the mask, unless [fcntl] failed. *)
Lemma add_event_yields (k : K) ev m t :
  yields True (add_event A k ev m t) (fun k' => touches ev.(event.event_) k k' /\
    (open_fd k ev.(event.fd_) ->
     pending A k' ev = true /\ event_watches (A := A) k' ev.(event.event_) = (ev.(event.fd_), m))).
Proof.
  unfold add_event. apply (yields_bind _ _ _ (fun k1 => touches ev.(event.event_) k k1)).
  { destruct (pending A k ev); [|apply touches_refl].
    eapply yields_bind; [apply del_event_yields|]. intros k1 [Ht _]. unfold CHECK_CONDITION.
    by destruct (negb (pending _ _ _)). }
  intros k1 Ht1. pose proof (touches_fcntl ev.(event.event_) ev.(event.fd_) k1) as Ht2.
  pose proof (fcntl_open k1 ev.(event.fd_)) as Hopen.
  destruct (sys_fcntl_setfl k1 _) as [k2 []]; simpl in Ht2, Hopen; cbn [negb].
  - set (k3 := event_set _ _ _ _). set (k4 := event_add _ _ _).
    assert (touches ev.(event.event_) k k4) as Ht4.
    { eapply touches_trans; [exact Ht1|]. eapply touches_trans; [exact Ht2|].
      eapply touches_trans; [apply touches_set|apply touches_add]. }
    unfold CHECK_CONDITION. destruct (pending A k4 ev) eqn:Ep; simpl; [|done].
    split; [done|]. intros _. split; [done|]. unfold k4. rewrite event_add_watches. apply event_set_watches.
  - split; [by eapply touches_trans|]. intros Ho. exfalso.
    assert (false = true); [|done]. apply Hopen. by eapply ss_open; [apply (to_streams _ _ _ Ht1)|].
Qed.

End events.
