(* ===== verification/HeaderWriter.v ===== *)
(** The header writer of http/header_writer.cpp: it sends the start line and
    the fields of a message through a socket that may block after any byte,
    and goes on where it stopped. *)
From S2P Require Import Prelude Status ReadWriteBuffer HttpLex Interfaces HeaderStore Os Connection.

Module header_writer.

Inductive WRITE_HEADER_STATE :=
  | START_LINE_TOKEN1
  | START_LINE_SEPERATOR1
  | START_LINE_TOKEN2
  | START_LINE_SEPERATOR2
  | START_LINE_TOKEN3
  | START_LINE_END
  | FIELD_NAME
  | FIELD_VALUE_SEPERATOR
  | FIELD_VALUE
  | FIELD_SEPERATOR
  | END_FIELDS.

(** [++write_header_state_], which is not done in the last two states. *)
Definition next_state (s : WRITE_HEADER_STATE) : WRITE_HEADER_STATE :=
  match s with
  | START_LINE_TOKEN1 => START_LINE_SEPERATOR1
  | START_LINE_SEPERATOR1 => START_LINE_TOKEN2
  | START_LINE_TOKEN2 => START_LINE_SEPERATOR2
  | START_LINE_SEPERATOR2 => START_LINE_TOKEN3
  | START_LINE_TOKEN3 => START_LINE_END
  | START_LINE_END => FIELD_NAME
  | FIELD_NAME => FIELD_VALUE_SEPERATOR
  | FIELD_VALUE_SEPERATOR => FIELD_VALUE
  | FIELD_VALUE => FIELD_SEPERATOR
  | FIELD_SEPERATOR | END_FIELDS => END_FIELDS
  end.

(** The message and the destination the writer points to are arguments of
    [write_header]. *)
Record t := HeaderWriter {
  space_buf_ : read_write_buffer;
  endline_buf_ : read_write_buffer;
  field_sep_ : read_write_buffer;
  current_dump_header_ : Z;
  write_header_state_ : WRITE_HEADER_STATE
}.

(** The constructor does not initialise the last two members. *)
Definition make (current_dump_header : Z) (write_header_state : WRITE_HEADER_STATE) : t :=
  HeaderWriter (rwb.make_static (Some strings_.(space_))) (rwb.make_static (Some strings_.(endline_)))
    (rwb.make_static (Some strings_.(fieldsep_))) current_dump_header write_header_state.

Definition reset (w : t) : t :=
  HeaderWriter (rwb.reset w.(space_buf_)) (rwb.reset w.(endline_buf_)) (rwb.reset w.(field_sep_))
    0 START_LINE_TOKEN1.

Definition at_state (i : Z) (s : WRITE_HEADER_STATE) (w : t) : t :=
  HeaderWriter w.(space_buf_) w.(endline_buf_) w.(field_sep_) i s.

Definition with_space (b : read_write_buffer) (w : t) : t :=
  HeaderWriter b w.(endline_buf_) w.(field_sep_) w.(current_dump_header_) w.(write_header_state_).
Definition with_endline (b : read_write_buffer) (w : t) : t :=
  HeaderWriter w.(space_buf_) b w.(field_sep_) w.(current_dump_header_) w.(write_header_state_).
Definition with_field_sep (b : read_write_buffer) (w : t) : t :=
  HeaderWriter w.(space_buf_) w.(endline_buf_) b w.(current_dump_header_) w.(write_header_state_).

(** The message with another start-line buffer: what is assigned through the
    references [get_status_line_1/2/3] return. *)
Definition set_status_line_1 (b : read_write_buffer) (m : message_buffer.t) : message_buffer.t :=
  message_buffer.MessageBuffer (message_buffer.current_num_fields_ m) (message_buffer.max_fields_ m)
    b (message_buffer.start_line2_ m) (message_buffer.start_line3_ m)
    (message_buffer.headers_ m) (message_buffer.cache_ m).
Definition set_status_line_2 (b : read_write_buffer) (m : message_buffer.t) : message_buffer.t :=
  message_buffer.MessageBuffer (message_buffer.current_num_fields_ m) (message_buffer.max_fields_ m)
    (message_buffer.start_line1_ m) b (message_buffer.start_line3_ m)
    (message_buffer.headers_ m) (message_buffer.cache_ m).
Definition set_status_line_3 (b : read_write_buffer) (m : message_buffer.t) : message_buffer.t :=
  message_buffer.MessageBuffer (message_buffer.current_num_fields_ m) (message_buffer.max_fields_ m)
    (message_buffer.start_line1_ m) (message_buffer.start_line2_ m) b
    (message_buffer.headers_ m) (message_buffer.cache_ m).

(** The buffer [get_header_buffer_to_write] refers to, *)
Definition get_header_buffer_to_write (w : t) (m : message_buffer.t) : res read_write_buffer :=
  match w.(write_header_state_) with
  | START_LINE_TOKEN1 => Ok (message_buffer.get_status_line_1 m)
  | START_LINE_SEPERATOR1 => Ok w.(space_buf_)
  | START_LINE_TOKEN2 => Ok (message_buffer.get_status_line_2 m)
  | START_LINE_SEPERATOR2 => Ok w.(space_buf_)
  | START_LINE_TOKEN3 => Ok (message_buffer.get_status_line_3 m)
  | START_LINE_END => Ok w.(endline_buf_)
  | FIELD_NAME => message_buffer.get_field_name w.(current_dump_header_) m
  | FIELD_VALUE_SEPERATOR => Ok w.(field_sep_)
  | FIELD_VALUE => message_buffer.get_field_value w.(current_dump_header_) m
  | FIELD_SEPERATOR => Ok w.(endline_buf_)
  | END_FIELDS => Ok w.(endline_buf_)
  end.

(** and the assignment through that reference. *)
Definition put_header_buffer (b : read_write_buffer) (w : t) (m : message_buffer.t)
    : res (t * message_buffer.t) :=
  match w.(write_header_state_) with
  | START_LINE_TOKEN1 => Ok (w, set_status_line_1 b m)
  | START_LINE_SEPERATOR1 | START_LINE_SEPERATOR2 => Ok (with_space b w, m)
  | START_LINE_TOKEN2 => Ok (w, set_status_line_2 b m)
  | START_LINE_TOKEN3 => Ok (w, set_status_line_3 b m)
  | START_LINE_END | FIELD_SEPERATOR | END_FIELDS => Ok (with_endline b w, m)
  | FIELD_NAME => m ← message_buffer.set_field_name w.(current_dump_header_) b m; Ok (w, m)
  | FIELD_VALUE_SEPERATOR => Ok (with_field_sep b w, m)
  | FIELD_VALUE => m ← message_buffer.set_field_value w.(current_dump_header_) b m; Ok (w, m)
  end.

(** The three static buffers are rewound after every buffer written. *)
Definition reset_buffers (w : t) : t :=
  HeaderWriter (rwb.reset w.(space_buf_)) (rwb.reset w.(endline_buf_)) (rwb.reset w.(field_sep_))
    w.(current_dump_header_) w.(write_header_state_).

(** At a field name past the last field the fields end. *)
Definition check_last_field (w : t) (m : message_buffer.t) : t :=
  match w.(write_header_state_) with
  | FIELD_NAME =>
      if w.(current_dump_header_) =? message_buffer.get_num_fields m
      then at_state w.(current_dump_header_) END_FIELDS w else w
  | _ => w
  end.

(** The state after a buffer was written; [None] is the return. *)
Definition advance (w : t) : option t :=
  match w.(write_header_state_) with
  | FIELD_SEPERATOR => Some (at_state (u32 (w.(current_dump_header_) + 1)) FIELD_NAME w)
  | END_FIELDS => None
  | s => Some (at_state w.(current_dump_header_) (next_state s) w)
  end.

Section writing.
Context {K : Type} `{os K}.

Definition result : Type := K * t * message_buffer.t * connection.t * socketlib.STATUS.

Fixpoint write_header_loop (fuel : nat) (k : K) (w : t) (m : message_buffer.t) (c : connection.t)
    : res result :=
  match fuel with
  | O => NoFuel
  | S fuel =>
    let w := check_last_field w m in
    b ← get_header_buffer_to_write w m;
    '(k, c, b, status) ← connection.non_blocking_write k c b;
    '(w, m) ← put_header_buffer b w m;
    match status with
    | socketlib.INCOMPLETE => Ok (k, w, m, c, status)
    | socketlib.COMPLETE =>
        let w := reset_buffers w in
        match advance w with
        | None => Ok (k, w, m, c, socketlib.COMPLETE)
        | Some w => write_header_loop fuel k w m c
        end
    | socketlib.DEST_CLOSED => Ok (k, w, m, c, status)
    | _ => Aborted
    end
  end.

(** Six buffers of the start line, four for a field and the last line. *)
Definition write_header (k : K) (w : t) (m : message_buffer.t) (c : connection.t) : res result :=
  write_header_loop (7 + 4 * Z.to_nat (message_buffer.get_num_fields m)) k w m c.

End writing.
End header_writer.

Import header_writer.

(** * Buffers that are being written *)

(** A buffer with the content [l] of which a part may be written. *)
Record writing (l : list Z) (b : read_write_buffer) : Prop := {
  wg_wf : wf b;
  wg_content : content b = l;
  wg_end : b.(write_end_position_) = b.(working_length_)
}.

Definition fresh (b : read_write_buffer) : Prop := b.(write_position_) = 0.

Lemma writing_stored n b : stored n b -> writing (content b) b /\ fresh b.
Proof. intros []. split; [by constructor|done]. Qed.

Lemma writing_window l b :
  writing l b -> b.(write_position_) <= b.(write_end_position_) /\ (fresh b -> window b = l).
Proof.
  intros [Hwf <- He]. pose proof Hwf as []. split; [lia|]. unfold fresh. intros Hf.
  unfold window, slice, content. by rewrite Hf, He, drop_0, Z.sub_0_r.
Qed.

Lemma writing_written l b (n : nat) :
  writing l b -> (n <= length (window b))%nat ->
  writing l (written_to (b.(write_position_) + Z.of_nat n) b) /\
  window (written_to (b.(write_position_) + Z.of_nat n) b) = drop n (window b).
Proof.
  intros Hw Hn. pose proof (writing_window _ _ Hw) as [Hle _]. destruct Hw as [Hwf Hc He].
  destruct (window_written b n Hwf Hle Hn) as (Hwf' & Hwin & _).
  split; [by constructor|done].
Qed.

Lemma static_reset l b :
  writing l b -> b.(b_using_static_buffer_) = true -> raw_of b = l ->
  writing l (rwb.reset b) /\ fresh (rwb.reset b).
Proof.
  intros [Hwf _ _] Hs <-. pose proof (reset_wf b Hwf) as Hwf'. pose proof Hwf as [].
  pose proof (raw_size_nonneg (raw_of b)).
  assert (rwb.reset b = RWB (Some (raw_of b)) true (raw_size (raw_of b)) 0 (raw_size (raw_of b)) 0) as E.
  { unfold rwb.reset. rewrite Hs, wf_vector. cbn [negb]. by rewrite u32_small by lia. }
  rewrite E in *. split; [|done]. constructor; [done| |done].
  unfold content, raw_of, raw_size. cbn. by rewrite Nat2Z.id, firstn_all.
Qed.

(** The static buffers of the writer. *)
Record static_buffer (l : list Z) (b : read_write_buffer) : Prop := {
  st_writing : writing l b;
  st_static : b.(b_using_static_buffer_) = true;
  st_raw : raw_of b = l
}.

Lemma static_buffer_reset l b : static_buffer l b -> static_buffer l (rwb.reset b) /\ fresh (rwb.reset b).
Proof.
  intros [Hw Hs Hr]. destruct (static_reset l b Hw Hs Hr) as [Hw' Hf]. split; [|done].
  pose proof (wg_wf _ _ Hw) as []. unfold rwb.reset in *. rewrite Hs in *. cbn [negb] in *.
  rewrite wf_vector in *. by constructor.
Qed.

Lemma static_buffer_written l b p :
  static_buffer l b -> writing l (written_to p b) -> static_buffer l (written_to p b).
Proof. intros [] Hw. by constructor. Qed.

(** * What remains to be written *)

(** How far the writer is: buffers are numbered in the order they are
    written. *)
Definition offset (s : WRITE_HEADER_STATE) : Z :=
  match s with
  | START_LINE_TOKEN1 => 0
  | START_LINE_SEPERATOR1 => 1
  | START_LINE_TOKEN2 => 2
  | START_LINE_SEPERATOR2 => 3
  | START_LINE_TOKEN3 => 4
  | START_LINE_END => 5
  | FIELD_NAME => 6
  | FIELD_VALUE_SEPERATOR => 7
  | FIELD_VALUE => 8
  | FIELD_SEPERATOR => 9
  | END_FIELDS => 6
  end.

Definition cursor (w : t) : Z := 4 * w.(current_dump_header_) + offset w.(write_header_state_).

(** The fields from index [i] on, and the empty line. *)
Definition fields_from (i : Z) (fields : list (list Z * list Z)) : list Z :=
  concat (map serialize_field (drop (Z.to_nat i) fields)) ++ message_buffer.new_line.

Definition value_at (i : Z) (fields : list (list Z * list Z)) : list Z :=
  match fields !! Z.to_nat i with Some f => f.2 | None => [] end.

(** What follows the current buffer. *)
Definition rest (w : t) (l2 l3 : list Z) (fields : list (list Z * list Z)) : list Z :=
  let i := w.(current_dump_header_) in
  let tail3 := message_buffer.new_line ++ fields_from 0 fields in
  let tail2 := message_buffer.space ++ l3 ++ tail3 in
  match w.(write_header_state_) with
  | START_LINE_TOKEN1 => message_buffer.space ++ l2 ++ tail2
  | START_LINE_SEPERATOR1 => l2 ++ tail2
  | START_LINE_TOKEN2 => tail2
  | START_LINE_SEPERATOR2 => l3 ++ tail3
  | START_LINE_TOKEN3 => tail3
  | START_LINE_END => fields_from 0 fields
  | FIELD_NAME =>
      message_buffer.field_sep ++ value_at i fields ++ message_buffer.new_line ++ fields_from (i + 1) fields
  | FIELD_VALUE_SEPERATOR => value_at i fields ++ message_buffer.new_line ++ fields_from (i + 1) fields
  | FIELD_VALUE => message_buffer.new_line ++ fields_from (i + 1) fields
  | FIELD_SEPERATOR => fields_from (i + 1) fields
  | END_FIELDS => []
  end.

(** The contents of a message, as the writer sees them. *)
Record msg := Msg {
  m1 : list Z;
  m2 : list Z;
  m3 : list Z;
  mfields : list (list Z * list Z)
}.

Record field_writing (cur : Z) (k : nat) (f : list Z * list Z) (h : header_buffer) : Prop := {
  fw_name : writing f.1 h.(name_);
  fw_value : writing f.2 h.(value_);
  fw_name_fresh : cur < 4 * Z.of_nat k + 6 -> fresh h.(name_);
  fw_value_fresh : cur < 4 * Z.of_nat k + 8 -> fresh h.(value_)
}.

Record hw_inv (x : msg) (w : t) (m : message_buffer.t) : Prop := {
  hw_space : static_buffer message_buffer.space w.(space_buf_);
  hw_endline : static_buffer message_buffer.new_line w.(endline_buf_);
  hw_sep : static_buffer message_buffer.field_sep w.(field_sep_);
  hw_line1 : writing x.(m1) (message_buffer.start_line1_ m);
  hw_line2 : writing x.(m2) (message_buffer.start_line2_ m);
  hw_line3 : writing x.(m3) (message_buffer.start_line3_ m);
  hw_line2_fresh : cursor w < 2 -> fresh (message_buffer.start_line2_ m);
  hw_line3_fresh : cursor w < 4 -> fresh (message_buffer.start_line3_ m);
  hw_num : message_buffer.current_num_fields_ m = Z.of_nat (length x.(mfields));
  hw_small : Z.of_nat (length x.(mfields)) < 2 ^ 31;
  hw_headers : length (message_buffer.headers_ m) = length x.(mfields);
  hw_fields k f h : x.(mfields) !! k = Some f -> message_buffer.headers_ m !! k = Some h ->
    field_writing (cursor w) k f h;
  hw_index : match w.(write_header_state_) with
    | FIELD_NAME => 0 <= w.(current_dump_header_) <= Z.of_nat (length x.(mfields))
    | FIELD_VALUE_SEPERATOR | FIELD_VALUE | FIELD_SEPERATOR =>
        0 <= w.(current_dump_header_) < Z.of_nat (length x.(mfields))
    | END_FIELDS => w.(current_dump_header_) = Z.of_nat (length x.(mfields))
    | _ => w.(current_dump_header_) = 0
    end
}.

(** What is still to be sent. *)
Definition pending (x : msg) (w : t) (m : message_buffer.t) : list Z :=
  let w := check_last_field w m in
  match get_header_buffer_to_write w m with
  | Ok b => window b ++ rest w x.(m2) x.(m3) x.(mfields)
  | _ => []
  end.

(** * Lemmas *)

Lemma field_lookup x w m i :
  hw_inv x w m -> 0 <= i < Z.of_nat (length x.(mfields)) ->
  exists f h, x.(mfields) !! Z.to_nat i = Some f /\ message_buffer.headers_ m !! Z.to_nat i = Some h /\
    message_buffer.get_header i m = Ok h /\ s32 i = i /\ i < message_buffer.current_num_fields_ m /\
    field_writing (cursor w) (Z.to_nat i) f h.
Proof.
  intros [] Hi.
  destruct (lookup_lt_is_Some_2 x.(mfields) (Z.to_nat i)) as [f Hf]; [lia|].
  destruct (lookup_lt_is_Some_2 (message_buffer.headers_ m) (Z.to_nat i)) as [h Hh]; [lia|].
  exists f, h. split; [done|]. split; [done|]. unfold message_buffer.get_header.
  rewrite s32_small, u32_small, check_true, bind_ok, Hh by lia.
  split; [done|]. split; [done|]. split; [lia|]. eauto.
Qed.

Lemma check_last_field_inv x w m :
  hw_inv x w m ->
  hw_inv x (check_last_field w m) m /\ cursor (check_last_field w m) = cursor w /\
  (write_header_state_ (check_last_field w m) = FIELD_NAME ->
     0 <= current_dump_header_ (check_last_field w m) < Z.of_nat (length x.(mfields))).
Proof.
  intros Hinv. pose proof Hinv as []. unfold check_last_field.
  destruct (write_header_state_ w) eqn:Es; try (split; [done|split; [done|rewrite Es; discriminate]]).
  unfold message_buffer.get_num_fields.
  destruct (Z.eqb_spec (current_dump_header_ w) (message_buffer.current_num_fields_ m)).
  - assert (cursor (at_state (current_dump_header_ w) END_FIELDS w) = cursor w) as Hc
      by (unfold cursor; rewrite Es; done).
    split; [|split; [done|done]]. constructor; rewrite ?Hc; try done. simpl. lia.
  - split; [done|]. split; [done|]. intros _. lia.
Qed.

(** Moving on inside the current buffer. *)
Record same_place (w w' : t) : Prop := {
  sp_index : w'.(current_dump_header_) = w.(current_dump_header_);
  sp_state : w'.(write_header_state_) = w.(write_header_state_)
}.

Definition slot_post (x : msg) (w : t) (m : message_buffer.t) (b : read_write_buffer) (n : nat) : Prop :=
  let b' := written_to (b.(write_position_) + Z.of_nat n) b in
  exists w' m', put_header_buffer b' w m = Ok (w', m') /\ hw_inv x w' m' /\
    get_header_buffer_to_write w' m' = Ok b' /\ same_place w w' /\
    message_buffer.current_num_fields_ m' = message_buffer.current_num_fields_ m.

Lemma slot_name x w m f h b' :
  hw_inv x w m -> w.(write_header_state_) = FIELD_NAME ->
  message_buffer.headers_ m !! Z.to_nat w.(current_dump_header_) = Some h ->
  x.(mfields) !! Z.to_nat w.(current_dump_header_) = Some f -> writing f.1 b' ->
  0 <= w.(current_dump_header_) ->
  hw_inv x w (message_buffer.with_headers
    (<[Z.to_nat w.(current_dump_header_) := HeaderBuffer b' h.(value_)]> (message_buffer.headers_ m)) m).
Proof.
  intros Hinv Es Hh Hf Hb Hi. pose proof Hinv as [].
  constructor; try done; simpl; [by rewrite length_insert|].
  intros j f' h' Hf' Hh'. apply list_lookup_insert_Some in Hh' as [(<- & <- & _)|(Hne & Hh')]; [|eauto].
  rewrite Hf in Hf'. injection Hf' as <-. destruct (hw_fields0 _ _ _ Hf Hh).
  constructor; try done. intros Hlt. unfold cursor in Hlt. rewrite Es in Hlt. simpl in Hlt. lia.
Qed.

Lemma slot_value x w m f h b' :
  hw_inv x w m -> w.(write_header_state_) = FIELD_VALUE ->
  message_buffer.headers_ m !! Z.to_nat w.(current_dump_header_) = Some h ->
  x.(mfields) !! Z.to_nat w.(current_dump_header_) = Some f -> writing f.2 b' ->
  0 <= w.(current_dump_header_) ->
  hw_inv x w (message_buffer.with_headers
    (<[Z.to_nat w.(current_dump_header_) := HeaderBuffer h.(name_) b']> (message_buffer.headers_ m)) m).
Proof.
  intros Hinv Es Hh Hf Hb Hi. pose proof Hinv as [].
  constructor; try done; simpl; [by rewrite length_insert|].
  intros j f' h' Hf' Hh'. apply list_lookup_insert_Some in Hh' as [(<- & <- & _)|(Hne & Hh')]; [|eauto].
  rewrite Hf in Hf'. injection Hf' as <-. destruct (hw_fields0 _ _ _ Hf Hh).
  constructor; try done. intros Hlt. unfold cursor in Hlt. rewrite Es in Hlt. simpl in Hlt. lia.
Qed.

(** The header that was put is the one that is got. *)
Lemma get_header_set i h m :
  0 <= i -> s32 i = i -> (Z.to_nat i < length (message_buffer.headers_ m))%nat ->
  i < message_buffer.current_num_fields_ m -> i < 2 ^ 31 ->
  message_buffer.get_header i (message_buffer.set_header i h m) = Ok h.
Proof.
  intros Hi Hs Hl Hn Hsm. unfold message_buffer.get_header, message_buffer.set_header. rewrite Hs.
  cbn [message_buffer.current_num_fields_ message_buffer.with_headers message_buffer.headers_].
  rewrite u32_small, check_true, bind_ok by lia. by rewrite list_lookup_insert_eq.
Qed.

(** Replacing the current buffer keeps the invariant. *)
Lemma inv_line1 x w m b : hw_inv x w m -> writing x.(m1) b -> hw_inv x w (set_status_line_1 b m).
Proof. intros [] Hb. by constructor. Qed.

Lemma inv_line2 x w m b :
  hw_inv x w m -> 2 <= cursor w -> writing x.(m2) b -> hw_inv x w (set_status_line_2 b m).
Proof. intros [] Hc Hb. constructor; try done. lia. Qed.

Lemma inv_line3 x w m b :
  hw_inv x w m -> 4 <= cursor w -> writing x.(m3) b -> hw_inv x w (set_status_line_3 b m).
Proof. intros [] Hc Hb. constructor; try done. lia. Qed.

Lemma inv_space x w m b :
  hw_inv x w m -> static_buffer message_buffer.space b -> hw_inv x (with_space b w) m.
Proof. intros [] Hb. by constructor. Qed.

Lemma inv_endline x w m b :
  hw_inv x w m -> static_buffer message_buffer.new_line b -> hw_inv x (with_endline b w) m.
Proof. intros [] Hb. by constructor. Qed.

Lemma inv_sep x w m b :
  hw_inv x w m -> static_buffer message_buffer.field_sep b -> hw_inv x (with_field_sep b w) m.
Proof. intros [] Hb. by constructor. Qed.

Lemma cursor_at x w m :
  hw_inv x w m ->
  cursor w = match w.(write_header_state_) with
             | FIELD_NAME | FIELD_VALUE_SEPERATOR | FIELD_VALUE | FIELD_SEPERATOR | END_FIELDS =>
                 4 * w.(current_dump_header_) + offset w.(write_header_state_)
             | s => offset s
             end.
Proof. intros []. unfold cursor. destruct (write_header_state_ w); lia. Qed.

(** The buffer [b] is current, and [w'], [m'] are what remains when another
    one is put in its place. *)
Lemma slot_intro x w m b l (put : read_write_buffer -> t * message_buffer.t) :
  writing l b -> get_header_buffer_to_write w m = Ok b ->
  (forall b', put_header_buffer b' w m = Ok (put b')) ->
  (forall b', writing l b' -> b'.(p_buffer_) = b.(p_buffer_) ->
     b'.(b_using_static_buffer_) = b.(b_using_static_buffer_) -> hw_inv x (put b').1 (put b').2) ->
  (forall b', get_header_buffer_to_write (put b').1 (put b').2 = Ok b') ->
  (forall b', same_place w (put b').1) ->
  (forall b', message_buffer.current_num_fields_ (put b').2 = message_buffer.current_num_fields_ m) ->
  exists b, get_header_buffer_to_write w m = Ok b /\ (exists l, writing l b) /\
    forall n, (n <= length (window b))%nat -> slot_post x w m b n.
Proof.
  intros Hb Hg Hp Hi Hg' Hs Hn. exists b. split; [done|]. split; [by exists l|].
  intros n Hle. destruct (writing_written _ _ n Hb Hle) as [Hw _]. unfold slot_post.
  rewrite Hp. do 2 eexists. split; [by rewrite (surjective_pairing (put _))|].
  split; [by apply Hi|]. split; [apply Hg'|]. split; [apply Hs|apply Hn].
Qed.

Lemma static_buffer_same l b b' :
  static_buffer l b -> writing l b' -> b'.(p_buffer_) = b.(p_buffer_) ->
  b'.(b_using_static_buffer_) = b.(b_using_static_buffer_) -> static_buffer l b'.
Proof.
  intros [] Hw Hp Hs. constructor; [done|congruence|]. unfold raw_of in *. by rewrite Hp.
Qed.

(** The slots of the three start-line tokens and of the static buffers. *)
Ltac slot_line Es Hl lemma :=
  eapply slot_intro; [exact Hl|unfold get_header_buffer_to_write; rewrite Es; reflexivity
    |intros b'; unfold put_header_buffer; rewrite Es; reflexivity
    |intros b' Hw _ _; cbn [fst snd]; apply lemma; [done|try (erewrite cursor_at by done; rewrite Es; simpl; lia)..|done]
    |intros b'; unfold get_header_buffer_to_write; simpl; rewrite Es; reflexivity|by constructor|done].

Ltac slot_static Es Hs lemma :=
  eapply slot_intro; [apply (st_writing _ _ Hs)|unfold get_header_buffer_to_write; rewrite Es; reflexivity
    |intros b'; unfold put_header_buffer; rewrite Es; reflexivity
    |intros b' Hw Hp Hst; apply lemma; [done|by apply (static_buffer_same _ _ _ Hs)]
    |intros b'; unfold get_header_buffer_to_write; simpl; rewrite Es; reflexivity|by constructor|done].

Lemma slot_field_name x w m :
  hw_inv x w m -> w.(write_header_state_) = FIELD_NAME ->
  0 <= w.(current_dump_header_) < Z.of_nat (length x.(mfields)) ->
  exists b, get_header_buffer_to_write w m = Ok b /\ (exists l, writing l b) /\
    forall n, (n <= length (window b))%nat -> slot_post x w m b n.
Proof.
  intros Hinv Es Hi. pose proof Hinv as [].
  destruct (field_lookup _ _ _ _ Hinv Hi) as (f & h & Hf & Hh & Hg & Hs & Hlt & Hfw).
  eapply (slot_intro x w m h.(name_) f.1
    (fun b' => (w, message_buffer.set_header w.(current_dump_header_) (HeaderBuffer b' h.(value_)) m))).
  - apply Hfw.
  - unfold get_header_buffer_to_write, message_buffer.get_field_name. rewrite Es, check_true, bind_ok by lia.
    by rewrite Hg.
  - intros b'. unfold put_header_buffer, message_buffer.set_field_name. by rewrite Es, Hg.
  - intros b' Hw _ _. unfold message_buffer.set_header. rewrite Hs. cbn [fst snd].
    apply (slot_name x w m f h); done || lia.
  - intros b'. unfold get_header_buffer_to_write, message_buffer.get_field_name. cbn [fst snd]. rewrite Es.
    cbn [message_buffer.set_header message_buffer.with_headers message_buffer.current_num_fields_].
    rewrite check_true, bind_ok by lia.
    rewrite get_header_set by (done || lia). done.
  - by constructor.
  - done.
Qed.

Lemma slot_field_value x w m :
  hw_inv x w m -> w.(write_header_state_) = FIELD_VALUE ->
  exists b, get_header_buffer_to_write w m = Ok b /\ (exists l, writing l b) /\
    forall n, (n <= length (window b))%nat -> slot_post x w m b n.
Proof.
  intros Hinv Es. pose proof Hinv as []. rewrite Es in hw_index0.
  destruct (field_lookup _ _ _ _ Hinv hw_index0) as (f & h & Hf & Hh & Hg & Hs & Hlt & Hfw).
  eapply (slot_intro x w m h.(value_) f.2
    (fun b' => (w, message_buffer.set_header w.(current_dump_header_) (HeaderBuffer h.(name_) b') m))).
  - apply Hfw.
  - unfold get_header_buffer_to_write, message_buffer.get_field_value. rewrite Es, check_true, bind_ok by lia.
    by rewrite Hg.
  - intros b'. unfold put_header_buffer, message_buffer.set_field_value. by rewrite Es, Hg.
  - intros b' Hw _ _. unfold message_buffer.set_header. rewrite Hs. cbn [fst snd].
    apply (slot_value x w m f h); done || lia.
  - intros b'. unfold get_header_buffer_to_write, message_buffer.get_field_value. cbn [fst snd]. rewrite Es.
    cbn [message_buffer.set_header message_buffer.with_headers message_buffer.current_num_fields_].
    rewrite check_true, bind_ok by lia.
    rewrite get_header_set by (done || lia). done.
  - by constructor.
  - done.
Qed.

Lemma slot_ok x w m :
  hw_inv x w m ->
  (w.(write_header_state_) = FIELD_NAME -> 0 <= w.(current_dump_header_) < Z.of_nat (length x.(mfields))) ->
  exists b, get_header_buffer_to_write w m = Ok b /\ (exists l, writing l b) /\
    forall n, (n <= length (window b))%nat -> slot_post x w m b n.
Proof.
  intros Hinv Hname. pose proof Hinv as []. destruct (write_header_state_ w) eqn:Es.
  - slot_line Es hw_line4 inv_line1.
  - slot_static Es hw_space0 inv_space.
  - slot_line Es hw_line5 inv_line2.
  - slot_static Es hw_space0 inv_space.
  - slot_line Es hw_line6 inv_line3.
  - slot_static Es hw_endline0 inv_endline.
  - by apply slot_field_name; auto.
  - slot_static Es hw_sep0 inv_sep.
  - by apply slot_field_value.
  - slot_static Es hw_endline0 inv_endline.
  - slot_static Es hw_endline0 inv_endline.
Qed.

(** * Moving to the next buffer *)

Lemma inv_reset x w m :
  hw_inv x w m ->
  hw_inv x (reset_buffers w) m /\ fresh (space_buf_ (reset_buffers w)) /\
  fresh (endline_buf_ (reset_buffers w)) /\ fresh (field_sep_ (reset_buffers w)).
Proof.
  intros Hinv. pose proof Hinv as [].
  destruct (static_buffer_reset _ _ hw_space0), (static_buffer_reset _ _ hw_endline0),
    (static_buffer_reset _ _ hw_sep0).
  split; [by constructor|done].
Qed.

Definition index_ok (x : msg) (i : Z) (s : WRITE_HEADER_STATE) : Prop :=
  match s with
  | FIELD_NAME => 0 <= i <= Z.of_nat (length x.(mfields))
  | FIELD_VALUE_SEPERATOR | FIELD_VALUE | FIELD_SEPERATOR =>
      0 <= i < Z.of_nat (length x.(mfields))
  | END_FIELDS => i = Z.of_nat (length x.(mfields))
  | _ => i = 0
  end.

Lemma inv_at_state x w m i s :
  hw_inv x w m -> index_ok x i s -> cursor w <= 4 * i + offset s -> hw_inv x (at_state i s w) m.
Proof.
  intros [] Hi Hc. constructor; try done; unfold cursor at 1; simpl.
  - intros. apply hw_line2_fresh0. lia.
  - intros. apply hw_line3_fresh0. lia.
  - intros k f h Hf Hh. destruct (hw_fields0 k f h Hf Hh).
    constructor; try done; intros; [apply fw_name_fresh0|apply fw_value_fresh0]; lia.
Qed.

Lemma pending_fresh x w m b l :
  write_header_state_ w <> FIELD_NAME -> get_header_buffer_to_write w m = Ok b -> writing l b ->
  fresh b -> pending x w m = l ++ rest w x.(m2) x.(m3) x.(mfields).
Proof.
  intros Hs Hg Hw Hf. unfold pending. replace (check_last_field w m) with w
    by (unfold check_last_field; destruct (write_header_state_ w); done).
  rewrite Hg. by rewrite (proj2 (writing_window _ _ Hw)).
Qed.

Lemma fields_from_lookup i fields f :
  0 <= i -> fields !! Z.to_nat i = Some f ->
  fields_from i fields = f.1 ++ message_buffer.field_sep ++ f.2 ++ message_buffer.new_line ++
    fields_from (i + 1) fields.
Proof.
  intros Hi Hf. unfold fields_from. rewrite (drop_S _ _ _ Hf). cbn [map concat].
  unfold serialize_field. rewrite <- !app_assoc.
  by replace (Z.to_nat (i + 1)) with (S (Z.to_nat i)) by lia.
Qed.

Lemma pending_name x w m :
  hw_inv x w m -> w.(write_header_state_) = FIELD_NAME -> fresh w.(endline_buf_) ->
  (forall h, message_buffer.headers_ m !! Z.to_nat w.(current_dump_header_) = Some h -> fresh h.(name_)) ->
  pending x w m = fields_from w.(current_dump_header_) x.(mfields).
Proof.
  intros Hinv Es He Hfresh. destruct (check_last_field_inv _ _ _ Hinv) as (Hinv' & _ & _).
  pose proof Hinv as []. rewrite Es in hw_index0. unfold pending, check_last_field in *.
  rewrite Es in *. unfold message_buffer.get_num_fields in *.
  destruct (Z.eqb_spec (current_dump_header_ w) (message_buffer.current_num_fields_ m)) as [E|].
  - simpl. rewrite (proj2 (writing_window _ _ (st_writing _ _ hw_endline0)) He), app_nil_r.
    unfold fields_from. by rewrite drop_ge by lia.
  - destruct (field_lookup x w m (current_dump_header_ w) Hinv ltac:(lia))
      as (f & h & Hf & Hh & Hg & Hs & Hlt & [Hn Hv _ _]).
    unfold get_header_buffer_to_write. rewrite Es. unfold message_buffer.get_field_name.
    rewrite check_true, bind_ok, Hg, bind_ok by lia.
    change (hb.get_name h) with (name_ h). rewrite (proj2 (writing_window _ _ Hn) (Hfresh _ Hh)).
    unfold rest. rewrite Es. unfold value_at. rewrite Hf.
    by rewrite (fields_from_lookup _ _ _ (proj1 hw_index0) Hf).
Qed.

Record advanced (x : msg) (w w' : t) (m : message_buffer.t) : Prop := {
  av_inv : hw_inv x w' m;
  av_cursor : cursor w' = cursor w + 1;
  av_pending : pending x w' m = rest w x.(m2) x.(m3) x.(mfields)
}.

(** From one buffer to the next within the start line or within a field. *)
Lemma advance_to x w m s b l :
  hw_inv x w m -> index_ok x w.(current_dump_header_) s ->
  offset s = offset w.(write_header_state_) + 1 -> s <> FIELD_NAME ->
  get_header_buffer_to_write (at_state w.(current_dump_header_) s w) m = Ok b ->
  writing l b -> fresh b ->
  l ++ rest (at_state w.(current_dump_header_) s w) x.(m2) x.(m3) x.(mfields)
    = rest w x.(m2) x.(m3) x.(mfields) ->
  advanced x w (at_state w.(current_dump_header_) s w) m.
Proof.
  intros Hinv Hi Ho Hne Hg Hw Hf Hr. constructor.
  - apply inv_at_state; [done|done|]. unfold cursor. lia.
  - unfold cursor. simpl. lia.
  - rewrite (pending_fresh x _ m b l); done.
Qed.

Lemma advance_name x w m i :
  hw_inv x w m -> fresh w.(endline_buf_) -> 0 <= i <= Z.of_nat (length x.(mfields)) ->
  4 * i + 6 = cursor w + 1 -> rest w x.(m2) x.(m3) x.(mfields) = fields_from i x.(mfields) ->
  advanced x w (at_state i FIELD_NAME w) m.
Proof.
  intros Hinv He Hi Hc Hr.
  assert (hw_inv x (at_state i FIELD_NAME w) m) as Hinv'
    by (apply inv_at_state; [done|done|simpl; lia]).
  constructor; [done|unfold cursor at 1; simpl; lia|]. rewrite Hr. apply pending_name; [done|done|done|].
  simpl. intros h Hh. pose proof Hinv as [].
  destruct (lookup_lt_is_Some_2 x.(mfields) (Z.to_nat i)) as [f Hf];
    [rewrite <- hw_headers0; by apply lookup_lt_Some in Hh|].
  destruct (hw_fields0 _ _ _ Hf Hh). apply fw_name_fresh0. lia.
Qed.

Lemma advance_ok x w m :
  hw_inv x w m -> fresh w.(space_buf_) -> fresh w.(endline_buf_) -> fresh w.(field_sep_) ->
  (w.(write_header_state_) = FIELD_NAME -> 0 <= w.(current_dump_header_) < Z.of_nat (length x.(mfields))) ->
  match advance w with
  | Some w' => advanced x w w' m
  | None => rest w x.(m2) x.(m3) x.(mfields) = []
  end.
Proof.
  intros Hinv Hsp Hen Hse Hname. pose proof Hinv as []. pose proof (cursor_at _ _ _ Hinv) as Hcur.
  assert (forall s l, offset s = offset (write_header_state_ w) + 1 -> s <> FIELD_NAME ->
    index_ok x (current_dump_header_ w) s ->
    l ++ rest (at_state (current_dump_header_ w) s w) x.(m2) x.(m3) x.(mfields)
      = rest w x.(m2) x.(m3) x.(mfields) ->
    (exists b, get_header_buffer_to_write (at_state (current_dump_header_ w) s w) m = Ok b /\
       writing l b /\ fresh b) ->
    advanced x w (at_state (current_dump_header_ w) s w) m) as Hto.
  { intros s l Ho Hne Hi Hr (b & Hg & Hw & Hf). by apply (advance_to x w m s b l). }
  pose proof hw_index0 as Hindex.
  unfold advance, rest in *. destruct (write_header_state_ w) eqn:Es; cbn [next_state]; cbn [offset] in Hcur.
  - apply (Hto START_LINE_SEPERATOR1 message_buffer.space); try done. eexists. split; [reflexivity|].
    split; [apply hw_space0|done].
  - apply (Hto START_LINE_TOKEN2 x.(m2)); try done. eexists. split; [reflexivity|].
    split; [done|apply hw_line2_fresh0; lia].
  - apply (Hto START_LINE_SEPERATOR2 message_buffer.space); try done. eexists. split; [reflexivity|].
    split; [apply hw_space0|done].
  - apply (Hto START_LINE_TOKEN3 x.(m3)); try done. eexists. split; [reflexivity|].
    split; [done|apply hw_line3_fresh0; lia].
  - apply (Hto START_LINE_END message_buffer.new_line); try done. eexists. split; [reflexivity|].
    split; [apply hw_endline0|done].
  - apply advance_name; try done; rewrite ?Hindex; try lia.
    unfold rest. by rewrite Es.
  - specialize (Hname eq_refl).
    apply (Hto FIELD_VALUE_SEPERATOR message_buffer.field_sep); try done. eexists. split; [reflexivity|].
    split; [apply hw_sep0|done].
  - destruct (field_lookup x w m (current_dump_header_ w) Hinv Hindex)
      as (f & h & Hf & Hh & Hg & Hs & Hlt & [_ Hv _ Hvf]).
    apply (Hto FIELD_VALUE f.2); try done; [unfold value_at; by rewrite Hf|].
    exists (value_ h). split; [|split; [done|apply Hvf; lia]].
    unfold get_header_buffer_to_write, message_buffer.get_field_value.
    cbn [write_header_state_ at_state current_dump_header_]. rewrite check_true, bind_ok by lia.
    by rewrite Hg.
  - apply (Hto FIELD_SEPERATOR message_buffer.new_line); try done. eexists. split; [reflexivity|].
    split; [apply hw_endline0|done].
  - rewrite u32_small by lia. apply advance_name; try done; try lia.
    unfold rest. by rewrite Es.
  - done.
Qed.

(** * The loop *)
Section sending.
Context {K : Type} `{OsLaws K}.

(** [l] was sent to the connection, and nothing else anywhere. *)
Record sends (k : K) (c : connection.t) (k' : K) (c' : connection.t) (l : list Z) : Prop := {
  sd_sent : sent k' (connection.fd_ c) = sent k (connection.fd_ c) ++ l;
  sd_others fd : fd <> connection.fd_ c -> sent k' fd = sent k fd;
  sd_open fd : open_fd k fd -> open_fd k' fd;
  sd_fd : connection.fd_ c' = connection.fd_ c;
  sd_input : connection.buffer_ c' = connection.buffer_ c;
  sd_writable : connection.open_for_write c' = true -> connection.open_for_write c = true
}.

Lemma sends_usable k c k' c' l : sends k c k' c' l -> usable k c -> usable k' c'.
Proof. intros [] Hu Hw. rewrite sd_fd0. auto. Qed.

Definition write_post (x : msg) (k : K) (w : t) (m : message_buffer.t) (c : connection.t)
    (r : result) : Prop :=
  let '(k', w', m', c', st) := r in
  exists l, sends k c k' c' l /\ hw_inv x w' m' /\
  match st with
  | socketlib.COMPLETE => l = pending x w m /\ c' = c /\ connection.ready_to_write c = true
  | socketlib.INCOMPLETE =>
      pending x w m = l ++ pending x w' m' /\
      connection.ready_to_write c' = false /\ connection.state_ c' = connection.state_ c
  | socketlib.DEST_CLOSED =>
      pending x w m = l ++ pending x w' m' /\ connection.open_for_write c' = false
  | _ => False
  end.

Lemma rest_same w w' l2 l3 fields : same_place w w' -> rest w' l2 l3 fields = rest w l2 l3 fields.
Proof. intros [Hi Hs]. unfold rest. by rewrite Hi, Hs. Qed.

Lemma check_same x w m :
  hw_inv x w m ->
  (w.(write_header_state_) = FIELD_NAME -> 0 <= w.(current_dump_header_) < Z.of_nat (length x.(mfields))) ->
  check_last_field w m = w.
Proof.
  intros [] Hn. unfold check_last_field, message_buffer.get_num_fields.
  destruct (write_header_state_ w); try done. specialize (Hn eq_refl).
  by replace (_ =? _) with false by lia.
Qed.

Lemma sends_trans k c k1 k2 c2 l1 l2 :
  sends k c k1 c l1 -> sends k1 c k2 c2 l2 -> sends k c k2 c2 (l1 ++ l2).
Proof.
  intros [] []. constructor; try done; [by rewrite sd_sent1, sd_sent0, app_assoc| |auto].
  intros fd Hne. by rewrite sd_others1, sd_others0.
Qed.

Lemma cursor_bound x w m :
  hw_inv x w m -> cursor w <= 4 * Z.of_nat (length x.(mfields)) + 6.
Proof. intros []. unfold cursor. destruct (write_header_state_ w); simpl; lia. Qed.

(** One turn of the loop: the buffer is written, and the writer is left
    either inside the buffer or at its end. *)
Lemma write_turn x k w m c b :
  hw_inv x w m ->
  (w.(write_header_state_) = FIELD_NAME -> 0 <= w.(current_dump_header_) < Z.of_nat (length x.(mfields))) ->
  get_header_buffer_to_write w m = Ok b -> usable k c ->
  exists k' c' b' st w' m' (n : nat),
    connection.non_blocking_write k c b = Ok (k', c', b', st) /\ wrote k c b k' c' b' st n /\
    put_header_buffer b' w m = Ok (w', m') /\ hw_inv x w' m' /\ same_place w w' /\
    pending x w m = take n (window b) ++ pending x w' m'.
Proof.
  intros Hinv Hname Hg Ho. destruct (slot_ok x w m Hinv Hname) as (b0 & Hg0 & (l & Hw) & Hpost).
  rewrite Hg in Hg0. injection Hg0 as <-.
  destruct (write_ok k c b (wg_wf _ _ Hw) (proj1 (writing_window _ _ Hw)) Ho)
    as (k' & c' & b' & st & n & Hwr & Hwrote).
  destruct (Hpost n (wr_le _ _ _ _ _ _ _ _ Hwrote)) as (w' & m' & Hput & Hinv' & Hg' & Hsame & Hnum).
  pose proof (wr_buffer _ _ _ _ _ _ _ _ Hwrote) as Eb. subst b'.
  exists k', c', (written_to (b.(write_position_) + Z.of_nat n) b), st, w', m', n.
  split; [done|]. split; [done|]. split; [done|]. split; [done|]. split; [done|].
  unfold pending.
  rewrite (check_same x w m), (check_same x w' m') by (done || (destruct Hsame as [-> ->]; done)).
  rewrite Hg, Hg', (rest_same _ _ _ _ _ Hsame).
  rewrite (proj2 (writing_written _ _ n Hw (wr_le _ _ _ _ _ _ _ _ Hwrote))).
  by rewrite app_assoc, take_drop.
Qed.

Lemma wrote_sends k c b k' c' b' st n :
  wrote k c b k' c' b' st n -> sends k c k' c' (take n (window b)).
Proof. intros []. by constructor. Qed.

Lemma write_header_loop_ok x fuel :
  forall k w m c, hw_inv x w m -> usable k c ->
  4 * Z.of_nat (length x.(mfields)) + 6 - cursor w < Z.of_nat fuel ->
  exists r, write_header_loop fuel k w m c = Ok r /\ write_post x k w m c r.
Proof.
  induction fuel as [|fuel IH]; intros k w m c Hinv Ho Hfuel;
    [pose proof (cursor_bound _ _ _ Hinv); lia|].
  cbn [write_header_loop]. destruct (check_last_field_inv _ _ _ Hinv) as (Hinv1 & Hcur & Hname).
  assert (pending x w m = pending x (check_last_field w m) m) as Hpend.
  { unfold pending. by rewrite (check_same x (check_last_field w m)). }
  set (w1 := check_last_field w m) in *.
  destruct (slot_ok x w1 m Hinv1 Hname) as (b & Hg & _). rewrite Hg, bind_ok.
  destruct (write_turn x k w1 m c b Hinv1 Hname Hg Ho)
    as (k' & c' & b' & st & w2 & mm & n & Hw & Hwrote & Hput & Hinv2 & Hsame & Hp).
  rewrite Hw, bind_ok, Hput, bind_ok. pose proof (wrote_sends _ _ _ _ _ _ _ _ Hwrote) as Hsends.
  pose proof (wr_status _ _ _ _ _ _ _ _ Hwrote) as Hst. destruct st; try done.
  - destruct Hst as (-> & -> & Hrdy). rewrite firstn_all in *.
    destruct (inv_reset _ _ _ Hinv2) as (Hinv3 & F1 & F2 & F3).
    pose proof (advance_ok x (reset_buffers w2) mm Hinv3 F1 F2 F3) as Hadv.
    assert (same_place w1 (reset_buffers w2)) as Hsame2 by (destruct Hsame; by constructor).
    pose proof (rest_same _ _ x.(m2) x.(m3) x.(mfields) Hsame2) as Hrest.
    assert (pending x w m = window b ++ rest w1 x.(m2) x.(m3) x.(mfields)) as Hpend1
      by (rewrite Hpend; unfold pending; by rewrite (check_same x), Hg).
    destruct (advance (reset_buffers w2)) as [w3|].
    + destruct Hadv as [Hinv4 Hcur4 Hpend4]; [destruct Hsame as [Hi Hs]; simpl; rewrite Hi, Hs; done|].
      destruct (IH k' w3 mm c Hinv4 (sends_usable _ _ _ _ _ Hsends Ho)) as ([[[[k4 w4] m4] c4] st4] & -> & l & Hl & Hinv5 & Hpost).
      { assert (cursor (reset_buffers w2) = cursor w1) by (destruct Hsame2; unfold cursor; congruence). lia. }
      eexists. split; [reflexivity|]. exists (window b ++ l). split; [by apply (sends_trans k c k')|].
      split; [done|]. rewrite Hpend1, <- Hrest, <- Hpend4. destruct st4; try done.
      * destruct Hpost as [-> ?]. done.
      * destruct Hpost as (-> & ?). by rewrite app_assoc.
      * destruct Hpost as (-> & ?). by rewrite app_assoc.
    + eexists. split; [reflexivity|]. exists (window b). split; [done|]. split; [done|].
      rewrite Hpend1, <- Hrest, Hadv, app_nil_r; [done|].
      destruct Hsame as [Hi Hs]; simpl; rewrite Hi, Hs; done.
  - destruct Hst as (? & ? & _). eexists. split; [reflexivity|]. exists (take n (window b)).
    split; [done|]. split; [done|]. split; [congruence|done].
  - destruct Hst as [? _]. eexists. split; [reflexivity|]. exists (take n (window b)). split; [done|].
    split; [done|]. split; [congruence|done].
Qed.

Lemma write_header_ok x k w m c :
  hw_inv x w m -> usable k c -> 0 <= cursor w ->
  exists r, write_header k w m c = Ok r /\ write_post x k w m c r.
Proof.
  intros Hinv Ho Hc. apply write_header_loop_ok; [done|done|].
  unfold message_buffer.get_num_fields. rewrite (hw_num _ _ _ Hinv). lia.
Qed.

End sending.

(** * Writing changes positions only *)

Definition same_header (h h' : header_buffer) : Prop :=
  same_vector h.(name_) h'.(name_) /\ same_vector h.(value_) h'.(value_).

#[export] Instance same_header_preorder : PreOrder same_header.
Proof.
  split; [intros h; by split|]. intros h1 h2 h3 [] []. split; by etransitivity.
Qed.

Record same_message (m m' : message_buffer.t) : Prop := {
  sm_num : message_buffer.current_num_fields_ m' = message_buffer.current_num_fields_ m;
  sm_max : message_buffer.max_fields_ m' = message_buffer.max_fields_ m;
  sm_cache : message_buffer.cache_ m' = message_buffer.cache_ m;
  sm_line1 : same_vector (message_buffer.start_line1_ m) (message_buffer.start_line1_ m');
  sm_line2 : same_vector (message_buffer.start_line2_ m) (message_buffer.start_line2_ m');
  sm_line3 : same_vector (message_buffer.start_line3_ m) (message_buffer.start_line3_ m');
  sm_headers : Forall2 same_header (message_buffer.headers_ m) (message_buffer.headers_ m')
}.

#[export] Instance same_message_preorder : PreOrder same_message.
Proof.
  split; [by constructor|]. intros m1 m2 m3 [] [].
  constructor; try congruence; try by etransitivity.
Qed.

Lemma get_header_inv n m h :
  message_buffer.get_header n m = Ok h -> message_buffer.headers_ m !! Z.to_nat (s32 n) = Some h.
Proof.
  unfold message_buffer.get_header. intros Hg. apply bind_ok_inv in Hg as ([] & _ & Hg).
  destruct (_ !! _) eqn:E; [|done]. by injection Hg as ->.
Qed.

Lemma set_header_same n m h h' :
  message_buffer.get_header n m = Ok h -> same_header h h' ->
  same_message m (message_buffer.set_header n h' m).
Proof.
  intros Hg Hs. apply get_header_inv in Hg. constructor; try done. simpl.
  rewrite <- (list_insert_id _ _ _ Hg) at 1. by apply Forall2_insert.
Qed.

Lemma put_same w m b b' w' m' :
  get_header_buffer_to_write w m = Ok b -> same_vector b b' ->
  put_header_buffer b' w m = Ok (w', m') -> same_message m m'.
Proof.
  intros Hg Hs Hp. unfold get_header_buffer_to_write in Hg. unfold put_header_buffer in Hp.
  destruct (write_header_state_ w); try (injection Hp as <- <-); try done;
    try (injection Hg as <-; by constructor).
  - apply bind_ok_inv in Hp as (m2 & Hp & [= <- <-]). apply bind_ok_inv in Hp as (h & Hh & [= <-]).
    apply bind_ok_inv in Hg as ([] & _ & Hg). rewrite Hh in Hg. injection Hg as <-.
    eapply set_header_same; [exact Hh|]. by split.
  - apply bind_ok_inv in Hp as (m2 & Hp & [= <- <-]). apply bind_ok_inv in Hp as (h & Hh & [= <-]).
    apply bind_ok_inv in Hg as ([] & _ & Hg). rewrite Hh in Hg. injection Hg as <-.
    eapply set_header_same; [exact Hh|]. by split.
Qed.

Lemma write_header_loop_same {K} `{os K} fuel : forall (k : K) w m c k' w' m' c' st,
  write_header_loop fuel k w m c = Ok (k', w', m', c', st) -> same_message m m'.
Proof.
  induction fuel as [|fuel IH]; intros k w m c k' w' m' c' st Hw; [done|]. cbn [write_header_loop] in Hw.
  apply bind_ok_inv in Hw as (b & Hg & Hw). apply bind_ok_inv in Hw as ([[[k1 c1] b1] st1] & Hb & Hw).
  apply write_same in Hb. apply bind_ok_inv in Hw as ([w1 m1'] & Hp & Hw).
  pose proof (put_same _ _ _ _ _ _ Hg Hb Hp) as Hs.
  destruct st1; try done; try by injection Hw as <- <- <- <- <-.
  destruct (advance _); [|by injection Hw as <- <- <- <- <-].
  etransitivity; [exact Hs|]. by eapply IH.
Qed.

Lemma write_header_same {K} `{os K} (k : K) w m c k' w' m' c' st :
  write_header k w m c = Ok (k', w', m', c', st) -> same_message m m'.
Proof. apply write_header_loop_same. Qed.

(** * Calls until the message is sent

    Between two calls the poller may mark the connection ready again and
    anything may be sent elsewhere. *)
Section calls.
Context {K : Type} `{OsLaws K}.

Inductive write_run (k0 : K) (w0 : t) (mm0 : message_buffer.t) (c0 : connection.t) :
    socketlib.STATUS -> K -> t -> message_buffer.t -> connection.t -> Prop :=
  | run_first k w m c st :
      write_header k0 w0 mm0 c0 = Ok (k, w, m, c, st) -> write_run k0 w0 mm0 c0 st k w m c
  | run_again k1 w1 m1' c1 k2 c2 k w m c st :
      write_run k0 w0 mm0 c0 socketlib.INCOMPLETE k1 w1 m1' c1 ->
      sent k2 (connection.fd_ c0) = sent k1 (connection.fd_ c0) ->
      usable k2 c2 ->
      connection.fd_ c2 = connection.fd_ c1 ->
      write_header k2 w1 m1' c2 = Ok (k, w, m, c, st) ->
      write_run k0 w0 mm0 c0 st k w m c.

(** The message that a fresh writer sends. *)
Definition message_of (m : message_buffer.t) : msg :=
  Msg (content (message_buffer.start_line1_ m)) (content (message_buffer.start_line2_ m))
    (content (message_buffer.start_line3_ m)) (fields_of m).

Definition wire (x : msg) : list Z := serialize x.(m1) x.(m2) x.(m3) x.(mfields).

Record writer_ok (w : t) : Prop := {
  wo_space : static_buffer message_buffer.space w.(space_buf_);
  wo_endline : static_buffer message_buffer.new_line w.(endline_buf_);
  wo_sep : static_buffer message_buffer.field_sep w.(field_sep_)
}.

Lemma make_static_ok l :
  bytes_ok l -> raw_size l < 2 ^ 31 -> static_buffer l (rwb.make_static (Some l)).
Proof.
  intros Hb Hl. pose proof (raw_size_nonneg l).
  assert (rwb.make_static (Some l) = RWB (Some l) true (raw_size l) 0 (raw_size l) 0) as ->
    by (unfold rwb.make_static, rwb.reset; cbn [b_using_static_buffer_ p_buffer_ negb];
        by rewrite u32_small by lia).
  constructor; [|done|done]. constructor; [|unfold content, raw_of, raw_size; cbn; by rewrite Nat2Z.id, firstn_all|done].
  constructor; unfold raw_of; cbn; done || lia.
Qed.

Lemma make_writer_ok i s : writer_ok (make i s).
Proof. constructor; apply make_static_ok; (forall_concrete || reflexivity). Qed.

(** A message nothing of which was written yet. *)
Definition unwritten (b : read_write_buffer) : Prop := writing (content b) b /\ fresh b.

Record printable (m : message_buffer.t) : Prop := {
  pr_line1 : unwritten (message_buffer.start_line1_ m);
  pr_line2 : unwritten (message_buffer.start_line2_ m);
  pr_line3 : unwritten (message_buffer.start_line3_ m);
  pr_num : message_buffer.current_num_fields_ m = Z.of_nat (length (message_buffer.headers_ m));
  pr_small : Z.of_nat (length (message_buffer.headers_ m)) < 2 ^ 31;
  pr_headers : Forall (fun h => unwritten h.(name_) /\ unwritten h.(value_)) (message_buffer.headers_ m)
}.

Lemma printable_ok z m : message_ok z m -> printable m.
Proof.
  intros []. constructor; try (by eapply writing_stored); try done; [lia|].
  eapply Forall_impl; [exact mb_headers|]. intros h [Hn Hv].
  split; by eapply writing_stored.
Qed.

(** The static response to a denied request. *)
Definition error_message : message_buffer.t :=
  Eval vm_compute in
    match error_response with Ok (m, _) => m | _ => message_buffer.make false 0 0 0 0 end.

Lemma error_response_made : error_response = Ok (error_message, HeaderCache []).
Proof. vm_compute. reflexivity. Qed.

Lemma error_printable : printable error_message.
Proof.
  constructor; try (vm_compute; reflexivity || done);
    repeat constructor; try (vm_compute; reflexivity || lia || discriminate).
Qed.

Lemma writer_start w m :
  writer_ok w -> printable m ->
  hw_inv (message_of m) (reset w) m /\ pending (message_of m) (reset w) m = wire (message_of m).
Proof.
  intros [] []. destruct (static_buffer_reset _ _ wo_space0), (static_buffer_reset _ _ wo_endline0),
    (static_buffer_reset _ _ wo_sep0).
  destruct pr_line4 as [? ?], pr_line5 as [? ?], pr_line6 as [? ?].
  assert (hw_inv (message_of m) (reset w) m) as Hinv.
  { constructor; try done; unfold message_of; cbn [m1 m2 m3 mfields]; unfold fields_of;
      rewrite ?length_map; try done.
    intros k f h Hf Hh. rewrite list_lookup_fmap, Hh in Hf. injection Hf as <-.
    pose proof (proj1 (Forall_lookup _ _) pr_headers0 _ _ Hh) as [[? ?] [? ?]]. by constructor. }
  split; [done|].
  rewrite (pending_fresh _ _ _ (message_buffer.start_line1_ m) (content (message_buffer.start_line1_ m)))
    by done.
  unfold wire, serialize, rest, fields_from, message_of. cbn. by rewrite <- ?app_assoc.
Qed.

Lemma hw_cursor x w m : hw_inv x w m -> 0 <= cursor w.
Proof. intros []. unfold cursor. destruct (write_header_state_ w); simpl in *; lia. Qed.

Lemma write_run_ok k0 w0 mm0 c0 st k w m c :
  writer_ok w0 -> printable mm0 -> usable k0 c0 ->
  write_run k0 (reset w0) mm0 c0 st k w m c ->
  exists l, sent k (connection.fd_ c0) = sent k0 (connection.fd_ c0) ++ l /\
    connection.fd_ c = connection.fd_ c0 /\
    match st with
    | socketlib.COMPLETE => l = wire (message_of mm0)
    | socketlib.INCOMPLETE =>
        hw_inv (message_of mm0) w m /\ 0 <= cursor w /\
        wire (message_of mm0) = l ++ pending (message_of mm0) w m
    | socketlib.DEST_CLOSED => l `prefix_of` wire (message_of mm0)
    | _ => False
    end.
Proof.
  intros Hw Hm Ho Hrun. destruct (writer_start _ _ Hw Hm) as [Hinv Hp].
  set (x := message_of mm0) in *.
  induction Hrun as [k w m c st Hcall|k1 w1 mm1 c1 k2 c2 k w m c st _ IH Hs Ho2 Hfd Hcall].
  - destruct (write_header_ok x k0 _ _ c0 Hinv Ho (hw_cursor _ _ _ Hinv)) as (r & Hr & Hpost).
    rewrite Hcall in Hr. injection Hr as <-. destruct Hpost as (l & [] & Hinv1 & Hst). rewrite Hp in Hst.
    exists l. split; [done|]. split; [done|]. destruct st; try done.
    + apply Hst.
    + destruct Hst as (? & _). eauto using hw_cursor.
    + destruct Hst as [-> _]. by apply prefix_app_r.
  - destruct IH as (l1 & Hs1 & Hfd1 & Hinv1 & Hc1 & Hp1).
    assert (connection.fd_ c2 = connection.fd_ c0) as E by congruence.
    destruct (write_header_ok x k2 w1 mm1 c2 Hinv1 Ho2 Hc1) as (r & Hr & Hpost).
    rewrite Hcall in Hr. injection Hr as <-. destruct Hpost as (l & [] & Hinv2 & Hst). rewrite E in *.
    exists (l1 ++ l). split; [by rewrite sd_sent0, Hs, Hs1, app_assoc|].
    split; [congruence|]. rewrite Hp1. destruct st; try done.
    + destruct Hst as [-> _]. done.
    + destruct Hst as (-> & _). rewrite app_assoc. eauto using hw_cursor.
    + destruct Hst as [-> _]. rewrite app_assoc. by apply prefix_app_r.
Qed.

End calls.

(** * Properties *)

(** C16: over any sequence of calls of [write_header], with the socket
    blocking after any byte and anything going on between the calls, what the
    writer has sent is a prefix of the message on the wire (start line,
    fields and empty line), every byte once and in order; it answers
    [COMPLETE] exactly when all of it was sent, and after [INCOMPLETE] the
    next call returns. *)
Theorem write_header_sends_message {K} `{OsLaws K} k0 w0 m0 c0 st (k : K) w m c :
  writer_ok w0 -> printable m0 -> usable k0 c0 ->
  write_run k0 (reset w0) m0 c0 st k w m c ->
  let all := serialize (content (message_buffer.start_line1_ m0))
    (content (message_buffer.start_line2_ m0)) (content (message_buffer.start_line3_ m0))
    (fields_of m0) in
  exists l, sent k (connection.fd_ c0) = sent k0 (connection.fd_ c0) ++ l /\ l `prefix_of` all /\
    match st with
    | socketlib.COMPLETE => l = all
    | socketlib.INCOMPLETE =>
        forall k2 c2, usable k2 c2 -> exists r, write_header k2 w m c2 = Ok r
    | socketlib.DEST_CLOSED => True
    | _ => False
    end.
Proof.
  intros Hw Hm Ho Hrun. destruct (write_run_ok k0 w0 m0 c0 st k w m c Hw Hm Ho Hrun)
    as (l & Hs & _ & Hst).
  exists l. split; [done|]. change (serialize _ _ _ _) with (wire (message_of m0)).
  destruct st; try done.
  - by rewrite Hst.
  - destruct Hst as (Hinv & Hc & Hp). split; [rewrite Hp; by eexists|].
    intros k2 c2 Ho2. destruct (write_header_ok _ k2 _ _ c2 Hinv Ho2 Hc) as (r & Hr & _). eauto.
Qed.

Definition sample_script : script := Script [inl 3; inl 9; inr EINTR; inl 0]%nat [] [].

Lemma write_header_sends_message_witness :
  exists k w m c,
    write_header sample_script (reset (make 7 FIELD_VALUE)) sample_message sample_connection =
      Ok (k, w, m, c, socketlib.INCOMPLETE) /\
    sent_to (out k) 3 `prefix_of` str "GET / HTTP/1.1" ++ [13; 10] ++ str "Host: a" ++ [13; 10; 13; 10].
Proof.
  assert (exists k w m c,
    write_header sample_script (reset (make 7 FIELD_VALUE)) sample_message sample_connection =
      Ok (k, w, m, c, socketlib.INCOMPLETE)) as (k & w & m & c & Hw)
    by (do 4 eexists; vm_compute; reflexivity).
  destruct (write_header_sends_message sample_script (make 7 FIELD_VALUE) sample_message sample_connection
    socketlib.INCOMPLETE k w m c (make_writer_ok _ _) (printable_ok _ _ sample_message_ok) (fun _ => script_open _ _))
    as (l & Hl & Hp & _).
  - apply run_first. exact Hw.
  - exists k, w, m, c. split; [exact Hw|].
    change (sent_to (out k) 3 = [] ++ l) in Hl. rewrite Hl. exact Hp.
Defined.

(** Every message of the program can be sent: one that a header handler
    filled, and the static response to a denied request; a call on a fresh
    writer returns, and [COMPLETE] means that the whole message went out. *)
Theorem write_header_returns {K} `{OsLaws K} (k : K) w m c :
  writer_ok w -> usable k c ->
  (exists z, message_ok z m) \/ (exists c0, error_response = Ok (m, c0)) ->
  exists k' w' m' c' st l, write_header k (reset w) m c = Ok (k', w', m', c', st) /\
    sent k' (connection.fd_ c) = sent k (connection.fd_ c) ++ l /\
    (st = socketlib.COMPLETE -> message_buffer.get_const_buffers m ≫= (fun bs => Ok (concat bs)) = Ok l).
Proof.
  intros Hw Ho Hm.
  assert (printable m /\ exists bs, message_buffer.get_const_buffers m = Ok bs /\
    concat bs = wire (message_of m)) as (Hp & bs & Hbs & Hc).
  { destruct Hm as [(z & Hm)|(c0 & Hm)].
    - split; [by eapply printable_ok|]. by apply (const_buffers_ok z).
    - rewrite error_response_made in Hm. injection Hm as <- <-.
      split; [exact error_printable|]. eexists; split; vm_compute; reflexivity. }
  destruct (writer_start w m Hw Hp) as [Hinv Hpend].
  destruct (write_header_ok _ k _ _ c Hinv Ho (hw_cursor _ _ _ Hinv)) as ([[[[k' w'] m'] c'] st] & Hr & l & Hs & _ & Hst).
  exists k', w', m', c', st, l. split; [done|]. split; [apply Hs|]. intros ->.
  rewrite Hbs. cbn. by rewrite Hc, <- Hpend, (proj1 Hst).
Qed.

Lemma write_header_returns_witness :
  exists k' w' m' c' st l m c0, error_response = Ok (m, c0) /\
    write_header (Script [] [] []) (reset (make 0 FIELD_NAME)) m sample_connection =
      Ok (k', w', m', c', st) /\ sent k' 3 = [] ++ l.
Proof.
  destruct error_response as [[m c0]| | |] eqn:E; try (vm_compute in E; discriminate).
  destruct (write_header_returns (Script [] [] []) (make 0 FIELD_NAME) m sample_connection
    (make_writer_ok _ _) (fun _ => script_open _ _)) as (k' & w' & m' & c' & st & l & H1 & H2 & _).
  - right. exists c0. exact E.
  - exists k', w', m', c', st, l, m, c0. split; [reflexivity|]. split; [exact H1|exact H2].
Defined.
