(* ===== verification/Printf.v ===== *)
(** The conversions of [snprintf] the code uses: [%i], [%X], [%0wd] and
    [%+0wd], with the digits they print. *)
From S2P Require Import Prelude.

(** The digits of a number that is not negative, the last first; [fuel]
    bounds their number. *)
Fixpoint digits_rev (base : Z) (fuel : nat) (n : Z) : list Z :=
  match fuel with
  | O => []
  | S fuel => n mod base :: (if n <? base then [] else digits_rev base fuel (n / base))
  end.

(** Twenty digits are enough for a 64-bit number in base 10 and 16. *)
Definition digits (base n : Z) : list Z := rev (digits_rev base 20 n).

(** The value of digits. *)
Definition value (base : Z) (ds : list Z) : Z := fold_left (fun v d => base * v + d) ds 0.

Definition decimal_char (d : Z) : Z := 48 + d.
Definition upper_hex_char (d : Z) : Z := if d <? 10 then 48 + d else 55 + d.

Definition decimal (n : Z) : list Z := map decimal_char (digits 10 n).

(** [%X] *)
Definition upper_hex (n : Z) : list Z := map upper_hex_char (digits 16 n).

(** [%i] *)
Definition print_i (n : Z) : list Z := if n <? 0 then str "-" ++ decimal (- n) else decimal n.

(** The zeros of [%0wd], after the sign. *)
Definition zero_pad (width : nat) (l : list Z) : list Z := replicate (width - length l) 48 ++ l.

Definition print_0d (width : nat) (n : Z) : list Z :=
  if n <? 0 then str "-" ++ zero_pad (width - 1) (decimal (- n)) else zero_pad width (decimal n).
Definition print_plus_0d (width : nat) (n : Z) : list Z :=
  if n <? 0 then str "-" ++ zero_pad (width - 1) (decimal (- n))
  else str "+" ++ zero_pad (width - 1) (decimal n).

(** * Lemmas *)

Lemma digits_rev_spec base fuel : 1 < base -> forall n,
  0 <= n < base ^ Z.of_nat fuel -> (0 < fuel)%nat ->
  Forall (fun d => 0 <= d < base) (digits_rev base fuel n) /\
  (0 < length (digits_rev base fuel n))%nat /\
  (forall w, (0 < w)%nat -> n < base ^ Z.of_nat w -> (length (digits_rev base fuel n) <= w)%nat) /\
  fold_right (fun d v => base * v + d) 0 (digits_rev base fuel n) = n.
Proof.
  intros Hb. induction fuel as [|fuel IH]; intros n Hn Hf; [lia|]. cbn [digits_rev].
  pose proof (Z.mod_pos_bound n base ltac:(lia)). pose proof (Z.div_mod n base ltac:(lia)).
  destruct (Z.ltb_spec n base).
  - rewrite Z.mod_small by lia. cbn [length fold_right]. split; [constructor; [lia|constructor]|].
    split; [lia|]. split; [intros; lia|lia].
  - rewrite Nat2Z.inj_succ, Z.pow_succ_r in Hn by lia.
    assert (0 < fuel)%nat by (destruct fuel; [simpl in Hn; lia|lia]).
    assert (forall m, n < base * m -> 0 <= n / base < m) as Hdiv
      by (intros m Hm; split; [apply Z.div_pos; lia|apply Z.div_lt_upper_bound; lia]).
    destruct (IH (n / base)) as (Hd & Hl & Hw & Hv); [apply Hdiv; lia|done|].
    cbn [length fold_right]. split; [by constructor|]. split; [lia|]. split; [|rewrite Hv; lia].
    intros w Hw0 Hnw. destruct w as [|[|w]]; [lia|simpl in Hnw; lia|].
    rewrite Nat2Z.inj_succ, Z.pow_succ_r in Hnw by lia.
    specialize (Hw (S w) ltac:(lia) (proj2 (Hdiv _ Hnw))). lia.
Qed.

Lemma digits_spec base n :
  1 < base -> 0 <= n < base ^ 20 ->
  Forall (fun d => 0 <= d < base) (digits base n) /\ (0 < length (digits base n))%nat /\
  (forall w, (0 < w)%nat -> n < base ^ Z.of_nat w -> (length (digits base n) <= w)%nat) /\
  value base (digits base n) = n.
Proof.
  intros Hb Hn. destruct (digits_rev_spec base 20 Hb n) as (Hd & Hl & Hw & Hv); [simpl; lia|lia|].
  unfold digits, value. rewrite length_rev.
  split; [by apply Forall_rev|]. split; [done|]. split; [done|].
  rewrite <- fold_left_rev_right, rev_involutive. exact Hv.
Qed.

Lemma decimal_spec n w :
  0 <= n < 10 ^ Z.of_nat w -> (0 < w <= 20)%nat ->
  Forall (fun c => 48 <= c <= 57) (decimal n) /\ (0 < length (decimal n) <= w)%nat.
Proof.
  intros Hn Hw. assert (10 ^ Z.of_nat w <= 10 ^ 20) by (apply Z.pow_le_mono_r; lia).
  destruct (digits_spec 10 n) as (Hd & Hl & Hlw & _); [lia|lia|].
  specialize (Hlw w ltac:(lia) ltac:(lia)). unfold decimal. rewrite length_map. split; [|lia].
  apply Forall_map. eapply Forall_impl; [exact Hd|]. unfold decimal_char. simpl. lia.
Qed.
