(* ===== verification/MemoryManager.v ===== *)
(** The pool of preallocated objects, util/pessimistic_memory_manager.hpp: a
    stack of pointers of which those from the current position on are free. *)
From stdpp Require Import list.
From S2P Require Import Prelude.

Module pessimistic_memory_manager.
Section manager.
Context {E : Type}.

(** The elements are pointers; the objects are where they point to. *)
Record t := MemoryManager {
  free_data_stack_ : list E;
  current_free_position_ : Z
}.

(** [new_element] is the copy of the prototype, or its [clone()]. *)
Definition make (max_elements : nat) (new_element : nat -> E) : t :=
  MemoryManager (map new_element (seq 0 max_elements)) 0.

(** The null pointer when no element is free. *)
Definition allocate_element (m : t) : res (option E * t) :=
  if u64 (Z.of_nat (length m.(free_data_stack_))) <=? m.(current_free_position_) then Ok (None, m)
  else
    let m := MemoryManager m.(free_data_stack_) (u32 (m.(current_free_position_) + 1)) in
    p ← of_option (m.(free_data_stack_) !! Z.to_nat (u32 (m.(current_free_position_) - 1)));
    Ok (Some p, m).

(** Storing past the vector's end is undefined. *)
Definition release_element (p_element : E) (m : t) : res t :=
  let p := u32 (m.(current_free_position_) - 1) in
  if p <? Z.of_nat (length m.(free_data_stack_)) then
    Ok (MemoryManager (<[Z.to_nat p := p_element]> m.(free_data_stack_)) p)
  else Undef.

(** The body computes the number and has no [return]: a caller that uses the
    result has undefined behaviour. *)
Definition num_available_elements (m : t) : res Z := Undef.

(** The destructor: the elements it deletes. *)
Definition destroy (m : t) : res (list E) :=
  _ ← CHECK_CONDITION (m.(current_free_position_) =? 0);
  Ok m.(free_data_stack_).

End manager.
Arguments t : clear implicits.
End pessimistic_memory_manager.

Import pessimistic_memory_manager.

Section pool.
Context {E : Type}.

(** The elements that are free. *)
Definition free (m : t E) : list E := drop (Z.to_nat m.(current_free_position_)) m.(free_data_stack_).

(** The manager of the elements [all], of which its clients hold [out]. *)
Record pool_ok (all : list E) (m : t E) (out : list E) : Prop := {
  po_all : free m ++ out ≡ₚ all;
  po_size : length m.(free_data_stack_) = length all;
  po_position : m.(current_free_position_) = Z.of_nat (length out);
  po_fits : Z.of_nat (length all) < 2 ^ 32
}.

Lemma pool_out all m out : pool_ok all m out -> (length out <= length all)%nat.
Proof. intros []. rewrite <- po_all0, length_app. lia. Qed.

Lemma pool_make n new :
  Z.of_nat n < 2 ^ 32 -> pool_ok (map new (seq 0 n)) (make n new) [].
Proof.
  intros Hn. constructor; simpl; try done.
  - unfold free. simpl. by rewrite app_nil_r.
  - by rewrite length_map, length_seq.
Qed.

(** An element that is free is handed out, the null pointer when none is. *)
Lemma allocate_ok all m out :
  pool_ok all m out ->
  (length out < length all)%nat /\ (exists p m', allocate_element m = Ok (Some p, m') /\
    free m = p :: free m' /\ pool_ok all m' (p :: out)) \/
  length out = length all /\ allocate_element m = Ok (None, m).
Proof.
  intros Hok. pose proof (pool_out _ _ _ Hok). destruct Hok. unfold allocate_element.
  rewrite u64_small, po_size0, po_position0 by lia.
  destruct (Z.leb_spec (Z.of_nat (length all)) (Z.of_nat (length out))); [right; split; [lia|done]|left].
  split; [lia|]. cbn [free_data_stack_ current_free_position_]. rewrite (u32_small (_ + 1)) by lia.
  rewrite u32_small by lia. replace (Z.to_nat _) with (length out) by lia.
  destruct (lookup_lt_is_Some_2 m.(free_data_stack_) (length out)) as [p Hp]; [lia|].
  rewrite Hp. cbn [of_option]. rewrite bind_ok. eexists p, _. split; [reflexivity|].
  unfold free in *. cbn [free_data_stack_ current_free_position_]. rewrite po_position0, Nat2Z.id in *.
  replace (Z.to_nat (Z.of_nat (length out) + 1)) with (S (length out)) by lia.
  pose proof (drop_S _ _ _ Hp) as Hd. split; [done|]. constructor; try done; [|simpl; lia].
  unfold free. cbn [free_data_stack_ current_free_position_].
  replace (Z.to_nat (Z.of_nat (length out) + 1)) with (S (length out)) by lia.
  rewrite <- po_all0, Hd, <- app_comm_cons. symmetry. apply Permutation_middle.
Qed.

(** An element that was handed out comes back. *)
Lemma release_ok all m out p out' :
  pool_ok all m out -> out ≡ₚ p :: out' ->
  exists m', release_element p m = Ok m' /\ free m' = p :: free m /\ pool_ok all m' out'.
Proof.
  intros Hok Hp. pose proof (pool_out _ _ _ Hok) as Hl. pose proof (Permutation_length Hp) as Hlen.
  simpl in Hlen. destruct Hok. unfold release_element. rewrite po_position0, po_size0, u32_small by lia.
  replace (_ <? _) with true by lia. eexists. split; [reflexivity|].
  assert (forall q, drop (length out') (<[length out' := p]> m.(free_data_stack_)) = q ->
    q = p :: free m) as Hdrop.
  { intros q <-. unfold free. rewrite po_position0, Nat2Z.id, Hlen.
    rewrite (drop_S _ p) by (apply list_lookup_insert_eq; lia).
    by rewrite drop_insert_lt by lia. }
  replace (Z.of_nat (length out) - 1) with (Z.of_nat (length out')) by lia. rewrite Nat2Z.id.
  assert (free (MemoryManager (<[length out' := p]> m.(free_data_stack_)) (Z.of_nat (length out'))) =
    p :: free m) as Hfree by (unfold free; cbn [free_data_stack_ current_free_position_];
      rewrite Nat2Z.id; by apply Hdrop).
  split; [exact Hfree|]. constructor; try done.
  - rewrite Hfree, <- po_all0, Hp. apply Permutation_middle.
  - cbn [free_data_stack_]. by rewrite length_insert.
Qed.

(** Of a pool whose elements are not counted: each call takes the top of the
    free elements or puts it back. *)
Definition pool_bounded (m : t E) : Prop := exists all out, pool_ok all m out.

Lemma make_bounded n new : Z.of_nat n < 2 ^ 32 -> pool_bounded (make n new).
Proof. intros Hn. eexists _, []. by apply pool_make. Qed.

Lemma allocate_bounded m p m' :
  pool_bounded m -> allocate_element m = Ok (Some p, m') -> free m = p :: free m' /\ pool_bounded m'.
Proof.
  intros (all & out & Hok) Ha. destruct (allocate_ok _ _ _ Hok) as [(_ & q & m2 & E1 & Hf & Hok')|[_ E1]];
    rewrite E1 in Ha; [|done]. injection Ha as <- <-. split; [done|]. by eexists _, _.
Qed.

Lemma release_bounded m p m' :
  pool_bounded m -> release_element p m = Ok m' -> free m' = p :: free m /\ pool_bounded m'.
Proof.
  intros (all & [|x out] & Hok) Hr.
  { destruct Hok. unfold release_element in Hr. rewrite po_position0, po_size0 in Hr.
    replace (_ <? _) with false in Hr; [done|]. change (u32 _) with (2 ^ 32 - 1). lia. }
  assert (pool_ok (free m ++ p :: out) m (p :: out)) as Hok'.
  { destruct Hok. pose proof (Permutation_length po_all0) as Hl. rewrite length_app in Hl.
    constructor; [done|rewrite length_app; simpl in *; lia|done|rewrite length_app; simpl in *; lia]. }
  destruct (release_ok _ _ _ _ _ Hok' (Permutation_refl _)) as (m2 & E1 & Hf & Hok2). rewrite E1 in Hr.
  injection Hr as <-. split; [done|]. by eexists _, _.
Qed.

(** The calls of clients that release what they were given; [out] is what
    they hold. *)
Inductive managed (all : list E) : t E -> list E -> Prop :=
  | managed_made n new : all = map new (seq 0 n) -> Z.of_nat n < 2 ^ 32 -> managed all (make n new) []
  | managed_allocate m out p m' :
      managed all m out -> allocate_element m = Ok (Some p, m') -> managed all m' (p :: out)
  | managed_release m out p out' m' :
      managed all m out -> out ≡ₚ p :: out' -> release_element p m = Ok m' -> managed all m' out'.

Lemma managed_ok all m out : managed all m out -> pool_ok all m out.
Proof.
  induction 1 as [n new -> Hn|m out p m' _ IH Ha|m out p out' m' _ IH Hp Hr].
  - by apply pool_make.
  - destruct (allocate_ok _ _ _ IH) as [(_ & q & m2 & E1 & _ & Hok)|[_ E1]]; rewrite E1 in Ha; [|done].
    by injection Ha as <- <-.
  - destruct (release_ok _ _ _ _ _ IH Hp) as (m2 & E1 & _ & Hok). rewrite E1 in Hr. by injection Hr as <-.
Qed.

End pool.

(** * Properties *)


Definition sample_pool_elements (i : nat) : Z := 100 + Z.of_nat i.


(** A release without an allocation makes the position wrap around, and the
    element is stored far outside the stack. *)
Lemma release_without_allocation {E} (all : list E) m (p : E) :
  pool_ok all m [] -> release_element p m = Undef.
Proof.
  intros []. unfold release_element. rewrite po_position0, po_size0.
  replace (u32 _) with (2 ^ 32 - 1) by reflexivity. by replace (_ <? _) with false by lia.
Qed.
