(* ===== verification/PooledList.v ===== *)
(** The list whose nodes come from a pool, util/pooled_list.hpp: the memory of
    the pools, the objects that are constructed in it, and the operations of a
    list over it.  [std::list] is modelled by what the standard promises of
    it: a node keeps its place in memory when it is spliced, and an iterator
    names the node. *)
From stdpp Require Import list gmap.
From S2P Require Import Prelude.

Module pooled_list.

(** An operation returns or throws [std::bad_alloc]. *)
Inductive outcome (A : Type) := Returns (a : A) | Throws.
Arguments Returns {A} _.
Arguments Throws {A}.

#[export] Instance outcome_fmap : FMap outcome := fun A B f o =>
  match o with Returns a => Returns (f a) | Throws => Throws end.

(** [pool]; a node is known by the address of the block it holds. *)
Record pool := Pool { free_list_ : list Z; size_ : Z }.

(** [pooled_list]; the pool is known by its address. *)
Record t := PooledList { active_list_ : list Z; p_pool_ : Z }.

(** A node of the active list, or [end()]. *)
Definition iterator : Type := option Z.

Definition begin (l : t) : iterator := head l.(active_list_).
Definition end_ : iterator := None.

(** ** [std::list] *)

Fixpoint splice_before (pos : iterator) (nodes l : list Z) : res (list Z) :=
  match l with
  | [] => match pos with None => Ok nodes | Some _ => Undef end
  | a :: l' =>
      if bool_decide (pos = Some a) then Ok (nodes ++ l)
      else l' ← splice_before pos nodes l'; Ok (a :: l')
  end.

Fixpoint take_out (node : Z) (l : list Z) : res (list Z) :=
  match l with
  | [] => Undef
  | a :: l' => if a =? node then Ok l' else l' ← take_out node l'; Ok (a :: l')
  end.

(** [++pos] and [--pos]. *)
Fixpoint increment (pos : iterator) (l : list Z) : res iterator :=
  match l with
  | [] => Undef
  | a :: l' => if bool_decide (pos = Some a) then Ok (head l') else increment pos l'
  end.

Fixpoint decrement (pos : iterator) (l : list Z) : res iterator :=
  match l with
  | [] => Undef
  | a :: l' => if bool_decide (pos = head l') then Ok (Some a) else decrement pos l'
  end.

Section algorithms.
Context {A : Type} (func : A -> A -> bool).

(** [sort] is stable. *)
Fixpoint insert_sorted (x : A) (l : list A) : list A :=
  match l with
  | [] => [x]
  | y :: l' => if func y x then y :: insert_sorted x l' else x :: l
  end.

Definition std_sort (l : list A) : list A := foldr insert_sorted [] l.

(** [merge] takes from the second list what is less. *)
Fixpoint std_merge (l1 : list A) : list A -> list A :=
  match l1 with
  | [] => fun l2 => l2
  | x :: l1' => fix go l2 :=
      match l2 with
      | [] => l1
      | y :: l2' => if func y x then y :: go l2' else x :: std_merge l1' l2
      end
  end.

End algorithms.

Section list.
Context {T : Type} (eqb ltb : T -> T -> bool).

(** The objects that are constructed, by the address of their block, and the
    pools. *)
Record memory := Memory { objects : gmap Z T; pools : gmap Z pool }.

Definition with_objects (o : gmap Z T) (m : memory) : memory := Memory o m.(pools).
Definition with_pool (p : Z) (q : pool) (m : memory) : memory := Memory m.(objects) (<[p := q]> m.(pools)).
Definition with_active (l : list Z) (this : t) : t := PooledList l this.(p_pool_).

(** [*reinterpret_cast<T*>(raw_data)] *)
Definition object (m : memory) (a : Z) : res T := of_option (m.(objects) !! a).

(** ** The pool *)

(** [new_block] is what [operator new] answers. *)
Definition make_pool (size : nat) (new_block : nat -> Z) : pool :=
  Pool (map new_block (seq 0 size)) (Z.of_nat size).

(** The destructor: the blocks it deletes. *)
Definition destroy_pool (q : pool) : list Z := q.(free_list_).

Definition pool_empty (q : pool) : bool := bool_decide (q.(free_list_) = []).
Definition elements_remaining (q : pool) : Z := Z.of_nat (length q.(free_list_)).
Definition pool_max_size (q : pool) : Z := q.(size_).

(** ** The operations of [this] *)
Definition act (A : Type) : Type := memory -> t -> res (outcome A * memory * t).

Definition act_ret {A} (a : A) : act A := fun m this => Ok (Returns a, m, this).

(** An exception leaves the operation. *)
Definition act_bind {A B} (x : act A) (f : A -> act B) : act B := fun m this =>
  '(o, m, this) ← x m this;
  match o : outcome A with
  | Returns a => f a m this
  | Throws => Ok (Throws, m, this)
  end.

Notation "x ⇐ e ; k" := (act_bind e (fun x => k)) (at level 100, e at level 99, k at level 200, right associativity).

Definition lift {A} (f : memory -> t -> res A) : act A := fun m this => a ← f m this; Ok (Returns a, m, this).

(** [value] is constructed in the first free block, whose node goes before
    [pos]. *)
Definition insert (pos : iterator) (value : T) : act iterator := fun m this =>
  q ← of_option (m.(pools) !! this.(p_pool_));
  match q.(free_list_) with
  | a :: free =>
      let m := with_objects (<[a := value]> m.(objects)) m in
      l ← splice_before pos [a] this.(active_list_);
      let m := with_pool this.(p_pool_) (Pool free q.(size_)) m in
      i ← decrement pos l;
      Ok (Returns i, m, with_active l this)
  | [] => Ok (Throws, m, this)
  end.

Fixpoint insert_range (pos : iterator) (values : list T) : act unit :=
  match values with
  | [] => act_ret tt
  | x :: values => _ ⇐ insert pos x; insert_range pos values
  end.

Fixpoint insert_n (pos : iterator) (n : nat) (x : T) : act unit :=
  match n with
  | O => act_ret tt
  | S n => _ ⇐ insert pos x; insert_n pos n x
  end.

(** The item is destroyed and its node becomes the first free one. *)
Definition erase (pos : iterator) : act iterator := fun m this =>
  q ← of_option (m.(pools) !! this.(p_pool_));
  next ← increment pos this.(active_list_);
  a ← of_option pos;
  _ ← object m a;
  let m := with_objects (delete a m.(objects)) m in
  l ← take_out a this.(active_list_);
  Ok (Returns next, with_pool this.(p_pool_) (Pool (a :: q.(free_list_)) q.(size_)) m, with_active l this).

Fixpoint erase_loop (fuel : nat) (first last : iterator) : act unit :=
  match fuel with
  | O => fun _ _ => NoFuel
  | S fuel =>
      if bool_decide (first = last) then act_ret tt
      else first ⇐ erase first; erase_loop fuel first last
  end.

Definition erase_range (first last : iterator) : act unit := fun m this =>
  erase_loop (S (S (length this.(active_list_)))) first last m this.

Definition empty (this : t) : bool := bool_decide (this.(active_list_) = []).

Definition clear : act unit := fun m this => erase_range (begin this) end_ m this.

Definition assign (n : nat) (value : T) : act unit :=
  _ ⇐ clear; fun m this => insert_n (begin this) n value m this.

Definition assign_range (values : list T) : act unit :=
  _ ⇐ clear; fun m this => insert_range (begin this) values m this.

Definition deref (pos : iterator) : memory -> t -> res T := fun m this =>
  a ← of_option pos;
  if bool_decide (a ∈ this.(active_list_)) then object m a else Undef.

(** The version that is not const does not compile. *)
Definition back : memory -> t -> res T := fun m this =>
  tmp ← decrement end_ this.(active_list_); deref tmp m this.
Definition front : memory -> t -> res T := fun m this => deref (begin this) m this.

Definition max_size (m : memory) (this : t) : res Z :=
  q ← of_option (m.(pools) !! this.(p_pool_)); Ok (pool_max_size q).

Definition pop_back : act unit := fun m this =>
  if negb (empty this) then
    temp ← decrement end_ this.(active_list_);
    (_ ⇐ erase temp; act_ret tt) m this
  else Ok (Returns tt, m, this).

Definition pop_front : act unit := fun m this =>
  if negb (empty this) then (_ ⇐ erase (begin this); act_ret tt) m this
  else Ok (Returns tt, m, this).

Definition push_back (x : T) : act unit := _ ⇐ insert end_ x; act_ret tt.
Definition push_front (x : T) : act unit := fun m this => (_ ⇐ insert (begin this) x; act_ret tt) m this.

Fixpoint remove_loop (pred : T -> bool) (fuel : nat) (cur : iterator) : act unit :=
  match fuel with
  | O => fun _ _ => NoFuel
  | S fuel =>
      if bool_decide (cur = end_) then act_ret tt
      else
        x ⇐ lift (deref cur);
        if pred x then cur ⇐ erase cur; remove_loop pred fuel cur
        else cur ⇐ lift (fun _ this => increment cur this.(active_list_)); remove_loop pred fuel cur
  end.

Definition remove_if (pred : T -> bool) : act unit := fun m this =>
  remove_loop pred (S (length this.(active_list_))) (begin this) m this.

(** [bind1st(equal_to<T>(), value)] *)
Definition remove (value : T) : act unit := remove_if (eqb value).

(** The first loop of [resize]: how far it comes, and [len]. *)
Fixpoint count_up (l : list Z) (new_size len : nat) : iterator * nat :=
  match l with
  | [] => (end_, len)
  | a :: l => if (len <? new_size)%nat then count_up l new_size (S len) else (Some a, len)
  end.

Definition resize (new_size : nat) (x : T) : act unit := fun m this =>
  let '(cur, len) := count_up this.(active_list_) new_size 0 in
  if (len =? new_size)%nat then erase_range cur end_ m this
  else insert_n end_ (new_size - len) x m this.

Definition reverse : act unit := fun m this =>
  Ok (Returns tt, m, with_active (List.rev this.(active_list_)) this).

(** The nodes with their objects. *)
Fixpoint items (m : memory) (l : list Z) : res (list (Z * T)) :=
  match l with
  | [] => Ok []
  | a :: l => x ← object m a; items ← items m l; Ok ((a, x) :: items)
  end.

(** [apply_binary_predicate] *)
Definition on_items (func : T -> T -> bool) (x y : Z * T) : bool := func x.2 y.2.

Definition sort (func : T -> T -> bool) : act unit := fun m this =>
  l ← items m this.(active_list_);
  Ok (Returns tt, m, with_active (std_sort (on_items func) l).*1 this).

(** [x] is another list; what it becomes is the result. *)
Definition merge (x : t) (func : T -> T -> bool) : act t := fun m this =>
  _ ← CHECK_CONDITION (this.(p_pool_) =? x.(p_pool_));
  l1 ← items m this.(active_list_);
  l2 ← items m x.(active_list_);
  Ok (Returns (with_active [] x), m, with_active (std_merge (on_items func) l1 l2).*1 this).

(** The versions for one element and for a range do not compile. *)
Definition splice (position : iterator) (x : t) : act t := fun m this =>
  _ ← CHECK_CONDITION (this.(p_pool_) =? x.(p_pool_));
  l ← splice_before position x.(active_list_) this.(active_list_);
  Ok (Returns (with_active [] x), m, with_active l this).

Fixpoint unique_loop (pred : T -> T -> bool) (fuel : nat) (cur next : iterator) : act unit :=
  match fuel with
  | O => fun _ _ => NoFuel
  | S fuel =>
      if bool_decide (next = end_) then act_ret tt
      else
        x ⇐ lift (deref cur);
        y ⇐ lift (deref next);
        if pred x y then next ⇐ erase next; unique_loop pred fuel cur next
        else
          after ⇐ lift (fun _ this => increment next this.(active_list_));
          unique_loop pred fuel next after
  end.

Definition unique (pred : T -> T -> bool) : act unit := fun m this =>
  if bool_decide (begin this = end_) then Ok (Returns tt, m, this)
  else
    next ← increment (begin this) this.(active_list_);
    unique_loop pred (length this.(active_list_)) (begin this) next m this.

Definition swap (this x : t) : t * t :=
  (PooledList x.(active_list_) x.(p_pool_), PooledList this.(active_list_) this.(p_pool_)).

(** ** Constructors and the destructor *)

(** An object whose constructor throws is not destroyed: its members are, and
    the blocks of its nodes are lost. *)
Definition construct (free_pool : Z) (body : act unit) (m : memory) : res (outcome t * memory) :=
  '(o, m, this) ← body m (PooledList [] free_pool);
  match o : outcome unit with
  | Returns _ => Ok (Returns this, m)
  | Throws => Ok (Throws, m)
  end.

Definition make (free_pool : Z) : t := PooledList [] free_pool.
Definition make_n (free_pool : Z) (n : nat) (value : T) : memory -> res (outcome t * memory) :=
  construct free_pool (assign n value).
Definition make_range (values : list T) (free_pool : Z) : memory -> res (outcome t * memory) :=
  construct free_pool (fun m this => insert_range (begin this) values m this).
Definition copy (x : t) (m : memory) : res (outcome t * memory) :=
  l ← items m x.(active_list_);
  construct x.(p_pool_) (fun m this => insert_range (begin this) l.*2 m this) m.

Definition destroy (this : t) (m : memory) : res memory :=
  '(_, m, _) ← clear m this; Ok m.

(** The assignment; [operator=] has no [return] at its end. *)
Definition assign_body (x : t) : act unit := fun m this =>
  '(o, m) ← copy x m;
  match o : outcome t with
  | Throws => Ok (Throws, m, this)
  | Returns temp =>
      let '(this, temp) := swap this temp in
      m ← destroy temp m;
      Ok (Returns tt, m, this)
  end.

Definition operator_assign (x : t) : act unit :=
  _ ⇐ assign_body x; fun _ _ => Undef.

(** ** The comparisons, whose operands are passed by value *)

(** The order in which the operands are copied is the compiler's. *)
Definition on_copies (left_first : bool) (l r : t)
    (body : t -> t -> memory -> res (outcome bool * memory)) (m : memory) : res (outcome bool * memory) :=
  let '(x, y) := if left_first then (l, r) else (r, l) in
  '(o1, m) ← copy x m;
  match o1 : outcome t with
  | Throws => Ok (Throws, m)
  | Returns c1 =>
      '(o2, m) ← copy y m;
      match o2 : outcome t with
      | Throws => m ← destroy c1 m; Ok (Throws, m)
      | Returns c2 =>
          '(b, m) ← (if left_first then body c1 c2 m else body c2 c1 m);
          m ← destroy c2 m;
          m ← destroy c1 m;
          Ok (b, m)
      end
  end.

Fixpoint equal_loop (m : memory) (c1 c2 : list Z) : res bool :=
  match c1, c2 with
  | a :: c1, b :: c2 =>
      x ← object m a; y ← object m b;
      if eqb x y then equal_loop m c1 c2 else Ok false
  | [], [] => Ok true
  | _, _ => Ok false
  end.

(** [std::lexicographical_compare] *)
Fixpoint less_loop (m : memory) (c1 c2 : list Z) : res bool :=
  match c1, c2 with
  | _, [] => Ok false
  | [], _ :: _ => Ok true
  | a :: c1, b :: c2 =>
      x ← object m a; y ← object m b;
      if ltb x y then Ok true else if ltb y x then Ok false else less_loop m c1 c2
  end.

(** [!] of a result. *)
Definition negated (b : outcome bool) : outcome bool := negb <$> b.

Section comparisons.
Variable left_first : bool.

Definition equal (l r : t) : memory -> res (outcome bool * memory) :=
  on_copies left_first l r (fun l r m => b ← equal_loop m l.(active_list_) r.(active_list_); Ok (Returns b, m)).
Definition not_equal (l r : t) : memory -> res (outcome bool * memory) :=
  on_copies left_first l r (fun l r m => '(b, m) ← equal l r m; Ok (negated b, m)).
Definition less (l r : t) : memory -> res (outcome bool * memory) :=
  on_copies left_first l r (fun l r m => b ← less_loop m l.(active_list_) r.(active_list_); Ok (Returns b, m)).
Definition greater (l r : t) : memory -> res (outcome bool * memory) :=
  on_copies left_first l r (fun l r m => less r l m).
Definition less_equal (l r : t) : memory -> res (outcome bool * memory) :=
  on_copies left_first l r (fun l r m => '(b, m) ← greater l r m; Ok (negated b, m)).
Definition greater_equal (l r : t) : memory -> res (outcome bool * memory) :=
  on_copies left_first l r (fun l r m => '(b, m) ← less l r m; Ok (negated b, m)).

End comparisons.
End list.
End pooled_list.
