(* ===== verification/PooledListOps.v ===== *)
(** What the operations of util/pooled_list.hpp do to one list: which values it
    holds afterwards, which blocks of the pool are free, and when they throw.
    Nothing but the blocks of the list and the free blocks of its pool is
    touched. *)
From stdpp Require Import list gmap.
From S2P Require Import Prelude PooledList.

Import pooled_list.

(** * [std::list] *)

Lemma splice_before_at (l1 l2 nodes : list Z) :
  NoDup (l1 ++ l2) -> splice_before (head l2) nodes (l1 ++ l2) = Ok (l1 ++ nodes ++ l2).
Proof.
  induction l1 as [|a l1 IH]; intros Hnd; simpl.
  - destruct l2 as [|b l2]; simpl; [by rewrite app_nil_r|]. by rewrite bool_decide_eq_true_2.
  - apply NoDup_cons in Hnd as [Ha Hnd]. rewrite bool_decide_eq_false_2, IH; [done|done|].
    destruct l2 as [|b l2]; simpl; [done|]. intros [= ->]. set_solver.
Qed.

Lemma take_out_at (l1 l2 : list Z) a : NoDup (l1 ++ a :: l2) -> take_out a (l1 ++ a :: l2) = Ok (l1 ++ l2).
Proof.
  induction l1 as [|b l1 IH]; intros Hnd; simpl; [by rewrite Z.eqb_refl|].
  apply NoDup_cons in Hnd as [Hb Hnd]. destruct (Z.eqb_spec b a) as [->|_]; [set_solver|]. by rewrite IH.
Qed.

Lemma increment_at (l1 l2 : list Z) a : NoDup (l1 ++ a :: l2) -> increment (Some a) (l1 ++ a :: l2) = Ok (head l2).
Proof.
  induction l1 as [|b l1 IH]; intros Hnd; simpl; [by rewrite bool_decide_eq_true_2|].
  apply NoDup_cons in Hnd as [Hb Hnd]. rewrite bool_decide_eq_false_2, IH; [done|done|]. intros [= ->]. set_solver.
Qed.

Lemma decrement_at (l1 l2 : list Z) a : NoDup (l1 ++ a :: l2) -> decrement (head l2) (l1 ++ a :: l2) = Ok (Some a).
Proof.
  induction l1 as [|b l1 IH]; intros Hnd; simpl; [by rewrite bool_decide_eq_true_2|].
  apply NoDup_cons in Hnd as [Hb Hnd]. rewrite bool_decide_eq_false_2, IH; [done|done|].
  intros E. apply NoDup_app in Hnd as (_ & Hd & Hnd). apply NoDup_cons in Hnd as [Ha _].
  destruct l1 as [|c l1], l2 as [|d l2]; simpl in E; try discriminate; injection E as E; subst.
  - set_solver.
  - eapply Hd; [apply list_elem_of_here|set_solver].
Qed.

Lemma increment_end l : increment end_ l = Undef.
Proof. induction l as [|a l IH]; [done|exact IH]. Qed.

Lemma Forall_elem {A} (P Q : A -> Prop) l : Forall P l -> (forall x, x ∈ l -> P x -> Q x) -> Forall Q l.
Proof. rewrite !Forall_forall. auto. Qed.

(** ** Algorithms that look at the objects only *)
Section algorithms.
Context {A B : Type} (f : B -> A) (func : A -> A -> bool).
Let on (x y : B) : bool := func (f x) (f y).

Lemma insert_sorted_map x l : map f (insert_sorted on x l) = insert_sorted func (f x) (map f l).
Proof.
  induction l as [|y l IH]; [done|]. simpl. unfold on at 1. destruct (func (f y) (f x)); [|done]. simpl. by rewrite IH.
Qed.

Lemma std_sort_map l : map f (std_sort on l) = std_sort func (map f l).
Proof. induction l as [|x l IH]; [done|]. simpl. by rewrite insert_sorted_map, IH. Qed.

Lemma std_merge_map l1 l2 : map f (std_merge on l1 l2) = std_merge func (map f l1) (map f l2).
Proof.
  revert l2. induction l1 as [|x l1 IH1]; [done|]. intros l2. induction l2 as [|y l2 IH2]; [done|].
  simpl in *. unfold on at 1. destruct (func (f y) (f x)); simpl; [by rewrite IH2|]. by rewrite IH1.
Qed.

End algorithms.

Section algorithms.
Context {A : Type} (func : A -> A -> bool).

Lemma insert_sorted_perm x l : insert_sorted func x l ≡ₚ x :: l.
Proof. induction l as [|y l IH]; [done|]. simpl. destruct (func y x); [|done]. rewrite IH. constructor. Qed.

Lemma std_sort_perm l : std_sort func l ≡ₚ l.
Proof. induction l as [|x l IH]; [done|]. simpl. by rewrite insert_sorted_perm, IH. Qed.

Lemma std_merge_perm l1 l2 : std_merge func l1 l2 ≡ₚ l1 ++ l2.
Proof.
  revert l2. induction l1 as [|x l1 IH1]; [done|]. intros l2.
  induction l2 as [|y l2 IH2]; [by rewrite app_nil_r|]. simpl in *. destruct (func y x).
  - rewrite IH2. simpl. rewrite <- Permutation_middle. constructor.
  - by rewrite IH1.
Qed.

End algorithms.

(** * One list *)
Section list.
Context {T : Type}.
Abbreviation memory := (pooled_list.memory (T := T)).
Abbreviation cell := (Z * T)%type.

(** [cells] are the blocks of the list and their objects; [free] are the
    blocks of its pool that no list has. *)
Record own (n : Z) (m : memory) (this : t) (cells : list cell) (free : list Z) : Prop := {
  ow_active : this.(active_list_) = cells.*1;
  ow_objects : Forall (fun c : cell => m.(objects) !! c.1 = Some c.2) cells;
  ow_pool : m.(pools) !! this.(p_pool_) = Some (Pool free n);
  ow_free : Forall (fun a => m.(objects) !! a = None) free;
  ow_nodup : NoDup (free ++ cells.*1)
}.

(** Nothing outside the blocks [fp] and the pool [p] changed. *)
Record framed (p : Z) (fp : list Z) (m m' : memory) : Prop := {
  fr_pools q : q <> p -> m'.(pools) !! q = m.(pools) !! q;
  fr_objects a : a ∉ fp -> m'.(objects) !! a = m.(objects) !! a
}.

Lemma framed_refl p fp m : framed p fp m m.
Proof. by constructor. Qed.

Lemma framed_trans p fp fp' m1 m2 m3 :
  framed p fp m1 m2 -> framed p fp' m2 m3 -> fp' ≡ₚ fp -> framed p fp m1 m3.
Proof.
  intros [Hp1 Ho1] [Hp2 Ho2] E. constructor.
  - intros q Hq. by rewrite Hp2, Hp1.
  - intros a Ha. by rewrite Ho2, Ho1 by by rewrite ?E.
Qed.

(** The operation ends in a state with [Q]. *)
Definition does {A} (n : Z) (m : memory) (this : t) (cells : list cell) (free : list Z)
    (r : res (outcome A * memory * t)) (Q : outcome A -> list cell -> list Z -> Prop) : Prop :=
  exists o m' this' cells' free', r = Ok (o, m', this') /\ own n m' this' cells' free' /\
    this'.(p_pool_) = this.(p_pool_) /\ framed this.(p_pool_) (free ++ cells.*1) m m' /\
    free' ++ cells'.*1 ≡ₚ free ++ cells.*1 /\ Q o cells' free'.

Lemma does_here {A} n m this cells free (o : outcome A) (Q : _ -> _ -> _ -> Prop) :
  own n m this cells free -> Q o cells free -> does n m this cells free (Ok (o, m, this)) Q.
Proof. intros Ho HQ. exists o, m, this, cells, free. split_and!; try done; apply framed_refl. Qed.

Lemma does_mono {A} n m this cells free (r : res (outcome A * memory * t)) P Q :
  does n m this cells free r P -> (forall o c f, P o c f -> Q o c f) -> does n m this cells free r Q.
Proof. intros (o & m' & l' & c' & f' & ? & ? & ? & ? & ? & ?) HQ. exists o, m', l', c', f'. auto 10. Qed.

Lemma does_bind {A B} n m this cells free (x : act A) (k : A -> act B) P Q :
  does n m this cells free (x m this) P ->
  (forall a m' this' c f, own n m' this' c f -> P (Returns a) c f -> does n m' this' c f (k a m' this') Q) ->
  (forall c f, P Throws c f -> Q Throws c f) ->
  does n m this cells free (act_bind x k m this) Q.
Proof.
  intros (o & m1 & l1 & c1 & f1 & Hx & Ho & Hp & Hf & Hpe & HP) Hk Ht. unfold act_bind. rewrite Hx, bind_ok.
  destruct o as [a|].
  - destruct (Hk a m1 l1 c1 f1 Ho HP) as (o & m2 & l2 & c2 & f2 & Hx2 & Ho2 & Hp2 & Hf2 & Hpe2 & HQ).
    exists o, m2, l2, c2, f2. split; [done|]. split; [done|]. split; [congruence|]. split; [|split; [|done]].
    + eapply framed_trans; [exact Hf|by rewrite <- Hp|done].
    + by rewrite Hpe2.
  - exists Throws, m1, l1, c1, f1. auto 10.
Qed.

(** A continuation whose value is not used. *)
Lemma does_then {A B} n m this cells free (x : act A) (b : B) P :
  does n m this cells free (x m this) (fun o c f => P (const b <$> o) c f) ->
  does n m this cells free (act_bind x (fun _ => act_ret b) m this) P.
Proof.
  intros Hx. eapply does_bind; [exact Hx| |done]. intros a m' l' c f Ho HP. by apply does_here.
Qed.

Lemma own_nodup_active n m this cells free : own n m this cells free -> NoDup cells.*1.
Proof. intros []. by apply NoDup_app in ow_nodup0 as (_ & _ & ?). Qed.

Lemma own_begin n m this cells free : own n m this cells free -> begin this = head cells.*1.
Proof. intros []. unfold begin. by rewrite ow_active0. Qed.

Lemma own_length n m this cells free : own n m this cells free -> length this.(active_list_) = length cells.
Proof. intros []. by rewrite ow_active0, length_fmap. Qed.

(** ** Insertion *)

Lemma insert_does n m this c1 c2 free v :
  own n m this (c1 ++ c2) free ->
  does n m this (c1 ++ c2) free (insert (head c2.*1) v m this) (fun o c f =>
    match free with
    | [] => o = Throws /\ c = c1 ++ c2 /\ f = []
    | a :: free => o = Returns (Some a) /\ c = c1 ++ (a, v) :: c2 /\ f = free
    end).
Proof.
  intros Hown. pose proof (own_nodup_active _ _ _ _ _ Hown) as Hnd. pose proof Hown as [Ha Hob Hp Hfr Hall].
  unfold insert. rewrite Hp. cbn [of_option]. rewrite bind_ok. cbn [free_list_ size_].
  destruct free as [|a free]; [by apply does_here|].
  rewrite Ha, fmap_app in *. rewrite splice_before_at by done. rewrite bind_ok.
  change ([a] ++ c2.*1) with (a :: c2.*1).
  assert ((a ∉ c1.*1 ++ c2.*1) /\ NoDup (free ++ c1.*1 ++ c2.*1) /\ (a ∉ free)) as (Hna & Hnd2 & Hnf).
  { rewrite <- app_comm_cons in Hall. apply NoDup_cons in Hall as [H1 H2].
    rewrite not_elem_of_app in H1. by destruct H1. }
  assert (NoDup (c1.*1 ++ a :: c2.*1)) as Hnd3 by (rewrite <- Permutation_middle, NoDup_cons; set_solver).
  rewrite decrement_at by done. rewrite bind_ok.
  eexists (Returns (Some a)), _, _, (c1 ++ (a, v) :: c2), free. split; [reflexivity|].
  assert ((c1 ++ (a, v) :: c2).*1 = c1.*1 ++ a :: c2.*1) as E by by rewrite fmap_app.
  split; [|split; [done|split; [|split; [|done]]]].
  - constructor; simpl.
    + by rewrite E.
    + apply Forall_app in Hob as [Hob1 Hob2]. rewrite Forall_app, Forall_cons. rewrite lookup_insert_eq.
      assert (forall c : cell, c.1 ∈ c1.*1 ++ c2.*1 -> objects m !! c.1 = Some c.2 ->
        <[a:=v]> (objects m) !! c.1 = Some c.2) as Hkeep
        by (intros c Hc Hv; rewrite lookup_insert_ne by (intros ->; done); done).
      split; [|split; [done|]]; (eapply Forall_elem; [eassumption|]); intros c Hc; apply Hkeep;
        apply elem_of_app; [left|right]; by apply list_elem_of_fmap_2.
    + by rewrite lookup_insert_eq.
    + apply Forall_cons in Hfr as [_ Hfr]. eapply Forall_elem; [exact Hfr|]. intros b Hb Hv. simpl.
      by rewrite lookup_insert_ne by (intros ->; done).
    + rewrite E. rewrite <- Permutation_middle, <- Permutation_middle, NoDup_cons. split; [set_solver|done].
  - constructor; simpl; intros b Hb; [by rewrite lookup_insert_ne|]. rewrite lookup_insert_ne; [done|]. set_solver.
  - rewrite E, fmap_app. rewrite <- Permutation_middle, <- Permutation_middle. done.
Qed.

(** What a sequence of insertions leaves. *)
Definition inserted (c1 c2 : list cell) (free : list Z) (vs : list T)
    (o : outcome unit) (c : list cell) (f : list Z) : Prop :=
  exists new, c = c1 ++ new ++ c2 /\ new.*2 = take (length free) vs /\ f = drop (length vs) free /\
    o = if (length vs <=? length free)%nat then Returns tt else Throws.

Lemma insert_range_does vs : forall n m this c1 c2 free,
  own n m this (c1 ++ c2) free ->
  does n m this (c1 ++ c2) free (insert_range (head c2.*1) vs m this) (inserted c1 c2 free vs).
Proof.
  induction vs as [|v vs IH]; intros n m this c1 c2 free Hown; simpl.
  - apply does_here; [done|]. exists []. by rewrite take_nil.
  - eapply does_bind; [by apply insert_does| |].
    + intros i m' this' c f Ho HP. destruct free as [|a free]; [by destruct HP|].
      destruct HP as (_ & -> & ->). rewrite cons_middle, app_assoc in Ho |- *.
      eapply does_mono; [by apply IH|]. intros o c f (new & -> & Hn & -> & ->).
      exists ((a, v) :: new). split_and!; [by rewrite <- app_assoc| |done|done].
      change (v :: new.*2 = v :: take (length free) vs). by rewrite Hn.
    + intros c f HP. destruct free as [|a free]; [|by destruct HP]. destruct HP as (_ & -> & ->).
      exists []. by rewrite drop_nil.
Qed.

Lemma insert_n_range pos k (v : T) : insert_n pos k v = insert_range pos (replicate k v).
Proof. induction k as [|k IH]; [done|]. simpl. by rewrite IH. Qed.

(** ** Deletion *)

Lemma erase_does n m this c1 c2 free a v :
  own n m this (c1 ++ (a, v) :: c2) free ->
  does n m this (c1 ++ (a, v) :: c2) free (erase (Some a) m this) (fun o c f =>
    o = Returns (head c2.*1) /\ c = c1 ++ c2 /\ f = a :: free).
Proof.
  intros Hown. pose proof (own_nodup_active _ _ _ _ _ Hown) as Hnd. pose proof Hown as [Ha Hob Hp Hfr Hall].
  unfold erase. rewrite Hp. cbn [of_option]. rewrite bind_ok.
  assert ((c1 ++ (a, v) :: c2).*1 = c1.*1 ++ a :: c2.*1) as E by by rewrite fmap_app.
  rewrite Ha, E in *. rewrite increment_at by done. rewrite !bind_ok.
  apply Forall_app in Hob as [Hob1 Hob2]. apply Forall_cons in Hob2 as [Hv Hob2]. simpl in Hv.
  unfold object. rewrite Hv. cbn [of_option]. rewrite bind_ok, take_out_at by done. rewrite bind_ok.
  eexists (Returns (head c2.*1)), _, _, (c1 ++ c2), (a :: free). split; [reflexivity|].
  rewrite <- Permutation_middle in Hnd. apply NoDup_cons in Hnd as [Hna Hnd].
  rewrite <- !Permutation_middle in Hall. apply NoDup_cons in Hall as [Hna2 Hall].
  assert (forall c : cell, c.1 ∈ c1.*1 ++ c2.*1 -> objects m !! c.1 = Some c.2 ->
    delete a (objects m) !! c.1 = Some c.2) as Hkeep
    by (intros c Hc Hcv; rewrite lookup_delete_ne by (intros ->; done); done).
  split; [|split; [done|split; [|split; [|done]]]].
  - constructor; simpl.
    + by rewrite fmap_app.
    + rewrite Forall_app. split; (eapply Forall_elem; [eassumption|]); intros c Hc; apply Hkeep;
        apply elem_of_app; [left|right]; by apply list_elem_of_fmap_2.
    + by rewrite lookup_insert_eq.
    + constructor; [by rewrite lookup_delete_eq|]. eapply Forall_elem; [exact Hfr|]. intros b Hb Hbv. simpl.
      rewrite lookup_delete_ne; [done|]. intros ->. apply Hna2. apply elem_of_app. by left.
    + by rewrite fmap_app, NoDup_cons.
  - constructor; simpl; intros b Hb; [by rewrite lookup_insert_ne|]. rewrite lookup_delete_ne; [done|].
    intros ->. apply Hb. rewrite E, !elem_of_app, elem_of_cons. tauto.
  - rewrite E, fmap_app. by rewrite <- !Permutation_middle.
Qed.

Lemma erase_end n m this cells free : own n m this cells free -> erase (T := T) end_ m this = Undef.
Proof. intros []. unfold erase. rewrite ow_pool0. simpl. by rewrite increment_end. Qed.

Lemma erase_loop_does c2 : forall n fuel m this c1 c3 free,
  own n m this (c1 ++ c2 ++ c3) free -> (length c2 < fuel)%nat ->
  does n m this (c1 ++ c2 ++ c3) free (erase_loop fuel (head (c2 ++ c3).*1) (head c3.*1) m this)
    (fun o c f => o = Returns tt /\ c = c1 ++ c3 /\ f = rev c2.*1 ++ free).
Proof.
  induction c2 as [|[a v] c2 IH]; intros n fuel m this c1 c3 free Hown Hf; (destruct fuel as [|fuel]; [simpl in Hf; lia|]); cbn [erase_loop].
  - simpl. rewrite bool_decide_eq_true_2 by done. by apply does_here.
  - pose proof (own_nodup_active _ _ _ _ _ Hown) as Hnd. rewrite bool_decide_eq_false_2.
    + eapply does_bind; [by apply erase_does| |by intros c f (? & _)]. simpl.
      intros i m' this' c f Ho ([= ->] & -> & ->). eapply does_mono; [apply IH; [done|simpl in Hf; lia]|].
      intros o c f (-> & -> & ->). rewrite <- app_assoc. done.
    + destruct c3 as [|[b w] c3]; simpl; [done|]. intros [= ->].
      rewrite !fmap_app in Hnd. apply NoDup_app in Hnd as (_ & _ & Hnd). simpl in Hnd.
      apply NoDup_cons in Hnd as [Hnd _]. apply Hnd. set_solver.
Qed.

Lemma erase_range_does n m this c1 c2 c3 free :
  own n m this (c1 ++ c2 ++ c3) free ->
  does n m this (c1 ++ c2 ++ c3) free (erase_range (head (c2 ++ c3).*1) (head c3.*1) m this)
    (fun o c f => o = Returns tt /\ c = c1 ++ c3 /\ f = rev c2.*1 ++ free).
Proof.
  intros Hown. unfold erase_range. apply erase_loop_does; [done|].
  rewrite (own_length _ _ _ _ _ Hown), !length_app. lia.
Qed.

(** A range whose end is not behind its beginning. *)
Lemma erase_loop_past c2 : forall n fuel m this c1 b free,
  own n m this (c1 ++ c2) free -> (length c2 < fuel)%nat -> b ∉ c2.*1 ->
  erase_loop (T := T) fuel (head c2.*1) (Some b) m this = Undef.
Proof.
  induction c2 as [|[a v] c2 IH]; intros n fuel m this c1 b free Hown Hf Hb; (destruct fuel as [|fuel]; [simpl in Hf; lia|]); cbn [erase_loop].
  - rewrite bool_decide_eq_false_2 by done. unfold act_bind.
    change (head ([] : list cell).*1) with end_. by rewrite (erase_end _ _ _ _ _ Hown).
  - simpl in Hb, Hf. rewrite bool_decide_eq_false_2 by (intros [= ->]; set_solver). unfold act_bind.
    destruct (erase_does _ _ _ _ _ _ _ _ Hown) as (o & m' & l' & c' & f' & He & Ho & _ & _ & _ & -> & -> & ->).
    simpl. rewrite He, bind_ok. eapply IH; [exact Ho|lia|set_solver].
Qed.

Lemma clear_does n m this cells free :
  own n m this cells free ->
  does n m this cells free (clear m this) (fun o c f => o = Returns tt /\ c = [] /\ f = rev cells.*1 ++ free).
Proof.
  intros Hown. unfold clear. rewrite (own_begin _ _ _ _ _ Hown).
  pose proof (erase_range_does n m this [] cells [] free) as H. rewrite !app_nil_r in H. by apply H.
Qed.

Lemma assign_range_does n m this cells free vs :
  own n m this cells free ->
  does n m this cells free (assign_range vs m this) (inserted [] [] (rev cells.*1 ++ free) vs).
Proof.
  intros Hown. eapply does_bind; [by apply clear_does| |by intros c f (? & _)].
  intros [] m' this' c f Ho (_ & -> & ->). rewrite (own_begin _ _ _ _ _ Ho).
  by apply (insert_range_does vs n m' this' [] []).
Qed.

Lemma assign_does n m this cells free k v :
  own n m this cells free ->
  does n m this cells free (assign k v m this) (inserted [] [] (rev cells.*1 ++ free) (replicate k v)).
Proof.
  intros Hown. eapply does_bind; [by apply clear_does| |by intros c f (? & _)].
  intros [] m' this' c f Ho (_ & -> & ->). rewrite (own_begin _ _ _ _ _ Ho), insert_n_range.
  by apply (insert_range_does _ n m' this' [] []).
Qed.

(** ** Access *)

Lemma deref_at n m this c1 c2 free a v :
  own n m this (c1 ++ (a, v) :: c2) free -> deref (Some a) m this = Ok v.
Proof.
  intros []. unfold deref. simpl. rewrite bool_decide_eq_true_2.
  - apply Forall_app in ow_objects0 as [_ Ho]. apply Forall_cons in Ho as [Ho _]. simpl in Ho.
    unfold object. by rewrite Ho.
  - rewrite ow_active0, fmap_app. set_solver.
Qed.

Lemma front_ok n m this cells free : own n m this cells free -> front m this = of_option (head cells.*2).
Proof.
  intros Hown. unfold front. rewrite (own_begin _ _ _ _ _ Hown). destruct cells as [|[a v] cells]; [done|].
  simpl. by eapply (deref_at _ _ _ []).
Qed.

Lemma back_ok n m this cells free : own n m this cells free -> back m this = of_option (last cells.*2).
Proof.
  intros Hown. unfold back. pose proof (own_nodup_active _ _ _ _ _ Hown) as Hnd.
  destruct cells as [|[a v] cells _] using rev_ind; [by destruct Hown as [-> _ _ _ _]|].
  pose proof (deref_at _ _ _ cells [] _ _ _ Hown) as Hd. destruct Hown as [Ha _ _ _ _].
  rewrite Ha, fmap_app in *. rewrite (decrement_at cells.*1 [] a) by done. rewrite bind_ok, Hd.
  rewrite ?fmap_app. change ([(a, v)].*2) with [v]. by rewrite last_snoc.
Qed.

Lemma empty_ok n m this cells free : own n m this cells free -> empty this = bool_decide (cells = []).
Proof. intros []. unfold empty. rewrite ow_active0. by destruct cells. Qed.

Lemma pop_front_does n m this cells free :
  own n m this cells free ->
  does n m this cells free (pop_front m this) (fun o c f =>
    o = Returns tt /\ c = tail cells /\ f = match cells with [] => free | x :: _ => x.1 :: free end).
Proof.
  intros Hown. unfold pop_front. rewrite (empty_ok _ _ _ _ _ Hown), (own_begin _ _ _ _ _ Hown).
  destruct cells as [|[a v] cells]; simpl; [by apply does_here|].
  apply does_then. eapply does_mono; [by apply (erase_does _ _ _ [])|].
  by intros o c f (-> & -> & ->).
Qed.

Lemma pop_back_does n m this cells free :
  own n m this cells free ->
  does n m this cells free (pop_back m this) (fun o c f =>
    o = Returns tt /\ c = removelast cells /\ f = match last cells with None => free | Some x => x.1 :: free end).
Proof.
  intros Hown. unfold pop_back. rewrite (empty_ok _ _ _ _ _ Hown).
  pose proof (own_nodup_active _ _ _ _ _ Hown) as Hnd. pose proof (ow_active _ _ _ _ _ Hown) as Ha.
  destruct cells as [|[a v] cells _] using rev_ind; [by apply does_here|].
  rewrite bool_decide_eq_false_2 by (by destruct cells). simpl negb. cbv iota. rewrite Ha, fmap_app in *.
  rewrite (decrement_at cells.*1 [] a) by done. rewrite bind_ok. apply does_then.
  eapply does_mono; [by apply (erase_does _ _ _ cells [])|].
  intros o c f (-> & -> & ->). by rewrite removelast_last, last_snoc, app_nil_r.
Qed.

Lemma push_does n m this c1 c2 free v :
  own n m this (c1 ++ c2) free ->
  does n m this (c1 ++ c2) free ((act_bind (insert (head c2.*1) v) (fun _ => act_ret tt)) m this)
    (inserted c1 c2 free [v]).
Proof.
  intros Hown. apply does_then. eapply does_mono; [by apply insert_does|].
  intros o c f HP. destruct free as [|a free].
  - destruct HP as (-> & -> & ->). by exists [].
  - destruct HP as (-> & -> & ->). exists [(a, v)]. split_and!; try done. simpl. by rewrite take_nil.
Qed.

Lemma push_back_does n m this cells free v :
  own n m this cells free ->
  does n m this cells free (push_back v m this) (inserted cells [] free [v]).
Proof. intros Hown. pose proof (push_does n m this cells [] free v) as H. rewrite app_nil_r in H. by apply H. Qed.

Lemma push_front_does n m this cells free v :
  own n m this cells free ->
  does n m this cells free (push_front v m this) (inserted [] cells free [v]).
Proof.
  intros Hown. unfold push_front. rewrite (own_begin _ _ _ _ _ Hown). by apply (push_does n m this [] cells free v).
Qed.

(** ** The algorithms *)

Lemma lift_ok {A B} (g : memory -> t -> res A) (k : A -> act B) m this a :
  g m this = Ok a -> act_bind (lift g) k m this = k a m this.
Proof. unfold act_bind, lift. intros ->. done. Qed.

Lemma own_increment n m this c1 c2 free a v :
  own n m this (c1 ++ (a, v) :: c2) free ->
  increment (Some a) this.(active_list_) = Ok (head c2.*1).
Proof.
  intros Hown. pose proof (own_nodup_active _ _ _ _ _ Hown) as Hnd. destruct Hown as [-> _ _ _ _].
  rewrite fmap_app in *. by apply increment_at.
Qed.

Lemma remove_loop_does pred c2 : forall n fuel m this c1 free,
  own n m this (c1 ++ c2) free -> (length c2 < fuel)%nat ->
  does n m this (c1 ++ c2) free (remove_loop pred fuel (head c2.*1) m this) (fun o c f =>
    o = Returns tt /\ c = c1 ++ List.filter (fun x : cell => negb (pred x.2)) c2 /\
    f = rev (List.filter (fun x : cell => pred x.2) c2).*1 ++ free).
Proof.
  induction c2 as [|[a v] c2 IH]; intros n fuel m this c1 free Hown Hf; (destruct fuel as [|fuel]; [simpl in Hf; lia|]).
  - cbn [remove_loop]. rewrite bool_decide_eq_true_2 by done. by apply does_here.
  - cbn [remove_loop]. rewrite bool_decide_eq_false_2 by done. simpl in Hf.
    change (head ((a, v) :: c2).*1) with (Some a). rewrite (lift_ok _ _ _ _ v) by by eapply deref_at.
    cbn [List.filter snd]. destruct (pred v); cbn [negb].
    + eapply does_bind; [by apply erase_does| |by intros c f (? & _)].
      intros i m' this' c f Ho ([= ->] & -> & ->). eapply does_mono; [apply IH; [done|lia]|].
      intros o c f (-> & -> & ->). simpl. rewrite <- app_assoc. done.
    + erewrite lift_ok by by eapply own_increment. rewrite cons_middle, app_assoc in Hown |- *.
      eapply does_mono; [apply IH; [done|lia]|]. intros o c f (-> & -> & ->).
      split_and!; try done. by rewrite <- app_assoc.
Qed.

Lemma remove_if_does pred n m this cells free :
  own n m this cells free ->
  does n m this cells free (remove_if pred m this) (fun o c f =>
    o = Returns tt /\ c = List.filter (fun x : cell => negb (pred x.2)) cells /\
    f = rev (List.filter (fun x : cell => pred x.2) cells).*1 ++ free).
Proof.
  intros Hown. unfold remove_if. rewrite (own_begin _ _ _ _ _ Hown).
  apply (remove_loop_does pred cells n _ m this []); [done|]. rewrite (own_length _ _ _ _ _ Hown). lia.
Qed.

Lemma count_up_ok l k : forall len, (len <= k)%nat ->
  count_up l k len = (head (drop (k - len) l), (len + Nat.min (length l) (k - len))%nat).
Proof.
  induction l as [|a l IH]; intros len Hl; simpl; [rewrite drop_nil; f_equal; lia|].
  destruct (Nat.ltb_spec len k).
  - rewrite IH by lia. replace (k - len)%nat with (S (k - S len)) by lia. simpl. f_equal. lia.
  - replace (k - len)%nat with O by lia. f_equal. lia.
Qed.

(** The elements a shorter list loses, or those a longer one gets. *)
Lemma resize_does n m this cells free k x :
  own n m this cells free ->
  does n m this cells free (resize k x m this) (fun o c f =>
    if (k <=? length cells)%nat
    then o = Returns tt /\ c = take k cells /\ f = rev (drop k cells).*1 ++ free
    else inserted cells [] free (replicate (k - length cells) x) o c f).
Proof.
  intros Hown. unfold resize. rewrite count_up_ok by lia. rewrite Nat.sub_0_r, (own_length _ _ _ _ _ Hown).
  destruct (Nat.leb_spec k (length cells)) as [Hk|Hk].
  - replace (0 + Nat.min (length cells) k)%nat with k by lia. rewrite Nat.eqb_refl.
    rewrite (ow_active _ _ _ _ _ Hown), <- fmap_drop.
    pose proof (erase_range_does n m this (take k cells) (drop k cells) [] free) as H.
    rewrite !app_nil_r, take_drop in H. by apply H.
  - replace (_ =? k)%nat with false by (symmetry; apply Nat.eqb_neq; lia).
    replace (0 + Nat.min (length cells) k)%nat with (length cells) by lia. rewrite insert_n_range.
    pose proof (insert_range_does (replicate (k - length cells) x) n m this cells [] free) as H.
    rewrite app_nil_r in H. by apply H.
Qed.

(** Only the order of the nodes changes. *)
Lemma rearranged n m this cells free cells' :
  own n m this cells free -> cells' ≡ₚ cells ->
  does n m this cells free (Ok (Returns tt, m, with_active cells'.*1 this))
    (fun o c f => o = Returns tt /\ c = cells' /\ f = free).
Proof.
  intros [] Hp. eexists _, _, _, cells', free. split; [done|].
  assert (cells'.*1 ≡ₚ cells.*1) as Hp1 by by rewrite Hp.
  split; [|split; [done|split; [apply framed_refl|split; [by rewrite Hp1|done]]]].
  constructor; simpl; [done|by rewrite Hp|done|done|by rewrite Hp1].
Qed.

Lemma reverse_does n m this cells free :
  own n m this cells free ->
  does n m this cells free (reverse m this) (fun o c f => o = Returns tt /\ c = rev cells /\ f = free).
Proof.
  intros Hown. unfold reverse. rewrite (ow_active _ _ _ _ _ Hown).
  change (List.rev cells.*1) with (rev (map fst cells)). rewrite <- map_rev.
  apply rearranged; [done|]. symmetry. apply Permutation_rev.
Qed.

Lemma items_ok m cells :
  Forall (fun c : cell => m.(objects) !! c.1 = Some c.2) cells -> items m cells.*1 = Ok cells.
Proof.
  induction 1 as [|[a v] cells Hc _ IH]; [done|]. rewrite fmap_cons. cbn [items fst snd] in *. unfold object.
  rewrite Hc. cbn [of_option]. by rewrite bind_ok, IH, bind_ok.
Qed.

Lemma own_items n m this cells free : own n m this cells free -> items m this.(active_list_) = Ok cells.
Proof. intros []. rewrite ow_active0. by apply items_ok. Qed.

Lemma sort_does n m this cells free func :
  own n m this cells free ->
  does n m this cells free (sort func m this) (fun o c f =>
    o = Returns tt /\ c = std_sort (on_items func) cells /\ f = free).
Proof.
  intros Hown. unfold sort. rewrite (own_items _ _ _ _ _ Hown), bind_ok.
  apply rearranged; [done|]. apply std_sort_perm.
Qed.

(** What follows [x] when every element that [pred] relates to the one kept
    before it goes. *)
Fixpoint uniq {A} (pred : A -> A -> bool) (x : A) (l : list A) : list A :=
  match l with
  | [] => []
  | y :: l => if pred x y then uniq pred x l else y :: uniq pred y l
  end.

Fixpoint repeated {A} (pred : A -> A -> bool) (x : A) (l : list A) : list A :=
  match l with
  | [] => []
  | y :: l => if pred x y then y :: repeated pred x l else repeated pred y l
  end.

Lemma unique_loop_does pred c2 : forall n fuel m this c1 a x free,
  own n m this (c1 ++ (a, x) :: c2) free -> (length c2 < fuel)%nat ->
  does n m this (c1 ++ (a, x) :: c2) free (unique_loop pred fuel (Some a) (head c2.*1) m this) (fun o c f =>
    o = Returns tt /\ c = c1 ++ (a, x) :: uniq (on_items pred) (a, x) c2 /\
    f = rev (repeated (on_items pred) (a, x) c2).*1 ++ free).
Proof.
  induction c2 as [|[b y] c2 IH]; intros n fuel m this c1 a x free Hown Hf; (destruct fuel as [|fuel]; [simpl in Hf; lia|]).
  - cbn [unique_loop]. rewrite bool_decide_eq_true_2 by done. by apply does_here.
  - cbn [unique_loop]. rewrite bool_decide_eq_false_2 by done. simpl in Hf.
    change (head ((b, y) :: c2).*1) with (Some b). rewrite (lift_ok _ _ _ _ x) by by eapply deref_at.
    pose proof Hown as Hown2. rewrite cons_middle, app_assoc in Hown2. rewrite (lift_ok _ _ _ _ y) by by eapply deref_at.
    cbn [uniq repeated]. change (on_items pred (a, x) (b, y)) with (pred x y). destruct (pred x y).
    + rewrite cons_middle, app_assoc. eapply does_bind; [by apply erase_does| |by intros c f (? & _)].
      intros i m' this' c f Ho ([= ->] & -> & ->). rewrite <- app_assoc in Ho |- *.
      eapply does_mono; [apply IH; [done|lia]|]. intros o c f (-> & -> & ->). simpl. by rewrite <- app_assoc.
    + erewrite lift_ok by by eapply own_increment. rewrite cons_middle, app_assoc.
      eapply does_mono; [apply IH; [done|lia]|]. intros o c f (-> & -> & ->). by rewrite <- app_assoc.
Qed.

Definition unique_of {A} (pred : A -> A -> bool) (l : list A) : list A :=
  match l with [] => [] | x :: l => x :: uniq pred x l end.

Lemma unique_does n m this cells free pred :
  own n m this cells free ->
  does n m this cells free (unique pred m this) (fun o c f =>
    o = Returns tt /\ c = unique_of (on_items pred) cells /\
    f = rev (match cells with [] => [] | x :: l => repeated (on_items pred) x l end).*1 ++ free).
Proof.
  intros Hown. unfold unique. rewrite (own_begin _ _ _ _ _ Hown), (own_length _ _ _ _ _ Hown).
  destruct cells as [|[a x] cells]; [by apply does_here|]. rewrite bool_decide_eq_false_2 by done.
  change (head ((a, x) :: cells).*1) with (Some a). rewrite (own_increment n m this [] cells free a x) by done.
  rewrite bind_ok. apply (unique_loop_does pred cells n _ m this []); [done|]. simpl. lia.
Qed.

(** On the values only. *)
Lemma uniq_values pred (x : cell) l : (uniq (on_items pred) x l).*2 = uniq pred x.2 l.*2.
Proof.
  revert x. induction l as [|y l IH]; intros x; [done|]. simpl. unfold on_items at 1. destruct (pred x.2 y.2); [done|].
  change (y.2 :: (uniq (on_items pred) y l).*2 = y.2 :: uniq pred y.2 l.*2). by rewrite IH.
Qed.

Lemma unique_of_values pred (l : list cell) : (unique_of (on_items pred) l).*2 = unique_of pred l.*2.
Proof. destruct l as [|x l]; [done|]. simpl. by rewrite <- uniq_values. Qed.

Lemma filter_values pred (l : list cell) :
  (List.filter (fun x : cell => pred x.2) l).*2 = List.filter pred l.*2.
Proof.
  induction l as [|x l IH]; [done|]. simpl. destruct (pred x.2); [|done]. simpl. by f_equal.
Qed.

Lemma sort_values func (l : list cell) : (std_sort (on_items func) l).*2 = std_sort func l.*2.
Proof. exact (std_sort_map snd func l). Qed.

Lemma merge_values func (l1 l2 : list cell) :
  (std_merge (on_items func) l1 l2).*2 = std_merge func l1.*2 l2.*2.
Proof. exact (std_merge_map snd func l1 l2). Qed.

End list.
