(* ===== verification/PooledListSpec.v ===== *)
(** What util/pooled_list.hpp promises: a program that works on pooled lists
    works on sequences of values, as with [std::list], and every pool has room
    for a number of elements.  A call throws when the room is used up; a
    constructor that throws takes the room of its pool with it. *)
From stdpp Require Import list gmap.
From S2P Require Import Prelude PooledList PooledListOps.

Import pooled_list.

(** * Programs *)
Section program.
Context {T : Type}.

(** What a program does; lists have names, a place in a list is a number. *)
Inductive command :=
  | Make (i : nat) (p : Z)
  | MakeN (i : nat) (p : Z) (n : nat) (x : T)
  | MakeRange (i : nat) (p : Z) (l : list T)
  | Copy (i j : nat)
  | Destroy (i : nat)
  | Insert (i k : nat) (x : T)
  | InsertN (i k n : nat) (x : T)
  | InsertRange (i k : nat) (l : list T)
  | Erase (i k : nat)
  | EraseRange (i k1 k2 : nat)
  | Clear (i : nat)
  | Assign (i n : nat) (x : T)
  | AssignRange (i : nat) (l : list T)
  | PushBack (i : nat) (x : T)
  | PushFront (i : nat) (x : T)
  | PopBack (i : nat)
  | PopFront (i : nat)
  | RemoveIf (i : nat) (pred : T -> bool)
  | Remove (i : nat) (x : T)
  | Resize (i n : nat) (x : T)
  | Reverse (i : nat)
  | Sort (i : nat) (func : T -> T -> bool)
  | Unique (i : nat) (pred : T -> T -> bool)
  | Merge (i j : nat) (func : T -> T -> bool)
  | Splice (i k j : nat)
  | Swap (i j : nat)
  | OperatorAssign (i j : nat)
  | Front (i : nat)
  | Back (i : nat)
  | Empty (i : nat)
  | Remaining (p : Z)
  | Equal (i j : nat)
  | NotEqual (i j : nat)
  | Less (i j : nat)
  | Greater (i j : nat)
  | LessEqual (i j : nat)
  | GreaterEqual (i j : nat).

(** What it sees. *)
Inductive answer := Done | At (k : nat) | Value (x : T) | Flag (b : bool) | Number (z : Z) | Thrown.

End program.
Arguments command : clear implicits.
Arguments answer : clear implicits.

(** * The promise *)
Section spec.
Context {T : Type} (eqb ltb : T -> T -> bool) (left_first : bool).

(** Every list with its pool and its values, every pool with its room. *)
Record spec := Spec { values : gmap nat (Z * list T); room : gmap Z nat }.

Definition put (v1 v2 new : list T) (r : nat) : answer T * list T * nat :=
  (if (length new <=? r)%nat then Done else Thrown, v1 ++ take r new ++ v2, (r - length new)%nat).

Definition cut (k : nat) (v : list T) : res (list T * list T) :=
  if (k <=? length v)%nat then Ok (take k v, drop k v) else Undef.

Definition spec_on (i : nat) (f : list T -> nat -> res (answer T * list T * nat)) (a : spec) : res (answer T * spec) :=
  '(p, v) ← of_option (a.(values) !! i);
  r ← of_option (a.(room) !! p);
  '(x, v, r) ← f v r;
  Ok (x, Spec (<[i := (p, v)]> a.(values)) (<[p := r]> a.(room))).

Definition spec_new (i : nat) (p : Z) (new : list T) (a : spec) : res (answer T * spec) :=
  match a.(values) !! i with
  | Some _ => Undef
  | None =>
      r ← of_option (a.(room) !! p);
      if (length new <=? r)%nat
      then Ok (Done, Spec (<[i := (p, new)]> a.(values)) (<[p := (r - length new)%nat]> a.(room)))
      else Ok (Thrown, Spec a.(values) (<[p := 0%nat]> a.(room)))
  end.

Definition spec_two (i j : nat) (f : Z * list T -> Z * list T -> res (Z * list T * (Z * list T))) (a : spec)
    : res (answer T * spec) :=
  if (i =? j)%nat then Undef
  else
    x ← of_option (a.(values) !! i);
    y ← of_option (a.(values) !! j);
    '(x, y) ← f x y;
    Ok (Done, Spec (<[j := y]> (<[i := x]> a.(values))) a.(room)).

(** A copy that lives for the time of a call. *)
Definition spec_temp (x : Z * list T) (f : gmap Z nat -> res (outcome bool * gmap Z nat)) (room : gmap Z nat)
    : res (outcome bool * gmap Z nat) :=
  r ← of_option (room !! x.1);
  if (length x.2 <=? r)%nat then
    '(o, room) ← f (<[x.1 := (r - length x.2)%nat]> room);
    r ← of_option (room !! x.1);
    Ok (o, <[x.1 := (r + length x.2)%nat]> room)
  else Ok (Throws, <[x.1 := 0%nat]> room).

(** A comparison of two lists, and what is left of the rooms. *)
Definition comparison : Type := Z * list T -> Z * list T -> gmap Z nat -> res (outcome bool * gmap Z nat).

Definition spec_both (c : comparison) : comparison := fun x y =>
  if left_first then spec_temp x (spec_temp y (c x y)) else spec_temp y (spec_temp x (c x y)).

Definition spec_values (f : list T -> list T -> bool) : comparison := fun x y room =>
  Ok (Returns (f x.2 y.2), room).
Definition spec_not (c : comparison) : comparison := fun x y room =>
  '(o, room) ← c x y room; Ok (negated o, room).
Definition spec_swapped (c : comparison) : comparison := fun x y => c y x.

Fixpoint equal_values (v1 v2 : list T) : bool :=
  match v1, v2 with
  | [], [] => true
  | x :: v1, y :: v2 => eqb x y && equal_values v1 v2
  | _, _ => false
  end.

Fixpoint less_values (v1 v2 : list T) : bool :=
  match v1, v2 with
  | _, [] => false
  | [], _ :: _ => true
  | x :: v1, y :: v2 => ltb x y || negb (ltb y x) && less_values v1 v2
  end.

Definition spec_equal : comparison := spec_both (spec_values equal_values).
Definition spec_less : comparison := spec_both (spec_values less_values).
Definition spec_greater : comparison := spec_both (spec_swapped spec_less).

Definition answer_of (o : outcome bool) : answer T :=
  match o with Returns b => Flag b | Throws => Thrown end.

Definition spec_compare (i j : nat) (c : comparison) (a : spec) : res (answer T * spec) :=
  x ← of_option (a.(values) !! i);
  y ← of_option (a.(values) !! j);
  '(o, room) ← c x y a.(room);
  Ok (answer_of o, Spec a.(values) room).

Definition spec_step (c : command T) (a : spec) : res (answer T * spec) :=
  match c with
  | Make i p => spec_new i p [] a
  | MakeN i p n x => spec_new i p (replicate n x) a
  | MakeRange i p l => spec_new i p l a
  | Copy i j => '(p, v) ← of_option (a.(values) !! j); spec_new i p v a
  | Destroy i =>
      '(p, v) ← of_option (a.(values) !! i);
      r ← of_option (a.(room) !! p);
      Ok (Done, Spec (delete i a.(values)) (<[p := (r + length v)%nat]> a.(room)))
  | Insert i k x => spec_on i (fun v r =>
      '(v1, v2) ← cut k v;
      Ok (match r with O => (Thrown, v, r) | S r => (At k, v1 ++ x :: v2, r) end)) a
  | InsertN i k n x => spec_on i (fun v r => '(v1, v2) ← cut k v; Ok (put v1 v2 (replicate n x) r)) a
  | InsertRange i k l => spec_on i (fun v r => '(v1, v2) ← cut k v; Ok (put v1 v2 l r)) a
  | Erase i k => spec_on i (fun v r =>
      '(v1, v2) ← cut k v;
      match v2 with [] => Undef | _ :: v2 => Ok (At k, v1 ++ v2, S r) end) a
  | EraseRange i k1 k2 => spec_on i (fun v r =>
      if (k1 <=? k2)%nat && (k2 <=? length v)%nat
      then Ok (Done, take k1 v ++ drop k2 v, (r + (k2 - k1))%nat) else Undef) a
  | Clear i => spec_on i (fun v r => Ok (Done, [], (r + length v)%nat)) a
  | Assign i n x => spec_on i (fun v r => Ok (put [] [] (replicate n x) (r + length v))) a
  | AssignRange i l => spec_on i (fun v r => Ok (put [] [] l (r + length v))) a
  | PushBack i x => spec_on i (fun v r => Ok (put v [] [x] r)) a
  | PushFront i x => spec_on i (fun v r => Ok (put [] v [x] r)) a
  | PopBack i => spec_on i (fun v r => Ok (Done, removelast v, (r + Nat.min 1 (length v))%nat)) a
  | PopFront i => spec_on i (fun v r => Ok (Done, tail v, (r + Nat.min 1 (length v))%nat)) a
  | RemoveIf i pred => spec_on i (fun v r =>
      Ok (Done, List.filter (fun x => negb (pred x)) v, (r + length (List.filter pred v))%nat)) a
  | Remove i x => spec_on i (fun v r =>
      Ok (Done, List.filter (fun y => negb (eqb x y)) v, (r + length (List.filter (eqb x) v))%nat)) a
  | Resize i n x => spec_on i (fun v r =>
      Ok (if (n <=? length v)%nat then (Done, take n v, (r + (length v - n))%nat)
          else put v [] (replicate (n - length v) x) r)) a
  | Reverse i => spec_on i (fun v r => Ok (Done, rev v, r)) a
  | Sort i func => spec_on i (fun v r => Ok (Done, std_sort func v, r)) a
  | Unique i pred => spec_on i (fun v r =>
      Ok (Done, unique_of pred v, (r + (length v - length (unique_of pred v)))%nat)) a
  | Merge i j func => spec_two i j (fun x y =>
      _ ← CHECK_CONDITION (x.1 =? y.1); Ok ((x.1, std_merge func x.2 y.2), (y.1, []))) a
  | Splice i k j => spec_two i j (fun x y =>
      '(v1, v2) ← cut k x.2; _ ← CHECK_CONDITION (x.1 =? y.1); Ok ((x.1, v1 ++ y.2 ++ v2), (y.1, []))) a
  | Swap i j => spec_two i j (fun x y => Ok (y, x)) a
  | OperatorAssign i j =>
      _ ← of_option (a.(values) !! i);
      '(p, v) ← of_option (a.(values) !! j);
      r ← of_option (a.(room) !! p);
      if (length v <=? r)%nat then Undef else Ok (Thrown, Spec a.(values) (<[p := 0%nat]> a.(room)))
  | Front i => spec_on i (fun v r => x ← of_option (head v); Ok (Value x, v, r)) a
  | Back i => spec_on i (fun v r => x ← of_option (last v); Ok (Value x, v, r)) a
  | Empty i => spec_on i (fun v r => Ok (Flag (bool_decide (v = [])), v, r)) a
  | Remaining p => r ← of_option (a.(room) !! p); Ok (Number (Z.of_nat r), a)
  | Equal i j => spec_compare i j spec_equal a
  | NotEqual i j => spec_compare i j (spec_both (spec_not spec_equal)) a
  | Less i j => spec_compare i j spec_less a
  | Greater i j => spec_compare i j spec_greater a
  | LessEqual i j => spec_compare i j (spec_both (spec_not spec_greater)) a
  | GreaterEqual i j => spec_compare i j (spec_both (spec_not spec_less)) a
  end.

End spec.
