(* ===== verification/PooledListRefines.v ===== *)
(** Programs that use util/pooled_list.hpp do what PooledListSpec promises,
    and no block of a pool is lost but by a constructor that throws. *)
From stdpp Require Import list gmap.
From S2P Require Import Prelude PooledList PooledListOps PooledListSpec.

Import pooled_list.

(** * Running a program *)
Section run.
Context {T : Type} (eqb ltb : T -> T -> bool) (left_first : bool).
Abbreviation memory := (pooled_list.memory (T := T)).
Abbreviation answer := (PooledListSpec.answer T).

Record system := System { mem : memory; lists : gmap nat t }.

Definition run_on (i : nat) (f : memory -> t -> res (answer * memory * t)) (s : system) : res (answer * system) :=
  this ← of_option (s.(lists) !! i);
  '(x, m, this) ← f s.(mem) this;
  Ok (x, System m (<[i := this]> s.(lists))).

Definition done_or (o : outcome unit) : answer := match o with Returns _ => Done | Throws => Thrown end.

Definition acts (a : act (T := T) unit) : memory -> t -> res (answer * memory * t) := fun m this =>
  '(o, m, this) ← a m this; Ok (done_or o, m, this).

(** The place of an iterator, and the iterator of a place. *)
Fixpoint position (pos : iterator) (l : list Z) : nat :=
  match l with
  | [] => 0
  | a :: l => if bool_decide (pos = Some a) then 0 else S (position pos l)
  end.

Definition place (k : nat) (this : t) : res iterator :=
  if (k <=? length this.(active_list_))%nat then Ok (head (drop k this.(active_list_))) else Undef.

Definition finds (a : act (T := T) iterator) : memory -> t -> res (answer * memory * t) := fun m this =>
  '(o, m, this) ← a m this;
  Ok (match (o : outcome iterator) with Returns i => At (position i this.(active_list_)) | Throws => Thrown end, m, this).

Definition reads (f : memory -> t -> res answer) : memory -> t -> res (answer * memory * t) := fun m this =>
  x ← f m this; Ok (x, m, this).

(** The pool of a new list is one that exists. *)
Definition run_new (i : nat) (p : Z) (f : memory -> res (outcome t * memory)) (s : system) : res (answer * system) :=
  match s.(lists) !! i with
  | Some _ => Undef
  | None =>
      _ ← of_option (s.(mem).(pools) !! p);
      '(o, m) ← f s.(mem);
      match o : outcome t with
      | Returns this => Ok (Done, System m (<[i := this]> s.(lists)))
      | Throws => Ok (Thrown, System m s.(lists))
      end
  end.

(** Two different lists. *)
Definition run_two (i j : nat) (f : t -> t -> memory -> res (t * t * memory)) (s : system) : res (answer * system) :=
  if (i =? j)%nat then Undef
  else
    x ← of_option (s.(lists) !! i);
    y ← of_option (s.(lists) !! j);
    '(x, y, m) ← f x y s.(mem);
    Ok (Done, System m (<[j := y]> (<[i := x]> s.(lists)))).

Definition takes (a : t -> act (T := T) t) : t -> t -> memory -> res (t * t * memory) := fun x y m =>
  '(o, m, x) ← a y m x;
  match (o : outcome t) with Returns y => Ok (x, y, m) | Throws => Undef end.

Definition run_compare (i j : nat) (f : t -> t -> memory -> res (outcome bool * memory)) (s : system)
    : res (answer * system) :=
  l ← of_option (s.(lists) !! i);
  r ← of_option (s.(lists) !! j);
  '(o, m) ← f l r s.(mem);
  Ok (answer_of o, System m s.(lists)).

Definition run_step (c : command T) (s : system) : res (answer * system) :=
  match c with
  | Make i p => run_new i p (fun m => Ok (Returns (make p), m)) s
  | MakeN i p n x => run_new i p (make_n p n x) s
  | MakeRange i p l => run_new i p (make_range l p) s
  | Copy i j => x ← of_option (s.(lists) !! j); run_new i x.(p_pool_) (copy x) s
  | Destroy i =>
      this ← of_option (s.(lists) !! i); m ← destroy this s.(mem); Ok (Done, System m (delete i s.(lists)))
  | Insert i k x => run_on i (fun m this => pos ← place k this; finds (insert pos x) m this) s
  | InsertN i k n x => run_on i (fun m this => pos ← place k this; acts (insert_n pos n x) m this) s
  | InsertRange i k l => run_on i (fun m this => pos ← place k this; acts (insert_range pos l) m this) s
  | Erase i k => run_on i (fun m this => pos ← place k this; finds (erase pos) m this) s
  | EraseRange i k1 k2 => run_on i (fun m this =>
      first ← place k1 this; last ← place k2 this; acts (erase_range first last) m this) s
  | Clear i => run_on i (acts clear) s
  | Assign i n x => run_on i (acts (assign n x)) s
  | AssignRange i l => run_on i (acts (assign_range l)) s
  | PushBack i x => run_on i (acts (push_back x)) s
  | PushFront i x => run_on i (acts (push_front x)) s
  | PopBack i => run_on i (acts pop_back) s
  | PopFront i => run_on i (acts pop_front) s
  | RemoveIf i pred => run_on i (acts (remove_if pred)) s
  | Remove i x => run_on i (acts (remove eqb x)) s
  | Resize i n x => run_on i (acts (resize n x)) s
  | Reverse i => run_on i (acts reverse) s
  | Sort i func => run_on i (acts (sort func)) s
  | Unique i pred => run_on i (acts (unique pred)) s
  | Merge i j func => run_two i j (takes (fun y => merge y func)) s
  | Splice i k j => run_two i j (fun x y m => pos ← place k x; takes (splice pos) x y m) s
  | Swap i j => run_two i j (fun x y m => Ok (swap x y, m)) s
  | OperatorAssign i j =>
      this ← of_option (s.(lists) !! i);
      x ← of_option (s.(lists) !! j);
      '(o, m, this) ← operator_assign x s.(mem) this;
      Ok (done_or o, System m (<[i := this]> s.(lists)))
  | Front i => run_on i (reads (fun m this => Value <$> front m this)) s
  | Back i => run_on i (reads (fun m this => Value <$> back m this)) s
  | Empty i => run_on i (reads (fun _ this => Ok (Flag (empty this)))) s
  | Remaining p => q ← of_option (s.(mem).(pools) !! p); Ok (Number (elements_remaining q), s)
  | Equal i j => run_compare i j (equal eqb left_first) s
  | NotEqual i j => run_compare i j (not_equal eqb left_first) s
  | Less i j => run_compare i j (less ltb left_first) s
  | Greater i j => run_compare i j (greater ltb left_first) s
  | LessEqual i j => run_compare i j (less_equal ltb left_first) s
  | GreaterEqual i j => run_compare i j (greater_equal ltb left_first) s
  end.

End run.

(** * What holds between two calls *)

(** The blocks that the lists of pool [p] hold. *)
Definition held_by (p : Z) (ls : gmap nat t) : list Z :=
  map_to_list ls ≫= fun x => if x.2.(p_pool_) =? p then x.2.(active_list_) else [].

Definition held_of (p : Z) (l : t) : list Z := if l.(p_pool_) =? p then l.(active_list_) else [].

Lemma held_by_delete p ls i l : ls !! i = Some l -> held_by p ls ≡ₚ held_of p l ++ held_by p (delete i ls).
Proof. intros Hl. unfold held_by. by rewrite <- (map_to_list_delete _ _ _ Hl). Qed.

Lemma held_by_insert p ls i l : held_by p (<[i := l]> ls) ≡ₚ held_of p l ++ held_by p (delete i ls).
Proof.
  rewrite (held_by_delete p _ i l) by apply lookup_insert_eq. by rewrite delete_insert_eq.
Qed.

Section system.
Context {T : Type}.
Abbreviation memory := (pooled_list.memory (T := T)).
Abbreviation system := (system (T := T)).
Abbreviation cell := (Z * T)%type.

(** [all] are the blocks that the pools were made with; [lost] are those of
    constructors that threw. *)
Record sys_ok (all : Z -> list Z) (s : system) (lost : Z -> list Z) : Prop := {
  so_pool p q : s.(mem).(pools) !! p = Some q ->
    q.(free_list_) ++ held_by p s.(lists) ++ lost p ≡ₚ all p /\ q.(size_) = Z.of_nat (length (all p));
  so_list i l : s.(lists) !! i = Some l -> is_Some (s.(mem).(pools) !! l.(p_pool_));
  so_objects i l : s.(lists) !! i = Some l -> Forall (fun a => is_Some (s.(mem).(objects) !! a)) l.(active_list_);
  so_free p q : s.(mem).(pools) !! p = Some q -> Forall (fun a => s.(mem).(objects) !! a = None) q.(free_list_);
  so_nodup p : NoDup (all p);
  so_apart p p' a : a ∈ all p -> a ∈ all p' -> p = p'
}.

(** What the lists hold and the pools have room for. *)
Definition list_values (m : memory) (l : t) : list T := omap (fun a => m.(objects) !! a) l.(active_list_).

Definition abs (s : system) : spec (T := T) :=
  Spec ((fun l => (l.(p_pool_), list_values s.(mem) l)) <$> s.(lists))
    ((fun q => length q.(free_list_)) <$> s.(mem).(pools)).

Lemma cells_of (m : memory) (l : list Z) :
  Forall (fun a => is_Some (m.(objects) !! a)) l ->
  exists cells : list cell, cells.*1 = l /\ Forall (fun c => m.(objects) !! c.1 = Some c.2) cells.
Proof.
  induction 1 as [|a l [v Hv] _ (cells & <- & Hc)]; [by exists []|]. exists ((a, v) :: cells). split; [done|]. by constructor.
Qed.

Lemma own_values n m l (cells : list cell) free : own n m l cells free -> list_values m l = cells.*2.
Proof.
  intros [Ha Ho _ _ _]. unfold list_values. rewrite Ha. clear Ha.
  induction Ho as [|[a v] cells Hc _ IH]; [done|]. simpl in *. rewrite Hc. by f_equal.
Qed.

Section facts.
Variables (all lost : Z -> list Z) (s : system).
Hypothesis Hs : sys_ok all s lost.

Lemma sys_pool_nodup p q : s.(mem).(pools) !! p = Some q -> NoDup (q.(free_list_) ++ held_by p s.(lists) ++ lost p).
Proof. intros Hq. destruct (so_pool _ _ _ Hs _ _ Hq) as [-> _]. apply (so_nodup _ _ _ Hs). Qed.

Lemma sys_own i l : s.(lists) !! i = Some l ->
  exists cells free, own (Z.of_nat (length (all l.(p_pool_)))) s.(mem) l cells free.
Proof.
  intros Hl. destruct (so_list _ _ _ Hs _ _ Hl) as [q Hq]. destruct (cells_of _ _ (so_objects _ _ _ Hs _ _ Hl)) as (cells & Hc & Ho).
  destruct (so_pool _ _ _ Hs _ _ Hq) as [_ Hsz].
  exists cells, q.(free_list_). constructor; [done|done| |exact (so_free _ _ _ Hs _ _ Hq)|].
  - rewrite Hq. destruct q as [f n]. simpl in *. by rewrite Hsz.
  - pose proof (sys_pool_nodup _ _ Hq) as Hn. rewrite (held_by_delete l.(p_pool_) _ _ _ Hl) in Hn. unfold held_of in Hn.
    rewrite Z.eqb_refl, <- Hc in Hn. rewrite <- app_assoc, app_assoc in Hn. by apply NoDup_app in Hn as [Hn _].
Qed.

Lemma list_block i l a : s.(lists) !! i = Some l -> a ∈ l.(active_list_) -> a ∈ all l.(p_pool_).
Proof.
  intros Hl Ha. destruct (so_list _ _ _ Hs _ _ Hl) as [q Hq]. destruct (so_pool _ _ _ Hs _ _ Hq) as [<- _].
  rewrite (held_by_delete l.(p_pool_) _ _ _ Hl). unfold held_of. rewrite Z.eqb_refl. set_solver.
Qed.

Lemma free_block p q a : s.(mem).(pools) !! p = Some q -> a ∈ q.(free_list_) -> a ∈ all p.
Proof. intros Hq Ha. destruct (so_pool _ _ _ Hs _ _ Hq) as [<- _]. set_solver. Qed.

(** The blocks of a list and the free ones of its pool are nobody else's. *)
Lemma other_list i l cells free n j l' a :
  s.(lists) !! i = Some l -> own n s.(mem) l cells free -> i <> j -> s.(lists) !! j = Some l' ->
  a ∈ l'.(active_list_) -> a ∉ free ++ cells.*1.
Proof.
  intros Hi [Ha _ Hp _ _] Hne Hj Hin Hin2.
  assert (a ∈ all l.(p_pool_)) as H1'.
  { apply elem_of_app in Hin2 as [Hf|Hc]; [exact (free_block _ _ _ Hp Hf)|]. rewrite <- Ha in Hc. by eapply list_block. }
  pose proof (list_block _ _ _ Hj Hin) as H2'. pose proof (so_apart _ _ _ Hs _ _ _ H1' H2') as E.
  pose proof (sys_pool_nodup _ _ Hp) as Hn. simpl in Hn.
  assert (delete i s.(lists) !! j = Some l') as Hj' by by rewrite lookup_delete_ne.
  rewrite (held_by_delete l.(p_pool_) _ _ _ Hi), (held_by_delete l.(p_pool_) _ _ _ Hj') in Hn. unfold held_of in Hn.
  rewrite <- E, !Z.eqb_refl, Ha in Hn. rewrite <- !app_assoc, app_assoc in Hn.
  apply NoDup_app in Hn as (_ & Hd & _). apply (Hd a Hin2). set_solver.
Qed.

Lemma other_pool i l cells free n p q a :
  s.(lists) !! i = Some l -> own n s.(mem) l cells free -> p <> l.(p_pool_) -> s.(mem).(pools) !! p = Some q ->
  a ∈ q.(free_list_) -> a ∉ free ++ cells.*1.
Proof.
  intros Hi [Ha _ Hp _ _] Hne Hq Hin Hin2. apply Hne.
  apply (so_apart _ _ _ Hs _ _ a); [by eapply free_block|].
  apply elem_of_app in Hin2 as [Hf|Hc]; [exact (free_block _ _ _ Hp Hf)|]. rewrite <- Ha in Hc. by eapply list_block.
Qed.

End facts.

Lemma omap_cons {A B} (f : A -> option B) x l :
  omap f (x :: l) = match f x with Some y => y :: omap f l | None => omap f l end.
Proof. reflexivity. Qed.

Lemma values_same (m m' : memory) l : (forall a, a ∈ l.(active_list_) -> m'.(objects) !! a = m.(objects) !! a) ->
  list_values m' l = list_values m l.
Proof.
  unfold list_values. induction l.(active_list_) as [|a l' IH]; intros He; [done|]. rewrite !omap_cons.
  rewrite He by apply list_elem_of_here. rewrite IH; [done|]. intros b Hb. apply He. by apply list_elem_of_further.
Qed.

(** A list was worked on. *)
Lemma update_ok all lost s i l n cells free m' l' cells' free' :
  sys_ok all s lost -> s.(lists) !! i = Some l -> own n s.(mem) l cells free ->
  own n m' l' cells' free' -> l'.(p_pool_) = l.(p_pool_) -> framed l.(p_pool_) (free ++ cells.*1) s.(mem) m' ->
  free' ++ cells'.*1 ≡ₚ free ++ cells.*1 ->
  sys_ok all (System m' (<[i := l']> s.(lists))) lost /\
  abs (System m' (<[i := l']> s.(lists))) =
    Spec (<[i := (l.(p_pool_), cells'.*2)]> (abs s).(values)) (<[l.(p_pool_) := length free']> (abs s).(room)).
Proof.
  intros Hs Hi Ho Ho' Hp [Hfp Hfo] Hpe.
  assert (forall j lj a, i <> j -> s.(lists) !! j = Some lj -> a ∈ lj.(active_list_) ->
    m'.(objects) !! a = s.(mem).(objects) !! a) as Hobj
    by (intros j lj a Hne Hj Ha; apply Hfo; exact (other_list _ _ _ Hs _ _ _ _ _ _ _ _ Hi Ho Hne Hj Ha)).
  split.
  - constructor; simpl.
    + intros p q Hq. rewrite held_by_insert. unfold held_of. rewrite Hp.
      destruct (Z.eqb_spec l.(p_pool_) p) as [<-|Hne].
      * pose proof (ow_pool _ _ _ _ _ Ho') as Hq'. rewrite Hp, Hq in Hq'. injection Hq' as ->. simpl.
        rewrite (ow_active _ _ _ _ _ Ho'). destruct (so_pool _ _ _ Hs _ _ (ow_pool _ _ _ _ _ Ho)) as [E Hn].
        split; [|done]. rewrite <- E. simpl. rewrite (held_by_delete l.(p_pool_) _ _ _ Hi). unfold held_of.
        rewrite Z.eqb_refl, (ow_active _ _ _ _ _ Ho), <- !app_assoc, !app_assoc, Hpe. by rewrite <- !app_assoc.
      * rewrite Hfp in Hq by congruence. destruct (so_pool _ _ _ Hs _ _ Hq) as [E Hn]. split; [|done].
        rewrite <- E, (held_by_delete p _ _ _ Hi). unfold held_of. by rewrite (proj2 (Z.eqb_neq _ _) Hne).
    + intros j lj Hj. destruct (decide (lj.(p_pool_) = l.(p_pool_))) as [->|Hne].
      { rewrite <- Hp, (ow_pool _ _ _ _ _ Ho'). eauto. }
      rewrite Hfp by done. destruct (decide (j = i)) as [->|Hji].
      * rewrite lookup_insert_eq in Hj. injection Hj as <-. by rewrite Hp in Hne.
      * rewrite lookup_insert_ne in Hj by done. by eapply (so_list _ _ _ Hs).
    + intros j lj Hj. destruct (decide (i = j)) as [<-|Hji].
      * rewrite lookup_insert_eq in Hj. injection Hj as <-. rewrite (ow_active _ _ _ _ _ Ho').
        rewrite Forall_fmap. eapply Forall_impl; [exact (ow_objects _ _ _ _ _ Ho')|]. intros c Hc. simpl. by rewrite Hc.
      * rewrite lookup_insert_ne in Hj by done. eapply Forall_elem; [exact (so_objects _ _ _ Hs _ _ Hj)|].
        intros a Ha [v Hv]. rewrite (Hobj j lj a) by done. eauto.
    + intros p q Hq. destruct (decide (p = l.(p_pool_))) as [->|Hne].
      * pose proof (ow_pool _ _ _ _ _ Ho') as Hq'. rewrite Hp, Hq in Hq'. injection Hq' as ->.
        exact (ow_free _ _ _ _ _ Ho').
      * rewrite Hfp in Hq by done. eapply Forall_elem; [exact (so_free _ _ _ Hs _ _ Hq)|].
        intros a Ha Hv. rewrite Hfo; [done|]. exact (other_pool _ _ _ Hs _ _ _ _ _ _ _ _ Hi Ho Hne Hq Ha).
    + apply Hs.
    + apply Hs.
  - unfold abs. simpl. f_equal.
    + apply map_eq. intros j. rewrite lookup_fmap. destruct (decide (i = j)) as [<-|Hji].
      * rewrite !lookup_insert_eq. simpl. by rewrite Hp, (own_values _ _ _ _ _ Ho').
      * rewrite !lookup_insert_ne, lookup_fmap by done. destruct (s.(lists) !! j) as [lj|] eqn:Hj; [|done]. simpl.
        rewrite (values_same s.(mem)); [done|]. intros a. by apply (Hobj j).
    + apply map_eq. intros p. rewrite lookup_fmap. destruct (decide (p = l.(p_pool_))) as [->|Hne].
      * rewrite lookup_insert_eq, <- Hp, (ow_pool _ _ _ _ _ Ho'). done.
      * by rewrite lookup_insert_ne, lookup_fmap, Hfp by done.
Qed.

(** A list goes, and with it what it still held. *)
Lemma drop_ok all lost s i l :
  sys_ok all s lost -> s.(lists) !! i = Some l ->
  sys_ok all (System s.(mem) (delete i s.(lists))) (fun p => held_of p l ++ lost p) /\
  abs (System s.(mem) (delete i s.(lists))) = Spec (delete i (abs s).(values)) (abs s).(room).
Proof.
  intros Hs Hi. split; [|unfold abs; simpl; by rewrite fmap_delete].
  constructor; simpl; try apply Hs.
  - intros p q Hq. destruct (so_pool _ _ _ Hs _ _ Hq) as [E Hn]. split; [|done].
    rewrite <- E, (held_by_delete p _ _ _ Hi). rewrite <- !app_assoc. apply Permutation_app_head.
    rewrite !app_assoc. apply Permutation_app_tail, Permutation_app_comm.
  - intros j lj Hj. apply lookup_delete_Some in Hj as [_ Hj]. by eapply (so_list _ _ _ Hs).
  - intros j lj Hj. apply lookup_delete_Some in Hj as [_ Hj]. by eapply (so_objects _ _ _ Hs).
Qed.

Lemma lost_same all lost lost' s : sys_ok all s lost -> (forall p, lost' p = lost p) -> sys_ok all s lost'.
Proof. intros [] He. constructor; try done. intros p q Hq. rewrite He. by apply so_pool0. Qed.

Lemma drop_empty all lost s i l :
  sys_ok all s lost -> s.(lists) !! i = Some l -> l.(active_list_) = [] ->
  sys_ok all (System s.(mem) (delete i s.(lists))) lost.
Proof.
  intros Hs Hi Ha. eapply lost_same; [exact (proj1 (drop_ok _ _ _ _ _ Hs Hi))|]. intros p. unfold held_of.
  rewrite Ha. by destruct (_ =? _).
Qed.

(** An empty list comes. *)
Lemma add_ok all lost s i p :
  sys_ok all s lost -> s.(lists) !! i = None -> is_Some (s.(mem).(pools) !! p) ->
  sys_ok all (System s.(mem) (<[i := make p]> s.(lists))) lost /\
  abs (System s.(mem) (<[i := make p]> s.(lists))) = Spec (<[i := (p, [])]> (abs s).(values)) (abs s).(room).
Proof.
  intros Hs Hi Hp. split; [|unfold abs; simpl; by rewrite fmap_insert].
  constructor; simpl; try apply Hs.
  - intros p' q Hq. rewrite held_by_insert. unfold held_of, make. simpl. rewrite delete_id by done.
    destruct (p =? p'); by apply Hs.
  - intros j l Hj. apply lookup_insert_Some in Hj as [[_ <-]|[_ Hj]]; [done|]. by eapply (so_list _ _ _ Hs).
  - intros j l Hj. apply lookup_insert_Some in Hj as [[_ <-]|[_ Hj]]; [constructor|]. by eapply (so_objects _ _ _ Hs).
Qed.

Lemma own_make all lost s p q :
  sys_ok all s lost -> s.(mem).(pools) !! p = Some q ->
  own (Z.of_nat (length (all p))) s.(mem) (make p) [] q.(free_list_).
Proof.
  intros Hs Hq. destruct (so_pool _ _ _ Hs _ _ Hq) as [_ Hn]. constructor; simpl; try done.
  - rewrite Hq. destruct q as [f n]. simpl in *. by rewrite Hn.
  - by apply (so_free _ _ _ Hs _ _ Hq).
  - rewrite app_nil_r. pose proof (sys_pool_nodup _ _ _ Hs _ _ Hq) as Hnd. by apply NoDup_app in Hnd as [Hnd _].
Qed.

(** ** Refinement *)

(** Only a constructor that throws loses blocks. *)
Definition simulates (all lost : Z -> list Z) (r : res (PooledListSpec.answer T * system))
    (sp : res (PooledListSpec.answer T * spec (T := T))) : Prop :=
  match sp with
  | Ok (x, a) => exists s lost', r = Ok (x, s) /\ sys_ok all s lost' /\ abs s = a /\ (x <> Thrown -> lost' = lost)
  | Aborted => r = Aborted
  | Undef => r = Undef
  | NoFuel => False
  end.

(** One list does what is said of its values and its pool's room. *)
Definition steps {A} n (m : memory) l (cells : list cell) free (r : res (A * memory * t))
    (sp : res (A * list T * nat)) : Prop :=
  match sp with
  | Ok (x, v, k) => exists m' l' cells' free', r = Ok (x, m', l') /\ own n m' l' cells' free' /\
      l'.(p_pool_) = l.(p_pool_) /\ framed l.(p_pool_) (free ++ cells.*1) m m' /\
      free' ++ cells'.*1 ≡ₚ free ++ cells.*1 /\ cells'.*2 = v /\ length free' = k
  | Aborted => r = Aborted
  | Undef => r = Undef
  | NoFuel => False
  end.

Lemma abs_list (s : system) i : (abs s).(values) !! i = (fun l => (l.(p_pool_), list_values s.(mem) l)) <$> s.(lists) !! i.
Proof. apply lookup_fmap. Qed.

Lemma abs_room (s : system) p : (abs s).(room) !! p = (fun q => length q.(free_list_)) <$> s.(mem).(pools) !! p.
Proof. apply lookup_fmap. Qed.

(** A list is in a state that [sys_own] describes. *)
Lemma abs_own n s i l (cells : list cell) free :
  s.(lists) !! i = Some l -> own n s.(mem) l cells free ->
  (abs s).(values) !! i = Some (l.(p_pool_), cells.*2) /\ (abs s).(room) !! l.(p_pool_) = Some (length free).
Proof.
  intros Hi Ho. rewrite abs_list, abs_room, Hi, (ow_pool _ _ _ _ _ Ho). simpl. by rewrite (own_values _ _ _ _ _ Ho).
Qed.

Lemma on_simulates all lost s i g (f : list T -> nat -> res (PooledListSpec.answer T * list T * nat)) :
  sys_ok all s lost ->
  (forall n l cells free, own n s.(mem) l cells free ->
     steps n s.(mem) l cells free (g s.(mem) l) (f cells.*2 (length free))) ->
  simulates all lost (run_on i g s) (spec_on i f (abs s)).
Proof.
  intros Hs Hg. unfold run_on, spec_on. destruct (s.(lists) !! i) as [l|] eqn:Hi.
  - destruct (sys_own _ _ _ Hs _ _ Hi) as (cells & free & Ho). destruct (abs_own _ _ _ _ _ _ Hi Ho) as [-> Hr].
    cbn [of_option]. rewrite !bind_ok, Hr. cbn [of_option]. rewrite bind_ok.
    specialize (Hg _ _ _ _ Ho). destruct (f _ _) as [[[x v] k]| | |]; simpl in *; [|by rewrite Hg..|done].
    destruct Hg as (m' & l' & c' & f' & -> & Ho' & Hp & Hf & Hpe & <- & <-). simpl.
    destruct (update_ok _ _ _ _ _ _ _ _ _ _ _ _ Hs Hi Ho Ho' Hp Hf Hpe) as [Hs' Ha].
    eexists _, lost. split; [done|]. split; [exact Hs'|]. by split; [exact Ha|].
  - rewrite abs_list, Hi. done.
Qed.

(** From what an operation does to what is said of it. *)
Lemma acts_steps n m l (cells : list cell) free a sp Q :
  does n m l cells free (a m l) Q ->
  (forall o c f, Q o c f -> sp = Ok (done_or o, c.*2, length f)) ->
  steps n m l cells free (acts a m l) sp.
Proof.
  intros (o & m' & l' & c' & f' & Hr & Ho & Hp & Hf & Hpe & HQ) Hsp. rewrite (Hsp _ _ _ HQ). unfold acts. rewrite Hr, bind_ok.
  exists m', l', c', f'. auto 10.
Qed.

Lemma finds_steps n m l (cells : list cell) free a sp Q :
  does n m l cells free (a m l) Q ->
  (forall o c f, NoDup c.*1 -> Q o c f ->
     sp = Ok (match o with Returns i => At (position i c.*1) | Throws => Thrown end, c.*2, length f)) ->
  steps n m l cells free (finds a m l) sp.
Proof.
  intros (o & m' & l' & c' & f' & Hr & Ho & Hp & Hf & Hpe & HQ) Hsp.
  rewrite (Hsp _ _ _ (own_nodup_active _ _ _ _ _ Ho) HQ). unfold finds. rewrite Hr, bind_ok.
  exists m', l', c', f'. rewrite (ow_active _ _ _ _ _ Ho). auto 10.
Qed.

Lemma reads_steps n m l (cells : list cell) free g (x : res (PooledListSpec.answer T)) :
  own n m l cells free -> g m l = x -> x <> NoFuel ->
  steps n m l cells free (reads g m l) (x ← x; Ok (x, cells.*2, length free)).
Proof.
  intros Ho Hg Hx. unfold reads. rewrite Hg. destruct x as [x| | |]; simpl; try done.
  exists m, l, cells, free. split_and!; try done; apply framed_refl.
Qed.

(** What [put] says of a sequence of insertions. *)
Lemma put_inserted (c1 c2 : list cell) free new o c f :
  inserted c1 c2 free new o c f -> put c1.*2 c2.*2 new (length free) = (done_or o, c.*2, length f).
Proof.
  intros (nw & -> & Hn & -> & ->). unfold put. rewrite !fmap_app, Hn, length_drop. by destruct (_ <=? _)%nat.
Qed.

Lemma place_ok n m l (cells : list cell) free k :
  own n m l cells free ->
  place k l = if (k <=? length cells)%nat then Ok (head (drop k cells).*1) else Undef.
Proof.
  intros Ho. unfold place. rewrite (own_length _ _ _ _ _ Ho), (ow_active _ _ _ _ _ Ho). by rewrite fmap_drop.
Qed.

(** An operation at a place. *)
Lemma place_steps {A} n m l (cells : list cell) free k (g : iterator -> res (A * memory * t)) f :
  own n m l cells free ->
  (forall c1 c2, own n m l (c1 ++ c2) free -> length c1 = k -> cells = c1 ++ c2 ->
     steps n m l (c1 ++ c2) free (g (head c2.*1)) (f (c1.*2, c2.*2))) ->
  steps n m l cells free (pos ← place k l; g pos) (x ← cut k cells.*2; f x).
Proof.
  intros Ho Hg. rewrite (place_ok _ _ _ _ _ _ Ho). unfold cut. rewrite length_fmap.
  destruct (Nat.leb_spec k (length cells)) as [Hk|]; [|done]. simpl. rewrite <- fmap_take, <- fmap_drop.
  specialize (Hg (take k cells) (drop k cells)). rewrite take_drop in Hg. apply Hg; [done| |done].
  rewrite length_take. lia.
Qed.

(** ** Constructors, copies and destructors *)

Lemma construct_sys all lost s i p q body new :
  sys_ok all s lost -> s.(lists) !! i = None -> s.(mem).(pools) !! p = Some q ->
  (forall n free, own n s.(mem) (make p) [] free ->
     does n s.(mem) (make p) [] free (body s.(mem) (make p)) (inserted [] [] free new)) ->
  exists o m', construct p body s.(mem) = Ok (o, m') /\
    if (length new <=? length q.(free_list_))%nat
    then exists l, o = Returns l /\ l.(p_pool_) = p /\ sys_ok all (System m' (<[i := l]> s.(lists))) lost /\
      abs (System m' (<[i := l]> s.(lists))) =
        Spec (<[i := (p, new)]> (abs s).(values)) (<[p := (length q.(free_list_) - length new)%nat]> (abs s).(room))
    else o = Throws /\ exists lost', sys_ok all (System m' s.(lists)) lost' /\
      abs (System m' s.(lists)) = Spec (abs s).(values) (<[p := 0%nat]> (abs s).(room)).
Proof.
  intros Hs Hi Hq Hb. pose proof (own_make _ _ _ _ _ Hs Hq) as Ho.
  destruct (Hb _ _ Ho) as (o & m' & l' & c' & f' & Hr & Ho' & Hp & Hf & Hpe & new' & Hc & Hn & Hf' & Hout).
  destruct (add_ok _ _ _ _ _ Hs Hi (mk_is_Some _ _ Hq)) as [Hs1 Ha1]. set (s1 := System _ _) in Hs1, Ha1.
  assert (s1.(lists) !! i = Some (make p)) as Hi1 by apply lookup_insert_eq.
  destruct (update_ok _ _ s1 _ _ _ _ _ _ _ _ _ Hs1 Hi1 Ho Ho' Hp Hf Hpe) as [Hs2 Ha2].
  rewrite Ha1 in Ha2. unfold s1 in Hs2, Ha2. cbn [lists values room make p_pool_] in Hs2, Ha2. rewrite insert_insert_eq in Hs2.
  rewrite (insert_insert_eq s.(lists)), insert_insert_eq in Ha2.
  simpl in Hc. rewrite app_nil_r in Hc. subst c'. rewrite Hn, Hf', length_drop in Ha2.
  exists (match o with Returns _ => Returns l' | Throws => Throws end), m'.
  split; [unfold construct; fold (make p); rewrite Hr, bind_ok; by destruct o|].
  rewrite Hout. destruct (Nat.leb_spec (length new) (length q.(free_list_))) as [Hle|Hgt].
  - exists l'. split; [done|]. split; [exact Hp|]. split; [exact Hs2|]. by rewrite take_ge in Ha2.
  - split; [done|]. destruct (drop_ok _ _ (System m' (<[i := l']> s.(lists))) i l' Hs2) as [Hs3 Ha3];
      [apply lookup_insert_eq|]. cbn [lists mem] in Hs3, Ha3. rewrite delete_insert_id in Hs3, Ha3 by done.
    eexists. split; [exact Hs3|]. rewrite Ha3, Ha2. cbn [values room]. rewrite delete_insert_id by by rewrite abs_list, Hi.
    by replace (_ - _)%nat with O by lia.
Qed.

Lemma construct_simulates all lost s i p body new :
  sys_ok all s lost ->
  (forall n free, own n s.(mem) (make p) [] free ->
     does n s.(mem) (make p) [] free (body s.(mem) (make p)) (inserted [] [] free new)) ->
  simulates all lost (run_new i p (construct p body) s) (spec_new i p new (abs s)).
Proof.
  intros Hs Hb. unfold run_new, spec_new. rewrite abs_list, abs_room.
  destruct (s.(lists) !! i) as [l|] eqn:Hi; [done|]. simpl.
  destruct (s.(mem).(pools) !! p) as [q|] eqn:Hq; [|done]. simpl.
  destruct (construct_sys _ _ _ _ _ _ _ _ Hs Hi Hq Hb) as (o & m' & -> & Hif). simpl.
  destruct (_ <=? _)%nat.
  - destruct Hif as (l & -> & _ & Hs' & Ha). eexists _, lost. by split_and!.
  - destruct Hif as (-> & lost' & Hs' & Ha). eexists _, lost'. by split_and!.
Qed.

Lemma insert_begin_does n (m : memory) p free (new : list T) :
  own n m (make p) [] free ->
  does n m (make p) [] free (insert_range (begin (make p)) new m (make p)) (inserted [] [] free new).
Proof. intros Ho. by apply (insert_range_does new n m (make p) [] []). Qed.

Lemma make_n_does n (m : memory) p free k (x : T) :
  own n m (make p) [] free -> does n m (make p) [] free (assign k x m (make p)) (inserted [] [] free (replicate k x)).
Proof. intros Ho. exact (assign_does n m (make p) [] free k x Ho). Qed.

(** A copy is made from the values. *)
Lemma copy_values s i l n (cells : list cell) free :
  s.(lists) !! i = Some l -> own n s.(mem) l cells free ->
  copy l s.(mem) = construct l.(p_pool_) (fun m this => insert_range (begin this) cells.*2 m this) s.(mem).
Proof. intros Hi Ho. unfold copy. by rewrite (own_items _ _ _ _ _ Ho), bind_ok. Qed.

Lemma destroy_sys all lost s i l :
  sys_ok all s lost -> s.(lists) !! i = Some l ->
  exists m' r v, destroy l s.(mem) = Ok m' /\ sys_ok all (System m' (delete i s.(lists))) lost /\
    (abs s).(values) !! i = Some (l.(p_pool_), v) /\ (abs s).(room) !! l.(p_pool_) = Some r /\
    abs (System m' (delete i s.(lists))) =
      Spec (delete i (abs s).(values)) (<[l.(p_pool_) := (r + length v)%nat]> (abs s).(room)).
Proof.
  intros Hs Hi. destruct (sys_own _ _ _ Hs _ _ Hi) as (cells & free & Ho). destruct (abs_own _ _ _ _ _ _ Hi Ho) as [Hv Hr].
  destruct (clear_does _ _ _ _ _ Ho) as (o & m' & l' & c' & f' & Hc & Ho' & Hp & Hf & Hpe & -> & -> & ->).
  destruct (update_ok _ _ _ _ _ _ _ _ _ _ _ _ Hs Hi Ho Ho' Hp Hf Hpe) as [Hs' Ha].
  exists m', (length free), cells.*2. split; [unfold destroy; by rewrite Hc|].
  set (s' := System m' (<[i := l']> s.(lists))) in *.
  assert (s'.(lists) !! i = Some l') as Hi' by apply lookup_insert_eq.
  pose proof (drop_empty _ _ _ _ _ Hs' Hi' (ow_active _ _ _ _ _ Ho')) as Hs2.
  destruct (drop_ok _ _ _ _ _ Hs' Hi') as [_ Ha2].
  assert (delete i s'.(lists) = delete i s.(lists)) as El by apply delete_insert_eq. rewrite El in Hs2, Ha2.
  split; [exact Hs2|]. split; [done|]. split; [done|]. etransitivity; [exact Ha2|]. rewrite Ha. simpl.
  rewrite delete_insert_eq. do 2 f_equal. rewrite length_app, length_rev, !length_fmap. lia.
Qed.

(** ** Two lists *)

Lemma two_ok all lost s i j li lj li' lj' :
  sys_ok all s lost -> i <> j -> s.(lists) !! i = Some li -> s.(lists) !! j = Some lj ->
  (forall p, held_of p li' ++ held_of p lj' ≡ₚ held_of p li ++ held_of p lj) ->
  is_Some (s.(mem).(pools) !! li'.(p_pool_)) -> is_Some (s.(mem).(pools) !! lj'.(p_pool_)) ->
  sys_ok all (System s.(mem) (<[j := lj']> (<[i := li']> s.(lists)))) lost /\
  abs (System s.(mem) (<[j := lj']> (<[i := li']> s.(lists)))) =
    Spec (<[j := (lj'.(p_pool_), list_values s.(mem) lj')]> (<[i := (li'.(p_pool_), list_values s.(mem) li')]> (abs s).(values)))
      (abs s).(room).
Proof.
  intros Hs Hne Hi Hj Hh Hpi Hpj. split; [|unfold abs; simpl; by rewrite !fmap_insert].
  assert (forall l, l = li' \/ l = lj' -> Forall (fun a => is_Some (s.(mem).(objects) !! a)) l.(active_list_)) as Hobj.
  { intros l Hl. apply Forall_forall. intros a Ha. specialize (Hh l.(p_pool_)).
    assert (a ∈ held_of (p_pool_ l) li ++ held_of (p_pool_ l) lj) as Hin.
    { rewrite <- Hh. apply elem_of_app. destruct Hl as [-> | ->]; [left|right]; unfold held_of; by rewrite Z.eqb_refl. }
    unfold held_of in Hin. apply elem_of_app in Hin as [Hin|Hin]; destruct (_ =? _) in Hin; try by apply not_elem_of_nil in Hin.
    - pose proof (so_objects _ _ _ Hs _ _ Hi) as Ho. rewrite Forall_forall in Ho. by apply Ho.
    - pose proof (so_objects _ _ _ Hs _ _ Hj) as Ho. rewrite Forall_forall in Ho. by apply Ho. }
  constructor; simpl; try apply Hs.
  - intros p q Hq. destruct (so_pool _ _ _ Hs _ _ Hq) as [E Hn]. split; [|done]. rewrite <- E.
    apply Permutation_app_head, Permutation_app_tail.
    assert (delete i s.(lists) !! j = Some lj) as Hj' by by rewrite lookup_delete_ne.
    rewrite held_by_insert, delete_insert_ne by done. rewrite held_by_insert.
    rewrite (held_by_delete p _ _ _ Hi), (held_by_delete p _ _ _ Hj'), !app_assoc, <- Hh, (delete_delete _ i j).
    apply Permutation_app_tail, Permutation_app_comm.
  - intros k l Hk. apply lookup_insert_Some in Hk as [[_ <-]|[_ Hk]]; [done|].
    apply lookup_insert_Some in Hk as [[_ <-]|[_ Hk]]; [done|]. by eapply (so_list _ _ _ Hs).
  - intros k l Hk. apply lookup_insert_Some in Hk as [[_ <-]|[_ Hk]]; [auto|].
    apply lookup_insert_Some in Hk as [[_ <-]|[_ Hk]]; [auto|]. by eapply (so_objects _ _ _ Hs).
Qed.

(** The pools agree, and the second list gives its nodes to the first. *)
Lemma two_simulates all lost s i j (f : t -> t -> memory -> res (t * t * memory)) g :
  sys_ok all s lost ->
  (forall li lj n ci cj free, i <> j -> s.(lists) !! i = Some li -> s.(lists) !! j = Some lj ->
     own n s.(mem) li ci free -> list_values s.(mem) lj = cj.*2 -> lj.(active_list_) = cj.*1 ->
     Forall (fun c : cell => s.(mem).(objects) !! c.1 = Some c.2) cj ->
     match g (li.(p_pool_), ci.*2) (lj.(p_pool_), cj.*2) with
     | Ok (x, y) => exists li' lj', f li lj s.(mem) = Ok (li', lj', s.(mem)) /\
         (forall p, held_of p li' ++ held_of p lj' ≡ₚ held_of p li ++ held_of p lj) /\
         (li'.(p_pool_) = li.(p_pool_) \/ li'.(p_pool_) = lj.(p_pool_)) /\
         (lj'.(p_pool_) = li.(p_pool_) \/ lj'.(p_pool_) = lj.(p_pool_)) /\
         x = (li'.(p_pool_), list_values s.(mem) li') /\ y = (lj'.(p_pool_), list_values s.(mem) lj')
     | Aborted => f li lj s.(mem) = Aborted
     | Undef => f li lj s.(mem) = Undef
     | NoFuel => False
     end) ->
  simulates all lost (run_two i j f s) (spec_two i j g (abs s)).
Proof.
  intros Hs Hf. unfold run_two, spec_two. destruct (Nat.eqb_spec i j) as [|Hne]; [done|]. rewrite !abs_list.
  destruct (s.(lists) !! i) as [li|] eqn:Hi; [|done]. destruct (s.(lists) !! j) as [lj|] eqn:Hj; [|done]. simpl.
  destruct (sys_own _ _ _ Hs _ _ Hi) as (ci & free & Ho). destruct (sys_own _ _ _ Hs _ _ Hj) as (cj & freej & Hoj).
  pose proof (Hf _ _ _ _ _ _ Hne eq_refl eq_refl Ho (own_values _ _ _ _ _ Hoj) (ow_active _ _ _ _ _ Hoj) (ow_objects _ _ _ _ _ Hoj)) as Hx.
  rewrite (own_values _ _ _ _ _ Ho), (own_values _ _ _ _ _ Hoj).
  destruct (g _ _) as [[x y]| | |]; simpl in *; [|by rewrite Hx..|done].
  destruct Hx as (li' & lj' & -> & Hh & Hpi & Hpj & -> & ->). simpl.
  pose proof (so_list _ _ _ Hs _ _ Hi) as Hsi. pose proof (so_list _ _ _ Hs _ _ Hj) as Hsj.
  destruct (two_ok _ _ _ _ _ _ _ li' lj' Hs Hne Hi Hj Hh) as [Hs' Ha];
    [by destruct Hpi as [-> | ->]|by destruct Hpj as [-> | ->]|].
  eexists _, lost. by split_and!.
Qed.

(** ** Comparisons *)

(** A comparison leaves every list, and takes from the rooms what is said. *)
Definition compares (all : Z -> list Z) (c : t -> t -> memory -> res (outcome bool * memory))
    (sc : comparison (T := T)) : Prop :=
  forall s lost i j l r, sys_ok all s lost -> s.(lists) !! i = Some l -> s.(lists) !! j = Some r ->
    exists o m lost', c l r s.(mem) = Ok (o, m) /\ sys_ok all (System m s.(lists)) lost' /\
      (abs (System m s.(lists))).(values) = (abs s).(values) /\
      sc (l.(p_pool_), list_values s.(mem) l) (r.(p_pool_), list_values s.(mem) r) (abs s).(room) =
        Ok (o, (abs (System m s.(lists))).(room)) /\ (o <> Throws -> lost' = lost).

(** A copy that lives for the time of a call. *)
Definition with_copy (x : t) (body : t -> memory -> res (outcome bool * memory)) (m : memory) : res (outcome bool * memory) :=
  '(o1, m) ← copy x m;
  match (o1 : outcome t) with
  | Throws => Ok (Throws, m)
  | Returns c => '(b, m) ← body c m; m ← destroy c m; Ok (b, m)
  end.

Lemma on_copies_nested left_first l r body (m : memory) :
  on_copies left_first l r body m =
    if left_first then with_copy l (fun c1 => with_copy r (fun c2 => body c1 c2)) m
    else with_copy r (fun c2 => with_copy l (fun c1 => body c1 c2)) m.
Proof.
  unfold on_copies, with_copy. destruct left_first.
  - destruct (copy l m) as [[[c1|] m1]| | |]; try done. rewrite !bind_ok.
    destruct (copy r m1) as [[[c2|] m2]| | |]; try done. rewrite !bind_ok.
    destruct (body c1 c2 m2) as [[b m3]| | |]; try done. rewrite !bind_ok. by destruct (destroy c2 m3).
  - destruct (copy r m) as [[[c1|] m1]| | |]; try done. rewrite !bind_ok.
    destruct (copy l m1) as [[[c2|] m2]| | |]; try done. rewrite !bind_ok.
    destruct (body c2 c1 m2) as [[b m3]| | |]; try done. rewrite !bind_ok. by destruct (destroy c2 m3).
Qed.

(** What is done while a copy of a list lives, and then with the copy gone. *)
Lemma temp_ok all s lost i x (body : t -> memory -> res (outcome bool * memory)) (f : gmap Z nat -> res (outcome bool * gmap Z nat)) :
  sys_ok all s lost -> s.(lists) !! i = Some x ->
  (forall k c m, s.(lists) !! k = None -> c.(p_pool_) = x.(p_pool_) ->
     let s1 := System m (<[k := c]> s.(lists)) in
     sys_ok all s1 lost -> list_values m c = list_values s.(mem) x ->
     (forall j l, s.(lists) !! j = Some l -> list_values m l = list_values s.(mem) l) ->
     exists o m2 lost', body c m = Ok (o, m2) /\ sys_ok all (System m2 s1.(lists)) lost' /\
       (abs (System m2 s1.(lists))).(values) = (abs s1).(values) /\
       f (abs s1).(room) = Ok (o, (abs (System m2 s1.(lists))).(room)) /\ (o <> Throws -> lost' = lost)) ->
  exists o m2 lost',
    with_copy x body s.(mem) = Ok (o, m2) /\
    sys_ok all (System m2 s.(lists)) lost' /\ (abs (System m2 s.(lists))).(values) = (abs s).(values) /\
    spec_temp (x.(p_pool_), list_values s.(mem) x) f (abs s).(room) = Ok (o, (abs (System m2 s.(lists))).(room)) /\
    (o <> Throws -> lost' = lost).
Proof.
  intros Hs Hi Hbody. destruct (sys_own _ _ _ Hs _ _ Hi) as (cells & free & Ho).
  unfold with_copy. rewrite (copy_values _ _ _ _ _ _ Hi Ho). pose proof (abs_own _ _ _ _ _ _ Hi Ho) as [_ Hr].
  set (k := fresh (dom s.(lists))). assert (s.(lists) !! k = None) as Hk by (apply not_elem_of_dom, is_fresh).
  unfold spec_temp. cbn [fst snd]. rewrite Hr. cbn [of_option]. rewrite bind_ok, (own_values _ _ _ _ _ Ho).
  destruct (construct_sys _ _ _ k _ _ (fun m this => insert_range (begin this) cells.*2 m this) cells.*2 Hs Hk (ow_pool _ _ _ _ _ Ho)
    (fun n free Hm => insert_begin_does n _ _ free _ Hm)) as (o & m & Hc & Hif). rewrite Hc, bind_ok. cbn [free_list_] in Hif.
  destruct (length cells.*2 <=? length free)%nat eqn:Ele.
  2: { destruct Hif as (-> & lost' & Hs' & Ha). exists Throws, m, lost'. rewrite Ha. by split_and!. }
  destruct Hif as (c & -> & Hp & Hs1 & Ha1). set (s1 := System m (<[k := c]> s.(lists))) in *.
  assert (s1.(lists) !! k = Some c) as Hk1 by apply lookup_insert_eq.
  assert (list_values m c = cells.*2) as Hvc.
  { pose proof (abs_list s1 k) as E. rewrite Hk1, Ha1 in E. cbn [values] in E. rewrite lookup_insert_eq in E. by injection E. }
  assert (forall j l, s.(lists) !! j = Some l -> list_values m l = list_values s.(mem) l) as Hsame.
  { intros j l Hj. assert (k <> j) as Hne by (intros <-; by rewrite Hk in Hj).
    pose proof (abs_list s1 j) as E. rewrite Ha1 in E. cbn [values] in E.
    rewrite (lookup_insert_ne (abs s).(values)), abs_list, Hj in E by done. unfold s1 in E. cbn [lists mem] in E.
    rewrite lookup_insert_ne, Hj in E by done. by injection E. }
  destruct (Hbody k c m Hk Hp Hs1) as (o & m2 & lost2 & Hb & Hs2 & Hv2 & Hf & Hl2); [by rewrite Hvc, (own_values _ _ _ _ _ Ho)|done|].
  rewrite Hb, bind_ok. fold s1 in Hs2, Hv2, Hf. set (s2 := System m2 s1.(lists)) in *.
  destruct (destroy_sys _ _ s2 k c Hs2 Hk1) as (m3 & r & v & Hd & Hs3 & Hvk & Hrk & Ha3).
  change s2.(mem) with m2 in Hd. rewrite Hd, bind_ok.
  assert (delete k s2.(lists) = s.(lists)) as El by by apply delete_insert_id. rewrite El in Hs3, Ha3.
  exists o, m3, lost2. split; [done|]. split; [done|]. rewrite Hv2, Ha1 in Hvk. cbn [values] in Hvk.
  rewrite lookup_insert_eq in Hvk. injection Hvk as _ <-. split; [|split; [|exact Hl2]].
  - rewrite Ha3. cbn [values]. rewrite Hv2, Ha1. cbn [values]. apply delete_insert_id.
    exact (eq_trans (abs_list s k) (f_equal _ Hk)).
  - rewrite Ha1 in Hf. cbn [room] in Hf. rewrite Hf, bind_ok, <- Hp, Hrk. cbn [of_option].
    by rewrite bind_ok, Ha3.
Qed.

(** The two copies one after the other; [first] is the one that is made
    first. *)
Lemma two_temps all s lost i j x y (body : t -> t -> memory -> res (outcome bool * memory)) (f : gmap Z nat -> res (outcome bool * gmap Z nat)) :
  sys_ok all s lost -> s.(lists) !! i = Some x -> s.(lists) !! j = Some y ->
  (forall s2 lost2 k1 k2 c1 c2, sys_ok all s2 lost2 -> s2.(lists) !! k1 = Some c1 -> s2.(lists) !! k2 = Some c2 ->
     c1.(p_pool_) = x.(p_pool_) -> c2.(p_pool_) = y.(p_pool_) ->
     list_values s2.(mem) c1 = list_values s.(mem) x -> list_values s2.(mem) c2 = list_values s.(mem) y ->
     exists o m3 lost3, body c1 c2 s2.(mem) = Ok (o, m3) /\ sys_ok all (System m3 s2.(lists)) lost3 /\
       (abs (System m3 s2.(lists))).(values) = (abs s2).(values) /\
       f (abs s2).(room) = Ok (o, (abs (System m3 s2.(lists))).(room)) /\ (o <> Throws -> lost3 = lost2)) ->
  exists o m2 lost',
    with_copy x (fun c1 => with_copy y (fun c2 => body c1 c2)) s.(mem) = Ok (o, m2) /\
    sys_ok all (System m2 s.(lists)) lost' /\ (abs (System m2 s.(lists))).(values) = (abs s).(values) /\
    spec_temp (x.(p_pool_), list_values s.(mem) x) (spec_temp (y.(p_pool_), list_values s.(mem) y) f) (abs s).(room) =
      Ok (o, (abs (System m2 s.(lists))).(room)) /\ (o <> Throws -> lost' = lost).
Proof.
  intros Hs Hi Hj Hbody. eapply temp_ok; [exact Hs|exact Hi|].
  intros k1 c1 m1 Hk1 Hp1 s1 Hs1 Hv1 Hsame1.
  assert (k1 <> j) as Hne1 by (intros <-; by rewrite Hk1 in Hj).
  assert (s1.(lists) !! j = Some y) as Hj1 by by rewrite <- Hj; apply lookup_insert_ne.
  assert (s1.(lists) !! k1 = Some c1) as Hc1 by apply lookup_insert_eq.
  rewrite <- (Hsame1 _ _ Hj). eapply (temp_ok all s1); [exact Hs1|exact Hj1|].
  intros k2 c2 m2 Hk2 Hp2 s2 Hs2 Hv2 Hsame2. assert (k2 <> k1) as Hne2 by (intros ->; by rewrite Hk2 in Hc1).
  eapply (Hbody s2 lost k1 k2 c1 c2); try done.
  - rewrite <- Hc1. by apply lookup_insert_ne.
  - apply lookup_insert_eq.
  - etransitivity; [exact (Hsame2 _ _ Hc1)|exact Hv1].
  - etransitivity; [exact Hv2|exact (Hsame1 _ _ Hj)].
Qed.

Lemma on_copies_compares all left_first body sc :
  compares all body sc ->
  compares all (fun l r => on_copies left_first l r body) (spec_both left_first sc).
Proof.
  intros Hb s lost i j l r Hs Hi Hj. rewrite on_copies_nested. unfold spec_both. destruct left_first.
  - apply (two_temps all s lost i j l r body); [done..|].
    intros s2 lost2 k1 k2 c1 c2 Hs2 Hk1 Hk2 Hp1 Hp2 Hv1 Hv2. rewrite <- Hp1, <- Hp2, <- Hv1, <- Hv2. by apply (Hb s2 lost2 k1 k2).
  - apply (two_temps all s lost j i r l (fun c1 c2 => body c2 c1)); [done..|].
    intros s2 lost2 k1 k2 c1 c2 Hs2 Hk1 Hk2 Hp1 Hp2 Hv1 Hv2. rewrite <- Hp1, <- Hp2, <- Hv1, <- Hv2. by apply (Hb s2 lost2 k2 k1).
Qed.

Lemma negated_compares all c sc :
  compares all c sc -> compares all (fun l r m => '(b, m) ← c l r m; Ok (negated b, m)) (spec_not sc).
Proof.
  intros Hc s lost i j l r Hs Hi Hj. destruct (Hc _ _ _ _ _ _ Hs Hi Hj) as (o & m & lost' & Hr & Hs' & Hv & Hsc & Hl).
  exists (negated o), m, lost'. rewrite Hr, bind_ok. unfold spec_not. rewrite Hsc, bind_ok.
  split_and!; try done. intros Hne. apply Hl. by destruct o.
Qed.

Lemma swapped_compares all c sc :
  compares all c sc -> compares all (fun l r m => c r l m) (spec_swapped sc).
Proof. intros Hc s lost i j l r Hs Hi Hj. by apply (Hc s lost j i). Qed.

(** A comparison that only looks at the values. *)
Lemma values_compares all (g : memory -> list Z -> list Z -> res bool) f :
  (forall m (c1 c2 : list cell), Forall (fun c => m.(objects) !! c.1 = Some c.2) c1 ->
     Forall (fun c => m.(objects) !! c.1 = Some c.2) c2 -> g m c1.*1 c2.*1 = Ok (f c1.*2 c2.*2)) ->
  compares all (fun l r m => b ← g m l.(active_list_) r.(active_list_); Ok (Returns b, m)) (spec_values f).
Proof.
  intros Hg s lost i j l r Hs Hi Hj. destruct (sys_own _ _ _ Hs _ _ Hi) as (c1 & f1 & Ho1).
  destruct (sys_own _ _ _ Hs _ _ Hj) as (c2 & f2 & Ho2).
  rewrite (ow_active _ _ _ _ _ Ho1), (ow_active _ _ _ _ _ Ho2), (Hg _ _ _ (ow_objects _ _ _ _ _ Ho1) (ow_objects _ _ _ _ _ Ho2)).
  eexists (Returns _), s.(mem), lost. rewrite bind_ok. split; [done|].
  assert (System s.(mem) s.(lists) = s) as -> by by destruct s. split; [done|]. split; [done|].
  split; [|done]. unfold spec_values. simpl. by rewrite (own_values _ _ _ _ _ Ho1), (own_values _ _ _ _ _ Ho2).
Qed.

Lemma equal_loop_ok eqb (m : memory) (c1 : list cell) : forall c2,
  Forall (fun c => m.(objects) !! c.1 = Some c.2) c1 -> Forall (fun c => m.(objects) !! c.1 = Some c.2) c2 ->
  equal_loop eqb m c1.*1 c2.*1 = Ok (equal_values eqb c1.*2 c2.*2).
Proof.
  induction c1 as [|[a x] c1 IH]; intros [|[b y] c2] H1' H2'; try done.
  apply Forall_cons in H1' as [Ha H1'], H2' as [Hb H2']. cbn in Ha, Hb. rewrite !fmap_cons.
  cbn [equal_loop equal_values fst snd]. unfold object. rewrite Ha, Hb. cbn [of_option]. rewrite !bind_ok.
  destruct (eqb x y); [|done]. by apply IH.
Qed.

Lemma less_loop_ok ltb (m : memory) (c1 : list cell) : forall c2,
  Forall (fun c => m.(objects) !! c.1 = Some c.2) c1 -> Forall (fun c => m.(objects) !! c.1 = Some c.2) c2 ->
  less_loop ltb m c1.*1 c2.*1 = Ok (less_values ltb c1.*2 c2.*2).
Proof.
  induction c1 as [|[a x] c1 IH]; intros [|[b y] c2] H1' H2'; try done.
  apply Forall_cons in H1' as [Ha H1'], H2' as [Hb H2']. cbn in Ha, Hb. rewrite !fmap_cons.
  cbn [less_loop less_values fst snd]. unfold object. rewrite Ha, Hb. cbn [of_option]. rewrite !bind_ok.
  destruct (ltb x y); [done|]. destruct (ltb y x); [done|]. by apply IH.
Qed.

Lemma equal_compares all eqb left_first :
  compares all (equal eqb left_first) (spec_equal eqb left_first).
Proof. apply on_copies_compares, (values_compares all (equal_loop eqb)). intros. by apply equal_loop_ok. Qed.

Lemma less_compares all ltb left_first :
  compares all (less ltb left_first) (spec_less ltb left_first).
Proof. apply on_copies_compares, (values_compares all (less_loop ltb)). intros. by apply less_loop_ok. Qed.

Lemma greater_compares all ltb left_first :
  compares all (greater ltb left_first) (spec_greater ltb left_first).
Proof. apply on_copies_compares, swapped_compares, less_compares. Qed.

Lemma compare_simulates all lost s i j c sc :
  sys_ok all s lost -> compares all c sc ->
  simulates all lost (run_compare i j c s) (spec_compare i j sc (abs s)).
Proof.
  intros Hs Hc. unfold run_compare, spec_compare. rewrite !abs_list.
  destruct (s.(lists) !! i) as [l|] eqn:Hi; [|done]. destruct (s.(lists) !! j) as [r|] eqn:Hj; [|by destruct l].
  cbn [fmap option_fmap option_map of_option]. rewrite !bind_ok.
  destruct (Hc _ _ _ _ _ _ Hs Hi Hj) as (o & m & lost' & -> & Hs' & Hv & -> & Hl). rewrite !bind_ok.
  eexists _, lost'. split; [done|]. split; [done|]. split; [rewrite <- Hv; by destruct (abs _)|].
  intros Hne. apply Hl. by destruct o.
Qed.

(** ** Every command *)

Lemma position_at (l1 l2 : list Z) : NoDup (l1 ++ l2) -> position (head l2) (l1 ++ l2) = length l1.
Proof.
  induction l1 as [|a l1 IH]; intros Hnd; simpl.
  - destruct l2 as [|b l2]; simpl; [done|]. by rewrite bool_decide_eq_true_2.
  - apply NoDup_cons in Hnd as [Ha Hnd]. rewrite bool_decide_eq_false_2, IH; [done|done|].
    destruct l2 as [|b l2]; simpl; [done|]. intros [= ->]. apply Ha, elem_of_app. right. apply list_elem_of_here.
Qed.

#[local] Arguments Nat.min : simpl never.

(** Counts what is free, held and erased. *)
Ltac counted :=
  simpl; unfold done_or; rewrite ?fmap_app, ?length_app, ?length_rev, ?length_fmap; simpl; do 2 f_equal; lia.

(** A command on one list whose operation is described by [H]. *)
Ltac one_list H :=
  eapply on_simulates; [eassumption|]; intros n l cells free Ho;
  eapply acts_steps; [apply H; exact Ho|]; intros o c f.

Section commands.
Variables (eqb ltb : T -> T -> bool) (left_first : bool).
Variables (all lost : Z -> list Z) (s : system).
Hypothesis Hs : sys_ok all s lost.
Abbreviation run := (run_step eqb ltb left_first).
Abbreviation says := (spec_step eqb ltb left_first).

Lemma insert_refines i k x : simulates all lost (run (Insert i k x) s) (says (Insert i k x) (abs s)).
Proof.
  eapply on_simulates; [exact Hs|]. intros n l cells free Ho. apply place_steps; [done|].
  intros c1 c2 Ho' <- ->. eapply finds_steps; [by apply insert_does|]. intros o c f Hnd HQ. destruct free as [|a free].
  - by destruct HQ as (-> & -> & ->).
  - destruct HQ as (-> & -> & ->). rewrite !fmap_app, !fmap_cons in *. cbn [fst snd length] in *.
    pose proof (position_at c1.*1 (a :: c2.*1) Hnd) as E. cbn [head] in E. by rewrite E, length_fmap.
Qed.

Lemma erase_refines i k : simulates all lost (run (Erase i k) s) (says (Erase i k) (abs s)).
Proof.
  eapply on_simulates; [exact Hs|]. intros n l cells free Ho. apply place_steps; [done|].
  intros c1 [|[a v] c2] Ho' <- ->.
  - unfold finds. change (head ([] : list cell).*1) with end_. by rewrite (erase_end _ _ _ _ _ Ho').
  - eapply finds_steps; [by apply erase_does|]. intros o c f Hnd (-> & -> & ->). rewrite !fmap_app in *. simpl.
    by rewrite position_at, length_fmap.
Qed.

Lemma insert_range_refines i k new :
  simulates all lost (run (InsertRange i k new) s) (says (InsertRange i k new) (abs s)).
Proof.
  eapply on_simulates; [exact Hs|]. intros n l cells free Ho. apply place_steps; [done|].
  intros c1 c2 Ho' _ _. eapply acts_steps; [by apply insert_range_does|].
  intros o c f HQ. by rewrite (put_inserted _ _ _ _ _ _ _ HQ).
Qed.

Lemma insert_n_refines i k m x :
  simulates all lost (run (InsertN i k m x) s) (says (InsertN i k m x) (abs s)).
Proof.
  eapply on_simulates; [exact Hs|]. intros n l cells free Ho. apply place_steps; [done|].
  intros c1 c2 Ho' _ _. rewrite insert_n_range. eapply acts_steps; [by apply insert_range_does|].
  intros o c f HQ. by rewrite (put_inserted _ _ _ _ _ _ _ HQ).
Qed.

Lemma erase_range_refines i k1 k2 :
  simulates all lost (run (EraseRange i k1 k2) s) (says (EraseRange i k1 k2) (abs s)).
Proof.
  eapply on_simulates; [exact Hs|]. intros n l cells free Ho. cbv beta.
  rewrite !(place_ok _ _ _ _ _ _ Ho), length_fmap.
  destruct (Nat.leb_spec k1 (length cells)) as [Hk1|]; simpl;
    [|destruct (Nat.leb_spec k1 k2), (Nat.leb_spec k2 (length cells)); lia || done].
  destruct (Nat.leb_spec k2 (length cells)) as [Hk2|]; simpl; [|by rewrite andb_false_r]. rewrite andb_true_r.
  destruct (Nat.leb_spec k1 k2) as [Hle|Hgt].
  - pose proof (erase_range_does n s.(mem) l (take k1 cells) (take (k2 - k1) (drop k1 cells)) (drop k2 cells) free) as Hd.
    assert (take (k2 - k1) (drop k1 cells) ++ drop k2 cells = drop k1 cells) as E.
    { replace (drop k2 cells) with (drop (k2 - k1) (drop k1 cells)) by (rewrite drop_drop; f_equal; lia). apply take_drop. }
    rewrite E, take_drop in Hd. eapply acts_steps; [exact (Hd Ho)|]. intros o c f (-> & -> & ->).
    rewrite fmap_app, fmap_take, fmap_drop, length_app, length_rev, length_fmap, length_take, length_drop. simpl.
    do 2 f_equal. lia.
  - assert (exists b, head (drop k2 cells).*1 = Some b /\ (b ∉ (drop k1 cells).*1)) as (b & -> & Hb).
    { pose proof (own_nodup_active _ _ _ _ _ Ho) as Hnd.
      destruct (lookup_lt_is_Some_2 cells k2) as [[b v] Hlk]; [lia|]. rewrite (drop_S _ _ _ Hlk). exists b. split; [done|].
      rewrite <- (take_drop_middle _ _ _ Hlk), fmap_app, fmap_cons in Hnd. apply NoDup_app in Hnd as (_ & _ & Hnd).
      apply NoDup_cons in Hnd as [Hnb _]. intros Hin. apply Hnb. simpl.
      rewrite <- (take_drop (k1 - S k2) (drop (S k2) cells)), fmap_app, drop_drop. apply elem_of_app. right.
      by replace (S k2 + (k1 - S k2))%nat with k1 by lia. }
    unfold acts, erase_range. rewrite <- (take_drop k1 cells) in Ho.
    rewrite (erase_loop_past _ _ _ _ _ _ b _ Ho); [done| |done].
    rewrite (own_length _ _ _ _ _ Ho), take_drop, length_drop. lia.
Qed.

Lemma fill_refines i k new :
  simulates all lost (run (Assign i k new) s) (says (Assign i k new) (abs s)).
Proof.
  one_list (@assign_does T). intros HQ.
  replace (length free + length cells.*2)%nat with (length (rev cells.*1 ++ free))
    by (rewrite length_app, length_rev, !length_fmap; lia).
  exact (f_equal Ok (put_inserted _ _ _ _ _ _ _ HQ)).
Qed.

Lemma assign_range_refines i new :
  simulates all lost (run (AssignRange i new) s) (says (AssignRange i new) (abs s)).
Proof.
  one_list (@assign_range_does T). intros HQ.
  replace (length free + length cells.*2)%nat with (length (rev cells.*1 ++ free))
    by (rewrite length_app, length_rev, !length_fmap; lia).
  exact (f_equal Ok (put_inserted _ _ _ _ _ _ _ HQ)).
Qed.

Lemma push_back_refines i x : simulates all lost (run (PushBack i x) s) (says (PushBack i x) (abs s)).
Proof. one_list (@push_back_does T). intros HQ. by rewrite <- (put_inserted _ _ _ _ _ _ _ HQ). Qed.

Lemma push_front_refines i x : simulates all lost (run (PushFront i x) s) (says (PushFront i x) (abs s)).
Proof. one_list (@push_front_does T). intros HQ. by rewrite <- (put_inserted _ _ _ _ _ _ _ HQ). Qed.

Lemma map_removelast {A B} (f : A -> B) l : f <$> removelast l = removelast (f <$> l).
Proof. induction l as [|x [|y l] IH]; [done..|]. change (f x :: (f <$> removelast (y :: l)) = f x :: removelast (f <$> y :: l)). by rewrite IH. Qed.

Lemma pop_refines i :
  simulates all lost (run (PopBack i) s) (says (PopBack i) (abs s)) /\
  simulates all lost (run (PopFront i) s) (says (PopFront i) (abs s)).
Proof.
  split.
  - one_list (@pop_back_does T). intros (-> & -> & ->). rewrite map_removelast.
    destruct cells as [|x cells _] using rev_ind; [counted|]. rewrite last_snoc. counted.
  - one_list (@pop_front_does T). intros (-> & -> & ->). destruct cells; counted.
Qed.

Lemma remove_refines i pred :
  simulates all lost (run (RemoveIf i pred) s) (says (RemoveIf i pred) (abs s)).
Proof.
  one_list (@remove_if_does T). intros (-> & -> & ->). rewrite (filter_values (fun x => negb (pred x))).
  rewrite <- (filter_values pred). counted.
Qed.

Lemma remove_value_refines i x : simulates all lost (run (Remove i x) s) (says (Remove i x) (abs s)).
Proof. apply (remove_refines i (eqb x)). Qed.

Lemma resize_refines i k x : simulates all lost (run (Resize i k x) s) (says (Resize i k x) (abs s)).
Proof.
  one_list (@resize_does T). rewrite length_fmap. destruct (Nat.leb_spec k (length cells)).
  - intros (-> & -> & ->). rewrite fmap_take, length_app, length_rev, length_fmap, length_drop. simpl. do 2 f_equal. lia.
  - intros HQ. by rewrite <- (put_inserted _ _ _ _ _ _ _ HQ).
Qed.

Lemma uniq_count {A} (pred : A -> A -> bool) x l : (length (uniq pred x l) + length (repeated pred x l) = length l)%nat.
Proof.
  revert x. induction l as [|y l IH]; intros x; [done|]. simpl. destruct (pred x y); simpl; [specialize (IH x)|specialize (IH y)]; lia.
Qed.

Lemma unique_refines i pred : simulates all lost (run (Unique i pred) s) (says (Unique i pred) (abs s)).
Proof.
  one_list (@unique_does T). intros (-> & -> & ->). rewrite <- unique_of_values, !length_fmap.
  destruct cells as [|x cells]; [counted|]. pose proof (uniq_count (on_items pred) x cells). cbn [unique_of]. counted.
Qed.

Lemma sort_refines i func : simulates all lost (run (Sort i func) s) (says (Sort i func) (abs s)).
Proof. one_list (@sort_does T). intros (-> & -> & ->). by rewrite sort_values. Qed.

Lemma reverse_refines i : simulates all lost (run (Reverse i) s) (says (Reverse i) (abs s)).
Proof. one_list (@reverse_does T). intros (-> & -> & ->). by rewrite <- map_rev. Qed.

Lemma access_refines i :
  simulates all lost (run (Front i) s) (says (Front i) (abs s)) /\
  simulates all lost (run (Back i) s) (says (Back i) (abs s)) /\
  simulates all lost (run (Empty i) s) (says (Empty i) (abs s)).
Proof.
  split; [|split]; (eapply on_simulates; [exact Hs|]); intros n l cells free Ho.
  - pose proof (reads_steps n s.(mem) l cells free (fun m this => Value <$> front m this) (Value <$> of_option (head cells.*2)) Ho) as H.
    cbv beta in H. rewrite (front_ok _ _ _ _ _ Ho) in H. destruct (head cells.*2); by apply H.
  - pose proof (reads_steps n s.(mem) l cells free (fun m this => Value <$> back m this) (Value <$> of_option (last cells.*2)) Ho) as H.
    cbv beta in H. rewrite (back_ok _ _ _ _ _ Ho) in H. destruct (last cells.*2); by apply H.
  - apply (reads_steps n s.(mem) l cells free _ (Ok (Flag (bool_decide (cells.*2 = []))))); [done| |done].
    rewrite (empty_ok _ _ _ _ _ Ho). by destruct cells.
Qed.

Lemma make_refines i p : simulates all lost (run (Make i p) s) (says (Make i p) (abs s)).
Proof.
  apply (construct_simulates all lost s i p (act_ret tt) []); [done|]. intros n free Ho.
  apply does_here; [done|]. exists []. by rewrite take_nil.
Qed.

Lemma make_n_refines i p k x : simulates all lost (run (MakeN i p k x) s) (says (MakeN i p k x) (abs s)).
Proof. eapply construct_simulates; [exact Hs|]. intros n free Ho. by apply make_n_does. Qed.

Lemma make_range_refines i p new : simulates all lost (run (MakeRange i p new) s) (says (MakeRange i p new) (abs s)).
Proof. eapply construct_simulates; [exact Hs|]. intros n free Ho. by apply insert_begin_does. Qed.

Lemma copy_refines i j : simulates all lost (run (Copy i j) s) (says (Copy i j) (abs s)).
Proof.
  cbn [run_step spec_step]. rewrite abs_list. destruct (s.(lists) !! j) as [x|] eqn:Hj; [|done].
  destruct (sys_own _ _ _ Hs _ _ Hj) as (cells & free & Ho). cbn [fmap option_fmap option_map of_option]. rewrite !bind_ok.
  rewrite (own_values _ _ _ _ _ Ho).
  pose proof (construct_simulates all lost s i x.(p_pool_) (fun m this => insert_range (begin this) cells.*2 m this) cells.*2 Hs
    (fun n free Hm => insert_begin_does n _ _ free _ Hm)) as H.
  unfold run_new in *. by rewrite (copy_values _ _ _ _ _ _ Hj Ho).
Qed.

Lemma destroy_refines i : simulates all lost (run (Destroy i) s) (says (Destroy i) (abs s)).
Proof.
  cbn [run_step spec_step]. destruct (s.(lists) !! i) as [l|] eqn:Hi; [|by rewrite abs_list, Hi].
  destruct (destroy_sys _ _ _ _ _ Hs Hi) as (m' & r & v & Hd & Hs' & Hv & Hr & Ha).
  rewrite Hv. cbn [of_option]. rewrite !bind_ok, Hr, Hd. cbn [of_option]. rewrite !bind_ok.
  eexists _, lost. by split_and!.
Qed.

Lemma cells_values (m : memory) l (cs : list cell) :
  Forall (fun c => m.(objects) !! c.1 = Some c.2) cs -> list_values m (with_active cs.*1 l) = cs.*2.
Proof.
  unfold list_values. simpl. induction 1 as [|[a v] cs Hc _ IH]; [done|]. rewrite !fmap_cons, omap_cons. simpl in *.
  rewrite Hc. by f_equal.
Qed.

(** The nodes of two lists of one pool, in another order. *)
Lemma one_pool (li lj : t) (ci cj cs : list cell) p :
  li.(p_pool_) = lj.(p_pool_) -> li.(active_list_) = ci.*1 -> lj.(active_list_) = cj.*1 -> cs ≡ₚ ci ++ cj ->
  held_of p (with_active cs.*1 li) ++ held_of p (with_active [] lj) ≡ₚ held_of p li ++ held_of p lj.
Proof.
  intros Ep Ei Ej Hp. unfold held_of, with_active. simpl. rewrite <- Ep, Ei, Ej.
  destruct (_ =? _); [|done]. by rewrite app_nil_r, Hp, fmap_app.
Qed.

Lemma merge_refines i j func : simulates all lost (run (Merge i j func) s) (says (Merge i j func) (abs s)).
Proof.
  eapply two_simulates; [exact Hs|]. intros li lj n ci cj free Hne Hi Hj Ho Hvj Haj Hoj. cbn [fst snd].
  unfold takes, merge. destruct (Z.eqb_spec li.(p_pool_) lj.(p_pool_)) as [E|]; [|done]. cbn [CHECK_CONDITION]. rewrite !bind_ok.
  rewrite (own_items _ _ _ _ _ Ho), Haj, (items_ok _ _ Hoj), !bind_ok.
  eexists _, _. split; [reflexivity|]. split; [|split; [by left|split; [by right|split; [|done]]]].
  - intros p. eapply one_pool; [done|exact (ow_active _ _ _ _ _ Ho)|done|apply std_merge_perm].
  - rewrite cells_values, merge_values; [done|]. rewrite std_merge_perm. apply Forall_app. split; [apply Ho|done].
Qed.

Lemma splice_refines i k j : simulates all lost (run (Splice i k j) s) (says (Splice i k j) (abs s)).
Proof.
  eapply two_simulates; [exact Hs|]. intros li lj n ci cj free Hne Hi Hj Ho Hvj Haj Hoj. cbn [fst snd].
  rewrite (place_ok _ _ _ _ _ _ Ho). unfold cut. rewrite length_fmap. destruct (Nat.leb_spec k (length ci)) as [Hk|]; [|done].
  rewrite !bind_ok. unfold takes, splice. destruct (Z.eqb_spec li.(p_pool_) lj.(p_pool_)) as [E|]; [|done].
  cbn [CHECK_CONDITION]. rewrite !bind_ok, (ow_active _ _ _ _ _ Ho), Haj.
  pose proof (splice_before_at (take k ci).*1 (drop k ci).*1 cj.*1) as H. rewrite <- fmap_app, take_drop in H.
  rewrite H by exact (own_nodup_active _ _ _ _ _ Ho). rewrite bind_ok, <- !fmap_app.
  eexists _, _. split; [reflexivity|]. split; [|split; [by left|split; [by right|split; [|done]]]].
  - intros p. eapply one_pool; [done|exact (ow_active _ _ _ _ _ Ho)|done|].
    rewrite <- (take_drop k ci) at 3. rewrite <- app_assoc. apply Permutation_app_head, Permutation_app_comm.
  - pose proof (ow_objects _ _ _ _ _ Ho) as Hoi. rewrite <- (take_drop k ci) in Hoi. apply Forall_app in Hoi as [Ht Hd].
    rewrite cells_values by (rewrite !Forall_app; done). by rewrite !fmap_app, !fmap_take, !fmap_drop.
Qed.

Lemma swap_refines i j : simulates all lost (run (Swap i j) s) (says (Swap i j) (abs s)).
Proof.
  eapply two_simulates; [exact Hs|]. intros li lj n ci cj free Hne Hi Hj Ho Hvj Haj Hoj.
  eexists _, _. split; [reflexivity|]. split; [intros p; apply Permutation_app_comm|].
  split; [by right|]. split; [by left|]. pose proof (own_values _ _ _ _ _ Ho) as Hvi.
  split; [exact (f_equal _ (eq_sym Hvj))|exact (f_equal _ (eq_sym Hvi))].
Qed.

(** The assignment behaves up to the end of its body, where there is no
    [return]. *)
Lemma assign_operator_refines i j :
  simulates all lost (run (OperatorAssign i j) s) (says (OperatorAssign i j) (abs s)).
Proof.
  cbn [run_step spec_step]. rewrite !abs_list. destruct (s.(lists) !! i) as [this|] eqn:Hi; [|done].
  destruct (s.(lists) !! j) as [x|] eqn:Hj; [|done]. cbn [fmap option_fmap option_map of_option]. rewrite !bind_ok.
  destruct (sys_own _ _ _ Hs _ _ Hj) as (cells & free & Ho). pose proof (abs_own _ _ _ _ _ _ Hj Ho) as [_ Hr].
  rewrite Hr. cbn [of_option]. rewrite bind_ok, (own_values _ _ _ _ _ Ho).
  set (k := fresh (dom s.(lists))). assert (s.(lists) !! k = None) as Hk by (apply not_elem_of_dom, is_fresh).
  unfold operator_assign, act_bind, assign_body. rewrite (copy_values _ _ _ _ _ _ Hj Ho).
  destruct (construct_sys _ _ _ k _ _ (fun m this => insert_range (begin this) cells.*2 m this) cells.*2 Hs Hk (ow_pool _ _ _ _ _ Ho)
    (fun n free Hm => insert_begin_does n _ _ free _ Hm)) as (o & m & Hc & Hif). rewrite Hc, bind_ok. cbn [free_list_] in Hif.
  destruct (length cells.*2 <=? length free)%nat.
  - destruct Hif as (c & -> & _ & Hs1 & _). assert (k <> i) as Hne by (intros ->; by rewrite Hk in Hi).
    destruct (destroy_sys _ _ (System m (<[k := c]> s.(lists))) i this Hs1) as (m' & r & v & Hd & _).
    { rewrite <- Hi. by apply lookup_insert_ne. }
    simpl in *. replace (PooledList this.(active_list_) this.(p_pool_)) with this by by destruct this. by rewrite Hd.
  - destruct Hif as (-> & lost' & Hs' & Ha). rewrite bind_ok. cbn [simulates].
    eexists _, lost'. split; [reflexivity|]. rewrite insert_id by done. by split_and!.
Qed.

(** One command. *)
Lemma remaining_refines p : simulates all lost (run (Remaining p) s) (says (Remaining p) (abs s)).
Proof.
  cbn [run_step spec_step]. rewrite abs_room. destruct (s.(mem).(pools) !! p) as [q|]; [|done].
  eexists s, lost. by split_and!.
Qed.

Lemma step_refines c : simulates all lost (run c s) (says c (abs s)).
Proof.
  destruct c; eauto using make_refines, make_n_refines, make_range_refines, copy_refines, destroy_refines,
    insert_refines, insert_n_refines, insert_range_refines, erase_refines, erase_range_refines, fill_refines,
    assign_range_refines, remove_refines, remove_value_refines, resize_refines, unique_refines, merge_refines,
    splice_refines, swap_refines, assign_operator_refines, remaining_refines, push_back_refines, push_front_refines,
    sort_refines, reverse_refines;
    try apply pop_refines; try apply access_refines.
  - eapply on_simulates; [exact Hs|]. intros n l cells free Ho. eapply acts_steps; [by apply clear_does|].
    intros o c f (-> & -> & ->). counted.
  - eapply compare_simulates; [exact Hs|]. apply equal_compares.
  - eapply compare_simulates; [exact Hs|]. apply on_copies_compares, negated_compares, equal_compares.
  - eapply compare_simulates; [exact Hs|]. apply less_compares.
  - eapply compare_simulates; [exact Hs|]. apply greater_compares.
  - eapply compare_simulates; [exact Hs|]. apply on_copies_compares, negated_compares, greater_compares.
  - eapply compare_simulates; [exact Hs|]. apply on_copies_compares, negated_compares, less_compares.
Qed.

End commands.
End system.
