(* ===== verification/PooledListPrograms.v ===== *)
(** Whole programs over util/pooled_list.hpp: what they see, what becomes of
    the blocks of the pools, and what a comparison costs. *)
From stdpp Require Import list gmap.
From S2P Require Import Prelude PooledList PooledListOps PooledListSpec PooledListRefines.

Import pooled_list.

Section programs.
Context {T : Type} (eqb ltb : T -> T -> bool) (left_first : bool).
Abbreviation system := (PooledListRefines.system (T := T)).
Abbreviation spec := (PooledListSpec.spec (T := T)).

(** The answers of a program, one for every command. *)
Fixpoint runs_to {S} (step : command T -> S -> res (answer T * S)) (cs : list (command T)) (s : S)
    : res (list (answer T) * S) :=
  match cs with
  | [] => Ok ([], s)
  | c :: cs => '(x, s) ← step c s; '(xs, s) ← runs_to step cs s; Ok (x :: xs, s)
  end.

Definition run_all : list (command T) -> system -> res (list (answer T) * system) :=
  runs_to (run_step eqb ltb left_first).
Definition spec_all : list (command T) -> spec -> res (list (answer T) * spec) :=
  runs_to (spec_step eqb ltb left_first).

(** Pools that were just made, of blocks [all] that are all different. *)
Record fresh_pools (all : Z -> list Z) (s : system) : Prop := {
  fp_pools p q : s.(mem).(pools) !! p = Some q -> exists n new_block, q = make_pool n new_block /\ all p = map new_block (seq 0 n);
  fp_objects : s.(mem).(objects) = ∅;
  fp_lists : s.(lists) = ∅;
  fp_nodup p : NoDup (all p);
  fp_apart p p' a : a ∈ all p -> a ∈ all p' -> p = p'
}.

Lemma fresh_ok all s : fresh_pools all s -> sys_ok all s (fun _ => []).
Proof.
  intros [Hp Ho Hl Hn Ha]. constructor; try done.
  - intros p q Hq. destruct (Hp p q Hq) as (n & f & -> & ->). rewrite Hl. unfold make_pool, held_by. simpl.
    rewrite map_to_list_empty, !app_nil_r, length_map, length_seq. done.
  - intros i l. by rewrite Hl, lookup_empty.
  - intros i l. by rewrite Hl, lookup_empty.
  - intros p q Hq. apply Forall_forall. intros a _. by rewrite Ho, lookup_empty.
Qed.

(** What a program leaves: the lists and the rooms are those of the promise,
    and blocks are lost by constructors that throw only. *)
Definition leaves (all : Z -> list Z) (xs : list (answer T)) (a : spec) (s : system) (lost : Z -> list Z) : Prop :=
  abs s = a /\ sys_ok all s lost /\ (Thrown ∉ xs -> forall p, lost p = []).

Lemma run_refines all cs : forall s lost,
  sys_ok all s lost ->
  match spec_all cs (abs s) with
  | Ok (xs, a) => exists s' lost', run_all cs s = Ok (xs, s') /\ abs s' = a /\ sys_ok all s' lost' /\
      (Thrown ∉ xs -> lost' = lost)
  | Aborted => run_all cs s = Aborted
  | Undef => run_all cs s = Undef
  | NoFuel => False
  end.
Proof.
  unfold run_all, spec_all. induction cs as [|c cs IH]; intros s lost Hs; cbn [runs_to]; [by exists s, lost|].
  pose proof (step_refines eqb ltb left_first _ _ _ Hs c) as Hc. unfold simulates in Hc.
  destruct (spec_step _ _ _ c (abs s)) as [[x a]| | |]; [|by rewrite Hc..|done].
  destruct Hc as (s1 & lost1 & -> & Hs1 & <- & Hl1). rewrite !bind_ok. specialize (IH s1 lost1 Hs1).
  destruct (runs_to _ cs (abs s1)) as [[xs a]| | |]; [|by rewrite IH..|done].
  destruct IH as (s2 & lost2 & -> & Ha & Hs2 & Hl2). rewrite !bind_ok. exists s2, lost2.
  split_and!; try done. intros Hn. apply not_elem_of_cons in Hn as [Hx Hn].
  rewrite Hl2 by done. apply Hl1. congruence.
Qed.

Lemma program_leaves all cs s :
  fresh_pools all s ->
  match spec_all cs (abs s) with
  | Ok (xs, a) => exists s' lost, run_all cs s = Ok (xs, s') /\ leaves all xs a s' lost
  | Aborted => run_all cs s = Aborted
  | Undef => run_all cs s = Undef
  | NoFuel => False
  end.
Proof.
  intros Hf. pose proof (run_refines all cs s _ (fresh_ok _ _ Hf)) as Hr.
  destruct (spec_all cs (abs s)) as [[xs a]| | |]; try done.
  destruct Hr as (s' & lost & Hr & Ha & Hs & Hl). exists s', lost. split; [done|]. split; [done|]. split; [done|].
  intros Hn p. by rewrite Hl.
Qed.

(** The lists of a pool, together. *)
Lemma held_by_length p ls i l : ls !! i = Some l -> l.(p_pool_) = p ->
  (length l.(active_list_) <= length (held_by p ls))%nat.
Proof.
  intros Hi Hp. rewrite (held_by_delete p _ _ _ Hi). unfold held_of. rewrite Hp, Z.eqb_refl, length_app. lia.
Qed.

Lemma held_by_nodup p ls i j li lj a : NoDup (held_by p ls) -> ls !! i = Some li -> ls !! j = Some lj ->
  li.(p_pool_) = p -> lj.(p_pool_) = p -> a ∈ li.(active_list_) -> a ∈ lj.(active_list_) -> i = j.
Proof.
  intros Hnd Hi Hj Hpi Hpj Hai Haj. destruct (decide (i = j)) as [|Hne]; [done|].
  assert (delete i ls !! j = Some lj) as Hj' by by rewrite lookup_delete_ne.
  rewrite (held_by_delete p _ _ _ Hi), (held_by_delete p _ _ _ Hj') in Hnd. unfold held_of in Hnd.
  rewrite Hpi, Hpj, Z.eqb_refl in Hnd. apply NoDup_app in Hnd as (_ & Hd & _). exfalso. apply (Hd a); [done|].
  apply elem_of_app. by left.
Qed.

End programs.

(** The size of the operand that is copied first. *)
Definition first_copy (left_first : bool) (l r : nat) : nat := if left_first then l else r.

(** * Properties *)

(** C11: a program that works on pooled lists sees what it would see with
    plain sequences of values and pools that have room for a number of
    elements.  For every program over any lists and pools, every answer is the
    promised one, positions, values, comparisons and exceptions included; the
    lists end with the promised values; and the program aborts or is undefined
    exactly where the promise says so. *)
Theorem pooled_lists_as_promised {T} (eqb ltb : T -> T -> bool) (left_first : bool) all cs (s : system) :
  fresh_pools all s ->
  match spec_all eqb ltb left_first cs (abs s) with
  | Ok (xs, a) => exists s', run_all eqb ltb left_first cs s = Ok (xs, s') /\ abs s' = a
  | Aborted => run_all eqb ltb left_first cs s = Aborted
  | Undef => run_all eqb ltb left_first cs s = Undef
  | NoFuel => False
  end.
Proof.
  intros Hf. pose proof (program_leaves eqb ltb left_first all cs s Hf) as Hp.
  destruct (spec_all _ _ _ cs (abs s)) as [[xs a]| | |]; try done.
  destruct Hp as (s' & lost & Hr & Ha & _). by exists s'.
Qed.

(** C34: the blocks of a pool are never shared, and their number bounds its
    lists.  After every program, a block is free or held by one list or lost,
    the objects of the lists are the ones that are constructed in their
    blocks, no list is longer than [max_size], and as long as nothing was
    thrown the elements that remain and the sizes of the pool's lists add up
    to [max_size]. *)
Theorem pool_blocks_bounded {T} (eqb ltb : T -> T -> bool) (left_first : bool) all cs (s s' : system) xs :
  fresh_pools all s -> run_all eqb ltb left_first cs s = Ok (xs, s') ->
  (forall p q, s'.(mem).(pools) !! p = Some q ->
     NoDup (q.(free_list_) ++ held_by p s'.(lists)) /\
     elements_remaining q + Z.of_nat (length (held_by p s'.(lists))) <= pool_max_size q /\
     (Thrown ∉ xs -> elements_remaining q + Z.of_nat (length (held_by p s'.(lists))) = pool_max_size q)) /\
  forall i l, s'.(lists) !! i = Some l ->
    Forall (fun a => is_Some (s'.(mem).(objects) !! a)) l.(active_list_) /\
    (exists n, max_size s'.(mem) l = Ok n /\ Z.of_nat (length l.(active_list_)) <= n) /\
    forall j l' a, s'.(lists) !! j = Some l' -> l'.(p_pool_) = l.(p_pool_) ->
      a ∈ l.(active_list_) -> a ∈ l'.(active_list_) -> i = j.
Proof.
  intros Hf Hr. pose proof (program_leaves eqb ltb left_first all cs s Hf) as Hp. rewrite Hr in Hp.
  destruct (spec_all _ _ _ cs (abs s)) as [[ys a]| | |]; [|done..].
  destruct Hp as (s2 & lost & [= -> <-] & _ & Hs & Hl).
  assert (forall p q, s'.(mem).(pools) !! p = Some q -> NoDup (q.(free_list_) ++ held_by p s'.(lists)) /\
    elements_remaining q + Z.of_nat (length (held_by p s'.(lists)) + length (lost p)) = pool_max_size q) as Hq.
  { intros p q Hq. pose proof (sys_pool_nodup _ _ _ Hs _ _ Hq) as Hnd. destruct (so_pool _ _ _ Hs _ _ Hq) as [E Hn].
    split; [rewrite app_assoc in Hnd; by apply NoDup_app in Hnd as [Hnd _]|].
    unfold elements_remaining, pool_max_size. rewrite Hn, <- E, !length_app. lia. }
  split.
  - intros p q Hpq. destruct (Hq p q Hpq) as [Hnd Hn]. split; [done|]. split; [lia|].
    intros Ht. rewrite (Hl Ht p) in Hn. simpl in Hn. lia.
  - intros i l Hi. destruct (so_list _ _ _ Hs _ _ Hi) as [q Hpq]. destruct (Hq _ q Hpq) as [Hnd Hn].
    split; [exact (so_objects _ _ _ Hs _ _ Hi)|]. split.
    + exists (pool_max_size q). unfold max_size. rewrite Hpq. split; [done|].
      pose proof (held_by_length _ _ _ _ Hi eq_refl). unfold elements_remaining in Hn. lia.
    + intros j l' b Hj Hp Hb Hb'. apply NoDup_app in Hnd as (_ & _ & Hnd). by eapply held_by_nodup.
Qed.


(** ** A pool of four blocks *)

Definition sample_block (i : nat) : Z := 100 + Z.of_nat i.
Definition sample_pools : system (T := Z) := System (Memory ∅ {[7 := make_pool 4 sample_block]}) ∅.
Definition sample_blocks (p : Z) : list Z := if p =? 7 then map sample_block (seq 0 4) else [].

Lemma sample_fresh : fresh_pools sample_blocks sample_pools.
Proof.
  constructor; try done.
  - intros p q Hq. change (({[7 := make_pool 4 sample_block]} : gmap Z pool) !! p = Some q) in Hq.
    apply lookup_singleton_Some in Hq as [<- <-]. by exists 4%nat, sample_block.
  - intros p. unfold sample_blocks. destruct (p =? 7); [|by apply NoDup_nil]. apply NoDup_ListNoDup.
    repeat apply List.NoDup_cons; try apply List.NoDup_nil; unfold sample_block; cbn; lia.
  - intros p p' a. unfold sample_blocks. destruct (Z.eqb_spec p 7), (Z.eqb_spec p' 7); subst; [done|set_solver..].
Qed.

(** Two lists, a comparison that fits, one that does not, and one that finds
    nothing left. *)
Definition sample_program : list (command Z) :=
  [Make 0 7; PushBack 0 5; Make 1 7; PushBack 1 3; Equal 0 1; PushFront 1 2; Splice 0 0 1; Sort 0 Z.ltb;
   Insert 0 1 9; Front 0; Less 0 0; Remaining 7; PushBack 1 1].

Definition sample_answers : list (answer Z) :=
  [Done; Done; Done; Done; Flag false; Done; Done; Done; At 1; Value 2; Thrown; Number 0; Thrown].

Lemma pooled_lists_as_promised_witness :
  exists s', run_all Z.eqb Z.ltb true sample_program sample_pools = Ok (sample_answers, s').
Proof.
  pose proof (pooled_lists_as_promised Z.eqb Z.ltb true sample_blocks sample_program sample_pools sample_fresh) as H.
  destruct (spec_all Z.eqb Z.ltb true sample_program (abs sample_pools)) as [[xs a]| | |] eqn:E;
    try (vm_compute in E; discriminate).
  destruct H as (s' & Hr & _). exists s'. rewrite Hr. f_equal. f_equal. vm_compute in E. by injection E as <- _.
Defined.

Lemma pool_blocks_bounded_witness :
  exists s' q l, run_all Z.eqb Z.ltb true (take 9 sample_program) sample_pools = Ok (take 9 sample_answers, s') /\
    s'.(mem).(pools) !! 7 = Some q /\ elements_remaining q + Z.of_nat (length (held_by 7 s'.(lists))) = 4 /\
    s'.(lists) !! 0%nat = Some l /\ Z.of_nat (length l.(active_list_)) = 4.
Proof.
  destruct (run_all Z.eqb Z.ltb true (take 9 sample_program) sample_pools) as [[xs s']| | |] eqn:E;
    [|vm_compute in E; discriminate..].
  destruct (pool_blocks_bounded Z.eqb Z.ltb true sample_blocks _ sample_pools s' xs sample_fresh E) as [H _].
  vm_compute in E. injection E as <- <-. do 3 eexists. split; [reflexivity|]. split; [reflexivity|].
  split; [|by split]. by vm_compute.
Defined.

(** Three elements in the lists, and room for one. *)
Definition sample_lists : res (list (answer Z) * system (T := Z)) :=
  run_all Z.eqb Z.ltb true (take 6 sample_program) sample_pools.

