(* ===== verification/BlockingQueue.v ===== *)
(** The queue between threads, util/queue.cpp: a bounded list under a mutex,
    with a semaphore that counts its free places and one that counts its
    items.  The calls are written down as the code has them; a step of the
    program is one call of the threads library, or one access to the list, by
    any of the threads. *)
From stdpp Require Import list relations.
From S2P Require Import Prelude.

(** * The calls *)
Module queue.

Inductive semaphore := full_ | empty_.

(** What a thread has still to do.  [SemWait] is the loop around [sem_wait],
    which is left with whether [ret_val != -1]. *)
Inductive program :=
  | Return (value : Z)
  | SemWait (s : semaphore) (k : bool -> program)
  | SemPost (s : semaphore) (k : program)
  | Lock (k : program)
  | Unlock (k : program)
  | ReadList (k : list Z -> program)
  | WriteList (f : list Z -> list Z) (k : program)
  | Check (b : bool) (k : program)
  | Undefined.

Definition dequeue : program :=
  SemWait empty_ (fun ok =>
  Check ok (
  Lock (
  ReadList (fun list_ =>
  Check (negb (bool_decide (list_ = []))) (
  match list_ with
  | [] => Undefined
  | item :: _ =>
      Check (negb (item =? 0)) (
      WriteList tail (
      Unlock (
      SemPost full_ (
      Return item))))
  end))))).

Definition enqueue (p_item : Z) : program :=
  Check (negb (p_item =? 0)) (
  SemWait full_ (fun ok =>
  Check ok (
  Lock (
  WriteList (fun list_ => list_ ++ [p_item]) (
  Unlock (
  SemPost empty_ (
  Return 0))))))).

Definition depth : program :=
  Lock (
  ReadList (fun list_ =>
  Unlock (
  Return (u32 (s32 (Z.of_nat (length list_))))))).

(** The members. *)
Record t := Queue {
  full_value : Z;
  empty_value : Z;
  queue_mutex_ : option nat;
  list_ : list Z
}.

(** The greatest value of a semaphore, [SEM_VALUE_MAX] of glibc. *)
Definition SEM_VALUE_MAX : Z := 2 ^ 31 - 1.

(** The constructor: [sem_init] refuses a value that is too large.  An error
    of [pthread_mutex_init] is a positive number, which the check accepts. *)
Definition make (size : Z) : res t :=
  _ ← CHECK_CONDITION (size <=? SEM_VALUE_MAX);
  Ok (Queue size 0 None []).

Definition value (s : semaphore) (q : t) : Z := match s with full_ => q.(full_value) | empty_ => q.(empty_value) end.
Definition set_value (s : semaphore) (v : Z) (q : t) : t :=
  match s with
  | full_ => Queue v q.(empty_value) q.(queue_mutex_) q.(list_)
  | empty_ => Queue q.(full_value) v q.(queue_mutex_) q.(list_)
  end.
Definition set_mutex (m : option nat) (q : t) : t := Queue q.(full_value) q.(empty_value) m q.(list_).
Definition set_list (l : list Z) (q : t) : t := Queue q.(full_value) q.(empty_value) q.(queue_mutex_) l.

(** [sem_post] fails when the value is the greatest; the code does not look. *)
Definition post (s : semaphore) (q : t) : t :=
  if value s q <? SEM_VALUE_MAX then set_value s (value s q + 1) q else q.

(** * The threads *)

Inductive call := Enqueue (p_item : Z) | Dequeue | Depth.

Definition body (c : call) : program :=
  match c with Enqueue p_item => enqueue p_item | Dequeue => dequeue | Depth => depth end.

Inductive thread := Idle | Runs (c : call) (p : program).

(** The program goes on, was aborted by a check, or is undefined. *)
Inductive fate := Running | IsAborted | IsUndefined.

Record world := World { the_queue : t; threads : list thread; fate_ : fate }.

(** What a step was; [Wrote] has the list as it was before. *)
Inductive event :=
  | Called (i : nat) (c : call)
  | Returned (i : nat) (c : call) (value : Z)
  | Wrote (i : nat) (c : call) (before : list Z)
  | Interrupted (i : nat)
  | Moved (i : nat).

Definition go (i : nat) (c : call) (p : program) (q : t) (w : world) : world :=
  World q (<[i := Runs c p]> w.(threads)) w.(fate_).
Definition ends (f : fate) (w : world) : world := World w.(the_queue) w.(threads) f.

(** The steps of thread [i].  The list may be touched by the owner of the
    mutex only, and only the owner may unlock it. *)
Inductive step (w : world) : event -> world -> Prop :=
  | step_call i c :
      w.(fate_) = Running -> w.(threads) !! i = Some Idle ->
      step w (Called i c) (go i c (body c) w.(the_queue) w)
  | step_return i c v :
      w.(fate_) = Running -> w.(threads) !! i = Some (Runs c (Return v)) ->
      step w (Returned i c v) (World w.(the_queue) (<[i := Idle]> w.(threads)) Running)
  | step_wait i c s k :
      w.(fate_) = Running -> w.(threads) !! i = Some (Runs c (SemWait s k)) -> 0 < value s w.(the_queue) ->
      step w (Moved i) (go i c (k true) (set_value s (value s w.(the_queue) - 1) w.(the_queue)) w)
  | step_interrupted i c s k :
      w.(fate_) = Running -> w.(threads) !! i = Some (Runs c (SemWait s k)) ->
      step w (Interrupted i) w
  | step_post i c s k :
      w.(fate_) = Running -> w.(threads) !! i = Some (Runs c (SemPost s k)) ->
      step w (Moved i) (go i c k (post s w.(the_queue)) w)
  | step_lock i c k :
      w.(fate_) = Running -> w.(threads) !! i = Some (Runs c (Lock k)) -> w.(the_queue).(queue_mutex_) = None ->
      step w (Moved i) (go i c k (set_mutex (Some i) w.(the_queue)) w)
  | step_unlock i c k :
      w.(fate_) = Running -> w.(threads) !! i = Some (Runs c (Unlock k)) -> w.(the_queue).(queue_mutex_) = Some i ->
      step w (Moved i) (go i c k (set_mutex None w.(the_queue)) w)
  | step_unlock_other i c k :
      w.(fate_) = Running -> w.(threads) !! i = Some (Runs c (Unlock k)) -> w.(the_queue).(queue_mutex_) <> Some i ->
      step w (Moved i) (ends IsUndefined w)
  | step_read i c k :
      w.(fate_) = Running -> w.(threads) !! i = Some (Runs c (ReadList k)) -> w.(the_queue).(queue_mutex_) = Some i ->
      step w (Moved i) (go i c (k w.(the_queue).(list_)) w.(the_queue) w)
  | step_write i c f k :
      w.(fate_) = Running -> w.(threads) !! i = Some (Runs c (WriteList f k)) -> w.(the_queue).(queue_mutex_) = Some i ->
      step w (Wrote i c w.(the_queue).(list_)) (go i c k (set_list (f w.(the_queue).(list_)) w.(the_queue)) w)
  | step_race i c p :
      w.(fate_) = Running -> w.(threads) !! i = Some (Runs c p) -> w.(the_queue).(queue_mutex_) <> Some i ->
      match p with ReadList _ | WriteList _ _ => True | _ => False end ->
      step w (Moved i) (ends IsUndefined w)
  | step_check i c (b : bool) k :
      w.(fate_) = Running -> w.(threads) !! i = Some (Runs c (Check b k)) ->
      step w (Moved i) (if b then go i c k w.(the_queue) w else ends IsAborted w)
  | step_undefined i c :
      w.(fate_) = Running -> w.(threads) !! i = Some (Runs c Undefined) ->
      step w (Moved i) (ends IsUndefined w).

(** The events of a run, the first first. *)
Inductive run (w : world) : list event -> world -> Prop :=
  | run_nil : run w [] w
  | run_snoc es w1 e w2 : run w es w1 -> step w1 e w2 -> run w (es ++ [e]) w2.

(** Threads that do nothing yet. *)
Definition start (q : t) (n : nat) : world := World q (replicate n Idle) Running.

(** ** What a run did *)

(** What an event asks to put, puts into the list, takes out of it and
    answers. *)
Definition asked_of (e : event) : list Z := match e with Called _ (Enqueue x) => [x] | _ => [] end.
Definition put_of (e : event) : list Z := match e with Wrote _ (Enqueue x) _ => [x] | _ => [] end.
Definition taken_of (e : event) : list Z := match e with Wrote _ Dequeue (x :: _) => [x] | _ => [] end.
Definition answer_of (e : event) : list Z := match e with Returned _ Dequeue x => [x] | _ => [] end.
Definition who (e : event) : nat := match e with Called i _ | Returned i _ _ | Wrote i _ _ | Interrupted i | Moved i => i end.

(** All of them, in their order, and those of thread [i]. *)
Definition puts (es : list event) : list Z := es ≫= put_of.
Definition takes (es : list event) : list Z := es ≫= taken_of.
Definition of_thread (i : nat) (f : event -> list Z) (es : list event) : list Z :=
  es ≫= fun e => if decide (who e = i) then f e else [].

(** A thread goes on with its call, without a new one and without a signal. *)
Definition goes_on (e : event) : Prop := match e with Called _ _ | Interrupted _ => False | _ => True end.

(** ** A scheduler *)

(** The step of thread [i], when it has one and is not stopped in it. *)
Definition turn (w : world) (i : nat) : option (event * world) :=
  let q := w.(the_queue) in
  let owner := bool_decide (q.(queue_mutex_) = Some i) in
  match w.(fate_), w.(threads) !! i with
  | Running, Some (Runs c p) =>
      match p with
      | Return v => Some (Returned i c v, World q (<[i := Idle]> w.(threads)) Running)
      | SemWait s k =>
          if 0 <? value s q then Some (Moved i, go i c (k true) (set_value s (value s q - 1) q) w) else None
      | SemPost s k => Some (Moved i, go i c k (post s q) w)
      | Lock k => if bool_decide (q.(queue_mutex_) = None) then Some (Moved i, go i c k (set_mutex (Some i) q) w) else None
      | Unlock k => Some (Moved i, if owner then go i c k (set_mutex None q) w else ends IsUndefined w)
      | ReadList k => Some (Moved i, if owner then go i c (k q.(list_)) q w else ends IsUndefined w)
      | WriteList f k =>
          if owner then Some (Wrote i c q.(list_), go i c k (set_list (f q.(list_)) q) w) else Some (Moved i, ends IsUndefined w)
      | Check b k => Some (Moved i, if b then go i c k q w else ends IsAborted w)
      | Undefined => Some (Moved i, ends IsUndefined w)
      end
  | _, _ => None
  end.

(** Thread [i] makes a call, or a step. *)
Definition act (w : world) (a : nat * option call) : option (event * world) :=
  match a with
  | (i, Some c) =>
      match w.(fate_), w.(threads) !! i with
      | Running, Some Idle => Some (Called i c, go i c (body c) w.(the_queue) w)
      | _, _ => None
      end
  | (i, None) => turn w i
  end.

(** What happens when the threads are scheduled so; one that cannot go on is
    left out. *)
Fixpoint acts (w : world) (es : list event) (schedule : list (nat * option call)) : list event * world :=
  match schedule with
  | [] => (es, w)
  | a :: schedule =>
      match act w a with
      | Some (e, w') => acts w' (es ++ [e]) schedule
      | None => acts w es schedule
      end
  end.

End queue.

Import queue.

(** * Where a thread is *)

(** The points of the calls. *)
Inductive stage :=
  | idle
  | e_check (x : Z) | e_wait (x : Z) | e_passed (x : Z) | e_lock (x : Z) | e_push (x : Z)
  | e_unlock (x : Z) | e_post (x : Z) | e_return (x : Z)
  | d_wait | d_passed | d_lock | d_read | d_nonempty (l : list Z) | d_valid (x : Z) | d_pop (x : Z)
  | d_unlock (x : Z) | d_post (x : Z) | d_return (x : Z)
  | p_lock | p_read | p_unlock (v : Z) | p_return (v : Z).

(** What is left to do at them. *)
Definition pushed : program := Unlock (SemPost empty_ (Return 0)).
Definition push (x : Z) : program := WriteList (fun l => l ++ [x]) pushed.
Definition popped (x : Z) : program := Unlock (SemPost full_ (Return x)).
Definition pop (x : Z) : program := WriteList tail (popped x).
Definition valid (x : Z) : program := Check (negb (x =? 0)) (pop x).
Definition nonempty (l : list Z) : program :=
  Check (negb (bool_decide (l = []))) (match l with [] => Undefined | x :: _ => valid x end).
Definition measured (v : Z) : program := Unlock (Return v).

Definition thread_of (st : stage) : thread :=
  match st with
  | idle => Idle
  | e_check x => Runs (Enqueue x) (enqueue x)
  | e_wait x => Runs (Enqueue x) (SemWait full_ (fun ok => Check ok (Lock (push x))))
  | e_passed x => Runs (Enqueue x) (Check true (Lock (push x)))
  | e_lock x => Runs (Enqueue x) (Lock (push x))
  | e_push x => Runs (Enqueue x) (push x)
  | e_unlock x => Runs (Enqueue x) pushed
  | e_post x => Runs (Enqueue x) (SemPost empty_ (Return 0))
  | e_return x => Runs (Enqueue x) (Return 0)
  | d_wait => Runs Dequeue dequeue
  | d_passed => Runs Dequeue (Check true (Lock (ReadList nonempty)))
  | d_lock => Runs Dequeue (Lock (ReadList nonempty))
  | d_read => Runs Dequeue (ReadList nonempty)
  | d_nonempty l => Runs Dequeue (nonempty l)
  | d_valid x => Runs Dequeue (valid x)
  | d_pop x => Runs Dequeue (pop x)
  | d_unlock x => Runs Dequeue (popped x)
  | d_post x => Runs Dequeue (SemPost full_ (Return x))
  | d_return x => Runs Dequeue (Return x)
  | p_lock => Runs Depth depth
  | p_read => Runs Depth (ReadList (fun l => measured (u32 (s32 (Z.of_nat (length l))))))
  | p_unlock v => Runs Depth (measured v)
  | p_return v => Runs Depth (Return v)
  end.

(** The owner of the mutex is at one of these. *)
Definition owns (st : stage) : bool :=
  match st with
  | e_push _ | e_unlock _ | d_read | d_nonempty _ | d_valid _ | d_pop _ | d_unlock _ | p_read | p_unlock _ => true
  | _ => false
  end.

(** What a thread has of a semaphore: a free place it will fill or has made
    and not announced; an item it will take or has put and not announced. *)
Definition share (s : semaphore) (st : stage) : Z :=
  match s, st with
  | full_, (e_passed _ | e_lock _ | e_push _ | d_unlock _ | d_post _) => 1
  | empty_, (d_passed | d_lock | d_read | d_nonempty _ | d_valid _ | d_pop _ | e_unlock _ | e_post _) => 1
  | _, _ => 0
  end.

(** The item it has yet to put, the item it took and has yet to answer. *)
Definition to_put (st : stage) : list Z :=
  match st with e_check x | e_wait x | e_passed x | e_lock x | e_push x => [x] | _ => [] end.
Definition carries (st : stage) : list Z :=
  match st with d_unlock x | d_post x | d_return x => [x] | _ => [] end.

(** What a thread knows, of the list [l] while it owns the mutex. *)
Definition knows (size : Z) (l : list Z) (st : stage) : Prop :=
  match st with
  | e_wait x | e_passed x | e_lock x | e_push x => x <> 0
  | d_nonempty l' => l' = l
  | d_valid x | d_pop x => head l = Some x
  | p_unlock v | p_return v => 0 <= v <= size
  | _ => True
  end.

(** The steps that are left of a call. *)
Definition left_ (st : stage) : Z :=
  match st with
  | idle => 0
  | e_check _ => 8 | e_wait _ => 7 | e_passed _ => 6 | e_lock _ => 5 | e_push _ => 4
  | e_unlock _ => 3 | e_post _ => 2 | e_return _ => 1
  | d_wait => 10 | d_passed => 9 | d_lock => 8 | d_read => 7 | d_nonempty _ => 6 | d_valid _ => 5 | d_pop _ => 4
  | d_unlock _ => 3 | d_post _ => 2 | d_return _ => 1
  | p_lock => 4 | p_read => 3 | p_unlock _ => 2 | p_return _ => 1
  end.

(** The point after a step with the list [l], and the first of a call. *)
Definition next (l : list Z) (st : stage) : stage :=
  match st with
  | idle => idle
  | e_check x => e_wait x | e_wait x => e_passed x | e_passed x => e_lock x | e_lock x => e_push x
  | e_push x => e_unlock x | e_unlock x => e_post x | e_post x => e_return x | e_return _ => idle
  | d_wait => d_passed | d_passed => d_lock | d_lock => d_read | d_read => d_nonempty l
  | d_nonempty l' => match l' with [] => idle | x :: _ => d_valid x end
  | d_valid x => d_pop x | d_pop x => d_unlock x | d_unlock x => d_post x | d_post x => d_return x | d_return _ => idle
  | p_lock => p_read | p_read => p_unlock (Z.of_nat (length l)) | p_unlock v => p_return v | p_return _ => idle
  end.
Definition first (c : call) : stage := match c with Enqueue x => e_check x | Dequeue => d_wait | Depth => p_lock end.

(** ** Sums over the threads *)

Fixpoint total (f : stage -> Z) (sts : list stage) : Z :=
  match sts with [] => 0 | st :: sts => f st + total f sts end.

Lemma total_insert f sts i st st' :
  sts !! i = Some st -> total f (<[i := st']> sts) = total f sts - f st + f st'.
Proof.
  revert i. induction sts as [|a sts IH]; intros [|i] H; simplify_eq/=; [lia|].
  rewrite (IH i H). lia.
Qed.

Lemma total_nonneg f sts : (forall st, 0 <= f st) -> 0 <= total f sts.
Proof. intros Hf. induction sts as [|st sts IH]; simpl; [lia|]. specialize (Hf st). lia. Qed.

Lemma total_at f sts i st : (forall st, 0 <= f st) -> sts !! i = Some st -> f st <= total f sts.
Proof.
  intros Hf. revert i. induction sts as [|a sts IH]; intros [|i] H; simplify_eq/=.
  - pose proof (total_nonneg f sts Hf). lia.
  - specialize (IH i H). specialize (Hf a). lia.
Qed.

Lemma total_le f n sts : (forall st, f st <= n) -> total f sts <= n * Z.of_nat (length sts).
Proof. intros Hf. induction sts as [|st sts IH]; simpl; [lia|]. specialize (Hf st). lia. Qed.

Lemma total_zero f sts : Forall (fun st => f st = 0) sts -> total f sts = 0.
Proof. induction 1; simpl; lia. Qed.

Lemma share_nonneg s st : 0 <= share s st.
Proof. destruct s, st; simpl; lia. Qed.

(** ** The invariant *)

Section Invariant.
Context (size : Z) (size_ok : 0 <= size <= SEM_VALUE_MAX).

(** How far the list is from empty, and from full. *)
Definition places (s : semaphore) (l : list Z) : Z :=
  match s with full_ => Z.of_nat (length l) | empty_ => - Z.of_nat (length l) end.
Definition sum_of (s : semaphore) : Z := match s with full_ => size | empty_ => 0 end.

Record queue_ok (q : t) (sts : list stage) (es : list event) : Prop := {
  owned i : q.(queue_mutex_) = Some i <-> exists st, sts !! i = Some st /\ owns st = true;
  counted s : value s q + total (share s) sts + places s q.(list_) = sum_of s;
  counts s : 0 <= value s q;
  known : Forall (knows size q.(list_)) sts;
  valid_items : Forall (fun x => x <> 0) q.(list_);
  in_order : puts es = takes es ++ q.(list_);
  puts_asked i st : sts !! i = Some st -> of_thread i asked_of es = of_thread i put_of es ++ to_put st;
  takes_answered i st : sts !! i = Some st -> of_thread i taken_of es = of_thread i answer_of es ++ carries st;
  depth_bounded : Forall (fun e => match e with Returned _ Depth v => 0 <= v <= size | _ => True end) es
}.

(** The program was aborted for a null pointer only. *)
Definition fate_ok (f : fate) (es : list event) : Prop :=
  match f with Running => True | IsAborted => exists i, Called i (Enqueue 0) ∈ es | IsUndefined => False end.

Record world_ok (w : world) (es : list event) (sts : list stage) : Prop := {
  at_stages : w.(threads) = thread_of <$> sts;
  fate_as : fate_ok w.(fate_) es;
  the_queue_ok : queue_ok w.(the_queue) sts es
}.

(** *** What follows of it *)

Lemma list_bounded q sts es : queue_ok q sts es -> Z.of_nat (length q.(list_)) <= size.
Proof.
  intros H. pose proof (counted _ _ _ H full_) as Hc. pose proof (counts _ _ _ H full_).
  pose proof (total_nonneg (share full_) sts (share_nonneg full_)). simpl in *. lia.
Qed.

Lemma value_bounded s q sts es : queue_ok q sts es -> value s q + total (share s) sts <= size.
Proof.
  intros H. pose proof (list_bounded _ _ _ H). pose proof (counted _ _ _ H s) as Hc. destruct s; simpl in *; lia.
Qed.

(** Whoever holds an item that is not announced, or claimed one, finds it. *)
Lemma claimed_there q sts es i st :
  queue_ok q sts es -> sts !! i = Some st -> share empty_ st = 1 -> q.(list_) <> [].
Proof.
  intros H Hi Hs Hl. pose proof (counted _ _ _ H empty_) as Hc. pose proof (counts _ _ _ H empty_).
  pose proof (total_at (share empty_) sts i st (share_nonneg empty_) Hi). rewrite Hl in Hc. simpl in *. lia.
Qed.

Lemma post_ok s q sts es i st :
  queue_ok q sts es -> sts !! i = Some st -> share s st = 1 -> post s q = set_value s (value s q + 1) q.
Proof.
  intros H Hi Hs. pose proof (value_bounded s _ _ _ H).
  pose proof (total_at (share s) sts i st (share_nonneg s) Hi). unfold post.
  rewrite (proj2 (Z.ltb_lt _ _)) by lia. done.
Qed.

(** What a thread knows of the list, it knows because it owns the mutex. *)
Lemma knows_stable l l' st : owns st = false -> knows size l st -> knows size l' st.
Proof. destruct st; simpl; done. Qed.

Lemma of_thread_snoc i f es e :
  of_thread i f (es ++ [e]) = of_thread i f es ++ (if decide (who e = i) then f e else []).
Proof. unfold of_thread. by rewrite bind_app, bind_singleton. Qed.

(** *** A step of a thread *)

Record moves (i : nat) (q : t) (st : stage) (e : event) (q' : t) (st' : stage) : Prop := {
  mover : who e = i;
  mutex_moves : q'.(queue_mutex_) = if owns st' then Some i else if owns st then None else q.(queue_mutex_);
  mutex_free : owns st' = true -> owns st = true \/ q.(queue_mutex_) = None;
  list_moves : owns st = true \/ q'.(list_) = q.(list_);
  counted_moves s : value s q' + share s st' + places s q'.(list_) = value s q + share s st + places s q.(list_);
  counts_moves s : 0 <= value s q';
  knows_moves : knows size q'.(list_) st';
  valid_moves : Forall (fun x => x <> 0) q'.(list_);
  order_moves : q.(list_) ++ put_of e = taken_of e ++ q'.(list_);
  puts_moves : to_put st ++ asked_of e = put_of e ++ to_put st';
  takes_moves : carries st ++ taken_of e = answer_of e ++ carries st';
  depth_moves : match e with Returned _ Depth v => 0 <= v <= size | _ => True end
}.

Lemma owned_moves i q st e q' st' (sts : list stage) :
  (forall j, q.(queue_mutex_) = Some j <-> exists st : stage, sts !! j = Some st /\ owns st = true) ->
  sts !! i = Some st -> moves i q st e q' st' ->
  forall j, q'.(queue_mutex_) = Some j <-> exists st : stage, <[i:=st']> sts !! j = Some st /\ owns st = true.
Proof.
  intros H Hi M j. rewrite (mutex_moves _ _ _ _ _ _ M). assert (i < length sts)%nat by (by eapply lookup_lt_Some).
  assert (Hown : owns st = true -> q.(queue_mutex_) = Some i) by (intros ?; apply H; eauto).
  pose proof (mutex_free _ _ _ _ _ _ M) as Hfree.
  assert (Hother : j <> i -> (exists st : stage, <[i:=st']> sts !! j = Some st /\ owns st = true) <->
    q.(queue_mutex_) = Some j) by (intros; rewrite list_lookup_insert_ne by done; by rewrite H).
  destruct (decide (j = i)) as [->|Hne].
  - rewrite list_lookup_insert_eq by done.
    destruct (owns st') eqn:E'; [split; eauto|].
    destruct (owns st) eqn:E; (split; [|intros (?&?&?); simplify_eq; congruence]); [done|].
    rewrite H. intros (?&?&?). simplify_eq. congruence.
  - rewrite (Hother Hne). destruct (owns st') eqn:E'; [|destruct (owns st) eqn:E; [|done]].
    + destruct (Hfree eq_refl) as [Ho|Ho]; [rewrite (Hown Ho)|rewrite Ho]; split; congruence.
    + rewrite (Hown eq_refl). split; congruence.
Qed.

Lemma known_moves i q st e q' st' sts es :
  queue_ok q sts es -> sts !! i = Some st -> moves i q st e q' st' -> Forall (knows size q'.(list_)) (<[i := st']> sts).
Proof.
  intros H Hi M. apply Forall_lookup. intros j stj Hj.
  apply list_lookup_insert_Some in Hj as [[? [? _]]|[Hne Hj]]; [subst j stj|]; [apply M|].
  pose proof (proj1 (Forall_lookup _ _) (known _ _ _ H) _ _ Hj) as Hk.
  destruct (list_moves _ _ _ _ _ _ M) as [Ho| ->]; [|done]. eapply knows_stable; [|exact Hk].
  destruct (owns stj) eqn:Hoj; [|done].
  assert (Some i = Some j) by (rewrite <- (proj2 (owned _ _ _ H i)); [apply (owned _ _ _ H)|]; eauto).
  congruence.
Qed.

Lemma moves_ok i q st e q' st' sts es :
  queue_ok q sts es -> sts !! i = Some st -> moves i q st e q' st' ->
  queue_ok q' (<[i := st']> sts) (es ++ [e]).
Proof.
  intros H Hi M. constructor.
  - eapply owned_moves; eauto using owned.
  - intros s. rewrite (total_insert _ _ _ _ _ Hi). pose proof (counted _ _ _ H s).
    pose proof (counted_moves _ _ _ _ _ _ M s). lia.
  - apply M.
  - eapply known_moves; eauto.
  - apply M.
  - unfold puts, takes. rewrite !bind_app, !bind_singleton. fold (puts es) (takes es).
    by rewrite (in_order _ _ _ H), <- !app_assoc, (order_moves _ _ _ _ _ _ M).
  - intros j stj Hj. rewrite !of_thread_snoc, (mover _ _ _ _ _ _ M).
    apply list_lookup_insert_Some in Hj as [[? [? _]]|[Hne Hj]]; [subst j stj|].
    + rewrite !decide_True by done; by rewrite (puts_asked _ _ _ H i st Hi), <- !app_assoc, (puts_moves _ _ _ _ _ _ M).
    + rewrite !decide_False by done; by rewrite !app_nil_r, (puts_asked _ _ _ H j stj Hj).
  - intros j stj Hj. rewrite !of_thread_snoc, (mover _ _ _ _ _ _ M).
    apply list_lookup_insert_Some in Hj as [[? [? _]]|[Hne Hj]]; [subst j stj|].
    + rewrite !decide_True by done; by rewrite (takes_answered _ _ _ H i st Hi), <- !app_assoc, (takes_moves _ _ _ _ _ _ M).
    + rewrite !decide_False by done; by rewrite !app_nil_r, (takes_answered _ _ _ H j stj Hj).
  - apply Forall_app_2; [apply H|]. constructor; [apply M|done].
Qed.

Lemma go_ok i q' w e st st' th sts es :
  world_ok w es sts -> sts !! i = Some st -> thread_of st' = th -> moves i w.(the_queue) st e q' st' ->
  world_ok (World q' (<[i := th]> w.(threads)) Running) (es ++ [e]) (<[i := st']> sts).
Proof.
  intros H Hi Hp M. constructor; simpl.
  - by rewrite (at_stages _ _ _ H), list_fmap_insert, Hp.
  - done.
  - eapply moves_ok; eauto using the_queue_ok.
Qed.

Lemma stage_of w es sts i th :
  world_ok w es sts -> w.(threads) !! i = Some th -> exists st, sts !! i = Some st /\ th = thread_of st.
Proof.
  intros H. rewrite (at_stages _ _ _ H), list_lookup_fmap. destruct (sts !! i) as [st|]; [|done].
  simpl. intros [= <-]. eauto.
Qed.

(** What is at hand at a point. *)
Record at_hand (i : nat) (q : t) (st : stage) : Prop := {
  hand_owner : owns st = true -> q.(queue_mutex_) = Some i;
  hand_claimed : share empty_ st = 1 -> q.(list_) <> [];
  hand_post s : share s st = 1 -> post s q = set_value s (value s q + 1) q;
  hand_counts s : 0 <= value s q;
  hand_knows : knows size q.(list_) st;
  hand_valid : Forall (fun x => x <> 0) q.(list_);
  hand_bounded : Z.of_nat (length q.(list_)) <= size
}.

Lemma hands i q st sts es : queue_ok q sts es -> sts !! i = Some st -> at_hand i q st.
Proof.
  intros H Hi. constructor.
  - intros Ho. apply (owned _ _ _ H). eauto.
  - eapply claimed_there; eauto.
  - intros s. eapply post_ok; eauto.
  - apply H.
  - exact (proj1 (Forall_lookup _ _) (known _ _ _ H) _ _ Hi).
  - apply H.
  - eapply list_bounded; eauto.
Qed.

End Invariant.

(** The program text at a point, taken apart. *)
Ltac at_stage st H :=
  destruct st; cbv [thread_of enqueue dequeue depth pushed push popped pop valid nonempty measured] in H;
  try discriminate H; injection H as; subst.


(** A step to the next point: what it does to the semaphores, the mutex and
    the list is computed. *)
Ltac moving H :=
  constructor; simpl; rewrite ?app_nil_r; try done; try (by left); try (by right); try (by apply H);
  try (intros [|]; pose proof (hand_counts _ _ _ _ H full_); pose proof (hand_counts _ _ _ _ H empty_);
    simpl in *; lia).

Section Steps.
Context (size : Z) (size_ok : 0 <= size <= SEM_VALUE_MAX).

(** The thread goes on at the next point, where [p] is left to do. *)
Definition continues (i : nat) (q : t) (st : stage) (e : event) (q' : t) (th : thread) : Prop :=
  moves size i q st e q' (next q.(list_) st) /\ thread_of (next q.(list_) st) = th.

Lemma continues_wait i q st c s k :
  Runs c (SemWait s k) = thread_of st -> at_hand size i q st -> 0 < value s q ->
  continues i q st (Moved i) (set_value s (value s q - 1) q) (Runs c (k true)).
Proof. intros E H Hv. at_stage st E; (split; [|done]); moving H. Qed.

Lemma continues_post i q st c s k :
  Runs c (SemPost s k) = thread_of st -> at_hand size i q st ->
  continues i q st (Moved i) (post s q) (Runs c k).
Proof.
  intros E H. at_stage st E; (split; [|done]); rewrite (hand_post _ _ _ _ H) by done; moving H.
Qed.

Lemma continues_lock i q st c k :
  Runs c (Lock k) = thread_of st -> at_hand size i q st -> q.(queue_mutex_) = None ->
  continues i q st (Moved i) (set_mutex (Some i) q) (Runs c k).
Proof. intros E H Hm. at_stage st E; (split; [|done]); moving H. Qed.

Lemma continues_unlock i q st c k :
  Runs c (Unlock k) = thread_of st -> at_hand size i q st ->
  continues i q st (Moved i) (set_mutex None q) (Runs c k).
Proof. intros E H. at_stage st E; (split; [|done]); moving H. Qed.

Lemma continues_read i q st c k :
  Runs c (ReadList k) = thread_of st -> at_hand size i q st ->
  continues i q st (Moved i) q (Runs c (k q.(list_))).
Proof.
  intros E H. pose proof (hand_bounded _ _ _ _ H). unfold SEM_VALUE_MAX in *.
  at_stage st E; (split; [moving H|try done]); [lia|].
  simpl. unfold measured. by rewrite s32_small, u32_small by lia.
Qed.

Lemma continues_write i q st c f k :
  Runs c (WriteList f k) = thread_of st -> at_hand size i q st ->
  continues i q st (Wrote i c q.(list_)) (set_list (f q.(list_)) q) (Runs c k).
Proof.
  intros E H. pose proof (hand_valid _ _ _ _ H) as Hv. pose proof (hand_knows _ _ _ _ H) as Hk.
  at_stage st E; (split; [|done]).
  - moving H.
    + intros [|]; simpl; rewrite ?length_app; simpl; lia.
    + by apply Forall_app_2, Forall_singleton.
  - destruct (list_ q) as [|x' l] eqn:El; simplify_eq/=. inversion_clear Hv. moving H; rewrite ?El; try done.
    intros [|]; simpl; lia.
Qed.

Lemma continues_check i q st c k :
  Runs c (Check true k) = thread_of st -> at_hand size i q st -> continues i q st (Moved i) q (Runs c k).
Proof.
  intros E H. pose proof (hand_knows _ _ _ _ H) as Hk. at_stage st E; simpl in Hk; subst.
  1: destruct (Z.eqb_spec x 0); [done|].
  4: destruct (list_ q) as [|x l] eqn:El; [done|].
  all: split; [moving H|done].
  by rewrite El.
Qed.

Lemma refuses_null i q st c k :
  Runs c (Check false k) = thread_of st -> at_hand size i q st -> st = e_check 0 /\ c = Enqueue 0.
Proof.
  intros E H. pose proof (hand_knows _ _ _ _ H) as Hk. at_stage st E; simpl in Hk; subst.
  - by destruct (Z.eqb_spec x 0); [subst|].
  - by destruct (hand_claimed _ _ _ _ H eq_refl); destruct (list_ q).
  - pose proof (hand_valid _ _ _ _ H) as Hv. destruct (list_ q); simplify_eq/=. inversion_clear Hv.
    by destruct (Z.eqb_spec x 0).
Qed.

Lemma continues_return i q st c v :
  Runs c (Return v) = thread_of st -> at_hand size i q st -> continues i q st (Returned i c v) q Idle.
Proof. intros E H. pose proof (hand_knows _ _ _ _ H). at_stage st E; (split; [moving H|done]). Qed.

Lemma moves_call i q st c :
  Idle = thread_of st -> at_hand size i q st -> moves size i q st (Called i c) q (first c) /\ thread_of (first c) = Runs c (body c).
Proof. intros E H. destruct st; try discriminate E. split; destruct c; try done; moving H. Qed.

Lemma touches_owned st c p :
  Runs c p = thread_of st -> match p with ReadList _ | WriteList _ _ | Unlock _ => True | _ => False end ->
  owns st = true.
Proof. intros E Hp. destruct st; simplify_eq/=; done. Qed.

Lemma stays i q st e :
  at_hand size i q st -> e = Moved i \/ e = Interrupted i -> moves size i q st e q st.
Proof.
  intros H He. constructor; try apply H; destruct He as [-> | ->]; simpl; rewrite ?app_nil_r; auto.
  all: destruct (owns st) eqn:Ho; [by apply H|done].
Qed.

Lemma stayed q sts es i st e :
  queue_ok size q sts es -> sts !! i = Some st -> e = Moved i \/ e = Interrupted i -> queue_ok size q sts (es ++ [e]).
Proof.
  intros H Hi He. rewrite <- (list_insert_id sts i st Hi). eapply moves_ok; eauto. eapply stays; eauto using hands.
Qed.

(** What is left to do, while the program runs. *)
Definition work (w : world) (sts : list stage) : Z :=
  match w.(fate_) with Running => total left_ sts | _ => 0 end.

Lemma left_nonneg st : 0 <= left_ st.
Proof. by destruct st. Qed.

Lemma left_next l st c p : Runs c p = thread_of st -> left_ (next l st) < left_ st.
Proof. destruct st; simpl; try done. by destruct l0. Qed.

(** The invariant after a step, with less to do when the thread goes on. *)
Definition kept (w : world) (sts : list stage) (e : event) (es : list event) (w' : world) : Prop :=
  exists sts', world_ok size w' (es ++ [e]) sts' /\ length sts' = length sts /\
    (goes_on e -> work w' sts' < work w sts).

Lemma continued w sts es i st e q' c p th :
  world_ok size w es sts -> w.(fate_) = Running -> sts !! i = Some st -> Runs c p = thread_of st ->
  continues i w.(the_queue) st e q' th -> kept w sts e es (World q' (<[i := th]> w.(threads)) Running).
Proof.
  intros H Hr Hi Hst [M Hp]. exists (<[i := next w.(the_queue).(list_) st]> sts). split; [|split].
  - eapply go_ok; eauto.
  - apply length_insert.
  - intros _. unfold work. simpl. rewrite Hr, (total_insert _ _ _ _ _ Hi).
    pose proof (left_next w.(the_queue).(list_) st _ _ Hst). lia.
Qed.

Lemma aborted w sts es i st e c p :
  world_ok size w es sts -> w.(fate_) = Running -> sts !! i = Some st -> Runs c p = thread_of st ->
  e = Moved i -> (exists j, Called j (Enqueue 0) ∈ es) -> kept w sts e es (ends IsAborted w).
Proof.
  intros H Hr Hi Hst -> [j Hj]. exists sts. split; [|split; [done|]].
  - constructor; simpl; [apply H| |].
    + exists j. apply elem_of_app. by left.
    + eauto using stayed, the_queue_ok.
  - intros _. unfold work. simpl. rewrite Hr.
    pose proof (total_at left_ sts i st left_nonneg Hi). pose proof (left_next [] st _ _ Hst).
    pose proof (left_nonneg (next [] st)). lia.
Qed.

(** A null that a thread has yet to put was asked for. *)
Lemma asked_null i es : 0 ∈ of_thread i asked_of es -> exists j, Called j (Enqueue 0) ∈ es.
Proof.
  unfold of_thread. intros (e & He & Hin)%list_elem_of_bind. exists i.
  destruct (decide (who e = i)) as [<-|]; [|by apply not_elem_of_nil in He].
  destruct e as [j [x| |]| | | |]; simpl in He; try by apply not_elem_of_nil in He.
  apply list_elem_of_singleton in He as <-. done.
Qed.

Lemma step_keeps w sts es e w' : world_ok size w es sts -> step w e w' -> kept w sts e es w'.
Proof.
  intros H Hs.
  assert (Hat : forall i th, w.(threads) !! i = Some th ->
    exists st, sts !! i = Some st /\ th = thread_of st /\ at_hand size i w.(the_queue) st).
  { intros i th Hth. destruct (stage_of _ _ _ _ _ _ H Hth) as (st & Hi & E).
    exists st. split; [done|split; [done|]]. eapply hands; eauto using the_queue_ok. }
  destruct Hs as [i c Hr Hth|i c v Hr Hth|i c s k Hr Hth Hv|i c s k Hr Hth|i c s k Hr Hth|i c k Hr Hth Hm
    |i c k Hr Hth Hm|i c k Hr Hth Hm|i c k Hr Hth Hm|i c f k Hr Hth Hm|i c p Hr Hth Hm Hp|i c b k Hr Hth|i c Hr Hth];
    destruct (Hat _ _ Hth) as (st & Hi & E & Ha); unfold go; rewrite ?Hr.
  - destruct (moves_call i _ st c E Ha) as [M Hf]. exists (<[i := first c]> sts). split; [|split; [|done]].
    + by eapply go_ok; eauto.
    + apply length_insert.
  - eauto using continued, continues_return.
  - eauto using continued, continues_wait.
  - exists sts. split; [|done]. constructor; [apply H|by rewrite Hr|]. eauto using stayed, the_queue_ok.
  - eauto using continued, continues_post.
  - eauto using continued, continues_lock.
  - eauto using continued, continues_unlock.
  - destruct Hm. apply (hand_owner _ _ _ _ Ha). by eapply touches_owned.
  - eauto using continued, continues_read.
  - eauto using continued, continues_write.
  - destruct Hm. apply (hand_owner _ _ _ _ Ha). eapply touches_owned; [done|]. by destruct p.
  - destruct b; [eauto using continued, continues_check|].
    destruct (refuses_null i _ st c k E Ha) as [-> ->]. eapply aborted; eauto.
    eapply (asked_null i). rewrite (puts_asked _ _ _ _ (the_queue_ok _ _ _ _ H) i _ Hi). apply elem_of_app. right.
    apply list_elem_of_singleton. done.
  - by destruct st.
Qed.

End Steps.

(** ** Runs *)

(** A thread that runs its program goes on, unless it waits. *)
Definition may_go (q : t) (p : program) : Prop :=
  match p with SemWait s _ => 0 < value s q | Lock _ => q.(queue_mutex_) = None | _ => True end.

Lemma turn_some w i c p :
  w.(fate_) = Running -> w.(threads) !! i = Some (Runs c p) -> may_go w.(the_queue) p ->
  exists e w', turn w i = Some (e, w').
Proof.
  intros Hr Hi Hp. unfold turn. rewrite Hr, Hi. destruct p; simpl in Hp; repeat case_match; breflect; eauto; try lia.
  rewrite bool_decide_true in *; done.
Qed.

Lemma turn_step w i e w' : turn w i = Some (e, w') -> step w e w' /\ goes_on e.
Proof.
  unfold turn. destruct w.(fate_) eqn:Hr; [|done..].
  destruct (w.(threads) !! i) as [[|c p]|] eqn:Hi; [done| |done].
  intros H. destruct p; repeat case_match; simplify_eq; breflect;
    repeat match goal with
    | H : bool_decide _ = true |- _ => apply bool_decide_eq_true in H
    | H : bool_decide _ = false |- _ => apply bool_decide_eq_false in H
    end; (split; [|done]);
    first [ by eapply step_return | by eapply step_wait | by eapply step_post | by eapply step_lock
          | by eapply step_unlock | by eapply step_unlock_other | by eapply step_read | by eapply step_write
          | by eapply step_race | by apply (step_check w i c true) | by apply (step_check w i c false p)
          | by eapply step_undefined ].
Qed.

(** The scheduler has all the steps with which a thread goes on. *)
Lemma step_turn w e w' : step w e w' -> goes_on e -> turn w (who e) = Some (e, w').
Proof.
  intros Hs Hg. destruct Hs; try done; unfold turn; simpl.
  all: repeat match goal with H : fate_ _ = _ |- _ => rewrite H; clear H | H : threads _ !! _ = _ |- _ => rewrite H; clear H end.
  all: rewrite ?bool_decide_true by done; try done.
  - by rewrite (proj2 (Z.ltb_lt _ _)).
  - by rewrite bool_decide_false.
  - by destruct p; rewrite ?bool_decide_false.
Qed.

Lemma act_step w a e w' : act w a = Some (e, w') -> step w e w'.
Proof.
  destruct a as [i [c|]]; simpl; [|by intros [? _]%turn_step].
  destruct w.(fate_) eqn:Hr; [|done..]. destruct (w.(threads) !! i) as [[|]|] eqn:Hi; [|done..].
  intros [= <- <-]. by constructor.
Qed.

Lemma acts_run w0 schedule w es : run w0 es w -> run w0 (acts w es schedule).1 (acts w es schedule).2.
Proof.
  revert w es. induction schedule as [|a schedule IH]; intros w es H; [done|]. simpl.
  destruct (act w a) as [[e w']|] eqn:E; [|by apply IH]. apply IH. eapply run_snoc; eauto using act_step.
Qed.

Section Runs.
Context (size : Z) (n : nat) (q : t).
Hypothesis size_pos : 0 <= size.
Hypothesis made : make size = Ok q.

Lemma size_fits : 0 <= size <= SEM_VALUE_MAX.
Proof. pose proof made as H. unfold make in H. inv_res. breflect. done. Qed.

Lemma made_empty : q = Queue size 0 None [].
Proof. pose proof made as H. unfold make in H. by inv_res. Qed.

Lemma start_ok : world_ok size (start q n) [] (replicate n idle).
Proof.
  pose proof size_fits. rewrite made_empty. constructor; simpl; [by rewrite fmap_replicate|done|].
  assert (Hz : forall s, total (share s) (replicate n idle) = 0)
    by (intros s; apply total_zero, Forall_replicate; by destruct s).
  constructor; simpl; try done.
  - intros i. split; [done|]. intros (st & [-> _]%lookup_replicate & ?). done.
  - intros s. rewrite Hz. destruct s; simpl; lia.
  - intros [|]; simpl; lia.
  - by apply Forall_replicate.
  - by intros i st [-> _]%lookup_replicate.
  - by intros i st [-> _]%lookup_replicate.
Qed.

Lemma run_world_ok es w : run (start q n) es w -> exists sts, world_ok size w es sts /\ length sts = n.
Proof.
  induction 1 as [|es w e w' _ (sts & H & Hl) Hs].
  - exists (replicate n idle). split; [apply start_ok|apply length_replicate].
  - destruct (step_keeps _ size_fits _ _ _ _ _ H Hs) as (sts' & H' & Hl' & _). exists sts'. split; [done|lia].
Qed.

Lemma run_decreases w es sts w' es' :
  world_ok size w es sts -> run w es' w' -> Forall goes_on es' ->
  exists sts', world_ok size w' (es ++ es') sts' /\ Z.of_nat (length es') + work w' sts' <= work w sts.
Proof.
  intros H Hr. induction Hr as [|es' w1 e w2 _ IH Hs]; intros Hg.
  - exists sts. rewrite app_nil_r. simpl. split; [done|lia].
  - apply Forall_app in Hg as [Hg He]; inversion_clear He as [|? ? He' _]. destruct (IH Hg) as (sts1 & H1' & Hw).
    destruct (step_keeps _ size_fits _ _ _ _ _ H1' Hs) as (sts2 & H2' & _ & Hd).
    exists sts2. rewrite app_assoc, length_app. split; [done|]. specialize (Hd He'). simpl. lia.
Qed.

Lemma work_nonneg w sts : 0 <= work w sts.
Proof. unfold work. destruct (fate_ w); try lia. apply total_nonneg, left_nonneg. Qed.

Lemma work_bounded w sts : work w sts <= 10 * Z.of_nat (length sts).
Proof. unfold work. destruct (fate_ w); try lia. apply total_le. by destruct st. Qed.

(** When no thread goes on, each one is between two calls or waits for a
    semaphore that is zero. *)
Definition waits (q : t) (st : stage) : Prop :=
  match st with idle => True | e_wait _ => value full_ q = 0 | d_wait => value empty_ q = 0 | _ => False end.

Lemma stuck_waits w es sts :
  world_ok size w es sts -> w.(fate_) = Running -> (forall e w', step w e w' -> ~ goes_on e) ->
  Forall (waits w.(the_queue)) sts.
Proof.
  intros H Hr Hstuck.
  assert (Hno : forall i st c p, sts !! i = Some st -> thread_of st = Runs c p -> ~ may_go w.(the_queue) p).
  { intros i st c p Hi Hst Hp. destruct (turn_some w i c p Hr) as (e & w' & Ht); [|done|].
    - by rewrite (at_stages _ _ _ _ H), list_lookup_fmap, Hi, <- Hst.
    - destruct (turn_step _ _ _ _ Ht). by eapply Hstuck. }
  assert (Hfree : w.(the_queue).(queue_mutex_) = None).
  { destruct (queue_mutex_ (the_queue w)) as [i|] eqn:Hm; [|done]. exfalso.
    apply (owned _ _ _ _ (the_queue_ok _ _ _ _ H)) in Hm as (st & Hi & Ho).
    destruct st; try done; by apply (Hno i _ _ _ Hi eq_refl). }
  apply Forall_lookup. intros i st Hi. pose proof (counts _ _ _ _ (the_queue_ok _ _ _ _ H)) as Hc.
  pose proof (Hc full_). pose proof (Hc empty_). specialize (Hno i st).
  destruct st; simpl; try done; try (by destruct (Hno _ _ Hi eq_refl)).
  - assert (~ 0 < value full_ (the_queue w)) by (by apply (Hno _ _ Hi eq_refl)). simpl in *. lia.
  - assert (~ 0 < value empty_ (the_queue w)) by (by apply (Hno _ _ Hi eq_refl)). simpl in *. lia.
Qed.

Lemma stuck_counts w es sts s :
  world_ok size w es sts -> Forall (waits w.(the_queue)) sts ->
  value s w.(the_queue) + places s w.(the_queue).(list_) = sum_of size s.
Proof.
  intros H Hw. rewrite <- (counted _ _ _ _ (the_queue_ok _ _ _ _ H) s), (total_zero (share s)); [lia|].
  eapply Forall_impl; [exact Hw|]. intros st. destruct st, s; simpl; done.
Qed.
End Runs.

(** * What the queue promises *)

(** What depth answers is a length that the list may have. *)
Definition depth_in (size : Z) (e : event) : Prop :=
  match e with Returned _ Depth v => 0 <= v <= size | _ => True end.

(** C32: However the threads that use a queue are interleaved, the list is
    touched under the mutex only and the program is aborted for a null item
    only: no dequeue finds the list empty.  Items come out in the order in
    which they went in, each once, and the list is never longer than the size
    of the queue.  A thread that is between two calls has put into the list
    what it enqueued, in its order, and was answered the items it took. *)
Theorem queue_in_order size n q es w :
  0 <= size -> make size = Ok q -> run (start q n) es w ->
  w.(fate_) <> IsUndefined /\ (w.(fate_) = IsAborted -> exists i, Called i (Enqueue 0) ∈ es) /\
  puts es = takes es ++ w.(the_queue).(list_) /\
  Z.of_nat (length w.(the_queue).(list_)) <= size /\ Forall (depth_in size) es /\
  (forall i, w.(threads) !! i = Some Idle ->
    of_thread i asked_of es = of_thread i put_of es /\ of_thread i taken_of es = of_thread i answer_of es).
Proof.
  intros Hs Hm Hr. destruct (run_world_ok size n q Hs Hm es w Hr) as (sts & H & _).
  pose proof (the_queue_ok _ _ _ _ H) as Hq. pose proof (fate_as _ _ _ _ H) as Hf.
  split_and!; [by intros Ef; rewrite Ef in Hf|by intros Ef; rewrite Ef in Hf|apply Hq|
    by eapply list_bounded|apply Hq|].
  intros i Hi. destruct (stage_of _ _ _ _ _ _ H Hi) as (st & Hst & E). destruct st; try discriminate E.
  rewrite (puts_asked _ _ _ _ Hq i _ Hst), (takes_answered _ _ _ _ Hq i _ Hst). by rewrite !app_nil_r.
Qed.

(** C33: Calls of the queue return unless they have to wait: the threads take
    ten steps each at most before all of them have returned or wait, and no
    wakeup is lost among them: then whoever is in dequeue finds the list
    empty, whoever is in enqueue finds it full, and nobody waits for the
    mutex. *)
Theorem queue_calls_return size n q es w :
  0 <= size -> make size = Ok q -> run (start q n) es w ->
  (forall es' w', run w es' w' -> Forall goes_on es' -> Z.of_nat (length es') <= 10 * Z.of_nat n) /\
  (w.(fate_) = Running -> (forall e w', step w e w' -> ~ goes_on e) ->
   forall i c p, w.(threads) !! i = Some (Runs c p) ->
     (c = Dequeue /\ w.(the_queue).(list_) = []) \/
     (exists x, c = Enqueue x /\ Z.of_nat (length w.(the_queue).(list_)) = size)).
Proof.
  intros Hs Hm Hr. destruct (run_world_ok size n q Hs Hm es w Hr) as (sts & H & Hl). split.
  - intros es' w' Hr' Hg. destruct (run_decreases size q Hs Hm _ _ _ _ _ H Hr' Hg) as (sts' & _ & Hw).
    pose proof (work_bounded w sts). pose proof (work_nonneg w' sts'). lia.
  - intros Hrun Hstuck i c p Hi. pose proof (stuck_waits size _ _ _ H Hrun Hstuck) as Hw.
    destruct (stage_of _ _ _ _ _ _ H Hi) as (st & Hst & E).
    pose proof (proj1 (Forall_lookup _ _) Hw _ _ Hst) as Hwi. pose proof (stuck_counts size _ _ _ full_ H Hw).
    pose proof (stuck_counts size _ _ _ empty_ H Hw).
    destruct st; try done; simpl in *; simplify_eq.
    + right. eexists. split; [done|lia].
    + left. split; [done|]. apply nil_length_inv. lia.
Qed.

(** A queue of one place, threads 0 and 2 that enqueue, thread 1 that
    dequeues, and a fair schedule. *)
Definition sample_queue : t := Queue 1 0 None [].
Definition sample_calls : list (nat * option call) :=
  [(1%nat, Some Dequeue); (0%nat, Some (Enqueue 5)); (2%nat, Some (Enqueue 7))] ++
  mjoin (replicate 24 [(0%nat, None); (1%nat, None); (2%nat, None)]).
Definition sample_run : list event * world := acts (start sample_queue 3) [] sample_calls.
Definition sample_waiting : list event * world := acts (start sample_queue 3) [] (drop 1 sample_calls).

Lemma queue_in_order_witness :
  run (start sample_queue 3) sample_run.1 sample_run.2 /\ sample_run.2.(fate_) = Running /\
  takes sample_run.1 = [5] /\ of_thread 1 answer_of sample_run.1 = [5] /\
  puts sample_run.1 = takes sample_run.1 ++ sample_run.2.(the_queue).(list_).
Proof.
  assert (Hr : run (start sample_queue 3) sample_run.1 sample_run.2) by (apply acts_run; constructor).
  split; [exact Hr|]. split; [reflexivity|]. split; [vm_compute; reflexivity|]. split; [vm_compute; reflexivity|].
  destruct (queue_in_order 1 3 sample_queue _ _ ltac:(lia) eq_refl Hr) as (_ & _ & Hp & _). exact Hp.
Defined.

Lemma sample_stuck e w' : step sample_waiting.2 e w' -> ~ goes_on e.
Proof.
  intros Hs Hg. pose proof (step_turn _ _ _ Hs Hg) as Ht. destruct (who e) as [|[|[|i]]]; vm_compute in Ht; discriminate Ht.
Qed.

Lemma queue_calls_return_witness :
  (exists p, sample_waiting.2.(threads) !! 2%nat = Some (Runs (Enqueue 7) p)) /\
  sample_waiting.2.(the_queue).(list_) = [5] /\
  (length sample_waiting.1 <= 33)%nat /\
  Z.of_nat (length sample_waiting.2.(the_queue).(list_)) = 1.
Proof.
  assert (Hr : run (start sample_queue 3) sample_waiting.1 sample_waiting.2) by (apply acts_run; constructor).
  split; [eexists; reflexivity|]. split; [reflexivity|]. split; [vm_compute; lia|].
  destruct (queue_calls_return 1 3 sample_queue _ _ ltac:(lia) eq_refl Hr) as [_ Hs].
  destruct (Hs eq_refl sample_stuck 2%nat (Enqueue 7) _ eq_refl) as [[E _]|(x & _ & Hl)]; [discriminate E|exact Hl].
Defined.
