(* ===== verification/Pipeline.v ===== *)
(** The records the request stream of a connection hands to its response
    stream: the log record (app/combined_log_record.cpp), the pipeline data
    around it (app/pipeline_data.cpp) and the queue they travel through
    (proxylib/pipeline_data_queue.cpp); and the access log that writes a
    record (app/access_log.cpp). *)
From stdpp Require Import list.
From S2P Require Import Prelude Status ReadWriteBuffer Printf.

(** * The log record *)
Record combined_log_record := CombinedLogRecord {
  remote_ip : list Z;
  remote_logname : list Z;
  user : list Z;
  time : list Z;
  requestline : list Z;
  status : list Z;
  bytes_sent : list Z;
  referer : list Z;
  user_agent : list Z
}.

Module log_record.

(** What [localtime] answers. *)
Record tm := Tm {
  tm_mday : Z;
  tm_mon : Z;
  tm_year : Z;
  tm_hour : Z;
  tm_min : Z;
  tm_sec : Z;
  tm_gmtoff : Z
}.

Definition reset : combined_log_record := CombinedLogRecord [] [] [] [] [] [] [] [] [].

Definition dash (s : list Z) : list Z := match s with [] => str "-" | _ => s end.

Definition set_dash (r : combined_log_record) : combined_log_record :=
  CombinedLogRecord (dash r.(remote_ip)) (dash r.(remote_logname)) (dash r.(user)) (dash r.(time))
    (dash r.(requestline)) (dash r.(status)) (dash r.(bytes_sent)) (dash r.(referer))
    (dash r.(user_agent)).

Definition months : list (list Z) :=
  [str "Jan"; str "Feb"; str "Mar"; str "Apr"; str "May"; str "Jun"; str "Jul"; str "Aug";
   str "Sep"; str "Oct"; str "Nov"; str "Dec"].

(** The string [snprintf] makes of the date, cut at the 1023 characters that
    fit; division and remainder of C truncate. *)
Definition format_time (date : tm) : res (list Z) :=
  month ← of_option (if date.(tm_mon) <? 0 then None else months !! Z.to_nat date.(tm_mon));
  Ok (take 1023 (str "[" ++ print_0d 2 date.(tm_mday) ++ str "/" ++ month ++ str "/" ++
    print_0d 4 (1900 + date.(tm_year)) ++ str ":" ++ print_0d 2 date.(tm_hour) ++ str ":" ++
    print_0d 2 date.(tm_min) ++ str ":" ++ print_0d 2 date.(tm_sec) ++ str " " ++
    print_plus_0d 3 (Z.quot date.(tm_gmtoff) 3600) ++
    print_0d 2 (Z.rem (Z.quot date.(tm_gmtoff) 60) 60) ++ str "]")).

Definition set_time (date : tm) (r : combined_log_record) : res combined_log_record :=
  s ← format_time date;
  Ok (CombinedLogRecord r.(remote_ip) r.(remote_logname) r.(user) s r.(requestline)
        r.(status) r.(bytes_sent) r.(referer) r.(user_agent)).

End log_record.

(** * The access log *)
Module access_log.

Record t := AccessLog { logfd_ : Z }.

Definition make : t := AccessLog (-1).

(** [open]: [fd] is what the system call answers. *)
Definition open (fd : Z) (l : t) : bool * t := (negb (fd =? -1), AccessLog fd).

Definition is_open (l : t) : bool := negb (l.(logfd_) =? -1).

Definition space : list Z := str " ".
Definition quote : list Z := [34].
Definition newline : list Z := [10].

(** A field with its quotes, which a dash has not. *)
Definition quoted (s : list Z) : list (list Z) :=
  if bool_decide (s = str "-") then [s] else [quote; s; quote].

(** The vector of [log_access], in order; [iov_len] of every string is its
    length. *)
Definition log_vector (r : combined_log_record) : list (list Z) :=
  [r.(remote_ip); space; r.(remote_logname); space; r.(user); space; r.(time); space] ++
  quoted r.(requestline) ++ [space; r.(status); space; r.(bytes_sent); space] ++
  quoted r.(referer) ++ [space] ++ quoted r.(user_agent) ++ [newline].

(** [log_access]: the record as it is left, and the vector handed to
    [writev], if any.  Storing past the 24 elements of the array is
    undefined. *)
Definition log_access (date : log_record.tm) (r : combined_log_record) (l : t)
    : res (combined_log_record * option (list (list Z))) :=
  if l.(logfd_) =? -1 then Ok (r, None)
  else
    r ← log_record.set_time date r;
    let r := log_record.set_dash r in
    let vector := log_vector r in
    if (length vector <=? 24)%nat then Ok (r, Some vector) else Undef.

End access_log.

(** * Pipeline data *)
Module pipeline_data.

Inductive PROCESS_TYPE := NORMAL | HEAD | DENY.

Record t := PipelineData {
  logrecord_ : combined_log_record;
  process_type_ : PROCESS_TYPE;
  request_complete_ : bool
}.

Definition reset (d : t) : t := PipelineData log_record.reset NORMAL false.

Definition make : t := PipelineData log_record.reset NORMAL false.

End pipeline_data.

(** * The queue

    The elements are objects on the heap that both streams point to. *)
Module pipeline_data_queue.

Abbreviation ptr := Z (only parsing).
Abbreviation heap := (gmap Z pipeline_data.t).

Record t := PipelineDataQueue {
  active_queue_ : list ptr;
  free_list_ : list ptr
}.

Definition PIPELINE_DEPTH : nat := 5.

(** The factory: [new pipeline_data()] at an address that is not in use. *)
Definition create_pipeline_data (h : heap) : heap * ptr :=
  let p := fresh (dom h) in (<[p := pipeline_data.make]> h, p).

Fixpoint fill (n : nat) (q : t) (h : heap) : t * heap :=
  match n with
  | O => (q, h)
  | S n =>
      let '(h, p) := create_pipeline_data h in
      fill n (PipelineDataQueue q.(active_queue_) (q.(free_list_) ++ [p])) h
  end.

Definition make (h : heap) : t * heap := fill PIPELINE_DEPTH (PipelineDataQueue [] []) h.

(** The copy constructor: new elements, not a copy of those of [rhs]. *)
Definition copy (rhs : t) (h : heap) : t * heap := fill PIPELINE_DEPTH (PipelineDataQueue [] []) h.

Definition destroy (q : t) (h : heap) : heap :=
  foldl (fun h p => delete p h) h (q.(free_list_) ++ q.(active_queue_)).

Definition queue_full (q : t) : bool := match q.(free_list_) with [] => true | _ => false end.
Definition queue_empty (q : t) : bool := match q.(active_queue_) with [] => true | _ => false end.

(** The sizes are [int]s and [size_t]s of at most [PIPELINE_DEPTH]. *)
Definition dequeue_element (q : t) : res t :=
  _ ← CHECK_CONDITION (negb (queue_empty q));
  let active_queue_size_start := length q.(active_queue_) in
  let free_list_size_start := length q.(free_list_) in
  q' ← (match q.(active_queue_) with
        | p :: ps => Ok (PipelineDataQueue ps (p :: q.(free_list_)))
        | [] => Undef
        end);
  _ ← CHECK_CONDITION_VAL (length q'.(active_queue_) =? active_queue_size_start - 1)%nat;
  _ ← CHECK_CONDITION_VAL (length q'.(free_list_) =? free_list_size_start + 1)%nat;
  Ok q'.

Definition queue_element (q : t) (h : heap) : res (ptr * t * heap) :=
  _ ← CHECK_CONDITION (negb (queue_full q));
  let active_queue_size_start := length q.(active_queue_) in
  let free_list_size_start := length q.(free_list_) in
  q' ← (match q.(free_list_) with
        | p :: ps => Ok (PipelineDataQueue (q.(active_queue_) ++ [p]) ps)
        | [] => Undef
        end);
  _ ← CHECK_CONDITION (negb (queue_empty q'));
  p ← of_option (last q'.(active_queue_));
  d ← of_option (h !! p);
  let h := <[p := pipeline_data.reset d]> h in
  _ ← CHECK_CONDITION_VAL (length q'.(active_queue_) =? active_queue_size_start + 1)%nat;
  _ ← CHECK_CONDITION_VAL (length q'.(free_list_) =? free_list_size_start - 1)%nat;
  Ok (p, q', h).

Definition front (q : t) : res ptr :=
  _ ← CHECK_CONDITION (negb (queue_empty q));
  of_option (head q.(active_queue_)).

Definition empty_queue (q : t) : res t :=
  let q' := if negb (queue_empty q)
            then PipelineDataQueue [] (q.(free_list_) ++ q.(active_queue_)) else q in
  _ ← CHECK_CONDITION (queue_empty q');
  Ok q'.

(** What can happen to a queue. *)
Inductive step : t * heap -> t * heap -> Prop :=
  | step_queue q h p q' h' : queue_element q h = Ok (p, q', h') -> step (q, h) (q', h')
  | step_dequeue q h q' : dequeue_element q = Ok q' -> step (q, h) (q', h)
  | step_empty q h q' : empty_queue q = Ok q' -> step (q, h) (q', h)
  | step_write q h p d : p ∈ dom h -> step (q, h) (q, <[p := d]> h).

End pipeline_data_queue.

(** * Lemmas: the queue *)
Section queue.
Import pipeline_data_queue.

(** A queue of [ps]: the elements are objects, each in one list once. *)
Record queue_ok (ps : list ptr) (q : t) (h : heap) : Prop := {
  qk_elements : q.(active_queue_) ++ q.(free_list_) ≡ₚ ps;
  qk_distinct : NoDup ps;
  qk_live p : p ∈ ps -> is_Some (h !! p)
}.

Lemma fill_ok n : forall ps q h,
  queue_ok ps q h -> q.(active_queue_) = [] ->
  exists ps' q' h', fill n q h = (q', h') /\ queue_ok ps' q' h' /\ q'.(active_queue_) = [] /\
    length q'.(free_list_) = (length q.(free_list_) + n)%nat /\
    forall p, is_Some (h !! p) -> h' !! p = h !! p.
Proof.
  induction n as [|n IH]; intros ps q h Hq Ha.
  { exists ps, q, h. rewrite Nat.add_0_r. done. }
  cbn [fill create_pipeline_data]. set (p := fresh (dom h)). pose proof Hq as [].
  assert (h !! p = None) as Hp.
  { apply not_elem_of_dom. apply is_fresh. }
  assert (p ∉ ps) as Hnew.
  { intros Hin. destruct (qk_live0 p Hin) as [d Hd]. congruence. }
  destruct (IH (ps ++ [p]) (PipelineDataQueue (active_queue_ q) (free_list_ q ++ [p]))
    (<[p := pipeline_data.make]> h)) as (ps' & q' & h' & Hf & Hq' & Ha' & Hl & Hh).
  - constructor; simpl.
    + by rewrite app_assoc, qk_elements0.
    + apply NoDup_app. split; [done|]. split; [|apply NoDup_singleton].
      intros x Hx Hx'. apply list_elem_of_singleton in Hx'. by subst.
    + intros x Hx. destruct (decide (x = p)) as [->|Hne]; [rewrite lookup_insert_eq; eauto|].
      rewrite lookup_insert_ne by done. apply qk_live0. apply elem_of_app in Hx as [?|Hx]; [done|].
      by apply list_elem_of_singleton in Hx.
  - done.
  - exists ps', q', h'. split; [exact Hf|]. split; [done|]. split; [done|].
    rewrite Hl. simpl. rewrite length_app. simpl. split; [lia|].
    intros x Hx. assert (x <> p) by (intros ->; destruct Hx; congruence).
    rewrite Hh by (by rewrite lookup_insert_ne). by rewrite lookup_insert_ne.
Qed.

Lemma make_ok h :
  exists ps q h', make h = (q, h') /\ queue_ok ps q h' /\ q.(active_queue_) = [] /\
    length q.(free_list_) = PIPELINE_DEPTH.
Proof.
  destruct (fill_ok PIPELINE_DEPTH [] (PipelineDataQueue [] []) h)
    as (ps & q & h' & Hf & Hq & Ha & Hl & _).
  { constructor; [done|apply NoDup_nil_2|]. intros p Hp. by apply not_elem_of_nil in Hp. }
  { done. }
  exists ps, q, h'. done.
Qed.

Lemma queue_element_ok ps q h :
  queue_ok ps q h ->
  match q.(free_list_) with
  | [] => queue_element q h = Aborted
  | p :: fs => exists d, h !! p = Some d /\
      queue_element q h = Ok (p, PipelineDataQueue (q.(active_queue_) ++ [p]) fs,
        <[p := pipeline_data.reset d]> h) /\
      queue_ok ps (PipelineDataQueue (q.(active_queue_) ++ [p]) fs) (<[p := pipeline_data.reset d]> h) /\
      p ∉ q.(active_queue_)
  end.
Proof.
  intros [He Hd Hl]. unfold queue_element, queue_full. destruct q as [act [|p fs]]; [done|]. simpl in *.
  assert (p ∈ ps) as Hp by (rewrite <- He, elem_of_app; right; apply list_elem_of_here).
  destruct (Hl p Hp) as [d Hd']. exists d. split; [done|].
  assert (queue_empty (PipelineDataQueue (act ++ [p]) fs) = false) as -> by (by destruct act).
  simpl. rewrite last_snoc. simpl. rewrite Hd'. simpl. rewrite length_app, Nat.eqb_refl. simpl.
  rewrite Nat.sub_0_r, Nat.eqb_refl. simpl. split; [done|]. split.
  - constructor; simpl; [by rewrite <- app_assoc|done|].
    intros x Hx. destruct (decide (x = p)) as [->|]; [rewrite lookup_insert_eq; eauto|].
    rewrite lookup_insert_ne by done. auto.
  - intros Hin. rewrite <- He in Hd. apply NoDup_app in Hd as (_ & Hdis & _).
    apply (Hdis p Hin). apply list_elem_of_here.
Qed.

Lemma dequeue_element_ok ps q h :
  queue_ok ps q h ->
  match q.(active_queue_) with
  | [] => dequeue_element q = Aborted
  | p :: act => dequeue_element q = Ok (PipelineDataQueue act (p :: q.(free_list_))) /\
      queue_ok ps (PipelineDataQueue act (p :: q.(free_list_))) h
  end.
Proof.
  intros [He Hd Hl]. unfold dequeue_element, queue_empty. destruct q as [[|p act] fs]; [done|]. simpl in *.
  rewrite Nat.sub_0_r, Nat.eqb_refl, Nat.add_1_r. simpl. rewrite Nat.eqb_refl. simpl. split; [done|].
  constructor; simpl; [|done|done]. by rewrite <- He, Permutation_middle.
Qed.

Lemma empty_queue_ok ps q h :
  queue_ok ps q h ->
  exists q', empty_queue q = Ok q' /\ q'.(active_queue_) = [] /\ queue_ok ps q' h.
Proof.
  intros [He Hd Hl]. unfold empty_queue, queue_empty. destruct q as [[|p act] fs]; simpl in *.
  - eexists. split; [reflexivity|]. by repeat split.
  - eexists. split; [reflexivity|]. split; [done|]. constructor; simpl; [|done|done].
    by rewrite <- He, (Permutation_app_comm fs).
Qed.

Lemma step_ok ps q h q' h' : step (q, h) (q', h') -> queue_ok ps q h -> queue_ok ps q' h'.
Proof.
  intros Hs Hq. inversion Hs; subst.
  - pose proof (queue_element_ok _ _ _ Hq) as He. destruct (free_list_ q) as [|x fs]; [congruence|].
    destruct He as (d & _ & He & Hq' & _). congruence.
  - pose proof (dequeue_element_ok _ _ _ Hq) as He. destruct (active_queue_ q) as [|x act]; [congruence|].
    destruct He as [He Hq']. congruence.
  - destruct (empty_queue_ok _ _ _ Hq) as (q2 & He & _ & Hq'). congruence.
  - destruct Hq as [He Hd Hl]. constructor; [done|done|]. intros x Hx.
    destruct (decide (x = p)) as [->|]; [rewrite lookup_insert_eq; eauto|].
    rewrite lookup_insert_ne by done. auto.
Qed.

Lemma steps_ok ps s s' : rtc step s s' -> queue_ok ps s.1 s.2 -> queue_ok ps s'.1 s'.2.
Proof. induction 1 as [|[q h] [q1 h1] s2 Hs _ IH]; [done|]. intros Hq. by apply IH, (step_ok _ q h). Qed.

Lemma reachable_ok h0 q0 h1 q h :
  make h0 = (q0, h1) -> rtc step (q0, h1) (q, h) ->
  queue_ok (free_list_ q0) q h /\ length (free_list_ q0) = PIPELINE_DEPTH.
Proof.
  intros Hm Hr. destruct (make_ok h0) as (ps & q1 & h2 & Hm' & [He Hd Hlive] & Ha & Hl).
  rewrite Hm in Hm'. injection Hm' as <- <-. split; [|done].
  apply (steps_ok _ _ _ Hr). rewrite Ha in He. simpl in He. constructor; simpl.
  - by rewrite Ha.
  - by rewrite He.
  - intros p Hp. apply Hlive. by rewrite <- He.
Qed.

End queue.

(** * Lemmas: the log *)
Section log.
Import log_record access_log.

Lemma cut_app c (a b x y : list Z) :
  c ∉ a -> c ∉ b -> a ++ c :: x = b ++ c :: y -> a = b /\ x = y.
Proof.
  revert b. induction a as [|d a IH]; intros [|e b] Ha Hb Heq; simpl in Heq.
  - by injection Heq as ->.
  - injection Heq as <- _. exfalso. apply Hb, list_elem_of_here.
  - injection Heq as -> _. exfalso. apply Ha, list_elem_of_here.
  - injection Heq as -> Heq. destruct (IH b) as [-> ->]; [| |done|done].
    + intros ?. apply Ha. by apply list_elem_of_further.
    + intros ?. apply Hb. by apply list_elem_of_further.
Qed.

(** The fields of a record that the line can be taken apart into again: the
    ones written bare hold no space, the quoted ones no quote, and the time
    is a bracketed one. *)
Record clean (r : combined_log_record) : Prop := {
  cl_ip : 32 ∉ r.(remote_ip);
  cl_logname : 32 ∉ r.(remote_logname);
  cl_user : 32 ∉ r.(user);
  cl_time : exists t, r.(time) = t ++ str "]" /\ 93 ∉ t;
  cl_request : 34 ∉ r.(requestline);
  cl_status : 32 ∉ r.(status);
  cl_bytes : 32 ∉ r.(bytes_sent);
  cl_referer : 34 ∉ r.(referer);
  cl_agent : 34 ∉ r.(user_agent)
}.

Lemma quoted_cut (a b : list Z) c x y :
  34 ∉ a -> 34 ∉ b -> c <> 34 ->
  concat (quoted a) ++ c :: x = concat (quoted b) ++ c :: y -> a = b /\ x = y.
Proof.
  intros Ha Hb Hc. unfold quoted.
  destruct (bool_decide_reflect (a = str "-")) as [->|Hna], (bool_decide_reflect (b = str "-")) as [->|Hnb];
    cbn [concat app quote]; rewrite ?app_nil_r.
  - cbn. intros Heq. by injection Heq as ->.
  - cbn. intros Heq. discriminate.
  - cbn. intros Heq. discriminate.
  - intros Heq. rewrite <- !app_assoc in Heq. cbn [app] in Heq. injection Heq as Heq.
    apply cut_app in Heq as [-> Heq]; [|done|done]. by injection Heq as ->.
Qed.

(** The line as nested fields. *)
Lemma log_line r :
  concat (log_vector r) =
  r.(remote_ip) ++ 32 :: r.(remote_logname) ++ 32 :: r.(user) ++ 32 :: r.(time) ++ 32 ::
  concat (quoted r.(requestline)) ++ 32 :: r.(status) ++ 32 :: r.(bytes_sent) ++ 32 ::
  concat (quoted r.(referer)) ++ 32 :: concat (quoted r.(user_agent)) ++ [10].
Proof.
  unfold log_vector. rewrite !concat_app. cbn [concat app space newline].
  change (str " ") with [32]. by repeat (rewrite <- ?app_assoc, ?app_nil_r; cbn [app]).
Qed.

Lemma length_quoted s : (length (quoted s) <= 3)%nat.
Proof. unfold quoted. case_match; simpl; lia. Qed.

Lemma length_log_vector r : (length (log_vector r) <= 24)%nat.
Proof.
  unfold log_vector. rewrite !length_app. simpl.
  pose proof (length_quoted (requestline r)). pose proof (length_quoted (referer r)).
  pose proof (length_quoted (user_agent r)). lia.
Qed.

Record valid_date (d : tm) : Prop := {
  vd_mday : 1 <= d.(tm_mday) <= 31;
  vd_mon : 0 <= d.(tm_mon) < 12;
  vd_year : 0 <= 1900 + d.(tm_year) < 10000;
  vd_hour : 0 <= d.(tm_hour) < 24;
  vd_min : 0 <= d.(tm_min) < 60;
  vd_sec : 0 <= d.(tm_sec) <= 60;
  vd_off : - 86400 < d.(tm_gmtoff) < 86400
}.

Lemma print_0d_digits w n :
  (0 < w)%nat -> (w <= 20)%nat -> 0 <= n < 10 ^ Z.of_nat w ->
  length (print_0d w n) = w /\ Forall (fun c => 48 <= c <= 57) (print_0d w n).
Proof.
  intros Hw Hw2 Hn. unfold print_0d. replace (n <? 0) with false by lia. unfold zero_pad.
  destruct (decimal_spec n w) as [Hd Hl]; [lia|lia|].
  rewrite length_app, length_replicate. split; [lia|].
  apply Forall_app. split; [apply Forall_replicate; lia|done].
Qed.

(** No piece of the time holds the bracket that ends it. *)
Definition plain (l : list Z) : Prop := 93 ∉ l.

Lemma digits_plain l : Forall (fun c => 48 <= c <= 57) l -> plain l.
Proof. intros Hl Hin. apply (proj1 (Forall_forall _ _) Hl) in Hin. lia. Qed.

Lemma plain_app a b : plain a -> plain b -> plain (a ++ b).
Proof. unfold plain. intros Ha Hb Hin. by apply elem_of_app in Hin as [?|?]. Qed.

Lemma zero_pad_plain w n : 0 <= n < 10 ^ 20 -> plain (zero_pad w (decimal n)).
Proof.
  intros Hn. apply digits_plain. unfold zero_pad. apply Forall_app.
  split; [apply Forall_replicate; lia|]. apply (decimal_spec n 20); [simpl; lia|lia].
Qed.

Lemma print_plain w n :
  - 10 ^ 20 < n < 10 ^ 20 -> plain (print_0d w n) /\ plain (print_plus_0d w n).
Proof.
  intros Hn. assert (forall c, c <> 93 -> plain [c]) as Hone
    by (intros c Hc Hin; apply list_elem_of_singleton in Hin; congruence).
  unfold print_0d, print_plus_0d. destruct (Z.ltb_spec n 0).
  - split; (apply plain_app; [by apply (Hone 45)|apply zero_pad_plain; lia]).
  - split; [apply zero_pad_plain; lia|apply plain_app; [by apply (Hone 43)|apply zero_pad_plain; lia]].
Qed.

Lemma month_plain k m : months !! k = Some m -> plain m /\ length m = 3%nat.
Proof.
  intros Hm. assert (forall l, bool_decide (93 ∈ l) = false -> plain l) as Hdec
    by (intros l Hl; by apply bool_decide_eq_false_1 in Hl).
  do 12 (destruct k as [|k]; [injection Hm as <-; split; [by apply Hdec|done]|]). done.
Qed.

Lemma hour_offset off :
  - 86400 < off < 86400 -> -24 < Z.quot off 3600 < 24 /\ -60 < Z.rem (Z.quot off 60) 60 < 60.
Proof.
  intros Hoff. Z.to_euclidean_division_equations. lia.
Qed.

Lemma print_length n :
  -60 < n < 60 -> (length (print_0d 2 n) <= 3)%nat /\ length (print_plus_0d 3 n) = 3%nat.
Proof.
  intros Hn. unfold print_0d, print_plus_0d. destruct (Z.ltb_spec n 0); unfold zero_pad.
  - destruct (decimal_spec (- n) 2) as [_ Hl]; [simpl; lia|lia|].
    rewrite !length_app, !length_replicate. change (length (str "-")) with 1%nat. lia.
  - destruct (decimal_spec n 2) as [_ Hl]; [simpl; lia|lia|].
    rewrite !length_app, !length_replicate. change (length (str "+")) with 1%nat. lia.
Qed.

(** The time of a valid date: 28 characters when the zone is not a negative
    fraction of an hour. *)
Lemma format_time_ok d :
  valid_date d ->
  exists t, format_time d = Ok (t ++ str "]") /\ plain t /\
    (0 <= d.(tm_gmtoff) -> length t = 27%nat).
Proof.
  intros []. unfold format_time. replace (tm_mon d <? 0) with false by lia.
  destruct (lookup_lt_is_Some_2 months (Z.to_nat (tm_mon d))) as [m Hm]; [simpl; lia|].
  rewrite Hm. cbn [of_option]. rewrite bind_ok.
  destruct (month_plain _ _ Hm) as [Hmp Hml]. destruct (hour_offset _ vd_off0) as [Hh Hmin].
  destruct (print_0d_digits 2 (tm_mday d)) as [L1 D1]; [lia|lia|lia|].
  destruct (print_0d_digits 4 (1900 + tm_year d)) as [L2 D2]; [lia|lia|lia|].
  destruct (print_0d_digits 2 (tm_hour d)) as [L3 D3]; [lia|lia|lia|].
  destruct (print_0d_digits 2 (tm_min d)) as [L4 D4]; [lia|lia|lia|].
  destruct (print_0d_digits 2 (tm_sec d)) as [L5 D5]; [lia|lia|lia|].
  set (hours := Z.quot (tm_gmtoff d) 3600) in *. set (mins := Z.rem (Z.quot (tm_gmtoff d) 60) 60) in *.
  set (t := str "[" ++ print_0d 2 (tm_mday d) ++ str "/" ++ m ++ str "/" ++
    print_0d 4 (1900 + tm_year d) ++ str ":" ++ print_0d 2 (tm_hour d) ++ str ":" ++
    print_0d 2 (tm_min d) ++ str ":" ++ print_0d 2 (tm_sec d) ++ str " " ++
    print_plus_0d 3 hours ++ print_0d 2 mins).
  pose proof (print_length hours ltac:(lia)) as [_ L6].
  pose proof (print_length mins ltac:(lia)) as [L7 _].
  assert (plain t) as Hp.
  { assert (forall l, bool_decide (93 ∈ l) = false -> plain l) as Hdec
      by (intros l Hl; by apply bool_decide_eq_false_1 in Hl).
    unfold t. repeat (apply plain_app; [first [by apply Hdec|by apply digits_plain|done|apply print_plain; lia]|]).
    apply print_plain. lia. }
  assert (length t = 25 + length (print_0d 2 mins))%nat as Hlen
    by (unfold t; rewrite !length_app, Hml, L1, L2, L3, L4, L5, L6; simpl; lia).
  exists t. split; [|split; [done|]].
  - f_equal. rewrite take_ge; [unfold t; by rewrite <- !app_assoc|].
    transitivity (length (t ++ str "]")); [unfold t; rewrite <- !app_assoc; done|].
    rewrite length_app, Hlen. simpl. lia.
  - intros Hpos. rewrite Hlen. assert (0 <= mins).
    { unfold mins. apply Z.rem_nonneg; [lia|]. apply Z.quot_pos; lia. }
    destruct (print_0d_digits 2 mins) as [-> _]; [lia|lia|lia|done].
Qed.

Lemma log_line_injective r1 r2 :
  clean r1 -> clean r2 -> concat (log_vector r1) = concat (log_vector r2) -> r1 = r2.
Proof.
  intros [] []. rewrite !log_line. intros Heq.
  apply cut_app in Heq as [E1 Heq]; [|done|done]. apply cut_app in Heq as [E2 Heq]; [|done|done].
  apply cut_app in Heq as [E3 Heq]; [|done|done].
  destruct cl_time0 as (t1 & Et1 & Ht1), cl_time1 as (t2 & Et2 & Ht2).
  rewrite Et1, Et2, <- !app_assoc in Heq. cbn [app] in Heq.
  apply (cut_app 93) in Heq as [E4 Heq]; [|done|done]. injection Heq as Heq.
  apply quoted_cut in Heq as [E5 Heq]; [|done|done|done].
  apply cut_app in Heq as [E6 Heq]; [|done|done]. apply cut_app in Heq as [E7 Heq]; [|done|done].
  apply quoted_cut in Heq as [E8 Heq]; [|done|done|done].
  apply quoted_cut in Heq as [E9 _]; [|done|done|done].
  destruct r1, r2. cbn in *. congruence.
Qed.

End log.

(** * Properties *)
Import pipeline_data_queue.

(** No element of a queue is lost, duplicated or freed: in every state
    reachable from the constructor the active queue and the free list
    together hold the five elements made at the start, each once and alive,
    so that the queue is full exactly when five elements are active. *)
Theorem queue_elements_conserved h0 q0 h1 q h :
  make h0 = (q0, h1) -> rtc step (q0, h1) (q, h) ->
  (q.(active_queue_) ++ q.(free_list_) ≡ₚ q0.(free_list_)) /\
  NoDup (q.(active_queue_) ++ q.(free_list_)) /\
  (forall p, p ∈ q.(active_queue_) ++ q.(free_list_) -> is_Some (h !! p)) /\
  (queue_full q = true <-> length q.(active_queue_) = PIPELINE_DEPTH).
Proof.
  intros Hm Hr. destruct (reachable_ok _ _ _ _ _ Hm Hr) as [[He Hd Hl] Hlen].
  split; [done|]. split; [by rewrite He|]. split; [intros p Hp; apply Hl; by rewrite <- He|].
  apply Permutation_length in He. rewrite length_app in He.
  unfold queue_full. destruct (free_list_ q); simpl in *; split; (done || lia).
Qed.

Lemma queue_elements_conserved_witness :
  exists q h, rtc step (make ∅) (q, h) /\ NoDup (q.(active_queue_) ++ q.(free_list_)) /\
    length q.(active_queue_) = 1%nat.
Proof.
  destruct (make ∅) as [q0 h1] eqn:Em.
  destruct (queue_element q0 h1) as [[[p q] h]| | |] eqn:Eq;
    [|vm_compute in Em; injection Em as <- <-; vm_compute in Eq; discriminate..].
  assert (rtc step (q0, h1) (q, h)) as Hr by (eapply rtc_once, step_queue, Eq).
  exists q, h. split; [exact Hr|].
  split; [exact (proj1 (proj2 (queue_elements_conserved ∅ q0 h1 q h Em Hr)))|].
  vm_compute in Em. injection Em as <- <-. vm_compute in Eq. injection Eq as _ <- _. reflexivity.
Defined.

(** C36: the queue is first in, first out, and every failure is an abort: an
    element is taken from the free list when there is one, is emptied, is not
    active yet and becomes the last of the active queue, the other records
    being left alone; [front] and [dequeue_element] take the element that
    was queued first. *)
Theorem queue_fifo h0 q0 h1 q h :
  make h0 = (q0, h1) -> rtc step (q0, h1) (q, h) ->
  (if queue_full q then queue_element q h = Aborted
   else exists p fs h', queue_element q h = Ok (p, PipelineDataQueue (q.(active_queue_) ++ [p]) fs, h') /\
     (p ∉ q.(active_queue_)) /\ h' !! p = Some pipeline_data.make /\
     forall p', p' <> p -> h' !! p' = h !! p') /\
  match q.(active_queue_) with
  | [] => front q = Aborted /\ dequeue_element q = Aborted
  | p :: act => front q = Ok p /\ exists q', dequeue_element q = Ok q' /\ q'.(active_queue_) = act
  end.
Proof.
  intros Hm Hr. destruct (reachable_ok _ _ _ _ _ Hm Hr) as [Hq _]. split.
  - pose proof (queue_element_ok _ _ _ Hq) as He. unfold queue_full.
    destruct (free_list_ q) as [|p fs]; [done|]. destruct He as (d & Hd & He & _ & Hp).
    eexists p, fs, _. split; [exact He|]. split; [done|].
    split; [by rewrite lookup_insert_eq|]. intros p' Hne. by rewrite lookup_insert_ne.
  - pose proof (dequeue_element_ok _ _ _ Hq) as He. unfold front, queue_empty.
    destruct (active_queue_ q) as [|p act]; [done|]. destruct He as [He _].
    split; [done|]. eexists. split; [exact He|done].
Qed.

Lemma queue_fifo_witness :
  exists q h, make ∅ = (q, h) /\ front q = Aborted /\ exists p q' h', queue_element q h = Ok (p, q', h').
Proof.
  destruct (make ∅) as [q0 h1] eqn:Em. exists q0, h1. split; [reflexivity|].
  pose proof (queue_fifo ∅ q0 h1 q0 h1 Em (rtc_refl _ _)) as [He Hf].
  vm_compute in Em. injection Em as <- <-. split; [exact (proj1 Hf)|].
  destruct He as (p & fs & h' & He & _). do 3 eexists. exact He.
Defined.

(** A line of the access log determines its record: [log_access] of a
    valid date hands [writev] one vector that fits the array of 24, and two
    records whose fields can be told apart (no space in the bare ones, no
    quote in the quoted ones) give the same line only when they are the same
    record. *)
Theorem access_log_line date r fd :
  valid_date date -> fd <> -1 ->
  exists r' v, access_log.log_access date r (access_log.AccessLog fd) = Ok (r', Some v) /\
    (length v <= 24)%nat /\
    (exists t, r'.(time) = t ++ str "]" /\ 93 ∉ t) /\
    forall r2, clean r' -> clean r2 -> concat (access_log.log_vector r2) = concat v -> r2 = r'.
Proof.
  intros Hd Hfd. destruct (format_time_ok date Hd) as (t & Ht & Hp & _).
  unfold access_log.log_access, log_record.set_time. cbn [access_log.logfd_].
  replace (fd =? -1) with false by lia. rewrite Ht, !bind_ok.
  set (r' := log_record.set_dash _).
  pose proof (length_log_vector r') as Hl. rewrite (proj2 (Nat.leb_le _ _) Hl).
  exists r', (access_log.log_vector r'). split; [done|]. split; [done|]. split.
  - exists t. split; [|done]. unfold r'. cbn. by destruct t.
  - intros r2 Hc Hc2 Heq. by apply log_line_injective.
Qed.

Definition sample_date : log_record.tm := log_record.Tm 9 6 107 10 5 3 3600.

Lemma access_log_line_witness :
  exists r' v, access_log.log_access sample_date log_record.reset (access_log.AccessLog 4) =
      Ok (r', Some v) /\ (length v <= 24)%nat /\
    concat v = str "- - - [09/Jul/2007:10:05:03 +0100] - - - - -" ++ [10].
Proof.
  destruct (access_log_line sample_date log_record.reset 4) as (r' & v & Hl & Hlen & _);
    [constructor; cbn; lia|lia|].
  exists r', v. split; [exact Hl|]. split; [exact Hlen|].
  vm_compute in Hl. injection Hl as _ <-. reflexivity.
Defined.

(** The time of a log record of a valid date east of Greenwich has the
    28 characters of the combined log format, bracketed. *)
Theorem format_time_length date :
  valid_date date -> 0 <= date.(log_record.tm_gmtoff) ->
  exists s, log_record.format_time date = Ok s /\ length s = 28%nat /\
    exists t, s = t ++ str "]" /\ 93 ∉ t.
Proof.
  intros Hd Hoff. destruct (format_time_ok date Hd) as (t & Ht & Hp & Hl).
  exists (t ++ str "]"). split; [done|]. rewrite length_app, (Hl Hoff). split; [done|]. by exists t.
Qed.

Lemma format_time_length_witness :
  exists s, log_record.format_time sample_date = Ok s /\ length s = 28%nat.
Proof.
  destruct (format_time_length sample_date) as (s & H1 & H2 & _); [constructor; cbn; lia|cbn; lia|].
  exists s. split; [exact H1|exact H2].
Defined.

(** West of Greenwich the minutes of a zone that is not a whole hour carry a
    sign of their own: Newfoundland's -0330 is printed as -03-30. *)
Lemma negative_half_hour_zone :
  log_record.format_time (log_record.Tm 9 6 107 10 5 3 (-12600)) =
    Ok (str "[09/Jul/2007:10:05:03 -03-30]").
Proof. vm_compute. reflexivity. Qed.

(** The element that is dequeued for a response is the next one to be
    queued: the record of a response that is still being forwarded is
    emptied when the next request comes in. *)
Lemma dequeued_element_reused :
  exists q0 h0 p q1 h1 q2 q3 h3,
    make ∅ = (q0, h0) /\ queue_element q0 h0 = Ok (p, q1, h1) /\ dequeue_element q1 = Ok q2 /\
    queue_element q2 h1 = Ok (p, q3, h3) /\ h3 !! p = Some pipeline_data.make.
Proof.
  do 8 eexists. split; [vm_compute; reflexivity|]. split; [vm_compute; reflexivity|].
  split; [vm_compute; reflexivity|]. split; vm_compute; reflexivity.
Qed.
