(* ===== verification/Url.v ===== *)
(** URLs (http/url.cpp) and the rules that choose one for a path
    (app/host_rules.hpp). *)
From S2P Require Import Prelude ReadWriteBuffer Printf.

Module url.

Inductive PARSE_STATUS := VALID | NO_PROTOCOL | INVALID.

(** [A] is the type of addresses of the socket library. *)
Record t (A : Type) := Url {
  endpoint : option (A * Z);
  raw_url : list Z;
  protocol : list Z;
  hostname : list Z;
  port : Z;
  path : list Z;
  found_host : bool
}.
Arguments Url {A} _ _ _ _ _ _ _.
Arguments endpoint {A} _.
Arguments raw_url {A} _.
Arguments protocol {A} _.
Arguments hostname {A} _.
Arguments port {A} _.
Arguments path {A} _.
Arguments found_host {A} _.

(** [char buf[4096]]: a character that was not written is indeterminate. *)
Definition indx_max : nat := 4095.
Abbreviation buffer := (list (option Z)) (only parsing).

(** The C string at the start of the buffer. *)
Fixpoint buffer_string (buf : buffer) : res (list Z) :=
  match buf with
  | Some c :: buf => if c =? 0 then Ok [] else s ← buffer_string buf; Ok (c :: s)
  | None :: _ | [] => Undef
  end.

(** [strchr(buf, c)] on the buffer. *)
Fixpoint buffer_strchr (c : Z) (buf : buffer) : res bool :=
  match buf with
  | Some d :: buf => if d =? c then Ok true else if d =? 0 then Ok false else buffer_strchr c buf
  | None :: _ | [] => Undef
  end.

Definition put (i : nat) (c : Z) (buf : buffer) : buffer := <[i := Some c]> buf.

(** [strchr(cur, c)] on the rest of the URL. *)
Definition strchr (cur : list Z) (c : Z) : bool := existsb (fun d => d =? c) cur.

(** The rest of the URL is the list of its characters before the NUL, which
    [c_at] answers at its end. *)
Definition cur_at (cur : list Z) (i : nat) : Z := c_at cur i.

(** The first loop: the characters up to [://]; [Some] when it was found. *)
Fixpoint protocol_loop (cur : list Z) (buf : buffer) (indx : nat)
    : option buffer * list Z * buffer * nat :=
  match cur with
  | [] => (None, [], buf, indx)
  | c :: cur' =>
      if negb (indx <? indx_max)%nat then (None, cur, buf, indx)
      else if (c =? 58) && (cur_at cur 1 =? 47) && (cur_at cur 2 =? 47) then
        let buf := put indx 0 buf in (Some buf, drop 3 cur, buf, 0%nat)
      else protocol_loop cur' (put indx c buf) (S indx)
  end.

(** The loop over decimal digits: the port is an unsigned short. *)
Fixpoint port_loop (cur : list Z) (port : Z) : Z * list Z :=
  match cur with
  | c :: cur' =>
      if (48 <=? to_char c) && (to_char c <=? 57) then
        port_loop cur' (u16 (u16 (port * 10) + (c - 48)))
      else (port, cur)
  | [] => (port, [])
  end.

(** Up to the next slash or the end. *)
Fixpoint skip_to_path (cur : list Z) : list Z :=
  match cur with
  | c :: cur' => if c =? 47 then cur else skip_to_path cur'
  | [] => []
  end.

(** After the host's colon. *)
Definition parse_port (cur : list Z) : Z * list Z :=
  let '(port, cur) := port_loop cur 0 in
  (if port =? 0 then 80 else port, skip_to_path cur).

(** The characters up to the closing bracket. *)
Fixpoint bracket_loop (cur : list Z) (buf : buffer) (indx : nat) : res (list Z * buffer * nat) :=
  match cur with
  | c :: cur' =>
      if negb (c =? 93) && (indx <? indx_max)%nat then bracket_loop cur' (put indx c buf) (S indx)
      else Ok (cur, buf, indx)
  | [] => if (indx <? indx_max)%nat then Undef else Ok ([], buf, indx)
  end.

(** What the host loop ends with: an invalid URL, or the rest of the URL
    with the host and the port it found. *)
Inductive host_result :=
  | Invalid
  | Host (hostname : option (list Z)) (port : Z) (cur : list Z) (buf : buffer).

(** The block of the brackets. *)
Definition parse_bracketed (cur : list Z) (buf : buffer) (indx : nat) (port : Z) : res host_result :=
  '(cur, buf, indx) ← bracket_loop (drop 1 cur) buf indx;
  has_colon ← buffer_strchr 58 buf;
  if negb has_colon then Ok Invalid
  else
    let buf := put indx 0 buf in
    hostname ← buffer_string buf;
    match cur with
    | [] => Undef
    | _ :: cur =>
        if cur_at cur 0 =? 58 then
          let '(port, cur) := parse_port (drop 1 cur) in
          Ok (Host (Some hostname) port cur buf)
        else Ok (Host (Some hostname) port cur buf)
    end.

(** The second loop. *)
Fixpoint host_loop (cur : list Z) (buf : buffer) (indx : nat) (port : Z) : res host_result :=
  if negb (indx <? indx_max)%nat then Ok (Host None port cur buf)
  else if xorb (strchr cur 91) (strchr cur 93) then Ok Invalid
  else if cur_at cur 0 =? 91 then parse_bracketed cur buf indx port
  else if cur_at cur 0 =? 58 then
    let buf := put indx 0 buf in
    hostname ← buffer_string buf;
    let '(port, cur) := parse_port (drop 1 cur) in
    Ok (Host (Some hostname) port cur buf)
  else
    match cur with
    | [] => let buf := put indx 0 buf in hostname ← buffer_string buf; Ok (Host (Some hostname) port [] buf)
    | c :: cur' =>
        if c =? 47 then
          let buf := put indx 0 buf in
          hostname ← buffer_string buf; Ok (Host (Some hostname) port cur buf)
        else host_loop cur' (put indx c buf) (S indx) port
    end.

(** The rest of the URL is the path. *)
Definition parse_path (cur : list Z) : list Z :=
  match cur with [] => str "/" | _ => take indx_max cur end.

(** [parse_url]; the null check comes after the string was made. *)
Definition parse_url {A} (URL : option (list Z)) (u : t A) : res (PARSE_STATUS * t A) :=
  cur ← of_option URL;
  let u := Url u.(endpoint) cur u.(protocol) u.(hostname) 80 u.(path) u.(found_host) in
  let buf := put 0 0 (replicate 4096 None) in
  let '(found, cur, buf, indx) := protocol_loop cur buf 0 in
  proto ← (match found with Some b => buffer_string b | None => Ok u.(protocol) end);
  let u := Url u.(endpoint) u.(raw_url) proto u.(hostname) u.(port) u.(path) u.(found_host) in
  match cur with
  | [] => Ok (NO_PROTOCOL, u)
  | _ =>
      r ← host_loop cur (put indx 0 buf) indx u.(port);
      match r with
      | Invalid => Ok (INVALID, u)
      | Host host port cur buf =>
          Ok (VALID, Url u.(endpoint) u.(raw_url) u.(protocol) (default u.(hostname) host) port
                (parse_path cur) u.(found_host))
      end
  end.

(** The default constructor leaves the two scalar members indeterminate. *)
Definition make_default {A} (port : Z) (found_host : bool) : t A :=
  Url None [] [] [] port [] found_host.

(** The address of a host name comes from the resolver. *)
Definition resolve_addr {A} (resolver : list Z -> A) (u : t A) : t A :=
  Url (Some (resolver u.(hostname), u.(port))) u.(raw_url) u.(protocol) u.(hostname) u.(port)
    u.(path) u.(found_host).

Definition make {A} (resolver : list Z -> A) (URL : option (list Z)) (resolve : bool) (port : Z)
    : res (t A) :=
  '(_, u) ← parse_url URL (make_default port false);
  Ok (if resolve then resolve_addr resolver u else u).

Definition copy {A} (rhs : t A) : t A :=
  Url rhs.(endpoint) rhs.(raw_url) rhs.(protocol) rhs.(hostname) rhs.(port) rhs.(path) rhs.(found_host).

Definition host_with_port {A} (u : t A) : list Z :=
  if negb (u.(port) =? 80) then u.(hostname) ++ str ":" ++ take 49 (print_i u.(port))
  else u.(hostname).

End url.

(** * Host rules *)
Module host_rules.

Record host_rule (A : Type) := HostRule {
  match_path_ : list Z;
  forward_url_ : url.t A
}.
Arguments HostRule {A} _ _.
Arguments match_path_ {A} _.
Arguments forward_url_ {A} _.

Record t (A : Type) := HostRules {
  rules_ : list (host_rule A);
  default_forward_url_ : url.t A;
  preserve_host_ : bool
}.
Arguments HostRules {A} _ _ _.
Arguments rules_ {A} _.
Arguments default_forward_url_ {A} _.
Arguments preserve_host_ {A} _.

Section rules.
Context {A : Type}.

Definition make (default_forward_url : url.t A) (preserve_host : bool) : t A :=
  HostRules [] default_forward_url preserve_host.

Definition add_rule (rule : host_rule A) (r : t A) : t A :=
  HostRules (r.(rules_) ++ [rule]) r.(default_forward_url_) r.(preserve_host_).

(** The loop over the list. *)
Fixpoint find_rule (path : list Z) (rules : list (host_rule A)) : option (url.t A) :=
  match rules with
  | [] => None
  | cur :: rules =>
      if bool_decide (cur.(match_path_) = path) then Some cur.(forward_url_) else find_rule path rules
  end.

Definition find_forward_url (path : list Z) (r : t A) : option (url.t A) := find_rule path r.(rules_).

Definition preserve_host (r : t A) : bool := r.(preserve_host_).
Definition default_forward_url (r : t A) : url.t A := r.(default_forward_url_).

End rules.
End host_rules.

(** * Lemmas *)
Section lemmas.
Import url.

(** The buffer holds [l] so far. *)
Record holds (buf : buffer) (l : list Z) : Prop := {
  ho_length : length buf = 4096%nat;
  ho_prefix : take (length l) buf = map Some l;
  ho_nonzero : Forall (fun c => c <> 0) l
}.

Lemma holds_put buf l c :
  holds buf l -> (length l < indx_max)%nat -> c <> 0 -> holds (put (length l) c buf) (l ++ [c]).
Proof.
  intros [Hl Hp Hz] Hlt Hc. unfold indx_max in Hlt. unfold put. constructor.
  - by rewrite length_insert.
  - rewrite length_app, Nat.add_1_r, map_app. simpl.
    erewrite take_S_r by (rewrite list_lookup_insert_eq; [reflexivity|lia]).
    by rewrite take_insert_ge, Hp by lia.
  - apply Forall_app. split; [done|]. by constructor.
Qed.

Lemma holds_nil buf : length buf = 4096%nat -> holds buf [].
Proof. intros Hl. by constructor. Qed.

(** The NUL that ends the string. *)
Lemma holds_string buf l :
  holds buf l -> (length l <= indx_max)%nat ->
  length (put (length l) 0 buf) = 4096%nat /\ buffer_string (put (length l) 0 buf) = Ok l.
Proof.
  intros [Hl Hp Hz] Hle. unfold indx_max in Hle. unfold put. rewrite length_insert. split; [done|].
  rewrite <- (take_drop_middle (<[length l := Some 0]> buf) (length l) (Some 0))
    by (rewrite list_lookup_insert_eq; [done|lia]).
  rewrite take_insert_ge, Hp by lia. generalize (drop (S (length l)) (<[length l := Some 0]> buf)).
  clear -Hz. intros r. induction Hz as [|c l Hc _ IH]; [done|]. simpl.
  replace (c =? 0) with false by lia. by rewrite IH.
Qed.

Lemma protocol_loop_found l rest : forall buf pre,
  Forall (fun c => c <> 0 /\ c <> 58) l -> holds buf pre ->
  (length pre + length l < indx_max)%nat ->
  exists buf', protocol_loop (l ++ str "://" ++ rest) buf (length pre) = (Some buf', rest, buf', 0%nat) /\
    length buf' = 4096%nat /\ buffer_string buf' = Ok (pre ++ l).
Proof.
  induction l as [|c l IH]; intros buf pre Hl Hb Hlen; simpl in Hlen.
  - cbn [app protocol_loop str]. replace (length pre <? indx_max)%nat with true
      by (symmetry; apply Nat.ltb_lt; lia). cbn [negb].
    eexists. split; [reflexivity|]. rewrite app_nil_r. apply (holds_string _ _ Hb). lia.
  - inversion Hl as [|? ? [Hc0 Hc] Hl']; subst. cbn [app protocol_loop].
    replace (length pre <? indx_max)%nat with true by (symmetry; apply Nat.ltb_lt; lia). cbn [negb].
    replace (c =? 58) with false by lia. cbn [andb].
    destruct (IH (put (length pre) c buf) (pre ++ [c])) as (buf' & Hp & Hb' & Hs); [done| | |].
    + apply holds_put; [done|lia|done].
    + rewrite length_app. simpl. lia.
    + exists buf'. rewrite length_app, Nat.add_1_r in Hp. rewrite Hp, <- app_assoc in *. done.
Qed.

(** Decimal digits and what follows them. *)
Lemma port_loop_digits ds rest : forall p,
  Forall (fun d => 0 <= d < 10) ds -> 0 <= p ->
  (forall c r, rest = c :: r -> ~ 48 <= to_char c <= 57) ->
  fold_left (fun v d => 10 * v + d) ds p < 2 ^ 16 ->
  port_loop (map decimal_char ds ++ rest) p = (fold_left (fun v d => 10 * v + d) ds p, rest).
Proof.
  induction ds as [|d ds IH]; intros p Hds Hp Hrest Hlt; cbn [fold_left map app] in *.
  - destruct rest as [|c r]; [done|]. cbn [port_loop]. specialize (Hrest c r eq_refl).
    replace (_ && _) with false; [done|]. symmetry. apply andb_false_iff. rewrite !Z.leb_gt. lia.
  - inversion Hds as [|? ? Hd Hds']; subst.
    assert (to_char (decimal_char d) = 48 + d) as Hch.
    { unfold to_char, decimal_char. by replace (48 + d <? 128) with true by lia. }
    cbn [port_loop]. rewrite Hch. replace (48 <=? 48 + d) with true by lia. replace (48 + d <=? 57) with true by lia.
    cbn [andb]. assert (10 * p + d < 2 ^ 16) as Hb.
    { eapply Z.le_lt_trans; [|exact Hlt]. clear -Hds' Hp Hd. assert (0 <= 10 * p + d) as H by lia.
      revert H. generalize (10 * p + d). induction Hds' as [|e ds He _ IH]; intros v Hv; simpl; [lia|].
      specialize (IH (10 * v + e)). lia. }
    assert (u16 (u16 (p * 10) + (decimal_char d - 48)) = 10 * p + d) as ->.
    { unfold u16, decimal_char. rewrite (Z.mod_small (p * 10)) by lia. rewrite Z.mod_small by lia. lia. }
    apply IH; try done. lia.
Qed.

Lemma skip_to_path_slash rest : skip_to_path (47 :: rest) = 47 :: rest.
Proof. done. Qed.

Lemma parse_port_decimal n rest :
  0 < n < 2 ^ 16 -> parse_port (decimal n ++ 47 :: rest) = (n, 47 :: rest).
Proof.
  intros Hn. destruct (digits_spec 10 n) as (Hd & _ & _ & Hv); [lia|lia|].
  unfold parse_port, decimal. rewrite port_loop_digits.
  - unfold value in Hv. rewrite Hv. by replace (n =? 0) with false by lia.
  - done.
  - lia.
  - intros c r [= <- _]. change (to_char 47) with 47. lia.
  - unfold value in Hv. rewrite Hv. lia.
Qed.

Definition host_char (c : Z) : Prop := c <> 0 /\ c <> 58 /\ c <> 47 /\ c <> 91 /\ c <> 93.
Definition no_brackets (l : list Z) : Prop := Forall (fun c => c <> 91 /\ c <> 93) l.

Lemma strchr_none l c : Forall (fun d => d <> c) l -> strchr l c = false.
Proof.
  induction 1 as [|d l Hd _ IH]; [done|]. cbn. replace (d =? c) with false by lia. exact IH.
Qed.

Lemma no_brackets_xor l : no_brackets l -> xorb (strchr l 91) (strchr l 93) = false.
Proof.
  intros Hl. rewrite !strchr_none; [done|..]; (eapply Forall_impl; [exact Hl|]; simpl; tauto).
Qed.

Lemma host_chars_plain l : Forall host_char l -> no_brackets l.
Proof. intros Hl. eapply Forall_impl; [exact Hl|]. unfold host_char. simpl. tauto. Qed.

(** The host ends with a slash or with a port. *)
Lemma host_loop_found l c0 cur port : forall buf pre,
  Forall host_char l -> c0 = 58 \/ c0 = 47 -> no_brackets cur -> holds buf pre ->
  (length pre + length l < indx_max)%nat ->
  exists buf', host_loop (l ++ c0 :: cur) buf (length pre) port =
    if c0 =? 58
    then let '(port, cur) := parse_port cur in Ok (Host (Some (pre ++ l)) port cur buf')
    else Ok (Host (Some (pre ++ l)) port (c0 :: cur) buf').
Proof.
  induction l as [|c l IH]; intros buf pre Hl Hc0 Hr Hb Hlen; simpl in Hlen.
  - exists (put (length pre) 0 buf). rewrite app_nil_r. cbn [app].
    destruct (holds_string _ _ Hb) as [_ Hs]; [lia|]. cbn [host_loop].
    replace (length pre <? indx_max)%nat with true by (symmetry; apply Nat.ltb_lt; lia).
    rewrite no_brackets_xor by (constructor; [lia|done]). cbn [negb].
    change (cur_at (c0 :: cur) 0) with c0. change (drop 1 (c0 :: cur)) with cur.
    replace (c0 =? 91) with false by lia. destruct (Z.eqb_spec c0 58).
    + rewrite Hs, bind_ok. by destruct (parse_port cur).
    + replace (c0 =? 47) with true by lia. by rewrite Hs, bind_ok.
  - inversion Hl as [|? ? (Hc1 & Hc2 & Hc3 & Hc4 & Hc5) Hl']; subst.
    destruct (IH (put (length pre) c buf) (pre ++ [c])) as (buf' & Hp); [done|done|done| | |].
    + apply holds_put; [done|lia|done].
    + rewrite length_app. simpl. lia.
    + exists buf'. cbn [app host_loop].
      replace (length pre <? indx_max)%nat with true by (symmetry; apply Nat.ltb_lt; lia).
      rewrite no_brackets_xor.
      2: { constructor; [lia|]. apply Forall_app. split; [by apply host_chars_plain|].
           constructor; [lia|done]. }
      cbn [negb]. change (cur_at (c :: l ++ c0 :: cur) 0) with c.
      replace (c =? 91) with false by lia. replace (c =? 58) with false by lia.
      replace (c =? 47) with false by lia. rewrite length_app, Nat.add_1_r in Hp.
      by rewrite Hp, <- app_assoc.
Qed.

Record url_ok {A} (u : t A) : Prop := {
  uo_protocol : Forall (fun c => c <> 0 /\ c <> 58) u.(protocol) /\ (length u.(protocol) < indx_max)%nat;
  uo_hostname : Forall host_char u.(hostname) /\ (length u.(hostname) < indx_max)%nat;
  uo_port : 0 < u.(port) < 2 ^ 16;
  uo_path : exists p, u.(path) = 47 :: p /\ no_brackets p /\ (length u.(path) <= indx_max)%nat
}.

Definition print_url {A} (u : t A) : list Z := u.(protocol) ++ str "://" ++ host_with_port u ++ u.(path).

Lemma decimal_plain n : 0 <= n < 10 ^ 20 -> no_brackets (decimal n).
Proof.
  intros Hn. destruct (decimal_spec n 20) as [Hd _]; [simpl; lia|lia|].
  eapply Forall_impl; [exact Hd|]. simpl. lia.
Qed.

Lemma take_port n : 0 < n < 2 ^ 16 -> take 49 (print_i n) = decimal n.
Proof.
  intros Hn. unfold print_i. replace (n <? 0) with false by lia.
  destruct (decimal_spec n 20) as [_ Hl]; [simpl; lia|lia|]. apply take_ge. lia.
Qed.

(** The host of a printed URL, whether its port is printed or not. *)
Lemma host_loop_printed {A} (u : t A) buf :
  url_ok u -> length buf = 4096%nat ->
  exists buf', host_loop (host_with_port u ++ u.(path)) buf 0 80 =
    Ok (Host (Some u.(hostname)) u.(port) u.(path) buf').
Proof.
  intros [_ [Hh Hl] Hp (p & Hpath & Hpp & _)] Hb. unfold host_with_port.
  assert (no_brackets (47 :: p)) as Hpp' by (constructor; [lia|done]).
  destruct (Z.eqb_spec (port u) 80) as [E|]; cbn [negb]; rewrite Hpath.
  - destruct (host_loop_found (hostname u) 47 p 80 buf [] Hh (or_intror eq_refl) Hpp (holds_nil _ Hb))
      as (buf' & Hf); [simpl; lia|]. exists buf'. cbn [length] in Hf. by rewrite Hf, E.
  - destruct (host_loop_found (hostname u) 58 (decimal (port u) ++ 47 :: p) 80 buf []
      Hh (or_introl eq_refl)) as (buf' & Hf); [|by apply holds_nil|simpl; lia|].
    { apply Forall_app. split; [apply decimal_plain; lia|done]. }
    exists buf'. rewrite take_port by done. rewrite <- !app_assoc.
    change (str ":") with [58]. cbn [app].
    cbn [length] in Hf. rewrite Hf, parse_port_decimal by done. done.
Qed.

End lemmas.

(** * Properties *)

(** C39: printing and parsing a URL: a URL printed as protocol, host, port
    (which is left out when it is 80) and path is parsed back to the same
    protocol, host, port and path; no component is cut and the scratch
    buffer is neither overrun nor read where it was not written. *)
Theorem parse_url_roundtrip {A} (u u0 : url.t A) :
  url_ok u ->
  exists raw, url.parse_url (Some (print_url u)) u0 =
    Ok (url.VALID, url.Url (url.endpoint u0) raw (url.protocol u) (url.hostname u) (url.port u)
          (url.path u) (url.found_host u0)).
Proof.
  intros Hu. pose proof Hu as [[Hp Hpl] _ _ (p & Hpath & _ & Hlen)]. exists (print_url u).
  unfold url.parse_url. cbn [of_option]. rewrite bind_ok. unfold print_url.
  destruct (protocol_loop_found (url.protocol u) (url.host_with_port u ++ url.path u)
    (url.put 0 0 (replicate 4096 None)) [] Hp) as (buf & Hf & Hb & Hs).
  { apply holds_nil. unfold url.put. by rewrite length_insert, length_replicate. }
  { simpl. lia. }
  cbn [length] in Hf. rewrite Hf, Hs, bind_ok.
  destruct (url.host_with_port u ++ url.path u) as [|c cur] eqn:E.
  { apply app_eq_nil in E as [_ E]. congruence. }
  destruct (host_loop_printed u (url.put 0 0 buf) Hu) as (buf' & Hh).
  { unfold url.put. by rewrite length_insert. }
  rewrite E in Hh. cbn [url.port]. rewrite Hh, bind_ok. cbn [default].
  replace (url.parse_path (url.path u)) with (url.path u); [done|].
  unfold url.parse_path. rewrite Hpath in *. symmetry. apply take_ge. exact Hlen.
Qed.

Lemma parse_url_roundtrip_witness :
  exists u : url.t unit, url.parse_url (Some (str "http://baus.net:8080/sfrp"))
      (url.make_default 0 false) = Ok (url.VALID, u) /\
    url.hostname u = str "baus.net" /\ url.port u = 8080 /\ url.path u = str "/sfrp".
Proof.
  destruct (parse_url_roundtrip
    (url.Url (A := unit) None [] (str "http") (str "baus.net") 8080 (str "/sfrp") false)
    (url.make_default 0 false)) as (raw & Hp).
  - constructor.
    + split; [repeat constructor; discriminate|cbn; unfold url.indx_max; lia].
    + split; [repeat constructor; discriminate|cbn; unfold url.indx_max; lia].
    + split; reflexivity.
    + exists (str "sfrp"). split; [reflexivity|]. split; [repeat constructor; discriminate|].
      cbn. unfold url.indx_max. lia.
  - eexists. split; [exact Hp|]. split; [reflexivity|]. split; reflexivity.
Defined.

(** A port past 65535 wraps around: 65616 is taken for 80. *)
Lemma port_wraps :
  exists u : url.t unit, url.parse_url (Some (str "http://a:65616/")) (url.make_default 0 false) =
    Ok (url.VALID, u) /\ url.port u = 80.
Proof. eexists. vm_compute. split; reflexivity. Qed.

(** A bracketed host without a colon makes [strchr] read characters of the
    scratch buffer that were never written. *)
Lemma bracketed_host_reads_garbage :
  url.parse_url (A := unit) (Some (str "http://[abcdefgh]/")) (url.make_default 0 false) = Undef.
Proof. vm_compute. reflexivity. Qed.
