(* ===== verification/ConfigFile.v ===== *)
(** Configuration files (util/config_file.cpp): lines [key=value], where a key
    is a name followed by indexes of arrays and names of records.  The members
    of std::string, std::map and std::istream the code uses are modelled as
    the language defines them; boost's [lexical_cast] is a class. *)
From stdpp Require Import list.
From S2P Require Import Prelude Printf.

(** * Strings of the standard library *)

(** [npos] is [None]. *)
Fixpoint find_if (p : Z -> bool) (s : list Z) : option nat :=
  match s with
  | [] => None
  | c :: s => if p c then Some O else S <$> find_if p s
  end.

Definition find_last_if (p : Z -> bool) (s : list Z) : option nat :=
  n ← find_if p (rev s); Some (length s - 1 - n)%nat.

Definition one_of (set : list Z) (c : Z) : bool := bool_decide (c ∈ set).

(** [s.find(pat)] *)
Fixpoint find (pat s : list Z) : option nat :=
  if bool_decide (take (length pat) s = pat) then Some O
  else match s with [] => None | _ :: s => S <$> find pat s end.

(** [s.substr(0, n)] *)
Definition substr_to (n : option nat) (s : list Z) : list Z :=
  match n with Some n => take n s | None => s end.

(** The order of std::string. *)
Fixpoint str_ltb (s t : list Z) : bool :=
  match s, t with
  | _, [] => false
  | [], _ :: _ => true
  | c :: s, d :: t => (c <? d) || ((c =? d) && str_ltb s t)
  end.

(** [std::map<std::string, V>]: the pairs in the order of the keys. *)
Section map.
Context {V : Type}.

Fixpoint map_find (k : list Z) (m : list (list Z * V)) : option V :=
  match m with
  | [] => None
  | (k', v) :: m => if bool_decide (k = k') then Some v else map_find k m
  end.

(** [m[k] = v] *)
Fixpoint map_set (k : list Z) (v : V) (m : list (list Z * V)) : list (list Z * V) :=
  match m with
  | [] => [(k, v)]
  | (k', v') :: m =>
      if bool_decide (k = k') then (k, v) :: m
      else if str_ltb k k' then (k, v) :: (k', v') :: m
      else (k', v') :: map_set k v m
  end.

End map.

(** [std::istream] on a file that was opened: what is left of it, and the two
    bits of its state that reading sets. *)
Record istream := Stream {
  chars : list Z;
  eofbit : bool;
  failbit : bool
}.

Definition good (s : istream) : bool := negb s.(eofbit) && negb s.(failbit).

(** The conversion to [bool]. *)
Definition is_ok (s : istream) : bool := negb s.(failbit).

(** The characters before the next newline, and what comes after it. *)
Fixpoint cut_line (l : list Z) : list Z * option (list Z) :=
  match l with
  | [] => ([], None)
  | c :: l => if c =? 10 then ([], Some l) else let '(line, rest) := cut_line l in (c :: line, rest)
  end.

(** [std::getline(is, str)].  It sets [eofbit] when it meets the end, and
    [failbit] too when it found no character; a stream that is not good is
    not read, and [str] is left as it was. *)
Definition getline (ist : istream) (s : list Z) : istream * list Z :=
  if good ist then
    match cut_line ist.(chars) with
    | (line, Some rest) => (Stream rest false false, line)
    | (line, None) => (Stream [] true (bool_decide (line = [])), line)
    end
  else (Stream ist.(chars) ist.(eofbit) true, s).

(** * lexical_cast *)
Class lexical := {
  cast_size : list Z -> option Z;
  cast_int : Z -> list Z
}.

(** What boost documents: numbers are written in decimal, and read back. *)
Class LexicalLaws `{lexical} := {
  cast_int_decimal n : 0 <= n < 2 ^ 31 -> cast_int n = decimal n;
  cast_size_decimal n : 0 <= n < 2 ^ 31 -> cast_size (decimal n) = Some n
}.

Module config_file.

(** [set_delimiters] *)
Definition array_start_ : list Z := str "[".
Definition array_end_ : list Z := str "]".
Definition subkey_delimiter_ : list Z := str ".".
Definition value_delimiter_ : list Z := str "=".
Definition comment_ : list Z := str "#".

Inductive value_type := INVALID | RAW_VALUE | ARRAY | RECORD.

#[export] Instance value_type_eq_dec : EqDecision value_type.
Proof. solve_decision. Defined.

(** [type_] is indeterminate in a value that was only constructed. *)
Inductive value :=
  Value (raw_value_ : list Z) (array_ : list value) (record_ : list (list Z * value)) (type_ : option value_type).

Definition raw_value_ (v : value) : list Z := let 'Value r _ _ _ := v in r.
Definition array_ (v : value) : list value := let 'Value _ a _ _ := v in a.
Definition record_ (v : value) : list (list Z * value) := let 'Value _ _ m _ := v in m.
Definition type_ (v : value) : option value_type := let 'Value _ _ _ t := v in t.

Definition new_value : value := Value [] [] [] None.

Abbreviation contents := (list (list Z * value)).

(** ** Keys *)

Definition parse_keytype (key : list Z) : value_type :=
  if c_at key 0 =? c_at array_start_ 0 then ARRAY
  else if c_at key 0 =? c_at subkey_delimiter_ 0 then RECORD
  else RAW_VALUE.

(** The name at the start of the key, and the rest of the key. *)
Definition parse_key_name (key : list Z) : list Z * list Z :=
  let delim_pos := find_if (one_of (array_start_ ++ subkey_delimiter_)) key in
  (substr_to delim_pos key, drop (default (length key) delim_pos) key).

Definition parse_record_name (key : list Z) : list Z * list Z := parse_key_name (drop 1 key).

Section lexical.
Context `{lexical}.

(** The result, the index when it was assigned, and the rest of the key. *)
Definition parse_array (key : list Z) : bool * option Z * list Z :=
  if negb (c_at key 0 =? c_at array_start_ 0) then (false, None, key)
  else
    let key := drop 1 key in
    match find array_end_ key with
    | None => (false, None, key)
    | Some pos =>
        match cast_size (take pos key) with
        | Some value => (true, Some value, drop (pos + 1) key)
        | None => (false, None, drop (pos + 1) key)
        end
    end.

(** [array.resize(n)], for a vector that is not longer. *)
Definition grow (n : Z) (a : list value) : list value :=
  if n <=? Z.of_nat (length a) then take (Z.to_nat n) a
  else a ++ replicate (Z.to_nat n - length a) new_value.

(** The result of [parse_array] is not tested: an index that was not assigned
    is read.  [fuel] bounds the depth of the key. *)
Fixpoint parse_key (fuel : nat) (v : value) (key strvalue : list Z) : res value :=
  match fuel with
  | O => NoFuel
  | S fuel =>
      let 'Value raw a m _ := v in
      match parse_keytype key with
      | ARRAY =>
          let '(_, index, key) := parse_array key in
          index ← of_option index;
          let a := if Z.of_nat (length a) <=? index then grow (u64 (index + 1)) a else a in
          e ← of_option (a !! Z.to_nat index);
          e ← parse_key fuel e key strvalue;
          Ok (Value raw (<[Z.to_nat index := e]> a) m (Some ARRAY))
      | RECORD =>
          let '(recordname, key) := parse_record_name key in
          match map_find recordname m with
          | None =>
              e ← parse_key fuel new_value key strvalue;
              Ok (Value raw a (map_set recordname e m) (Some RECORD))
          | Some e =>
              e ← parse_key fuel e key strvalue;
              Ok (Value raw a (map_set recordname e m) (Some RECORD))
          end
      | t => Ok (Value strvalue a m (Some t))
      end
  end.

(** ** Lines *)

Definition whitespace : list Z := [32; 10; 9; 11; 13; 12].

(** An [erase] from [npos] on erases nothing, one up to [npos] everything;
    [npos + 1] is 0. *)
Definition trim (s : list Z) : list Z :=
  let s := match find_if (fun c => negb (one_of whitespace c)) s with
           | Some n => drop n s
           | None => []
           end in
  match find_last_if (fun c => negb (one_of whitespace c)) s with
  | Some n => take (n + 1) s
  | None => []
  end.

Definition is_blank (s : list Z) : bool := bool_decide (trim s = []).

(** [while(!terminate && is)]: the lines that continue the value [line].  The
    second result is the line that was read and not used. *)
Fixpoint continue_value (fuel : nat) (ist : istream) (nextline line : list Z)
    : res (istream * list Z * list Z) :=
  match fuel with
  | O => NoFuel
  | S fuel =>
      if negb (is_ok ist) then Ok (ist, nextline, line)
      else
        let '(ist, nextline) := getline ist nextline in
        if is_blank nextline then Ok (ist, nextline, line)
        else
          let nextline := substr_to (find comment_ nextline) nextline in
          match find value_delimiter_ nextline with
          | Some _ => Ok (ist, nextline, line)
          | None =>
              let line := if is_blank nextline then line else line ++ [10] in
              continue_value fuel ist nextline (line ++ nextline)
          end
  end.

(** What [read] does with a key and its value. *)
Definition assign (key line : list Z) (contents_ : contents) : res contents :=
  let '(rootkey, key) := parse_key_name key in
  v ← parse_key (S (length key)) (default new_value (map_find rootkey contents_)) key line;
  Ok (map_set rootkey v contents_).

(** [while(is || nextline.length() > 0)] *)
Fixpoint read_loop (fuel : nat) (ist : istream) (nextline : list Z) (contents_ : contents)
    : res (istream * contents) :=
  match fuel with
  | O => NoFuel
  | S fuel =>
      if is_ok ist || (0 <? Z.of_nat (length nextline)) then
        let '(ist, line) := if 0 <? Z.of_nat (length nextline) then (ist, nextline) else getline ist [] in
        let line := substr_to (find comment_ line) line in
        match find value_delimiter_ line with
        | Some delim_pos =>
            let key := take delim_pos line in
            let line := drop (delim_pos + length value_delimiter_) line in
            '(ist, nextline, line) ← continue_value fuel ist [] line;
            contents_ ← assign (trim key) (trim line) contents_;
            read_loop fuel ist nextline contents_
        | None => read_loop fuel ist [] contents_
        end
      else Ok (ist, contents_)
  end.

Definition read (fuel : nat) (ist : istream) (contents_ : contents) : res (istream * contents) :=
  read_loop fuel ist [] contents_.

(** The turns of the two loops are bounded by the length of the file. *)
Definition enough (file : list Z) : nat := 2 * length file + 6.

(** [None] is a file that cannot be opened. *)
Definition parse_file (file : option (list Z)) (contents_ : contents) : res (bool * contents) :=
  match file with
  | None => Ok (false, contents_)
  | Some l =>
      '(_, contents_) ← read (enough l) (Stream l false false) contents_;
      Ok (true, contents_)
  end.

(** ** Printing *)

(** [fuel] bounds the depth of the value. *)
Fixpoint dump_value (fuel : nat) (key : list Z) (v : value) : res (list Z) :=
  match fuel with
  | O => NoFuel
  | S fuel =>
      let 'Value raw a m t := v in
      t ← of_option t;
      match t with
      | RAW_VALUE => Ok (key ++ str "=" ++ raw ++ [10])
      | ARRAY =>
          (fix elements (i : Z) (a : list value) : res (list Z) :=
             match a with
             | [] => Ok []
             | e :: a =>
                 s ← dump_value fuel (key ++ array_start_ ++ cast_int (s32 i) ++ array_end_) e;
                 s' ← elements (i + 1) a;
                 Ok (s ++ s')
             end) 0 a
      | RECORD =>
          (fix fields (m : list (list Z * value)) : res (list Z) :=
             match m with
             | [] => Ok []
             | (k, e) :: m =>
                 s ← dump_value fuel (key ++ str "." ++ k) e;
                 s' ← fields m;
                 Ok (s ++ s')
             end) m
      | INVALID => Ok []
      end
  end.

Fixpoint dump (fuel : nat) (contents_ : contents) : res (list Z) :=
  match contents_ with
  | [] => Ok []
  | (key, v) :: contents_ =>
      s ← dump_value fuel key v;
      s' ← dump fuel contents_;
      Ok (s ++ s')
  end.

End lexical.

(** ** Access *)

(** [operator[]] of a value aborts where [get] answers null. *)
Definition value_at (v : value) (index : Z) : res value :=
  t ← of_option (type_ v);
  _ ← CHECK_CONDITION (bool_decide (t = ARRAY));
  _ ← CHECK_CONDITION ((index <? Z.of_nat (length (array_ v))) && (0 <=? index));
  of_option (array_ v !! Z.to_nat index).

Definition value_named (v : value) (rec_name : list Z) : res value :=
  t ← of_option (type_ v);
  _ ← CHECK_CONDITION (bool_decide (t = RECORD));
  match map_find rec_name (record_ v) with
  | Some e => Ok e
  | None => Aborted
  end.

Definition config_at (contents_ : contents) (key : list Z) : res value :=
  match map_find key contents_ with
  | Some e => Ok e
  | None => Aborted
  end.

Definition get_named (v : value) (rec_name : list Z) : res (option value) :=
  t ← of_option (type_ v);
  if bool_decide (t <> RECORD) then Ok None else Ok (map_find rec_name (record_ v)).

Definition get_at (v : value) (index : Z) : res (option value) :=
  t ← of_option (type_ v);
  if bool_decide (t <> ARRAY) then Ok None
  else if (Z.of_nat (length (array_ v)) <=? index) || (index <? 0) then Ok None
  else Ok (array_ v !! Z.to_nat index).

Definition get (contents_ : contents) (key : list Z) : option value := map_find key contents_.

Definition get_array_size (v : value) : Z := Z.of_nat (length (array_ v)).

(** ** Conversions *)

(** [toupper] in the C locale. *)
Definition toupper (c : Z) : Z := if (97 <=? c) && (c <=? 122) then c - 32 else c.

Definition string_as_bool (s : list Z) : bool :=
  let sup := map toupper s in
  negb (bool_decide (sup = str "FALSE") || bool_decide (sup = str "F") || bool_decide (sup = str "NO") ||
        bool_decide (sup = str "N") || bool_decide (sup = str "0") || bool_decide (sup = str "NONE")).

Definition is_digit (c : Z) : bool := (48 <=? c) && (c <=? 57).

(** The value of the digits at the start. *)
Fixpoint leading_digits (s : list Z) : list Z :=
  match s with
  | c :: s => if is_digit c then (c - 48) :: leading_digits s else []
  | [] => []
  end.

(** [ist >> t] for an integer type from [lo] to [hi], in decimal; [None]
    leaves [t] as it was. *)
Definition extract_int (lo hi : Z) (s : list Z) : option Z :=
  let s := match find_if (fun c => negb (one_of whitespace c)) s with Some n => drop n s | None => [] end in
  let '(neg, s) := if c_at s 0 =? 45 then (true, drop 1 s)
                   else if c_at s 0 =? 43 then (false, drop 1 s) else (false, s) in
  match leading_digits s with
  | [] => None
  | ds =>
      let v := Printf.value 10 ds in
      if lo =? 0 then
        if hi <? v then None else Some (if neg then (- v) mod (hi + 1) else v)
      else
        let v := if neg then - v else v in
        if (lo <=? v) && (v <=? hi) then Some v else None
  end.

(** [value.read<T>()]; the value of a [T] that was not assigned is
    indeterminate. *)
Definition read_raw (v : value) : res (list Z) :=
  t ← of_option (type_ v);
  _ ← CHECK_CONDITION (bool_decide (t = RAW_VALUE));
  Ok (raw_value_ v).

Definition read_string (v : value) : res (list Z) := read_raw v.
Definition read_bool (v : value) : res bool := s ← read_raw v; Ok (string_as_bool s).
Definition read_int (v : value) : res Z :=
  s ← read_raw v; of_option (extract_int (- 2 ^ 31) (2 ^ 31 - 1) s).
Definition read_unsigned (v : value) : res Z :=
  s ← read_raw v; of_option (extract_int 0 (2 ^ 32 - 1) s).
Definition read_unsigned_short (v : value) : res Z :=
  s ← read_raw v; of_option (extract_int 0 (2 ^ 16 - 1) s).

End config_file.

#[export] Existing Instance config_file.value_type_eq_dec.

(** * Decimal numbers *)

(** A [lexical_cast] that keeps the promises. *)
#[export] Instance decimal_lexical : lexical := {
  cast_size s :=
    if bool_decide (s <> []) && forallb config_file.is_digit s && (value 10 (config_file.leading_digits s) <? 2 ^ 64)
    then Some (value 10 (config_file.leading_digits s)) else None;
  cast_int := print_i
}.

Lemma leading_digits_all ds :
  Forall (fun d => 0 <= d < 10) ds -> config_file.leading_digits (map decimal_char ds) = ds /\
  forallb config_file.is_digit (map decimal_char ds) = true.
Proof.
  induction 1 as [|d ds Hd _ [IH1 IH2]]; [done|]. cbn [map config_file.leading_digits forallb].
  assert (config_file.is_digit (decimal_char d) = true) as Ed
    by (unfold config_file.is_digit, decimal_char; apply andb_true_iff; split; apply Z.leb_le; lia).
  rewrite Ed, IH1, IH2. split; [|done]. f_equal. unfold decimal_char. lia.
Qed.

#[export] Instance decimal_laws : LexicalLaws.
Proof.
  constructor; intros n Hn; simpl.
  - unfold print_i. by replace (n <? 0) with false by lia.
  - destruct (digits_spec 10 n ltac:(lia) ltac:(lia)) as (Hd & Hl & _ & Hv).
    unfold decimal. destruct (leading_digits_all _ Hd) as [-> ->]. rewrite Hv, bool_decide_eq_true_2; simpl.
    + by replace (n <? 2 ^ 64) with true by lia.
    + intros E. apply (f_equal length) in E. rewrite length_map in E. simpl in E. lia.
Qed.
