(* ===== verification/StreamHandler.v ===== *)
(** One direction of a proxied connection, the stream handler of
    app/http_proxy_stream_handler.cpp, over the interface
    proxylib/proxy_stream_interface.cpp through which it sees its source, its
    destination and the queue it shares with the other direction.  A request
    stream and a response stream are two handlers of the same class.

    What the handler points to is in a [world]: the kernel, the two
    connections, the pipeline queue with its heap, the header pool, the
    access log and the lines written to it.  The static error response is a
    member of the handler, as are the header handler with the message it
    fills, the writer, the two parsers and the chunk-size line. *)
From stdpp Require Import list gmap.
From S2P Require Import Prelude Status ReadWriteBuffer HttpLex Interfaces HeaderStore HeaderHandler HeaderParser BodyParsers Os Connection HeaderWriter Printf Pipeline Url.

(** The C string at the start of a string. *)
Fixpoint c_str (s : list Z) : list Z :=
  match s with
  | [] => []
  | c :: s => if c =? 0 then [] else c :: c_str s
  end.

Record world {K : Type} := World {
  kernel_ : K;
  p_src_data_ : option connection.t;
  p_dest_data_ : option connection.t;
  pipeline_data_queue_ : pipeline_data_queue.t;
  heap_ : pipeline_data_queue.heap;
  header_cache_ : header_cache;
  access_log_ : access_log.t;
  log_lines_ : list (list (list Z))
}.
Arguments world K : clear implicits.

(** * The interface to the connections *)
Module proxy_stream_interface.
Section interface.
Context {K : Type} `{os K}.

Definition with_dest (k : K) (c : connection.t) (w : world K) : world K :=
  World K k w.(p_src_data_) (Some c) w.(pipeline_data_queue_) w.(heap_) w.(header_cache_)
    w.(access_log_) w.(log_lines_).
Definition with_queue (q : pipeline_data_queue.t) (h : pipeline_data_queue.heap) (w : world K) : world K :=
  World K w.(kernel_) w.(p_src_data_) w.(p_dest_data_) q h w.(header_cache_) w.(access_log_) w.(log_lines_).
Definition with_cache (c : header_cache) (w : world K) : world K :=
  World K w.(kernel_) w.(p_src_data_) w.(p_dest_data_) w.(pipeline_data_queue_) w.(heap_) c
    w.(access_log_) w.(log_lines_).
Definition with_log (lines : list (list (list Z))) (w : world K) : world K :=
  World K w.(kernel_) w.(p_src_data_) w.(p_dest_data_) w.(pipeline_data_queue_) w.(heap_)
    w.(header_cache_) w.(access_log_) lines.

(** The check is the wrong way round: it holds for the null pointer only,
    which is dereferenced next. *)
Definition is_dest_disconnected (w : world K) : res bool :=
  _ ← CHECK_CONDITION (match w.(p_dest_data_) with None => true | Some _ => false end);
  c ← of_option w.(p_dest_data_);
  Ok (bool_decide (connection.state c = connection.NOT_CONNECTED)).

Definition get_dest (w : world K) : option connection.t := w.(p_dest_data_).

Definition forward (w : world K) (buf : read_write_buffer)
    : res (world K * read_write_buffer * socketlib.STATUS) :=
  c ← of_option w.(p_dest_data_);
  '(k, c, buf, st) ← connection.non_blocking_write w.(kernel_) c buf;
  Ok (with_dest k c w, buf, st).

Definition reset (p_src_data p_dest_data : option connection.t) (w : world K) : world K :=
  World K w.(kernel_) p_src_data p_dest_data w.(pipeline_data_queue_) w.(heap_) w.(header_cache_)
    w.(access_log_) w.(log_lines_).

Definition get_src_address (w : world K) : res (option (list Z)) :=
  c ← of_option w.(p_src_data_); Ok (connection.get_ip_addr w.(kernel_) c).

Definition get_dest_address (w : world K) : res (option (list Z)) :=
  c ← of_option w.(p_dest_data_); Ok (connection.get_ip_addr w.(kernel_) c).

Definition flush (w : world K) : res (world K) :=
  c ← of_option w.(p_dest_data_); Ok (with_dest (connection.flush w.(kernel_) c) c w).

Definition get_pipeline_data_queue (w : world K) : pipeline_data_queue.t := w.(pipeline_data_queue_).

End interface.
End proxy_stream_interface.

Import proxy_stream_interface.

(** * The handler *)
Module http_proxy_stream_handler.

Inductive MESSAGE_STATE := START_MESSAGE | PARSE_HEADER | PUSH_HEADER | PARSE_BODY.

(** [i_proxy_stream_handler::FORWARD_ADDRESS_STATUS] *)
Inductive FORWARD_ADDRESS_STATUS :=
  | STREAM_DOES_NOT_PROVIDE_FORWARD_ADDRESS
  | FORWARD_ADDRESS_NOT_YET_AVAILABLE
  | CONNECTION_DOES_NOT_PROVIDE_FORWARD_ADDRESS
  | ERROR_DETERMINING_FORWARD_ADDRESS
  | FORWARD_ADDRESS_AVAILABLE.

#[export] Instance MESSAGE_STATE_eq_dec : EqDecision MESSAGE_STATE.
Proof. solve_decision. Defined.

(** The message the writer points to. *)
Inductive WRITTEN := ERROR_MESSAGE | HEADER_MESSAGE.

(** [response_], the message the header handler refers to, is inside the
    header handler; [A] is the type of an IP address.  The members that are
    assigned and never read ([current_field_], [current_dump_header_],
    [push_header_state_]) are left out, as are those the constructor stores
    for [clone] only. *)
Record t {A : Type} := StreamHandler {
  stream_type_ : STREAM_TYPE;
  header_parser_ : header_parser.t;
  body_parser_ : body_parser.t;
  message_state_ : MESSAGE_STATE;
  forward_address_ : option (A * Z);
  chunk_size_ : read_write_buffer;
  current_pipeline_data_ : option Z;
  endline_buf_ : read_write_buffer;
  error_response_ : message_buffer.t;
  header_writer_ : header_writer.t;
  writer_message_ : option WRITTEN;
  header_handler_ : header_handler.t
}.
Arguments t A : clear implicits.

(** Assignments to the members. *)
Section members.
Context {A : Type}.

Definition with_parser (p : header_parser.t) (hh : header_handler.t) (h : t A) : t A :=
  StreamHandler A h.(stream_type_) p h.(body_parser_) h.(message_state_) h.(forward_address_)
    h.(chunk_size_) h.(current_pipeline_data_) h.(endline_buf_) h.(error_response_)
    h.(header_writer_) h.(writer_message_) hh.
Definition with_body_parser (p : body_parser.t) (h : t A) : t A :=
  StreamHandler A h.(stream_type_) h.(header_parser_) p h.(message_state_) h.(forward_address_)
    h.(chunk_size_) h.(current_pipeline_data_) h.(endline_buf_) h.(error_response_)
    h.(header_writer_) h.(writer_message_) h.(header_handler_).
Definition with_state (s : MESSAGE_STATE) (h : t A) : t A :=
  StreamHandler A h.(stream_type_) h.(header_parser_) h.(body_parser_) s h.(forward_address_)
    h.(chunk_size_) h.(current_pipeline_data_) h.(endline_buf_) h.(error_response_)
    h.(header_writer_) h.(writer_message_) h.(header_handler_).
Definition with_address (a : option (A * Z)) (h : t A) : t A :=
  StreamHandler A h.(stream_type_) h.(header_parser_) h.(body_parser_) h.(message_state_) a
    h.(chunk_size_) h.(current_pipeline_data_) h.(endline_buf_) h.(error_response_)
    h.(header_writer_) h.(writer_message_) h.(header_handler_).
Definition with_chunk_size (b : read_write_buffer) (h : t A) : t A :=
  StreamHandler A h.(stream_type_) h.(header_parser_) h.(body_parser_) h.(message_state_)
    h.(forward_address_) b h.(current_pipeline_data_) h.(endline_buf_) h.(error_response_)
    h.(header_writer_) h.(writer_message_) h.(header_handler_).
Definition with_endline (b : read_write_buffer) (h : t A) : t A :=
  StreamHandler A h.(stream_type_) h.(header_parser_) h.(body_parser_) h.(message_state_)
    h.(forward_address_) h.(chunk_size_) h.(current_pipeline_data_) b h.(error_response_)
    h.(header_writer_) h.(writer_message_) h.(header_handler_).
Definition with_current (p : option Z) (h : t A) : t A :=
  StreamHandler A h.(stream_type_) h.(header_parser_) h.(body_parser_) h.(message_state_)
    h.(forward_address_) h.(chunk_size_) p h.(endline_buf_) h.(error_response_)
    h.(header_writer_) h.(writer_message_) h.(header_handler_).
Definition with_writer (w : header_writer.t) (m : option WRITTEN) (e : message_buffer.t)
    (hh : header_handler.t) (h : t A) : t A :=
  StreamHandler A h.(stream_type_) h.(header_parser_) h.(body_parser_) h.(message_state_)
    h.(forward_address_) h.(chunk_size_) h.(current_pipeline_data_) h.(endline_buf_) e w m hh.

End members.

(** The constructor; [body_encoding], [i] and [s] are the members of the
    body parser and of the writer that their constructors leave unset. *)
Definition make {A} (stream_type : STREAM_TYPE) (max_start_line1_length max_start_line2_length
    max_start_line3_length num_headers : Z) (body_encoding : http.BODY_ENCODING) (i : Z)
    (s : header_writer.WRITE_HEADER_STATE) (c : header_cache) : res (t A * header_cache) :=
  let response := message_buffer.make true max_start_line1_length max_start_line2_length
                    max_start_line3_length num_headers in
  '(e, _) ← error_response;
  '(hh, c) ← header_handler.make response stream_type c;
  Ok (StreamHandler A stream_type header_parser.make (body_parser.make body_encoding) START_MESSAGE None
        (rwb.make (CHUNK_SIZE_LENGTH + 2)) None (rwb.make_static (Some strings_.(endline_)))
        e (header_writer.make i s) None hh, c).

(** [convert_proxy_status]; the [else] branches of the original end in a
    check that does not hold. *)
Definition convert_proxy_status (status : socketlib.STATUS) : res http.STATUS :=
  match status with
  | socketlib.DEST_CLOSED => Ok http.IOFAILURE
  | socketlib.COMPLETE => Ok http.COMPLETE
  | socketlib.INCOMPLETE => Ok http.INCOMPLETE
  | socketlib.SRC_CLOSED => Ok http.IOFAILURE
  | socketlib.DENY => Ok http.INVALID
  | _ => Aborted
  end.

Section handler.
Context {K : Type} `{os K} {A : Type}.

(** The handler and what it points to. *)
Abbreviation state := (t A * world K)%type.

(** ** The receiver of the body *)
Definition set_body (s : state) (body : read_write_buffer) (b_complete : bool)
    : res (state * read_write_buffer * http.STATUS) :=
  '(w, body, return_val) ← forward s.2 body;
  st ← convert_proxy_status return_val;
  Ok ((s.1, w), body, st).

(** [snprintf] of ["%X"]: what fits of the digits, and a NUL. *)
Definition set_chunk_size (s : state) (chunk_size : Z) : res state :=
  let h := s.1 in
  let digits := upper_hex chunk_size in
  raw ← rwb.get_raw_buffer h.(chunk_size_);
  _ ← of_option (raw !! 0%nat);
  physical_length ← rwb.get_physical_length h.(chunk_size_);
  raw ← (if physical_length =? 0 then Ok raw
         else rwb.memcpy raw 0 (take (Z.to_nat (physical_length - 1)) digits ++ [0]));
  let b := h.(chunk_size_) in
  let b := RWB (Some raw) b.(b_using_static_buffer_) b.(working_length_) b.(process_position_)
             b.(write_end_position_) b.(write_position_) in
  let chunk_size_chars := s32 (raw_size digits) in
  b ← rwb.set_working_length (u32 (chunk_size_chars + 2)) b;
  b ← rwb.set_at (u32 chunk_size_chars) CR b;
  b ← rwb.set_at (u32 (chunk_size_chars + 1)) LF b;
  e ← rwb.set_write_position 0 h.(endline_buf_);
  Ok (with_endline e (with_chunk_size b h), s.2).

Definition forward_chunk_size (s : state) : res (state * http.STATUS) :=
  '(w, b, return_val) ← forward s.2 s.1.(chunk_size_);
  st ← convert_proxy_status return_val;
  Ok ((with_chunk_size b s.1, w), st).

Definition forward_chunk_trailer (s : state) : res (state * http.STATUS) :=
  '(w, b, return_val) ← forward s.2 s.1.(endline_buf_);
  st ← convert_proxy_status return_val;
  Ok ((with_endline b s.1, w), st).

#[export] Instance body_receiver : i_body_receiver state := {
  set_body_encoding s _ := s;
  set_body := set_body;
  set_chunk_size := set_chunk_size;
  forward_chunk_size := forward_chunk_size;
  forward_chunk_trailer := forward_chunk_trailer
}.

(** ** The pipeline data *)

(** [*current_pipeline_data_] *)
Definition current (h : t A) (w : world K) : res (Z * pipeline_data.t) :=
  p ← of_option h.(current_pipeline_data_);
  d ← of_option (w.(heap_) !! p);
  Ok (p, d).

Definition set_current_pipeline_data (h : t A) (w : world K) : res (bool * t A * world K) :=
  match h.(stream_type_) with
  | REQUEST =>
      if pipeline_data_queue.queue_full (get_pipeline_data_queue w) then Ok (false, h, w)
      else
        '(p, q, hp) ← pipeline_data_queue.queue_element (get_pipeline_data_queue w) w.(heap_);
        Ok (true, with_current (Some p) h, with_queue q hp w)
  | RESPONSE =>
      if pipeline_data_queue.queue_empty (get_pipeline_data_queue w) then Ok (false, h, w)
      else
        p ← pipeline_data_queue.front (get_pipeline_data_queue w);
        let h := with_current (Some p) h in
        '(_, d) ← current h w;
        if negb d.(pipeline_data.request_complete_) then Ok (false, h, w)
        else
          q ← pipeline_data_queue.dequeue_element (get_pipeline_data_queue w);
          Ok (true, h, with_queue q w.(heap_) w)
  end.

Definition clear_current_pipeline_data (h : t A) : t A := with_current None h.

(** Assignments to [current_pipeline_data_->...] *)
Definition set_process_type (p : Z) (ty : pipeline_data.PROCESS_TYPE) (d : pipeline_data.t) (w : world K)
    : world K :=
  with_queue w.(pipeline_data_queue_)
    (<[p := pipeline_data.PipelineData d.(pipeline_data.logrecord_) ty
              d.(pipeline_data.request_complete_)]> w.(heap_)) w.
Definition set_request_complete (p : Z) (d : pipeline_data.t) (w : world K) : world K :=
  with_queue w.(pipeline_data_queue_)
    (<[p := pipeline_data.PipelineData d.(pipeline_data.logrecord_) d.(pipeline_data.process_type_)
              true]> w.(heap_)) w.
Definition set_log_record (p : Z) (r : combined_log_record) (d : pipeline_data.t) (w : world K)
    : world K :=
  with_queue w.(pipeline_data_queue_)
    (<[p := pipeline_data.PipelineData r d.(pipeline_data.process_type_)
              d.(pipeline_data.request_complete_)]> w.(heap_)) w.

(** ** The log *)
Definition append_field (name : list Z) (m : message_buffer.t) (s : list Z) : res (list Z) :=
  i ← request_buffer_wrapper.get_header_with_name_index name m;
  match i with
  | Some i => b ← request_buffer_wrapper.get_field_value_n i m; rwb.append_to_string s b
  | None => Ok s
  end.

(** A null address makes the assignment to a [std::string] undefined. *)
Definition copy_request_data_to_log (m : message_buffer.t) (r : combined_log_record) (w : world K)
    : res combined_log_record :=
  a ← get_src_address w;
  ip ← of_option a;
  s ← rwb.append_to_string r.(requestline) (request_buffer_wrapper.get_method m);
  s ← rwb.append_to_string (s ++ str " ") (request_buffer_wrapper.get_uri m);
  s ← rwb.append_to_string (s ++ str " ") (request_buffer_wrapper.get_http_version_buffer m);
  referer ← append_field (str "referer") m r.(referer);
  agent ← append_field (str "user-agent") m r.(user_agent);
  Ok (CombinedLogRecord ip r.(remote_logname) r.(user) r.(time) s r.(status) r.(bytes_sent)
        referer agent).

Definition copy_response_data_to_log (m : message_buffer.t) (r : combined_log_record)
    : res combined_log_record :=
  s ← rwb.append_to_string r.(status) (response_buffer_wrapper.get_status_code m);
  Ok (CombinedLogRecord r.(remote_ip) r.(remote_logname) r.(user) r.(time) r.(requestline) s
        r.(bytes_sent) r.(referer) r.(user_agent)).

(** [localtime n] is the date of the [n]th line of the log. *)
Definition log_request (localtime : nat -> log_record.tm) (h : t A) (w : world K) : res (world K) :=
  if negb (access_log.is_open w.(access_log_)) then Ok w
  else
    '(p, d) ← current h w;
    let m := header_handler.get_message_buffer h.(header_handler_) in
    match h.(stream_type_) with
    | REQUEST =>
        r ← copy_request_data_to_log m log_record.reset w;
        Ok (set_log_record p r d w)
    | RESPONSE =>
        r ← copy_response_data_to_log m d.(pipeline_data.logrecord_);
        '(r, line) ← access_log.log_access (localtime (length w.(log_lines_))) r w.(access_log_);
        let w := set_log_record p r d w in
        Ok (match line with Some v => with_log (w.(log_lines_) ++ [v]) w | None => w end)
    end.

(** ** Host rules *)
Variable host_rules_ : gmap (list Z) (host_rules.t A).

(** The URL a rule forwards to, [None] when only the default is left. *)
Definition forward_url_of (rules : host_rules.t A) (m : message_buffer.t) : res (option (url.t A)) :=
  request_path ← rwb.append_to_string [] (request_buffer_wrapper.get_uri m);
  Ok (host_rules.find_forward_url (c_str request_path) rules).

Definition set_host (rules : host_rules.t A) (hostname_index : Z) (forward_url : url.t A)
    (m : message_buffer.t) : res message_buffer.t :=
  if host_rules.preserve_host rules then Ok m
  else
    b ← message_buffer.get_field_value hostname_index m;
    b ← rwb.append_from_string (c_str forward_url.(url.hostname)) b;
    message_buffer.set_field_value hostname_index b m.

(** The rules of the host the message names, and the index of its field. *)
Definition find_host (m : message_buffer.t) : res (option (Z * option (host_rules.t A))) :=
  i ← message_buffer.get_header_index_by_name (str "Host") m;
  match i with
  | None => Ok None
  | Some hostname_index =>
      b ← message_buffer.get_field_value hostname_index m;
      hostname ← rwb.append_to_string [] b;
      Ok (Some (hostname_index, host_rules_ !! hostname))
  end.

Definition update_header_host_and_path (m : message_buffer.t) : res message_buffer.t :=
  found ← find_host m;
  match found with
  | Some (hostname_index, Some rules) =>
      p_forward_url ← forward_url_of rules m;
      match p_forward_url with
      | None =>
          let forward_url := host_rules.default_forward_url rules in
          base_path ← rwb.append_to_string forward_url.(url.path) (message_buffer.get_status_line_2 m);
          b ← rwb.append_from_string (c_str base_path) (message_buffer.get_status_line_2 m);
          set_host rules hostname_index forward_url (header_writer.set_status_line_2 b m)
      | Some forward_url =>
          let b := rwb.reset (message_buffer.get_status_line_2 m) in
          b ← rwb.append_from_string (c_str forward_url.(url.path)) b;
          set_host rules hostname_index forward_url (header_writer.set_status_line_2 b m)
      end
  | _ => Ok m
  end.

Definition get_forward_address_status (h : t A) : res (FORWARD_ADDRESS_STATUS * t A) :=
  let m := header_handler.get_message_buffer h.(header_handler_) in
  match h.(stream_type_) with
  | RESPONSE => Ok (STREAM_DOES_NOT_PROVIDE_FORWARD_ADDRESS, h)
  | REQUEST =>
      v ← request_buffer_wrapper.get_http_version m;
      match v with
      | request_buffer_wrapper.HTTP1 => Ok (CONNECTION_DOES_NOT_PROVIDE_FORWARD_ADDRESS, h)
      | _ =>
          found ← find_host m;
          match found with
          | None => Ok (FORWARD_ADDRESS_NOT_YET_AVAILABLE, h)
          | Some (_, None) => Ok (CONNECTION_DOES_NOT_PROVIDE_FORWARD_ADDRESS, h)
          | Some (_, Some rules) =>
              p_forward_url ← forward_url_of rules m;
              let u := match p_forward_url with
                       | None => host_rules.default_forward_url rules
                       | Some u => u
                       end in
              Ok (FORWARD_ADDRESS_AVAILABLE, with_address u.(url.endpoint) h)
          end
      end
  end.

Definition get_forward_address_from_stream (h : t A) : option (A * Z) := h.(forward_address_).

(** ** The states of a message *)

(** The postprocessor is an interface without an implementation in the
    repository; it may change the message. *)
Variable request_postprocessor_ : option (message_buffer.t -> res (bool * message_buffer.t)).
Variable localtime : nat -> log_record.tm.

Definition initialize_state (h : t A) (w : world K) : res (t A * world K) :=
  '(hh, c) ← header_handler.reset h.(header_handler_) w.(header_cache_);
  let h := with_state START_MESSAGE h in
  let h := with_body_parser (body_parser.reset http.NONE 0 h.(body_parser_)) h in
  let h := with_chunk_size (rwb.reset h.(chunk_size_)) h in
  Ok (with_parser (header_parser.reset h.(header_parser_)) hh h, with_cache c w).

Definition complete_message (h : t A) (w : world K) : res (t A * world K) :=
  initialize_state (clear_current_pipeline_data h) w.

(** [reset()]: what the proxy calls for a new connection. *)
Definition reset (h : t A) (w : world K) : res (t A * world K) :=
  q ← pipeline_data_queue.empty_queue (get_pipeline_data_queue w);
  initialize_state h (with_queue q w.(heap_) w).

(** One turn of the [for(;;)]: [Some] status returns, [None] goes on. *)
Definition outcome : Type := option socketlib.STATUS * t A * world K * read_write_buffer.

(** The writer is pointed to a message and to the destination. *)
Definition start_writer (m : WRITTEN) (e : message_buffer.t) (h : t A) (w : world K) : res (t A) :=
  _ ← of_option (get_dest w);
  Ok (with_writer (header_writer.reset h.(header_writer_)) (Some m) e h.(header_handler_) h).

Definition do_start_message (h : t A) (w : world K) (buf : read_write_buffer) : res outcome :=
  '(set, h, w) ← set_current_pipeline_data h w;
  if negb set then
    Ok (Some (match h.(stream_type_) with
              | REQUEST => socketlib.INCOMPLETE
              | RESPONSE => socketlib.COMPLETE
              end), h, w, buf)
  else
    '(_, d) ← current h w;
    match d.(pipeline_data.process_type_) with
    | pipeline_data.DENY =>
        '(e, c) ← message_buffer.reset h.(error_response_) w.(header_cache_);
        h ← start_writer ERROR_MESSAGE e h w;
        Ok (None, with_state PUSH_HEADER h, with_cache c w, buf)
    | _ => Ok (None, with_state PARSE_HEADER h, w, buf)
    end.

(** What follows a header that was parsed whole.  The [INVALID] a refused
    request is given is overwritten: the loop goes on with [PUSH_HEADER]. *)
Definition header_complete (h : t A) (w : world K) : res (t A * world K) :=
  let h := with_state PUSH_HEADER h in
  m ← update_header_host_and_path (header_handler.get_message_buffer h.(header_handler_));
  let h := with_parser h.(header_parser_) (header_handler.with_message m h.(header_handler_)) h in
  h ← start_writer HEADER_MESSAGE h.(error_response_) h w;
  match request_postprocessor_, h.(stream_type_) with
  | Some process_request, REQUEST =>
      '(accepted, m) ← process_request (header_handler.get_message_buffer h.(header_handler_));
      let h := with_parser h.(header_parser_) (header_handler.with_message m h.(header_handler_)) h in
      if accepted : bool then w ← log_request localtime h w; Ok (h, w) else Ok (h, w)
  | _, _ => w ← log_request localtime h w; Ok (h, w)
  end.

(** The status of a header that is not whole: a refused request marks its
    pipeline data, for the response stream to answer. *)
Definition header_refused (parse_status : http.STATUS) (h : t A) (w : world K)
    : res (socketlib.STATUS * world K) :=
  match parse_status with
  | http.INVALID | http.DATAOVERFLOW =>
      match h.(stream_type_) with
      | REQUEST =>
          '(p, d) ← current h w;
          let w := set_process_type p pipeline_data.DENY d w in
          '(p, d) ← current h w;
          Ok (socketlib.DENY, set_request_complete p d w)
      | RESPONSE => Ok (socketlib.DENY, w)
      end
  | _ => Ok (socketlib.COMPLETE, w)
  end.

Definition do_parse_header (h : t A) (w : world K) (buf : read_write_buffer) : res outcome :=
  '(parse_status, buf, p, (hh, c)) ←
    header_parser.parse_headers h.(header_parser_) (h.(header_handler_), w.(header_cache_)) buf
      header_parser.STRICT;
  let h := with_parser p hh h in
  let w := with_cache c w in
  match parse_status with
  | http.COMPLETE => '(h, w) ← header_complete h w; Ok (None, h, w, buf)
  | _ => '(st, w) ← header_refused parse_status h w; Ok (Some st, h, w, buf)
  end.

(** [header_writer_.write_header()] *)
Definition write_message (h : t A) (w : world K) : res (t A * world K * socketlib.STATUS) :=
  c ← of_option w.(p_dest_data_);
  match h.(writer_message_) with
  | None => Undef
  | Some ERROR_MESSAGE =>
      '(k, hw, m, c, st) ← header_writer.write_header w.(kernel_) h.(header_writer_) h.(error_response_) c;
      Ok (with_writer hw h.(writer_message_) m h.(header_handler_) h, with_dest k c w, st)
  | Some HEADER_MESSAGE =>
      let hh := h.(header_handler_) in
      '(k, hw, m, c, st) ← header_writer.write_header w.(kernel_) h.(header_writer_)
                             (header_handler.get_message_buffer hh) c;
      Ok (with_writer hw h.(writer_message_) h.(error_response_) (header_handler.with_message m hh) h,
          with_dest k c w, st)
  end.

(** What follows a header that was written whole. *)
Definition header_pushed (h : t A) (w : world K) (buf : read_write_buffer) : res outcome :=
  let h := with_state PARSE_BODY h in
  '(p, d) ← current h w;
  let w := set_request_complete p d w in
  match d.(pipeline_data.process_type_), h.(stream_type_) with
  | pipeline_data.DENY, _ => Ok (Some socketlib.SRC_CLOSED, h, w, buf)
  | pipeline_data.HEAD, RESPONSE =>
      Ok (None, with_body_parser (body_parser.reset http.NONE 0 h.(body_parser_)) h, w, buf)
  | _, _ =>
      Ok (None, with_body_parser
            (body_parser.reset (header_handler.get_body_encoding h.(header_handler_))
               (header_handler.get_message_size h.(header_handler_)) h.(body_parser_)) h, w, buf)
  end.

Definition do_push_header (h : t A) (w : world K) (buf : read_write_buffer) : res outcome :=
  '(h, w, push_status) ← write_message h w;
  match push_status with
  | socketlib.COMPLETE => header_pushed h w buf
  | _ => Ok (Some push_status, h, w, buf)
  end.

Definition do_parse_body (h : t A) (w : world K) (buf : read_write_buffer) : res outcome :=
  '(parse_status, buf, p, (h, w)) ← body_parser.parse_body h.(body_parser_) (h, w) buf;
  let h := with_body_parser p h in
  match parse_status with
  | http.COMPLETE =>
      w ← flush w;
      '(h, w) ← complete_message h w;
      Ok (None, h, w, buf)
  | http.INVALID | http.DATAOVERFLOW => Ok (Some socketlib.DENY, h, w, buf)
  | http.INCOMPLETE => Ok (Some socketlib.COMPLETE, h, w, buf)
  | http.WRITE_INCOMPLETE => Ok (Some socketlib.INCOMPLETE, h, w, buf)
  | http.IOFAILURE => Ok (Some socketlib.DEST_CLOSED, h, w, buf)
  end.

Definition turn (h : t A) (w : world K) (buf : read_write_buffer) : res outcome :=
  match h.(message_state_) with
  | START_MESSAGE => do_start_message h w buf
  | PARSE_HEADER => do_parse_header h w buf
  | PUSH_HEADER => do_push_header h w buf
  | PARSE_BODY => do_parse_body h w buf
  end.

Definition result : Type := socketlib.STATUS * t A * world K * read_write_buffer.

Fixpoint process_loop (fuel : nat) (h : t A) (w : world K) (buf : read_write_buffer) : res result :=
  match fuel with
  | O => NoFuel
  | S fuel =>
      '(o, h, w, buf) ← turn h w buf;
      match o : option socketlib.STATUS with
      | Some st => Ok (st, h, w, buf)
      | None => process_loop fuel h w buf
      end
  end.

(** A message takes at most four turns and a byte of the buffer. *)
Definition process_data (h : t A) (w : world K) (buf : read_write_buffer) : res result :=
  if (rwb.get_working_length buf =? 0) && bool_decide (h.(message_state_) = PARSE_HEADER) then
    Ok (socketlib.COMPLETE, h, w, buf)
  else process_loop (4 * Z.to_nat (rwb.get_working_length buf) + 6) h w buf.

End handler.
End http_proxy_stream_handler.
