(* ===== verification/ProxyHandler.v ===== *)
(** A proxied connection, proxylib/proxy_handler.cpp: the two sockets, the
    stream handler of each direction, the queue between them, and what the
    handler does when the poller reports an event.  The stream handlers are
    objects of two pools: the proxy points to one of each. *)
From stdpp Require Import list gmap.
From S2P Require Import Prelude Status ReadWriteBuffer HttpLex Interfaces HeaderStore HeaderHandler.
From S2P Require Import HeaderParser BodyParsers Os Connection Net Poller HeaderWriter Printf.
From S2P Require Import MemoryManager Pipeline Url StreamHandler.

Abbreviation stream_handler := http_proxy_stream_handler.t.

(** What all connections share: the kernel, the heap of pipeline data and of
    stream handlers, the three pools, the header pool and the access log. *)
Record env {K A : Type} := Env {
  env_kernel : K;
  env_heap : pipeline_data_queue.heap;
  env_cache : header_cache;
  env_log : access_log.t;
  env_lines : list (list (list Z));
  env_streams : gmap Z (stream_handler A);
  request_stream_handlers : pessimistic_memory_manager.t Z;
  response_stream_handlers : pessimistic_memory_manager.t Z;
  proxy_handlers : pessimistic_memory_manager.t Z
}.
Arguments env K A : clear implicits.

Section environment.
Context {K A : Type}.

Definition with_kernel (k : K) (e : env K A) : env K A :=
  Env K A k e.(env_heap) e.(env_cache) e.(env_log) e.(env_lines) e.(env_streams)
    e.(request_stream_handlers) e.(response_stream_handlers) e.(proxy_handlers).
Definition with_stream (p : Z) (h : stream_handler A) (e : env K A) : env K A :=
  Env K A e.(env_kernel) e.(env_heap) e.(env_cache) e.(env_log) e.(env_lines) (<[p := h]> e.(env_streams))
    e.(request_stream_handlers) e.(response_stream_handlers) e.(proxy_handlers).
Definition with_pools (request response proxy : pessimistic_memory_manager.t Z) (e : env K A) : env K A :=
  Env K A e.(env_kernel) e.(env_heap) e.(env_cache) e.(env_log) e.(env_lines) e.(env_streams)
    request response proxy.

End environment.

Module proxy_handler.

(** A direction, by its source: the client for the request line, the server
    for the response line. *)
Inductive line := REQUEST_LINE | RESPONSE_LINE.

#[export] Instance line_eq_dec : EqDecision line.
Proof. solve_decision. Defined.

(** The back pointers to the pools and to the poller are left out: there is
    one of each, and the poller has no state.  The two timeouts are stored and
    never used. *)
Record t {A : Type} := ProxyHandler {
  client_data_ : connection.t;
  server_data_ : connection.t;
  client_event_ : event.t;
  server_event_ : event.t;
  p_request_stream_handler_ : option Z;
  p_response_stream_handler_ : option Z;
  server_addr_ : A * Z;
  pipeline_data_queue_ : pipeline_data_queue.t
}.
Arguments t A : clear implicits.

(** Assignments to the members. *)
Section members.
Context {A : Type}.

Definition with_client (c : connection.t) (p : t A) : t A :=
  ProxyHandler A c p.(server_data_) p.(client_event_) p.(server_event_) p.(p_request_stream_handler_)
    p.(p_response_stream_handler_) p.(server_addr_) p.(pipeline_data_queue_).
Definition with_server (c : connection.t) (p : t A) : t A :=
  ProxyHandler A p.(client_data_) c p.(client_event_) p.(server_event_) p.(p_request_stream_handler_)
    p.(p_response_stream_handler_) p.(server_addr_) p.(pipeline_data_queue_).
Definition with_client_event (ev : event.t) (p : t A) : t A :=
  ProxyHandler A p.(client_data_) p.(server_data_) ev p.(server_event_) p.(p_request_stream_handler_)
    p.(p_response_stream_handler_) p.(server_addr_) p.(pipeline_data_queue_).
Definition with_server_event (ev : event.t) (p : t A) : t A :=
  ProxyHandler A p.(client_data_) p.(server_data_) p.(client_event_) ev p.(p_request_stream_handler_)
    p.(p_response_stream_handler_) p.(server_addr_) p.(pipeline_data_queue_).
Definition with_handlers (request response : option Z) (p : t A) : t A :=
  ProxyHandler A p.(client_data_) p.(server_data_) p.(client_event_) p.(server_event_) request response
    p.(server_addr_) p.(pipeline_data_queue_).
Definition with_pipeline (q : pipeline_data_queue.t) (p : t A) : t A :=
  ProxyHandler A p.(client_data_) p.(server_data_) p.(client_event_) p.(server_event_)
    p.(p_request_stream_handler_) p.(p_response_stream_handler_) p.(server_addr_) q.

Definition src_of (s : line) (p : t A) : connection.t :=
  match s with REQUEST_LINE => p.(client_data_) | RESPONSE_LINE => p.(server_data_) end.
Definition dest_of (s : line) (p : t A) : connection.t :=
  match s with REQUEST_LINE => p.(server_data_) | RESPONSE_LINE => p.(client_data_) end.
Definition handler_of (s : line) (p : t A) : option Z :=
  match s with
  | REQUEST_LINE => p.(p_request_stream_handler_)
  | RESPONSE_LINE => p.(p_response_stream_handler_)
  end.
Definition with_src (s : line) (c : connection.t) (p : t A) : t A :=
  match s with REQUEST_LINE => with_client c p | RESPONSE_LINE => with_server c p end.
Definition with_dest (s : line) (c : connection.t) (p : t A) : t A :=
  match s with REQUEST_LINE => with_server c p | RESPONSE_LINE => with_client c p end.

End members.

(** ** Construction *)

(** The constructor; [client_event] and [server_event] are the addresses of
    the library's structures inside the object. *)
Definition make {A} (client_event server_event buffer_length : Z) (server_addr : A * Z)
    (h : pipeline_data_queue.heap) : t A * pipeline_data_queue.heap :=
  let '(q, h) := pipeline_data_queue.make h in
  (ProxyHandler A (connection.make buffer_length) (connection.make buffer_length)
     (event.make client_event) (event.make server_event) None None server_addr q, h).

(** The members of a connection, one by one. *)
Definition copy_connection (c : connection.t) : res connection.t :=
  b ← rwb.copy c.(connection.buffer_);
  Ok (connection.Connection c.(connection.ready_to_read_) c.(connection.ready_to_write_) c.(connection.fd_) b
        c.(connection.state_) c.(connection.ip_addr_)).

(** The copy constructor; the events are new. *)
Definition copy {A} (client_event server_event : Z) (rhs : t A) (h : pipeline_data_queue.heap)
    : res (t A * pipeline_data_queue.heap) :=
  client ← copy_connection rhs.(client_data_);
  server ← copy_connection rhs.(server_data_);
  let '(q, h) := pipeline_data_queue.copy rhs.(pipeline_data_queue_) h in
  Ok (ProxyHandler A client server (event.make client_event) (event.make server_event) None None
        rhs.(server_addr_) q, h).

Section handler.
Context {K A : Type} `{net K A}.

(** What the stream of a line sees: its source, its destination and the
    queue. *)
Definition world_of (s : line) (p : t A) (e : env K A) : world K :=
  proxy_stream_interface.reset (Some (src_of s p)) (Some (dest_of s p))
    (World K e.(env_kernel) None None p.(pipeline_data_queue_) e.(env_heap) e.(env_cache)
       e.(env_log) e.(env_lines)).

(** What the stream changed, as the objects it points to. *)
Definition leave_world (s : line) (w : world K) (p : t A) (e : env K A) : res (t A * env K A) :=
  src ← of_option w.(p_src_data_);
  dest ← of_option w.(p_dest_data_);
  Ok (with_pipeline w.(StreamHandler.pipeline_data_queue_) (with_dest s dest (with_src s src p)),
      Env K A w.(kernel_) w.(heap_) w.(header_cache_) w.(access_log_) w.(log_lines_) e.(env_streams)
        e.(request_stream_handlers) e.(response_stream_handlers) e.(proxy_handlers)).

(** The stream handler a line points to. *)
Definition stream_of (s : line) (p : t A) (e : env K A) : res (Z * stream_handler A) :=
  q ← of_option (handler_of s p);
  h ← of_option (e.(env_streams) !! q);
  Ok (q, h).

(** [p_..._stream_handler_->reset(&..._stream_)] *)
Definition reset_stream (s : line) (p : t A) (e : env K A) : res (t A * env K A) :=
  '(q, h) ← stream_of s p e;
  '(h, w) ← http_proxy_stream_handler.reset h (world_of s p e);
  '(p, e) ← leave_world s w p e;
  Ok (p, with_stream q h e).

Definition reset (p : t A) (e : env K A) : res (t A * env K A) :=
  let p := with_client (connection.reset p.(client_data_)) (with_server (connection.reset p.(server_data_)) p) in
  '(request, pool) ← pessimistic_memory_manager.allocate_element e.(request_stream_handlers);
  let e := with_pools pool e.(response_stream_handlers) e.(proxy_handlers) e in
  let p := with_handlers request p.(p_response_stream_handler_) p in
  '(p, e) ← reset_stream REQUEST_LINE p e;
  '(response, pool) ← pessimistic_memory_manager.allocate_element e.(response_stream_handlers);
  let e := with_pools e.(request_stream_handlers) pool e.(proxy_handlers) e in
  let p := with_handlers p.(p_request_stream_handler_) response p in
  '(p, e) ← reset_stream RESPONSE_LINE p e;
  q ← pipeline_data_queue.empty_queue p.(pipeline_data_queue_);
  Ok (with_pipeline q p, e).

(** ** The end of a connection *)

(** [del_event] and [close] of a socket that was opened. *)
Definition close_socket (k : K) (ev : event.t) (c : connection.t) : res K :=
  if negb (connection.fd c =? -1) then
    k ← poller.del_event A k ev;
    Ok (sys_close (A := A) k (connection.fd c))
  else Ok k.

Definition release (q : option Z) (pool : pessimistic_memory_manager.t Z)
    : res (pessimistic_memory_manager.t Z) :=
  match q with
  | Some q => pessimistic_memory_manager.release_element q pool
  | None => Ok pool
  end.

(** [this] is the address of the object; the sockets keep their numbers. *)
Definition shutdown (this : Z) (p : t A) (e : env K A) : res (t A * env K A) :=
  k ← close_socket e.(env_kernel) p.(client_event_) p.(client_data_);
  k ← close_socket k p.(server_event_) p.(server_data_);
  proxies ← (match p.(p_request_stream_handler_), p.(p_response_stream_handler_) with
             | None, None => Ok e.(proxy_handlers)
             | _, _ => pessimistic_memory_manager.release_element this e.(proxy_handlers)
             end);
  requests ← release p.(p_request_stream_handler_) e.(request_stream_handlers);
  responses ← release p.(p_response_stream_handler_) e.(response_stream_handlers);
  Ok (with_handlers None None p, with_pools requests responses proxies (with_kernel k e)).

Definition shutdown_request (p : t A) (e : env K A) : env K A :=
  with_kernel (sys_shutdown_rd (A := A) e.(env_kernel) (connection.fd p.(client_data_))) e.

(** ** The connection to the server *)

Definition handle_server_connect (p : t A) (e : env K A) : t A * env K A * socketlib.STATUS :=
  let '(k, error) := sys_getsockopt_error (A := A) e.(env_kernel) (connection.fd p.(server_data_)) in
  if bool_decide (error = Some 0) then
    (with_server (connection.set_state connection.CONNECTED p.(server_data_)) p, with_kernel k e,
     socketlib.COMPLETE)
  else (p, with_kernel k e, socketlib.CONNECTION_FAILED).

Definition check_for_server_connect (fd : Z) (p : t A) (e : env K A) : t A * env K A * socketlib.STATUS :=
  if (fd =? connection.fd p.(server_data_)) &&
     bool_decide (connection.state p.(server_data_) = connection.CONNECTING)
  then handle_server_connect p e
  else (p, e, socketlib.INCOMPLETE).

(** A [connect] that succeeds at once is not expected. *)
Definition initiate_server_connect (this : Z) (server_addr : A * Z) (p : t A) (e : env K A)
    : res (t A * env K A * socketlib.STATUS) :=
  let '(k, new_fd) := sys_socket (A := A) e.(env_kernel) in
  let '(k, c) := connection.set_fd k new_fd p.(server_data_) in
  let p := with_server c p in
  if connection.fd c =? -1 then Ok (p, with_kernel k e, socketlib.CONNECTION_FAILED)
  else
    let '(k, ev) := event.set (A := A) (connection.fd c) this k p.(server_event_) in
    let p := with_server_event ev p in
    k ← poller.add_event A k ev (Z.lor EV_READ EV_WRITE) 0;
    match sys_connect k (connection.fd c) server_addr with
    | (k, inr EINPROGRESS) =>
        Ok (with_server (connection.set_state connection.CONNECTING c) p, with_kernel k e, socketlib.COMPLETE)
    | (k, inr _) => Ok (p, with_kernel k e, socketlib.CONNECTION_FAILED)
    | (k, inl _) => Aborted
    end.

(** The rules the request stream looks a host up in. *)
Variable host_rules_ : gmap (list Z) (host_rules.t A).
Variable request_postprocessor_ : option (message_buffer.t -> res (bool * message_buffer.t)).
Variable localtime : nat -> log_record.tm.

Definition attempt_jit_server_connect (this : Z) (s : line) (p : t A) (e : env K A)
    : res (t A * env K A * socketlib.STATUS) :=
  match s with
  | RESPONSE_LINE => Ok (p, e, socketlib.COMPLETE)
  | REQUEST_LINE =>
      if bool_decide (connection.state p.(server_data_) = connection.NOT_CONNECTED) then
        '(q, h) ← stream_of s p e;
        '(address_status, h) ← http_proxy_stream_handler.get_forward_address_status host_rules_ h;
        let e := with_stream q h e in
        match address_status with
        | http_proxy_stream_handler.STREAM_DOES_NOT_PROVIDE_FORWARD_ADDRESS => Aborted
        | http_proxy_stream_handler.ERROR_DETERMINING_FORWARD_ADDRESS => Ok (p, e, socketlib.DENY)
        | http_proxy_stream_handler.FORWARD_ADDRESS_AVAILABLE =>
            a ← of_option (http_proxy_stream_handler.get_forward_address_from_stream h);
            initiate_server_connect this a p e
        | http_proxy_stream_handler.CONNECTION_DOES_NOT_PROVIDE_FORWARD_ADDRESS =>
            initiate_server_connect this p.(server_addr_) p e
        | http_proxy_stream_handler.FORWARD_ADDRESS_NOT_YET_AVAILABLE => Ok (p, e, socketlib.COMPLETE)
        end
      else Ok (p, e, socketlib.COMPLETE)
  end.

(** ** The transfer in one direction *)

(** The read of [handle_stream]; its status is overwritten. *)
Definition read_source (s : line) (p : t A) (e : env K A) : res (t A * env K A) :=
  let c := src_of s p in
  if bool_decide (connection.state c <> connection.NOT_CONNECTED) &&
     bool_decide (connection.state c <> connection.CONNECTING)
  then
    '(k, c, _) ← connection.non_blocking_read e.(env_kernel) c;
    Ok (with_src s c p, with_kernel k e)
  else Ok (p, e).

(** [p_stream_handler->process_data(src_data.read_buffer())]: the buffer is
    the one inside the source. *)
Definition process_source (s : line) (p : t A) (e : env K A) : res (t A * env K A * socketlib.STATUS) :=
  '(q, h) ← stream_of s p e;
  '(status, h, w, buf) ←
    http_proxy_stream_handler.process_data host_rules_ request_postprocessor_ localtime h
      (world_of s p e) (connection.read_buffer (src_of s p));
  '(p, e) ← leave_world s w p e;
  Ok (with_src s (connection.set_read_buffer buf (src_of s p)) p, with_stream q h e, status).

(** One turn of the [for(;;)]: [Some] status returns, [None] goes on. *)
Definition outcome : Type := option socketlib.STATUS * t A * env K A.

(** What the status of the stream means for the loop. *)
Definition stream_status (status : socketlib.STATUS) (s : line) (p : t A) (e : env K A) : outcome :=
  let c := src_of s p in
  match status with
  | socketlib.COMPLETE =>
      if negb (connection.ready_to_read c) then
        if bool_decide (connection.state c = connection.READ_SHUT) ||
           bool_decide (connection.state c = connection.HUNGUP)
        then (Some socketlib.COMPLETE, p, e)
        else (Some socketlib.INCOMPLETE, p, e)
      else (None, p, e)
  | socketlib.INCOMPLETE => (Some socketlib.INCOMPLETE, p, e)
  | socketlib.CONNECTION_FAILED => (Some socketlib.CONNECTION_FAILED, p, e)
  | socketlib.SRC_CLOSED =>
      (Some socketlib.COMPLETE, with_src s (connection.set_state connection.READ_SHUT c) p, e)
  | socketlib.DEST_CLOSED => (Some socketlib.COMPLETE, p, e)
  | socketlib.DENY => (Some socketlib.DENY, p, e)
  | _ => (None, p, e)
  end.

Definition stream_turn (this : Z) (s : line) (p : t A) (e : env K A) : res outcome :=
  '(p, e) ← read_source s p e;
  '(p, e, status) ← process_source s p e;
  '(p, e, connect_status) ← attempt_jit_server_connect this s p e;
  match connect_status with
  | socketlib.COMPLETE => Ok (stream_status status s p e)
  | _ => Ok (Some connect_status, p, e)
  end.

Fixpoint stream_loop (fuel : nat) (this : Z) (s : line) (p : t A) (e : env K A)
    : res (t A * env K A * socketlib.STATUS) :=
  match fuel with
  | O => NoFuel
  | S fuel =>
      '(o, p, e) ← stream_turn this s p e;
      match o : option socketlib.STATUS with
      | Some st => Ok (p, e, st)
      | None => stream_loop fuel this s p e
      end
  end.

(** [fuel] bounds the turns of the loop. *)
Definition handle_stream (fuel : nat) (this : Z) (s : line) (p : t A) (e : env K A)
    : res (t A * env K A * socketlib.STATUS) :=
  stream_loop fuel this s p e.

(** ** Events *)

Definition handle_pollin (fd : Z) (p : t A) : res (t A) :=
  if fd =? connection.fd p.(client_data_) then
    Ok (with_client (connection.set_ready_to_read true p.(client_data_)) p)
  else if fd =? connection.fd p.(server_data_) then
    Ok (with_server (connection.set_ready_to_read true p.(server_data_)) p)
  else _ ← CHECK_CONDITION_VAL false; Ok p.

Definition handle_pollout (fd : Z) (p : t A) : res (t A) :=
  if fd =? connection.fd p.(client_data_) then
    Ok (with_client (connection.set_ready_to_write true p.(client_data_)) p)
  else if fd =? connection.fd p.(server_data_) then
    Ok (with_server (connection.set_ready_to_write true p.(server_data_)) p)
  else _ ← CHECK_CONDITION_VAL false; Ok p.

(** [timeouts]: which of the two sockets timed out is closed. *)
Definition handle_timeout (this fd : Z) (p : t A) (e : env K A) : res (t A * env K A) :=
  '(p, e) ←
    (if connection.fd p.(server_data_) =? fd then
       _ ← CHECK_CONDITION (negb (poller.pending A e.(env_kernel) p.(server_event_)));
       let '(k, c) := connection.set_fd e.(env_kernel) (-1) p.(server_data_) in
       let c := connection.set_state connection.HUNGUP c in
       Ok (with_server c p, with_kernel (sys_close (A := A) k fd) e)
     else if connection.fd p.(client_data_) =? fd then
       _ ← CHECK_CONDITION (negb (poller.pending A e.(env_kernel) p.(client_event_)));
       let '(k, c) := connection.set_fd e.(env_kernel) (-1) p.(client_data_) in
       let c := connection.set_state connection.HUNGUP c in
       Ok (with_client c p, with_kernel (sys_close (A := A) k fd) e)
     else _ ← CHECK_CONDITION_VAL false; Ok (p, e));
  if bool_decide (connection.state p.(server_data_) = connection.HUNGUP) &&
     bool_decide (connection.state p.(client_data_) = connection.HUNGUP)
  then shutdown this p e
  else Ok (p, e).

Definition add_client (this client_socket : Z) (p : t A) (e : env K A)
    : res (t A * env K A * socketlib.STATUS) :=
  _ ← CHECK_CONDITION (connection.fd p.(client_data_) =? -1);
  let '(k, c) := connection.set_fd e.(env_kernel) client_socket p.(client_data_) in
  let p := with_client (connection.set_state connection.CONNECTED c) p in
  let '(k, ev) := event.set (A := A) client_socket this k p.(client_event_) in
  k ← poller.add_event A k ev (Z.lor EV_READ EV_WRITE) 0;
  Ok (with_client_event ev p, with_kernel k e, socketlib.COMPLETE).

(** The events a socket has to wait for. *)
Definition wanted (c : connection.t) : Z :=
  Z.lor (if negb (connection.ready_to_read c) && connection.open_for_read c then EV_READ else 0)
        (if negb (connection.ready_to_write c) && connection.open_for_write c then EV_WRITE else 0).

(** The end of [handle_event]: the two events are registered again. *)
Definition wait (p : t A) (e : env K A) : res (env K A) :=
  let client_ev := wanted p.(client_data_) in
  let server_ev := wanted p.(server_data_) in
  _ ← CHECK_CONDITION (negb (client_ev =? 0) || negb (server_ev =? 0) ||
        negb (connection.open_for_read p.(server_data_) || connection.open_for_write p.(server_data_)));
  k ← (if negb (client_ev =? 0) then poller.add_event A e.(env_kernel) p.(client_event_) client_ev 0
       else Ok e.(env_kernel));
  k ← (if negb (server_ev =? 0) then poller.add_event A k p.(server_event_) server_ev 0 else Ok k);
  Ok (with_kernel k e).

(** The transfers of [handle_event].  [inl] ends the call with a shutdown and
    the value, [inr] goes on to wait. *)
Definition transfer (fuel : nat) (this : Z) (p : t A) (e : env K A) : res (t A * env K A * (Z + unit)) :=
  '(p, e, status) ← handle_stream fuel this RESPONSE_LINE p e;
  match status with
  | socketlib.COMPLETE => Ok (p, e, inl 0)
  | socketlib.DENY => Ok (p, e, inl (-1))
  | _ =>
      '(p, e, status) ← handle_stream fuel this REQUEST_LINE p e;
      match status with
      | socketlib.DENY =>
          let e := shutdown_request p e in
          '(p, e, status) ← handle_stream fuel this RESPONSE_LINE p e;
          match status with
          | socketlib.COMPLETE => Ok (p, e, inl 0)
          | socketlib.DENY => Ok (p, e, inl (-1))
          | _ => Ok (p, e, inr tt)
          end
      | _ => Ok (p, e, inr tt)
      end
  end.

(** The function does not return a value when it goes on to wait, [None];
    the caller does not use it. *)
Definition handle_event (fuel : nat) (this fd revents : Z) (p : t A) (e : env K A)
    : res (t A * env K A * option Z) :=
  p ← (if negb (Z.land revents EV_WRITE =? 0) then handle_pollout fd p else Ok p);
  p ← (if negb (Z.land revents EV_READ =? 0) then handle_pollin fd p else Ok p);
  let '(p, e, status) := check_for_server_connect fd p e in
  match status with
  | socketlib.COMPLETE | socketlib.INCOMPLETE =>
      '(p, e, x) ← transfer fuel this p e;
      match x with
      | inl ret => '(p, e) ← shutdown this p e; Ok (p, e, Some ret)
      | inr _ => e ← wait p e; Ok (p, e, None)
      end
  | _ => '(p, e) ← shutdown this p e; Ok (p, e, Some (-1))
  end.

End handler.
End proxy_handler.

#[export] Existing Instance proxy_handler.line_eq_dec.
