(* ===== verification/NewConnection.v ===== *)
(** The server, proxylib/new_connection_handler.cpp: a listening socket hands
    each client to a proxy handler of the pool.  The state of the program is
    what the connections share and the proxy handlers themselves. *)
From stdpp Require Import list gmap.
From S2P Require Import Prelude Status ReadWriteBuffer HttpLex Interfaces HeaderStore HeaderHandler.
From S2P Require Import HeaderParser BodyParsers Os Connection Net Poller HeaderWriter Printf.
From S2P Require Import MemoryManager Pipeline Url StreamHandler ProxyHandler.

(** The proxy handlers are objects of a pool, like the stream handlers. *)
Record server {K A : Type} := Server {
  server_env : env K A;
  server_proxies : gmap Z (proxy_handler.t A)
}.
Arguments server K A : clear implicits.

Module new_connection_handler.
Section handler.
Context {K A : Type} `{net K A}.

(** As for the proxy handler: the rules of the stream handlers. *)
Variable host_rules_ : gmap (list Z) (host_rules.t A).
Variable request_postprocessor_ : option (message_buffer.t -> res (bool * message_buffer.t)).
Variable localtime : nat -> log_record.tm.

Definition accept_client (proxy_server_socket : Z) (k : K) : K * Z :=
  sys_accept (A := A) k proxy_server_socket.

(** A request stream that does not provide the server's address: the
    connection to the one of the configuration begins at once. *)
Definition connect_at_once (this : Z) (p : proxy_handler.t A) (e : env K A) : res (proxy_handler.t A * env K A) :=
  '(q, h) ← proxy_handler.stream_of proxy_handler.REQUEST_LINE p e;
  '(address_status, h) ← http_proxy_stream_handler.get_forward_address_status host_rules_ h;
  let e := with_stream q h e in
  match address_status with
  | http_proxy_stream_handler.STREAM_DOES_NOT_PROVIDE_FORWARD_ADDRESS =>
      '(p, e, _) ← proxy_handler.initiate_server_connect this p.(proxy_handler.server_addr_) p e;
      Ok (p, e)
  | _ => Ok (p, e)
  end.

(** The body of the loop, for a client that was accepted.  The result of
    [allocate_element] is not tested: when the pool is empty the null pointer
    is dereferenced. *)
Definition new_client (client_fd : Z) (s : server K A) : res (server K A) :=
  let e := s.(server_env) in
  '(p_proxy_handler, pool) ← pessimistic_memory_manager.allocate_element e.(proxy_handlers);
  this ← of_option p_proxy_handler;
  p ← of_option (s.(server_proxies) !! this);
  let e := with_pools e.(request_stream_handlers) e.(response_stream_handlers) pool e in
  '(p, e) ← proxy_handler.reset p e;
  '(p, e, status) ← proxy_handler.add_client this client_fd p e;
  '(p, e) ← match status with
            | socketlib.COMPLETE => connect_at_once this p e
            | _ => Ok (p, e)
            end;
  Ok (Server K A e (<[this := p]> s.(server_proxies))).

(** The loop; [fuel] bounds the clients of one event. *)
Fixpoint accept_loop (fuel : nat) (fd : Z) (s : server K A) : res (server K A) :=
  match fuel with
  | O => NoFuel
  | S fuel =>
      let '(k, client_fd) := accept_client fd s.(server_env).(env_kernel) in
      let s := Server K A (with_kernel k s.(server_env)) s.(server_proxies) in
      if client_fd =? -1 then Ok s
      else s ← new_client client_fd s; accept_loop fuel fd s
  end.

Definition handle_event (fuel : nat) (fd revents : Z) (ev : event.t) (s : server K A) : res (server K A * Z) :=
  s ← accept_loop fuel fd s;
  k ← poller.add_event A s.(server_env).(env_kernel) ev (Z.lor EV_READ EV_WRITE) 0;
  Ok (Server K A (with_kernel k s.(server_env)) s.(server_proxies), 0).

(** ** Dispatch *)

(** What the poller's callback does for an event of a proxy handler; the value
    of the handler is not used. *)
Definition proxy_event (fuel : nat) (ev : event.t) (fd revents : Z) (s : server K A) : res (server K A) :=
  this ← poller.event_callback ev;
  p ← of_option (s.(server_proxies) !! this);
  '(p, e, _) ← proxy_handler.handle_event host_rules_ request_postprocessor_ localtime fuel this fd revents p
                 s.(server_env);
  Ok (Server K A e (<[this := p]> s.(server_proxies))).

End handler.
End new_connection_handler.
