(* ===== verification/ConfigReading.v ===== *)
(** Configuration files are read to their end, and what was printed is read
    back. *)
From stdpp Require Import list sorting.
From S2P Require Import Prelude Printf ConfigFile.

Import config_file.

(** * Strings *)

Lemma find_char_none c s : c ∉ s -> find [c] s = None.
Proof.
  induction s as [|d s IH]; intros Hn; [done|]. rewrite not_elem_of_cons in Hn. cbn [find length take].
  rewrite take_0, bool_decide_eq_false_2 by (intros [= E]; destruct Hn; congruence). by rewrite IH by apply Hn.
Qed.

Lemma find_char c a b : c ∉ a -> find [c] (a ++ c :: b) = Some (length a).
Proof.
  induction a as [|d a IH]; intros Hn; cbn [find length take app]; [by rewrite take_0, bool_decide_eq_true_2|].
  rewrite not_elem_of_cons in Hn. rewrite take_0, bool_decide_eq_false_2 by (intros [= E]; destruct Hn; congruence).
  by rewrite IH by apply Hn.
Qed.

Lemma find_if_app p a b :
  Forall (fun c => p c = false) a -> match head b with Some c => p c = true | None => True end ->
  find_if p (a ++ b) = match b with [] => None | _ => Some (length a) end.
Proof.
  induction 1 as [|d a Hd _ IH]; intros Hb; cbn [find_if app length].
  - destruct b as [|c b]; [done|]. simpl in *. by rewrite Hb.
  - rewrite Hd, (IH Hb). by destruct b.
Qed.

(** A string that is not blank at its ends. *)
Definition edges_ok (s : list Z) : Prop :=
  forall c, head s = Some c \/ last s = Some c -> one_of whitespace c = false.

Lemma trim_id s : edges_ok s -> trim s = s.
Proof.
  intros He. destruct s as [|c s]; [done|]. unfold trim. cbn [find_if].
  rewrite (He c) by by left. cbn [negb drop]. unfold find_last_if.
  destruct (exists_last (l := c :: s)) as (l & d & El); [done|]. rewrite El, rev_unit. cbn [find_if].
  rewrite (He d) by (right; rewrite El; apply last_snoc). cbn [negb mbind option_bind].
  replace (length (l ++ [d]) - 1 - 0 + 1)%nat with (length (l ++ [d])) by (rewrite length_app; simpl; lia).
  by rewrite take_ge.
Qed.

Lemma trim_blank s : trim s = [] -> Forall (fun c => one_of whitespace c = true) s.
Proof.
  intros Ht. assert (find_if (fun c => negb (one_of whitespace c)) s = None) as Hn.
  { destruct (find_if _ s) as [n|] eqn:E; [|done]. exfalso. unfold trim in Ht. rewrite E in Ht.
    assert (forall t n, find_if (fun c => negb (one_of whitespace c)) t = Some n ->
      exists c u, drop n t = c :: u /\ one_of whitespace c = false) as Hf.
    { clear. induction t as [|c t IH]; intros n Hn; [done|]. cbn [find_if] in Hn.
      destruct (one_of whitespace c) eqn:Ec; cbn [negb] in Hn; [|injection Hn as <-; by exists c, t].
      destruct (find_if _ t) as [m|]; [|done]. injection Hn as <-. by apply IH. }
    destruct (Hf _ _ E) as (c & u & Ed & Hc). rewrite Ed in Ht.
    assert (exists m, find_last_if (fun c => negb (one_of whitespace c)) (c :: u) = Some m) as [m Hm].
    { unfold find_last_if. assert (exists k, find_if (fun c => negb (one_of whitespace c)) (rev (c :: u)) = Some k) as [k ->];
        [|by eexists]. simpl. clear -Hc. induction (rev u) as [|d l IH]; cbn [find_if app]; [rewrite Hc; by eexists|].
      destruct (negb _); [by eexists|]. destruct IH as [k ->]. by eexists. }
    rewrite Hm in Ht. by destruct m. }
  clear Ht. induction s as [|c s IH]; [done|]. cbn [find_if] in Hn.
  destruct (one_of whitespace c) eqn:Ec; [|done]. constructor; [done|]. apply IH.
  by destruct (find_if _ s).
Qed.

(** * Reading ends *)

(** What is left of a stream: the turns of a loop that reads a line in each. *)
Definition left_of (ist : istream) : nat :=
  if ist.(failbit) then 0 else if ist.(eofbit) then 1 else length ist.(chars) + 2.

Lemma cut_line_left l : match (cut_line l).2 with Some rest => (length rest < length l)%nat | None => True end.
Proof.
  induction l as [|c l IH]; [done|]. cbn [cut_line]. destruct (c =? 10); simpl; [lia|].
  destruct (cut_line l) as [line [rest|]]; simpl in *; [lia|done].
Qed.

Lemma getline_left ist s : is_ok ist = true -> (left_of (getline ist s).1 < left_of ist)%nat.
Proof.
  unfold is_ok, getline, good, left_of. destruct ist as [l e f]; simpl. destruct f; [done|]. intros _.
  destruct e; simpl; [lia|]. pose proof (cut_line_left l) as Hl.
  destruct (cut_line l) as [line [rest|]]; simpl in *; [lia|]. destruct (bool_decide _); lia.
Qed.

Lemma yields_sure {A} F (m : res A) Q : yields False m Q -> yields F m Q.
Proof. by destruct m. Qed.

Section reading.
Context `{lexical}.

Lemma continue_value_ends fuel : forall ist nextline line,
  (left_of ist < fuel)%nat ->
  yields False (continue_value fuel ist nextline line) (fun x =>
    (left_of x.1.1 <= left_of ist)%nat /\ (x.1.2 = nextline \/ (left_of x.1.1 < left_of ist)%nat)).
Proof.
  induction fuel as [|fuel IH]; intros ist nextline line Hf; [lia|]. cbn [continue_value].
  destruct (is_ok ist) eqn:Eo; cbn [negb]; [|split; [done|by left]].
  pose proof (getline_left ist nextline Eo) as Hg. destruct (getline ist nextline) as [ist1 next1]. simpl in Hg.
  destruct (is_blank next1); [split; simpl; [lia|by right]|].
  destruct (find _ _); [split; simpl; [lia|by right]|].
  eapply yields_mono; [apply IH; lia|]. intros x [Hx _]. split; [lia|right; lia].
Qed.

Lemma parse_key_name_left key : (length (parse_key_name key).2 <= length key)%nat.
Proof. unfold parse_key_name. simpl. rewrite length_drop. lia. Qed.

Lemma parse_array_left key :
  (key = [] -> (parse_array key).2 = []) /\ (key <> [] -> (parse_array key).1.2 <> None ->
  (length (parse_array key).2 < length key)%nat).
Proof.
  unfold parse_array. split; [by intros ->|]. intros Hk Hi. destruct key as [|c key]; [done|].
  destruct (negb _); [done|]. cbn [drop] in *. rewrite drop_0 in *.
  destruct (find _ key) as [pos|]; [|done]. destruct (cast_size _); [|done]. simpl. rewrite length_drop. lia.
Qed.

(** A key that is not empty, when it does not give a value. *)
Lemma keytype_key key t : parse_keytype key = t -> t <> RAW_VALUE -> key <> [].
Proof. by intros <- Ht ->. Qed.

Lemma parse_key_ends fuel : forall v key s, (length key < fuel)%nat -> yields True (parse_key fuel v key s) (fun _ => True).
Proof.
  induction fuel as [|fuel IH]; intros [raw a m t] key s Hf; [lia|]. cbn [parse_key].
  destruct (parse_keytype key) eqn:Et; try done.
  - pose proof (parse_array_left key) as [_ Hl]. apply keytype_key in Et; [|done].
    destruct (parse_array key) as [[b [i|]] key']; [|done]. cbn [of_option]. rewrite bind_ok.
    specialize (Hl Et ltac:(done)). simpl in Hl.
    apply (yields_bind _ _ _ (fun _ => True)); [by destruct (_ !! Z.to_nat i)|].
    intros e _. eapply yields_bind; [apply IH; lia|done].
  - apply keytype_key in Et; [|done]. unfold parse_record_name.
    pose proof (parse_key_name_left (drop 1 key)) as Hl. rewrite length_drop in Hl.
    destruct (parse_key_name (drop 1 key)) as [n key']. simpl in Hl.
    assert (length key' < fuel)%nat by (destruct key; [done|simpl in *; lia]).
    destruct (map_find n m); (eapply yields_bind; [by apply IH|done]).
Qed.

Lemma read_loop_ends fuel : forall ist nextline c,
  (2 * left_of ist + (if (0 <? Z.of_nat (length nextline))%Z then 1 else 0) < fuel)%nat ->
  yields True (read_loop fuel ist nextline c) (fun _ => True).
Proof.
  induction fuel as [|fuel IH]; intros ist nextline c Hf; [lia|]. cbn [read_loop].
  set (b := (0 <? Z.of_nat (length nextline))%Z) in *.
  destruct (is_ok ist || b) eqn:Eo; [|done].
  assert (exists ist1 line, (if b then (ist, nextline) else getline ist []) = (ist1, line) /\
    (2 * left_of ist1 < fuel)%nat) as (ist1 & line & -> & Hl).
  { destruct b; [by exists ist, nextline; split; [|lia]|]. rewrite orb_false_r in Eo.
    pose proof (getline_left ist [] Eo) as Hg. destruct (getline ist []) as [ist1 line]. exists ist1, line.
    simpl in Hg. split; [done|lia]. }
  destruct (find value_delimiter_ _) as [p|]; [|apply IH; simpl; lia].
  eapply yields_bind; [apply yields_sure, continue_value_ends; lia|].
  intros [[ist2 next] value] [Hle Hlt]. simpl in Hle, Hlt. unfold assign.
  destruct (parse_key_name _) as [root key]. apply (yields_bind _ _ _ (fun _ => True)).
  { eapply yields_bind; [apply parse_key_ends; lia|]. done. }
  intros c' _. apply IH. destruct Hlt as [->|Hlt]; [simpl; lia|].
  destruct (0 <? Z.of_nat (length next)); clear -Hl Hlt; lia.
Qed.

Lemma parse_file_ends file c : yields True (parse_file file c) (fun x => x.1 = bool_decide (is_Some file)).
Proof.
  destruct file as [l|]; [|done]. unfold parse_file, read. eapply yields_bind.
  - apply read_loop_ends. unfold enough, left_of. simpl. lia.
  - by intros [ist c'] _.
Qed.

End reading.

(** * Bytes of the file *)

(** Every value is made of bytes. *)
Inductive value_bytes : value -> Prop :=
  | value_bytes_intro r a m t : bytes_ok r -> Forall value_bytes a -> Forall value_bytes (map snd m) ->
      value_bytes (Value r a m t).

Definition config_bytes (c : contents) : Prop := Forall value_bytes (map snd c).

Lemma bytes_drop n s : bytes_ok s -> bytes_ok (drop n s).
Proof. apply Forall_drop. Qed.

Lemma bytes_take n s : bytes_ok s -> bytes_ok (take n s).
Proof. apply Forall_take. Qed.

Lemma substr_bytes n s : bytes_ok s -> bytes_ok (substr_to n s).
Proof. destruct n; [apply bytes_take|done]. Qed.

Lemma trim_bytes s : bytes_ok s -> bytes_ok (trim s).
Proof.
  intros Hs. unfold trim. set (s' := match find_if _ s with Some n => drop n s | None => [] end).
  assert (bytes_ok s') as Hs' by (unfold s'; destruct (find_if _ s); [by apply bytes_drop|constructor]).
  destruct (find_last_if _ s'); [by apply bytes_take|constructor].
Qed.

Definition stream_bytes (ist : istream) : Prop := bytes_ok ist.(chars).

Lemma cut_line_bytes l : bytes_ok l ->
  bytes_ok (cut_line l).1 /\ match (cut_line l).2 with Some rest => bytes_ok rest | None => True end.
Proof.
  induction 1 as [|c l Hc Hl [IH1 IH2]]; [by split; [constructor|]|]. cbn [cut_line]. destruct (c =? 10); [by split; [constructor|]|].
  destruct (cut_line l) as [line [rest|]]; simpl in *; (split; [by constructor|done]).
Qed.

Lemma getline_bytes ist s : stream_bytes ist -> bytes_ok s ->
  stream_bytes (getline ist s).1 /\ bytes_ok (getline ist s).2.
Proof.
  intros Hi Hs. unfold getline. destruct (good ist); [|done]. destruct (cut_line_bytes _ Hi) as [H1' H2'].
  destruct (cut_line (chars ist)) as [line [rest|]]; simpl in *; (split; [done || constructor|done]).
Qed.

Lemma map_find_bytes k (m : contents) v : Forall value_bytes (map snd m) -> map_find k m = Some v -> value_bytes v.
Proof.
  induction m as [|[k' v'] m IH]; [done|]. simpl. inversion 1 as [|? ? Hv Hm]; subst.
  destruct (bool_decide _); [by intros [= <-]|auto].
Qed.

Lemma map_set_bytes k v (m : contents) :
  value_bytes v -> Forall value_bytes (map snd m) -> Forall value_bytes (map snd (map_set k v m)).
Proof.
  intros Hv. induction m as [|[k' v'] m IH]; simpl; [by repeat constructor|]. inversion 1 as [|? ? Hv' Hm]; subst.
  destruct (bool_decide _); [by constructor|]. destruct (str_ltb k k'); constructor; auto.
Qed.

Lemma new_value_bytes : value_bytes new_value.
Proof. by repeat constructor. Qed.

Lemma grow_bytes n a : Forall value_bytes a -> Forall value_bytes (grow n a).
Proof.
  intros Ha. unfold grow. destruct (_ <=? _); [by apply Forall_take|]. apply Forall_app. split; [done|].
  apply Forall_replicate, new_value_bytes.
Qed.

Section bytes.
Context `{lexical}.

Lemma parse_key_bytes fuel : forall v key s v', value_bytes v -> bytes_ok s ->
  parse_key fuel v key s = Ok v' -> value_bytes v'.
Proof.
  induction fuel as [|fuel IH]; intros v key s v' Hv Hs Hp; [done|]. inversion Hv as [raw a m t Hr Ha Hm]; subst.
  cbn [parse_key] in Hp. destruct (parse_keytype key).
  - injection Hp as <-. by constructor.
  - injection Hp as <-. by constructor.
  - destruct (parse_array key) as [[b [i|]] key']; [|done]. cbn [of_option] in Hp. rewrite bind_ok in Hp.
    set (a' := if _ <=? _ then _ else a) in Hp.
    assert (Forall value_bytes a') as Ha' by (unfold a'; case_match; [by apply grow_bytes|done]).
    apply bind_ok_inv in Hp as (e & He & Hp). apply bind_ok_inv in Hp as (e' & He' & [= <-]).
    destruct (a' !! Z.to_nat i) as [e0|] eqn:E; [injection He as ->|done].
    constructor; [done| |done]. apply Forall_insert; [done|]. eapply IH; [|exact Hs|exact He'].
    by apply (Forall_lookup_1 _ _ _ _ Ha' E).
  - destruct (parse_record_name key) as [n key']. destruct (map_find n m) as [e|] eqn:E;
      apply bind_ok_inv in Hp as (e' & He' & [= <-]); (constructor; [done|done|]; apply map_set_bytes; [|done];
      eapply IH; [|exact Hs|exact He']); [by eapply map_find_bytes|apply new_value_bytes].
Qed.

Lemma continue_value_bytes fuel : forall ist nextline line x,
  stream_bytes ist -> bytes_ok nextline -> bytes_ok line -> continue_value fuel ist nextline line = Ok x ->
  stream_bytes x.1.1 /\ bytes_ok x.1.2 /\ bytes_ok x.2.
Proof.
  induction fuel as [|fuel IH]; intros ist nextline line x Hi Hn Hl Hc; [done|]. cbn [continue_value] in Hc.
  destruct (negb (is_ok ist)); [by injection Hc as <-|].
  destruct (getline_bytes ist nextline Hi Hn) as [Hi1 Hn1]. destruct (getline ist nextline) as [ist1 next1]. simpl in Hi1, Hn1.
  destruct (is_blank next1); [by injection Hc as <-|]. set (next2 := substr_to _ next1) in Hc.
  assert (bytes_ok next2) as Hn2 by by apply substr_bytes.
  destruct (find value_delimiter_ next2); [by injection Hc as <-|]. eapply IH; [exact Hi1|exact Hn2| |exact Hc].
  apply Forall_app. split; [|done]. destruct (is_blank next2); [done|]. apply Forall_app. split; [done|]. forall_concrete.
Qed.

Lemma read_loop_bytes fuel : forall ist nextline c x,
  stream_bytes ist -> bytes_ok nextline -> config_bytes c -> read_loop fuel ist nextline c = Ok x ->
  config_bytes x.2.
Proof.
  induction fuel as [|fuel IH]; intros ist nextline c x Hi Hn Hc Hr; [done|]. cbn [read_loop] in Hr.
  destruct (is_ok ist || _); [|by injection Hr as <-].
  destruct (if 0 <? _ then (ist, nextline) else getline ist []) as [ist1 line] eqn:E.
  assert (stream_bytes ist1 /\ bytes_ok line) as [Hi1 Hl].
  { destruct (0 <? _); [by injection E as <- <-|]. destruct (getline_bytes ist [] Hi) as [? ?]; [constructor|].
    by rewrite E in *. }
  apply (substr_bytes (find comment_ line)) in Hl. destruct (find value_delimiter_ _) as [p|].
  - apply bind_ok_inv in Hr as ([[ist2 next] value] & Hcv & Hr).
    destruct (continue_value_bytes _ _ _ _ _ Hi1 (Forall_nil_2 _) (bytes_drop _ _ Hl) Hcv) as (Hi2 & Hn2 & Hv).
    apply bind_ok_inv in Hr as (c' & Ha & Hr). simpl in Hi2, Hn2, Hv. eapply IH; [exact Hi2|exact Hn2| |exact Hr].
    unfold assign in Ha. destruct (parse_key_name _) as [root key]. apply bind_ok_inv in Ha as (v & Hp & [= <-]).
    apply map_set_bytes; [|done]. eapply parse_key_bytes; [|by apply trim_bytes, Hv|exact Hp].
    destruct (map_find root c) as [v0|] eqn:Ev; [by eapply map_find_bytes|apply new_value_bytes].
  - eapply IH; [exact Hi1|constructor|exact Hc|exact Hr].
Qed.

Lemma parse_file_bytes file b c : bytes_ok file -> parse_file (Some file) [] = Ok (b, c) -> config_bytes c.
Proof.
  intros Hf Hp. unfold parse_file, read in Hp. apply bind_ok_inv in Hp as ([ist c'] & Hr & [= _ <-]).
  assert (stream_bytes (Stream file false false)) as Hi by exact Hf.
  apply (read_loop_bytes _ _ _ _ _ Hi) in Hr; [exact Hr|constructor|constructor].
Qed.

End bytes.

(** What is read of a configuration. *)

Lemma config_at_bytes c k v : config_bytes c -> config_at c k = Ok v -> value_bytes v.
Proof. intros Hc. unfold config_at. destruct (map_find k c) eqn:E; [intros [= <-]; by eapply map_find_bytes|done]. Qed.

Lemma value_at_bytes v i e : value_bytes v -> value_at v i = Ok e -> value_bytes e.
Proof.
  intros Hv Ha. inversion Hv as [r a m t Hr Haa Hm]; subst. unfold value_at in Ha. inv_res.
  simpl in Ha. destruct (a !! Z.to_nat i) eqn:E; [injection Ha as <-|done]. by apply (Forall_lookup_1 _ _ _ _ Haa E).
Qed.

Lemma value_named_bytes v n e : value_bytes v -> value_named v n = Ok e -> value_bytes e.
Proof.
  intros Hv Ha. inversion Hv as [r a m t Hr Haa Hm]; subst. unfold value_named in Ha. inv_res.
  simpl in Ha. destruct (map_find n m) eqn:E; [injection Ha as <-; by eapply map_find_bytes|done].
Qed.

Lemma read_string_bytes v s : value_bytes v -> read_string v = Ok s -> bytes_ok s.
Proof. intros Hv Hr. inversion Hv; subst. unfold read_string, read_raw in Hr. by inv_res. Qed.
