(* ===== verification/ConfigRoundTrip.v ===== *)
(** What [dump] prints, [parse_file] reads back.  Between the two are the
    leaves of the contents: pairs of a whole key and a value. *)
From stdpp Require Import list sorting.
From S2P Require Import Prelude Printf ConfigFile ConfigReading.

Import config_file.

(** * Well-formed contents *)

Definition name_char (c : Z) : Prop := c <> 91 /\ c <> 46 /\ c <> 61 /\ c <> 35 /\ c <> 10.
Definition name_ok (n : list Z) : Prop := Forall name_char n /\ edges_ok n.

(** A character of a value in a line: comments start with [#]. *)
Definition text_char (c : Z) : Prop := c <> 35 /\ c <> 10.

(** A line that continues a value: it is not blank, and has no key. *)
Definition continues (l : list Z) : Prop := Forall text_char l /\ (61 ∉ l) /\ is_blank l = false.

(** A value over several lines. *)
Definition over_lines (first : list Z) (ls : list (list Z)) : list Z := first ++ concat (map (cons 10) ls).

Definition raw_ok (r : list Z) : Prop :=
  edges_ok r /\ exists first ls, r = over_lines first ls /\ Forall text_char first /\ Forall continues ls.

Definition before (x y : list Z * value) : Prop := str_ltb x.1 y.1 = true.

(** A value that [dump] prints: the members its type does not use are empty. *)
Inductive value_ok : value -> Prop :=
  | raw_value_ok r : raw_ok r -> value_ok (Value r [] [] (Some RAW_VALUE))
  | array_ok a : a <> [] -> Z.of_nat (length a) < 2 ^ 31 -> (forall v, v ∈ a -> value_ok v) ->
      value_ok (Value [] a [] (Some ARRAY))
  | record_ok m : m <> [] -> StronglySorted before m -> (forall k v, (k, v) ∈ m -> name_ok k) ->
      (forall k v, (k, v) ∈ m -> value_ok v) -> value_ok (Value [] [] m (Some RECORD)).

Definition contents_ok (c : contents) : Prop :=
  StronglySorted before c /\ forall k v, (k, v) ∈ c -> name_ok k /\ value_ok v.

(** The depth of a value. *)
Fixpoint depth (v : value) : nat :=
  let 'Value _ a m _ := v in
  S (max ((fix elements (a : list value) : nat := match a with [] => O | e :: a => max (depth e) (elements a) end) a)
         ((fix fields (m : list (list Z * value)) : nat :=
             match m with [] => O | (_, e) :: m => max (depth e) (fields m) end) m)).

(** * Leaves *)

Abbreviation leaf := (list Z * list Z)%type.

Definition under (prefix : list Z) (ls : list leaf) : list leaf := map (fun '(k, r) => (prefix ++ k, r)) ls.

Definition index_key (i : nat) : list Z := str "[" ++ decimal (Z.of_nat i) ++ str "]".

Fixpoint leaves (v : value) : list leaf :=
  let 'Value r a m t := v in
  match t with
  | Some RAW_VALUE => [([], r)]
  | Some ARRAY =>
      (fix elements (i : nat) (a : list value) : list leaf :=
         match a with [] => [] | e :: a => under (index_key i) (leaves e) ++ elements (S i) a end) O a
  | Some RECORD =>
      (fix fields (m : list (list Z * value)) : list leaf :=
         match m with [] => [] | (k, e) :: m => under (str "." ++ k) (leaves e) ++ fields m end) m
  | _ => []
  end.

Fixpoint element_leaves (i : nat) (a : list value) : list leaf :=
  match a with [] => [] | e :: a => under (index_key i) (leaves e) ++ element_leaves (S i) a end.

Fixpoint field_leaves (m : list (list Z * value)) : list leaf :=
  match m with [] => [] | (k, e) :: m => under (str "." ++ k) (leaves e) ++ field_leaves m end.

Fixpoint root_leaves (c : contents) : list leaf :=
  match c with [] => [] | (k, v) :: c => under k (leaves v) ++ root_leaves c end.

Lemma leaves_array a r m : leaves (Value r a m (Some ARRAY)) = element_leaves 0 a.
Proof. simpl. generalize 0%nat. induction a as [|e a IH]; intros i; [done|]. simpl. by rewrite IH. Qed.

Lemma leaves_record m r a : leaves (Value r a m (Some RECORD)) = field_leaves m.
Proof. simpl. induction m as [|[k e] m IH]; [done|]. simpl. by rewrite IH. Qed.

Lemma under_nil ls : under [] ls = ls.
Proof. induction ls as [|[k r] ls IH]; [done|]. simpl. by rewrite IH. Qed.

Lemma under_under p q ls : under p (under q ls) = under (p ++ q) ls.
Proof. induction ls as [|[k r] ls IH]; [done|]. simpl. by rewrite IH, app_assoc. Qed.

Lemma under_app p ls ls' : under p (ls ++ ls') = under p ls ++ under p ls'.
Proof. apply map_app. Qed.

Lemma under_some p ls : ls <> [] -> under p ls <> [].
Proof. by destruct ls as [|[k r] ls]. Qed.

(** ** Depth *)

Lemma depth_element e a r m t : e ∈ a -> (depth e < depth (Value r a m t))%nat.
Proof.
  intros He. simpl. apply Nat.lt_succ_r. etransitivity; [|apply Nat.le_max_l].
  induction He as [e a|e e' a _ IH]; [apply Nat.le_max_l|]. etransitivity; [exact IH|apply Nat.le_max_r].
Qed.

Lemma depth_field k e m r a t : (k, e) ∈ m -> (depth e < depth (Value r a m t))%nat.
Proof.
  intros He. simpl. apply Nat.lt_succ_r. etransitivity; [|apply Nat.le_max_r].
  induction m as [|[k' e'] m IH]; [by apply not_elem_of_nil in He|].
  apply elem_of_cons in He as [[= -> ->]|He]; [apply Nat.le_max_l|].
  etransitivity; [by apply IH|apply Nat.le_max_r].
Qed.

(** * Printing *)

Definition entry (x : leaf) : list Z := x.1 ++ str "=" ++ x.2 ++ [10].
Definition text (ls : list leaf) : list Z := concat (map entry ls).

Lemma text_app ls ls' : text (ls ++ ls') = text ls ++ text ls'.
Proof. unfold text. by rewrite map_app, concat_app. Qed.

Section printing.
Context `{LexicalLaws}.

Lemma print_index i : Z.of_nat i < 2 ^ 31 -> array_start_ ++ cast_int (s32 (Z.of_nat i)) ++ array_end_ = index_key i.
Proof. intros Hi. rewrite s32_small by lia. by rewrite cast_int_decimal by lia. Qed.

Lemma dump_value_leaves v : value_ok v -> forall fuel key,
  (depth v <= fuel)%nat -> dump_value fuel key v = Ok (text (under key (leaves v))).
Proof.
  induction 1 as [r Hr|a Hne Hlen _ IH|m Hne Hs Hn _ IH]; intros fuel key Hf;
    (destruct fuel as [|fuel]; [simpl in Hf; lia|]).
  - simpl. unfold text, entry. simpl. by rewrite !app_nil_r.
  - assert (forall e, e ∈ a -> (depth e <= fuel)%nat) as Hd.
    { intros e He. apply (depth_element _ _ [] [] (Some ARRAY)) in He. lia. }
    rewrite leaves_array. cbn [dump_value of_option]. rewrite bind_ok. clear Hne Hf. change 0 with (Z.of_nat 0).
    assert (Z.of_nat 0 + Z.of_nat (length a) < 2 ^ 31) as Hi by lia. revert Hi. clear Hlen. generalize 0%nat.
    induction a as [|e a IHa]; intros i Hi; [done|]. cbn [length] in Hi.
    rewrite print_index by lia.
    rewrite (IH e) by (try apply Hd; apply list_elem_of_here). rewrite bind_ok.
    replace (Z.of_nat i + 1) with (Z.of_nat (S i)) by lia.
    rewrite IHa; [|intros; apply IH; [by apply list_elem_of_further|done]
      |intros; apply Hd; by apply list_elem_of_further|lia].
    rewrite bind_ok. cbn [element_leaves]. by rewrite under_app, text_app, under_under.
  - assert (forall k e, (k, e) ∈ m -> (depth e <= fuel)%nat) as Hd.
    { intros k e He. apply (depth_field _ _ _ [] [] (Some RECORD)) in He. lia. }
    rewrite leaves_record. cbn [dump_value of_option]. rewrite bind_ok. clear Hne Hs Hf Hn.
    induction m as [|[k e] m IHm]; [done|].
    rewrite (IH k e) by (try eapply Hd; apply list_elem_of_here). rewrite bind_ok.
    rewrite IHm; [|intros; eapply IH; [by apply list_elem_of_further|done]
      |intros; eapply Hd; by apply list_elem_of_further].
    rewrite bind_ok. cbn [field_leaves]. by rewrite under_app, text_app, under_under.
Qed.

Lemma dump_leaves c fuel :
  (forall k v, (k, v) ∈ c -> value_ok v /\ (depth v <= fuel)%nat) -> dump fuel c = Ok (text (root_leaves c)).
Proof.
  induction c as [|[k v] c IH]; intros Hc; [done|]. cbn [dump root_leaves].
  destruct (Hc k v) as [Hv Hd]; [apply list_elem_of_here|].
  rewrite (dump_value_leaves v Hv fuel k Hd), bind_ok, IH, bind_ok, text_app; [done|].
  intros k' v' Hin. eapply Hc. by apply list_elem_of_further.
Qed.

End printing.

(** * Keys *)

Section keys.
Context `{LexicalLaws}.

Lemma parse_key_more f : forall f' v key s, (length key < f)%nat -> (length key < f')%nat ->
  parse_key f v key s = parse_key f' v key s.
Proof.
  induction f as [|f IH]; intros [|f'] [raw a m t] key s Hf Hf'; try lia. cbn [parse_key].
  destruct (parse_keytype key) eqn:Et; try done.
  - pose proof (parse_array_left key) as [_ Hl]. apply keytype_key in Et; [|done].
    destruct (parse_array key) as [[b [i|]] key']; [|done]. cbn [of_option]. rewrite !bind_ok.
    specialize (Hl Et ltac:(done)). simpl in Hl. destruct (_ !! Z.to_nat i) as [e|]; [|done].
    cbn [of_option]. rewrite !bind_ok. by rewrite (IH f') by lia.
  - apply keytype_key in Et; [|done]. unfold parse_record_name.
    pose proof (parse_key_name_left (drop 1 key)) as Hl. rewrite length_drop in Hl.
    destruct (parse_key_name (drop 1 key)) as [n key']. simpl in Hl.
    assert (length key' < f /\ length key' < f')%nat as [? ?] by (destruct key; [done|simpl in *; lia]).
    destruct (map_find n m); by rewrite (IH f').
Qed.

(** What is left of a key after a name: nothing, an index or a field. *)
Definition suffix_ok (s : list Z) : Prop :=
  match head s with Some c => c = 91 \/ c = 46 | None => True end.

Lemma parse_key_name_app n s : Forall name_char n -> suffix_ok s -> parse_key_name (n ++ s) = (n, s).
Proof.
  intros Hn Hs. unfold parse_key_name. change (array_start_ ++ subkey_delimiter_) with [91; 46]. rewrite find_if_app.
  - destruct s as [|c s].
    + rewrite app_nil_r. simpl. by rewrite drop_all.
    + cbn [substr_to]. rewrite take_app_length. simpl. by rewrite drop_app_length.
  - eapply Forall_impl; [exact Hn|]. intros c (H1' & H2' & _). apply bool_decide_eq_false_2.
    rewrite !not_elem_of_cons. repeat split; try done. apply not_elem_of_nil.
  - unfold suffix_ok in Hs. destruct (head s) as [c|]; [|done]. apply bool_decide_eq_true_2.
    destruct Hs as [->| ->]; [apply list_elem_of_here|apply list_elem_of_further, list_elem_of_here].
Qed.

(** Folding the parse over leaves. *)
Fixpoint parse_all (v : value) (ls : list leaf) : res value :=
  match ls with
  | [] => Ok v
  | (k, r) :: ls => v ← parse_key (S (length k)) v k r; parse_all v ls
  end.

Fixpoint assign_all (c : contents) (ls : list leaf) : res contents :=
  match ls with
  | [] => Ok c
  | (k, r) :: ls => c ← assign k r c; assign_all c ls
  end.

Lemma parse_all_app ls : forall v ls', parse_all v (ls ++ ls') = v ← parse_all v ls; parse_all v ls'.
Proof.
  induction ls as [|[k r] ls IH]; intros v ls'; [done|]. cbn [parse_all app].
  destruct (parse_key _ _ _ _); cbn; [by rewrite IH|done..].
Qed.

Lemma assign_all_app ls : forall c ls', assign_all c (ls ++ ls') = c ← assign_all c ls; assign_all c ls'.
Proof.
  induction ls as [|[k r] ls IH]; intros v ls'; [done|]. cbn [assign_all app].
  destruct (assign _ _ _); cbn; [by rewrite IH|done..].
Qed.

(** ** A key below an index *)

Lemma decimal_no_bracket i : 0 <= i < 2 ^ 31 -> 93 ∉ decimal i.
Proof.
  intros Hi Hin. destruct (decimal_spec i 20) as [Hd _]; [simpl; lia|lia|].
  rewrite Forall_forall in Hd. specialize (Hd _ Hin). simpl in Hd. lia.
Qed.

Lemma parse_index i s : Z.of_nat i < 2 ^ 31 ->
  parse_array (index_key i ++ s) = (true, Some (Z.of_nat i), s).
Proof.
  intros Hi. unfold parse_array, index_key. rewrite <- !app_assoc.
  change (str "]") with [93]. change (str "[") with [91]. change array_end_ with [93].
  change (negb (c_at ([91] ++ decimal (Z.of_nat i) ++ [93] ++ s) 0 =? c_at array_start_ 0)) with false.
  cbn [app drop]. rewrite drop_0. rewrite find_char by (apply decimal_no_bracket; lia).
  rewrite take_app_length, cast_size_decimal by lia.
  rewrite drop_app_ge by lia. by replace (length (decimal (Z.of_nat i)) + 1 - length (decimal (Z.of_nat i)))%nat with 1%nat by lia.
Qed.

(** The vector an element is parsed in. *)
Definition roomy (i : nat) (a : list value) : list value :=
  if (i <? length a)%nat then a else a ++ [new_value].

Lemma parse_key_index i s r raw a m t e f :
  Z.of_nat i < 2 ^ 31 -> (i <= length a)%nat -> roomy i a !! i = Some e -> (length (index_key i ++ s) < f)%nat ->
  parse_key f (Value raw a m t) (index_key i ++ s) r =
  e' ← parse_key (S (length s)) e s r; Ok (Value raw (<[i := e']> (roomy i a)) m (Some ARRAY)).
Proof.
  intros Hi Hle He Hf. destruct f as [|f]; [lia|]. cbn [parse_key].
  replace (parse_keytype (index_key i ++ s)) with ARRAY by done. rewrite parse_index by done.
  cbn [of_option]. rewrite bind_ok, Nat2Z.id.
  assert ((if Z.of_nat (length a) <=? Z.of_nat i then grow (u64 (Z.of_nat i + 1)) a else a) = roomy i a) as ->.
  { unfold roomy. destruct (Nat.ltb_spec i (length a)) as [Hlt|Hge];
      destruct (Z.leb_spec (Z.of_nat (length a)) (Z.of_nat i)); try lia; [done|].
    unfold grow. rewrite u64_small by lia. replace (_ <=? _) with false by lia.
    replace (Z.to_nat (Z.of_nat i + 1) - length a)%nat with 1%nat by lia. done. }
  rewrite He. cbn [of_option]. rewrite bind_ok. rewrite length_app in Hf. simpl in Hf.
  by rewrite (parse_key_more f (S (length s))) by lia.
Qed.

Lemma parse_all_index i ls : Z.of_nat i < 2 ^ 31 -> ls <> [] -> forall raw a m t e,
  (i <= length a)%nat -> roomy i a !! i = Some e ->
  parse_all (Value raw a m t) (under (index_key i) ls) =
  e' ← parse_all e ls; Ok (Value raw (<[i := e']> (roomy i a)) m (Some ARRAY)).
Proof.
  intros Hi. induction ls as [|[k r] ls IH]; [done|]. intros _ raw a m t e Hle He.
  cbn [under map parse_all]. rewrite (parse_key_index i k r raw a m t e) by (done || lia).
  destruct (parse_key (S (length k)) e k r) as [e1| | |]; try done. rewrite !bind_ok.
  assert (i < length (roomy i a))%nat as Hlt by (by eapply lookup_lt_Some).
  assert (roomy i (<[i := e1]> (roomy i a)) = <[i := e1]> (roomy i a)) as Er.
  { unfold roomy at 1. rewrite length_insert. by replace (i <? length (roomy i a))%nat with true by (symmetry; by apply Nat.ltb_lt). }
  destruct ls as [|x ls]; [done|].
  change (map _ (x :: ls)) with (under (index_key i) (x :: ls)).
  rewrite (IH ltac:(done) raw (<[i := e1]> (roomy i a)) m (Some ARRAY) e1).
  - destruct (parse_all e1 (x :: ls)); try done. rewrite !bind_ok, Er. by rewrite list_insert_insert_eq.
  - rewrite length_insert. lia.
  - rewrite Er. by apply list_lookup_insert_eq.
Qed.

(** ** A key below a name *)

Lemma map_find_set {V} k (v : V) m : map_find k (map_set k v m) = Some v.
Proof.
  induction m as [|[k' v'] m IH]; simpl; [by rewrite bool_decide_eq_true_2|].
  destruct (bool_decide (k = k')) eqn:Ek; simpl; [by rewrite bool_decide_eq_true_2|].
  destruct (str_ltb k k'); simpl; [by rewrite bool_decide_eq_true_2|]. by rewrite Ek.
Qed.

Lemma map_set_set {V} k (v v' : V) m : map_set k v' (map_set k v m) = map_set k v' m.
Proof.
  induction m as [|[k' w] m IH]; simpl; [by rewrite bool_decide_eq_true_2|].
  destruct (bool_decide (k = k')) eqn:Ek; simpl; [by rewrite bool_decide_eq_true_2|].
  destruct (str_ltb k k') eqn:El; simpl; [by rewrite bool_decide_eq_true_2|]. by rewrite Ek, El, IH.
Qed.

Lemma parse_key_field n s r raw a m t f :
  Forall name_char n -> suffix_ok s -> (length ((str "." ++ n) ++ s) < f)%nat ->
  parse_key f (Value raw a m t) ((str "." ++ n) ++ s) r =
  e ← parse_key (S (length s)) (default new_value (map_find n m)) s r;
  Ok (Value raw a (map_set n e m) (Some RECORD)).
Proof.
  intros Hn Hs Hf. destruct f as [|f]; [lia|]. cbn [parse_key].
  replace (parse_keytype ((str "." ++ n) ++ s)) with RECORD by done. unfold parse_record_name.
  change (drop 1 ((str "." ++ n) ++ s)) with (drop 0 (n ++ s)). rewrite drop_0.
  rewrite parse_key_name_app by done. rewrite !length_app in Hf. simpl in Hf.
  destruct (map_find n m); by rewrite (parse_key_more f (S (length s))) by lia.
Qed.

Definition suffixes (ls : list leaf) : Prop := Forall (fun x : leaf => suffix_ok x.1) ls.

Lemma parse_all_field n ls : Forall name_char n -> suffixes ls -> ls <> [] -> forall raw a m t,
  parse_all (Value raw a m t) (under (str "." ++ n) ls) =
  e ← parse_all (default new_value (map_find n m)) ls; Ok (Value raw a (map_set n e m) (Some RECORD)).
Proof.
  intros Hn Hs. induction Hs as [|[k r] ls Hk Hs IH]; [done|]. intros _ raw a m t.
  cbn [under map parse_all]. rewrite (parse_key_field n k r) by (done || lia).
  destruct (parse_key (S (length k)) _ k r) as [e1| | |]; try done. rewrite !bind_ok.
  destruct ls as [|x ls]; [done|]. change (map _ (x :: ls)) with (under (str "." ++ n) (x :: ls)).
  rewrite IH by done. rewrite map_find_set. change (default new_value (Some e1)) with e1.
  destruct (parse_all e1 (x :: ls)); try done. rewrite !bind_ok. by rewrite map_set_set.
Qed.

Lemma assign_all_root n ls : Forall name_char n -> suffixes ls -> ls <> [] -> forall c,
  assign_all c (under n ls) =
  v ← parse_all (default new_value (map_find n c)) ls; Ok (map_set n v c).
Proof.
  intros Hn Hs. induction Hs as [|[k r] ls Hk Hs IH]; [done|]. intros _ c.
  cbn [under map assign_all parse_all]. unfold assign. rewrite parse_key_name_app by done.
  destruct (parse_key (S (length k)) _ k r) as [e1| | |]; try done. rewrite !bind_ok.
  destruct ls as [|x ls]; [done|]. change (map _ (x :: ls)) with (under n (x :: ls)).
  rewrite IH by done. rewrite map_find_set. change (default new_value (Some e1)) with e1.
  destruct (parse_all e1 (x :: ls)); try done. rewrite !bind_ok. by rewrite map_set_set.
Qed.

(** ** A map in the order of its keys *)

Lemma str_ltb_irrefl k : str_ltb k k = false.
Proof. induction k as [|c k IH]; [done|]. simpl. by rewrite IH, Z.ltb_irrefl, andb_false_r. Qed.

Lemma str_ltb_asym k k' : str_ltb k k' = true -> str_ltb k' k = false.
Proof.
  revert k'. induction k as [|c k IH]; intros [|d k'] Hk; try done. simpl in *.
  apply orb_true_iff in Hk as [Hlt|[Heq Hk]%andb_true_iff].
  - apply orb_false_iff. split; [lia|]. by replace (d =? c) with false by lia.
  - rewrite (IH _ Hk), andb_false_r, orb_false_r. lia.
Qed.

Lemma map_set_last {V} k (v : V) m :
  Forall (fun x => str_ltb x.1 k = true) m -> map_find k m = None /\ map_set k v m = m ++ [(k, v)].
Proof.
  induction 1 as [|[k' v'] m Hk _ [IH1 IH2]]; [done|]. simpl in *.
  rewrite bool_decide_eq_false_2 by (intros ->; by rewrite str_ltb_irrefl in Hk).
  rewrite (str_ltb_asym _ _ Hk), IH2. done.
Qed.

Lemma sorted_before (done rest : contents) x :
  StronglySorted before (done ++ x :: rest) -> Forall (fun y => str_ltb y.1 x.1 = true) done.
Proof.
  induction done as [|y done IH]; intros Hs; [constructor|]. inversion Hs as [|? ? Hs' Hf]; subst.
  constructor; [|by apply IH]. rewrite Forall_forall in Hf. apply Hf. rewrite elem_of_app. right. apply list_elem_of_here.
Qed.

(** * What the leaves give *)

Lemma element_leaves_suffixes a : forall i, suffixes (element_leaves i a).
Proof.
  induction a as [|e a IH]; intros i; [constructor|]. apply Forall_app. split; [|apply IH].
  apply Forall_map, Forall_true. intros [k r]. simpl. by left.
Qed.

Lemma field_leaves_suffixes m : suffixes (field_leaves m).
Proof.
  induction m as [|[n e] m IH]; [constructor|]. apply Forall_app. split; [|apply IH].
  apply Forall_map, Forall_true. intros [k r]. simpl. by right.
Qed.

Lemma leaves_suffixes v : suffixes (leaves v).
Proof.
  destruct v as [r a m [[]|]]; try (by constructor).
  - rewrite leaves_array. apply element_leaves_suffixes.
  - rewrite leaves_record. apply field_leaves_suffixes.
Qed.

Lemma elements_parse a : forall done t,
  (forall v, v ∈ a -> parse_all new_value (leaves v) = Ok v /\ leaves v <> []) ->
  Z.of_nat (length done + length a) < 2 ^ 31 ->
  parse_all (Value [] done [] t) (element_leaves (length done) a) =
  Ok (Value [] (done ++ a) [] (match a with [] => t | _ => Some ARRAY end)).
Proof.
  induction a as [|v a IH]; intros done t Ha Hl; cbn [element_leaves]; [by rewrite app_nil_r|].
  destruct (Ha v) as [Hv Hne]; [apply list_elem_of_here|]. cbn [length] in Hl.
  assert (roomy (length done) done = done ++ [new_value]) as Er by (unfold roomy; by rewrite Nat.ltb_irrefl).
  rewrite parse_all_app. rewrite (parse_all_index (length done) (leaves v) ltac:(lia) Hne [] done [] t new_value).
  - rewrite Hv, !bind_ok, Er, insert_app_r_alt, Nat.sub_diag by lia. cbn [insert list_insert].
    replace (S (length done)) with (length (done ++ [v])) by (rewrite length_app; simpl; lia).
    rewrite IH.
    + rewrite <- app_assoc. by destruct a.
    + intros w Hw. apply Ha. by apply list_elem_of_further.
    + rewrite length_app. simpl. lia.
  - lia.
  - rewrite Er. by rewrite list_lookup_middle.
Qed.

Lemma fields_parse m : forall done t,
  StronglySorted before (done ++ m) ->
  (forall k v, (k, v) ∈ m -> name_ok k /\ parse_all new_value (leaves v) = Ok v /\ leaves v <> []) ->
  parse_all (Value [] [] done t) (field_leaves m) =
  Ok (Value [] [] (done ++ m) (match m with [] => t | _ => Some RECORD end)).
Proof.
  induction m as [|[k v] m IH]; intros done t Hs Hm; cbn [field_leaves]; [by rewrite app_nil_r|].
  destruct (Hm k v) as (Hk & Hv & Hne); [apply list_elem_of_here|].
  destruct (map_set_last k v done (sorted_before _ _ _ Hs)) as [Hf Hset].
  rewrite parse_all_app, (parse_all_field k (leaves v) (proj1 Hk) (leaves_suffixes v) Hne).
  rewrite Hf. cbn [default]. rewrite Hv, !bind_ok, Hset, IH.
  - rewrite <- app_assoc. by destruct m.
  - by rewrite <- app_assoc.
  - intros k' v' Hin. apply Hm. by apply list_elem_of_further.
Qed.

Lemma leaves_parse v : value_ok v -> parse_all new_value (leaves v) = Ok v /\ leaves v <> [].
Proof.
  induction 1 as [r Hr|a Hne Hlen _ IH|m Hne Hs Hn _ IH].
  - done.
  - rewrite leaves_array. change (element_leaves 0 a) with (element_leaves (length (@nil value)) a).
    unfold new_value. rewrite elements_parse by done. destruct a as [|e a]; [done|]. split; [done|]. cbn [element_leaves].
    intros [E _]%app_nil. by apply (under_some _ _ (proj2 (IH e (list_elem_of_here _ _)))) in E.
  - rewrite leaves_record. unfold new_value. rewrite fields_parse; [|done|intros k v Hin; split; [by eapply Hn|by eapply IH]].
    destruct m as [|[k e] m]; [done|]. split; [done|]. cbn [field_leaves].
    intros [E _]%app_nil. by apply (under_some _ _ (proj2 (IH k e (list_elem_of_here _ _)))) in E.
Qed.

Lemma roots_assign c : forall done,
  StronglySorted before (done ++ c) -> (forall k v, (k, v) ∈ c -> name_ok k /\ value_ok v) ->
  assign_all done (root_leaves c) = Ok (done ++ c).
Proof.
  induction c as [|[k v] c IH]; intros done Hs Hc; cbn [root_leaves]; [by rewrite app_nil_r|].
  destruct (Hc k v) as [Hk Hv]; [apply list_elem_of_here|]. destruct (leaves_parse v Hv) as [Hp Hne].
  destruct (map_set_last k v done (sorted_before _ _ _ Hs)) as [Hf Hset].
  rewrite assign_all_app, (assign_all_root k (leaves v) (proj1 Hk) (leaves_suffixes v) Hne).
  rewrite Hf. cbn [default]. rewrite Hp, !bind_ok, Hset, IH.
  - by rewrite <- app_assoc.
  - by rewrite <- app_assoc.
  - intros k' v' Hin. apply Hc. by apply list_elem_of_further.
Qed.

End keys.

(** * Lines *)

Lemma not_blank c s : c ∈ s -> one_of whitespace c = false -> is_blank s = false.
Proof.
  intros Hin Hc. apply bool_decide_eq_false_2. intros Ht%trim_blank. rewrite Forall_forall in Ht.
  by rewrite (Ht _ Hin) in Hc.
Qed.

Lemma cut_line_app l rest : 10 ∉ l -> cut_line (l ++ 10 :: rest) = (l, Some rest).
Proof.
  induction l as [|c l IH]; intros Hn; [done|]. rewrite not_elem_of_cons in Hn. cbn [cut_line app].
  replace (c =? 10) with false by lia. by rewrite IH by apply Hn.
Qed.

Lemma getline_line l rest s : 10 ∉ l -> getline (Stream (l ++ 10 :: rest) false false) s = (Stream rest false false, l).
Proof. intros Hn. unfold getline. cbn [good negb andb chars eofbit failbit]. by rewrite cut_line_app. Qed.

(** Lines, each with its end. *)
Definition ended (ls : list (list Z)) : list Z := concat (map (fun l => l ++ [10]) ls).

Lemma over_lines_ended ls : concat (map (cons 10) ls) ++ [10] = 10 :: ended ls.
Proof.
  unfold ended. induction ls as [|l ls IH]; [done|]. cbn [map concat app]. rewrite <- !app_assoc. f_equal. f_equal.
  exact IH.
Qed.

Definition key_char (c : Z) : Prop := c <> 61 /\ c <> 35 /\ c <> 10.

(** A leaf that is a line, or several. *)
Definition leaf_ok (x : leaf) : Prop := Forall key_char x.1 /\ edges_ok x.1 /\ raw_ok x.2.

(** The first line of an entry. *)
Definition first_line (k first : list Z) : list Z := k ++ 61 :: first.

Lemma entry_lines k first ls es :
  text ((k, over_lines first ls) :: es) = first_line k first ++ 10 :: (ended ls ++ text es).
Proof.
  unfold text at 1, entry, over_lines, first_line. cbn [map concat fst snd].
  change (concat (map _ es)) with (text es). change (str "=") with [61].
  rewrite <- !app_assoc. f_equal. cbn [app]. f_equal. f_equal.
  change (10 :: text es) with ([10] ++ text es). by rewrite app_assoc, over_lines_ended.
Qed.

Lemma first_line_ok k first :
  Forall key_char k -> Forall text_char first ->
  (10 ∉ first_line k first) /\ (35 ∉ first_line k first) /\ (61 ∉ k) /\ is_blank (first_line k first) = false.
Proof.
  intros Hk Hf. rewrite Forall_forall in Hk, Hf.
  assert (forall c, c ∈ first_line k first -> c = 61 \/ key_char c \/ text_char c) as Hc.
  { intros c. unfold first_line. rewrite elem_of_app, elem_of_cons. intros [Hin|[->|Hin]]; auto. }
  split; [intros [E|[(_ & _ & E)|[_ E]]]%Hc; done|]. split; [intros [E|[(_ & E & _)|[E _]]]%Hc; done|].
  split; [intros (E & _)%Hk; done|]. apply (not_blank 61); [|done]. unfold first_line. set_solver.
Qed.

Lemma first_line_long k first : (0 <? Z.of_nat (length (first_line k first))) = true.
Proof. apply Z.ltb_lt. unfold first_line. rewrite length_app. cbn [length]. lia. Qed.

Section lines.
Context `{LexicalLaws}.

(** The stream at the start of entries, after a line was read ahead. *)
Definition ahead (es : list leaf) : istream * list Z := getline (Stream (text es) false false) [].

Lemma ahead_entry k first ls es : Forall key_char k -> Forall text_char first ->
  ahead ((k, over_lines first ls) :: es) = (Stream (ended ls ++ text es) false false, first_line k first).
Proof. intros Hk Hf. unfold ahead. rewrite entry_lines. apply getline_line. by apply first_line_ok. Qed.

Lemma continue_value_lines ls : forall fuel es nextline line,
  Forall continues ls -> Forall leaf_ok es -> (length ls < fuel)%nat ->
  continue_value fuel (Stream (ended ls ++ text es) false false) nextline line =
  Ok (ahead es, line ++ concat (map (cons 10) ls)).
Proof.
  induction ls as [|l ls IH]; intros fuel es nextline line Hls Hes Hf; (destruct fuel as [|fuel]; [simpl in Hf; lia|]);
    cbn [continue_value is_ok negb failbit].
  - change (getline (Stream (ended [] ++ text es) false false) nextline) with (ahead es).
    cbn [map concat]. rewrite app_nil_r. destruct Hes as [|[k r] es (Hk & _ & Hr) _]; [done|].
    destruct Hr as (_ & first & rls & Er & Hfirst & _). cbn [fst snd] in *. rewrite Er, ahead_entry by done.
    destruct (first_line_ok k first Hk Hfirst) as (_ & H35 & H61 & ->).
    change comment_ with [35]. rewrite (find_char_none 35) by done. cbn [substr_to].
    change value_delimiter_ with [61]. unfold first_line at 1. by rewrite find_char.
  - inversion Hls as [|? ? (Hl & H61 & Hb) Hls']; subst. rewrite Forall_forall in Hl.
    change (ended (l :: ls)) with ((l ++ [10]) ++ ended ls). rewrite <- !app_assoc. cbn [app].
    rewrite getline_line by (intros [_ E]%Hl; done). rewrite Hb.
    change comment_ with [35]. rewrite (find_char_none 35) by (intros [E _]%Hl; done). cbn [substr_to].
    change value_delimiter_ with [61]. rewrite find_char_none by done. rewrite Hb.
    rewrite IH by (done || simpl in *; lia). cbn [map concat]. rewrite <- !app_assoc. done.
Qed.

Lemma read_entries es : forall fuel c,
  Forall leaf_ok es -> (length (text es) < fuel)%nat ->
  read_loop fuel (ahead es).1 (ahead es).2 c = c' ← assign_all c es; Ok (Stream [] true true, c').
Proof.
  induction es as [|[k r] es IH]; intros fuel c Hes Hf; (destruct fuel as [|fuel]; [lia|]); [done|].
  inversion Hes as [|? ? (Hk & He & Hr0) Hes']; subst. cbn [fst snd] in *.
  pose proof Hr0 as (Hr & first & ls & -> & Hfirst & Hls). rewrite ahead_entry by done.
  destruct (first_line_ok k first Hk Hfirst) as (_ & H35 & H61 & _).
  cbn [read_loop fst snd]. rewrite first_line_long.
  rewrite orb_true_r. change comment_ with [35]. rewrite (find_char_none 35) by done. cbn [substr_to].
  change value_delimiter_ with [61]. unfold first_line at 1. rewrite find_char by done.
  assert (length ls <= length (ended ls))%nat as Hlen.
  { clear. unfold ended. induction ls as [|l ls IH]; [done|]. cbn [map concat length]. rewrite !length_app. simpl. lia. }
  assert (length (ended ls ++ text es) < fuel)%nat as Hf'.
  { rewrite entry_lines, length_app in Hf. cbn [length] in Hf. rewrite length_app in *. lia. }
  rewrite length_app in Hf'. unfold first_line. rewrite take_app_length, drop_app_ge by (simpl; lia).
  replace (drop (length k + length [61] - length k) (61 :: first)) with first
    by (rewrite Nat.add_comm, Nat.add_sub; reflexivity).
  rewrite continue_value_lines by (done || lia). rewrite bind_ok.
  change (first ++ concat (map (cons 10) ls)) with (over_lines first ls).
  destruct (ahead es) as [ist next] eqn:Ea. rewrite !trim_id by done. cbn [assign_all].
  destruct (assign k _ c) as [c'| | |]; try done. rewrite !bind_ok.
  specialize (IH fuel c' Hes' ltac:(lia)). exact IH.
Qed.

Lemma parse_file_text es : Forall leaf_ok es ->
  parse_file (Some (text es)) [] = c ← assign_all [] es; Ok (true, c).
Proof.
  intros Hes. unfold parse_file, read.
  assert (read_loop (enough (text es)) (Stream (text es) false false) [] [] =
    c' ← assign_all [] es; Ok (Stream [] true true, c')) as ->.
  { destruct es as [|[k r] es]; [done|]. rewrite <- (read_entries _ (enough (text ((k, r) :: es)))) by (done || unfold enough; lia).
    pose proof Hes as Hes0. inversion Hes0 as [|? ? (Hk & He & Hr0) Hes']; subst. cbn [fst snd] in *.
    destruct Hr0 as (Hr & first & ls & -> & Hfirst & Hls). set (t := text _). unfold enough at 1 2.
    replace (2 * length t + 6)%nat with (S (2 * length t + 5)) by lia. cbn [read_loop is_ok negb failbit orb].
    change (getline (Stream t false false) []) with (ahead ((k, over_lines first ls) :: es)).
    rewrite ahead_entry by done. cbn [fst snd]. by rewrite first_line_long. }
  by destruct (assign_all [] es).
Qed.

(** ** The leaves are lines *)

(** A key without its root: nothing blank at its end. *)
Definition tail_ok (x : leaf) : Prop :=
  Forall key_char x.1 /\ (forall c, last x.1 = Some c -> one_of whitespace c = false) /\ raw_ok x.2.

Lemma name_key n : name_ok n -> Forall key_char n /\ (forall c, last n = Some c -> one_of whitespace c = false).
Proof.
  intros [Hn He]. split; [|intros c Hc; apply He; by right].
  eapply Forall_impl; [exact Hn|]. by intros c (_ & _ & ?).
Qed.

Lemma last_under p s : (forall c, last p = Some c -> one_of whitespace c = false) ->
  (forall c, last s = Some c -> one_of whitespace c = false) ->
  forall c, last (p ++ s) = Some c -> one_of whitespace c = false.
Proof.
  intros Hp Hs c. rewrite last_app. destruct (last s) eqn:E; [intros [= <-]; by apply Hs|apply Hp].
Qed.

Lemma tails_under p ls :
  Forall key_char p -> (forall c, last p = Some c -> one_of whitespace c = false) -> Forall tail_ok ls ->
  Forall tail_ok (under p ls).
Proof.
  intros Hp Hl Hls. apply Forall_map. eapply Forall_impl; [exact Hls|]. intros [k r] (Hk & He & Hr).
  split; [by apply Forall_app|]. split; [by apply last_under|done].
Qed.

Lemma index_key_ok i : Z.of_nat i < 2 ^ 31 ->
  Forall key_char (index_key i) /\ (forall c, last (index_key i) = Some c -> one_of whitespace c = false).
Proof.
  intros Hi. unfold index_key. split.
  - rewrite !Forall_app. destruct (decimal_spec (Z.of_nat i) 20) as [Hd _]; [simpl; lia|lia|].
    split; [|split; [|]]; [by repeat constructor| |by repeat constructor].
    eapply Forall_impl; [exact Hd|]. unfold key_char. simpl. lia.
  - intros c. rewrite app_assoc. change (str "]") with [93]. rewrite last_snoc. by intros [= <-].
Qed.

Lemma leaves_tails v : value_ok v -> Forall tail_ok (leaves v).
Proof.
  induction 1 as [r Hr|a Hne Hlen _ IH|m Hne Hs Hn _ IH].
  - constructor; [|constructor]. split; [constructor|]. by split.
  - rewrite leaves_array. assert (Z.of_nat 0 + Z.of_nat (length a) < 2 ^ 31) as Hi by lia. revert Hi. clear Hne Hlen.
    generalize 0%nat. induction a as [|e a IHa]; intros i Hi; [constructor|]. cbn [length] in Hi. apply Forall_app. split.
    + destruct (index_key_ok i ltac:(lia)) as [Hk Hl]. apply tails_under; [done..|]. apply IH, list_elem_of_here.
    + apply IHa; [|lia]. intros v Hv. apply IH. by apply list_elem_of_further.
  - rewrite leaves_record. clear Hne Hs. induction m as [|[k e] m IHm]; [constructor|]. apply Forall_app. split.
    + destruct (name_key k) as [Hk Hl]; [eapply Hn, list_elem_of_here|]. apply tails_under.
      * constructor; [done|exact Hk].
      * apply (last_under (str ".")); [by intros c [= <-]|exact Hl].
      * eapply IH, list_elem_of_here.
    + apply IHm; intros; [eapply Hn|eapply IH]; by apply list_elem_of_further.
Qed.

Lemma roots_ok c : (forall k v, (k, v) ∈ c -> name_ok k /\ value_ok v) -> Forall leaf_ok (root_leaves c).
Proof.
  induction c as [|[k v] c IH]; intros Hc; [constructor|]. apply Forall_app. split.
  - destruct (Hc k v) as [Hk Hv]; [apply list_elem_of_here|]. destruct (name_key k Hk) as [Hkc Hkl].
    apply Forall_map. pose proof (leaves_tails v Hv) as Ht. pose proof (leaves_suffixes v) as Hs. unfold suffixes in Hs.
    rewrite Forall_forall in Ht, Hs. apply Forall_forall. intros [s r] Hin.
    destruct (Ht _ Hin) as (Hk2 & Hl2 & Hr). specialize (Hs _ Hin). cbn [fst snd] in *.
    split; [by apply Forall_app|]. split; [|done]. intros d [Hd|Hd]; [|by apply (last_under k s)].
    destruct k as [|d' k]; [|injection Hd as <-; apply (proj2 Hk); by left].
    cbn [app fst] in Hd. unfold suffix_ok in Hs. rewrite Hd in Hs. by destruct Hs as [->| ->].
  - apply IH. intros k' v' Hin. apply Hc. by apply list_elem_of_further.
Qed.

End lines.

(** * The properties *)

(** What [parse_file] answers: a file that cannot be opened leaves the
    configuration as it is. *)
Definition answers (file : option (list Z)) (c : contents) (x : bool * contents) : Prop :=
  match file with
  | None => x = (false, c)
  | Some _ => x.1 = true
  end.


(** C23: what [dump] prints of a configuration is a file that is read back as
    the same configuration: values over several lines, records and arrays in
    each other to any depth, and names and values with blanks inside. *)
Theorem config_roundtrip `{LexicalLaws} (c : contents) fuel :
  contents_ok c -> (forall k v, (k, v) ∈ c -> (depth v <= fuel)%nat) ->
  exists file, config_file.dump fuel c = Ok file /\ config_file.parse_file (Some file) [] = Ok (true, c).
Proof.
  intros [Hs Hc] Hd. exists (text (root_leaves c)). split.
  - apply dump_leaves. intros k v Hin. split; [by apply (Hc k v)|by eapply Hd].
  - rewrite parse_file_text by by apply roots_ok. by rewrite roots_assign.
Qed.

(** ** At a concrete input *)

(** A value over two lines, and two virtual hosts, with an array inside. *)
Definition sample_raw (s : list Z) : value := Value s [] [] (Some RAW_VALUE).

Definition sample_host (h : list Z) (u : value) : value :=
  Value [] [] [(str "forward", u); (str "host name", sample_raw h)] (Some RECORD).

Definition sample_hosts : list value :=
  [sample_host (str "a.org") (sample_raw (str "http://x=1"));
   sample_host (str "b.org") (Value [] [sample_raw (str "u"); sample_raw (str "v")] [] (Some ARRAY))].

Definition sample_lines : list Z := over_lines (str "first = line") [str "second line"; str " third"].

Definition sample_config : contents :=
  [(str "log", Value sample_lines [] [] (Some RAW_VALUE)); (str "virtual-host", Value [] sample_hosts [] (Some ARRAY))].

Ltac edges := intros c [E|E]; injection E as <-; reflexivity.
Ltac chars := repeat constructor; discriminate.

Lemma sample_raw_ok s : Forall text_char s -> edges_ok s -> value_ok (sample_raw s).
Proof. intros Ht He. constructor. split; [done|]. exists s, []. unfold over_lines. by rewrite app_nil_r. Qed.

Lemma sample_host_ok h u : value_ok (sample_raw h) -> value_ok u -> value_ok (sample_host h u).
Proof.
  intros Hh Hu. apply record_ok; [done|by repeat constructor|..];
    intros k v [[= -> ->]|[[= -> ->]|[]%not_elem_of_nil]%elem_of_cons]%elem_of_cons; try done;
    (split; [chars|edges]).
Qed.

Lemma sample_config_ok : contents_ok sample_config.
Proof.
  split; [by repeat constructor|].
  intros k v [[= -> ->]|[[= -> ->]|[]%not_elem_of_nil]%elem_of_cons]%elem_of_cons;
    (split; [split; [chars|edges]|]).
  - constructor. split; [edges|]. exists (str "first = line"), [str "second line"; str " third"].
    split; [done|]. split; [chars|]. repeat constructor; try discriminate;
    by apply (bool_decide_eq_true (61 ∉ _)).
  - apply array_ok; [done|done|]. intros v [->|[->|[]%not_elem_of_nil]%elem_of_cons]%elem_of_cons;
      apply sample_host_ok; try (apply sample_raw_ok; [chars|edges]).
    apply array_ok; [done|done|]. intros v [->|[->|[]%not_elem_of_nil]%elem_of_cons]%elem_of_cons;
      (apply sample_raw_ok; [chars|edges]).
Qed.

Lemma config_roundtrip_witness :
  exists file, config_file.dump 4 sample_config = Ok file /\ config_file.parse_file (Some file) [] = Ok (true, sample_config) /\
    length file = 193%nat.
Proof.
  destruct (config_roundtrip sample_config 4 sample_config_ok) as (file & Hd & Hp).
  - intros k v [[= -> ->]|[[= -> ->]|[]%not_elem_of_nil]%elem_of_cons]%elem_of_cons; vm_compute; lia.
  - exists file. split; [exact Hd|]. split; [exact Hp|]. vm_compute in Hd. injection Hd as <-. reflexivity.
Defined.

(** * A file without a newline at its end *)

(** The last line of such a file, when it continues a value, is in the value
    twice: [getline] leaves the line as it was when there is nothing more to
    read. *)
Example last_line_twice :
  config_file.parse_file (Some (str "key=a" ++ [10] ++ str "b")) [] =
  Ok (true, [(str "key", Value (str "a" ++ [10] ++ str "b" ++ [10] ++ str "b") [] [] (Some RAW_VALUE))]).
Proof. reflexivity. Qed.
