(* ===== verification/Startup.v ===== *)
(** The start of the program: the host rules are built from the configuration
    (app/host_rules.cpp), and the pools, the handlers and the listening socket
    from what it says (app/sfrp_main.cpp).  What the system calls of the start
    answer is an argument; the parsing of addresses and the name lookup
    are functions of libraries. *)
From stdpp Require Import list gmap.
From S2P Require Import Prelude Status ReadWriteBuffer HttpLex Interfaces HeaderStore HeaderHandler.
From S2P Require Import HeaderParser BodyParsers Os Connection Net Poller HeaderWriter Printf.
From S2P Require Import MemoryManager Pipeline Url ConfigFile StreamHandler ProxyHandler NewConnection.

Import config_file.

(** * The host rules *)
Section rules.
Context {A : Type}.

(** The resolver of a URL's host, and the port of a URL before it is
    parsed. *)
Variable resolver : list Z -> A.
Variable unset_port : Z.

Definition url_from (v : value) : res (url.t A) :=
  s ← read_string v;
  url.make resolver (Some (c_str s)) true unset_port.

(** [config["virtual-host"][i]] *)
Definition virtual_host (config : contents) (i : Z) : res value :=
  hosts ← config_at config (str "virtual-host");
  value_at hosts i.

(** The loop over the rules of a host; [n] of them are left. *)
Fixpoint rule_loop (n : nat) (cur_rule i : Z) (config : contents) (rules : host_rules.t A)
    : res (host_rules.t A) :=
  match n with
  | O => Ok rules
  | S n =>
      vh ← virtual_host config i;
      rule ← value_named vh (str "rule");
      cur_rule_value ← value_at rule cur_rule;
      forward ← value_named cur_rule_value (str "forward-url");
      default_url ← url_from forward;
      path ← value_named cur_rule_value (str "match-path");
      path ← read_string path;
      rule_loop n (cur_rule + 1) i config
        (host_rules.add_rule (host_rules.HostRule (c_str path) default_url) rules)
  end.

(** The body of the outer loop: the rules of one host. *)
Definition rules_of_host (config : contents) (i : Z) : res (list Z * host_rules.t A) :=
  vh ← virtual_host config i;
  v ← value_named vh (str "default-forward-url");
  u ← url_from v;
  v ← value_named vh (str "preserve-host");
  preserve ← read_bool v;
  let rules := host_rules.make u preserve in
  rule ← get_named vh (str "rule");
  rules ← (match rule with
           | Some rule => rule_loop (length (array_ rule)) 0 i config rules
           | None => Ok rules
           end);
  v ← value_named vh (str "host-name");
  name ← read_string v;
  Ok (name, rules).

(** The outer loop; [n] hosts are left. *)
Fixpoint host_rules_loop (n : nat) (i : Z) (config : contents) (m : gmap (list Z) (host_rules.t A))
    : res (gmap (list Z) (host_rules.t A)) :=
  match n with
  | O => Ok m
  | S n =>
      '(name, rules) ← rules_of_host config i;
      host_rules_loop n (i + 1) config (<[name := rules]> m)
  end.

Definition build_host_rules (config : contents) (m : gmap (list Z) (host_rules.t A))
    : res (gmap (list Z) (host_rules.t A)) :=
  hosts ← config_at config (str "virtual-host");
  host_rules_loop (Z.to_nat (get_array_size hosts)) 0 config m.

End rules.

(** * The program *)

(** What the system calls answer: the descriptor of the log file, whether
    [bind], [listen], [setgid] with [setuid], and [daemon] succeed, and the
    user's number, when there is such a user. *)
Record system := System {
  log_fd : list Z -> Z;
  bind_done : bool;
  listen_done : bool;
  passwd_uid : list Z -> option Z;
  setids_done : bool;
  daemon_done : bool
}.

(** Where [new] puts the objects of the pools, and the event structures inside
    a proxy handler. *)
Record layout := Layout {
  request_at : nat -> Z;
  response_at : nat -> Z;
  proxy_at : nat -> Z;
  client_event_at : nat -> Z;
  server_event_at : nat -> Z;
  new_connection_handler_at : Z;
  new_connection_event_at : Z
}.

(** [config[section][name]] *)
Definition setting (config : contents) (section name : list Z) : res value :=
  s ← config_at config section;
  value_named s name.

Definition daemonize (sys : system) (config : contents) : res bool :=
  v ← setting config (str "proxy") (str "run-as-daemon");
  daemonize ← read_bool v;
  Ok (if daemonize : bool then sys.(daemon_done) else true).

Definition switch_user (sys : system) (config : contents) : res bool :=
  v ← setting config (str "proxy") (str "user");
  username ← read_string v;
  match username with
  | [] => Ok false
  | _ =>
      match sys.(passwd_uid) (c_str username) with
      | None => Ok false
      | Some uid => Ok (negb (uid =? 0) && sys.(setids_done))
      end
  end.

Section pools.
Context {A : Type}.

(** Members of a stream handler that its constructor leaves as they are. *)
Record unset := Unset {
  unset_encoding : http.BODY_ENCODING;
  unset_index : Z;
  unset_state : header_writer.WRITE_HEADER_STATE
}.

(** [p_prototype->clone()], which calls the constructor with the arguments of
    the prototype, for every element of the pool. *)
Fixpoint clone_streams (n : nat) (i : nat) (at_ : nat -> Z) (make : header_cache -> res (stream_handler A * header_cache))
    (streams : gmap Z (stream_handler A)) (c : header_cache) : res (gmap Z (stream_handler A) * header_cache) :=
  match n with
  | O => Ok (streams, c)
  | S n =>
      '(h, c) ← make c;
      clone_streams n (S i) at_ make (<[at_ i := h]> streams) c
  end.

(** [new proxy_handler(prototype)], for every element of the pool. *)
Fixpoint copy_proxies (n : nat) (i : nat) (l : layout) (prototype : proxy_handler.t A)
    (proxies : gmap Z (proxy_handler.t A)) (heap : pipeline_data_queue.heap)
    : res (gmap Z (proxy_handler.t A) * pipeline_data_queue.heap) :=
  match n with
  | O => Ok (proxies, heap)
  | S n =>
      '(p, heap) ← proxy_handler.copy (client_event_at l i) (server_event_at l i) prototype heap;
      copy_proxies n (S i) l prototype (<[proxy_at l i := p]> proxies) heap
  end.

(** The constructor of a pool, for objects that are where [at_] tells. *)
Definition pool_at (n : nat) (at_ : nat -> Z) : pessimistic_memory_manager.t Z :=
  pessimistic_memory_manager.make n at_.

End pools.

Section main.
Context {K A : Type} `{net K A}.

Variable resolver : list Z -> A.
Variable from_string : list Z -> option A.
Variable unset_port : Z.
Variable unset_members : unset.

(** The exit code, or the server with its rules and the event of its listening
    socket, before the first event. *)
Inductive outcome :=
  | Exits (code : Z)
  | Serves (s : server K A) (rules : gmap (list Z) (host_rules.t A)) (ev : event.t).

(** [address::from_string] throws an exception that nothing catches. *)
Definition address_from (v : value) : res A :=
  s ← read_string v;
  match from_string s with Some a => Ok a | None => Aborted end.

(** What the memory of the server is made of, from the pool of proxy handlers
    to that of the stream handlers. *)
Definition make_server (l : layout) (k : K) (headers : header_cache) (log : access_log.t) (config : contents)
    : res (server K A * gmap (list Z) (host_rules.t A)) :=
  v ← setting config (str "proxy") (str "default-forward-address");
  address ← value_named v (str "address");
  forward_addr ← address_from address;
  port ← value_named v (str "port");
  forward_port ← read_unsigned_short port;
  max ← setting config (str "proxy") (str "max-connections");
  max_connections ← read_unsigned max;
  buffer ← setting config (str "proxy") (str "input-buffer-size");
  buffer_length ← read_unsigned buffer;
  v ← setting config (str "proxy") (str "client-timeout-milliseconds");
  _ ← read_unsigned v;
  v ← setting config (str "proxy") (str "server-timeout-milliseconds");
  _ ← read_unsigned v;
  let n := Z.to_nat max_connections in
  let '(prototype, heap) := proxy_handler.make (-1) (-1) buffer_length (forward_addr, forward_port) ∅ in
  '(proxies, heap) ← copy_proxies n 0 l prototype ∅ heap;
  let heap := pipeline_data_queue.destroy (proxy_handler.pipeline_data_queue_ prototype) heap in
  rules ← build_host_rules resolver unset_port config ∅;
  v ← setting config (str "http-parser") (str "max-URI-length");
  uri_length ← read_unsigned v;
  v ← setting config (str "http-parser") (str "max-num-headers");
  num_headers ← read_unsigned v;
  v ← setting config (str "http-parser") (str "max-header-name-length");
  _ ← read_unsigned v;
  v ← setting config (str "http-parser") (str "max-header-value-length");
  _ ← read_unsigned v;
  let make_request := http_proxy_stream_handler.make (A := A) REQUEST max_method_length uri_length
        max_version_length num_headers unset_members.(unset_encoding) unset_members.(unset_index)
        unset_members.(unset_state) in
  let make_response := http_proxy_stream_handler.make (A := A) RESPONSE max_version_length uri_length 50
        num_headers unset_members.(unset_encoding) unset_members.(unset_index) unset_members.(unset_state) in
  '(_, headers) ← make_request headers;
  '(_, headers) ← make_response headers;
  '(streams, headers) ← clone_streams n 0 (request_at l) make_request ∅ headers;
  '(streams, headers) ← clone_streams n 0 (response_at l) make_response streams headers;
  Ok (Server K A
        (Env K A k heap headers log [] streams (pool_at n (request_at l)) (pool_at n (response_at l))
           (pool_at n (proxy_at l)))
        proxies, rules).

(** [main], from the configuration to [poller.dispatch()]. *)
Definition main (l : layout) (sys : system) (k : K) (config : contents) : res outcome :=
  v ← setting config (str "http-parser") (str "header-pool-size");
  pool_size ← read_int v;
  v ← setting config (str "http-parser") (str "max-header-name-length");
  name_length ← read_int v;
  v ← setting config (str "http-parser") (str "max-header-value-length");
  value_length ← read_int v;
  let headers := cache.make (u32 pool_size) (u32 name_length) (u32 value_length) in
  v ← setting config (str "access-log") (str "enable");
  enable ← read_bool v;
  log ← (if enable : bool then
           v ← setting config (str "access-log") (str "location");
           location ← read_string v;
           Ok (access_log.open (sys.(log_fd) (c_str location)) access_log.make).2
         else Ok access_log.make);
  v ← setting config (str "proxy") (str "listen-address");
  bind_to ← value_at v 0;
  v ← value_named bind_to (str "address");
  _ ← address_from v;
  v ← value_named bind_to (str "port");
  _ ← read_unsigned_short v;
  let '(k, server_handle) := sys_socket (A := A) k in
  if server_handle =? -1 then Ok (Exits (-1))
  else if negb sys.(bind_done) then Ok (Exits (-1))
  else if negb sys.(listen_done) then Ok (Exits (-1))
  else
    switched ← switch_user sys config;
    if negb switched then Ok (Exits (-1))
    else
      daemonized ← daemonize sys config;
      if negb daemonized then Ok (Exits (-1))
      else
        '(s, rules) ← make_server l k headers log config;
        let '(k, ev) := event.set (A := A) server_handle (new_connection_handler_at l) k
                          (event.make (new_connection_event_at l)) in
        k ← poller.add_event A k ev (Z.lor EV_READ EV_WRITE) 0;
        Ok (Serves (Server K A (with_kernel k s.(server_env)) s.(server_proxies)) rules ev).

End main.
