(* ===== verification/AsioClient.v ===== *)
(** The HTTP client over asio: asio-http/tcp_connector.cpp, which looks up and
    connects to a host, and asio-http/http_client.cpp, which sends requests
    and reads responses.  Both only start operations of asio and are called
    back when one completes: the operations that are under way are a list, and
    a completion brings its result. *)
From stdpp Require Import list.
From S2P Require Import Prelude Status ReadWriteBuffer HttpLex Interfaces HeaderStore HeaderHandler HeaderParser BodyParsers.

(** * The operations of asio, and what the client tells *)

Section asio.
Context {A : Type}.

(** An address and a port. *)
Definition endpoint : Type := A * Z.

(** [async_resolve] of a host, [async_connect], [async_write] of a list of
    buffers, and [async_read_some] into the read buffer of the client. *)
Inductive operation :=
  | Resolve (host : list Z)
  | Connect (e : endpoint)
  | Write (buffers : list (list Z))
  | Read.

(** How an operation ended: with an error or not; what a lookup found; what a
    read stored. *)
Inductive completion :=
  | Resolved (error : bool) (iter : list endpoint)
  | Connected (error : bool)
  | Written (error : bool)
  | Received (error : bool) (bytes : list Z).

(** Which operation ends so. *)
Definition ends (o : operation) (c : completion) : bool :=
  match o, c with
  | Resolve _, Resolved _ _ | Connect _, Connected _ | Write _, Written _ | Read, Received _ _ => true
  | _, _ => false
  end.

(** The first operation of its kind is the one that ends. *)
Fixpoint without (c : completion) (pending : list operation) : option (list operation) :=
  match pending with
  | [] => None
  | o :: pending => if ends o c then Some pending else p ← without c pending; Some (o :: p)
  end.

End asio.
Arguments endpoint A : clear implicits.
Arguments operation A : clear implicits.
Arguments completion A : clear implicits.

(** The calls of i_connect_handler.hpp's and i_http_connection_handler.hpp's
    interfaces.  They return nothing.  [headers_complete] stands here with the
    framing of the body that the header announced. *)
Inductive notice :=
  | connect_failed
  | dns_failed
  | send_failed
  | invalid_peer_header
  | invalid_peer_body
  | headers_complete (encoding : http.BODY_ENCODING) (size : Z)
  | request_complete
  | accept_peer_body (bytes : list Z).

(** * The connector *)
Module tcp_connector.
Section connector.
Context {A : Type}.

(** [p_s_] tells whether the pointer owns a socket; an endpoint that was
    constructed by default is none. *)
Record t := TcpConnector {
  endpoint_ : option (endpoint A);
  p_s_ : bool;
  port_ : Z
}.

(** The socket is used without a check that there is one. *)
Definition connect (c : t) : res (operation A) :=
  if c.(p_s_) then e ← of_option c.(endpoint_); Ok (Connect e) else Undef.

(** The constructor with an endpoint; [port] is the member it leaves unset. *)
Definition make_endpoint (e : endpoint A) (port : Z) : res (t * operation A) :=
  let c := TcpConnector (Some e) false port in
  o ← connect c;
  Ok (c, o).

(** The constructor with a host name. *)
Definition make (host : list Z) (port : Z) : t * operation A :=
  (TcpConnector None false port, Resolve host).

Definition resolve_handler (error : bool) (iter : list (endpoint A)) (c : t)
    : res (t * list (operation A) * list notice) :=
  match error, iter with
  | false, e :: _ =>
      let c := TcpConnector (Some (e.1, u16 c.(port_))) true c.(port_) in
      o ← connect c;
      Ok (c, [o], [])
  | _, _ => Ok (c, [], [dns_failed])
  end.

End connector.
Arguments t A : clear implicits.
End tcp_connector.

(** * The state of the socket *)
Module stream_socket_connection_state.

Inductive SOCKET_STATE := DISCONNECTED | CONNECTED_FOR_READ | CONNECTED_FOR_WRITE | CONNECTED_FOR_READ_AND_WRITE.

Definition value (s : SOCKET_STATE) : Z :=
  match s with
  | DISCONNECTED => 0 | CONNECTED_FOR_READ => 1 | CONNECTED_FOR_WRITE => 2 | CONNECTED_FOR_READ_AND_WRITE => 3
  end.

Definition make : SOCKET_STATE := DISCONNECTED.

Definition connect (s : SOCKET_STATE) : SOCKET_STATE :=
  match s with DISCONNECTED => CONNECTED_FOR_READ_AND_WRITE | _ => s end.

Definition shutdown_read (s : SOCKET_STATE) : SOCKET_STATE :=
  match s with
  | CONNECTED_FOR_READ => DISCONNECTED
  | CONNECTED_FOR_READ_AND_WRITE => CONNECTED_FOR_WRITE
  | _ => s
  end.

Definition shutdown_write (s : SOCKET_STATE) : SOCKET_STATE :=
  match s with
  | CONNECTED_FOR_WRITE => DISCONNECTED
  | CONNECTED_FOR_READ_AND_WRITE => CONNECTED_FOR_READ
  | _ => s
  end.

Definition disconnect (s : SOCKET_STATE) : SOCKET_STATE := DISCONNECTED.

(** The two tests are of the constants, not of the state. *)
Definition truth (z : Z) : bool := negb (z =? 0).
Definition connected_for_read (s : SOCKET_STATE) : bool :=
  truth (value CONNECTED_FOR_READ) || truth (value CONNECTED_FOR_READ_AND_WRITE).
Definition connected_for_write (s : SOCKET_STATE) : bool :=
  truth (value CONNECTED_FOR_WRITE) || truth (value CONNECTED_FOR_READ_AND_WRITE).

End stream_socket_connection_state.

(** * The client *)
Module http_client.
Import stream_socket_connection_state.

Inductive MESSAGE_STATE := PARSE_RESPONSE_HEADER | PARSE_BODY.
Inductive PARSE_RESULT := INCOMPLETE | COMPLETE | DENY.

(** The receiver of the body: what is told so far.  A buffer whose window is
    not empty is handed on; the write position stays where it is. *)
Definition handle_body (told : list notice) (buffer : read_write_buffer) (b_complete : bool)
    : res (list notice * read_write_buffer * http.STATUS) :=
  let start_position := s32 (rwb.get_write_position buffer) in
  let num_bytes_to_write := s32 (u32 (rwb.get_write_end_position buffer - start_position)) in
  if 0 <? num_bytes_to_write then
    _ ← rwb.at_ buffer start_position;
    raw ← rwb.get_raw_buffer buffer;
    bytes ← rwb.range raw start_position (start_position + num_bytes_to_write);
    Ok (told ++ [accept_peer_body bytes], buffer, http.COMPLETE)
  else Ok (told, buffer, http.COMPLETE).

#[export] Instance body_receiver : i_body_receiver (list notice) := {
  set_body_encoding told _ := told;
  set_body := handle_body;
  set_chunk_size told _ := Ok told;
  forward_chunk_size told := Ok (told, http.COMPLETE);
  forward_chunk_trailer told := Ok (told, http.COMPLETE)
}.

Section client.
Context {A : Type}.

(** The members.  [p_socket_] tells whether the pointer owns a socket; the
    message in [header_handler_] is [response_]. *)
Record t := HttpClient {
  connector_ : tcp_connector.t A;
  p_socket_ : bool;
  request_queue_ : list (list (list Z));
  read_buffer_ : read_write_buffer;
  header_handler_ : header_handler.t;
  header_parser_ : header_parser.t;
  body_parser_ : body_parser.t;
  response_state_ : MESSAGE_STATE;
  socket_state_ : SOCKET_STATE
}.

(** The client, the pool of headers it was given, the operations it started,
    and what it told. *)
Record state := State {
  client_ : t;
  cache_ : header_cache;
  pending : list (operation A);
  told : list notice
}.

(** Assignments to the members. *)
Definition with_client (c : t) (s : state) : state := State c s.(cache_) s.(pending) s.(told).
Definition tell (n : notice) (s : state) : state := State s.(client_) s.(cache_) s.(pending) (s.(told) ++ [n]).
Definition starts (o : operation A) (s : state) : state :=
  State s.(client_) s.(cache_) (s.(pending) ++ [o]) s.(told).
Definition with_connection (k : tcp_connector.t A) (p : bool) (q : list (list (list Z))) (st : SOCKET_STATE) (c : t) : t :=
  HttpClient k p q c.(read_buffer_) c.(header_handler_) c.(header_parser_) c.(body_parser_) c.(response_state_) st.
Definition with_response (b : read_write_buffer) (h : header_handler.t) (p : header_parser.t) (bp : body_parser.t)
    (r : MESSAGE_STATE) (c : t) : t :=
  HttpClient c.(connector_) c.(p_socket_) c.(request_queue_) b h p bp r c.(socket_state_).
Definition with_buffer (b : read_write_buffer) (c : t) : t :=
  with_response b c.(header_handler_) c.(header_parser_) c.(body_parser_) c.(response_state_) c.
Definition with_state (r : MESSAGE_STATE) (c : t) : t :=
  with_response c.(read_buffer_) c.(header_handler_) c.(header_parser_) c.(body_parser_) r c.
Definition with_socket_state (st : SOCKET_STATE) (c : t) : t :=
  with_connection c.(connector_) c.(p_socket_) c.(request_queue_) st c.

(** The constructor; [body_encoding] is a member of the body parser that is
    left unset. *)
Definition make (host : list Z) (port : Z) (cache : header_cache) (body_encoding : http.BODY_ENCODING) : res state :=
  let '(k, o) := tcp_connector.make host port in
  '(h, cache) ← header_handler.make (message_buffer.make true 15 15 15 50) RESPONSE cache;
  Ok (State (HttpClient k false [] (rwb.make 5000) h header_parser.make (body_parser.make body_encoding)
        PARSE_RESPONSE_HEADER stream_socket_connection_state.make) cache [o] []).

(** ** Sending *)

Definition write_request (request : list (list Z)) (s : state) : res state :=
  if s.(client_).(p_socket_) then Ok (starts (Write request) s) else Undef.

Fixpoint write_requests (requests : list (list (list Z))) (s : state) : res state :=
  match requests with
  | [] => Ok s
  | r :: requests => s ← write_request r s; write_requests requests s
  end.

(** The socket comes from the connector, whose pointer is null afterwards. *)
Definition connect_handler (p_socket : bool) (s : state) : res state :=
  let c := s.(client_) in
  let k := tcp_connector.TcpConnector c.(connector_).(tcp_connector.endpoint_) false c.(connector_).(tcp_connector.port_) in
  s ← write_requests c.(request_queue_)
        (with_client (with_connection k p_socket c.(request_queue_) (connect c.(socket_state_)) c) s);
  let c := s.(client_) in
  Ok (with_client (with_connection c.(connector_) c.(p_socket_) [] c.(socket_state_) c) s).

Definition make_request (message : message_buffer.t) (s : state) : res state :=
  let c := s.(client_) in
  buffers ← message_buffer.get_const_buffers message;
  if negb c.(p_socket_) then
    Ok (with_client (with_connection c.(connector_) c.(p_socket_) (c.(request_queue_) ++ [buffers]) c.(socket_state_) c) s)
  else write_request buffers s.

(** [async_read_some] into the whole vector of the buffer. *)
Definition read_some (s : state) : res state :=
  if s.(client_).(p_socket_) then Ok (starts Read s) else Undef.

Definition request_write_handler (error : bool) (s : state) : res state :=
  let c := s.(client_) in
  if error then Ok (tell send_failed (with_client (with_socket_state (shutdown_write c.(socket_state_)) c) s))
  else read_some (with_client (with_state PARSE_RESPONSE_HEADER c) s).

(** ** Reading *)

Definition parse_response_headers (s : state) : res (PARSE_RESULT * state) :=
  let c := s.(client_) in
  '(parse_status, b, p, (h, cache)) ←
    header_parser.parse_headers c.(header_parser_) (c.(header_handler_), s.(cache_)) c.(read_buffer_) header_parser.LOOSE;
  let s := State (with_response b h p c.(body_parser_) c.(response_state_) c) cache s.(pending) s.(told) in
  match parse_status with
  | http.COMPLETE =>
      let encoding := header_handler.get_body_encoding h in
      let size := header_handler.get_message_size h in
      let bp := body_parser.reset encoding size c.(body_parser_) in
      Ok (COMPLETE, tell (headers_complete encoding size) (with_client (with_response b h p bp PARSE_BODY c) s))
  | http.INVALID | http.DATAOVERFLOW => Ok (DENY, tell invalid_peer_header s)
  | _ =>
      if negb (connected_for_read c.(socket_state_)) then Ok (DENY, tell invalid_peer_header s)
      else Ok (INCOMPLETE, s)
  end.

Definition parse_response_body (s : state) : res (PARSE_RESULT * state) :=
  let c := s.(client_) in
  '(parse_status, b, bp, told) ← body_parser.parse_body c.(body_parser_) s.(told) c.(read_buffer_);
  let c := with_response b c.(header_handler_) c.(header_parser_) bp c.(response_state_) c in
  let s := State c s.(cache_) s.(pending) told in
  let completed := tell request_complete (with_client (with_state PARSE_RESPONSE_HEADER c) s) in
  match parse_status with
  | http.INVALID | http.DATAOVERFLOW => Ok (DENY, tell invalid_peer_body s)
  | http.INCOMPLETE =>
      if negb (connected_for_read c.(socket_state_)) then
        if bool_decide (body_parser.encoding bp = http.END_CONNECTION) then Ok (COMPLETE, completed)
        else Ok (DENY, tell invalid_peer_body s)
      else Ok (INCOMPLETE, s)
  | _ => Ok (COMPLETE, completed)
  end.

(** The [for(;;)]: after a header it goes on with the body, once. *)
Definition parse_response (s : state) : res (PARSE_RESULT * state) :=
  match s.(client_).(response_state_) with
  | PARSE_RESPONSE_HEADER =>
      '(status, s) ← parse_response_headers s;
      match status with
      | COMPLETE => parse_response_body s
      | _ => Ok (status, s)
      end
  | PARSE_BODY => parse_response_body s
  end.

(** [while(COMPLETE == parse_response());]. *)
Fixpoint parse_responses (fuel : nat) (s : state) : res state :=
  match fuel with
  | O => NoFuel
  | S fuel =>
      '(status, s) ← parse_response s;
      match status with
      | COMPLETE => parse_responses fuel s
      | _ => Ok s
      end
  end.

(** One turn for a byte of the buffer, and two more. *)
Definition turns (b : read_write_buffer) : nat := Z.to_nat (rwb.get_working_length b) + 2.

(** asio stored the bytes at the front of the vector before. *)
Definition response_read_handler (error : bool) (bytes : list Z) (s : state) : res state :=
  let c := s.(client_) in
  let b := c.(read_buffer_) in
  raw ← rwb.get_raw_buffer b;
  raw ← rwb.memcpy raw 0 bytes;
  b ← rwb.set_working_length (raw_size bytes)
        (RWB (Some raw) b.(b_using_static_buffer_) b.(working_length_) b.(process_position_)
           b.(write_end_position_) b.(write_position_));
  let s := with_client (with_buffer b c) s in
  if error then Ok (with_client (with_socket_state (shutdown_write c.(socket_state_)) s.(client_)) s)
  else
    s ← parse_responses (turns b) s;
    read_some s.

(** ** The handlers *)

(** [resolve_handler] and [connect_handler] of the connector; the second is
    called with the connector's socket. *)
Definition handle (c : completion A) (s : state) : res state :=
  match c with
  | Resolved error iter =>
      '(k, ops, notices) ← tcp_connector.resolve_handler error iter s.(client_).(connector_);
      let cl := s.(client_) in
      Ok (State (with_connection k cl.(p_socket_) cl.(request_queue_) cl.(socket_state_) cl) s.(cache_)
            (s.(pending) ++ ops) (s.(told) ++ notices))
  | Connected error =>
      if error then Ok (tell connect_failed s)
      else connect_handler s.(client_).(connector_).(tcp_connector.p_s_) s
  | Written error => request_write_handler error s
  | Received error bytes => response_read_handler error bytes s
  end.

(** asio calls the handler of an operation that ends. *)
Definition complete (c : completion A) (s : state) : option (res state) :=
  p ← without c s.(pending);
  Some (handle c (State s.(client_) s.(cache_) p s.(told))).

End client.
Arguments state A : clear implicits.
Arguments t A : clear implicits.
End http_client.

#[export] Existing Instances http_client.body_receiver.

(** * The crawler, asio-http/crawler.cpp *)
Module crawler.

(** A string is appended to the buffer that an accessor refers to. *)
Definition append_line_1 (cs : list Z) (m : message_buffer.t) : res message_buffer.t :=
  b ← rwb.append_from_string cs (request_buffer_wrapper.get_method m);
  Ok (message_buffer.MessageBuffer m.(message_buffer.current_num_fields_) m.(message_buffer.max_fields_) b
        m.(message_buffer.start_line2_) m.(message_buffer.start_line3_) m.(message_buffer.headers_) m.(message_buffer.cache_)).
Definition append_line_2 (cs : list Z) (m : message_buffer.t) : res message_buffer.t :=
  b ← rwb.append_from_string cs (request_buffer_wrapper.get_uri m);
  Ok (message_buffer.MessageBuffer m.(message_buffer.current_num_fields_) m.(message_buffer.max_fields_)
        m.(message_buffer.start_line1_) b m.(message_buffer.start_line3_) m.(message_buffer.headers_) m.(message_buffer.cache_)).
Definition append_line_3 (cs : list Z) (m : message_buffer.t) : res message_buffer.t :=
  b ← rwb.append_from_string cs (request_buffer_wrapper.get_http_version_buffer m);
  Ok (message_buffer.MessageBuffer m.(message_buffer.current_num_fields_) m.(message_buffer.max_fields_)
        m.(message_buffer.start_line1_) m.(message_buffer.start_line2_) b m.(message_buffer.headers_) m.(message_buffer.cache_)).

(** The result of [add_field] is not looked at. *)
Definition append_field (i : Z) (name value : list Z) (m : message_buffer.t) (c : header_cache)
    : res (message_buffer.t * header_cache) :=
  '(_, m, c) ← message_buffer.add_field m c;
  n ← message_buffer.get_field_name i m;
  n ← rwb.append_from_string name n;
  m ← message_buffer.set_field_name i n m;
  v ← message_buffer.get_field_value i m;
  v ← rwb.append_from_string value v;
  m ← message_buffer.set_field_value i v m;
  Ok (m, c).

Definition build_request (get_request : message_buffer.t) (c : header_cache) : res (message_buffer.t * header_cache) :=
  m ← append_line_1 (str "GET") get_request;
  m ← append_line_2 (str "/") m;
  m ← append_line_3 (str "HTTP/1.1") m;
  '(m, c) ← append_field 0 (str "Host") (str "feeds.baus.net") m c;
  '(m, c) ← append_field 1 (str "User-Agent") (str "Feed_flow/1.1.1") m c;
  append_field 2 (str "Connection") (str "close") m c.

(** What a function that is given [c_str()] sees: the bytes before a NUL. *)
Fixpoint c_str (l : list Z) : list Z :=
  match l with [] => [] | c :: l => if c =? 0 then [] else c :: c_str l end.

(** [crawler_handler]: the feed that is gathered, which is never cleared, and
    what the Python callback is given. *)
Record crawler_handler := CrawlerHandler { feed_ : list Z; callbacks : list (list Z) }.

Definition request_complete (h : crawler_handler) : crawler_handler :=
  CrawlerHandler h.(feed_) (h.(callbacks) ++ [c_str h.(feed_)]).
Definition accept_peer_body (buffer : list Z) (h : crawler_handler) : crawler_handler :=
  CrawlerHandler (h.(feed_) ++ buffer) h.(callbacks).

(** The other calls do nothing. *)
Definition notify (h : crawler_handler) (n : notice) : crawler_handler :=
  match n with
  | AsioClient.request_complete => request_complete h
  | AsioClient.accept_peer_body bytes => accept_peer_body bytes h
  | _ => h
  end.

End crawler.
