(* ===== verification/AsioBody.v ===== *)
(** The body of a response in asio-http/http_client.cpp.  Its receiver does not
    move the write position of the buffer it is handed, unlike the receivers
    the body parsers are proved against.  It makes no difference: the parsers
    do what they do with a receiver that moves it. *)
From stdpp Require Import list.
From S2P Require Import Prelude Status ReadWriteBuffer HttpLex Interfaces HeaderStore HeaderHandler HeaderParser BodyParsers BodyRun AsioClient.

(** * Computations that go alike *)

Definition alike {X Y} (Q : X -> Y -> Prop) (m : res X) (m' : res Y) : Prop :=
  match m, m' with
  | Ok a, Ok a' => Q a a'
  | Aborted, Aborted | Undef, Undef | NoFuel, NoFuel => True
  | _, _ => False
  end.

Lemma alike_bind {X Y X' Y'} (P : X -> Y -> Prop) (Q : X' -> Y' -> Prop) m m' f f' :
  alike P m m' -> (forall a a', P a a' -> alike Q (f a) (f' a')) -> alike Q (a ← m; f a) (a' ← m'; f' a').
Proof. destruct m, m'; simpl; try done. auto. Qed.

Lemma alike_yields {X Y} F (Q : X -> Y -> Prop) m m' (P : Y -> Prop) (P' : X -> Prop) :
  alike Q m m' -> yields F m' P -> (forall a a', Q a a' -> P a' -> P' a) -> yields F m P'.
Proof. destruct m, m'; simpl; try done. eauto. Qed.

(** * A receiver that moves the write position *)

Record taking := Taking { handed : list notice }.

#[export] Instance taking_receiver : i_body_receiver taking := {
  set_body_encoding r _ := r;
  set_body r b c :=
    '(told, b, st) ← http_client.handle_body r.(handed) b c;
    Ok (Taking told, written_to (Z.max b.(write_position_) b.(write_end_position_)) b, st);
  set_chunk_size r _ := Ok r;
  forward_chunk_size r := Ok (r, http.COMPLETE);
  forward_chunk_trailer r := Ok (r, http.COMPLETE)
}.

(** The bytes that were handed on. *)
Definition bytes_of (n : notice) : list Z := match n with accept_peer_body l => l | _ => [] end.
Definition body_bytes (told : list notice) : list Z := told ≫= bytes_of.

Lemma body_bytes_app l l' : body_bytes (l ++ l') = body_bytes l ++ body_bytes l'.
Proof. apply bind_app. Qed.

(** The window is handed on, when there is one. *)
Lemma handle_body_window told b c : wf b ->
  exists told', http_client.handle_body told b c = Ok (told ++ told', b, http.COMPLETE) /\
    told' = match window b with [] => [] | l => [accept_peer_body l] end.
Proof.
  intros Hwf. pose proof Hwf as []. unfold http_client.handle_body, rwb.get_write_position, rwb.get_write_end_position.
  set (wp := write_position_ b) in *. set (we := write_end_position_ b) in *.
  rewrite (s32_small wp) by lia. destruct (Z.le_gt_cases we wp) as [Hle|Hgt].
  - assert (s32 (u32 (we - wp)) = we - wp) as ->.
    { unfold s32, u32. rewrite Zplus_mod_idemp_l. apply (s32_small (we - wp)). lia. }
    rewrite (proj2 (Z.ltb_ge _ _)) by lia. exists []. rewrite app_nil_r. split; [done|].
    unfold window. by rewrite slice_nil by (unfold wp, we in *; lia).
  - rewrite u32_small, s32_small by lia. rewrite (proj2 (Z.ltb_lt _ _)) by lia.
    assert (exists x, rwb.at_ b wp = Ok x) as [x ->].
    { unfold rwb.at_, CHECK_CONDITION, rwb.get_raw_buffer. rewrite (proj2 (Z.leb_le _ _)), (proj2 (Z.ltb_lt _ _)) by lia.
      rewrite wf_vector. simpl. destruct (lookup_lt_is_Some_2 (raw_of b) (Z.to_nat wp)) as [x ->]; [|by exists x].
      unfold raw_size in *. lia. }
    rewrite bind_ok. unfold rwb.get_raw_buffer. rewrite wf_vector. cbn [of_option]. rewrite bind_ok.
    replace (wp + (we - wp)) with we by lia. rewrite range_slice, bind_ok by (done || lia).
    eexists. split; [reflexivity|]. pose proof (window_length b Hwf ltac:(lia)) as Hl.
    destruct (window b) eqn:Ew; [simpl in Hl; unfold wp, we in *; lia|]. unfold window in Ew. unfold wp, we. by rewrite Ew.
Qed.

#[export] Program Instance taking_receives : BodyReceiver taking := {
  receiver_ok _ := True;
  received r := body_bytes r.(handed);
  size_bytes _ := [];
  trailer_bytes := [];
  size_left _ := [];
  trailer_left _ := []
}.
Next Obligation.
  intros [told] b c _ Hwf. destruct (handle_body_window told b c Hwf) as (told' & E & ->). simpl. rewrite E. simpl.
  exists (length (window b)). split.
  - f_equal. pose proof Hwf as []. destruct (Z.le_gt_cases (write_end_position_ b) (write_position_ b)).
    + unfold window. rewrite slice_nil by lia. simpl. lia.
    + pose proof (window_length b Hwf). lia.
  - split; [done|]. rewrite body_bytes_app. split; [|done]. rewrite firstn_all. f_equal.
    destruct (window b) as [|x l] eqn:Ew; [done|]. by rewrite <- Ew; unfold body_bytes; simpl; rewrite app_nil_r.
Qed.
Next Obligation. intros r n _ _. by exists r. Qed.
Next Obligation. intros r _. exists r, [], http.COMPLETE. by rewrite app_nil_r. Qed.
Next Obligation. intros r _. exists r, [], http.COMPLETE. by rewrite app_nil_r. Qed.

(** * The two receivers *)

(** The same buffer, of the client, but for the write position. *)
Record same (b b' : read_write_buffer) : Prop := {
  same_but : exists q, b' = written_to q b;
  same_write : 0 <= b.(write_position_) <= b.(working_length_);
  same_process : 0 <= b.(process_position_);
  same_own : b.(b_using_static_buffer_) = false
}.

Lemma same_wf b b' : same b b' -> wf b' -> wf b.
Proof.
  intros [[q ->] Hw Hp _] Hwf. pose proof Hwf as []. by constructor.
Qed.

Lemma same_refl b : wf b -> b.(b_using_static_buffer_) = false -> same b b.
Proof. intros [] Ho. constructor; [|done|lia|done]. exists b.(write_position_). by destruct b. Qed.

Lemma same_process_to x b b' : 0 <= x -> same b b' ->
  alike same (rwb.set_process_position x b) (rwb.set_process_position x b').
Proof.
  intros Hx [[q ->] Hw Hp Ho]. unfold rwb.set_process_position. simpl. destruct (x <=? _); simpl; [|done].
  constructor; [|done..]. by exists q.
Qed.

Lemma same_end_to x b b' : same b b' ->
  alike same (rwb.set_write_end_position x b) (rwb.set_write_end_position x b').
Proof.
  intros [[q ->] Hw Hp Ho]. unfold rwb.set_write_end_position. simpl. destruct (x <=? _); simpl; [|done].
  constructor; [|done..]. by exists q.
Qed.

(** Once the write position is set, the buffers are the same. *)
Record synced (b b' : read_write_buffer) : Prop := { synced_eq : b' = b; synced_same : same b b }.

Lemma synced_is b b' : synced b b' -> same b b'.
Proof. by intros [-> ?]. Qed.

Lemma same_write_to x b b' : 0 <= x -> same b b' ->
  alike synced (rwb.set_write_position x b) (rwb.set_write_position x b').
Proof.
  intros Hx [[q ->] Hw Hp Ho]. unfold rwb.set_write_position. simpl. destruct (x <=? _) eqn:E; simpl; [|done].
  apply Z.leb_le in E. split; [done|]. constructor; simpl; [by exists x|done..].
Qed.

Lemma synced_process_to x b b' : 0 <= x -> synced b b' ->
  alike synced (rwb.set_process_position x b) (rwb.set_process_position x b').
Proof.
  intros Hx [-> Hs]. pose proof (same_process_to x b b Hx Hs) as Ha. destruct (rwb.set_process_position x b) eqn:E; [|done..].
  simpl in *. unfold rwb.set_process_position in E. apply bind_ok_inv in E as (_ & _ & [= <-]). destruct Hs.
  split; [done|]. constructor; simpl; try done. by eexists.
Qed.

Lemma synced_end_to x b b' : synced b b' ->
  alike synced (rwb.set_write_end_position x b) (rwb.set_write_end_position x b').
Proof.
  intros [-> []]. destruct (rwb.set_write_end_position x b) eqn:E; [|done..].
  simpl in *. unfold rwb.set_write_end_position in E. apply bind_ok_inv in E as (_ & _ & [= <-]).
  split; [done|]. constructor; simpl; try done. by eexists.
Qed.

Lemma u32_nonneg z : 0 <= u32 z.
Proof. pose proof (u32_bound z). lia. Qed.

(** ** The scanners of the body parsers *)

Definition scans {X} (Q : read_write_buffer -> read_write_buffer -> Prop)
    (x x' : http.STATUS * read_write_buffer * X) : Prop :=
  x.1.1 = x'.1.1 /\ Q x.1.2 x'.1.2 /\ x.2 = x'.2.

Lemma n_length_alike b b' cur max : synced b b' ->
  alike (fun x x' => scans synced x x' /\ (x.1.1 = http.INCOMPLETE \/ x.1.1 = http.COMPLETE))
    (parse_n_length_buffer b cur max) (parse_n_length_buffer b' cur max).
Proof.
  intros Hs. pose proof (synced_eq _ _ Hs) as ->. unfold parse_n_length_buffer. destruct (CHECK_CONDITION _); [|done..].
  rewrite !bind_ok. eapply alike_bind; [apply synced_process_to, Hs; apply u32_nonneg|]. intros b1 b1' Hb.
  split; [by split; [|split]|]. simpl. destruct (_ <? _); auto.
Qed.

Lemma char_alike b b' c : same b b' ->
  alike (fun x x' => x.1 = x'.1 /\ same x.2 x'.2) (parse_char_process b c) (parse_char_process b' c).
Proof.
  intros Hs. pose proof Hs as [[q ->] _ _ _]. unfold parse_char_process, rwb.get_working_length, rwb.get_process_position. simpl.
  destruct (_ <=? _); [done|]. change (rwb.at_ (written_to q b) _) with (rwb.at_ b (process_position_ b)).
  destruct (rwb.at_ b _) as [x| | |]; try done. rewrite !bind_ok. destruct (x =? c); [|done].
  eapply alike_bind; [apply same_process_to, Hs; apply u32_nonneg|]. done.
Qed.

Lemma chunk_size_alike n : forall p b b', same b b' ->
  alike (scans same) (chunked_body_parser.parse_chunk_size_loop n p b) (chunked_body_parser.parse_chunk_size_loop n p b').
Proof.
  induction n as [|n IH]; intros p b b' Hs; cbn [chunked_body_parser.parse_chunk_size_loop]; pose proof Hs as [[q ->] _ _ _];
    unfold rwb.get_working_length, rwb.get_process_position; simpl; (destruct (_ <=? _); [done|]); [done|].
  change (rwb.at_ (written_to q b) _) with (rwb.at_ b (process_position_ b)).
  destruct (rwb.at_ b _) as [x| | |]; try done. rewrite !bind_ok.
  repeat case_match; try done; (eapply alike_bind; [apply same_process_to, Hs; apply u32_nonneg|]); try done; intros; by apply IH.
Qed.

(** ** The parsers *)

(** What a call answers with the receiver of the client, and with the other:
    the parser that is left is the same. *)
Definition answers {S P} (going : S -> P -> Prop) (x : S * read_write_buffer * P * list notice)
    (x' : S * read_write_buffer * P * taking) : Prop :=
  let '(st, b, p, told) := x in
  let '(st', b', p', r') := x' in
  st' = st /\ p' = p /\ r' = Taking told /\ same b b' /\ going st p.

Lemma set_body_alike told b b' c : synced b b' ->
  alike (fun x x' => same x.1.2 x'.1.2 /\ x'.1.1 = Taking x.1.1 /\ x.2 = http.COMPLETE /\ x'.2 = http.COMPLETE)
    (set_body told b c) (set_body (Taking told) b' c).
Proof.
  intros [-> Hs]. simpl. destruct (http_client.handle_body told b c) as [[[told' b1] st]| | |] eqn:E; try done.
  unfold http_client.handle_body in E. assert (b1 = b /\ st = http.COMPLETE) as [-> ->].
  { destruct (0 <? _); [|by injection E as <- <- <-]. do 3 apply bind_ok_inv in E as (? & _ & E). by injection E as <- <- <-. }
  rewrite bind_ok. simpl. split; [|done]. destruct Hs. constructor; [|done..]. by eexists.
Qed.

Section content_length.
Import content_length_body_parser.

Definition length_going (st : http.STATUS) (p : t) : Prop := st = http.COMPLETE \/ p.(parse_state_) = MESSAGE_BODY_PARSE.

Lemma length_alike p told b b' : p.(parse_state_) = MESSAGE_BODY_PARSE -> same b b' ->
  alike (answers length_going) (parse_content_length_body p told b) (parse_content_length_body p (Taking told) b').
Proof.
  intros Ep Hs. unfold parse_content_length_body. cbn [parse_loop]. rewrite Ep.
  assert (rwb.get_process_position b' = rwb.get_process_position b) as -> by (by destruct Hs as [[q ->] _ _ _]).
  eapply alike_bind; [by apply same_write_to, Hs; apply Hs|]. intros b1 b1' Hs1.
  eapply alike_bind; [by apply n_length_alike|]. intros [[st b2] cur] [[st' b2'] cur'] [(E1 & Hs2 & E2) Est]. simpl in *. subst st' cur'.
  assert (rwb.get_process_position b2' = rwb.get_process_position b2) as -> by (by rewrite (synced_eq _ _ Hs2)).
  eapply alike_bind; [by apply synced_end_to|]. intros b3 b3' Hs3.
  destruct Est as [-> | ->].
  - eapply alike_bind; [by apply (set_body_alike told b3 b3' false)|].
    intros [[told1 b4] st] [[r1 b4'] st'] (? & ? & ? & ?). simpl in *. subst. split_and!; try done. by right.
  - eapply alike_bind; [by apply (set_body_alike told b3 b3' true)|].
    intros [[told1 b4] st] [[r1 b4'] st'] (? & ? & ? & ?). simpl in *. subst. split_and!; try done. by left.
Qed.

End content_length.

Section chunked.
Import chunked_body_parser.

(** Where the parser looks at the bytes of the buffer.  A call begins and ends
    at one of the states that wait for the next buffer: the receiver of the
    client never keeps the parser from going on. *)
Definition parsing (s : STATE) : bool :=
  match s with FORWARD_INCOMPLETE_CHUNK | FORWARD_COMPLETE_CHUNK => false | _ => true end.

Definition alike_at (p : t) (b b' : read_write_buffer) : Prop :=
  if parsing p.(state_) then same b b' else synced b b'.

Definition chunks_going (st : http.STATUS) (p : t) : Prop := st = http.COMPLETE \/ waits p.(state_) = true.

Lemma waits_parsing s : waits s = true -> parsing s = true.
Proof. by destruct s. Qed.

(** After a turn. *)
Definition turn_alike (x : outcome (R := list notice)) (x' : outcome (R := taking)) : Prop :=
  let '(o, b, p, told) := x in
  let '(o', b', p', r') := x' in
  o' = o /\ p' = p /\ r' = Taking told /\ alike_at p b b' /\
  match o with Some st => chunks_going st p | None => True end.

Lemma process_same b b' : same b b' -> rwb.get_process_position b' = rwb.get_process_position b.
Proof. by intros [[q ->] _ _ _]. Qed.

Lemma working_same b b' : same b b' -> rwb.get_working_length b' = rwb.get_working_length b.
Proof. by intros [[q ->] _ _ _]. Qed.

Lemma scan_state n p b st b1 p1 : parse_chunk_size_loop n p b = Ok (st, b1, p1) -> p1.(state_) = p.(state_).
Proof.
  revert p b. induction n as [|n IH]; intros p b Hp; cbn [parse_chunk_size_loop] in Hp;
    (destruct (_ <=? _); [by injection Hp as <- <- <-|]); [done|].
  apply bind_ok_inv in Hp as (ch & _ & Hp). repeat (case_match; try by injection Hp as <- <- <-);
    apply bind_ok_inv in Hp as (b2 & _ & Hp); try (by apply IH in Hp); by injection Hp as <- <- <-.
Qed.

Ltac turn_done :=
  simpl; unfold alike_at, chunks_going; simpl;
  repeat match goal with E : state_ _ = _ |- _ => rewrite E; clear E end; split_and!; try done; by (left + right).

Lemma turn_goes p told b b' : alike_at p b b' ->
  alike turn_alike (parse_step p told b) (parse_step p (Taking told) b').
Proof.
  unfold alike_at, parse_step. intros Hs. destruct (state_ p) eqn:Es; simpl in Hs.
  - unfold do_parse_chunksize, close_window, parse_chunk_size. rewrite (working_same _ _ Hs).
    pose proof (chunk_size_alike (Z.to_nat (rwb.get_working_length b)) p b b' Hs) as Ha.
    destruct (parse_chunk_size_loop _ p b) as [[[st b1] p1]| | |] eqn:E1;
      destruct (parse_chunk_size_loop _ p b') as [[[st' b1'] p1']| | |]; try done.
    destruct Ha as (E & Hs1 & E'). simpl in E, Hs1, E'. subst st' p1'. rewrite !bind_ok, (process_same _ _ Hs1).
    apply scan_state in E1. rewrite Es in E1.
    eapply (alike_bind synced).
    { eapply alike_bind; [by apply same_write_to, Hs1; apply Hs1|]. intros b2 b2' Hs2.
      assert (rwb.get_process_position b2' = rwb.get_process_position b2) as -> by (by rewrite (synced_eq _ _ Hs2)).
      by apply synced_end_to. }
    intros b2 b2' Hs2%synced_is. destruct st; turn_done.
  - unfold do_parse_chunk. rewrite (process_same _ _ Hs). eapply alike_bind; [by apply same_write_to, Hs; apply Hs|].
    intros b1 b1' Hs1. eapply alike_bind; [by apply n_length_alike|].
    intros [[st b2] cur] [[st' b2'] cur'] [(E1 & Hs2 & E2) Est]. simpl in E1, Hs2, E2, Est. subst st' cur'.
    assert (rwb.get_process_position b2' = rwb.get_process_position b2) as -> by (by rewrite (synced_eq _ _ Hs2)).
    eapply alike_bind; [by apply synced_end_to|]. intros b3 b3' Hs3.
    destruct Est as [-> | ->]; turn_done.
  - unfold do_parse_chunksize_lf. eapply alike_bind; [by apply char_alike|].
    intros [st b1] [st' b1'] [E Hs1]. simpl in E, Hs1. subst st'.
    destruct st; turn_done.
  - unfold do_forward_chunksize. simpl. destruct (0 <? _); [turn_done|].
    rewrite (process_same _ _ Hs). eapply alike_bind; [by apply same_write_to, Hs; apply Hs|].
    intros b1 b1' Hs1%synced_is. turn_done.
  - unfold do_forward_incomplete. eapply alike_bind; [by apply (set_body_alike told b b' false)|].
    intros [[told1 b1] st] [[r1 b1'] st'] (Hs1 & ? & ? & ?). simpl in *. subst. rewrite (working_same _ _ Hs1).
    eapply alike_bind; [by apply same_end_to|]. intros b2 b2' Hs2. turn_done.
  - unfold do_forward_complete. eapply alike_bind; [by apply (set_body_alike told b b' false)|].
    intros [[told1 b1] st] [[r1 b1'] st'] (Hs1 & ? & ? & ?). simpl in *. subst. rewrite (working_same _ _ Hs1).
    eapply alike_bind; [by apply same_end_to|]. intros b2 b2' Hs2. turn_done.
  - unfold do_parse_trailer. eapply alike_bind; [by apply char_alike|].
    intros [st b1] [st' b1'] [E Hs1]. simpl in E, Hs1. subst st'.
    destruct st; try turn_done. rewrite (process_same _ _ Hs1).
    eapply alike_bind; [by apply same_write_to, Hs1; apply Hs1|].
    intros b2 b2' Hs2%synced_is. turn_done.
  - unfold do_parse_trailer. eapply alike_bind; [by apply char_alike|].
    intros [st b1] [st' b1'] [E Hs1]. simpl in E, Hs1. subst st'.
    destruct st; try turn_done. rewrite (process_same _ _ Hs1).
    eapply alike_bind; [by apply same_write_to, Hs1; apply Hs1|].
    intros b2 b2' Hs2%synced_is. turn_done.
  - unfold do_forward_trailer. simpl. destruct (_ =? 0).
    + unfold http_client.handle_body. cbn. turn_done.
    + turn_done.
Qed.

Lemma chunked_alike p told b b' : waits p.(state_) = true -> same b b' ->
  alike (answers chunks_going) (parse_body p told b) (parse_body p (Taking told) b').
Proof.
  intros Hp Hs. unfold parse_body. rewrite (working_same _ _ Hs).
  assert (alike_at p b b') as Ha by (unfold alike_at; by rewrite (waits_parsing _ Hp)). clear Hp Hs.
  generalize (5 * Z.to_nat (rwb.get_working_length b) + 6)%nat. intros n. revert p told b b' Ha.
  induction n as [|n IH]; intros p told b b' Ha; [done|]. cbn [parse_loop].
  eapply alike_bind; [by apply turn_goes|]. intros [[[o b1] p1] told1] [[[o' b1'] p1'] r1'] (-> & -> & -> & Ha1 & Hw).
  destruct o as [st|]; [|by apply IH]. split_and!; try done. unfold alike_at in Ha1.
  destruct (parsing (state_ p1)); [done|by apply synced_is].
Qed.

End chunked.

(** ** The body of a response *)

(** Between two calls. *)
Definition body_ready (p : body_parser.t) : Prop :=
  match p.(body_parser.body_encoding_) with
  | http.CONTENT_LENGTH =>
      p.(body_parser.content_length_).(content_length_body_parser.parse_state_) = content_length_body_parser.MESSAGE_BODY_PARSE
  | http.CHUNKED => waits p.(body_parser.chunked_).(chunked_body_parser.state_) = true
  | _ => True
  end.

Lemma body_reset_ready encoding size p : body_ready (body_parser.reset encoding size p).
Proof. by destruct encoding. Qed.

Lemma body_alike p told b : body_ready p -> wf b -> b.(b_using_static_buffer_) = false ->
  alike (answers (fun st p => st = http.COMPLETE \/ body_ready p))
    (body_parser.parse_body p told b) (body_parser.parse_body p (Taking told) b).
Proof.
  intros Hp Hwf0 Ho. pose proof (same_refl b Hwf0 Ho) as Hwf. unfold body_ready in Hp. unfold body_parser.parse_body.
  destruct (body_parser.body_encoding_ p) eqn:Ee.
  - simpl. split_and!; try done. by left.
  - eapply alike_bind; [by apply chunked_alike|].
    intros [[[st b1] c] t1] [[[st' b1'] c'] r1'] (-> & -> & -> & Hs & Hg). by split_and!.
  - eapply alike_bind; [eapply alike_bind; [by apply (set_body_alike told b b false)|]|].
    + intros [[t1 b1] st] [[r1 b1'] st'] (Hs & ? & ? & ?). simpl in *. subst.
      exact (conj eq_refl (conj eq_refl (conj eq_refl Hs)) : (fun x x' => x.1.1 = http.INCOMPLETE /\ x'.1.1 = http.INCOMPLETE /\ x'.2 = Taking x.2 /\ same x.1.2 x'.1.2)
        (http.INCOMPLETE, b1, t1) (http.INCOMPLETE, b1', Taking t1)).
    + intros [[st b1] t1] [[st' b1'] r1'] (? & ? & ? & Hs). simpl in *. subst. split_and!; try done. right. unfold body_ready. by rewrite Ee.
  - eapply alike_bind; [by apply length_alike|].
    intros [[[st b1] c] t1] [[[st' b1'] c'] r1'] (-> & -> & -> & Hs & Hg). by split_and!.
Qed.

(** A call only hands on bytes. *)
Definition hands_on (told told' : list notice) : Prop := exists ls, told' = told ++ (accept_peer_body <$> ls).

#[global] Instance hands_on_preorder : PreOrder hands_on.
Proof.
  split; [intros l; exists []; by rewrite app_nil_r|]. intros l1 l2 l3 [ls ->] [ls' ->].
  exists (ls ++ ls'). by rewrite fmap_app, app_assoc.
Qed.

Lemma body_hands_on p told b st b' p' told' :
  body_parser.parse_body p told b = Ok (st, b', p', told') -> hands_on told told' /\ unblocked st.
Proof.
  assert (forall r b c r' b' st, set_body r b c = Ok (r', b', st) -> hands_on r r' /\ st = http.COMPLETE) as Hsb.
  { intros r b1 c r' b2 st1 E. simpl in E. unfold http_client.handle_body in E.
    destruct (0 <? _); [|injection E as <- <- <-; by split].
    do 3 apply bind_ok_inv in E as (? & _ & E). injection E as <- <- <-. split; [|done]. by eexists [_]. }
  intros Hp. split.
  - eapply (body_keeps hands_on); [..|exact Hp]; try (by intros; simplify_eq/=).
    intros r b1 c r' b2 st1 E. by apply (Hsb _ _ _ _ _ _ E).
  - eapply (body_unblocked (R := list notice)); [..|exact Hp]; try (by intros r r' st1 [= _ <-]).
    intros r b1 c r' b2 st1 E. by apply (Hsb _ _ _ _ _ _ E).
Qed.

Lemma end_never_complete {R} `{i_body_receiver R} p (r : R) b st b' p' r' :
  p.(body_parser.body_encoding_) = http.END_CONNECTION ->
  body_parser.parse_body p r b = Ok (st, b', p', r') -> st <> http.COMPLETE.
Proof.
  unfold body_parser.parse_body. intros -> Hp. apply bind_ok_inv in Hp as ([[st1 b1] r1] & Hs & [= <- _ _ _]).
  unfold end_connection_body_parser.parse_end_connection_body in Hs.
  apply bind_ok_inv in Hs as ([[r2 b2] st2] & _ & [= <- _ _]). by destruct st2.
Qed.

(** A parser that waits for a buffer takes any. *)
Lemma body_inv_any base n p (r : taking) b b2 :
  body_ready p -> body_inv base n p r b -> wf b2 -> body_inv base n p r b2.
Proof.
  unfold body_ready, body_inv. intros Hr (_ & Hok & Hb & Hinv) Hwf. split; [done|]. split; [done|]. split; [done|].
  destruct (body_parser.body_encoding_ p); try done.
  - destruct Hinv as [consumed Hinv]. exists consumed. by eapply ck_inv_buffer.
  - destruct Hinv as (b1 & consumed & Hinv & _). exists b1, consumed. split; [done|]. by right.
Qed.

(** What a call does to the client: [base] was handed on before. *)
Definition body_call_post (base : list Z) (n : Z) (p : body_parser.t) (told : list notice) (b : read_write_buffer)
    (x : http.STATUS * read_write_buffer * body_parser.t * list notice) : Prop :=
  let '(st, b', p', told') := x in
  let encoding := p.(body_parser.body_encoding_) in
  wf b' /\ b'.(b_using_static_buffer_) = false /\ advances b b' /\ hands_on told told' /\ unblocked st /\
  p'.(body_parser.body_encoding_) = encoding /\ max_chunk p' = max_chunk p /\
  exists out, body_bytes told' = base ++ out /\ body_part (R := taking) encoding n out /\
    match st with
    | http.COMPLETE => body_output (R := taking) encoding n out /\ encoding <> http.END_CONNECTION
    | _ => body_ready p' /\ forall b2, wf b2 -> body_inv base n p' (Taking told') b2
    end.

Lemma client_body_call base n p told b :
  0 <= n < 2 ^ 32 -> body_ready p -> body_inv base n p (Taking told) b -> b.(b_using_static_buffer_) = false ->
  yields True (body_parser.parse_body p told b) (body_call_post base n p told b).
Proof.
  intros Hn Hr Hinv Ho. pose proof (proj1 Hinv) as Hwf.
  pose proof (body_call _ _ _ _ _ Hn Hinv) as Hc. pose proof (body_alike p told b Hr Hwf Ho) as Ha.
  destruct (body_parser.parse_body p told b) as [[[[st b1] p1] told1]| | |] eqn:E;
    destruct (body_parser.parse_body p (Taking told) b) as [[[[st' b1'] p1'] r1']| | |]; try done.
  destruct Ha as (-> & -> & -> & Hs & Hg). destruct Hc as ([Hwf1 _ _ Hadv] & Ee & Hm & out & Hout & Hpart & Hst).
  destruct (body_hands_on _ _ _ _ _ _ _ E) as [Hh Hu]. simpl in Hout.
  split; [by eapply same_wf|]. split; [apply Hs|]. split; [destruct Hs as [[q ->] _ _ _]; destruct Hadv as [A1 A2 A3]; simpl in A1, A2, A3; by constructor|].
  split; [done|]. split; [done|]. split; [done|]. split; [done|]. exists out. split; [done|]. split; [done|].
  assert (st <> http.COMPLETE -> forall b2, body_inv base n p1 (Taking told1) b2 ->
    body_ready p1 /\ forall b2, wf b2 -> body_inv base n p1 (Taking told1) b2) as Hany.
  { intros Hne b2 Hb2. destruct Hg as [?|Hg]; [done|]. split; [done|]. intros b3. by apply (body_inv_any _ _ _ _ b2). }
  destruct st; try done; try (by eapply Hany).
  - split; [done|]. intros Eend. by apply (end_never_complete _ _ _ _ _ _ _ Eend E).
  - apply (Hany ltac:(done) b), Hst, Hwf.
Qed.
