(* ===== verification/AsioExchange.v ===== *)
(** What asio-http/http_client.cpp does over any sequence of requests and
    completions of its operations: the responses its user is told of, that
    every handler returns, and what becomes of a connection that is used a
    second time. *)
From stdpp Require Import list.
From S2P Require Import Prelude Status ReadWriteBuffer HttpLex Interfaces HeaderStore HeaderHandler HeaderParser HandlerSafety BodyParsers BodyRun Os Connection AsioClient AsioBody.

Import stream_socket_connection_state http_client.

(** * Runs *)
Section runs.
Context {A : Type}.

Inductive input := Request (message : message_buffer.t) | Completes (c : completion A).

(** What the client does when it is asked, or called back. *)
Definition react (i : input) (s : state A) : option (res (state A)) :=
  match i with
  | Request message => Some (make_request message s)
  | Completes c => complete c s
  end.

(** asio stores bytes, and no more than it was given room for. *)
Definition possible (i : input) : Prop :=
  match i with
  | Completes (Received _ bytes) => bytes_ok bytes /\ raw_size bytes <= 5000
  | _ => True
  end.

Inductive runs (s0 : state A) : list input -> state A -> Prop :=
  | runs_nil : runs s0 [] s0
  | runs_snoc is_ s i s' : runs s0 is_ s -> possible i -> react i s = Some (Ok s') -> runs s0 (is_ ++ [i]) s'.

(** How many requests were written without an error. *)
Definition written (is_ : list input) : nat :=
  foldr (fun i n => match i with Completes (Written false) => S n | _ => n end) O is_.

Lemma written_snoc is_ i : written (is_ ++ [i]) = (written [i] + written is_)%nat.
Proof.
  induction is_ as [|j is_ IH]; simpl in *; [lia|]. rewrite IH. destruct j as [|[| |[]|]]; simpl; lia.
Qed.
End runs.
Arguments input A : clear implicits.

(** * Responses

    What is told of responses, in order: a header, the bytes of a body framed
    as the header announced, and the end when the body is whole.  [Some] is the
    body that is under way: how it is framed, its announced length, and the
    bytes of it that were handed on.  Another request that was written makes
    the client forget the body it is in: [w] bounds how often. *)
Definition unrelated (n : notice) : Prop :=
  match n with headers_complete _ _ | request_complete | accept_peer_body _ => False | _ => True end.

Inductive story : nat -> list notice -> option (http.BODY_ENCODING * Z * list Z) -> Prop :=
  | story_start w : story w [] None
  | story_unrelated w told o n : story w told o -> unrelated n -> story w (told ++ [n]) o
  | story_forget w told o : story w told o -> story (S w) told None
  | story_header w told encoding size :
      story w told None -> story w (told ++ [headers_complete encoding size]) (Some (encoding, u32 (s32 size), []))
  | story_body w told encoding n out bytes :
      story w told (Some (encoding, n, out)) -> body_part (R := taking) encoding n (out ++ bytes) ->
      story w (told ++ [accept_peer_body bytes]) (Some (encoding, n, out ++ bytes))
  | story_complete w told encoding n out :
      story w told (Some (encoding, n, out)) -> body_output (R := taking) encoding n out ->
      encoding <> http.END_CONNECTION -> story w (told ++ [request_complete]) None.

Lemma body_part_app encoding n l l' : body_part (R := taking) encoding n (l ++ l') -> body_part (R := taking) encoding n l.
Proof. intros (whole & Hw & Hp). exists whole. split; [done|]. etransitivity; [|exact Hp]. by apply prefix_app_r. Qed.

Lemma body_bytes_hands ls : body_bytes (accept_peer_body <$> ls) = concat ls.
Proof. induction ls as [|l ls IH]; [done|]. simpl. by rewrite <- IH. Qed.

(** A part of a body was handed on, piece by piece. *)
Lemma story_hands w told encoding n out ls :
  story w told (Some (encoding, n, out)) -> body_part (R := taking) encoding n (out ++ concat ls) ->
  story w (told ++ (accept_peer_body <$> ls)) (Some (encoding, n, out ++ concat ls)).
Proof.
  revert told out. induction ls as [|l ls IH]; intros told out Hs Hp; simpl in *; [by rewrite !app_nil_r|].
  rewrite app_assoc in Hp |- *. rewrite (cons_middle _ told), app_assoc. apply IH; [|done].
  apply story_body; [done|]. by eapply body_part_app.
Qed.

(** * The invariant *)

Definition header_read (p : header_parser.t) : Prop := p.(header_parser.current_state_) = header_parser.END_HEADERS_LF.

(** A parser that completed a header stays behind its last character. *)
Section header.
Context {R : Type} `{i_header_receiver R}.
Import header_parser.

Lemma headers_loop_finished fuel : forall p (r : R) b o option st fin o' b' p' r',
  headers_loop fuel p r b o option = Ok (st, fin, o', b', p', r') ->
  b'.(b_using_static_buffer_) = b.(b_using_static_buffer_) /\ (fin = true -> header_read p').
Proof.
  induction fuel as [|fuel IH]; intros p r b o option st fin o' b' p' r' Hp; [done|].
  cbn [headers_loop] in Hp. destruct (current_state_ p) eqn:Es.
  - apply bind_ok_inv in Hp as ([[[st1 b1] p1] r1] & Hs & Hp). unfold parse_status_line in Hs.
    apply bind_ok_inv in Hs as ([[[st2 o2] p2] r2] & _ & Hs). apply bind_ok_inv in Hs as (b2 & H1' & Hs).
    apply bind_ok_inv in Hs as (b3 & H2' & Hs). injection Hs as -> -> -> ->.
    apply set_process_position_inv in H1' as [_ ->]. apply set_write_position_inv in H2' as [_ ->].
    destruct (bool_decide _); [by apply IH in Hp|]. by injection Hp as <- <- <- <- <- <-.
  - apply bind_ok_inv in Hp as ([st1 o1] & _ & Hp). destruct st1; try (by eapply IH); by simplify_eq/=.
  - apply bind_ok_inv in Hp as ([st1 o1] & _ & Hp). destruct st1; try (by simplify_eq/=).
    apply bind_ok_inv in Hp as ([r1 st1] & _ & Hp). by simplify_eq/=.
  - apply bind_ok_inv in Hp as ([[st1 o1] cur] & _ & Hp). destruct st1; try (by simplify_eq/=);
      apply bind_ok_inv in Hp as ([r1 fw] & _ & Hp); [destruct (overflows fw); [by simplify_eq/=|by eapply IH]|by simplify_eq/=].
  - apply bind_ok_inv in Hp as ([[st1 o1] cur] & _ & Hp). destruct st1; try (by eapply IH); by simplify_eq/=.
  - apply bind_ok_inv in Hp as ([st1 o1] & _ & Hp). destruct st1; try (by eapply IH); by simplify_eq/=.
  - apply bind_ok_inv in Hp as ([[st1 o1] cur] & _ & Hp). destruct st1; try (by eapply IH); by simplify_eq/=.
  - apply bind_ok_inv in Hp as ([[st1 o1] cur] & _ & Hp). destruct st1; try (by simplify_eq/=);
      apply bind_ok_inv in Hp as ([r1 fw] & _ & Hp); [destruct (overflows fw); [by simplify_eq/=|by eapply IH]|by simplify_eq/=].
Qed.

Lemma parse_headers_finished p (r : R) b option st b' p' r' :
  parse_headers p r b option = Ok (st, b', p', r') ->
  b'.(b_using_static_buffer_) = b.(b_using_static_buffer_) /\ (st = http.COMPLETE -> header_read p').
Proof.
  unfold parse_headers. intros Hp. apply bind_ok_inv in Hp as ([[[[[st1 fin] o] b1] p1] r1] & Hl & Hp).
  apply bind_ok_inv in Hp as (b2 & H1' & Hp). apply bind_ok_inv in Hp as (b3 & H2' & Hp).
  apply set_process_position_inv in H1' as [_ ->]. apply set_write_position_inv in H2' as [_ ->].
  injection Hp as Est <- <- _. apply headers_loop_finished in Hl as [Ho Hf]. split; [exact Ho|]. intros ->.
  apply Hf. destruct fin; [done|]. destruct (bool_decide_reflect (st1 = http.COMPLETE)); simpl in Est; congruence.
Qed.

(** There it stays. *)
Lemma parse_headers_stays p (r : R) b option st b' p' r' :
  header_read p -> parse_headers p r b option = Ok (st, b', p', r') -> p' = p.
Proof.
  unfold parse_headers. intros Es Hp. apply bind_ok_inv in Hp as ([[[[[st1 fin] o] b1] p1] r1] & Hl & Hp).
  apply bind_ok_inv in Hp as (b2 & _ & Hp). apply bind_ok_inv in Hp as (b3 & _ & Hp). injection Hp as _ _ <- _.
  replace (3 * _ + 4)%nat with (S (3 * Z.to_nat (rwb.get_working_length b) + 3)) in Hl by lia.
  cbn [headers_loop] in Hl. rewrite Es in Hl. apply bind_ok_inv in Hl as ([st2 o2] & _ & Hl).
  destruct st2; try (by simplify_eq/=). apply bind_ok_inv in Hl as ([r2 st2] & _ & Hl). by simplify_eq/=.
Qed.
End header.

Section exchange.
Context {A : Type}.
Variable z : sizes.
Variable w : nat.

(** The body that is being read: [base] was handed on before it. *)
Definition in_body (bp : body_parser.t) (told : list notice) : Prop :=
  exists base n out, 0 <= n < 2 ^ 32 /\ body_bytes told = base ++ out /\
    story w told (Some (bp.(body_parser.body_encoding_), n, out)) /\ body_ready bp /\
    forall b, wf b -> body_inv base n bp (Taking told) b.

Record parsers_ok (c : t A) (told : list notice) : Prop := {
  po_chunk : max_chunk c.(body_parser_) = CHUNK_SIZE_LENGTH;
  po_length : 0 <= header_parser.current_length_ c.(header_parser_);
  po_message : message_ok z (header_handler.message_buffer_ c.(header_handler_));
  po_state : match c.(response_state_) with
    | PARSE_RESPONSE_HEADER => story w told None
    | PARSE_BODY => header_read c.(header_parser_) /\ in_body c.(body_parser_) told
    end;
  po_last : last told = Some request_complete ->
    header_read c.(header_parser_) /\ c.(response_state_) = PARSE_RESPONSE_HEADER
}.

(** The read buffer belongs to the client and keeps its size. *)
Record buffer_ok (b : read_write_buffer) : Prop := {
  bo_wf : wf b;
  bo_size : raw_size (raw_of b) = 5000;
  bo_own : b.(b_using_static_buffer_) = false
}.

Record client_ok (s : state A) : Prop := {
  co_parsers : parsers_ok s.(client_) s.(told);
  co_buffer : buffer_ok s.(client_).(read_buffer_);
  co_cache : cache_ok z s.(cache_)
}.

(** ** The body *)

Definition to_end (b : read_write_buffer) : Z := b.(working_length_) - b.(process_position_).

(** What [while(COMPLETE == parse_response())] comes closer to zero by. *)
Definition effort (s : state A) : Z :=
  to_end s.(client_).(read_buffer_) + match s.(client_).(response_state_) with PARSE_BODY => 1 | _ => 0 end.

(** A call of [parse_response]: what it leaves alone, and its progress. *)
Record parsed (s s' : state A) : Prop := {
  pd_pending : s'.(pending) = s.(pending);
  pd_socket : s'.(client_).(p_socket_) = s.(client_).(p_socket_);
  pd_end : to_end s'.(client_).(read_buffer_) <= to_end s.(client_).(read_buffer_)
}.

Definition parse_post (s : state A) (x : PARSE_RESULT * state A) : Prop :=
  client_ok x.2 /\ parsed s x.2 /\ (x.1 = COMPLETE -> effort x.2 < effort s).

Lemma last_hands told ls : last (told ++ (accept_peer_body <$> ls)) = Some request_complete -> last told = Some request_complete.
Proof.
  destruct ls as [|x ls _] using rev_ind; [by rewrite app_nil_r|].
  rewrite fmap_app, app_assoc. simpl. by rewrite last_snoc.
Qed.

(** A notice that is no part of a body does not matter to it. *)
Lemma in_body_tell bp told n : unrelated n -> in_body bp told -> in_body bp (told ++ [n]).
Proof.
  intros Hu (base & m & out & Hm & Hb & Hs & Hr & Hi).
  assert (body_bytes (told ++ [n]) = body_bytes told) as E.
  { rewrite body_bytes_app. destruct n; try done; unfold body_bytes; simpl; by rewrite app_nil_r. }
  exists base, m, out. rewrite E. split; [done|]. split; [done|]. split; [by apply story_unrelated|]. split; [done|].
  intros b Hb2. eapply (body_inv_receiver _ _ _ (Taking told)); [by constructor|by apply Hi].
Qed.

(** What a part of a body, read by the body parser, does to the story. *)
Lemma parse_body_story (s : state A) :
  client_ok s -> s.(client_).(response_state_) = PARSE_BODY ->
  yields True (parse_response_body s) (parse_post s).
Proof.
  intros [Hp Hb Hc] Es. pose proof Hp as [Hck Hlen Hmsg Hst Hlast]. rewrite Es in Hst.
  destruct Hst as (Hread & base & n & out & Hn & Hbytes & Hstory & Hready & Hinv).
  unfold parse_response_body.
  pose proof (client_body_call base n _ _ _ Hn Hready (Hinv _ (bo_wf _ Hb)) (bo_own _ Hb)) as Hy.
  eapply yields_bind; [exact Hy|]. clear Hy.
  intros [[[st b] bp] told'] (Hwf & Hown & [Av Aw Ap] & [ls ->] & Hu & Ee & Hm & out' & Hout & Hpart & Hend).
  change (negb (connected_for_read _)) with false. cbv iota.
  assert (out' = out ++ concat ls) as ->.
  { rewrite body_bytes_app, Hbytes, body_bytes_hands, <- app_assoc in Hout. by apply app_inv_head in Hout. }
  apply (story_hands _ _ _ _ _ ls) in Hstory; [|done]. set (told' := told s ++ _) in *.
  assert (buffer_ok b) as Hb' by (destruct Hb; constructor; [done|unfold raw_of in *; by rewrite Av|done]).
  assert (last told' <> Some request_complete) as Hnl.
  { intros Hl%last_hands. apply Hlast in Hl as [_ Hl]. congruence. }
  set (c1 := with_response b _ _ bp _ _). set (s1 := State c1 _ _ told').
  assert (parsed s s1) as Hpd by (constructor; [done|done|]; unfold to_end; simpl; lia).
  assert (st <> http.COMPLETE -> client_ok s1) as Hgo.
  { intros Hne. assert (body_ready bp /\ forall b2, wf b2 -> body_inv base n bp (Taking told') b2) as [Hr Hi] by (by destruct st).
    constructor; [|done|done]. constructor; simpl; [congruence|done|done| |done]. rewrite Es.
    split; [done|]. exists base, n, (out ++ concat ls). rewrite Ee. split_and!; try done; lia. }
  assert (st <> http.COMPLETE -> parse_post s (DENY, tell invalid_peer_body s1)) as Hdeny.
  { intros Hne. split; [|by split; [destruct Hpd; constructor|]]. destruct (Hgo Hne) as [[? ? ? Hs _] ? ?].
    constructor; [|done|done]. constructor; try done; simpl in *; [|by rewrite last_snoc].
    rewrite Es in *. destruct Hs as [? Hs]. split; [done|]. by apply in_body_tell. }
  destruct st; try done; try (by apply Hdeny).
  - cbn [yields]. destruct Hend as [Hend Hne]. split; [|split].
    + constructor; [|done|done]. constructor; simpl; try done; [congruence|]. by eapply story_complete.
    + destruct Hpd. by constructor.
    + intros _. unfold effort. simpl. rewrite Es. pose proof (pd_end _ _ Hpd). simpl in *. lia.
  - cbn [yields]. split; [by apply Hgo|]. by split.
Qed.

(** ** The header *)

Lemma parse_header_story (s : state A) :
  client_ok s -> s.(client_).(response_state_) = PARSE_RESPONSE_HEADER ->
  yields True (parse_response_headers s) (fun x =>
    client_ok x.2 /\ parsed s x.2 /\
    match x.1 with
    | COMPLETE => effort x.2 <= effort s /\ x.2.(client_).(response_state_) = PARSE_BODY
    | _ => True
    end).
Proof.
  intros [Hp Hb Hc] Es. pose proof Hp as [Hck Hlen Hmsg Hst Hlast]. rewrite Es in Hst.
  unfold parse_response_headers.
  assert (yields True (header_parser.parse_headers (header_parser_ (client_ s)) (header_handler_ (client_ s), cache_ s)
    (read_buffer_ (client_ s)) header_parser.LOOSE)
    (headers_post (inv := handler_safe z) (read_buffer_ (client_ s)))) as Hy.
  { apply (parse_headers_any (R := header_handler.state) (may_fail := True) (inv := handler_safe z)); try done. apply Hb. }
  destruct (header_parser.parse_headers _ _ _ _) as [[[[st b] p] [h cache]]| | |] eqn:Ep; try done.
  pose proof (fun Hr => parse_headers_stays _ _ _ _ _ _ _ _ Hr Ep) as Hstay.
  apply parse_headers_finished in Ep as [Hown Hfin]. rewrite bind_ok.
  destruct Hy as (Hwf & Hv & Hwl & Hpr & _ & Hgrow & Hl & [Hm1 Hc1]).
  change (negb (connected_for_read _)) with false. cbv iota.
  assert (buffer_ok b) as Hb' by (destruct Hb; constructor; [done|unfold raw_of in *; by rewrite Hv|congruence]).
  set (c1 := with_response b h p (body_parser_ (client_ s)) (response_state_ (client_ s)) (client_ s)).
  set (s1 := State c1 cache (pending s) (told s)).
  assert (forall n, unrelated n -> client_ok (tell n s1) /\ parsed s (tell n s1)) as Hdeny.
  { intros n Hn. split; [|constructor; [done|done|]; unfold to_end; simpl; lia]. constructor; [|done|done].
    constructor; simpl; try done; [rewrite Es; by apply story_unrelated|]. rewrite last_snoc. by intros [= ->]. }
  assert (client_ok s1 /\ parsed s s1) as [Hgo1 Hgo2].
  { split; [|constructor; [done|done|]; unfold to_end; simpl; lia]. constructor; [|done|done].
    constructor; simpl; try done; [by rewrite Es|]. intros Hl2. destruct (Hlast Hl2) as [Hr _]. split; [|done].
    by rewrite (Hstay Hr). }
  destruct (Hdeny invalid_peer_header I) as [Hd1 Hd2].
  destruct st; cbn [yields]; try exact (conj Hgo1 (conj Hgo2 I)); try exact (conj Hd1 (conj Hd2 I)).
  specialize (Hfin eq_refl). specialize (Hgrow eq_refl). split_and!.
  - constructor; [|done|done]. constructor; simpl; [done..| |by rewrite last_snoc].
    split; [done|]. exists (body_bytes (told s ++ [headers_complete (header_handler.get_body_encoding h) (header_handler.get_message_size h)])),
      (u32 (s32 (header_handler.get_message_size h))), [].
    split; [apply u32_bound|]. split; [by rewrite app_nil_r|]. split; [by apply story_header|].
    split; [apply body_reset_ready|]. intros b2 Hb2. exact (body_start _ _ _ (Taking _) _ I Hb2 Hck).
  - constructor; [done|done|]. unfold to_end. simpl. lia.
  - unfold effort, to_end. simpl. rewrite Es. split; [lia|done].
Qed.

(** ** The loops *)

Lemma parsed_trans s1 s2 s3 : parsed s1 s2 -> parsed s2 s3 -> parsed s1 s3.
Proof. intros [] []. constructor; [congruence|congruence|lia]. Qed.

Lemma parse_story (s : state A) : client_ok s -> yields True (parse_response s) (parse_post s).
Proof.
  intros Hs. unfold parse_response. destruct (response_state_ (client_ s)) eqn:Es; [|by apply parse_body_story].
  eapply yields_bind; [by apply parse_header_story|]. intros [st s1] (Hs1 & Hp1 & Hst). simpl in *.
  destruct st; [by split| |by split]. destruct Hst as [He Es1].
  eapply yields_mono; [by apply parse_body_story|]. intros [st2 s2] (Hs2 & Hp2 & He2).
  split; [done|]. split; [by eapply parsed_trans|]. intros E. specialize (He2 E). lia.
Qed.

Lemma effort_nonneg (s : state A) : client_ok s -> 0 <= effort s.
Proof. intros [_ [[] _ _] _]. unfold effort, to_end. destruct (response_state_ _); lia. Qed.

Lemma responses_story fuel : forall s : state A, client_ok s -> effort s < Z.of_nat fuel ->
  yields True (parse_responses fuel s) (fun s' => client_ok s' /\ parsed s s').
Proof.
  induction fuel as [|fuel IH]; intros s Hs Hf; [pose proof (effort_nonneg s Hs); lia|]. cbn [parse_responses].
  eapply yields_bind; [by apply parse_story|]. intros [st s1] (Hs1 & Hp1 & He). simpl in *.
  destruct st; [done| |done]. specialize (He eq_refl). eapply yields_mono; [apply IH; [done|lia]|].
  intros s2 [Hs2 Hp2]. split; [done|]. by eapply parsed_trans.
Qed.

(** ** A buffer that was read *)

(** What asio stored is in the buffer from the front. *)
Lemma received_buffer b bytes : buffer_ok b -> bytes_ok bytes -> raw_size bytes <= 5000 ->
  exists raw b', rwb.memcpy (raw_of b) 0 bytes = Ok raw /\
    rwb.set_working_length (raw_size bytes) (RWB (Some raw) b.(b_using_static_buffer_) b.(working_length_)
      b.(process_position_) b.(write_end_position_) b.(write_position_)) = Ok b' /\
    buffer_ok b' /\ just_read b' /\ unprocessed b' = bytes.
Proof.
  intros [Hwf Hs Ho] Hb Hl. destruct (memcpy_fits (raw_of b) bytes) as [raw Hr]; [lia|].
  destruct (memcpy_ok _ _ _ _ Hr (wf_bytes _ Hwf) Hb) as [Hrs Hrb].
  pose proof (memcpy_append _ _ _ _ Hr) as Ht. pose proof (raw_size_nonneg bytes).
  exists raw, (RWB (Some raw) false (raw_size bytes) 0 (raw_size bytes) 0). split; [done|]. split.
  - unfold rwb.set_working_length, rwb.get_raw_buffer, rwb.set_write_end_position, rwb.set_write_position.
    cbn [p_buffer_ of_option b_using_static_buffer_]. rewrite Ho, bind_ok.
    rewrite (check_true (raw_size bytes <=? raw_size raw)), bind_ok by lia.
    cbn [working_length_ process_position_ write_end_position_ write_position_ p_buffer_ negb CHECK_CONDITION].
    rewrite bind_ok. replace (raw_size bytes <=? raw_size bytes) with true by lia. cbn [CHECK_CONDITION].
    rewrite !bind_ok. cbn [working_length_]. replace (0 <=? raw_size bytes) with true by lia. done.
  - split; [|split; [done|]].
    + constructor; [|unfold raw_of; simpl; congruence|done].
      constructor; simpl; unfold raw_of; simpl; try done; lia.
    + unfold unprocessed, content, raw_of. simpl. rewrite drop_0. exact Ht.
Qed.

(** ** The handlers *)

Lemma client_ok_kept (s s' : state A) :
  client_ok s -> s'.(cache_) = s.(cache_) -> s'.(client_).(read_buffer_) = s.(client_).(read_buffer_) ->
  s'.(client_).(header_handler_) = s.(client_).(header_handler_) ->
  s'.(client_).(header_parser_) = s.(client_).(header_parser_) -> s'.(client_).(body_parser_) = s.(client_).(body_parser_) ->
  s'.(client_).(response_state_) = s.(client_).(response_state_) ->
  s'.(told) = s.(told) \/ (exists n, unrelated n /\ s'.(told) = s.(told) ++ [n]) -> client_ok s'.
Proof.
  intros [[Hck Hl Hm Hs Hla] Hb Hc] Ec Eb Eh Ep Ebp Es Et. constructor; [|by rewrite Eb|by rewrite Ec].
  rewrite <- Ebp in Hck. rewrite <- Ep in Hl, Hla, Hs. rewrite <- Eh in Hm. rewrite <- Es in Hs, Hla. rewrite <- Ebp in Hs.
  constructor; [done..| |].
  - destruct Et as [-> |(n & Hn & ->)]; [done|]. destruct (response_state_ _); [by apply story_unrelated|].
    destruct Hs. split; [done|by apply in_body_tell].
  - destruct Et as [-> |(n & Hn & ->)]; [done|]. rewrite last_snoc. by intros [= ->].
Qed.

Ltac kept H := by apply (client_ok_kept _ _ H); simpl; auto.
Ltac kept_tell H := apply (client_ok_kept _ _ H); simpl; auto; right; eexists; split; [|reflexivity]; done.

Lemma write_requests_ok rs : forall s : state A, client_ok s -> yields True (write_requests rs s) client_ok.
Proof.
  induction rs as [|r rs IH]; intros s Hs; [done|]. cbn [write_requests]. unfold write_request.
  destruct (p_socket_ (client_ s)); [|done]. rewrite bind_ok. apply IH. kept Hs.
Qed.

Lemma const_bytes_returns b : returns (message_buffer.const_bytes b).
Proof. unfold message_buffer.const_bytes, rwb.get_const_buffer, rwb.range. returns_by_cases. Qed.

Lemma field_buffers_returns hs : returns (message_buffer.field_buffers hs).
Proof.
  induction hs as [|h hs IH]; [done|]. cbn [message_buffer.field_buffers].
  do 2 (eapply yields_bind; [apply const_bytes_returns|]; intros ? _). eapply yields_bind; [exact IH|]. done.
Qed.

Lemma make_request_ok m (s : state A) : client_ok s -> yields True (make_request m s) client_ok.
Proof.
  intros Hs. unfold make_request, message_buffer.get_const_buffers. eapply (yields_bind _ _ _ (fun _ => True)).
  - do 3 (eapply yields_bind; [apply const_bytes_returns|]; intros ? _). eapply yields_bind; [apply field_buffers_returns|]. done.
  - intros bs _. unfold write_request. destruct (p_socket_ (client_ s)); simpl; kept Hs.
Qed.

Lemma resolve_ok error iter (s : state A) : client_ok s -> yields True (handle (Resolved error iter) s) client_ok.
Proof.
  intros Hs. simpl. unfold tcp_connector.resolve_handler.
  destruct error; [|destruct iter]; simpl; [kept_tell Hs..|]. rewrite app_nil_r. kept Hs.
Qed.

Lemma connected_ok error (s : state A) : client_ok s -> yields True (handle (Connected error) s) client_ok.
Proof.
  intros Hs. simpl. destruct error; [simpl; kept_tell Hs|]. unfold connect_handler.
  eapply yields_bind; [apply write_requests_ok; kept Hs|]. intros s1 Hs1. simpl. kept Hs1.
Qed.

(** The buffer that was read, in the client. *)
Lemma with_read (s : state A) b : client_ok s -> buffer_ok b -> client_ok (with_client (with_buffer b s.(client_)) s).
Proof. intros [[] Hb Hc] Hb2. by constructor. Qed.

Lemma received_ok error bytes (s : state A) : client_ok s -> bytes_ok bytes -> raw_size bytes <= 5000 ->
  yields True (handle (Received error bytes) s) client_ok.
Proof.
  intros Hs Hb Hl. pose proof (co_buffer _ Hs) as Hbuf. cbn [handle]. unfold response_read_handler, rwb.get_raw_buffer.
  rewrite (wf_vector _ (bo_wf _ Hbuf)). cbn [of_option]. rewrite bind_ok.
  destruct (received_buffer _ _ Hbuf Hb Hl) as (raw & b' & -> & Hw & Hb' & Hj & _). rewrite bind_ok, Hw, bind_ok.
  pose proof (with_read s b' Hs Hb') as Hs1. destruct error; [simpl; kept Hs1|].
  eapply yields_bind.
  - apply responses_story; [exact Hs1|]. unfold effort, to_end, turns, rwb.get_working_length. simpl.
    destruct Hj as (-> & _ & _). pose proof (wf_working _ (bo_wf _ Hb')). destruct (response_state_ _); lia.
  - intros s2 [Hs2 _]. unfold read_some. destruct (p_socket_ _); [|done]. simpl. kept Hs2.
Qed.

(** ** The operations *)

Definition transfers (o : operation A) : Prop := match o with Write _ | Read => True | _ => False end.

(** The host is looked up, the connection is begun, or there is a socket to
    read from and write to when an operation is under way. *)
Definition pending_ok (s : state A) : Prop :=
  let c := s.(client_) in
  (exists h, s.(pending) = [Resolve h] /\ c.(p_socket_) = false) \/
  (exists e, s.(pending) = [Connect e] /\ c.(p_socket_) = false /\ c.(connector_).(tcp_connector.p_s_) = true) \/
  Forall transfers s.(pending) /\ (s.(pending) <> [] -> c.(p_socket_) = true).

Lemma without_transfers c (ps p : list (operation A)) : Forall transfers ps -> without c ps = Some p ->
  Forall transfers p /\ ps <> [] /\ match c with Resolved _ _ | Connected _ => False | _ => True end.
Proof.
  intros H. revert p. induction H as [|o ps Ho Hps IH]; intros p Hp; [done|]. simpl in Hp.
  destruct (ends o c) eqn:E; [injection Hp as <-; by destruct o, c|].
  destruct (without c ps) as [p1|] eqn:E1; [|done]. injection Hp as <-. destruct (IH p1 eq_refl) as (? & _ & ?).
  split; [by constructor|]. by destruct c.
Qed.

(** What is read or written is read from and written to a socket. *)
Lemma reading_socket (s : state A) error bytes p :
  pending_ok s -> without (Received error bytes) s.(pending) = Some p -> s.(client_).(p_socket_) = true.
Proof.
  intros [(h & -> & _)|[(e & -> & _)|[Hf Hk]]] Hw; [done|done|]. apply Hk.
  by destruct (without_transfers _ _ _ Hf Hw) as (_ & ? & _).
Qed.

Lemma write_requests_pending rs : forall s s' : state A, write_requests rs s = Ok s' ->
  (rs = [] \/ s.(client_).(p_socket_) = true) /\ s'.(client_) = s.(client_) /\ s'.(pending) = s.(pending) ++ (Write <$> rs).
Proof.
  induction rs as [|r rs IH]; intros s s' Hs; cbn [write_requests] in Hs.
  - injection Hs as <-. rewrite app_nil_r. auto.
  - unfold write_request in Hs. destruct (p_socket_ (client_ s)) eqn:E; [|done]. rewrite bind_ok in Hs.
    apply IH in Hs as (_ & -> & ->). split; [by right|]. split; [done|]. simpl. by rewrite <- app_assoc.
Qed.

Lemma read_handler_pending error bytes (s s' : state A) : response_read_handler error bytes s = Ok s' -> client_ok s ->
  bytes_ok bytes -> raw_size bytes <= 5000 ->
  s'.(client_).(p_socket_) = s.(client_).(p_socket_) /\ exists l, s'.(pending) = s.(pending) ++ l /\ Forall transfers l /\
    (error = true -> l = [] /\ s'.(told) = s.(told)).
Proof.
  intros Hr Hs Hb Hl. pose proof (co_buffer _ Hs) as Hbuf. unfold response_read_handler, rwb.get_raw_buffer in Hr.
  rewrite (wf_vector _ (bo_wf _ Hbuf)) in Hr. cbn [of_option] in Hr. rewrite bind_ok in Hr.
  destruct (received_buffer _ _ Hbuf Hb Hl) as (raw & b' & Em & Hw & Hb' & Hj & _). rewrite Em, bind_ok, Hw, bind_ok in Hr.
  pose proof (with_read s b' Hs Hb') as Hs1. destruct error.
  { injection Hr as <-. split; [done|]. exists []. rewrite app_nil_r. by split_and!. }
  apply bind_ok_inv in Hr as (s2 & H2' & Hr). unfold read_some in Hr. destruct (p_socket_ (client_ s2)) eqn:E2; [|done].
  injection Hr as <-. assert (parsed (with_client (with_buffer b' (client_ s)) s) s2) as [Hp2 Hk2 _].
  { eapply yields_ok; [eapply yields_mono; [apply (responses_story (turns b')); [exact Hs1|]|intros x [_ Hx]; exact Hx]|exact H2'].
    unfold effort, to_end, turns, rwb.get_working_length. simpl.
    destruct Hj as (-> & _ & _). pose proof (wf_working _ (bo_wf _ Hb')). destruct (response_state_ _); lia. }
  simpl in *. split; [done|]. exists [Read]. rewrite Hp2. split; [done|]. split; [by constructor|done].
Qed.

Lemma react_pending i (s s' : state A) : client_ok s -> pending_ok s -> possible i -> react i s = Some (Ok s') -> pending_ok s'.
Proof.
  intros Hs Hp Hi Hr. destruct i as [m|c]; simpl in Hr.
  - injection Hr as Hr. unfold make_request in Hr. apply bind_ok_inv in Hr as (bs & _ & Hr).
    unfold pending_ok in *. destruct (p_socket_ (client_ s)) eqn:E; simpl in Hr.
    + unfold write_request in Hr. rewrite E in Hr. injection Hr as <-. right; right. simpl. split; [|done].
      destruct Hp as [(h & _ & ?)|[(e & _ & ? & _)|[Hf _]]]; [done|done|]. apply Forall_app_2; [done|by constructor].
    + injection Hr as <-. exact Hp.
  - unfold complete in Hr. destruct (without c (pending s)) as [p|] eqn:Ew; [|done]. injection Hr as Hr.
    destruct Hp as [(h & Eh & Ek)|[(e & Ee & Ek & Es)|[Hf Hk]]].
    + rewrite Eh in Ew. destruct c as [error iter| | |]; try done. injection Ew as <-. simpl in Hr.
      unfold tcp_connector.resolve_handler in Hr. destruct error; [|destruct iter]; simpl in Hr; injection Hr as <-.
      1-2: right; right; by split.
      right; left. simpl. eauto.
    + rewrite Ee in Ew. destruct c as [|error| |]; try done. injection Ew as <-. simpl in Hr.
      destruct error; [injection Hr as <-; right; right; by split|]. unfold connect_handler in Hr.
      apply bind_ok_inv in Hr as (s1 & H1' & Hr). injection Hr as <-. apply write_requests_pending in H1' as (_ & Ec & Ep).
      right; right. simpl in *. rewrite Ec, Ep. simpl. rewrite Es. split; [|done].
      apply Forall_fmap, Forall_true. done.
    + destruct (without_transfers _ _ _ Hf Ew) as (Hf' & Hne & Hc). specialize (Hk Hne).
      assert (client_ok (State (client_ s) (cache_ s) p (told s))) as Hs' by (kept Hs).
      right; right. destruct c as [| |error|error bytes]; try done.
      * simpl in Hr. unfold request_write_handler in Hr. destruct error; [injection Hr as <-; by split|].
        unfold read_some in Hr. simpl in Hr. rewrite Hk in Hr. injection Hr as <-. simpl. split; [|done].
        apply Forall_app_2; [done|by constructor].
      * destruct Hi as [Hb Hl]. apply read_handler_pending in Hr as (Hk' & l & -> & Hl' & _); [|done..]. simpl in *.
        split; [by apply Forall_app_2|]. by rewrite Hk'.
Qed.

(** *** A second response *)

(** At the end of a header, any byte but a line feed is invalid. *)
Lemma parse_headers_refuses {R} `{i_header_receiver R} p (r : R) b option c l :
  header_read p -> wf b -> just_read b -> unprocessed b = c :: l -> c <> LF ->
  header_parser.parse_headers p r b option = Ok (http.INVALID, b, p, r).
Proof.
  intros Es Hwf (Ep & Ew & _) Hu Hc. pose proof (unprocessed_cons b c l Hwf Hu) as (Hlt & Hat & _).
  unfold header_parser.parse_headers.
  replace (3 * _ + 4)%nat with (S (3 * Z.to_nat (rwb.get_working_length b) + 3)) by lia.
  cbn [header_parser.headers_loop]. rewrite Es. unfold parse_char, rwb.get_working_length, rwb.get_process_position.
  rewrite (proj2 (Z.leb_gt _ _)) by lia. rewrite Hat, bind_ok, (proj2 (Z.eqb_neq _ _)) by done. rewrite !bind_ok.
  rewrite set_process_position_ok, bind_ok by lia. rewrite set_write_position_ok, bind_ok by (simpl; lia). simpl.
  do 3 f_equal. destruct b; simpl in *. by rewrite Ep, Ew in *.
Qed.

Lemma response_refused (s : state A) c l :
  client_ok s -> s.(client_).(p_socket_) = true -> bytes_ok (c :: l) -> raw_size (c :: l) <= 5000 ->
  last s.(told) = Some request_complete -> c <> LF ->
  exists s', response_read_handler false (c :: l) s = Ok s' /\ s'.(told) = s.(told) ++ [invalid_peer_header] /\
    s'.(pending) = s.(pending) ++ [Read].
Proof.
  intros Hs Hk Hb Hl Hlast Hc. pose proof (co_buffer _ Hs) as Hbuf.
  destruct (po_last _ _ (co_parsers _ Hs) Hlast) as [Hr Es].
  unfold response_read_handler, rwb.get_raw_buffer. rewrite (wf_vector _ (bo_wf _ Hbuf)). cbn [of_option]. rewrite bind_ok.
  destruct (received_buffer _ _ Hbuf Hb Hl) as (raw & b' & -> & Hw & Hb' & Hj & Hu). rewrite bind_ok, Hw, bind_ok.
  unfold turns. rewrite Nat.add_succ_r. cbn [parse_responses]. unfold parse_response. cbn [client_ with_client with_buffer with_response response_state_].
  rewrite Es. unfold parse_response_headers. cbn [client_ with_client with_buffer with_response header_parser_ header_handler_ read_buffer_ cache_].
  rewrite (parse_headers_refuses _ _ _ _ _ _ Hr (bo_wf _ Hb') Hj Hu Hc), !bind_ok. cbn [parse_responses].
  unfold read_some. simpl. rewrite Hk. eexists. split; [reflexivity|]. done.
Qed.

(** An error is told to nobody. *)
Lemma failure_untold (s : state A) bytes :
  client_ok s -> bytes_ok bytes -> raw_size bytes <= 5000 ->
  exists s', response_read_handler true bytes s = Ok s' /\ s'.(told) = s.(told) /\ s'.(pending) = s.(pending).
Proof.
  intros Hs Hb Hl. pose proof (co_buffer _ Hs) as Hbuf. unfold response_read_handler, rwb.get_raw_buffer.
  rewrite (wf_vector _ (bo_wf _ Hbuf)). cbn [of_option]. rewrite bind_ok.
  destruct (received_buffer _ _ Hbuf Hb Hl) as (raw & b' & -> & Hw & _). rewrite bind_ok, Hw, bind_ok. eauto.
Qed.

End exchange.

(** ** Any input *)

Section react.
Context {A : Type}.

Ltac kept H := by apply (client_ok_kept _ _ _ _ H); simpl; auto.
Ltac kept_tell H := apply (client_ok_kept _ _ _ _ H); simpl; auto; right; eexists; split; [|reflexivity]; done.

(** A written request makes the client forget the body it is in. *)
Lemma forget_body z w (s : state A) : client_ok z w s -> client_ok z (S w) (with_client (with_state PARSE_RESPONSE_HEADER s.(client_)) s).
Proof.
  intros [[Hck Hl Hm Hs Hla] Hb Hc]. constructor; [|done|done]. constructor; simpl; try done.
  - destruct (response_state_ _); [by eapply story_forget|]. destruct Hs as (_ & base & n & out & _ & _ & Hs & _). by eapply story_forget.
  - intros Hl2. by destruct (Hla Hl2).
Qed.

Lemma written_ok z w error (s : state A) : client_ok z w s ->
  yields True (handle (Written error) s) (client_ok z (if error then w else S w)).
Proof.
  intros Hs. simpl. unfold request_write_handler. destruct error; [simpl; kept_tell Hs|].
  pose proof (forget_body z w s Hs) as Hs1. unfold read_some. simpl. destruct (p_socket_ _); [|done]. simpl. kept Hs1.
Qed.

(** Whatever happens, the client keeps its invariant. *)
Lemma react_ok z w i (s : state A) m : client_ok z w s -> possible i -> react i s = Some m ->
  yields True m (client_ok z (written [i] + w)).
Proof.
  intros Hs Hi Hm. destruct i as [message|c]; simpl in Hm; [injection Hm as <-; by apply make_request_ok|].
  unfold complete in Hm. destruct (without c (pending s)) as [p|]; [|done]. injection Hm as <-.
  assert (client_ok z w (State (client_ s) (cache_ s) p (told s))) as Hs' by (kept Hs).
  destruct c as [| |[]|]; [by apply resolve_ok|by apply connected_ok|exact (written_ok z w true _ Hs')|exact (written_ok z w false _ Hs')|]. destruct Hi. by apply received_ok.
Qed.

End react.

(** ** The start *)

(** The sizes of the client's response and of its pool. *)
Definition client_sizes (name value : Z) : sizes := Sizes 15 15 15 name value.

Lemma client_start {A} host port n name value encoding (s : state A) :
  0 <= name < 2 ^ 31 -> 0 <= value < 2 ^ 31 ->
  make host port (cache.make n name value) encoding = Ok s -> client_ok (client_sizes name value) 0 s /\ pending_ok s.
Proof.
  intros Hn Hv. unfold make, header_handler.make. cbn [tcp_connector.make].
  set (z := client_sizes name value). set (h0 := header_handler.HeaderHandler _ _ _ _ _ _ _). intros Hm.
  assert (cache_ok z (cache.make n name value)) as Hc
    by (apply Forall_replicate, hb_ok_kept, (hb_make_ok z); done).
  assert (message_kept z (header_handler.message_buffer_ h0)) as Hk
    by (constructor; try done; apply stored_kept, stored_make; split; discriminate || reflexivity).
  pose proof (reset_yields z h0 _ Hk Hc) as Hy. apply bind_ok_inv in Hm as ([h c] & Hr & [= <-]). rewrite Hr in Hy.
  destruct Hy as [Hh Hc']. split; [|by left; eexists]. constructor; [|constructor; try done|exact Hc'].
  - constructor; try done. by constructor.
  - by apply make_wf.
Qed.

Lemma runs_ok {A} host port n name value encoding (s0 : state A) is_ s :
  0 <= name < 2 ^ 31 -> 0 <= value < 2 ^ 31 ->
  make host port (cache.make n name value) encoding = Ok s0 -> runs s0 is_ s ->
  client_ok (client_sizes name value) (written is_) s /\ pending_ok s.
Proof.
  intros Hn Hv Hm. induction 1 as [|is_ s i s' _ [Hs Hp] Hi Hr]; [by eapply client_start|].
  split; [|by eapply react_pending]. rewrite written_snoc. by apply (react_ok _ _ i s _ Hs Hi Hr).
Qed.

(** * Properties *)

(** C30: Whatever is asked of the client and however its operations end, what it
    tells its user of responses is a story: a header, then bytes of a body
    framed as that header announced, and the end of the response only when the
    body is whole.  A body that is under way is forgotten at most once for each
    request that was written.  Every call and every completion is handled in
    finitely many steps.  A body that ends with the connection is never complete. *)
Theorem responses_told {A} host port n name value encoding (s0 : state A) is_ s :
  0 <= name < 2 ^ 31 -> 0 <= value < 2 ^ 31 ->
  make host port (cache.make n name value) encoding = Ok s0 -> runs s0 is_ s ->
  (exists body, story (written is_) s.(told) body) /\
  (forall i m, possible i -> react i s = Some m -> returns m).
Proof.
  intros Hn Hv Hm Hr. destruct (runs_ok _ _ _ _ _ _ _ _ _ Hn Hv Hm Hr) as [Hs _]. split.
  - pose proof (po_state _ _ _ _ (co_parsers _ _ _ Hs)) as Hst. destruct (response_state_ (client_ s)); [by eexists|].
    destruct Hst as (_ & base & m & out & _ & _ & Hst & _). by eexists.
  - intros i m Hi Ht. by eapply yields_mono; [eapply react_ok|].
Qed.

(** C31: A connection serves one response: when a response was complete and more
    bytes come that do not begin with a line feed, the client refuses them as
    an invalid header and goes on reading.  When a read fails, and so when the
    connection ends, it tells nobody and reads no more. *)
Theorem one_response_served {A} host port n name value encoding (s0 : state A) is_ s :
  0 <= name < 2 ^ 31 -> 0 <= value < 2 ^ 31 ->
  make host port (cache.make n name value) encoding = Ok s0 -> runs s0 is_ s ->
  (forall c l p, last s.(told) = Some request_complete -> c <> LF ->
    possible (A := A) (Completes (Received false (c :: l))) -> without (Received false (c :: l)) s.(pending) = Some p ->
    exists s', react (Completes (Received false (c :: l))) s = Some (Ok s') /\
      s'.(told) = s.(told) ++ [invalid_peer_header] /\ s'.(pending) = p ++ [Read]) /\
  (forall bytes p, possible (A := A) (Completes (Received true bytes)) ->
    without (Received true bytes) s.(pending) = Some p ->
    exists s', react (Completes (Received true bytes)) s = Some (Ok s') /\
      s'.(told) = s.(told) /\ s'.(pending) = p).
Proof.
  intros Hn Hv Hm Hr. destruct (runs_ok _ _ _ _ _ _ _ _ _ Hn Hv Hm Hr) as [Hs Hp].
  assert (forall p, client_ok (client_sizes name value) (written is_) (State (client_ s) (cache_ s) p (told s))) as Hs'
    by (intros p; by destruct Hs; constructor).
  split.
  - intros c l p Hl Hc [Hb Hsz] Hw.
    destruct (response_refused _ _ (State (client_ s) (cache_ s) p (told s)) c l (Hs' p)) as (s' & Hr' & Ht & Hpd); try done.
    { exact (reading_socket s _ _ _ Hp Hw). }
    exists s'. split; [|done]. simpl. unfold complete. rewrite Hw. by rewrite <- Hr'.
  - intros bytes p [Hb Hsz] Hw.
    destruct (failure_untold _ _ (State (client_ s) (cache_ s) p (told s)) bytes (Hs' p)) as (s' & Hr' & Ht & Hpd); try done.
    exists s'. split; [|done]. simpl. unfold complete. rewrite Hw. by rewrite <- Hr'.
Qed.

(** A host that is found, a connection, a request, and a response in three
    reads; then a second response. *)
Definition sample_start : res (state Z) := make (str "baus.net") 80 (cache.make 100 64 64) http.NONE.
Definition sample_inputs : list (input Z) :=
  [Request HeaderStore.sample_message; Completes (Resolved false [(7, 0)]); Completes (Connected false);
   Completes (Written false);
   Completes (Received false (str "HTTP/1.1 200 OK" ++ [13; 10] ++ str "Content-Le"));
   Completes (Received false (str "ngth: 5" ++ [13; 10; 13; 10] ++ str "hel"));
   Completes (Received false (str "lo"))].

Fixpoint reacts (is_ : list (input Z)) (s : state Z) : option (state Z) :=
  match is_ with
  | [] => Some s
  | i :: is_ => match react i s with Some (Ok s) => reacts is_ s | _ => None end
  end.

(** What is told at the end, and what is under way. *)
Definition end_of (start : res (state Z)) (is_ : list (input Z)) : option (list notice * list (operation Z)) :=
  match start with Ok s => (fun s => (told s, pending s)) <$> reacts is_ s | _ => None end.

Definition sample_notices : list notice :=
  [headers_complete http.CONTENT_LENGTH 5; accept_peer_body (str "hel"); accept_peer_body (str "lo"); request_complete].

Lemma sample_ends : end_of sample_start sample_inputs = Some (sample_notices, [Read]).
Proof. vm_compute. reflexivity. Qed.

Lemma reacts_runs is_ : forall s0 before s s', Forall possible is_ -> runs s0 before s -> reacts is_ s = Some s' ->
  runs s0 (before ++ is_) s'.
Proof.
  induction is_ as [|i is_ IH]; intros s0 before s s' Hp Hr Hs; simpl in Hs.
  - injection Hs as <-. by rewrite app_nil_r.
  - inversion_clear Hp as [|? ? Hi Hp']. destruct (react i s) as [[s1| | |]|] eqn:E; try done.
    rewrite cons_middle, app_assoc. apply (IH s0 _ s1); [done| |done]. by eapply runs_snoc.
Qed.

Lemma sample_possible : Forall possible sample_inputs.
Proof.
  repeat apply Forall_cons_2; try exact I; try constructor; try (unfold raw_size; simpl; lia); forall_concrete.
Qed.

Lemma end_runs start is_ x : Forall possible is_ -> end_of start is_ = Some x ->
  exists s0 s, start = Ok s0 /\ runs s0 is_ s /\ told s = x.1 /\ pending s = x.2.
Proof.
  intros Hp. unfold end_of. destruct start as [s0| | |]; [|done..]. destruct (reacts is_ s0) as [s|] eqn:E; [|done].
  intros [= <-]. exists s0, s. split_and!; try done. apply (reacts_runs is_ s0 [] s0); [done|constructor|done].
Qed.

Lemma asio_sample_runs : exists s0 s, sample_start = Ok s0 /\ runs s0 sample_inputs s /\
  told s = sample_notices /\ pending s = [Read].
Proof. exact (end_runs sample_start sample_inputs _ sample_possible sample_ends). Qed.

Lemma responses_told_witness : exists s, told (A := Z) s = sample_notices /\ exists body, story 1 (told s) body.
Proof.
  destruct asio_sample_runs as (s0 & s & Hs & Hr & Ht & _). exists s. split; [exact Ht|].
  apply (responses_told (str "baus.net") 80 100 64 64 http.NONE s0 sample_inputs s); [lia|lia|exact Hs|exact Hr].
Defined.

Lemma one_response_served_witness : exists s s', told (A := Z) s = sample_notices /\
  react (Completes (Received false (str "HTTP"))) s = Some (Ok s') /\
  told s' = sample_notices ++ [invalid_peer_header] /\ pending s' = [Read].
Proof.
  destruct asio_sample_runs as (s0 & s & Hs & Hr & Ht & Hp). exists s.
  destruct (one_response_served (str "baus.net") 80 100 64 64 http.NONE s0 sample_inputs s) as [Hone _];
    [lia|lia|exact Hs|exact Hr|].
  destruct (Hone 72 (str "TTP") []) as (s' & H1' & H2' & H3').
  - rewrite Ht. reflexivity.
  - unfold LF. lia.
  - split; [forall_concrete|unfold raw_size; simpl; lia].
  - rewrite Hp. reflexivity.
  - exists s'. split; [exact Ht|]. split; [exact H1'|]. split; [by rewrite H2', Ht|exact H3'].
Defined.

(** * The crawler *)

(** The request on the wire. *)
Example crawler_request :
  (('(m, _) ← crawler.build_request (message_buffer.make true 3 256 10 50) (cache.make 3 256 256);
    l ← message_buffer.get_const_buffers m; Ok (concat l)) : res (list Z)) =
  Ok (str "GET / HTTP/1.1" ++ [13; 10] ++ str "Host: feeds.baus.net" ++ [13; 10] ++
      str "User-Agent: Feed_flow/1.1.1" ++ [13; 10] ++ str "Connection: close" ++ [13; 10; 13; 10]).
Proof. vm_compute. reflexivity. Qed.

(** The feed is everything that was handed on since the start, of whatever
    response. *)
Lemma crawler_feed told h :
  crawler.feed_ (fold_left crawler.notify told h) = crawler.feed_ h ++ body_bytes told.
Proof.
  revert h. induction told as [|n told IH]; intros h; simpl; [by rewrite app_nil_r|]. rewrite IH.
  change (body_bytes (n :: told)) with (bytes_of n ++ body_bytes told). by destruct n; simpl; rewrite ?app_assoc, ?app_nil_r.
Qed.

(** The constructor with an endpoint uses the socket before there is one. *)
Lemma endpoint_constructor_undefined {A} (e : endpoint A) port : tcp_connector.make_endpoint e port = Undef.
Proof. reflexivity. Qed.
