(* ===== verification/ClientHandler.v ===== *)
(** A connection that is begun by this side, client/client_handler.cpp: the
    socket, its event, and a client behind the interface of
    client/i_client.hpp to which it gives the connection when the poller
    reports an event.  The object deletes itself. *)
From S2P Require Import Prelude Status ReadWriteBuffer Os Connection Net Poller.

(** * The interfaces *)

(** client/i_client.hpp; the connection is passed by reference. *)
Class i_client (K C : Type) := {
  client_handle_stream : K -> C -> connection.t -> res (socketlib.STATUS * K * C * connection.t);
  client_connect : K -> C -> connection.t -> res (K * C * connection.t);
  client_timeout : C -> C;
  client_shutdown : C -> res C;
  client_connect_failed : C -> C;
  client_dns_failed : C -> C
}.

(** [i_fp_monitor] of client/client_handler.hpp: it is told which descriptors
    are in use. *)
Class i_fp_monitor (M : Type) := {
  add_fd : M -> Z -> M;
  remove_fd : M -> Z -> M
}.

Module client_handler.

(** The poller has no state. *)
Record t {C : Type} := ClientHandler {
  p_client_ : option C;
  server_data_ : connection.t;
  server_event_ : event.t;
  server_timeout_seconds_ : Z
}.
Arguments t C : clear implicits.

Definition EV_TIMEOUT : Z := 1.

(** [this] is alive, or was deleted. *)
Inductive life := Alive | Deleted.

#[export] Instance life_eq_dec : EqDecision life.
Proof. solve_decision. Defined.

Section handler.
Context {K A C M : Type} `{net K A, !i_client K C, !i_fp_monitor M}.

(** The kernel, the object and the monitor it points to. *)
Record state := State {
  kernel_ : K;
  handler_ : t C;
  p_fp_monitor_ : option M
}.

Definition with_client (c : option C) (s : state) : state :=
  let h := s.(handler_) in
  State s.(kernel_) (ClientHandler C c h.(server_data_) h.(server_event_) h.(server_timeout_seconds_))
    s.(p_fp_monitor_).
Definition with_data (k : K) (d : connection.t) (s : state) : state :=
  let h := s.(handler_) in
  State k (ClientHandler C h.(p_client_) d h.(server_event_) h.(server_timeout_seconds_)) s.(p_fp_monitor_).
Definition with_event (k : K) (e : event.t) (s : state) : state :=
  let h := s.(handler_) in
  State k (ClientHandler C h.(p_client_) h.(server_data_) e h.(server_timeout_seconds_)) s.(p_fp_monitor_).
Definition with_monitor (m : option M) (s : state) : state := State s.(kernel_) s.(handler_) m.

Definition data (s : state) : connection.t := s.(handler_).(server_data_).
Definition event_of (s : state) : event.t := s.(handler_).(server_event_).

(** [if(p_client_.get()) p_client_->f();] *)
Definition tell (f : C -> C) (s : state) : state := with_client (f <$> s.(handler_).(p_client_)) s.

(** The constructor; [server_event] is the address of the library's
    structure inside the object. *)
Definition make (server_event buffer_length server_timeout_seconds : Z) (p_client : option C) : t C :=
  ClientHandler C p_client (connection.reset (connection.make buffer_length)) (event.make server_event)
    server_timeout_seconds.

Definition monitor_fd (f : M -> Z -> M) (s : state) : state :=
  with_monitor ((fun m => f m (connection.fd (data s))) <$> s.(p_fp_monitor_)) s.

(** [shutdown] ends in [delete this]: nothing of the object is used after it. *)
Definition shutdown (s : state) : res state :=
  s ← (if negb (connection.fd (data s) =? -1) then
         k ← (if poller.pending A s.(kernel_) (event_of s) then poller.del_event A s.(kernel_) (event_of s)
              else Ok s.(kernel_));
         let s := monitor_fd remove_fd (with_data (sys_close (A := A) k (connection.fd (data s))) (data s) s) in
         let '(k, d) := connection.set_fd s.(kernel_) (-1) (data s) in
         Ok (with_data k d s)
       else Ok s);
  match s.(handler_).(p_client_) with
  | Some c => c ← client_shutdown (K := K) c; Ok (with_client (Some c) s)
  | None => Ok s
  end.

(** The client is not checked for null. *)
Definition handle_server_connect (s : state) : res (state * socketlib.STATUS) :=
  let '(k, error) := sys_getsockopt_error (A := A) s.(kernel_) (connection.fd (data s)) in
  if bool_decide (error = Some 0) then
    let d := connection.set_state connection.CONNECTED (data s) in
    c ← of_option s.(handler_).(p_client_);
    '(k, c, d) ← client_connect k c d;
    Ok (with_client (Some c) (with_data k d s), socketlib.COMPLETE)
  else Ok (with_data k (data s) s, socketlib.CONNECTION_FAILED).

(** The monitor is told of the descriptor before the check; [this] is the
    address of the object. *)
Definition initiate_server_connect (this : Z) (server_addr : A * Z) (s : state)
    : res (life * state * socketlib.STATUS) :=
  let '(k, new_fd) := sys_socket (A := A) s.(kernel_) in
  let '(k, d) := connection.set_fd k new_fd (data s) in
  let s := monitor_fd add_fd (with_data k d s) in
  if connection.fd d =? -1 then
    s ← shutdown s; Ok (Deleted, s, socketlib.CONNECTION_FAILED)
  else
    let k := connection.set_nonblocking k d in
    match sys_connect k (connection.fd d) server_addr with
    | (k, inr EINPROGRESS) =>
        let '(k, ev) := event.set (A := A) (connection.fd d) this k (event_of s) in
        k ← poller.add_event A k ev (Z.lor EV_READ EV_WRITE) s.(handler_).(server_timeout_seconds_);
        let s := with_event k ev s in
        Ok (Alive, with_data k (connection.set_state connection.CONNECTING (data s)) s, socketlib.COMPLETE)
    | (k, _) =>
        s ← shutdown (tell (client_connect_failed (K := K)) (with_data k d s));
        Ok (Deleted, s, socketlib.CONNECTION_FAILED)
    end.

Definition handle_timeout (fd : Z) (s : state) : res state :=
  _ ← CHECK_CONDITION_VAL (fd =? connection.fd (data s));
  shutdown (tell (client_timeout (K := K)) s).

Definition handle_pollin (fd : Z) (s : state) : res state :=
  _ ← CHECK_CONDITION_VAL (fd =? connection.fd (data s));
  Ok (with_data s.(kernel_) (connection.set_ready_to_read true (data s)) s).

Definition handle_pollout (fd : Z) (s : state) : res state :=
  _ ← CHECK_CONDITION_VAL (fd =? connection.fd (data s));
  Ok (with_data s.(kernel_) (connection.set_ready_to_write true (data s)) s).

Definition check_for_server_connect (fd : Z) (s : state) : res (state * socketlib.STATUS) :=
  _ ← CHECK_CONDITION_VAL (fd =? connection.fd (data s));
  if bool_decide (connection.state (data s) = connection.CONNECTING) then handle_server_connect s
  else Ok (s, socketlib.INCOMPLETE).

Definition clone (s : state) : option (t C) := None.

Definition handle_stream (s : state) : res (state * socketlib.STATUS) :=
  match s.(handler_).(p_client_) with
  | Some c =>
      '(st, k, c, d) ← client_handle_stream s.(kernel_) c (data s);
      Ok (with_client (Some c) (with_data k d s), st)
  | None => Ok (s, socketlib.DENY)
  end.

Definition get_client (s : state) : option C := s.(handler_).(p_client_).
Definition get_socket_data (s : state) : connection.t := data s.
Definition dns_failed (s : state) : state := tell (client_dns_failed (K := K)) s.

(** ** The loop of [handle_event] *)

(** What a turn comes to: another one, the end of the loop, the end of the
    object. *)
Inductive turn_end := CONTINUE | BREAK | RETURN.

Definition stream_status (status : socketlib.STATUS) (s : state) : res (turn_end * state) :=
  match status with
  | socketlib.COMPLETE | socketlib.DENY | socketlib.DEST_CLOSED => s ← shutdown s; Ok (RETURN, s)
  | socketlib.READ_INCOMPLETE =>
      if connection.ready_to_read (data s) then Ok (CONTINUE, s)
      else if negb (connection.open_for_read (data s)) then s ← shutdown s; Ok (RETURN, s)
      else Ok (BREAK, s)
  | socketlib.WRITE_INCOMPLETE =>
      if negb (connection.open_for_write (data s)) then s ← shutdown s; Ok (RETURN, s)
      else _ ← CHECK_CONDITION (negb (connection.ready_to_write (data s))); Ok (BREAK, s)
  | _ => _ ← CHECK_CONDITION false; Ok (BREAK, s)
  end.

Definition turn (s : state) : res (turn_end * state) :=
  '(k, d, _) ← connection.non_blocking_read s.(kernel_) (data s);
  '(s, status) ← handle_stream (with_data k d s);
  stream_status status s.

(** [RETURN] ends the call, [BREAK] goes on behind the loop. *)
Fixpoint event_loop (fuel : nat) (s : state) : res (life * state) :=
  match fuel with
  | O => NoFuel
  | S fuel =>
      '(x, s) ← turn s;
      match x with
      | CONTINUE => event_loop fuel s
      | BREAK => Ok (Alive, s)
      | RETURN => Ok (Deleted, s)
      end
  end.

(** The events the socket has to wait for. *)
Definition wanted (d : connection.t) : Z :=
  Z.lor (if negb (connection.ready_to_read d) && connection.open_for_read d then EV_READ else 0)
        (if negb (connection.ready_to_write d) && connection.open_for_write d then EV_WRITE else 0).

Definition wait (s : state) : res state :=
  let server_ev := wanted (data s) in
  if negb (server_ev =? 0) then
    k ← poller.add_event A s.(kernel_) (event_of s) server_ev s.(handler_).(server_timeout_seconds_);
    Ok (with_data k (data s) s)
  else _ ← CHECK_CONDITION_VAL false; Ok s.

(** The value is always 0. *)
Definition handle_event (fuel : nat) (fd revents : Z) (s : state) : res (life * state) :=
  if negb (Z.land revents EV_TIMEOUT =? 0) then s ← handle_timeout fd s; Ok (Deleted, s)
  else
    s ← (if negb (Z.land revents EV_WRITE =? 0) then handle_pollout fd s else Ok s);
    s ← (if negb (Z.land revents EV_READ =? 0) then handle_pollin fd s else Ok s);
    '(s, status) ← check_for_server_connect fd s;
    match status with
    | socketlib.COMPLETE | socketlib.INCOMPLETE =>
        '(l, s) ← event_loop fuel s;
        match l with
        | Alive => s ← wait s; Ok (Alive, s)
        | Deleted => Ok (Deleted, s)
        end
    | _ => s ← shutdown (tell (client_connect_failed (K := K)) s); Ok (Deleted, s)
    end.

End handler.
Arguments state K C M : clear implicits.
End client_handler.
