(* ===== verification/HttpClient.v ===== *)
(** The HTTP client of http/client/http_client_handler.cpp over the interface
    of its user, http/client/i_http_client.hpp: it sends a request, reads the
    response from the buffer of the connection and hands the body to the
    user.  The request and the response are messages of the user, to which
    the handler refers. *)
From stdpp Require Import list.
From S2P Require Import Prelude Status ReadWriteBuffer HttpLex Interfaces HeaderStore HeaderHandler.
From S2P Require Import HeaderParser BodyParsers Os Connection Net Poller ClientHandler HeaderWriter.

(** * The user

    [get_request] and [get_response] return references: what is assigned
    through them is a second pair of operations.  [headers_complete] may read
    the response. *)
Class i_http_client (U : Type) := {
  invalid_header : U -> U;
  invalid_body : U -> U;
  user_dns_failed : U -> U;
  user_connect_failed : U -> U;
  user_timeout : U -> U;
  user_shutdown : U -> U;
  send_header_failed : U -> U;
  send_body_failed : U -> U;
  headers_complete : U -> U;
  handle_body : U -> read_write_buffer -> bool -> res (U * read_write_buffer * http.STATUS);
  request_complete : U -> U;
  get_request : U -> message_buffer.t;
  assign_request : message_buffer.t -> U -> U;
  get_response : U -> message_buffer.t;
  assign_response : message_buffer.t -> U -> U
}.

(** * The handler *)
Module http_client_handler.

Inductive MESSAGE_STATE := PUSH_HEADER | PUSH_BODY | PARSE_RESPONSE_HEADER | PARSE_BODY.

#[export] Instance MESSAGE_STATE_eq_dec : EqDecision MESSAGE_STATE.
Proof. solve_decision. Defined.

(** [connected_]: the writer's two pointers were set, to the user's request
    and to the connection, by [connect].  The message inside
    [header_handler_] stands for the user's response: it is loaded before and
    stored after every use. *)
Record t {U : Type} := HttpClientHandler {
  header_writer_ : header_writer.t;
  connected_ : bool;
  endline_buf_ : read_write_buffer;
  message_state_ : MESSAGE_STATE;
  header_handler_ : header_handler.t;
  header_parser_ : header_parser.t;
  body_parser_ : body_parser.t;
  p_http_client_ : U
}.
Arguments t U : clear implicits.

(** Assignments to the members. *)
Section members.
Context {U : Type}.

Definition with_writer (w : header_writer.t) (connected : bool) (u : U) (h : t U) : t U :=
  HttpClientHandler U w connected h.(endline_buf_) h.(message_state_) h.(header_handler_)
    h.(header_parser_) h.(body_parser_) u.
Definition with_endline (b : read_write_buffer) (h : t U) : t U :=
  HttpClientHandler U h.(header_writer_) h.(connected_) b h.(message_state_) h.(header_handler_)
    h.(header_parser_) h.(body_parser_) h.(p_http_client_).
Definition with_state (s : MESSAGE_STATE) (h : t U) : t U :=
  HttpClientHandler U h.(header_writer_) h.(connected_) h.(endline_buf_) s h.(header_handler_)
    h.(header_parser_) h.(body_parser_) h.(p_http_client_).
Definition with_parser (p : header_parser.t) (hh : header_handler.t) (u : U) (h : t U) : t U :=
  HttpClientHandler U h.(header_writer_) h.(connected_) h.(endline_buf_) h.(message_state_) hh p
    h.(body_parser_) u.
Definition with_body_parser (p : body_parser.t) (u : U) (h : t U) : t U :=
  HttpClientHandler U h.(header_writer_) h.(connected_) h.(endline_buf_) h.(message_state_)
    h.(header_handler_) h.(header_parser_) p u.

(** A call of the user. *)
Definition notify (f : U -> U) (h : t U) : t U :=
  with_body_parser h.(body_parser_) (f h.(p_http_client_)) h.

End members.

Section handler.
Context {K : Type} `{os K} {U : Type} `{i_http_client U}.

(** [header_handler_], whose message is the user's response, *)
Definition response_handler (h : t U) : header_handler.t :=
  header_handler.with_message (get_response h.(p_http_client_)) h.(header_handler_).

(** and what the handler did to it. *)
Definition with_response (p : header_parser.t) (hh : header_handler.t) (h : t U) : t U :=
  with_parser p hh (assign_response (header_handler.get_message_buffer hh) h.(p_http_client_)) h.

(** The constructor; [body_encoding], [i] and [s] are the members of the
    body parser and of the writer that their constructors leave unset. *)
Definition make (p_http_client : U) (body_encoding : http.BODY_ENCODING) (i : Z)
    (s : header_writer.WRITE_HEADER_STATE) (c : header_cache) : res (t U * header_cache) :=
  '(hh, c) ← header_handler.make (get_response p_http_client) RESPONSE c;
  let h := HttpClientHandler U (header_writer.make i s) false
             (rwb.reset (rwb.make_static (Some strings_.(endline_)))) PUSH_HEADER hh
             header_parser.make (body_parser.make body_encoding)
             (assign_response (header_handler.get_message_buffer hh) p_http_client) in
  '(hh, c) ← header_handler.reset (response_handler h) c;
  Ok (with_response (header_parser.reset h.(header_parser_)) hh h, c).

(** The copy constructor ends in a check that does not hold. *)
Definition copy (rhs : t U) : res (t U) := _ ← CHECK_CONDITION false; Ok rhs.

Definition connect (h : t U) : t U :=
  with_writer (header_writer.reset h.(header_writer_)) true h.(p_http_client_) h.

Definition shutdown (h : t U) (c : header_cache) : res (t U * header_cache) :=
  '(hh, c) ← header_handler.reset (response_handler h) c;
  Ok (notify user_shutdown (with_response h.(header_parser_) hh h), c).

Definition timeout (h : t U) : t U := notify user_timeout h.
Definition connect_failed (h : t U) : t U := notify user_connect_failed h.
Definition dns_failed (h : t U) : t U := notify user_dns_failed h.

Definition get_header_value (header_name : list Z) (h : t U) : res (option (list Z)) :=
  let m := header_handler.get_message_buffer (response_handler h) in
  i ← message_buffer.get_header_index_by_name header_name m;
  match i with
  | Some index_of_header =>
      b ← message_buffer.get_field_value index_of_header m;
      v ← rwb.append_to_string [] b;
      Ok (Some v)
  | None => Ok None
  end.

(** ** The receiver of the body *)
#[export] Instance body_receiver : i_body_receiver U := {
  set_body_encoding u _ := u;
  set_body u body b_complete := handle_body u body b_complete;
  set_chunk_size u _ := Ok u;
  forward_chunk_size u := Ok (u, http.COMPLETE);
  forward_chunk_trailer u := Ok (u, http.COMPLETE)
}.

(** ** The states of an exchange *)

(** What the loop works on: the kernel, the handler, the connection and the
    pool of headers. *)
Record state := State {
  kernel_ : K;
  handler_ : t U;
  socket_ : connection.t;
  cache_ : header_cache
}.

Definition with_handler (h : t U) (s : state) : state := State s.(kernel_) h s.(socket_) s.(cache_).
Definition tell (f : U -> U) (s : state) : state := with_handler (notify f s.(handler_)) s.

(** One turn of the [for(;;)]: [Some] status returns, [None] goes on. *)
Definition outcome : Type := option socketlib.STATUS * state.

(** The writer's connection is the one [handle_stream] is given: the only
    caller passes the same one to [connect]. *)
Definition do_push_header (s : state) : res outcome :=
  let h := s.(handler_) in
  let u := h.(p_http_client_) in
  if negb h.(connected_) then Undef
  else
    '(k, w, m, c, status) ← header_writer.write_header s.(kernel_) h.(header_writer_) (get_request u) s.(socket_);
    let h := with_writer w true (assign_request m u) h in
    match status with
    | socketlib.COMPLETE => Ok (None, State k (with_state PUSH_BODY h) c s.(cache_))
    | socketlib.INCOMPLETE => Ok (Some socketlib.WRITE_INCOMPLETE, State k h c s.(cache_))
    | _ => Ok (Some status, tell send_header_failed (State k h c s.(cache_)))
    end.

Definition do_push_body (s : state) : res outcome :=
  let h := s.(handler_) in
  '(k, c, b, status) ← connection.non_blocking_write s.(kernel_) s.(socket_) h.(endline_buf_);
  let h := with_endline b h in
  match status with
  | socketlib.COMPLETE => Ok (None, State k (with_state PARSE_RESPONSE_HEADER h) c s.(cache_))
  | socketlib.INCOMPLETE => Ok (Some socketlib.WRITE_INCOMPLETE, State k h c s.(cache_))
  | _ => Ok (Some status, tell send_body_failed (State k h c s.(cache_)))
  end.

Definition do_parse_response_header (s : state) : res outcome :=
  let h := s.(handler_) in
  '(parse_status, b, p, (hh, cache)) ←
    header_parser.parse_headers h.(header_parser_) (response_handler h, s.(cache_))
      (connection.read_buffer s.(socket_)) header_parser.LOOSE;
  let s := State s.(kernel_) (with_response p hh h) (connection.set_read_buffer b s.(socket_)) cache in
  match parse_status with
  | http.COMPLETE =>
      let h := with_state PARSE_BODY s.(handler_) in
      let bp := body_parser.reset (header_handler.get_body_encoding h.(header_handler_))
                  (header_handler.get_message_size h.(header_handler_)) h.(body_parser_) in
      Ok (None, tell headers_complete (with_handler (with_body_parser bp h.(p_http_client_) h) s))
  | http.INVALID | http.DATAOVERFLOW => Ok (Some socketlib.DENY, tell invalid_header s)
  | _ =>
      if negb (connection.open_for_read s.(socket_)) then Ok (Some socketlib.DENY, tell invalid_header s)
      else Ok (Some socketlib.READ_INCOMPLETE, s)
  end.

(** A status other than the two that are errors and [INCOMPLETE] is taken
    for the end of the body. *)
Definition do_parse_body (s : state) : res outcome :=
  let h := s.(handler_) in
  '(parse_status, b, p, u) ←
    body_parser.parse_body h.(body_parser_) h.(p_http_client_) (connection.read_buffer s.(socket_));
  let h := with_body_parser p u h in
  let s := State s.(kernel_) h (connection.set_read_buffer b s.(socket_)) s.(cache_) in
  match parse_status with
  | http.INVALID | http.DATAOVERFLOW => Ok (Some socketlib.DENY, tell invalid_body s)
  | http.INCOMPLETE =>
      if negb (connection.open_for_read s.(socket_)) then
        if bool_decide (body_parser.encoding p = http.END_CONNECTION) then
          '(u, _, _) ← handle_body u rwb.make_default true;
          Ok (Some socketlib.COMPLETE, tell request_complete (with_handler (with_body_parser p u h) s))
        else Ok (Some socketlib.DENY, tell invalid_body s)
      else Ok (Some socketlib.READ_INCOMPLETE, s)
  | _ => Ok (Some socketlib.COMPLETE, tell request_complete s)
  end.

Definition turn (s : state) : res outcome :=
  match s.(handler_).(message_state_) with
  | PUSH_HEADER => do_push_header s
  | PUSH_BODY => do_push_body s
  | PARSE_RESPONSE_HEADER => do_parse_response_header s
  | PARSE_BODY => do_parse_body s
  end.

Fixpoint stream_loop (fuel : nat) (s : state) : res (socketlib.STATUS * state) :=
  match fuel with
  | O => NoFuel
  | S fuel =>
      '(o, s) ← turn s;
      match o : option socketlib.STATUS with
      | Some st => Ok (st, s)
      | None => stream_loop fuel s
      end
  end.

(** Every turn that goes on moves to the next of the four states. *)
Definition handle_stream (s : state) : res (socketlib.STATUS * state) := stream_loop 4 s.

End handler.
End http_client_handler.

#[export] Existing Instances http_client_handler.body_receiver http_client_handler.MESSAGE_STATE_eq_dec.

(** The handler behind the interface of client/i_client.hpp, with the pool of
    headers that the user's messages draw from. *)
#[export] Instance http_client {K} `{os K} {U} `{i_http_client U}
    : i_client K (http_client_handler.t U * header_cache) := {
  client_handle_stream k hc d :=
    '(st, s) ← http_client_handler.handle_stream (http_client_handler.State k hc.1 d hc.2);
    Ok (st, http_client_handler.kernel_ s, (http_client_handler.handler_ s, http_client_handler.cache_ s),
        http_client_handler.socket_ s);
  client_connect k hc d := Ok (k, (http_client_handler.connect hc.1, hc.2), d);
  client_timeout hc := (http_client_handler.timeout hc.1, hc.2);
  client_shutdown hc := http_client_handler.shutdown hc.1 hc.2;
  client_connect_failed hc := (http_client_handler.connect_failed hc.1, hc.2);
  client_dns_failed hc := (http_client_handler.dns_failed hc.1, hc.2)
}.
