(* ===== verification/StreamBody.v ===== *)
(** The stream handler as the receiver of a body: it puts chunk sizes out in
    capital hexadecimal digits, and it keeps the promises the body parsers
    are proved against, with a socket that may take any part of what it is
    given. *)
From S2P Require Import Prelude Status ReadWriteBuffer HttpLex Interfaces HeaderStore HeaderHandler.
From S2P Require Import HeaderParser BodyParsers BodyRun BodyWindow Os Connection HeaderWriter Printf Pipeline.
From S2P Require Import Url StreamHandler.

Import proxy_stream_interface http_proxy_stream_handler.

(** * Chunk sizes *)

Lemma upper_hex_char_ok d :
  0 <= d < 16 -> ISHEX (upper_hex_char d) = true /\ HC2INT (upper_hex_char d) = d /\
  is_byte (upper_hex_char d).
Proof.
  intros Hd. assert (In d (map Z.of_nat (seq 0 16))) as Hin.
  { apply in_map_iff. exists (Z.to_nat d). split; [lia|]. apply in_seq. lia. }
  revert Hin. clear Hd. unfold is_byte. generalize d. apply List.Forall_forall. vm_compute.
  repeat constructor; vm_compute; done.
Qed.

(** The digits of a chunk size, as the chunked parser reads them. *)
Lemma upper_hex_spec n :
  0 <= n < 2 ^ 32 ->
  Forall (fun c => ISHEX c = true) (upper_hex n) /\ bytes_ok (upper_hex n) /\
  0 < raw_size (upper_hex n) <= 8 /\ hexval (upper_hex n) = n.
Proof.
  intros Hn. destruct (digits_spec 16 n) as (Hd & Hl & Hw & Hv); [lia|lia|].
  specialize (Hw 8%nat ltac:(lia) ltac:(lia)). unfold upper_hex.
  split; [|split; [|split]].
  - apply Forall_map. eapply Forall_impl; [exact Hd|]. intros d Hd'. by apply upper_hex_char_ok.
  - apply Forall_map. eapply Forall_impl; [exact Hd|]. intros d Hd'. by apply upper_hex_char_ok.
  - unfold raw_size. rewrite length_map. lia.
  - rewrite <- Hv at 2. unfold hexval, value. generalize 0. revert Hd. generalize (digits 16 n). clear.
    induction 1 as [|d ds Hd _ IH]; intros v; simpl; [done|].
    destruct (upper_hex_char_ok d Hd) as (_ & -> & _). apply IH.
Qed.

Definition chunk_size_line (n : Z) : list Z := upper_hex n ++ [CR; LF].

Lemma chunk_size_line_ok n : 0 <= n < 2 ^ 32 -> size_line CHUNK_SIZE_LENGTH n (chunk_size_line n).
Proof.
  intros Hn. destruct (upper_hex_spec n Hn) as (Hh & _ & Hl & Hv).
  exists (upper_hex n), 0%nat. unfold CHUNK_SIZE_LENGTH. split; [done|]. split; [lia|]. split; [lia|].
  by rewrite Hv.
Qed.

(** What the handler puts out for chunks. *)
Definition encode_chunks (ds : list (list Z)) : list Z :=
  concat (map (fun data => chunk_size_line (raw_size data) ++ data ++ [CR; LF]) ds).

Lemma encode_chunks_snoc ds data :
  encode_chunks (ds ++ [data]) = encode_chunks ds ++ chunk_size_line (raw_size data) ++ data ++ [CR; LF].
Proof. unfold encode_chunks. rewrite map_app, concat_app. simpl. by rewrite app_nil_r. Qed.

(** It is a chunked body again, with the same data. *)
Lemma encode_chunks_wf ds :
  Forall chunk_data ds -> chunked_body CHUNK_SIZE_LENGTH (encode_chunks (ds ++ [[]])) ds.
Proof.
  intros Hds. exists (encode_chunks ds), (chunk_size_line 0).
  split; [|split; [apply chunk_size_line_ok; lia|by rewrite encode_chunks_snoc]].
  induction ds as [|data ds IH] using rev_ind; [constructor|].
  apply Forall_app in Hds as [Hds Hd]. inversion Hd as [|? ? Hd' _]; subst.
  rewrite encode_chunks_snoc. unfold chunk_data in Hd'. constructor; [auto| |lia].
  apply chunk_size_line_ok. lia.
Qed.

(** * The promises of a body receiver *)
Section receiver.
Context {K : Type} `{OsLaws K} {A : Type}.
Abbreviation state := (t A * world K)%type.

(** There is a destination, connected or not. *)
Definition dest_open (w : world K) : Prop :=
  exists c, w.(p_dest_data_) = Some c /\ usable w.(kernel_) c.

(** The destination takes writes. *)
Definition dest_ready (w : world K) : Prop :=
  exists c, w.(p_dest_data_) = Some c /\ connection.ready_to_write c = true.

(** What was sent to the destination. *)
Definition sent_to_dest (w : world K) : list Z :=
  match w.(p_dest_data_) with Some c => sent w.(kernel_) (connection.fd_ c) | None => [] end.

(** The chunk-size line, all of which is to be written. *)
Record line_ok (b : read_write_buffer) : Prop := {
  ln_kept : kept (CHUNK_SIZE_LENGTH + 2) b;
  ln_end : b.(write_end_position_) = b.(working_length_)
}.

Record sink_ok (s : state) : Prop := {
  sk_dest : dest_open s.2;
  sk_line : line_ok s.1.(chunk_size_);
  sk_endline : static_buffer message_buffer.new_line s.1.(endline_buf_)
}.

(** ** The interface *)

(** A write to the destination. *)
Lemma forward_ok (w : world K) b :
  dest_open w -> wf b -> b.(write_position_) <= b.(write_end_position_) ->
  exists k c' st (n : nat),
    forward w b = Ok (with_dest k c' w, written_to (b.(write_position_) + Z.of_nat n) b, st) /\
    (n <= length (window b))%nat /\
    sent_to_dest (with_dest k c' w) = sent_to_dest w ++ take n (window b) /\
    dest_open (with_dest k c' w) /\
    match st with
    | socketlib.COMPLETE => n = length (window b) /\ dest_ready (with_dest k c' w)
    | socketlib.INCOMPLETE => (n < length (window b))%nat \/ window b = [] /\ not (dest_ready w)
    | socketlib.DEST_CLOSED => (n < length (window b))%nat
    | _ => False
    end.
Proof.
  intros (c & Hc & Ho) Hwf Hle.
  destruct (write_ok w.(kernel_) c b Hwf Hle Ho) as (k & c' & b' & st & n & Hw & Hwr).
  pose proof (wrote_usable _ _ _ _ _ _ _ _ Hwr Ho) as Hu. destruct Hwr.
  exists k, c', st, n. unfold forward. rewrite Hc. cbn [of_option]. rewrite bind_ok, Hw, bind_ok, wr_buffer.
  split; [done|]. split; [done|]. unfold sent_to_dest, dest_open, dest_ready. rewrite Hc.
  cbn [with_dest p_dest_data_ kernel_]. rewrite wr_fd. split; [done|].
  split; [by exists c'|]. destruct st; try done.
  - destruct wr_status as (-> & -> & Hr). eauto.
  - destruct wr_status as (_ & _ & [Hl|[Hl Hr]]); [by left|right]. split; [done|].
    intros (c2 & [= <-] & Hr'). congruence.
  - by destruct wr_status.
Qed.

(** A window that ends before it begins aborts, or is left alone. *)
Lemma forward_inverted (w : world K) b :
  dest_open w -> wf b -> b.(write_end_position_) < b.(write_position_) ->
  yields True (forward w b) (fun '(w', b', st) => b' = b /\ st = socketlib.INCOMPLETE /\
    sent_to_dest w' = sent_to_dest w /\ dest_open w' /\ not (dest_ready w)).
Proof.
  intros (c & Hc & Ho) Hwf Hlt. pose proof Hwf as []. unfold forward. rewrite Hc. cbn [of_option].
  rewrite bind_ok. unfold connection.non_blocking_write. cbn [connection.write_loop].
  destruct (connection.ready_to_write c) eqn:Er; cbn [negb].
  - unfold rwb.get_write_position, rwb.get_write_end_position.
    rewrite (s32_small b.(write_position_)) by lia.
    set (n := s32 _). assert (n < 0) as Hn.
    { unfold n, s32, u32. Z.div_mod_to_equations. lia. }
    unfold CHECK_CONDITION at 1. by replace (0 <=? n) with false by lia.
  - rewrite bind_ok. simpl. split; [done|]. split; [done|].
    unfold sent_to_dest, dest_open, with_dest. rewrite Hc. simpl.
    split; [done|]. split; [eauto|]. intros (c2 & E & Hr). rewrite Hc in E. injection E as <-. congruence.
Qed.

Lemma convert_ok st :
  match st with
  | socketlib.COMPLETE | socketlib.INCOMPLETE | socketlib.DEST_CLOSED => True
  | _ => False
  end ->
  exists st', convert_proxy_status st = Ok st' /\ st' <> http.WRITE_INCOMPLETE /\
    (st' = http.COMPLETE <-> st = socketlib.COMPLETE).
Proof. destruct st; try done; intros _; eexists; (split; [reflexivity|]); done. Qed.

(** ** The chunk-size line *)

Lemma set_chunk_size_line b n :
  line_ok b -> 0 <= n < 2 ^ 32 ->
  exists raw, b.(p_buffer_) = Some raw /\ is_Some (raw !! 0%nat) /\
    rwb.get_physical_length b = Ok 10 /\
    exists raw1 raw2 l, rwb.memcpy raw 0 (take 9 (upper_hex n) ++ [0]) = Ok raw1 /\
      let at_raw r := RWB (Some r) b.(b_using_static_buffer_) l 0 l 0 in
      l = raw_size (upper_hex n) + 2 /\
      rwb.set_working_length l (RWB (Some raw1) b.(b_using_static_buffer_) b.(working_length_)
        b.(process_position_) b.(write_end_position_) b.(write_position_)) = Ok (at_raw raw1) /\
      rwb.set_at (raw_size (upper_hex n)) CR (at_raw raw1) =
        Ok (at_raw (<[length (upper_hex n) := CR]> raw1)) /\
      rwb.set_at (raw_size (upper_hex n) + 1) LF (at_raw (<[length (upper_hex n) := CR]> raw1)) =
        Ok (at_raw raw2) /\
      line_ok (at_raw raw2) /\ window (at_raw raw2) = chunk_size_line n.
Proof.
  intros [[Hwf Hsz Hown] Hend] Hn. pose proof Hwf as [].
  destruct (upper_hex_spec n Hn) as (_ & Hb & Hl & _). set (ds := upper_hex n) in *.
  change (CHUNK_SIZE_LENGTH + 2) with 10 in Hsz. unfold raw_size in Hsz, Hl.
  exists (raw_of b). split; [done|].
  destruct (raw_of b) as [|x raw0] eqn:Er; [done|]. split; [by eexists|]. rewrite <- Er in *.
  split.
  { unfold rwb.get_physical_length, rwb.get_raw_buffer. rewrite wf_vector. simpl. f_equal.
    unfold raw_size. by rewrite Hsz. }
  rewrite (take_ge ds) by lia.
  assert (exists y t, drop (0 + length (ds ++ [0])) (raw_of b) = y :: t) as (y & t & Ht).
  { rewrite length_app. simpl. destruct (drop (length ds + 1) (raw_of b)) as [|y t] eqn:Ed; [|eauto].
    apply (f_equal length) in Ed. rewrite length_drop in Ed. simpl in Ed. lia. }
  assert (bytes_ok (y :: t) /\ length t = (8 - length ds)%nat) as [Hyt Htl].
  { rewrite <- Ht. split; [by apply Forall_drop|]. apply (f_equal length) in Ht.
    rewrite length_drop, length_app in Ht. simpl in Ht. lia. }
  exists (ds ++ 0 :: y :: t), (ds ++ CR :: LF :: t), (raw_size ds + 2).
  assert (<[length ds := CR]> (ds ++ 0 :: y :: t) = ds ++ CR :: y :: t) as E1.
  { rewrite <- (Nat.add_0_r (length ds)), insert_app_r. done. }
  assert (<[S (length ds) := LF]> (ds ++ CR :: y :: t) = ds ++ CR :: LF :: t) as E2.
  { rewrite <- (Nat.add_1_r (length ds)), insert_app_r. done. }
  rewrite E1. cbv zeta.
  split; [|split; [done|split; [|split; [|split; [|split]]]]].
  - unfold rwb.memcpy, raw_size. rewrite length_app. simpl.
    replace (_ <=? _) with true by (symmetry; apply Z.leb_le; lia). simpl.
    rewrite length_app in Ht. simpl in Ht. by rewrite Ht, <- app_assoc.
  - unfold rwb.set_working_length, rwb.get_raw_buffer. cbn [p_buffer_ of_option b_using_static_buffer_].
    rewrite bind_ok, (check_true (raw_size ds + 2 <=? _)), bind_ok
      by (apply Z.leb_le; unfold raw_size; rewrite length_app; simpl; lia).
    rewrite Hown. cbn [negb]. rewrite check_true, bind_ok by done.
    rewrite set_write_end_position_ok, bind_ok by (simpl; lia).
    rewrite set_write_position_ok by (unfold raw_size; simpl; lia). done.
  - unfold rwb.set_at, rwb.get_raw_buffer. cbn [p_buffer_ of_option working_length_].
    rewrite check_true, bind_ok, bind_ok by (unfold raw_size; lia).
    replace (Z.to_nat (raw_size ds)) with (length ds) by (unfold raw_size; lia).
    rewrite list_lookup_middle by done. simpl. by rewrite E1.
  - unfold rwb.set_at, rwb.get_raw_buffer. cbn [p_buffer_ of_option working_length_].
    rewrite check_true, bind_ok, bind_ok by (unfold raw_size; lia).
    replace (Z.to_nat (raw_size ds + 1)) with (S (length ds)) by (unfold raw_size; lia).
    rewrite lookup_app_r by lia. replace (S (length ds) - length ds)%nat with 1%nat by lia. simpl.
    by rewrite E2.
  - assert (raw_size (ds ++ CR :: LF :: t) = 10) as Hr
      by (unfold raw_size; rewrite length_app; simpl; lia).
    constructor; [|done]. constructor; [|done|exact Hown].
    constructor; unfold raw_of; cbn [p_buffer_ default working_length_ process_position_
      write_end_position_ write_position_]; unfold id; rewrite ?Hr; unfold raw_size; try done; try lia.
    apply Forall_app. split; [done|]. inversion Hyt as [|? ? _ Hyt2]; subst.
    constructor; [unfold is_byte, CR; lia|]. constructor; [unfold is_byte, LF; lia|done].
  - unfold window, slice, raw_of, chunk_size_line. simpl. fold ds.
    replace (Z.to_nat (raw_size ds + 2 - 0)) with (length (ds ++ [CR; LF]))
      by (unfold raw_size; rewrite length_app; simpl; lia).
    rewrite drop_0. replace (ds ++ CR :: LF :: t) with ((ds ++ [CR; LF]) ++ t) by by rewrite <- app_assoc.
    by rewrite take_app_length.
Qed.

Lemma endline_rewound b :
  static_buffer message_buffer.new_line b ->
  rwb.set_write_position 0 b = Ok (written_to 0 b) /\
  static_buffer message_buffer.new_line (written_to 0 b) /\
  window (written_to 0 b) = message_buffer.new_line.
Proof.
  intros Hb. pose proof Hb as [[Hwf Hc He] Hs Hr]. pose proof Hwf as [].
  rewrite set_write_position_ok by lia. split; [done|].
  assert (writing message_buffer.new_line (written_to 0 b)) as Hw
    by (constructor; [apply written_to_wf; [done|lia]|done|done]).
  split; [by apply static_buffer_written|]. by apply (writing_window _ _ Hw).
Qed.

Lemma set_chunk_size_ok (s : state) n :
  sink_ok s -> 0 <= n < 2 ^ 32 ->
  exists s', set_chunk_size s n = Ok s' /\ s'.2 = s.2 /\ sink_ok s' /\
    window s'.1.(chunk_size_) = chunk_size_line n /\
    window s'.1.(endline_buf_) = message_buffer.new_line.
Proof.
  intros [Hd Hl He] Hn. unfold set_chunk_size.
  destruct (set_chunk_size_line _ n Hl Hn) as (raw & Hraw & [x Hx] & Hphys & raw1 & raw2 & l & Hm & El & Hwl & Hcr & Hlf & Hok & Hwin).
  destruct (endline_rewound _ He) as (Hrew & Hend & Hewin).
  destruct (upper_hex_spec n Hn) as (_ & _ & Hsz & _).
  unfold rwb.get_raw_buffer. rewrite Hraw. cbn [of_option]. rewrite bind_ok, Hx. cbn [of_option].
  rewrite bind_ok, Hphys, bind_ok. change (10 =? 0) with false. cbv iota.
  change (Z.to_nat (10 - 1)) with 9%nat. rewrite Hm, bind_ok.
  rewrite !(s32_small (raw_size _)), !u32_small by lia. rewrite <- El, Hwl, bind_ok, Hcr, bind_ok, Hlf, bind_ok.
  rewrite Hrew, bind_ok. eexists. split; [reflexivity|]. split; [done|]. split; [|done].
  by constructor.
Qed.

(** ** The receiver *)

Lemma line_written b p (n : nat) :
  line_ok b -> p = b.(write_position_) + Z.of_nat n -> (n <= length (window b))%nat ->
  line_ok (written_to p b).
Proof.
  intros [[Hwf Hs Ho] He] -> Hn. pose proof Hwf as [].
  destruct (window_written b n Hwf) as (Hwf' & _); [lia|done|]. by constructor.
Qed.

Lemma line_window b : line_ok b -> wf b /\ b.(write_position_) <= b.(write_end_position_).
Proof. intros [[Hwf _ _] He]. pose proof Hwf as []. split; [done|lia]. Qed.

Lemma endline_window b :
  static_buffer message_buffer.new_line b -> wf b /\ b.(write_position_) <= b.(write_end_position_).
Proof. intros [Hw _ _]. split; [apply Hw|apply (writing_window _ _ Hw)]. Qed.

#[export] Program Instance body_receives : BodyReceiver state := {
  receiver_ok := sink_ok;
  received s := sent_to_dest s.2;
  size_bytes := chunk_size_line;
  trailer_bytes := message_buffer.new_line;
  size_left s := window s.1.(chunk_size_);
  trailer_left s := window s.1.(endline_buf_)
}.
Next Obligation.
  intros [h w] b c [Hd Hl He] Hwf. simpl. unfold set_body.
  destruct (Z.leb_spec b.(write_position_) b.(write_end_position_)) as [Hle|Hlt].
  - destruct (forward_ok w b Hd Hwf Hle) as (k & c' & st & n & Hf & Hn & Hs & Hd' & Hst). cbn [snd].
    rewrite Hf, bind_ok. destruct (convert_ok st) as (st' & Hc' & Hne & Hcomp); [by destruct st|].
    rewrite Hc', bind_ok. simpl. exists n. split; [done|]. split; [done|]. split; [done|].
    split; [|done]. intros E. apply Hcomp in E as ->. apply Hst.
  - eapply yields_bind; [eapply yields_mono|].
    + pose proof (forward_inverted w b Hd Hwf Hlt) as Hy.
      instantiate (1 := fun '(w', b', st) => b' = b /\ st = socketlib.INCOMPLETE /\
        sent_to_dest w' = sent_to_dest w /\ dest_open w' /\ not (dest_ready w)).
      cbn [snd]. destruct (forward w b) as [[[w' b'] st]| | |]; done.
    + intros x Hx. exact Hx.
    + intros [[w' b'] st] (-> & -> & Hs & Hd' & _). simpl. exists 0%nat.
      rewrite Z.add_0_r, written_to_same, take_0, app_nil_r. do 3 (split; [done || lia|]).
      done.
Qed.
Next Obligation.
  intros s n Hs Hn. destruct (set_chunk_size_ok s n Hs Hn) as (s' & Hset & Hw & Hok & Hl & He).
  exists s'. rewrite Hw. done.
Qed.
Next Obligation.
  intros [h w] [Hd Hl He]. simpl in *. unfold forward_chunk_size. cbn [fst snd].
  destruct (line_window _ Hl) as [Hwf Hle].
  destruct (forward_ok w _ Hd Hwf Hle) as (k & c' & st & n & Hf & Hn & Hs & Hd' & Hst).
  rewrite Hf, bind_ok. destruct (convert_ok st) as (st' & Hc' & Hne & Hcomp); [by destruct st|].
  rewrite Hc', bind_ok. eexists _, (take n (window h.(chunk_size_))), st'. split; [reflexivity|]. simpl.
  destruct (window_written _ n Hwf Hle Hn) as (_ & Hwin & _). rewrite Hwin.
  split; [done|]. split; [by rewrite take_drop|].
  split; [intros E; apply Hcomp in E as ->; rewrite (proj1 Hst); by apply drop_all|].
  split; [done|]. split; [|done]. constructor; [done|by eapply line_written|done].
Qed.
Next Obligation.
  intros [h w] [Hd Hl He]. simpl in *. unfold forward_chunk_trailer. cbn [fst snd].
  destruct (endline_window _ He) as [Hwf Hle].
  destruct (forward_ok w _ Hd Hwf Hle) as (k & c' & st & n & Hf & Hn & Hs & Hd' & Hst).
  rewrite Hf, bind_ok. destruct (convert_ok st) as (st' & Hc' & Hne & Hcomp); [by destruct st|].
  rewrite Hc', bind_ok. eexists _, (take n (window h.(endline_buf_))), st'. split; [reflexivity|]. simpl.
  destruct (window_written _ n Hwf Hle Hn) as (_ & Hwin & _). rewrite Hwin.
  split; [done|]. split; [by rewrite take_drop|].
  split; [intros E; apply Hcomp in E as ->; rewrite (proj1 Hst); by apply drop_all|].
  split; [done|]. constructor; [done|done|].
  apply static_buffer_written; [done|]. by apply (writing_written _ _ n (st_writing _ _ He)).
Qed.

Lemma drop_short (l : list Z) n : (n < length l)%nat -> drop n l <> [].
Proof. intros Hn E. apply (f_equal length) in E. rewrite length_drop in E. simpl in E. lia. Qed.

#[export] Program Instance body_ready : ReadyReceiver state := { ready s := dest_ready s.2 }.
Next Obligation.
  intros [h w] b c [h' w'] b' st [Hd _ _] Hwf Hs. simpl in *. unfold set_body in Hs. cbn [fst snd] in Hs.
  destruct (Z.leb_spec b.(write_position_) b.(write_end_position_)) as [Hle|Hlt].
  - destruct (forward_ok w b Hd Hwf Hle) as (k & c' & st1 & n & Hf & Hn & _ & _ & Hst).
    rewrite Hf, bind_ok in Hs. destruct st1; try done; injection Hs as _ <- <- <-; try done; [apply Hst|..].
    + intros Hw. destruct (window_written b n Hwf Hle Hn) as (_ & -> & _).
      destruct Hst as [Hl|[Hnil Hr]]; [|by destruct Hw]. by apply drop_short.
    + destruct (window_written b n Hwf Hle Hn) as (_ & -> & _). by apply drop_short.
  - pose proof (forward_inverted w b Hd Hwf Hlt) as Hy. destruct (forward w b) as [[[w1 b1] st1]| | |]; try done.
    destruct Hy as (-> & -> & _ & _ & Hr). injection Hs as _ <- <- <-. intros [Hw|Hw]; [done|by destruct (Hr Hw)].
Qed.
Next Obligation.
  intros [h w] [h' w'] [Hd Hl He] Hs. simpl in *. unfold forward_chunk_size in Hs. cbn [fst snd] in Hs.
  destruct (line_window _ Hl) as [Hwf Hle].
  destruct (forward_ok w _ Hd Hwf Hle) as (k & c' & st & n & Hf & _ & _ & _ & Hst).
  rewrite Hf, bind_ok in Hs. destruct st; try done. injection Hs as _ <-. apply Hst.
Qed.

End receiver.

(** * Properties *)

(** C20: a chunked body that went through the handler, over any sequence of
    calls with buffers cut anywhere and a destination that blocks after any
    byte, was sent to the destination encoded afresh: the data of every chunk
    in order, each after its size in capital hexadecimal digits without
    leading zeros, spaces or extensions.  What was sent is again a
    well-formed chunked body, with the chunks of the one that was read. *)
Theorem chunked_body_reencoded {K} `{OsLaws K} {A} (s0 : t A * world K) b p s consumed :
  sink_ok s0 ->
  run chunked_body_parser.parse_body (chunked_body_parser.make CHUNK_SIZE_LENGTH) s0
    http.COMPLETE b p s consumed ->
  exists ds, chunked_body CHUNK_SIZE_LENGTH consumed ds /\
    sent_to_dest s.2 = sent_to_dest s0.2 ++ encode_chunks (ds ++ [[]]) /\
    chunked_body CHUNK_SIZE_LENGTH (encode_chunks (ds ++ [[]])) ds.
Proof.
  intros Hok Hrun. assert (receiver_ok s0) as Hr0 by exact Hok.
  destruct (chunk_run _ chunk_range _ _ _ _ _ _ _ eq_refl Hr0 Hrun) as [Hres|(? & _)];
    [|done]. destruct Hres as (ds & Hb & Hr). exists ds. split; [done|]. split; [exact Hr|].
  destruct Hb as (s1 & line & Hch & _). apply encode_chunks_wf. exact (chunks_nonempty _ chunk_range _ _ Hch).
Qed.

(** The chunk-size line, the end line and the destination of a new handler;
    the other members do not matter here. *)
Definition sample_sink (writes : list (nat + errno)) : res (t Z * world script) :=
  '(h, c) ← make REQUEST 16 16 16 4 http.NONE 0 header_writer.FIELD_NAME (cache.make 4 16 16);
  let c4 := connection.Connection true true 4 (rwb.make 8) connection.CONNECTED [] in
  Ok (h, World script (Script writes [] []) None (Some c4)
    (pipeline_data_queue.PipelineDataQueue [] []) ∅ c access_log.make []).

Lemma sample_sink_ok writes s : sample_sink writes = Ok s -> sink_ok s.
Proof.
  intros Hs. vm_compute in Hs. injection Hs as <-. constructor.
  - eexists. split; [reflexivity|exact (fun _ => I)].
  - constructor; [|reflexivity]. apply stored_kept. exact (stored_make 10 ltac:(split; reflexivity || discriminate)).
  - exact (make_static_ok message_buffer.new_line ltac:(forall_concrete) eq_refl).
Qed.

(** Leading zeros and spaces of a chunk size are not forwarded. *)
Definition sample_padded : list Z :=
  str "003  " ++ [CR; LF] ++ str "abc" ++ [CR; LF; 48; CR; LF; CR; LF].

Lemma chunked_body_reencoded_witness :
  exists s0 b p s, sample_sink (replicate 9 (inl 9%nat)) = Ok s0 /\
    chunked_body_parser.parse_body (chunked_body_parser.make CHUNK_SIZE_LENGTH) s0 (store 64 sample_padded) =
      Ok (http.COMPLETE, b, p, s) /\
    exists ds, chunked_body CHUNK_SIZE_LENGTH sample_padded ds /\
      sent_to_dest s.2 = encode_chunks (ds ++ [[]]) /\
      sent_to_dest s.2 = str "3" ++ [CR; LF] ++ str "abc" ++ [CR; LF; 48; CR; LF; CR; LF].
Proof.
  destruct (sample_sink (replicate 9 (inl 9%nat))) as [s0| | |] eqn:Es; try (vm_compute in Es; discriminate).
  destruct (chunked_body_parser.parse_body (chunked_body_parser.make CHUNK_SIZE_LENGTH) s0 (store 64 sample_padded))
    as [[[[st b] p] s]| | |] eqn:Ep;
    pose proof Ep as Ep'; pose proof Es as Es'; vm_compute in Es'; injection Es' as <-;
    vm_compute in Ep'; try discriminate Ep'.
  assert (st = http.COMPLETE) as -> by congruence.
  assert (wf (store 64 sample_padded)) as Hwf
    by (apply sample_wf; [unfold sample_padded, CR, LF; forall_concrete|vm_compute; lia]).
  destruct (chunked_body_reencoded _ b p s sample_padded (sample_sink_ok _ _ Es)) as (ds & Hb & Hs & _).
  - replace sample_padded with ([] ++ processed (store 64 sample_padded) b)
      by (injection Ep' as <- _ _; vm_compute; reflexivity).
    eapply run_next; [apply (run_start _ _ _ (store 64 sample_padded)); exact Hwf|exact Hwf|exact Ep].
  - eexists _, b, p, s. split; [reflexivity|]. split; [exact Ep|]. exists ds. split; [exact Hb|].
    split; [exact Hs|]. injection Ep' as _ _ <-. vm_compute. reflexivity.
Defined.
