(* ===== verification/StreamFrame.v ===== *)
(** What the parts of a turn of the stream handler leave alone: the lookup of
    the pipeline data, the log and the host rules return or abort, they send
    nothing, and the message they may change stays well formed. *)
From stdpp Require Import list gmap.
From S2P Require Import Prelude Status ReadWriteBuffer HttpLex Interfaces HeaderStore HeaderHandler.
From S2P Require Import HeaderParser HandlerSafety BodyParsers BodyRun Os Connection HeaderWriter Printf.
From S2P Require Import Pipeline Url StreamHandler StreamBody.

Import proxy_stream_interface http_proxy_stream_handler.

(** * Results that are not looked at *)

Lemma append_to_string_yields n b s :
  stored n b -> bytes_ok s -> yields True (rwb.append_to_string s b) bytes_ok.
Proof.
  intros Hb Hs. pose proof (stored_wf _ _ Hb) as Hwf. rewrite append_to_string_content by done. simpl.
  apply Forall_app. split; [done|]. unfold content. apply Forall_take. by destruct Hwf.
Qed.

Lemma append_returns n b s : stored n b -> returns (rwb.append_to_string s b).
Proof. intros Hb. by rewrite append_to_string_content by apply (stored_wf _ _ Hb). Qed.
#[export] Hint Resolve append_returns : switchflow.

Lemma c_str_ok s : bytes_ok s -> bytes_ok (c_str s).
Proof.
  induction 1 as [|c s Hc _ IH]; simpl; [constructor|].
  destruct (c =? 0); by constructor.
Qed.

Lemma index_by_name_returns z cs m :
  message_ok z m -> c_string cs -> returns (message_buffer.get_header_index_by_name cs m).
Proof.
  intros Hm Hcs. pose proof Hm as []. unfold message_buffer.get_header_index_by_name.
  destruct (index_by_name_spec z cs (message_buffer.headers_ m) 0) as (r & Hr & _);
    [done|done|lia|lia|by rewrite Hr].
Qed.

(** * The world *)
Section frame.
Context {K : Type} `{OsLaws K} {A : Type}.

(** Another world with the same connections and the same pool. *)
Record same_io (w w' : world K) : Prop := {
  io_kernel : w'.(kernel_) = w.(kernel_);
  io_src : w'.(p_src_data_) = w.(p_src_data_);
  io_dest : w'.(p_dest_data_) = w.(p_dest_data_);
  io_cache : w'.(header_cache_) = w.(header_cache_)
}.

#[export] Instance same_io_preorder : PreOrder same_io.
Proof. split; [by constructor|]. intros w1 w2 w3 [] []. constructor; congruence. Qed.

Lemma same_io_sent w w' : same_io w w' -> sent_to_dest w' = sent_to_dest w.
Proof. intros []. unfold sent_to_dest. by rewrite io_kernel0, io_dest0. Qed.

Lemma same_io_open w w' : same_io w w' -> dest_open w -> dest_open w'.
Proof. intros []. unfold dest_open. by rewrite io_kernel0, io_dest0. Qed.

Lemma with_queue_io q hp (w : world K) : same_io w (with_queue q hp w).
Proof. by constructor. Qed.

Lemma with_log_io l (w : world K) : same_io w (with_log l w).
Proof. by constructor. Qed.

(** ** The pipeline data *)

Lemma current_returns (h : t A) (w : world K) : returns (current h w).
Proof. unfold current. past. by past. Qed.
#[local] Hint Resolve current_returns : switchflow.

Lemma queue_element_returns q hp : returns (pipeline_data_queue.queue_element q hp).
Proof.
  unfold pipeline_data_queue.queue_element. past. eapply (yields_bind _ _ _ (fun _ => True)).
  { by destruct (pipeline_data_queue.free_list_ q). }
  intros q' _. by do 5 past.
Qed.

Lemma dequeue_element_returns q : returns (pipeline_data_queue.dequeue_element q).
Proof.
  unfold pipeline_data_queue.dequeue_element. past. eapply (yields_bind _ _ _ (fun _ => True)).
  { by destruct (pipeline_data_queue.active_queue_ q). }
  intros q' _. by do 2 past.
Qed.

Lemma empty_queue_returns q : returns (pipeline_data_queue.empty_queue q).
Proof. unfold pipeline_data_queue.empty_queue. by past. Qed.

Lemma front_returns q : returns (pipeline_data_queue.front q).
Proof. unfold pipeline_data_queue.front. past. eauto with switchflow. Qed.
#[local] Hint Resolve dequeue_element_returns front_returns empty_queue_returns : switchflow.

(** The stream handler is given another element, or none. *)
Definition found_current (h : t A) (w : world K) (x : bool * t A * world K) : Prop :=
  let '(_, h', w') := x in same_io w w' /\ exists p, h' = with_current p h.

Lemma with_current_same (h : t A) : h = with_current h.(current_pipeline_data_) h.
Proof. by destruct h. Qed.

Lemma set_current_yields (h : t A) (w : world K) :
  yields True (set_current_pipeline_data h w) (found_current h w).
Proof.
  assert (found_current h w (false, h, w)) as Hsame by (split; [reflexivity|]; eexists; apply with_current_same).
  unfold set_current_pipeline_data. destruct (stream_type_ h).
  - destruct (pipeline_data_queue.queue_full _); [exact Hsame|].
    eapply yields_bind; [apply queue_element_returns|]. intros [[p q] hp] _. simpl.
    split; [apply with_queue_io|by eexists].
  - destruct (pipeline_data_queue.queue_empty _); [exact Hsame|]. past.
    eapply yields_bind; [apply current_returns|]. intros [p d] _.
    destruct (negb _); [split; [reflexivity|by eexists]|]. past. simpl.
    split; [apply with_queue_io|by eexists].
Qed.

(** ** The log *)
Variable z : sizes.

Lemma append_field_returns name m s :
  message_ok z m -> c_string name -> returns (append_field name m s).
Proof.
  intros Hm Hn. unfold append_field, request_buffer_wrapper.get_header_with_name_index,
    request_buffer_wrapper.get_field_value_n.
  eapply yields_bind; [by eapply index_by_name_returns|]. intros [i|] _; [|done].
  eapply yields_bind; [by apply (field_value_yields z)|]. eauto with switchflow.
Qed.

Lemma copy_request_returns m r (w : world K) :
  message_ok z m -> returns (copy_request_data_to_log m r w).
Proof.
  intros Hm. pose proof Hm as []. unfold copy_request_data_to_log, get_src_address.
  eapply (yields_bind _ _ _ (fun _ => True)); [by past|]. intros a _. past. do 3 past.
  eapply yields_bind; [apply append_field_returns; [done|forall_concrete]|]. intros s1 _.
  eapply yields_bind; [apply append_field_returns; [done|forall_concrete]|]. done.
Qed.

Lemma copy_response_returns m r : message_ok z m -> returns (copy_response_data_to_log m r).
Proof. intros []. unfold copy_response_data_to_log. by past. Qed.

Lemma log_access_returns date r l : returns (access_log.log_access date r l).
Proof.
  unfold access_log.log_access, log_record.set_time, log_record.format_time. destruct (_ =? _); [done|].
  eapply (yields_bind _ _ _ (fun _ => True)).
  { eapply (yields_bind _ _ _ (fun _ => True)); [by past|done]. }
  intros r' _. by destruct (_ <=? _)%nat.
Qed.

Lemma log_request_yields localtime (h : t A) (w : world K) :
  message_ok z (header_handler.message_buffer_ h.(header_handler_)) ->
  yields True (log_request localtime h w) (same_io w).
Proof.
  intros Hm. unfold log_request. destruct (negb _); [simpl; reflexivity|].
  eapply yields_bind; [apply current_returns|]. intros [p d] _. destruct (stream_type_ h).
  - eapply yields_bind; [by apply copy_request_returns|]. intros r _. apply with_queue_io.
  - eapply yields_bind; [by apply copy_response_returns|]. intros r _.
    eapply yields_bind; [apply log_access_returns|]. intros [r' [v|]] _; simpl; [|apply with_queue_io].
    etransitivity; [apply with_queue_io|apply with_log_io].
Qed.

(** ** The host rules *)
Variable host_rules_ : gmap (list Z) (host_rules.t A).

Definition url_bytes (u : url.t A) : Prop := bytes_ok u.(url.hostname) /\ bytes_ok u.(url.path).

(** The URLs of the configuration are strings. *)
Definition rules_ok : Prop := forall name rules,
  host_rules_ !! name = Some rules ->
  url_bytes (host_rules.default_forward_url rules) /\
  Forall (fun r => url_bytes r.(host_rules.forward_url_)) rules.(host_rules.rules_).

Lemma find_forward_url_bytes path (rules : host_rules.t A) :
  Forall (fun r => url_bytes r.(host_rules.forward_url_)) rules.(host_rules.rules_) ->
  forall u, host_rules.find_forward_url path rules = Some u -> url_bytes u.
Proof.
  unfold host_rules.find_forward_url. induction 1 as [|r rs Hr _ IH]; intros u; simpl; [done|].
  case_bool_decide; [by intros [= <-]|apply IH].
Qed.

Lemma forward_url_of_yields (rules : host_rules.t A) m :
  message_ok z m ->
  yields True (forward_url_of rules m) (fun u => exists path, u = host_rules.find_forward_url path rules).
Proof.
  intros []. unfold forward_url_of, request_buffer_wrapper.get_uri, message_buffer.get_status_line_2.
  eapply yields_bind; [by eapply append_returns|]. intros path _. by eexists.
Qed.

Lemma find_host_yields m :
  message_ok z m ->
  yields True (find_host host_rules_ m) (fun found =>
    forall i rules, found = Some (i, Some rules) -> exists name, host_rules_ !! name = Some rules).
Proof.
  intros Hm. unfold find_host.
  eapply yields_bind; [eapply index_by_name_returns; [done|forall_concrete]|]. intros [i|] _; [|done].
  eapply yields_bind; [by apply (field_value_yields z)|]. intros b Hb.
  eapply yields_bind; [by eapply append_returns|]. intros name _ j rules [= <- Hr]. eauto.
Qed.

Lemma set_host_yields (rules : host_rules.t A) i u m :
  message_ok z m -> url_bytes u -> yields True (set_host rules i u m) (message_ok z).
Proof.
  intros Hm [Hu _]. unfold set_host. destruct (host_rules.preserve_host rules); [done|].
  eapply yields_bind; [by apply (field_value_yields z)|]. intros b Hb.
  eapply yields_bind; [apply (append_from_string_yields z.(n_value)); [done|by apply c_str_ok]|].
  intros b' Hb'. by apply set_field_value_yields.
Qed.

Lemma set_line2_ok b m :
  message_ok z m -> stored z.(n_line2) b -> message_ok z (header_writer.set_status_line_2 b m).
Proof. intros [] Hb. by constructor. Qed.

Lemma update_header_yields m :
  rules_ok -> message_ok z m ->
  yields True (update_header_host_and_path host_rules_ m) (message_ok z).
Proof.
  intros Hr Hm. pose proof (mb_line2 _ _ Hm) as Hl2. unfold update_header_host_and_path.
  eapply yields_bind; [by apply find_host_yields|]. intros [[i [rules|]]|] Hfound; try done.
  destruct (Hfound i rules eq_refl) as [name Hn]. destruct (Hr _ _ Hn) as [Hdef Hall].
  eapply yields_bind; [by apply forward_url_of_yields|]. intros u [path Hu]. destruct u as [u|].
  - symmetry in Hu. pose proof (find_forward_url_bytes _ _ Hall _ Hu) as Hb.
    eapply yields_bind.
    { apply (append_from_string_yields z.(n_line2)); [by apply kept_reset, stored_kept|].
      apply c_str_ok, Hb. }
    intros b' Hb'. apply set_host_yields; [by apply set_line2_ok|done].
  - eapply yields_bind; [eapply append_to_string_yields; [exact Hl2|apply Hdef]|]. intros base Hbase.
    eapply yields_bind; [apply (append_from_string_yields z.(n_line2)); [done|by apply c_str_ok]|].
    intros b' Hb'. apply set_host_yields; [by apply set_line2_ok|done].
Qed.

(** ** The writer *)

(** The message that is written. *)
Definition written (h : t A) : message_buffer.t :=
  match h.(writer_message_) with
  | Some ERROR_MESSAGE => h.(error_response_)
  | _ => header_handler.message_buffer_ h.(header_handler_)
  end.

(** Another writer position, in the same message. *)
Record same_writing (h h' : t A) : Prop := {
  sw_handler : h' = with_writer h'.(header_writer_) h.(writer_message_) h'.(error_response_)
    (header_handler.with_message (header_handler.message_buffer_ h'.(header_handler_)) h.(header_handler_)) h;
  sw_error : same_message h.(error_response_) h'.(error_response_);
  sw_header : header_handler.message_buffer_ h'.(header_handler_) =
      header_handler.message_buffer_ h.(header_handler_) \/
    written h = header_handler.message_buffer_ h.(header_handler_) /\
    written h' = header_handler.message_buffer_ h'.(header_handler_);
  sw_written : same_message (written h) (written h')
}.

(** The world after something was done with the destination. *)
Record same_but_dest (w w' : world K) : Prop := {
  sb_src : w'.(p_src_data_) = w.(p_src_data_);
  sb_queue : w'.(pipeline_data_queue_) = w.(pipeline_data_queue_);
  sb_heap : w'.(heap_) = w.(heap_);
  sb_cache : w'.(header_cache_) = w.(header_cache_);
  sb_log : w'.(access_log_) = w.(access_log_);
  sb_lines : w'.(log_lines_) = w.(log_lines_)
}.

#[export] Instance same_but_dest_preorder : PreOrder same_but_dest.
Proof. split; [by constructor|]. intros w1 w2 w3 [] []. constructor; congruence. Qed.

Lemma with_dest_same k c (w : world K) : same_but_dest w (with_dest k c w).
Proof. by constructor. Qed.

Lemma with_message_same (hh : header_handler.t) :
  header_handler.with_message (header_handler.message_buffer_ hh) hh = hh.
Proof. by destruct hh. Qed.

Lemma write_message_ok x (h : t A) (w : world K) :
  is_Some h.(writer_message_) -> hw_inv x h.(header_writer_) (written h) -> dest_open w ->
  exists h' w' st l, write_message h w = Ok (h', w', st) /\ same_writing h h' /\ same_but_dest w w' /\
    sent_to_dest w' = sent_to_dest w ++ l /\ dest_open w' /\
    hw_inv x h'.(header_writer_) (written h') /\
    match st with
    | socketlib.COMPLETE => l = pending x h.(header_writer_) (written h) /\ dest_ready w'
    | socketlib.INCOMPLETE | socketlib.DEST_CLOSED =>
        pending x h.(header_writer_) (written h) = l ++ pending x h'.(header_writer_) (written h')
    | _ => False
    end.
Proof.
  intros [mw Em] Hinv (c & Hc & Ho). unfold write_message. rewrite Hc. cbn [of_option]. rewrite bind_ok.
  destruct (write_header_ok x w.(kernel_) _ _ c Hinv Ho (hw_cursor _ _ _ Hinv))
    as ([[[[k' w'] m'] c'] st] & Hr & l & Hsends & Hinv' & Hst).
  pose proof (write_header_same _ _ _ _ _ _ _ _ _ Hr) as Hsame.
  assert (sent_to_dest (with_dest k' c' w) = sent_to_dest w ++ l /\ dest_open (with_dest k' c' w)) as [Hsent Hopen].
  { unfold sent_to_dest, dest_open. rewrite Hc. simpl. rewrite (sd_fd _ _ _ _ _ Hsends).
    split; [apply Hsends|]. exists c'. split; [done|]. by eapply sends_usable. }
  assert (match st with
    | socketlib.COMPLETE => l = pending x h.(header_writer_) (written h) /\
        dest_ready (with_dest k' c' w)
    | socketlib.INCOMPLETE | socketlib.DEST_CLOSED =>
        pending x h.(header_writer_) (written h) = l ++ pending x w' m'
    | _ => False
    end) as Hpost.
  { destruct st; try done; try apply Hst. destruct Hst as (-> & -> & Hrdy). split; [done|]. by exists c. }
  clear Hst.
  unfold written in *. rewrite Em in *.
  destruct mw; unfold header_handler.get_message_buffer; rewrite Hr, bind_ok;
    (eexists _, _, st, l; split; [reflexivity|]; split; [|split; [apply with_dest_same|]]);
    try (split; [exact Hsent|split; [exact Hopen|split; [exact Hinv'|exact Hpost]]]).
  - constructor; unfold written; simpl; rewrite ?Em; try done; [by rewrite with_message_same|by left].
  - constructor; unfold written; simpl; rewrite ?Em; try done. by right.
Qed.

End frame.
