(* ===== verification/StreamMoves.v ===== *)
(** What a call of a stream handler does to the sockets, whatever its state
    and its buffer: it writes to its destination and to no other socket, it
    leaves its source alone, and to a destination that takes no writes it
    sends nothing. *)
From stdpp Require Import list gmap.
From S2P Require Import Prelude Status ReadWriteBuffer HttpLex Interfaces HeaderStore HeaderHandler.
From S2P Require Import HeaderParser HandlerSafety BodyParsers BodyRun Os Connection HeaderWriter Printf.
From S2P Require Import Pipeline Url StreamHandler StreamBody StreamFrame.

Import proxy_stream_interface http_proxy_stream_handler.

Section moves.
Context {K : Type} `{OsLaws K} {A : Type}.

(** ** A connection *)

(** The calls that a connection makes to send. *)
Inductive sends_by (k : K) : K -> Prop :=
  | sends_write fd data : sends_by k (sys_write k fd data).1
  | sends_cork fd v : sends_by k (sys_setsockopt_cork k fd v).

(** The connection after some writes. *)
Record moved (k : K) (c : connection.t) (k' : K) (c' : connection.t) : Prop := {
  mo_others fd : fd <> connection.fd_ c -> sent k' fd = sent k fd;
  mo_open fd : open_fd k fd -> open_fd k' fd;
  mo_fd : connection.fd_ c' = connection.fd_ c;
  mo_input : connection.buffer_ c' = connection.buffer_ c;
  mo_reads : connection.ready_to_read_ c' = connection.ready_to_read_ c;
  mo_writable : connection.open_for_write c' = true -> connection.open_for_write c = true;
  mo_connected : connection.state_ c' = connection.NOT_CONNECTED -> connection.state_ c = connection.NOT_CONNECTED;
  mo_connecting : connection.state_ c' = connection.CONNECTING -> connection.state_ c = connection.CONNECTING;
  mo_calls : rtc sends_by k k';
  mo_idle : connection.ready_to_write c = false ->
    c' = c /\ sent k' (connection.fd_ c) = sent k (connection.fd_ c)
}.

Lemma moved_refl k c : moved k c k c.
Proof. constructor; try done; apply rtc_refl. Qed.

Lemma moved_trans k c k1 c1 k2 c2 : moved k c k1 c1 -> moved k1 c1 k2 c2 -> moved k c k2 c2.
Proof.
  intros [] []. constructor; try congruence; try by auto.
  - intros fd Hne. rewrite mo_others1 by congruence. auto.
  - by etransitivity.
  - intros Hr. destruct (mo_idle0 Hr) as [-> E]. destruct (mo_idle1 Hr) as [-> E2]. split; [done|congruence].
Qed.

Lemma moved_same k c k' : same_streams sent open_fd k k' -> sends_by k k' -> moved k c k' c.
Proof. intros [] Hs. constructor; try done. by apply rtc_once. Qed.

Lemma moved_shut k c k' :
  same_streams sent open_fd k k' -> sends_by k k' -> connection.ready_to_write c = true ->
  moved k c k' (connection.set_state connection.WRITE_SHUT c).
Proof.
  intros [] Hk Hr. destruct (set_state_fields connection.WRITE_SHUT c) as (? & ? & ?).
  constructor; try done; try congruence. by apply rtc_once.
Qed.

Lemma write_loop_moves fuel : forall k c b k' c' b' st,
  connection.write_loop fuel k c b = Ok (k', c', b', st) -> moved k c k' c'.
Proof.
  induction fuel as [|fuel IH]; intros k c b k' c' b' st Hw; [done|]. cbn [connection.write_loop] in Hw.
  destruct (connection.ready_to_write c) eqn:Er; cbn [negb] in Hw; [|injection Hw as <- <- _ _; apply moved_refl].
  do 4 (apply bind_ok_inv in Hw as (? & _ & Hw)). do 2 (apply bind_ok_inv in Hw as (? & _ & Hw)).
  destruct (_ || _); [injection Hw as <- <- _ _; apply moved_refl|]. apply bind_ok_inv in Hw as (? & _ & Hw).
  destruct (_ =? 0); [injection Hw as <- <- _ _; apply moved_refl|].
  apply bind_ok_inv in Hw as (raw & _ & Hw). apply bind_ok_inv in Hw as (data & _ & Hw).
  pose proof (sends_write k (connection.fd_ c) data) as Hk.
  destruct (sys_write k (connection.fd_ c) data) as [k1 [n|e]] eqn:Es; cbn [fst] in Hk.
  - apply write_takes in Es as (_ & _ & Ho & Hop). apply bind_ok_inv in Hw as (b1 & _ & Hw).
    assert (moved k c k1 c) as Hm by (constructor; try done; try congruence; by apply rtc_once).
    destruct (_ <=? _); [by injection Hw as <- <- _ _|]. eapply moved_trans; [exact Hm|by eapply IH].
  - apply write_fails in Es as [Hs _]. apply bind_ok_inv in Hw as (? & _ & Hw).
    destruct e; try (injection Hw as <- <- _ _; by apply moved_shut).
    + eapply moved_trans; [by apply moved_same|by eapply IH].
    + injection Hw as <- <- _ _. destruct Hs. constructor; try done; [by apply rtc_once|congruence].
Qed.

(** ** The world *)

Definition moves (w w' : world K) : Prop :=
  w'.(p_src_data_) = w.(p_src_data_) /\
  match w.(p_dest_data_), w'.(p_dest_data_) with
  | Some c, Some c' => moved w.(kernel_) c w'.(kernel_) c'
  | None, None => w'.(kernel_) = w.(kernel_)
  | _, _ => False
  end.

#[export] Instance moves_preorder : PreOrder moves.
Proof.
  split.
  - intros w. split; [done|]. destruct (p_dest_data_ w); [apply moved_refl|done].
  - intros w1 w2 w3 [S1 D1] [S2 D2]. split; [congruence|].
    destruct (p_dest_data_ w1), (p_dest_data_ w2), (p_dest_data_ w3); try done; [by eapply moved_trans|congruence].
Qed.

Lemma io_moves w w' : same_io w w' -> moves w w'.
Proof.
  intros []. split; [done|]. rewrite io_dest, io_kernel. destruct (p_dest_data_ w); [apply moved_refl|done].
Qed.

Lemma with_dest_moves (w : world K) c k c' :
  w.(p_dest_data_) = Some c -> moved w.(kernel_) c k c' -> moves w (with_dest k c' w).
Proof. intros Hc Hm. split; [done|]. by rewrite Hc. Qed.

Lemma with_cache_moves c (w : world K) : moves w (with_cache c w).
Proof. split; [done|]. simpl. destruct (p_dest_data_ w); [apply moved_refl|done]. Qed.

Lemma forward_moves (w : world K) b w' b' st : forward w b = Ok (w', b', st) -> moves w w'.
Proof.
  unfold forward. intros Hf. apply bind_ok_inv in Hf as (c & Hc & Hf).
  apply bind_ok_inv in Hf as ([[[k c'] b1] st1] & Hw & [= <- _ _]).
  destruct (p_dest_data_ w) as [c0|] eqn:E; [|done]. injection Hc as ->.
  eapply with_dest_moves; [done|]. by eapply write_loop_moves.
Qed.

Lemma flush_moves (w w' : world K) : flush w = Ok w' -> moves w w'.
Proof.
  unfold flush. intros Hf. apply bind_ok_inv in Hf as (c & Hc & [= <-]).
  destruct (p_dest_data_ w) as [c0|] eqn:E; [|done]. injection Hc as ->.
  eapply with_dest_moves; [done|]. unfold connection.flush, connection.cork_state.
  eapply moved_trans; apply moved_same; (apply cork_streams || constructor).
Qed.

Lemma write_header_loop_moves fuel : forall k w m c k' w' m' c' st,
  header_writer.write_header_loop fuel k w m c = Ok (k', w', m', c', st) -> moved k c k' c'.
Proof.
  induction fuel as [|fuel IH]; intros k w m c k' w' m' c' st Hw; [done|].
  cbn [header_writer.write_header_loop] in Hw. apply bind_ok_inv in Hw as (b & _ & Hw).
  apply bind_ok_inv in Hw as ([[[k1 c1] b1] st1] & Hb & Hw). apply write_loop_moves in Hb.
  apply bind_ok_inv in Hw as ([w1 m1'] & _ & Hw).
  destruct st1; try done; try (injection Hw as <- _ _ <- _; exact Hb).
  destruct (header_writer.advance _); [|injection Hw as <- _ _ <- _; exact Hb].
  eapply moved_trans; [exact Hb|by eapply IH].
Qed.

Lemma write_message_moves (h : t A) (w : world K) h' w' st :
  write_message h w = Ok (h', w', st) -> moves w w'.
Proof.
  unfold write_message. intros Hw. apply bind_ok_inv in Hw as (c & Hc & Hw).
  destruct (p_dest_data_ w) as [c0|] eqn:E; [|done]. injection Hc as ->.
  destruct (writer_message_ h) as [[]|]; [..|done];
    apply bind_ok_inv in Hw as ([[[[k hw] m] c'] st1] & Hr & [= _ <- _]);
    (eapply with_dest_moves; [done|by eapply write_header_loop_moves]).
Qed.

(** ** The turns *)

Definition state_moves (s s' : t A * world K) : Prop := moves s.2 s'.2.

#[export] Instance state_moves_preorder : PreOrder state_moves.
Proof.
  split; [intros s; unfold state_moves; reflexivity|].
  intros s1 s2 s3 H1 H2. unfold state_moves in *. by etransitivity.
Qed.

Lemma parse_body_moves p (s : t A * world K) b st b' p' s' :
  body_parser.parse_body p s b = Ok (st, b', p', s') -> state_moves s s'.
Proof.
  apply body_keeps; try apply _.
  - intros [h w] b1 c r' b2 st1 Hb. simpl in Hb. unfold set_body in Hb.
    apply bind_ok_inv in Hb as ([[w1 b3] st2] & Hf & Hb). apply bind_ok_inv in Hb as (st3 & _ & [= <- _ _]).
    by eapply forward_moves.
  - intros r n r' Hs. simpl in Hs. unfold set_chunk_size in Hs.
    do 8 (apply bind_ok_inv in Hs as (? & _ & Hs)). injection Hs as <-. unfold state_moves. reflexivity.
  - intros [h w] r' st1 Hb. simpl in Hb. unfold forward_chunk_size in Hb.
    apply bind_ok_inv in Hb as ([[w1 b3] st2] & Hf & Hb). apply bind_ok_inv in Hb as (st3 & _ & [= <- _]).
    by eapply forward_moves.
  - intros [h w] r' st1 Hb. simpl in Hb. unfold forward_chunk_trailer in Hb.
    apply bind_ok_inv in Hb as ([[w1 b3] st2] & Hf & Hb). apply bind_ok_inv in Hb as (st3 & _ & [= <- _]).
    by eapply forward_moves.
Qed.

Lemma log_request_moves localtime (h : t A) (w w' : world K) : log_request localtime h w = Ok w' -> moves w w'.
Proof.
  unfold log_request. intros Hl. destruct (negb _); [injection Hl as <-; reflexivity|].
  apply bind_ok_inv in Hl as ([p d] & _ & Hl). destruct (stream_type_ h).
  - apply bind_ok_inv in Hl as (r & _ & [= <-]). apply io_moves, with_queue_io.
  - apply bind_ok_inv in Hl as (r & _ & Hl). apply bind_ok_inv in Hl as ([r2 line] & _ & [= <-]).
    apply io_moves. destruct line; [|apply with_queue_io]. etransitivity; [apply with_queue_io|apply with_log_io].
Qed.

Variable host_rules_ : gmap (list Z) (host_rules.t A).
Variable request_postprocessor_ : option (message_buffer.t -> res (bool * message_buffer.t)).
Variable localtime : nat -> log_record.tm.

Abbreviation turn := (turn host_rules_ request_postprocessor_ localtime).
Abbreviation process_loop := (process_loop host_rules_ request_postprocessor_ localtime).
Abbreviation process_data := (process_data host_rules_ request_postprocessor_ localtime).

Lemma start_moves (h : t A) (w : world K) b o h' w' b' : do_start_message h w b = Ok (o, h', w', b') -> moves w w'.
Proof.
  unfold do_start_message. intros Ht. apply bind_ok_inv in Ht as ([[set h1] w1] & Hs & Ht).
  pose proof (yields_ok _ _ _ _ (set_current_yields h w) Hs) as [Hio _]. apply io_moves in Hio.
  destruct set; cbn [negb] in Ht; [|by injection Ht as _ _ <- _].
  apply bind_ok_inv in Ht as ([p d] & _ & Ht). destruct (pipeline_data.process_type_ d); try by injection Ht as _ _ <- _.
  apply bind_ok_inv in Ht as ([e c] & _ & Ht). apply bind_ok_inv in Ht as (h2 & _ & [= _ _ <- _]).
  etransitivity; [exact Hio|apply with_cache_moves].
Qed.

Lemma header_complete_moves h (w : world K) h' w' :
  header_complete host_rules_ request_postprocessor_ localtime h w = Ok (h', w') -> moves w w'.
Proof.
  unfold header_complete. intros Hc. apply bind_ok_inv in Hc as (m & _ & Hc). apply bind_ok_inv in Hc as (h1 & _ & Hc).
  destruct request_postprocessor_ as [pp|]; [destruct (stream_type_ h1)|].
  - apply bind_ok_inv in Hc as ([[] m2] & _ & Hc); [|injection Hc as _ <-; reflexivity].
    apply bind_ok_inv in Hc as (w1 & Hl & [= _ <-]). by eapply log_request_moves.
  - apply bind_ok_inv in Hc as (w1 & Hl & [= _ <-]). by eapply log_request_moves.
  - apply bind_ok_inv in Hc as (w1 & Hl & [= _ <-]). by eapply log_request_moves.
Qed.

Lemma header_refused_moves st (h : t A) (w w' : world K) st' :
  header_refused st h w = Ok (st', w') -> moves w w'.
Proof.
  unfold header_refused. intros Hr.
  destruct st; try (by injection Hr as _ <-); (destruct (stream_type_ h); [|by injection Hr as _ <-]);
    apply bind_ok_inv in Hr as ([p d] & _ & Hr); apply bind_ok_inv in Hr as ([p2 d2] & _ & [= _ <-]);
    (apply io_moves; etransitivity; apply with_queue_io).
Qed.

Lemma header_moves h (w : world K) b o h' w' b' :
  do_parse_header host_rules_ request_postprocessor_ localtime h w b = Ok (o, h', w', b') -> moves w w'.
Proof.
  unfold do_parse_header. intros Ht. apply bind_ok_inv in Ht as ([[[st b1] p] [hh c]] & _ & Ht).
  etransitivity; [apply (with_cache_moves c)|].
  destruct st; try (apply bind_ok_inv in Ht as ([st2 w2] & Hr & [= _ _ <- _]); by eapply header_refused_moves).
  apply bind_ok_inv in Ht as ([h2 w2] & Hr & [= _ _ <- _]). by eapply header_complete_moves.
Qed.

Lemma push_moves (h : t A) (w : world K) b o h' w' b' : do_push_header h w b = Ok (o, h', w', b') -> moves w w'.
Proof.
  unfold do_push_header. intros Ht. apply bind_ok_inv in Ht as ([[h1 w1] st] & Hw & Ht).
  apply write_message_moves in Hw. destruct st; try (by injection Ht as _ _ <- _).
  unfold header_pushed in Ht. apply bind_ok_inv in Ht as ([p d] & _ & Ht).
  etransitivity; [exact Hw|]. apply io_moves.
  destruct (pipeline_data.process_type_ d); [|destruct (stream_type_ _)|]; injection Ht as _ _ <- _; apply with_queue_io.
Qed.

Lemma initialize_moves (h : t A) (w : world K) h' w' : initialize_state h w = Ok (h', w') -> moves w w'.
Proof.
  unfold initialize_state. intros Hi. apply bind_ok_inv in Hi as ([hh c] & _ & [= _ <-]). apply with_cache_moves.
Qed.

Lemma body_moves (h : t A) (w : world K) b o h' w' b' : do_parse_body h w b = Ok (o, h', w', b') -> moves w w'.
Proof.
  unfold do_parse_body. intros Ht. apply bind_ok_inv in Ht as ([[[st b1] p] [h1 w1]] & Hp & Ht).
  apply parse_body_moves in Hp. unfold state_moves in Hp. simpl in Hp.
  destruct st; try (by injection Ht as _ _ <- _).
  apply bind_ok_inv in Ht as (w2 & Hf & Ht). apply bind_ok_inv in Ht as ([h3 w3] & Hc & [= _ _ <- _]).
  apply flush_moves in Hf. apply initialize_moves in Hc. etransitivity; [exact Hp|]. by etransitivity.
Qed.

Lemma turn_moves h (w : world K) b o h' w' b' : turn h w b = Ok (o, h', w', b') -> moves w w'.
Proof.
  unfold http_proxy_stream_handler.turn. destruct (message_state_ h); intros Ht.
  - by eapply start_moves.
  - by eapply header_moves.
  - by eapply push_moves.
  - by eapply body_moves.
Qed.

Lemma loop_moves fuel : forall h (w : world K) b st h' w' b',
  process_loop fuel h w b = Ok (st, h', w', b') -> moves w w'.
Proof.
  induction fuel as [|fuel IH]; intros h w b st h' w' b' Hp; [done|].
  cbn [http_proxy_stream_handler.process_loop] in Hp. apply bind_ok_inv in Hp as ([[[o h1] w1] b1] & Ht & Hp).
  apply turn_moves in Ht. destruct o; [by injection Hp as _ _ <- _|]. etransitivity; [exact Ht|by eapply IH].
Qed.

Lemma process_moves h (w : world K) b st h' w' b' :
  process_data h w b = Ok (st, h', w', b') -> moves w w'.
Proof.
  unfold http_proxy_stream_handler.process_data. destruct (_ && _); intros Hp.
  - injection Hp as _ _ <- _. reflexivity.
  - by eapply loop_moves.
Qed.

End moves.
