(* ===== verification/ProxyFrame.v ===== *)
(** What the parts of proxy_handler.cpp that are not the stream handlers do to
    a connection and to the sockets: they send nothing, and a destination
    that takes writes goes on taking them. *)
From stdpp Require Import list gmap.
From S2P Require Import Prelude Status ReadWriteBuffer HttpLex Interfaces HeaderStore HeaderHandler.
From S2P Require Import Os Connection Net Poller MemoryManager Pipeline StreamHandler ProxyHandler StreamMoves.

Section frame.
Context {K A : Type} `{NetLaws K A}.

(** The socket is not connected yet. *)
Definition early (c : connection.t) : Prop :=
  connection.state_ c = connection.NOT_CONNECTED \/ connection.state_ c = connection.CONNECTING.

Lemma early_not_ready c : early c -> connection.ready_to_write c = false.
Proof.
  unfold connection.ready_to_write, connection.open_for_write. intros [-> | ->]; simpl; apply andb_false_r.
Qed.

(** A connection after steps that send nothing.  Its buffer is replaced only
    when it was written to its end. *)
Record quiet (k : K) (c : connection.t) (k' : K) (c' : connection.t) : Prop := {
  qu_streams : same_streams sent open_fd k k';
  qu_fd : connection.fd_ c' = connection.fd_ c;
  qu_connected : connection.state_ c' = connection.NOT_CONNECTED ->
    connection.state_ c = connection.NOT_CONNECTED;
  qu_early : early c' -> early c;
  qu_ready : connection.ready_to_write c = true -> connection.ready_to_write c' = true;
  qu_wf : wf (connection.buffer_ c) -> wf (connection.buffer_ c');
  qu_buffer : connection.buffer_ c' = connection.buffer_ c \/
    rwb.fully_written (connection.buffer_ c) = true /\ just_read (connection.buffer_ c')
}.

Lemma quiet_same k c k' : same_streams sent open_fd k k' -> quiet k c k' c.
Proof. intros Hs. constructor; auto. Qed.

Lemma quiet_pollin k c : quiet k c k (connection.set_ready_to_read true c).
Proof. constructor; auto; apply streams_refl. Qed.

Lemma quiet_pollout k c : quiet k c k (connection.set_ready_to_write true c).
Proof.
  constructor; auto; [apply streams_refl|]. unfold connection.ready_to_write. simpl.
  intros [_ Ho]%andb_true_iff. exact Ho.
Qed.

(** Closing the read side of a socket that takes writes leaves it so. *)
Lemma read_shut_ready c :
  connection.ready_to_write c = true ->
  connection.ready_to_write (connection.set_state connection.READ_SHUT c) = true.
Proof.
  unfold connection.ready_to_write, connection.open_for_write, connection.set_state. simpl.
  intros [Hr Ho]%andb_true_iff. destruct (connection.state_ c); try discriminate Ho; simpl; by rewrite Hr.
Qed.

Lemma read_shut_early c : not (early (connection.set_state connection.READ_SHUT c)).
Proof. unfold connection.set_state, early. destruct (_ && _); by intros [?|?]. Qed.

Lemma quiet_read_shut k c k' b :
  same_streams sent open_fd k k' ->
  (wf (connection.buffer_ c) -> wf b) ->
  b = connection.buffer_ c \/ rwb.fully_written (connection.buffer_ c) = true /\ just_read b ->
  quiet k c k' (connection.set_state connection.READ_SHUT (connection.set_read_buffer b c)).
Proof.
  intros Hs Hwf Hb.
  destruct (set_state_fields connection.READ_SHUT (connection.set_read_buffer b c)) as (Ef & Eb & _).
  constructor; rewrite ?Ef, ?Eb; try done.
  - intros E. destruct (read_shut_early (connection.set_read_buffer b c)). by left.
  - intros E. by destruct (read_shut_early (connection.set_read_buffer b c)).
  - intros Hr. by apply read_shut_ready.
Qed.

(** The answer of [getsockopt] makes a connecting socket a connected one. *)
Lemma quiet_connected k c k' :
  same_streams sent open_fd k k' -> connection.state_ c = connection.CONNECTING ->
  quiet k c k' (connection.set_state connection.CONNECTED c).
Proof.
  intros Hs E. constructor; auto; [done|by intros [?|?]|]. unfold connection.ready_to_write, connection.open_for_write.
  rewrite E. simpl. by rewrite andb_false_r.
Qed.

Lemma quiet_read k c k' c' st :
  connection.non_blocking_read k c = Ok (k', c', st) -> wf (connection.buffer_ c) -> quiet k c k' c'.
Proof.
  intros Hr Hwf. unfold connection.non_blocking_read in Hr.
  destruct (connection.ready_to_read c); cbn [negb] in Hr;
    [|injection Hr as <- <- _; apply quiet_same, streams_refl].
  unfold connection.read_buffer in Hr.
  destruct (rwb.fully_written (connection.buffer_ c)) eqn:Ef; cbn [negb] in Hr;
    [|injection Hr as <- <- _; apply quiet_same, streams_refl].
  pose proof (reset_wf _ Hwf) as Hwf0. pose proof (reset_just_read (connection.buffer_ c)) as Hjust. set (b := rwb.reset (connection.buffer_ c)) in *.
  apply bind_ok_inv in Hr as (n & Hn & Hr). apply bind_ok_inv in Hr as (raw & Hraw & Hr).
  apply bind_ok_inv in Hr as (x & _ & Hr). cbn [connection.fd_ connection.set_read_buffer] in Hr.
  assert (0 <= n) as Hn0.
  { apply bind_ok_inv in Hn as (r & _ & [= <-]). apply u32_bound. }
  pose proof (read_streams k (connection.fd_ c) n) as Hs.
  destruct (sys_read k (connection.fd_ c) n) as [k1 [bytes|e]] eqn:Er; cbn [fst] in Hs.
  - apply read_gives in Er as [_ Hbytes]; [|done].
    apply bind_ok_inv in Hr as (raw' & Hm & Hr).
    assert (wf (RWB (Some raw') b.(b_using_static_buffer_) b.(working_length_) b.(process_position_)
      b.(write_end_position_) b.(write_position_))) as Hwf1.
    { destruct Hwf0. unfold rwb.get_raw_buffer in Hraw. rewrite wf_vector in Hraw. injection Hraw as <-.
      apply memcpy_ok in Hm as [Hl Hb]; [|done..]. constructor; unfold raw_of in *; simpl; try done; lia. }
    destruct (_ =? 0).
    + injection Hr as <- <- _. by apply (quiet_read_shut k c); [..|by right].
    + apply bind_ok_inv in Hr as (b' & Hsw & [= <- <- _]).
      pose proof (set_working_length_just_read _ _ _ Hsw) as Hjust2.
      apply (rwb_step_wf _ _ (step_set_working_length _ _ _ (proj1 (u32_bound _)) Hsw)) in Hwf1 as [Hwf2 _].
      constructor; auto.
  - destruct e; injection Hr as <- <- _; try (by apply (quiet_read_shut k c); [..|by right]);
      constructor; auto.
Qed.

Lemma read_calm (k : K) c k' c' st :
  connection.non_blocking_read k c = Ok (k', c', st) ->
  same_events (event_pending (A := A)) (event_watches (A := A)) k k'.
Proof.
  intros Hr. unfold connection.non_blocking_read in Hr.
  destruct (negb (connection.ready_to_read c)); [by injection Hr as <- _ _|].
  destruct (negb _); [by injection Hr as <- _ _|].
  do 3 (apply bind_ok_inv in Hr as (? & _ & Hr)).
  match type of Hr with context [sys_read k ?fd ?n] => pose proof (read_events (A := A) k fd n) as Hs end.
  destruct (sys_read k _ _) as [k1 [bytes|e]]; cbn [fst] in Hs.
  - apply bind_ok_inv in Hr as (? & _ & Hr). destruct (_ =? 0); [by injection Hr as <- _ _|].
    by apply bind_ok_inv in Hr as (? & _ & [= <- _ _]).
  - by destruct e; injection Hr as <- _ _.
Qed.

Lemma read_returns (k : K) c : returns (connection.non_blocking_read k c).
Proof.
  unfold connection.non_blocking_read, rwb.get_physical_length, rwb.get_raw_buffer, rwb.memcpy,
    rwb.set_working_length, rwb.set_write_end_position, rwb.set_write_position, rwb.get_raw_buffer.
  returns_by_cases.
Qed.

(** A ready socket whose buffer was written was read once more; otherwise
    nothing was done. *)
Lemma read_progress `{!FiniteReads K A} (k : K) c k' c' st :
  connection.non_blocking_read k c = Ok (k', c', st) -> connection.ready_to_read c' = true ->
  k' = k /\ c' = c /\ rwb.fully_written (connection.buffer_ c) = false \/
  (read_calls (A := A) k' (connection.fd_ c') < read_calls (A := A) k (connection.fd_ c))%nat.
Proof.
  intros Hc Hrdy. unfold connection.non_blocking_read in Hc.
  destruct (connection.ready_to_read c) eqn:Er; cbn [negb] in Hc.
  2: { injection Hc as <- <- _. congruence. }
  unfold connection.read_buffer in Hc. destruct (rwb.fully_written _) eqn:Ef; cbn [negb] in Hc.
  2: { injection Hc as <- <- _. by left. }
  right. do 3 (apply bind_ok_inv in Hc as (? & _ & Hc)).
  destruct (sys_read _ _ _) as [k1 [bytes|er]] eqn:Es.
  - pose proof (read_answers _ _ _ _ _ Es ltac:(done)) as Hlt. simpl in Hlt. apply bind_ok_inv in Hc as (? & _ & Hc).
    destruct (_ =? 0).
    + injection Hc as <- <- _. by rewrite (proj1 (set_state_fields _ _)).
    + by apply bind_ok_inv in Hc as (b & _ & [= <- <- _]).
  - assert (er <> EAGAIN -> (read_calls (A := A) k1 (connection.fd_ c) < read_calls (A := A) k (connection.fd_ c))%nat)
      as Hlt by (intros Hne; exact (read_answers _ _ _ _ _ Es ltac:(congruence))).
    destruct er; injection Hc as <- <- _; rewrite ?(proj1 (set_state_fields _ _)); try by apply Hlt.
Qed.

(** ** What a proxy leaves alone *)

Import proxy_handler.

(** The events other than those of the proxy are as before. *)
Definition other_events (p : proxy_handler.t A) (k k' : K) : Prop := forall a,
  a <> event.event_ p.(client_event_) -> a <> event.event_ p.(server_event_) ->
  event_pending (A := A) k' a = event_pending (A := A) k a /\
  event_watches (A := A) k' a = event_watches (A := A) k a.

(** The event structures are where they were. *)
Definition same_addresses (p p' : proxy_handler.t A) : Prop :=
  event.event_ p'.(client_event_) = event.event_ p.(client_event_) /\
  event.event_ p'.(server_event_) = event.event_ p.(server_event_).

Lemma other_events_refl p k : other_events p k k.
Proof. done. Qed.

Lemma other_events_same p k k' :
  same_events (event_pending (A := A)) (event_watches (A := A)) k k' -> other_events p k k'.
Proof. intros Hs a _ _. apply Hs. Qed.

Lemma other_events_client p k k' :
  touches (A := A) (event.event_ p.(client_event_)) k k' -> other_events p k k'.
Proof. intros [] a Hc _. auto. Qed.

Lemma other_events_server p k k' :
  touches (A := A) (event.event_ p.(server_event_)) k k' -> other_events p k k'.
Proof. intros [] a _ Hs. auto. Qed.

Lemma other_events_trans p p2 k1 k2 k3 :
  same_addresses p p2 -> other_events p k1 k2 -> other_events p2 k2 k3 -> other_events p k1 k3.
Proof.
  intros [Ec Es] E1 E2 a Hc Hs. destruct (E1 a Hc Hs) as [<- <-]. apply E2; congruence.
Qed.

(** Sending changes no event. *)
Lemma calls_events k k' :
  rtc sends_by k k' -> same_events (event_pending (A := A)) (event_watches (A := A)) k k'.
Proof.
  induction 1 as [k|k1 k2 k3 Hs _ IH]; [done|]. intros a. destruct (IH a) as [-> ->].
  destruct Hs; [apply write_events|apply cork_events].
Qed.

Lemma sends_reads `{!FiniteReads K A} (k k' : K) fd :
  rtc sends_by k k' -> (read_calls (A := A) k' fd <= read_calls (A := A) k fd)%nat.
Proof.
  induction 1 as [|k1 k2 k3 Hs _ IH]; [done|]. transitivity (read_calls (A := A) k2 fd); [done|].
  destruct Hs; [apply reads_write|apply reads_cork].
Qed.

Lemma sends_events p k k' : rtc sends_by k k' -> other_events p k k'.
Proof. intros Hs. by apply other_events_same, calls_events. Qed.

(** Steps of a connection that goes on: it sends to its own sockets only, it
    opens sockets and closes none, it changes its own stream handlers only,
    and takes nothing from the pools. *)
Record confined (p : proxy_handler.t A) (e : env K A) (p' : proxy_handler.t A) (e' : env K A) : Prop := {
  cn_client : connection.fd_ p'.(client_data_) = connection.fd_ p.(client_data_);
  cn_server : connection.fd_ p'.(server_data_) = connection.fd_ p.(server_data_) \/
    connection.fd_ p'.(server_data_) = -1 \/ not (open_fd e.(env_kernel) (connection.fd_ p'.(server_data_)));
  cn_handlers s : handler_of s p' = handler_of s p;
  cn_addresses : same_addresses p p';
  cn_events : other_events p e.(env_kernel) e'.(env_kernel);
  cn_sent fd : fd = -1 \/ open_fd e.(env_kernel) fd /\ fd <> connection.fd_ p.(client_data_) /\
      fd <> connection.fd_ p.(server_data_) ->
    sent e'.(env_kernel) fd = sent e.(env_kernel) fd;
  cn_open fd : open_fd e.(env_kernel) fd -> open_fd e'.(env_kernel) fd;
  cn_streams q : (forall s, handler_of s p <> Some q) -> e'.(env_streams) !! q = e.(env_streams) !! q;
  cn_requests : e'.(request_stream_handlers) = e.(request_stream_handlers);
  cn_responses : e'.(response_stream_handlers) = e.(response_stream_handlers);
  cn_proxies : e'.(proxy_handlers) = e.(proxy_handlers)
}.

Lemma confined_refl p e : confined p e p e.
Proof. by constructor; auto. Qed.

Lemma confined_trans p1 e1 p2 e2 p3 e3 : confined p1 e1 p2 e2 -> confined p2 e2 p3 e3 -> confined p1 e1 p3 e3.
Proof.
  intros [C1 V1 H1' A1 E1 S1 O1 T1 Q1 R1 P1] [C2 V2 H2' A2 E2 S2 O2 T2 Q2 R2 P2]. constructor; try congruence.
  - destruct V2 as [->|[V2|V2]]; auto 6.
  - destruct A1, A2. split; congruence.
  - by eapply other_events_trans.
  - intros fd Hfd. rewrite S2; [by apply S1|]. destruct (decide (fd = -1)) as [E|Hne]; [by left|right].
    destruct Hfd as [?|(Ho & Hc & Hs)]; [done|]. split; [auto|]. rewrite C1. split; [done|].
    destruct V1 as [->|[V1|V1]]; [done|congruence|]. intros ->. done.
  - auto.
  - intros q Hq. rewrite T2; [by apply T1|]. intros s. by rewrite H1'.
Qed.

(** Steps of which the kernel's part sends nothing. *)
Lemma confined_same p e p' k' :
  same_streams sent open_fd e.(env_kernel) k' -> other_events p e.(env_kernel) k' ->
  connection.fd_ p'.(client_data_) = connection.fd_ p.(client_data_) ->
  connection.fd_ p'.(server_data_) = connection.fd_ p.(server_data_) ->
  (forall s, handler_of s p' = handler_of s p) -> same_addresses p p' -> confined p e p' (with_kernel k' e).
Proof. intros [Hs Ho] He Hc Hv Hh Ha. constructor; auto. Qed.

Lemma confined_flag p e p' :
  connection.fd_ p'.(client_data_) = connection.fd_ p.(client_data_) ->
  connection.fd_ p'.(server_data_) = connection.fd_ p.(server_data_) ->
  (forall s, handler_of s p' = handler_of s p) -> same_addresses p p' -> confined p e p' e.
Proof. intros Hc Hv Hh Ha. constructor; try done; auto. Qed.

End frame.
