(* ===== verification/ClientEvents.v ===== *)
(** The life of a connection that this side begins, client/client_handler.cpp,
    with any client that keeps the promises below: from the first call of
    [connect] to the deletion of the object it waits for the events it needs,
    every event is handled in finitely many steps, and when the object is
    deleted no event is left that would call it. *)
From stdpp Require Import list gmap.
From S2P Require Import Prelude Status ReadWriteBuffer Os Connection Net Poller StreamMoves ProxyFrame ClientHandler.

Import client_handler.

(** * What a client promises *)

(** What happens to the socket behind the client's back: it is read when its
    buffer was written to its end, and its state changes. *)
Record follows {K} `{OsLaws K} (k : K) (d : connection.t) (k' : K) (d' : connection.t) : Prop := {
  fo_sent : sent k' (connection.fd_ d) = sent k (connection.fd_ d);
  fo_open : open_fd k (connection.fd_ d) -> open_fd k' (connection.fd_ d);
  fo_fd : connection.fd_ d' = connection.fd_ d;
  fo_wf : wf (connection.buffer_ d) -> wf (connection.buffer_ d');
  fo_buffer : connection.buffer_ d' = connection.buffer_ d \/
    rwb.fully_written (connection.buffer_ d) = true /\ just_read (connection.buffer_ d')
}.

(** The calls a client makes on the connection it is given. *)
Record uses {K} `{OsLaws K} (k : K) (d : connection.t) (k' : K) (d' : connection.t) : Prop := {
  us_fd : connection.fd_ d' = connection.fd_ d;
  us_reads : connection.ready_to_read_ d' = connection.ready_to_read_ d;
  us_open fd : open_fd k fd -> open_fd k' fd;
  us_calls : rtc sends_by k k'
}.

(** A client waits for the connection ([client_waiting]), serves it, or is
    done with it and says so by a status.  It can be shut down at any time
    ([client_sound]).  A client that asks for more to read has come to the
    end of the buffer, or its effort, which is bounded, has become less. *)
Class ClientLaws (K C : Type) `{OsLaws K, !i_client K C} := {
  client_waiting : K -> C -> connection.t -> Prop;
  client_serving : K -> C -> connection.t -> Prop;
  client_done : socketlib.STATUS -> K -> C -> connection.t -> Prop;
  client_sound : C -> Prop;
  client_effort : C -> Z;
  client_bound : Z;
  waiting_follows k c d k' d' : client_waiting k c d -> follows k d k' d' -> client_waiting k' c d';
  serving_follows k c d k' d' : client_serving k c d -> follows k d k' d' -> client_serving k' c d';
  waiting_sound k c d : client_waiting k c d -> client_sound c;
  serving_sound k c d : client_serving k c d -> client_sound c /\ 0 <= client_effort c <= client_bound;
  done_sound st k c d : client_done st k c d -> client_sound c;
  notified_sound c : client_sound c ->
    client_sound (client_timeout (K := K) c) /\ client_sound (client_connect_failed (K := K) c);
  shutdown_yields c : client_sound c -> yields True (client_shutdown (K := K) c) (fun _ => True);
  connect_serves k c d : client_waiting k c d -> open_fd k (connection.fd_ d) ->
    yields True (client_connect k c d) (fun '(k', c', d') => uses k d k' d' /\
      client_serving k' c' d' /\ connection.state_ d' = connection.state_ d /\ wf (connection.buffer_ d'));
  stream_serves k c d : client_serving k c d -> open_fd k (connection.fd_ d) ->
    wf (connection.buffer_ d) ->
    yields True (client_handle_stream k c d) (fun '(st, k', c', d') =>
      uses k d k' d' /\ wf (connection.buffer_ d') /\
      match st with
      | socketlib.COMPLETE | socketlib.DENY | socketlib.DEST_CLOSED => client_done st k' c' d'
      | socketlib.READ_INCOMPLETE => client_serving k' c' d' /\ connection.open_for_read d' = true /\
          connection.state_ d' = connection.state_ d /\
          (rwb.fully_written (connection.buffer_ d') = true \/ client_effort c' < client_effort c)
      | socketlib.WRITE_INCOMPLETE => client_serving k' c' d' /\ connection.ready_to_write d' = false /\
          connection.state_ d' = connection.state_ d
      | _ => False
      end)
}.

(** * The handler *)
Section events.
Context {K A C M : Type} `{NetLaws K A, !FiniteReads K A, !i_client K C, !ClientLaws K C, !i_fp_monitor M}.
Abbreviation state := (client_handler.state K C M).

(** Between its first and its last event. *)
Record alive (s : state) : Prop := {
  al_fd : connection.fd_ (data s) <> -1;
  al_open : open_fd s.(kernel_) (connection.fd_ (data s));
  al_event : event.fd_ (event_of s) = connection.fd_ (data s);
  al_wf : wf (connection.buffer_ (data s));
  al_client : exists c, s.(handler_).(p_client_) = Some c /\
    (connection.state_ (data s) = connection.CONNECTING /\ client_waiting s.(kernel_) c (data s) \/
     connection.open_for_write (data s) = true /\ client_serving s.(kernel_) c (data s))
}.

(** The event is registered for what the socket has to wait for. *)
Definition waits (s : state) : Prop :=
  let m := if decide (connection.state_ (data s) = connection.CONNECTING)
           then Z.lor EV_READ EV_WRITE else wanted (data s) in
  poller.pending A s.(kernel_) (event_of s) = true /\ m <> 0 /\
  event_watches (A := A) s.(kernel_) (event.event_ (event_of s)) = (connection.fd_ (data s), m).

(** Why the object was deleted: [c] is the client as it was shut down. *)
Inductive cause (s : state) (k' : K) : C -> Prop :=
  | by_timeout c : s.(handler_).(p_client_) = Some c -> cause s k' (client_timeout (K := K) c)
  | by_connect c : s.(handler_).(p_client_) = Some c ->
      connection.state_ (data s) = connection.CONNECTING -> cause s k' (client_connect_failed (K := K) c)
  | by_stream st k c d : client_done st k c d -> connection.fd_ d = connection.fd_ (data s) ->
      sent k' (connection.fd_ (data s)) = sent k (connection.fd_ (data s)) -> cause s k' c.

(** What a deleted object leaves: no event that would call it, and a client
    that was told. *)
Record gone (s s' : state) : Prop := {
  go_event : event.event_ (event_of s') = event.event_ (event_of s);
  go_pending : event_pending (A := A) s'.(kernel_) (event.event_ (event_of s')) = false;
  go_fd : connection.fd_ (data s') = -1;
  go_client : exists c c', cause s s'.(kernel_) c /\ client_shutdown (K := K) c = Ok c' /\
    s'.(handler_).(p_client_) = Some c'
}.

(** ** The end *)

Lemma shutdown_gone (s : state) c :
  connection.fd_ (data s) <> -1 ->
  (poller.pending A s.(kernel_) (event_of s) = true -> event.fd_ (event_of s) <> -1) ->
  s.(handler_).(p_client_) = Some c -> client_sound c ->
  yields True (client_handler.shutdown (A := A) s) (fun s' =>
    event_of s' = event_of s /\ event_pending (A := A) s'.(kernel_) (event.event_ (event_of s')) = false /\
    connection.fd_ (data s') = -1 /\
    sent s'.(kernel_) (connection.fd_ (data s)) = sent s.(kernel_) (connection.fd_ (data s)) /\
    exists c', client_shutdown (K := K) c = Ok c' /\ s'.(handler_).(p_client_) = Some c').
Proof.
  intros Hfd Hev Hc Hs. unfold client_handler.shutdown, connection.fd.
  destruct (Z.eqb_spec (connection.fd_ (data s)) (-1)) as [|_]; [done|]. cbn [negb].
  set (P := fun k : K => poller.pending A k (event_of s) = false /\
    sent k (connection.fd_ (data s)) = sent s.(kernel_) (connection.fd_ (data s))).
  eapply (yields_bind _ _ _ (fun s1 : state => event_of s1 = event_of s /\ P s1.(kernel_) /\
    connection.fd_ (data s1) = -1 /\ s1.(handler_).(p_client_) = Some c)).
  - eapply (yields_bind _ _ _ P).
    + destruct (poller.pending A s.(kernel_) (event_of s)) eqn:Ep; [|done].
      eapply yields_mono; [apply del_event_yields|]. intros k [[[Hsent _] _ _] Hp].
      split; [apply Hp; auto|apply Hsent].
    + intros k [Hp Hsent]. destruct s as [k0 [c0 d0 e0 t0] m]. simpl in *. unfold data. simpl.
      split; [done|]. split; [|done]. split.
      * unfold poller.pending in *. by rewrite (proj1 (close_events (A := A) k (connection.fd_ d0) (event.event_ e0))).
      * by rewrite close_sent.
  - intros s1 (E1 & [Hp Hsent] & Hfd1 & Hc1). rewrite Hc1.
    pose proof (shutdown_yields (K := K) c Hs) as Hy.
    destruct (client_shutdown (K := K) c) as [c'| | |]; try done. rewrite bind_ok. cbn [yields].
    change (event_of (with_client (Some c') s1)) with (event_of s1). rewrite E1.
    split; [done|]. split; [exact Hp|]. split; [done|]. split; [done|]. by exists c'.
Qed.

(** The object is deleted for a reason. *)
Lemma shutdown_ends (s s1 : state) c :
  connection.fd_ (data s1) <> -1 -> event.fd_ (event_of s1) = connection.fd_ (data s1) ->
  event.event_ (event_of s1) = event.event_ (event_of s) -> connection.fd_ (data s1) = connection.fd_ (data s) ->
  s1.(handler_).(p_client_) = Some c -> client_sound c ->
  (forall k', sent k' (connection.fd_ (data s)) = sent s1.(kernel_) (connection.fd_ (data s)) -> cause s k' c) ->
  yields True (client_handler.shutdown (A := A) s1) (gone s).
Proof.
  intros Hfd Hev Ea Ef Hc Hs Hcause. eapply yields_mono; [apply shutdown_gone; [done|congruence|done..]|].
  intros s2 (E2 & Hp & Hfd2 & Hsent & c' & Hsh & Hc'). constructor; [by rewrite E2|done|done|].
  exists c, c'. split; [apply Hcause; by rewrite <- Ef|done].
Qed.

(** ** The socket *)

Lemma follows_refl (k : K) d : follows k d k d.
Proof. constructor; auto. Qed.

(** The kernel between two events: other connections are served. *)
Record meanwhile (fd : Z) (k k' : K) : Prop := {
  mw_sent : sent k' fd = sent k fd;
  mw_open : open_fd k fd -> open_fd k' fd
}.

Lemma follows_meanwhile (k : K) d k' : meanwhile (connection.fd_ d) k k' -> follows k d k' d.
Proof. intros []. constructor; auto. Qed.

Lemma follows_quiet (k : K) d k' d' : quiet k d k' d' -> follows k d k' d'.
Proof. intros [[Hs Ho] Hf _ _ _ Hw Hb]. constructor; auto. Qed.

(** The object with another kernel and socket. *)
Lemma alive_follows (s : state) k d :
  alive s -> follows s.(kernel_) (data s) k d ->
  (connection.state_ (data s) = connection.CONNECTING -> connection.state_ d = connection.CONNECTING) ->
  (connection.open_for_write (data s) = true -> connection.open_for_write d = true) ->
  alive (with_data k d s).
Proof.
  intros [Hfd Ho He Hw (c & Hc & Hcl)] Hf Hst Hop. pose proof Hf as [Fs Fo Ff Fw _].
  constructor; unfold data, event_of in *; simpl; rewrite ?Ff; auto.
  exists c. split; [done|]. destruct Hcl as [[E Hcl]|[E Hcl]]; [left|right]; (split; [by auto|]).
  - by eapply waiting_follows.
  - by eapply serving_follows.
Qed.

(** ** The loop *)

Definition connected (s : state) : Prop := connection.open_for_write (data s) = true.

Lemma open_not_connecting d : connection.open_for_write d = true -> connection.state_ d <> connection.CONNECTING.
Proof. unfold connection.open_for_write. by destruct (connection.state_ d). Qed.

Lemma alive_connected (s : state) : alive s -> connected s ->
  exists c, s.(handler_).(p_client_) = Some c /\ client_serving s.(kernel_) c (data s).
Proof.
  intros [_ _ _ _ (c & Hc & [[E _]|[_ Hcl]])] Hn; [by destruct (open_not_connecting _ Hn)|]. by exists c.
Qed.

(** The reads that the socket still answers, and of the buffer that was read
    last, what the client can do with it. *)
Definition level (s : state) : Z :=
  if rwb.fully_written (connection.buffer_ (data s)) then 0
  else match s.(handler_).(p_client_) with Some c => 1 + client_effort (K := K) c | None => 0 end.

Definition bound : Z := 2 + Z.max 0 (client_bound (K := K) (C := C)).

Definition measure (s : state) : Z :=
  bound * Z.of_nat (read_calls (A := A) s.(kernel_) (connection.fd_ (data s))) + level s.

Lemma level_bounds (s : state) : alive s -> connected s -> 0 <= level s < bound.
Proof.
  intros Ha Hn. destruct (alive_connected s Ha Hn) as (c & Hc & Hs).
  destruct (serving_sound _ _ _ Hs) as [_ He]. unfold level, bound. rewrite Hc. destruct (rwb.fully_written _); lia.
Qed.

(** Only the socket, its kernel and the client change. *)
Record same_object (s s' : state) : Prop := {
  so_fd : connection.fd_ (data s') = connection.fd_ (data s);
  so_event : event_of s' = event_of s;
  so_others e : event_pending (A := A) s'.(kernel_) e = event_pending (A := A) s.(kernel_) e /\
    event_watches (A := A) s'.(kernel_) e = event_watches (A := A) s.(kernel_) e
}.

#[export] Instance same_object_preorder : PreOrder same_object.
Proof.
  split; [by intros s|]. intros s1 s2 s3 [] []. constructor; [congruence|congruence|].
  intros e. destruct (so_others0 e), (so_others1 e). split; congruence.
Qed.

Lemma read_writable (k : K) d k' d' st :
  connection.non_blocking_read k d = Ok (k', d', st) ->
  connection.open_for_write d = true -> connection.open_for_write d' = true.
Proof.
  intros Hr Ho. unfold connection.non_blocking_read in Hr.
  destruct (connection.ready_to_read d); cbn [negb] in Hr; [|by injection Hr as <- <- _].
  destruct (rwb.fully_written _); cbn [negb] in Hr; [|by injection Hr as <- <- _].
  assert (forall b, connection.open_for_write
    (connection.set_state connection.READ_SHUT (connection.set_read_buffer b d)) = true) as Hshut.
  { intros b. revert Ho. unfold connection.open_for_write, connection.set_state. simpl.
    by destruct (connection.state_ d). }
  do 3 (apply bind_ok_inv in Hr as (? & _ & Hr)). destruct (sys_read _ _ _) as [k1 [bytes|e]].
  - apply bind_ok_inv in Hr as (? & _ & Hr). destruct (_ =? 0); [injection Hr as <- <- _; apply Hshut|].
    by apply bind_ok_inv in Hr as (b & _ & [= <- <- _]).
  - destruct e; injection Hr as <- <- _; done || apply Hshut.
Qed.

(** The read at the beginning of a turn. *)
Lemma read_turn (s0 s : state) k d st :
  alive s -> connected s -> same_object s0 s -> connection.non_blocking_read s.(kernel_) (data s) = Ok (k, d, st) ->
  let s1 := with_data k d s in
  alive s1 /\ connected s1 /\ same_object s0 s1 /\
  (connection.ready_to_read d = true ->
    s1 = s /\ rwb.fully_written (connection.buffer_ (data s)) = false \/
    (read_calls (A := A) k (connection.fd_ d) < read_calls (A := A) s.(kernel_) (connection.fd_ (data s)))%nat).
Proof.
  intros Ha Hn Hso Hr. pose proof (quiet_read _ _ _ _ _ Hr (al_wf _ Ha)) as Hq.
  pose proof (read_writable _ _ _ _ _ Hr Hn) as Hn1.
  assert (alive (with_data k d s)) as Ha1.
  { apply alive_follows; [done|by apply follows_quiet| |done]. intros E. by destruct (open_not_connecting _ Hn). }
  split; [done|]. split; [done|]. split.
  - etransitivity; [exact Hso|]. constructor; [apply Hq|done|]. exact (read_calm _ _ _ _ _ Hr).
  - intros Hrdy. destruct (read_progress _ _ _ _ _ Hr Hrdy) as [(-> & -> & Ef)|Hlt]; [left|by right].
    split; [by destruct s as [? [] ?]|done].
Qed.

(** What a turn comes to; [s0] is the object when the event came. *)
Definition turn_post (s0 s : state) (x : turn_end * state) : Prop :=
  let '(e, s') := x in
  match e with
  | CONTINUE => alive s' /\ connected s' /\ same_object s0 s' /\ measure s' < measure s
  | BREAK => alive s' /\ connected s' /\ same_object s0 s' /\ wanted (data s') <> 0
  | RETURN => gone s0 s'
  end.

Lemma wants_read d :
  connection.ready_to_read d = false -> connection.open_for_read d = true -> wanted d <> 0.
Proof. intros E1 E2. unfold wanted. rewrite E1, E2. simpl. by destruct (_ && _). Qed.

Lemma wants_write d :
  connection.ready_to_write d = false -> connection.open_for_write d = true -> wanted d <> 0.
Proof. intros E1 E2. unfold wanted. rewrite E1, E2. simpl. by destruct (_ && _). Qed.

(** The client was given the connection. *)
Lemma streamed (s0 s : state) k c d :
  alive s -> connected s -> same_object s0 s -> uses s.(kernel_) (data s) k d ->
  let s1 := with_client (Some c) (with_data k d s) in
  same_object s0 s1 /\
  (client_serving k c d -> wf (connection.buffer_ d) -> connection.state_ d = connection.state_ (data s) ->
   alive s1 /\ connected s1).
Proof.
  intros [] Hn Hso [] s1. split.
  - etransitivity; [exact Hso|]. constructor; [done|done|]. exact (calls_events _ _ us_calls0).
  - intros Hs Hwf Est. assert (connected s1) as Hn1.
    { unfold connected, connection.open_for_write, data, s1 in *. simpl. by rewrite Est. }
    split; [|done]. constructor; unfold data, event_of, s1 in *; simpl; rewrite ?us_fd0; auto.
    exists c. split; [done|]. by right.
Qed.

Lemma read_fewer (s : state) k d :
  uses s.(kernel_) (data s) k d ->
  (read_calls (A := A) k (connection.fd_ d) <= read_calls (A := A) s.(kernel_) (connection.fd_ (data s)))%nat.
Proof. intros []. rewrite us_fd0. by apply sends_reads. Qed.

Definition reads (s : state) : nat := read_calls (A := A) s.(kernel_) (connection.fd_ (data s)).

(** The socket was read again, or the client came nearer to the end of the
    buffer. *)
Lemma measure_falls (s s1 s2 : state) c c2 :
  alive s -> connected s -> alive s2 -> connected s2 ->
  s1 = s /\ rwb.fully_written (connection.buffer_ (data s)) = false \/ (reads s1 < reads s)%nat ->
  (reads s2 <= reads s1)%nat -> s1.(handler_).(p_client_) = Some c -> s2.(handler_).(p_client_) = Some c2 ->
  rwb.fully_written (connection.buffer_ (data s2)) = true \/
  client_effort (K := K) c2 < client_effort (K := K) c ->
  measure s2 < measure s.
Proof.
  intros Ha Hn Ha2 Hn2 Hread Hle Hc Hc2 Hp. pose proof (level_bounds s Ha Hn). pose proof (level_bounds s2 Ha2 Hn2).
  unfold measure. fold (reads s) (reads s2). destruct Hread as [[-> Ef]|Hlt]; [|nia].
  assert (level s2 < level s) as Hl; [|nia]. destruct (alive_connected _ Ha Hn) as (c' & Hc' & Hs).
  rewrite Hc in Hc'. injection Hc' as <-. destruct (serving_sound _ _ _ Hs) as [_ He].
  unfold level. rewrite Ef, Hc, Hc2. destruct Hp as [-> |Hp]; [lia|].
  destruct (alive_connected _ Ha2 Hn2) as (c' & Hc' & Hs'). rewrite Hc2 in Hc'. injection Hc' as <-.
  destruct (rwb.fully_written (connection.buffer_ (data s2))); lia.
Qed.

Lemma client_turn_ok (s0 s : state) :
  alive s -> connected s -> same_object s0 s -> yields True (client_handler.turn (A := A) s) (turn_post s0 s).
Proof.
  intros Ha Hn Hso. unfold client_handler.turn. pose proof (read_returns s.(kernel_) (data s)) as Hret.
  destruct (connection.non_blocking_read _ _) as [[[k d] rst]| | |] eqn:Er; try done. rewrite bind_ok.
  destruct (read_turn s0 s k d rst Ha Hn Hso Er) as (Ha1 & Hn1 & Hso1 & Hread). set (s1 := with_data k d s) in *.
  destruct (alive_connected _ Ha1 Hn1) as (c & Hc & Hs). unfold client_handler.handle_stream. rewrite Hc.
  pose proof (stream_serves _ _ _ Hs (al_open _ Ha1) (al_wf _ Ha1)) as Hy.
  destruct (client_handle_stream s1.(kernel_) c (data s1)) as [[[[st k2] c2] d2]| | |]; try done. rewrite !bind_ok.
  destruct Hy as (Hu & Hwf2 & Hst). destruct (streamed s0 s1 k2 c2 d2 Ha1 Hn1 Hso1 Hu) as [Hso2 Hnext].
  set (s2 := with_client (Some c2) (with_data k2 d2 s1)) in *.
  assert (client_done st k2 c2 d2 -> yields True (client_handler.shutdown (A := A) s2) (gone s0)) as Hend.
  { intros Hd. apply (shutdown_ends s0 s2 c2); try done.
    - rewrite (so_fd _ _ Hso2), <- (so_fd _ _ Hso1). apply Ha1.
    - rewrite (so_event _ _ Hso2), (so_fd _ _ Hso2), <- (so_event _ _ Hso1), <- (so_fd _ _ Hso1). apply Ha1.
    - by rewrite (so_event _ _ Hso2).
    - apply Hso2.
    - by eapply done_sound.
    - intros k' Hk. eapply by_stream; [exact Hd|exact (so_fd _ _ Hso2)|exact Hk]. }
  assert (client_done st k2 c2 d2 -> yields True (s ← client_handler.shutdown (A := A) s2; Ok (RETURN, s)) (turn_post s0 s))
    as Hret2 by (intros Hd; eapply yields_bind; [by apply Hend|by intros s3]).
  pose proof (read_fewer s1 k2 d2 Hu) as Hfew.
  destruct st; try done; try (by apply Hret2); cbn [stream_status].
  - destruct Hst as (Hs2 & Hor & Est & Hp). destruct (Hnext Hs2 Hwf2 Est) as [Ha2 Hn2].
    change (data s2) with d2. rewrite Hor. cbn [negb].
    destruct (connection.ready_to_read d2) eqn:Erdy; simpl; (split; [done|]); (split; [done|]); (split; [done|]).
    + apply (measure_falls s s1 s2 c c2); try done. apply Hread.
      revert Erdy. unfold connection.ready_to_read, connection.open_for_read.
      rewrite (us_reads _ _ _ _ Hu), Est. done.
    + by apply wants_read.
  - destruct Hst as (Hs2 & Hw & Est). destruct (Hnext Hs2 Hwf2 Est) as [Ha2 Hn2].
    unfold connected in Hn2. rewrite Hn2. change (data s2) with d2 in *. rewrite Hw. simpl.
    split; [done|]. split; [done|]. split; [done|]. by apply wants_write.
Qed.

(** What a call of the loop leaves. *)
Definition loop_post (s0 : state) (x : life * state) : Prop :=
  let '(l, s') := x in
  match l with
  | Alive => alive s' /\ connected s' /\ same_object s0 s' /\ wanted (data s') <> 0
  | Deleted => gone s0 s'
  end.

Lemma client_loop_ok (s0 : state) : forall fuel s, alive s -> connected s -> same_object s0 s ->
  measure s < Z.of_nat fuel -> yields True (event_loop (A := A) fuel s) (loop_post s0).
Proof.
  induction fuel as [|fuel IH]; intros s Ha Hn Hso Hf.
  - pose proof (level_bounds s Ha Hn). unfold measure, bound in *. nia.
  - cbn [event_loop]. eapply yields_bind; [by apply client_turn_ok|]. intros [[] s1] Hp; [|exact Hp..].
    destruct Hp as (Ha1 & Hn1 & Hso1 & Hlt). apply IH; try done. lia.
Qed.

(** ** The events *)

(** The answer of the connection that was begun. *)
Lemma server_connect_ok (s : state) c :
  alive s -> connection.state_ (data s) = connection.CONNECTING -> s.(handler_).(p_client_) = Some c ->
  client_waiting s.(kernel_) c (data s) ->
  yields True (handle_server_connect (A := A) s) (fun '(s1, st) =>
    st = socketlib.COMPLETE /\ alive s1 /\ connected s1 /\ same_object s s1 /\ (reads s1 <= reads s)%nat \/
    st = socketlib.CONNECTION_FAILED /\
    exists k, s1 = with_data k (data s) s /\ same_object s s1 /\
      sent k (connection.fd_ (data s)) = sent s.(kernel_) (connection.fd_ (data s))).
Proof.
  intros Ha E Hc Hw. unfold handle_server_connect.
  pose proof (so_error_streams s.(kernel_) (connection.fd (data s))) as Hs.
  pose proof (so_error_events s.(kernel_) (connection.fd (data s))) as He.
  pose proof (reads_so_error s.(kernel_) (connection.fd (data s)) (connection.fd_ (data s))) as Hr.
  destruct (sys_getsockopt_error _ _) as [k error]. cbn [fst] in Hs, He, Hr. destruct Hs as [Hs Ho].
  destruct (bool_decide_reflect (error = Some 0)) as [_|_].
  2: { simpl. right. split; [done|]. exists k. split; [done|]. split; [by constructor|apply Hs]. }
  rewrite Hc. cbn [of_option]. rewrite bind_ok. set (d := connection.set_state connection.CONNECTED (data s)).
  assert (client_waiting k c d) as Hw1.
  { eapply waiting_follows; [exact Hw|]. constructor; auto. }
  destruct Ha as [Hfd Hopen Hev Hwf _].
  pose proof (connect_serves k c d Hw1 (Ho _ Hopen)) as Hy.
  destruct (client_connect k c d) as [[[k2 c2] d2]| | |]; try done. rewrite bind_ok.
  destruct Hy as (Hu & Hsv & Est & Hwf2). simpl. left. split; [done|].
  assert (connection.state_ d2 = connection.CONNECTED) as Est2 by by rewrite Est.
  assert (connected (with_client (Some c2) (with_data k2 d2 s))) as Hn.
  { unfold connected, data, connection.open_for_write. simpl. by rewrite Est2. }
  destruct Hu as [Uf Ur Uo Uc]. split; [|split; [done|split]].
  - constructor; unfold data, event_of in *; simpl; rewrite ?Uf; auto. exists c2. split; [done|]. by right.
  - constructor; [exact Uf|done|]. intros e. destruct (calls_events _ _ Uc e), (He e). simpl. split; congruence.
  - unfold reads, data. simpl. rewrite Uf. transitivity (read_calls (A := A) k (connection.fd_ d)); [by apply sends_reads|exact Hr].
Qed.

(** The client is given the connection. *)
Lemma client_connect_ok (s : state) fd :
  alive s ->
  yields True (check_for_server_connect (A := A) fd s) (fun '(s1, st) =>
    (st = socketlib.COMPLETE \/ st = socketlib.INCOMPLETE) /\
      alive s1 /\ connected s1 /\ same_object s s1 /\ (reads s1 <= reads s)%nat \/
    st = socketlib.CONNECTION_FAILED /\ connection.state_ (data s) = connection.CONNECTING /\
    exists k, s1 = with_data k (data s) s /\ same_object s s1 /\
      sent k (connection.fd_ (data s)) = sent s.(kernel_) (connection.fd_ (data s))).
Proof.
  intros Ha. unfold check_for_server_connect. eapply yields_bind; [solve [eauto with switchflow]|]. intros [] _.
  unfold connection.state. destruct (al_client _ Ha) as (c & Hc & [[E Hw]|[E Hs]]).
  - rewrite bool_decide_eq_true_2 by done. eapply yields_mono; [by eapply server_connect_ok|].
    intros [s1 st] [(-> & Hp)|(-> & Hp)]; [left; by split; [left|]|right; done].
  - rewrite bool_decide_eq_false_2 by by apply open_not_connecting. simpl. left. by split; [right|].
Qed.

(** The event is registered for what the socket waits for. *)
Lemma client_waits_ok (s : state) :
  alive s -> connected s -> wanted (data s) <> 0 ->
  yields True (wait (A := A) s) (fun s' => alive s' /\ waits s' /\ event_of s' = event_of s /\
    touches (A := A) (event.event_ (event_of s)) s.(kernel_) s'.(kernel_)).
Proof.
  intros Ha Hn Hw. unfold wait. destruct (Z.eqb_spec (wanted (data s)) 0) as [|_]; [done|]. cbn [negb].
  eapply yields_bind; [apply add_event_yields|]. intros k [Ht Hp]. simpl.
  pose proof (to_streams _ _ _ Ht) as [Hs Ho].
  destruct Hp as [Hpe Hwa]; [rewrite (al_event _ Ha); apply Ha|].
  split; [|split; [|split; [done|exact Ht]]].
  - apply alive_follows; auto. constructor; auto.
  - unfold waits. change (data (with_data k (data s) s)) with (data s). rewrite decide_False by by apply open_not_connecting.
    split; [exact Hpe|]. split; [done|]. change (event_of (with_data k (data s) s)) with (event_of s).
    simpl. by rewrite Hwa, (al_event _ Ha).
Qed.

(** The turns of an event, however many bytes the socket has. *)
Definition event_fuel (s : state) : Z := bound * (Z.of_nat (reads s) + 1).

Definition event_post (s : state) (x : life * state) : Prop :=
  let '(l, s') := x in
  match l with
  | Alive => alive s' /\ waits s' /\ event.event_ (event_of s') = event.event_ (event_of s)
  | Deleted => gone s s'
  end.

Lemma alive_flag (s : state) (f : connection.t -> connection.t) :
  alive s -> (forall d, connection.fd_ (f d) = connection.fd_ d /\ connection.buffer_ (f d) = connection.buffer_ d /\
    connection.state_ (f d) = connection.state_ d) ->
  alive (with_data s.(kernel_) (f (data s)) s) /\ same_object s (with_data s.(kernel_) (f (data s)) s).
Proof.
  intros Ha Hf. destruct (Hf (data s)) as (E1 & E2 & E3). split; [|by constructor].
  apply alive_follows; [done| |by rewrite E3|unfold connection.open_for_write; by rewrite E3].
  constructor; rewrite ?E1, ?E2; auto.
Qed.

Lemma client_event_ok (s : state) fuel fd revents :
  alive s -> event_fuel s <= Z.of_nat fuel ->
  yields True (handle_event (A := A) fuel fd revents s) (event_post s).
Proof.
  intros Ha Hf. pose proof (al_client _ Ha) as (c & Hc & Hcl).
  assert (client_sound c) as Hsd by (destruct Hcl as [[_ Hcl]|[_ Hcl]]; [by eapply waiting_sound|by eapply serving_sound]).
  destruct (notified_sound _ Hsd) as [Hs1 Hs2]. unfold handle_event. destruct (negb _) eqn:Et.
  - eapply (yields_bind _ _ _ (gone s)); [|by intros s']. unfold handle_timeout.
    eapply yields_bind; [solve [eauto with switchflow]|]. intros [] _. destruct Ha.
    apply (shutdown_ends s _ (client_timeout (K := K) c)); try done; [unfold tell; rewrite Hc; done|].
    intros k' _. by constructor.
  - set (P := fun s1 : state => alive s1 /\ same_object s s1 /\ reads s1 = reads s /\
      connection.state_ (data s1) = connection.state_ (data s) /\ s1.(handler_).(p_client_) = s.(handler_).(p_client_)).
    assert (forall s1 (f : connection.t -> connection.t), P s1 ->
      (forall d, connection.fd_ (f d) = connection.fd_ d /\ connection.buffer_ (f d) = connection.buffer_ d /\
        connection.state_ (f d) = connection.state_ d) -> P (with_data s1.(kernel_) (f (data s1)) s1)) as Hflag.
    { intros s1 f (Ha1 & Hso1 & Hr1 & E1 & Ec1) Hfl. destruct (alive_flag s1 f Ha1 Hfl) as [Ha2 Hso2].
      destruct (Hfl (data s1)) as (E2 & _ & E3). split; [done|]. split; [by etransitivity|].
      unfold reads, data in *. simpl. rewrite E2, E3. done. }
    assert (P s) as HPs by (split; [done|]; by split).
    apply (yields_bind _ _ _ P).
    { destruct (negb (Z.land revents EV_WRITE =? 0)); [|exact HPs]. unfold handle_pollout. eapply yields_bind; [solve [eauto with switchflow]|]. intros [] _.
      by apply (Hflag s (connection.set_ready_to_write true)). }
    intros s1 HP1. apply (yields_bind _ _ _ P).
    { destruct (negb (Z.land revents EV_READ =? 0)); [|exact HP1]. unfold handle_pollin. eapply yields_bind; [solve [eauto with switchflow]|]. intros [] _.
      by apply (Hflag s1 (connection.set_ready_to_read true)). }
    intros s2 (Ha2 & Hso2 & Hr2 & E2 & Ec2). eapply yields_bind; [by apply client_connect_ok|]. intros [s3 st] Hst.
    assert (st = socketlib.CONNECTION_FAILED -> connection.state_ (data s2) = connection.CONNECTING ->
      (exists k, s3 = with_data k (data s2) s2 /\ same_object s2 s3 /\
      sent k (connection.fd_ (data s2)) = sent s2.(kernel_) (connection.fd_ (data s2))) ->
      yields True (client_handler.shutdown (A := A) (tell (client_connect_failed (K := K)) s3)) (gone s)) as Hfail.
    { intros _ E (k & -> & Hso3 & _). pose proof (al_fd _ Ha2). pose proof (al_event _ Ha2).
      apply (shutdown_ends s _ (client_connect_failed (K := K) c)); try done.
      - exact (f_equal event.event_ (so_event _ _ Hso2)).
      - apply Hso2.
      - unfold tell. simpl. by rewrite Ec2, Hc.
      - intros k' _. constructor; [done|congruence]. }
    destruct Hst as [([-> | ->] & Ha3 & Hn3 & Hso3 & Hr3)|(-> & E & Hk)].
    3: { eapply yields_bind; [by apply Hfail|]. by intros s4. }
    all: eapply yields_bind;
      [apply (client_loop_ok s); [done|done|by etransitivity|]; pose proof (level_bounds s3 Ha3 Hn3);
       unfold event_fuel, measure in *; fold (reads s3); nia|].
    all: intros [[] s4] Hl; [|exact Hl]; destruct Hl as (Ha4 & Hn4 & Hso4 & Hw4);
      eapply yields_bind; [by apply client_waits_ok|]; intros s5 (Ha5 & Hw5 & E5 & _); simpl;
      (split; [done|]); (split; [done|]); by rewrite E5, (so_event _ _ Hso4).
Qed.

(** ** The beginning *)

(** A new object, as [make] leaves it: no socket, and an event that was not
    set. *)
Record unused (s : state) : Prop := {
  un_pending : poller.pending A s.(kernel_) (event_of s) = false;
  un_wf : wf (connection.buffer_ (data s))
}.

(** The monitor is told; nothing else changes. *)
Lemma pending_same (k k' : K) ev :
  same_events (event_pending (A := A)) (event_watches (A := A)) k k' ->
  poller.pending A k' ev = poller.pending A k ev.
Proof. intros He. apply He. Qed.

Lemma set_fd_ok (k : K) fd d k' d' :
  connection.set_fd k fd d = (k', d') -> connection.fd_ d' = fd /\ connection.buffer_ d' = connection.buffer_ d /\
  same_streams sent open_fd k k' /\ same_events (event_pending (A := A)) (event_watches (A := A)) k k'.
Proof.
  unfold connection.set_fd, connection.cork_state. destruct (negb (fd =? -1)); intros [= <- <-];
    (split; [done|]); (split; [done|]); (split; [|try (by intros e)]).
  - apply cork_streams.
  - apply cork_events.
  - by constructor.
Qed.

(** What the first call leaves. *)
Definition begun (s0 : state) (x : life * state * socketlib.STATUS) : Prop :=
  let '(l, s, st) := x in
  match l with
  | Alive => st = socketlib.COMPLETE /\ waits s /\ s.(handler_).(p_client_) = s0.(handler_).(p_client_) /\
      connection.buffer_ (data s) = connection.buffer_ (data s0) /\
      connection.state_ (data s) = connection.CONNECTING /\
      connection.fd_ (data s) <> -1 /\ open_fd s.(kernel_) (connection.fd_ (data s)) /\
      event.fd_ (event_of s) = connection.fd_ (data s)
  | Deleted => st = socketlib.CONNECTION_FAILED /\ connection.fd_ (data s) = -1 /\
      poller.pending A s.(kernel_) (event_of s) = false
  end.

Lemma begin_fails (s : state) c f :
  connection.fd_ (data s) <> -1 -> poller.pending A s.(kernel_) (event_of s) = false ->
  s.(handler_).(p_client_) = Some c -> client_sound (f c) ->
  yields True (s ← client_handler.shutdown (A := A) (tell f s); Ok (Deleted, s, socketlib.CONNECTION_FAILED)) (begun s).
Proof.
  intros Hfd Hp Hc Hs. eapply yields_bind.
  - apply (shutdown_gone (tell f s) (f c)); [exact Hfd| |unfold tell; by rewrite Hc|done].
    change (poller.pending A (kernel_ (tell f s)) (event_of (tell f s))) with (poller.pending A s.(kernel_) (event_of s)).
    by rewrite Hp.
  - intros s2 (E & Hp2 & Hfd2 & _). simpl. split; [done|]. by split.
Qed.

(** The connection that is under way is registered. *)
Lemma begin_waits (s : state) this k :
  connection.fd_ (data s) <> -1 -> open_fd k (connection.fd_ (data s)) ->
  yields True
    (let '(k, ev) := event.set (A := A) (connection.fd (data s)) this k (event_of s) in
     k ← poller.add_event A k ev (Z.lor EV_READ EV_WRITE) s.(handler_).(server_timeout_seconds_);
     let s := with_event k ev s in
     Ok (Alive, with_data k (connection.set_state connection.CONNECTING (data s)) s, socketlib.COMPLETE))
    (begun s).
Proof.
  intros Hfd Ho. unfold event.set, connection.fd. eapply yields_bind; [apply add_event_yields|].
  intros k2 [Ht Hp]. cbn [event.event_ event.fd_] in *.
  pose proof (touches_set (A := A) (event.event_ (event_of s)) (connection.fd_ (data s)) 0 k) as [[_ Ho1] _ _].
  destruct (Hp (Ho1 _ Ho)) as [Hpe Hwa]. pose proof (to_streams _ _ _ Ht) as [_ Ho2]. simpl.
  split; [done|]. split; [|auto 10]. unfold waits. rewrite decide_True by done.
  split; [exact Hpe|]. split; [done|exact Hwa].
Qed.

Lemma client_initiate_ok (s0 : state) c this a :
  unused s0 -> s0.(handler_).(p_client_) = Some c -> client_sound c ->
  yields True (initiate_server_connect (A := A) this a s0) (begun s0).
Proof.
  intros [Hp Hwf] Hc Hs. unfold initiate_server_connect.
  pose proof (socket_streams (A := A) s0.(kernel_)) as Hk1. pose proof (socket_events (A := A) s0.(kernel_)) as He1.
  destruct (sys_socket s0.(kernel_)) as [k1 new_fd] eqn:Eso. cbn [fst] in Hk1, He1.
  destruct (connection.set_fd k1 new_fd (data s0)) as [k2 d] eqn:Esf.
  destruct (set_fd_ok _ _ _ _ _ Esf) as (Ef & Eb & Hk2 & He2). set (s1 := monitor_fd _ _).
  assert (poller.pending A k2 (event_of s0) = false) as Hp2
    by by rewrite (pending_same _ _ _ He2), (pending_same _ _ _ He1).
  unfold connection.fd. rewrite Ef. destruct (Z.eqb_spec new_fd (-1)) as [->|Hfd].
  - unfold client_handler.shutdown, connection.fd. change (data s1) with d. rewrite Ef. cbn [Z.eqb negb Pos.eqb].
    rewrite bind_ok. change (p_client_ (handler_ s1)) with (p_client_ (handler_ s0)). rewrite Hc.
    pose proof (shutdown_yields (K := K) c Hs) as Hy. destruct (client_shutdown (K := K) c); done.
  - assert (open_fd k2 new_fd) as Ho2 by (apply Hk2; by eapply socket_fresh).
    unfold connection.set_nonblocking. rewrite Ef.
    pose proof (fcntl_streams k2 new_fd) as [_ Ho3]. pose proof (fcntl_events (A := A) k2 new_fd) as He3.
    set (k3 := (sys_fcntl_setfl k2 new_fd).1) in *.
    pose proof (connect_streams k3 new_fd a) as [_ Ho4]. pose proof (connect_events k3 new_fd a) as He4.
    destruct (sys_connect k3 new_fd a) as [k4 r]. cbn [fst] in Ho4, He4.
    set (s2 := with_data k4 d s1).
    assert (yields True (s ← client_handler.shutdown (A := A) (tell (client_connect_failed (K := K)) s2);
      Ok (Deleted, s, socketlib.CONNECTION_FAILED)) (begun s0)) as Hfail.
    { pose proof (begin_fails s2 c (client_connect_failed (K := K))) as Hb. eapply yields_mono.
      - apply Hb; [by rewrite <- Ef in Hfd| |exact Hc|by apply notified_sound].
        change (event_of s2) with (event_of s0). change (kernel_ s2) with k4.
        by rewrite (pending_same _ _ _ He4), (pending_same _ _ _ He3).
      - intros [[[] s'] st] Hx; [|exact Hx]. destruct Hx as (H1' & H2' & H3' & H4' & H5').
        split; [done|]. split; [done|]. split; [done|]. split; [|done]. by rewrite H4'. }
    destruct r as [u|[]]; try exact Hfail.
    assert (connection.fd (data s1) = new_fd) as Efd by exact Ef.
    pose proof (begin_waits s1 this k4) as Hb. unfold connection.fd in Efd, Hb. rewrite Efd in Hb.
    eapply yields_mono.
    + apply Hb; auto.
    + intros [[[] s'] st] Hx; [|exact Hx]. destruct Hx as (H1' & H2' & H3' & H4' & H5').
      split; [done|]. split; [done|]. split; [done|]. split; [|done]. by rewrite H4'.
Qed.

(** ** Sequences of events *)

(** The object after any sequence of events that left it alive; between two
    events the kernel serves others, and the event library has forgotten the
    event that it reports. *)
Inductive runs (s1 : state) : state -> Prop :=
  | runs_begun : runs s1 s1
  | runs_event s k fuel fd revents s' :
      runs s1 s -> meanwhile (connection.fd_ (data s)) s.(kernel_) k ->
      handle_event (A := A) fuel fd revents (with_data k (data s) s) = Ok (Alive, s') -> event_fuel (with_data k (data s) s) <= Z.of_nat fuel -> runs s1 s'.

Lemma alive_meanwhile (s : state) k :
  alive s -> meanwhile (connection.fd_ (data s)) s.(kernel_) k -> alive (with_data k (data s) s).
Proof. intros Ha Hm. apply alive_follows; [done|by apply follows_meanwhile|done|done]. Qed.

Lemma begun_alive (s0 s1 : state) c st :
  wf (connection.buffer_ (data s0)) -> s0.(handler_).(p_client_) = Some c ->
  begun s0 (Alive, s1, st) -> client_waiting s1.(kernel_) c (data s1) -> alive s1 /\ waits s1.
Proof.
  intros Hwf Hc (_ & Hw & Ec & Eb & Est & Hfd & Ho & Hev) Hcw. split; [|done].
  constructor; try done; [by rewrite Eb|]. exists c. split; [congruence|]. by left.
Qed.

Lemma runs_alive (s1 s : state) : alive s1 -> waits s1 -> runs s1 s -> alive s /\ waits s.
Proof.
  intros Ha Hw. induction 1 as [|s k fuel fd revents s' _ [IH _] Hm He Hf]; [done|].
  pose proof (yields_ok _ _ _ _ (client_event_ok _ fuel fd revents (alive_meanwhile _ _ IH Hm) Hf) He) as (? & ? & _). done.
Qed.

End events.
