(* ===== verification/HostRouting.v ===== *)
(** The host rules (app/http_proxy_stream_handler.cpp with app/host_rules.hpp):
    which address a request is forwarded to, and how its path and its host
    are rewritten, against definitions on the contents of the message. *)
From stdpp Require Import list gmap.
From S2P Require Import Prelude Status ReadWriteBuffer HttpLex Interfaces HeaderStore HeaderHandler.
From S2P Require Import HeaderParser HandlerSafety BodyParsers BodyRun Os Connection HeaderWriter Printf.
From S2P Require Import Pipeline Url StreamHandler StreamBody StreamFrame.

Import proxy_stream_interface http_proxy_stream_handler.

(** * Fields by name *)

(** The first field of this name, whatever the case of its letters. *)
Definition field_named (cs : list Z) (fields : list (list Z * list Z)) : option (nat * (list Z * list Z)) :=
  list_find (fun f => lower f.1 = lower cs) fields.

Lemma index_by_name_find z cs m :
  message_ok z m -> c_string cs ->
  message_buffer.get_header_index_by_name cs m =
    Ok (option_map (fun p => Z.of_nat p.1) (field_named cs (fields_of m))).
Proof.
  intros Hm Hcs. pose proof Hm as []. unfold message_buffer.get_header_index_by_name.
  destruct (index_by_name_spec z cs (message_buffer.headers_ m) 0) as (r & -> & Hr);
    [done|done|lia|lia|]. f_equal. destruct r as [j|]; symmetry.
  - destruct Hr as (Hj & (h & Hh & Hl) & Hmin). rewrite Z.sub_0_r in Hh, Hmin.
    assert (field_named cs (fields_of m) = Some (Z.to_nat j, field_of h)) as ->; [|simpl; f_equal; lia].
    apply list_find_Some. unfold fields_of. rewrite list_lookup_fmap, Hh. split; [done|]. split; [done|].
    intros k f Hf Hk. rewrite list_lookup_fmap in Hf.
    destruct (message_buffer.headers_ m !! k) as [h'|] eqn:Ek; [|done]. injection Hf as <-. by eapply Hmin.
  - assert (field_named cs (fields_of m) = None) as ->; [|done]. apply list_find_None.
    unfold fields_of. by apply Forall_map.
Qed.

Lemma field_named_header z cs m i f :
  message_ok z m -> field_named cs (fields_of m) = Some (i, f) ->
  exists h, message_buffer.headers_ m !! i = Some h /\ f = field_of h /\ hb_ok z h /\
    message_buffer.get_header (Z.of_nat i) m = Ok h /\ (i < length (message_buffer.headers_ m))%nat.
Proof.
  intros [] (Hf & _ & _)%list_find_Some. unfold fields_of in Hf. rewrite list_lookup_fmap in Hf.
  destruct (message_buffer.headers_ m !! i) as [h|] eqn:Eh; [|done]. injection Hf as <-.
  pose proof (lookup_lt_Some _ _ _ Eh). exists h. split; [done|]. split; [done|].
  split; [exact (proj1 (Forall_lookup _ _) mb_headers _ _ Eh)|]. split; [|done].
  unfold message_buffer.get_header. rewrite (s32_small (Z.of_nat i)), (u32_small (Z.of_nat i)) by lia.
  rewrite (check_true (Z.of_nat i <? _)), bind_ok by lia.
  by rewrite Nat2Z.id, Eh.
Qed.

Section routing.
Context {A : Type}.
Variable host_rules_ : gmap (list Z) (host_rules.t A).
Variable z : sizes.

(** The rules for the host that the message names. *)
Definition host_of (x : msg) : option (nat * option (host_rules.t A)) :=
  match field_named (str "Host") x.(mfields) with
  | Some (i, (_, host)) => Some (i, host_rules_ !! host)
  | None => None
  end.

Lemma find_host_spec m :
  message_ok z m ->
  find_host host_rules_ m =
    Ok (option_map (fun p => (Z.of_nat p.1, p.2)) (host_of (message_of m))).
Proof.
  intros Hm. unfold find_host, host_of. cbn [message_of mfields].
  rewrite (index_by_name_find z), bind_ok by (done || forall_concrete).
  destruct (field_named _ _) as [[i f]|] eqn:Ef; [|done]. simpl.
  destruct (field_named_header _ _ _ _ _ Hm Ef) as (h & _ & -> & [Hn Hv] & Hg & Hi).
  pose proof Hm as []. unfold message_buffer.get_field_value.
  rewrite (check_true (Z.of_nat i <? _)), bind_ok, Hg, !bind_ok by lia.
  by rewrite append_to_string_content by apply (stored_wf _ _ Hv).
Qed.

(** * The address *)

(** The rule's URL for the path, or the default of the host. *)
Definition url_for (rules : host_rules.t A) (x : msg) : url.t A :=
  default (host_rules.default_forward_url rules) (host_rules.find_forward_url (c_str x.(m2)) rules).

Lemma forward_url_of_spec (rules : host_rules.t A) m :
  message_ok z m ->
  forward_url_of rules m = Ok (host_rules.find_forward_url (c_str (message_of m).(m2)) rules).
Proof.
  intros []. unfold forward_url_of, request_buffer_wrapper.get_uri, message_buffer.get_status_line_2.
  by rewrite append_to_string_content by apply (stored_wf _ _ mb_line2).
Qed.

(** The status and the address for a request with these contents. *)
Definition forward_address (x : msg) : FORWARD_ADDRESS_STATUS * option (option (A * Z)) :=
  if bool_decide (lower x.(m3) = lower (str "HTTP/1.0")) then
    (CONNECTION_DOES_NOT_PROVIDE_FORWARD_ADDRESS, None)
  else
    match host_of x with
    | None => (FORWARD_ADDRESS_NOT_YET_AVAILABLE, None)
    | Some (_, None) => (CONNECTION_DOES_NOT_PROVIDE_FORWARD_ADDRESS, None)
    | Some (_, Some rules) => (FORWARD_ADDRESS_AVAILABLE, Some (url_for rules x).(url.endpoint))
    end.

(** C28: [get_forward_address_status] decides from the contents of the request
    alone: an [HTTP/1.0] request has no address of its own; otherwise the
    rules of the first [Host] field decide, by its exact value, and the
    address is the endpoint of the first rule whose path is the request's, or
    the host's default.  Only then is the handler's address assigned. *)
Theorem forward_address_by_host (h : t A) :
  let m := header_handler.message_buffer_ h.(header_handler_) in
  message_ok z m ->
  get_forward_address_status host_rules_ h =
    Ok (match h.(stream_type_) with
        | RESPONSE => (STREAM_DOES_NOT_PROVIDE_FORWARD_ADDRESS, h)
        | REQUEST =>
            let (st, address) := forward_address (message_of m) in
            (st, match address with Some a => with_address a h | None => h end)
        end).
Proof.
  intros m Hm. unfold get_forward_address_status, header_handler.get_message_buffer. fold m.
  destruct (stream_type_ h); [|done]. unfold forward_address.
  unfold request_buffer_wrapper.get_http_version, message_buffer.get_status_line_3.
  cbn [message_of m3]. pose proof (stored_wf _ _ (mb_line3 _ _ Hm)) as Hwf.
  rewrite !equals_spec by (done || forall_concrete). rewrite !bind_ok.
  rewrite (find_host_spec m Hm). cbn [message_of m3].
  destruct (bool_decide_reflect (lower (content (message_buffer.start_line3_ m)) = lower (str "HTTP/1.1"))) as [E|E].
  - rewrite E, bool_decide_eq_false_2 by done. simpl.
    destruct (host_of (message_of m)) as [[i [rules|]]|] eqn:Eh; simpl; try done.
    rewrite (forward_url_of_spec rules m Hm). simpl. unfold url_for. cbn [message_of m2].
    by destruct (host_rules.find_forward_url _ _).
  - simpl. destruct (bool_decide _); simpl; [done|].
    destruct (host_of (message_of m)) as [[i [rules|]]|] eqn:Eh; simpl; try done.
    rewrite (forward_url_of_spec rules m Hm). simpl. unfold url_for. cbn [message_of m2].
    by destruct (host_rules.find_forward_url _ _).
Qed.

(** * The path and the host *)

Definition new_path (rules : host_rules.t A) (x : msg) : list Z :=
  c_str (match host_rules.find_forward_url (c_str x.(m2)) rules with
         | Some u => u.(url.path)
         | None => (host_rules.default_forward_url rules).(url.path) ++ x.(m2)
         end).

Definition new_host (rules : host_rules.t A) (x : msg) : list Z :=
  c_str (url_for rules x).(url.hostname).

(** The request as the rules change it. *)
Definition rewritten (x : msg) : msg :=
  match host_of x with
  | Some (i, Some rules) =>
      Msg x.(m1) (new_path rules x) x.(m3)
        (if host_rules.preserve_host rules then x.(mfields)
         else alter (fun f => (f.1, new_host rules x)) i x.(mfields))
  | _ => x
  end.

Definition rewrite_fits (x : msg) : bool :=
  match host_of x with
  | Some (_, Some rules) =>
      (raw_size (new_path rules x) <=? z.(n_line2)) &&
      (host_rules.preserve_host rules || (raw_size (new_host rules x) <=? z.(n_value)))
  | _ => true
  end.

Lemma set_host_spec (rules : host_rules.t A) i (u : url.t A) m f :
  message_ok z m -> bytes_ok u.(url.hostname) -> field_named (str "Host") (fields_of m) = Some (i, f) ->
  if host_rules.preserve_host rules || (raw_size (c_str u.(url.hostname)) <=? z.(n_value)) then
    exists m', set_host rules (Z.of_nat i) u m = Ok m' /\ message_ok z m' /\
      message_of m' = Msg (message_of m).(m1) (message_of m).(m2) (message_of m).(m3)
        (if host_rules.preserve_host rules then fields_of m
         else alter (fun f => (f.1, c_str u.(url.hostname))) i (fields_of m))
  else set_host rules (Z.of_nat i) u m = Aborted.
Proof.
  intros Hm Hu Hf. unfold set_host. destruct (host_rules.preserve_host rules); [by exists m|]. simpl.
  destruct (field_named_header _ _ _ _ _ Hm Hf) as (h & Hh & _ & Hhb & Hg & Hi). pose proof Hhb as [Hn Hv].
  pose proof Hm as []. unfold message_buffer.get_field_value.
  rewrite (check_true (Z.of_nat i <? _)), bind_ok, Hg, !bind_ok by lia. unfold hb.get_value.
  destruct (Z.leb_spec (raw_size (c_str u.(url.hostname))) z.(n_value)) as [Hle|Hlt].
  2: { by rewrite (append_from_string_aborts z.(n_value)). }
  destruct (append_from_string_ok _ _ _ Hv (c_str_ok _ Hu) Hle) as (b & -> & Hb & Ec). rewrite bind_ok.
  unfold message_buffer.set_field_value. rewrite Hg, bind_ok. eexists. split; [reflexivity|].
  split; [apply set_header_any; [done|by constructor]|]. unfold message_of. simpl. f_equal.
  unfold fields_of, message_buffer.set_header. cbn [message_buffer.headers_ message_buffer.with_headers].
  rewrite (s32_small (Z.of_nat i)), Nat2Z.id by lia. rewrite list_fmap_insert. apply list_eq. intros k.
  destruct (decide (k = i)) as [->|Hne].
  - rewrite list_lookup_insert_eq by (by rewrite length_map). rewrite list_lookup_alter_eq, list_lookup_fmap, Hh.
    simpl. unfold field_of. simpl. by rewrite Ec.
  - by rewrite list_lookup_insert_ne, list_lookup_alter_ne.
Qed.

(** The path is replaced first. *)
Lemma set_path_spec b path m :
  message_ok z m -> stored z.(n_line2) b -> bytes_ok path ->
  if raw_size path <=? z.(n_line2) then
    exists b', rwb.append_from_string path b = Ok b' /\
      message_ok z (header_writer.set_status_line_2 b' m) /\
      message_of (header_writer.set_status_line_2 b' m) =
        Msg (message_of m).(m1) path (message_of m).(m3) (fields_of m)
  else rwb.append_from_string path b = Aborted.
Proof.
  intros Hm Hb Hp. destruct (Z.leb_spec (raw_size path) z.(n_line2)) as [Hle|Hlt].
  2: { by rewrite (append_from_string_aborts z.(n_line2)). }
  destruct (append_from_string_ok _ _ _ Hb Hp Hle) as (b' & E & Hb' & Ec). exists b'.
  split; [done|]. split; [by apply set_line2_ok|]. unfold message_of. simpl. by rewrite Ec.
Qed.

(** The path and then the host. *)
Lemma path_and_host_spec (rules : host_rules.t A) i f b path u m :
  message_ok z m -> field_named (str "Host") (fields_of m) = Some (i, f) ->
  stored z.(n_line2) b -> bytes_ok path -> url_bytes u ->
  let tail := b ← rwb.append_from_string path b;
    set_host rules (Z.of_nat i) u (header_writer.set_status_line_2 b m) in
  if (raw_size path <=? z.(n_line2)) &&
    (host_rules.preserve_host rules || (raw_size (c_str u.(url.hostname)) <=? z.(n_value)))
  then exists m', tail = Ok m' /\ message_ok z m' /\ message_of m' =
    Msg (message_of m).(m1) path (message_of m).(m3)
      (if host_rules.preserve_host rules then fields_of m
       else alter (fun f => (f.1, c_str u.(url.hostname))) i (fields_of m))
  else tail = Aborted.
Proof.
  intros Hm Hf Hb Hp [Hu _] tail. pose proof (set_path_spec b path m Hm Hb Hp) as Hset. unfold tail.
  destruct (raw_size path <=? _); simpl; [|by rewrite Hset].
  destruct Hset as (b' & -> & Hm1 & Emsg). rewrite bind_ok.
  pose proof (set_host_spec rules i u _ f Hm1 Hu Hf) as Hs.
  destruct (_ || _); [|done]. destruct Hs as (m' & -> & Hm' & Em). exists m'. split; [done|]. split; [done|].
  rewrite Em, Emsg. by destruct (host_rules.preserve_host rules).
Qed.

Lemma update_header_spec m :
  rules_ok host_rules_ -> message_ok z m ->
  if rewrite_fits (message_of m) then
    exists m', update_header_host_and_path host_rules_ m = Ok m' /\ message_ok z m' /\
      message_of m' = rewritten (message_of m)
  else update_header_host_and_path host_rules_ m = Aborted.
Proof.
  intros Hr Hm. unfold update_header_host_and_path, rewrite_fits, rewritten.
  rewrite (find_host_spec m Hm), bind_ok.
  destruct (host_of (message_of m)) as [[i [rules|]]|] eqn:Eh; simpl; try by exists m.
  assert (exists f, field_named (str "Host") (fields_of m) = Some (i, f) /\ host_rules_ !! f.2 = Some rules)
    as ([name host] & Hf & Hl).
  { unfold host_of in Eh. cbn [message_of mfields] in Eh. destruct (field_named _ _) as [[k f]|]; [|done].
    exists f. destruct f. by injection Eh as <- <-. }
  destruct (Hr _ _ Hl) as [Hdef Hall]. rewrite (forward_url_of_spec rules m Hm), bind_ok.
  unfold new_path, new_host, url_for.
  destruct (host_rules.find_forward_url _ _) as [u|] eqn:Eu.
  - pose proof (find_forward_url_bytes _ _ Hall _ Eu) as Hu.
    apply (path_and_host_spec rules i _ _ _ u m Hm Hf); [|by apply c_str_ok, Hu|done].
    by apply kept_reset, stored_kept, mb_line2.
  - rewrite append_to_string_content, bind_ok by apply (stored_wf _ _ (mb_line2 _ _ Hm)).
    apply (path_and_host_spec rules i _ _ _ (host_rules.default_forward_url rules) m Hm Hf);
      [apply mb_line2, Hm| |done].
    apply c_str_ok, Forall_app. split; [apply Hdef|]. unfold content. apply Forall_take.
    by destruct (stored_wf _ _ (mb_line2 _ _ Hm)).
Qed.

(** C27: [update_header_host_and_path] rewrites a message by the rules of its
    first [Host] field and of nothing else: the path becomes the path of the
    first rule that matches it, or that of the host's default URL before the
    request's own; the host becomes that of the URL, unless it is to be
    preserved; the method, the version and every other field stay as they
    are.  It aborts exactly when the new path or the new host does not fit its
    buffer. *)
Theorem host_and_path_rewritten m :
  rules_ok host_rules_ -> message_ok z m ->
  if rewrite_fits (message_of m) then
    exists m', update_header_host_and_path host_rules_ m = Ok m' /\ message_ok z m' /\
      message_of m' = rewritten (message_of m)
  else update_header_host_and_path host_rules_ m = Aborted.
Proof. apply update_header_spec. Qed.

End routing.

(** ** At concrete inputs *)

Definition routed_sizes : sizes := Sizes 16 16 16 16 16.

Definition routed_message : message_buffer.t :=
  message_buffer.MessageBuffer 1 2 (store 16 (str "GET")) (store 16 (str "/a")) (store 16 (str "HTTP/1.1"))
    [HeaderBuffer (store 16 (str "host")) (store 16 (str "b.org"))] true.

Lemma stored_16 l : bytes_ok l -> (length l <= 16)%nat -> stored 16 (store 16 l).
Proof. intros Hb Hl. exact (proj1 (stored_store 16 l Hb Hl ltac:(lia))). Qed.

Lemma routed_message_ok : message_ok routed_sizes routed_message.
Proof.
  constructor; try done; try (apply stored_16; [forall_concrete|simpl; lia]).
  constructor; [|constructor]. constructor; apply stored_16; (forall_concrete || simpl; lia).
Qed.

Definition routed_url (path : list Z) : url.t Z :=
  url.Url (Some (10, 8080)) [] (str "http") (str "c.org") 8080 path true.

Definition routed_rules : gmap (list Z) (host_rules.t Z) :=
  {[ str "b.org" := host_rules.HostRules [] (routed_url (str "/base")) false ]}.

Lemma routed_rules_ok : rules_ok routed_rules.
Proof.
  intros name rules Hr. unfold routed_rules in Hr. apply lookup_singleton_Some in Hr as [_ <-].
  split; [|constructor]. split; forall_concrete.
Qed.

Definition routed_handler : t Z :=
  StreamHandler Z REQUEST header_parser.make (body_parser.make http.NONE) START_MESSAGE None (rwb.make 10) None
    (rwb.make_static (Some message_buffer.new_line)) error_message
    (header_writer.make 0 header_writer.FIELD_NAME) None
    (header_handler.HeaderHandler routed_message 0 0 false false http.NONE REQUEST).

Lemma forward_address_by_host_witness :
  get_forward_address_status routed_rules routed_handler =
    Ok (FORWARD_ADDRESS_AVAILABLE, with_address (Some (10, 8080)) routed_handler).
Proof.
  rewrite (forward_address_by_host routed_rules routed_sizes routed_handler).
  - vm_compute. reflexivity.
  - exact routed_message_ok.
Defined.

Lemma host_and_path_rewritten_witness :
  exists m', update_header_host_and_path routed_rules routed_message = Ok m' /\
    message_of m' = Msg (str "GET") (str "/base/a") (str "HTTP/1.1") [(str "host", str "c.org")].
Proof.
  pose proof (host_and_path_rewritten routed_rules routed_sizes routed_message routed_rules_ok routed_message_ok)
    as Hw.
  assert (rewrite_fits routed_rules routed_sizes (message_of routed_message) = true) as Hf by (vm_compute; reflexivity).
  rewrite Hf in Hw. destruct Hw as (m' & Hm & _ & He). exists m'. split; [exact Hm|].
  rewrite He. vm_compute. reflexivity.
Defined.
