(* ===== verification/StreamSafety.v ===== *)
(** What a stream handler sends to its destination, over any sequence of
    calls: whole messages one after the other and a part of the next, each
    message the serialisation of a header and a body framed by the encoding
    the header announced.  The invariant of [process_data] is kept by each
    turn of its loop, and a measure shows that the loop ends. *)
From stdpp Require Import list gmap.
From S2P Require Import Prelude Status ReadWriteBuffer HttpLex Interfaces HeaderStore HeaderHandler.
From S2P Require Import HeaderParser HandlerSafety BodyParsers BodyRun BodyWindow Os Connection HeaderWriter Printf.
From S2P Require Import Pipeline Url StreamHandler StreamBody StreamFrame.

Import proxy_stream_interface http_proxy_stream_handler.

(** * The static error response *)

Lemma reset_static_same b b' :
  same_vector b b' -> b.(b_using_static_buffer_) = true -> rwb.reset b' = rwb.reset b.
Proof. intros [Hv Hs] Ht. unfold rwb.reset. by rewrite Hs, Ht, Hv. Qed.

(** Wherever the writer is in it, [reset] rewinds it. *)
Lemma error_reset m c : same_message error_message m -> message_buffer.reset m c = Ok (error_message, c).
Proof.
  intros [Hn Hm Hc H1 H2 H3 Hh]. unfold message_buffer.reset. rewrite Hc.
  change (message_buffer.cache_ error_message) with false. cbv iota. unfold message_buffer.reset_lines.
  rewrite (reset_static_same _ _ H1), (reset_static_same _ _ H2), (reset_static_same _ _ H3) by done.
  rewrite Hn, Hm, Hc. inversion Hh as [|h h' l l' [Ha Hb] Hl E1 E2]; subst.
  inversion Hl; subst. cbn [map]. unfold hb.reset.
  rewrite (reset_static_same _ _ Ha), (reset_static_same _ _ Hb) by done. done.
Qed.

(** * What the writer keeps of a message *)

Lemma same_kept n b b' : kept n b -> same_vector b b' -> wf b' -> kept n b'.
Proof.
  intros [_ Hs Ho] [Hv Hst] Hwf. constructor; [done| |congruence]. unfold raw_of in *. by rewrite Hv.
Qed.

Lemma written_kept z x w m m' :
  message_kept z m -> same_message m m' -> hw_inv x w m' -> message_kept z m'.
Proof.
  intros [] [] [].
  constructor; [congruence|rewrite sm_max; exact mk_max|..];
    try (eapply same_kept; [eassumption..|by eapply wg_wf]).
  apply Forall_lookup. intros i h' Hh'.
  destruct (Forall2_lookup_r _ _ _ _ _ sm_headers Hh') as (h & Hh & Hn & Hv).
  destruct (proj1 (Forall_lookup _ _) mk_headers _ _ Hh) as [Kn Kv].
  destruct (lookup_lt_is_Some_2 x.(mfields) i) as [f Hf].
  { rewrite <- hw_headers. by eapply lookup_lt_Some. }
  destruct (hw_fields _ _ _ Hf Hh').
  constructor; eapply same_kept; try eassumption; by eapply wg_wf.
Qed.

(** The contents of a message do not change while it is written. *)
Lemma hw_message x w m : hw_inv x w m -> message_of m = x.
Proof.
  intros []. unfold message_of. rewrite (wg_content _ _ hw_line1), (wg_content _ _ hw_line2),
    (wg_content _ _ hw_line3). destruct x as [x1 x2 x3 fs]. cbn [m1 m2 m3 mfields] in *. f_equal.
  unfold fields_of. apply list_eq. intros i. rewrite list_lookup_fmap.
  destruct (message_buffer.headers_ m !! i) as [h|] eqn:Hh.
  - destruct (lookup_lt_is_Some_2 fs i) as [f Hf].
    { rewrite <- hw_headers. by eapply lookup_lt_Some. }
    destruct (hw_fields _ _ _ Hf Hh) as [Hn Hv _ _]. rewrite Hf. simpl. f_equal.
    unfold field_of. rewrite (wg_content _ _ Hn), (wg_content _ _ Hv). by destruct f.
  - symmetry. apply lookup_ge_None_2. rewrite <- hw_headers. by apply lookup_ge_None_1.
Qed.

Lemma hw_writer_ok x w m : hw_inv x w m -> writer_ok w.
Proof. by intros []. Qed.

(** * What was sent *)

(** A message the handler forwards: its header as it is written, and the
    encoding and length with which its body is read. *)
Record forwarded := Forwarded {
  f_msg : msg;
  f_encoding : http.BODY_ENCODING;
  f_length : Z
}.

Section stream.
Context {K : Type} `{OsLaws K} {A : Type}.
Abbreviation state := (t A * world K)%type.

(** A whole message: the serialisation of its header, and a body. *)
Definition whole_message (f : forwarded) (l : list Z) : Prop :=
  exists body, body_output (R := state) f.(f_encoding) f.(f_length) body /\ l = wire f.(f_msg) ++ body.

Inductive whole_messages : list forwarded -> list Z -> Prop :=
  | no_message : whole_messages [] []
  | one_more fs f l m : whole_messages fs l -> whole_message f m -> whole_messages (fs ++ [f]) (l ++ m).

(** How the body is read once the header was written: a denied request's
    response has none, nor has the response to a [HEAD]. *)
Definition framing (h : t A) (w : world K) : http.BODY_ENCODING * Z :=
  match current h w with
  | Ok (_, d) =>
      match d.(pipeline_data.process_type_), h.(stream_type_) with
      | pipeline_data.DENY, _ | pipeline_data.HEAD, RESPONSE => (http.NONE, 0)
      | _, _ => (header_handler.get_body_encoding h.(header_handler_),
          u32 (s32 (header_handler.get_message_size h.(header_handler_))))
      end
  | _ => (http.NONE, 0)
  end.

(** The message whose header a turn has finished writing. *)
Definition event (h : t A) (w : world K) (h' : t A) : list forwarded :=
  match h.(message_state_), h'.(message_state_) with
  | PUSH_HEADER, PARSE_BODY =>
      [Forwarded (message_of (written h)) (framing h w).1 (framing h w).2]
  | _, _ => []
  end.

(** [l] is [fs] on the wire, the last of them perhaps in part. *)
Definition forwards (h : t A) (fs : list forwarded) (l : list Z) : Prop :=
  match h.(message_state_) with
  | START_MESSAGE | PARSE_HEADER => whole_messages fs l
  | PUSH_HEADER => exists l0 part, l = l0 ++ part /\ whole_messages fs l0 /\
      part `prefix_of` wire (message_of (written h))
  | PARSE_BODY => exists fs0 f l0 part, fs = fs0 ++ [f] /\ l = l0 ++ wire f.(f_msg) ++ part /\
      whole_messages fs0 l0 /\ body_part (R := state) f.(f_encoding) f.(f_length) part
  end.

(** * The invariant *)
Variable z : sizes.

(** What holds at every point, errors included. *)
Record well (h : t A) (w : world K) : Prop := {
  we_sink : sink_ok (h, w);
  we_cache : cache_ok z w.(header_cache_);
  we_chunk : max_chunk h.(body_parser_) = CHUNK_SIZE_LENGTH;
  we_parser : 0 <= header_parser.current_length_ h.(header_parser_);
  we_writer : writer_ok h.(header_writer_);
  we_error : same_message error_message h.(error_response_);
  we_message : message_kept z (header_handler.message_buffer_ h.(header_handler_))
}.

Definition no_body (h : t A) : Prop := body_parser.body_encoding_ h.(body_parser_) = http.NONE.

(** Where the handler is in the message; [base] was sent before the first. *)
Definition stage (base : list Z) (fs : list forwarded) (h : t A) (w : world K) (b : read_write_buffer)
    : Prop :=
  match h.(message_state_) with
  | START_MESSAGE | PARSE_HEADER =>
      no_body h /\ message_ok z (header_handler.message_buffer_ h.(header_handler_)) /\
      exists l, whole_messages fs l /\ sent_to_dest w = base ++ l
  | PUSH_HEADER =>
      let x := message_of (written h) in
      no_body h /\ is_Some h.(writer_message_) /\ hw_inv x h.(header_writer_) (written h) /\
      exists l part, whole_messages fs l /\ sent_to_dest w = base ++ l ++ part /\
        part ++ pending x h.(header_writer_) (written h) = wire x
  | PARSE_BODY => exists fs0 f l, fs = fs0 ++ [f] /\ whole_messages fs0 l /\
      body_parser.body_encoding_ h.(body_parser_) = f.(f_encoding) /\ 0 <= f.(f_length) < 2 ^ 32 /\
      body_inv (base ++ l ++ wire f.(f_msg)) f.(f_length) h.(body_parser_) (h, w) b /\
      settled h.(body_parser_) (h, w) b
  end.

(** After a turn: [None] when the loop goes on.  After a call the handler may
    be called again, whatever it answered: after [COMPLETE] with any buffer,
    otherwise with this one, or with any when this one was written to its
    end. *)
Definition inv (base : list Z) (fs : list forwarded) (o : option socketlib.STATUS) (h : t A)
    (w : world K) (b : read_write_buffer) : Prop :=
  wf b /\ well h w /\ (exists l, sent_to_dest w = base ++ l /\ forwards h fs l) /\
  match o with
  | None => stage base fs h w b
  | Some st => stage base fs h w b /\
      (st = socketlib.COMPLETE \/ rwb.fully_written b = true -> forall b2, wf b2 -> stage base fs h w b2)
  end.

Lemma stage_buffer base fs h w b b2 :
  h.(message_state_) <> PARSE_BODY -> stage base fs h w b -> stage base fs h w b2.
Proof. unfold stage. by destruct (message_state_ h). Qed.

Lemma body_forwards base fs0 f l h w b :
  h.(message_state_) = PARSE_BODY -> whole_messages fs0 l ->
  body_parser.body_encoding_ h.(body_parser_) = f.(f_encoding) -> 0 <= f.(f_length) < 2 ^ 32 ->
  body_inv (base ++ l ++ wire f.(f_msg)) f.(f_length) h.(body_parser_) (h, w) b ->
  exists l', sent_to_dest w = base ++ l' /\ forwards h (fs0 ++ [f]) l'.
Proof.
  intros Es Hl Ee Hn Hinv. destruct (body_inv_part _ _ _ _ _ (proj1 Hn) Hinv) as (out & Hout & Hpart).
  exists (l ++ wire f.(f_msg) ++ out). simpl in Hout. split; [by rewrite Hout, <- !app_assoc|].
  unfold forwards. rewrite Es. exists fs0, f, l, out. by rewrite <- Ee.
Qed.

Lemma inv_stage base fs h w b :
  wf b -> well h w -> stage base fs h w b -> inv base fs None h w b.
Proof.
  intros Hwf Hw Hs. split; [done|]. split; [done|]. split; [|done]. revert Hs. unfold stage.
  destruct (message_state_ h) eqn:Es.
  - intros (_ & _ & l & Hl & Hsent). exists l. split; [done|]. unfold forwards. by rewrite Es.
  - intros (_ & _ & l & Hl & Hsent). exists l. split; [done|]. unfold forwards. by rewrite Es.
  - intros (_ & _ & _ & l & part & Hl & Hsent & Hp). exists (l ++ part). split; [done|].
    unfold forwards. rewrite Es. exists l, part. rewrite <- Hp. split; [done|].
    split; [done|]. by apply prefix_app_r.
  - intros (fs0 & f & l & -> & Hl & Ee & Hn & Hinv & _). by eapply body_forwards.
Qed.

(** The status of a call. *)
Lemma inv_ends base fs st h w b :
  h.(message_state_) <> PARSE_BODY -> inv base fs None h w b -> inv base fs (Some st) h w b.
Proof.
  intros Hne (? & ? & ? & Hs). split; [done|]. split; [done|]. split; [done|]. split; [done|].
  intros _ b2 _. by eapply stage_buffer.
Qed.

Lemma inv_free base fs st h w b :
  (forall b2, wf b2 -> inv base fs None h w b2) -> wf b -> inv base fs (Some st) h w b.
Proof.
  intros Hi Hwf. pose proof (Hi b Hwf) as (? & ? & ? & ?). split; [done|]. split; [done|]. split; [done|].
  split; [done|]. intros _ b2 Hb2. by apply Hi.
Qed.

(** ** The turns *)

(** What a turn reduces: bytes of the buffer, then the states until the next
    header; the response to a denied request ends the call. *)
Definition denied (h : t A) (w : world K) : bool :=
  match current h w with
  | Ok (_, d) => match d.(pipeline_data.process_type_) with pipeline_data.DENY => true | _ => false end
  | _ => false
  end.

Definition rank (h : t A) (w : world K) : Z :=
  match h.(message_state_) with
  | PARSE_HEADER => 0
  | START_MESSAGE => 1
  | PARSE_BODY => 2
  | PUSH_HEADER => if denied h w then 0 else 3
  end.

Definition measure (h : t A) (w : world K) (b : read_write_buffer) : Z :=
  4 * (b.(working_length_) - b.(process_position_)) + rank h w.

Definition turn_post (base : list Z) (fs : list forwarded) (h : t A) (w : world K) (b : read_write_buffer)
    (x : outcome (K := K) (A := A)) : Prop :=
  let '(o, h', w', b') := x in
  inv base (fs ++ event h w h') o h' w' b' /\ b'.(working_length_) = b.(working_length_) /\
  (o = None -> measure h' w' b' < measure h w b).

(** [well] depends on these parts. *)
Lemma well_io h w h' w' p :
  well h w -> same_io w w' -> h' = with_current p h -> well h' w'.
Proof.
  intros [[Hd Hl He] ? ? ? ? ? ?] Hio ->. constructor; simpl; try done.
  - constructor; simpl; [by eapply same_io_open|done|done].
  - by rewrite (io_cache _ _ Hio).
Qed.

Lemma well_state s h w : well h w -> well (with_state s h) w.
Proof. intros [[] ]. constructor; done || by constructor. Qed.

(** The writer is pointed to a message nothing of which was written. *)
Definition begun (mw : WRITTEN) (e : message_buffer.t) (h : t A) : t A :=
  with_writer (header_writer.reset h.(header_writer_)) (Some mw) e h.(header_handler_) h.

Lemma start_writer_ok mw e h w : dest_open w -> start_writer mw e h w = Ok (begun mw e h).
Proof. intros (c & Hc & _). unfold start_writer, get_dest. by rewrite Hc. Qed.

Lemma begun_ok mw e h w base fs b :
  let m := match mw with ERROR_MESSAGE => e
           | HEADER_MESSAGE => header_handler.message_buffer_ h.(header_handler_) end in
  let h2 := with_state PUSH_HEADER (begun mw e h) in
  well h w -> printable m -> same_message error_message e -> wf b ->
  no_body h -> (exists l, whole_messages fs l /\ sent_to_dest w = base ++ l) ->
  inv base fs None h2 w b.
Proof.
  intros m h2 [[Hd Hl He] ? ? ? Hwr ? ?] Hm Hsame Hwf Hno (l & Hwl & Hsent).
  destruct (writer_start _ _ Hwr Hm) as [Hinv Hp]. apply inv_stage; [done| |].
  - constructor; simpl; try done. by eapply hw_writer_ok.
  - unfold stage. cbn [h2 message_state_ with_state]. split; [done|]. split; [by eexists|].
    assert (written h2 = m) as -> by by destruct mw.
    cbn [h2 begun header_writer_ with_state with_writer]. split; [done|]. exists l, [].
    by rewrite app_nil_r.
Qed.

Lemma with_cache_same (w : world K) : with_cache w.(header_cache_) w = w.
Proof. by destruct w. Qed.

Lemma turn_start base fs h w b :
  h.(message_state_) = START_MESSAGE -> wf b -> well h w -> stage base fs h w b ->
  yields True (do_start_message h w b) (turn_post base fs h w b).
Proof.
  intros Es Hwf Hw Hs. unfold do_start_message.
  eapply yields_bind; [apply set_current_yields|]. intros [[set h1] w1] (Hio & p & Eh).
  pose proof (well_io _ _ _ _ _ Hw Hio Eh) as Hw1.
  assert (stage base fs h1 w1 b) as Hs1.
  { revert Hs. unfold stage, no_body. rewrite Eh. simpl. rewrite Es. by rewrite (same_io_sent _ _ Hio). }
  assert (message_state_ h1 = START_MESSAGE) as Es1 by by rewrite Eh.
  assert (forall h', event h w h' = []) as Ev by (intros h'; unfold event; by rewrite Es).
  destruct set; cbn [negb].
  2: { simpl. rewrite Ev, app_nil_r. split; [|done]. pose proof (inv_stage _ _ _ _ _ Hwf Hw1 Hs1) as Hi.
       apply inv_ends; by rewrite ?Es1. }
  destruct (current h1 w1) as [[p1 d]| | |] eqn:Ec; try done;
    [|pose proof (current_returns h1 w1) as Hc; by rewrite Ec in Hc].
  rewrite bind_ok. destruct (pipeline_data.process_type_ d) eqn:Ep.
  3: { rewrite (error_reset _ _ (we_error _ _ Hw1)), bind_ok, with_cache_same.
       rewrite (start_writer_ok _ _ h1 w1 (sk_dest _ (we_sink _ _ Hw1))), bind_ok. simpl.
       rewrite Ev, app_nil_r. split; [|split; [done|]].
       - apply (begun_ok ERROR_MESSAGE); try done; [exact error_printable|..].
         + revert Hs1. unfold stage. rewrite Es1. by intros [? _].
         + revert Hs1. unfold stage. rewrite Es1. by intros (_ & _ & ?).
       - intros _. unfold measure, rank, denied. cbn [message_state_ with_state].
         change (current (with_state PUSH_HEADER (begun ERROR_MESSAGE error_message h1)) w1) with (current h1 w1).
         rewrite Ec, Ep, Es. lia. }
  all: simpl; rewrite Ev, app_nil_r; split; [apply inv_stage; [done| |]|split; [done|]].
  all: try (intros _; unfold measure, rank; rewrite Es; simpl; lia).
  all: try by apply well_state.
  all: revert Hs1; unfold stage; rewrite Es1; done.
Qed.

(** What the header is changed by, before it is written. *)
Variable host_rules_ : gmap (list Z) (host_rules.t A).
Variable request_postprocessor_ : option (message_buffer.t -> res (bool * message_buffer.t)).
Variable localtime : nat -> log_record.tm.

(** A postprocessor returns, and leaves the message well formed. *)
Definition postprocessor_ok : Prop := forall process_request m,
  request_postprocessor_ = Some process_request -> message_ok z m ->
  yields True (process_request m) (fun x => message_ok z x.2).

Hypothesis Hrules : rules_ok host_rules_.
Hypothesis Hpost : postprocessor_ok.

Abbreviation header_complete := (header_complete host_rules_ request_postprocessor_ localtime).
Abbreviation do_parse_header := (do_parse_header host_rules_ request_postprocessor_ localtime).
Abbreviation turn := (turn host_rules_ request_postprocessor_ localtime).
Abbreviation process_loop := (process_loop host_rules_ request_postprocessor_ localtime).
Abbreviation process_data := (process_data host_rules_ request_postprocessor_ localtime).

Definition with_header (m : message_buffer.t) (h : t A) : t A :=
  with_parser h.(header_parser_) (header_handler.with_message m h.(header_handler_)) h.

Lemma header_complete_yields h w :
  dest_open w -> message_ok z (header_handler.message_buffer_ h.(header_handler_)) ->
  yields True (header_complete h w) (fun '(h2, w2) => same_io w w2 /\ exists m, message_ok z m /\
    h2 = with_state PUSH_HEADER (begun HEADER_MESSAGE h.(error_response_) (with_header m h))).
Proof.
  intros Hd Hm. unfold http_proxy_stream_handler.header_complete.
  eapply yields_bind; [by apply (update_header_yields z)|]. intros m Hm1.
  cbn [error_response_ with_parser with_state]. rewrite start_writer_ok, bind_ok by done.
  set (h1 := begun _ _ _).
  assert (forall m2 h2, message_ok z m2 ->
    h2 = with_state PUSH_HEADER (begun HEADER_MESSAGE h.(error_response_) (with_header m2 h)) ->
    yields True (w2 ← log_request localtime h2 w; Ok (h2, w2)) (fun '(h2, w2) => same_io w w2 /\
      exists m, message_ok z m /\
      h2 = with_state PUSH_HEADER (begun HEADER_MESSAGE h.(error_response_) (with_header m h)))) as Hlog.
  { intros m2 h2 Hm2 E. eapply yields_bind; [apply (log_request_yields z); by rewrite E|].
    intros w2 Hio. split; [done|]. by exists m2. }
  destruct request_postprocessor_ as [pp|] eqn:Epp; [|by apply (Hlog m)].
  destruct (stream_type_ h1); [|by apply (Hlog m)].
  eapply yields_bind; [exact (Hpost _ _ Epp Hm1)|]. intros [[] m2] Hm2; [by apply (Hlog m2)|].
  split; [reflexivity|]. by exists m2.
Qed.

Lemma header_refused_yields st (h : t A) (w : world K) :
  yields True (header_refused st h w) (fun '(st', w2) => same_io w w2 /\
    (st' = socketlib.DENY \/ st' = socketlib.COMPLETE)).
Proof.
  unfold header_refused. destruct st, (stream_type_ h); simpl;
    try (split; [reflexivity|by auto]);
    (eapply yields_bind; [apply current_returns|]; intros [p d] _;
     eapply yields_bind; [apply current_returns|]; intros [p' d'] _; simpl;
     split; [etransitivity; apply with_queue_io|by left]).
Qed.

Lemma well_parsed h w p hh c :
  well h w -> 0 <= header_parser.current_length_ p -> message_ok z (header_handler.message_buffer_ hh) ->
  cache_ok z c -> well (with_parser p hh h) (with_cache c w).
Proof.
  intros [[] ] Hp Hm Hc. constructor; try done. exact (message_ok_kept _ _ Hm).
Qed.

Lemma turn_header base fs h w b :
  h.(message_state_) = PARSE_HEADER -> wf b -> well h w -> stage base fs h w b ->
  yields True (do_parse_header h w b) (turn_post base fs h w b).
Proof.
  intros Es Hwf Hw Hs. unfold http_proxy_stream_handler.do_parse_header.
  assert (forall h', event h w h' = []) as Ev by (intros h'; unfold event; by rewrite Es).
  revert Hs. unfold stage. rewrite Es. intros (Hno & Hm & Hsent).
  eapply yields_bind.
  { apply (parse_headers_any (may_fail := True) (inv := handler_safe z)); [|done|apply Hw].
    split; [exact Hm|apply Hw]. }
  intros [[[st b1] p1] [hh c]] (Hwf1 & _ & Hwl & Hpp & _ & Hgrow & Hlen & [Hm1 Hc1]).
  pose proof (well_parsed _ _ _ _ _ Hw Hlen Hm1 Hc1) as Hw1.
  set (h1 := with_parser p1 hh h) in *. set (w1 := with_cache c w) in *.
  assert (message_state_ h1 = PARSE_HEADER) as Es1 by exact Es.
  assert (inv base fs None h1 w1 b1) as Hinv1.
  { apply inv_stage; [done|done|]. unfold stage. by rewrite Es1. }
  assert (forall parse_status, yields True
    ('(st, w) ← header_refused parse_status h1 w1; Ok (Some st, h1, w, b1)) (turn_post base fs h w b)) as Hrefused.
  { intros parse_status. eapply yields_bind; [apply header_refused_yields|]. intros [st' w2] [Hio Hst].
    simpl. rewrite Ev, app_nil_r. split; [|done].
    assert (inv base fs None h1 w2 b1) as Hinv2.
    { apply inv_stage; [done|by eapply well_io; [exact Hw1|exact Hio|apply with_current_same]|].
      unfold stage. rewrite Es1. by rewrite (same_io_sent _ _ Hio). }
    apply inv_ends; [by rewrite Es1|done]. }
  destruct st; try apply Hrefused.
  eapply yields_bind; [by apply header_complete_yields; [apply Hw1|]|].
  intros [h2 w2] (Hio & m & Hm2 & ->). simpl. rewrite Ev, app_nil_r. split; [|split; [done|]].
  - apply (begun_ok HEADER_MESSAGE); simpl.
    + eapply well_io; [|exact Hio|apply with_current_same].
      destruct Hw1 as [[] ]. constructor; try done. exact (message_ok_kept _ _ Hm2).
    + by eapply printable_ok.
    + apply Hw1.
    + done.
    + exact Hno.
    + by rewrite (same_io_sent _ _ Hio).
  - intros _. specialize (Hgrow eq_refl). unfold measure, rank. rewrite Es, Hwl.
    cbn [message_state_ with_state]. destruct (denied _ _); lia.
Qed.

(** ** Pushing the header *)

Lemma well_written x h w h1 w1 :
  well h w -> same_writing h h1 -> same_but_dest w w1 -> dest_open w1 ->
  hw_inv x h1.(header_writer_) (written h1) -> well h1 w1.
Proof.
  intros [[_ Hl He] ? ? ? ? ? Hk] [Eh Herr Hhd Hwr] Hsame Hd Hinv. constructor.
  - rewrite Eh. by constructor.
  - by rewrite (sb_cache _ _ Hsame).
  - by rewrite Eh.
  - by rewrite Eh.
  - by eapply hw_writer_ok.
  - by etransitivity.
  - destruct Hhd as [->|[E E']]; [done|]. rewrite E in Hwr. rewrite E' in *. by eapply written_kept.
Qed.

Lemma current_written (h : t A) (w : world K) h1 w1 :
  same_writing h h1 -> same_but_dest w w1 -> current h1 w1 = current h w.
Proof. intros [-> _ _ _] Hsame. unfold current. by rewrite (sb_heap _ _ Hsame). Qed.

(** The body parser is set up for the message that was just written. *)
Definition body_set (n : http.BODY_ENCODING * Z) (h1 h2 : t A) : Prop :=
  exists p, h2 = with_body_parser p (with_state PARSE_BODY h1) /\
    ((exists size, p = body_parser.reset n.1 size h1.(body_parser_) /\ n.2 = u32 (s32 size)) \/
     p = h1.(body_parser_) /\ n = (http.NONE, 0) /\ no_body h1).

Lemma body_begins base fs x n l h1 h2 w b :
  wf b -> well h1 w -> dest_ready w -> body_set n h1 h2 -> whole_messages fs l ->
  sent_to_dest w = base ++ l ++ wire x ->
  inv base (fs ++ [Forwarded x n.1 n.2]) None h2 w b.
Proof.
  intros Hwf Hw Hrdy (p & -> & Hp) Hl Hsent. pose proof Hw as [[Hd Hln He] ? ? ? ? ? ?].
  assert (sink_ok (with_body_parser p (with_state PARSE_BODY h1), w)) as Hsink by by constructor.
  apply inv_stage; [done| |].
  - constructor; try done. destruct Hp as [(size & -> & _)|(-> & _)]; done.
  - unfold stage. cbn [message_state_ with_body_parser with_state body_parser_].
    exists fs, (Forwarded x n.1 n.2), l. cbn [f_msg f_encoding f_length].
    split; [done|]. split; [done|]. rewrite <- Hsent. destruct Hp as [(size & -> & ->)|(-> & -> & Hno)].
    + split; [by destruct n|]. split; [apply u32_bound|].
      split; [exact (body_start _ _ _ _ _ Hsink Hwf we_chunk0)|by apply settled_reset].
    + split; [done|]. split; [simpl; lia|]. unfold no_body in Hno. split.
      * unfold body_inv. split; [done|]. split; [done|]. split; [done|]. by rewrite Hno.
      * unfold settled, place_of. by rewrite Hno.
Qed.

Lemma push_complete base fs l x h w h1 w1 b :
  h.(message_state_) = PUSH_HEADER -> wf b -> well h1 w1 -> dest_ready w1 -> no_body h1 ->
  same_writing h h1 -> same_but_dest w w1 -> x = message_of (written h) -> whole_messages fs l ->
  sent_to_dest w1 = base ++ l ++ wire x ->
  yields True (header_pushed h1 w1 b) (turn_post base fs h w b).
Proof.
  intros Es Hwf Hw1 Hrdy Hno1 Hsame Hbut Hx Hl Hsent. unfold header_pushed.
  pose proof (sw_handler _ _ Hsame) as Eh.
  change (current (with_state PARSE_BODY h1) w1) with (current h1 w1).
  rewrite (current_written _ _ _ _ Hsame Hbut). pose proof (current_returns h w) as Hret.
  destruct (current h w) as [[p d]| | |] eqn:Ec; try done. rewrite bind_ok.
  set (w2 := set_request_complete p d w1). assert (same_io w1 w2) as Hio by apply with_queue_io.
  assert (well h1 w2) as Hw2 by (eapply well_io; [exact Hw1|exact Hio|apply with_current_same]).
  rewrite <- (same_io_sent _ _ Hio) in Hsent.
  assert (dest_ready w2) as Hrdy2 by exact Hrdy.
  assert (forall o h2, body_set (framing h w) h1 h2 -> (o = None -> denied h w = false) ->
    turn_post base fs h w b (o, h2, w2, b)) as Hbegins.
  { intros o h2 Hset Ho.
    assert (forall b2, wf b2 -> inv base (fs ++ [Forwarded x (framing h w).1 (framing h w).2]) None h2 w2 b2)
      as Hi by (intros b2 Hb2; by apply (body_begins _ _ _ _ l h1)).
    destruct Hset as (q & -> & _). simpl. unfold event. rewrite Es, <- Hx. simpl. split; [|split; [done|]].
    - destruct o as [st|]; [by apply inv_free|by apply Hi].
    - intros ->. unfold measure, rank. rewrite Es, Ho by done. simpl. lia. }
  assert (denied h w = match d.(pipeline_data.process_type_) with pipeline_data.DENY => true | _ => false end)
    as Ed by (unfold denied; by rewrite Ec).
  assert (stream_type_ (with_state PARSE_BODY h1) = stream_type_ h) as -> by by rewrite Eh.
  unfold framing in Hbegins. rewrite Ec in Hbegins. cbn iota beta in Hbegins.
  destruct (pipeline_data.process_type_ d) eqn:Ep.
  - apply Hbegins; [|by rewrite Ed]. rewrite Eh. eexists. split; [reflexivity|]. left. by eexists.
  - destruct (stream_type_ h); (apply Hbegins; [|by rewrite Ed]); rewrite Eh;
      (eexists; split; [reflexivity|]; left; by eexists).
  - apply Hbegins; [|done]. exists h1.(body_parser_). split; [by destruct h1|]. by right.
Qed.

Lemma turn_push base fs h w b :
  h.(message_state_) = PUSH_HEADER -> wf b -> well h w -> stage base fs h w b ->
  yields True (do_push_header h w b) (turn_post base fs h w b).
Proof.
  intros Es Hwf Hw Hs. unfold do_push_header. revert Hs. unfold stage. rewrite Es.
  set (x := message_of (written h)). intros (Hno & Hwm & Hinv & l & part & Hl & Hsent & Hpend).
  destruct (write_message_ok x h w Hwm Hinv (sk_dest _ (we_sink _ _ Hw)))
    as (h1 & w1 & st & m & Hwr & Hsame & Hbut & Hs1 & Hd1 & Hinv1 & Hst).
  rewrite Hwr, bind_ok. pose proof (well_written _ _ _ _ _ Hw Hsame Hbut Hd1 Hinv1) as Hw1.
  pose proof (hw_message _ _ _ Hinv1) as Hx1. pose proof (sw_handler _ _ Hsame) as Eh.
  assert (message_state_ h1 = PUSH_HEADER) as Es1 by by rewrite Eh.
  assert (no_body h1) as Hno1 by by rewrite Eh.
  assert (forall st', (part ++ m) ++ pending x h1.(header_writer_) (written h1) = wire x ->
    turn_post base fs h w b (Some st', h1, w1, b)) as Hends.
  { intros st' Hinc. simpl. unfold event. rewrite Es, Es1, app_nil_r. split; [|done].
    apply inv_ends; [by rewrite Es1|]. apply inv_stage; [done|done|].
    unfold stage. rewrite Es1, Hx1. split; [done|]. split; [by rewrite Eh|]. split; [done|].
    exists l, (part ++ m). split; [done|]. split; [|done]. by rewrite Hs1, Hsent, <- !app_assoc. }
  destruct st; try done.
  - destruct Hst as [Hst Hrdy]. apply (push_complete base fs l x h w); try done.
    by rewrite Hs1, Hsent, Hst, <- Hpend, <- !app_assoc.
  - apply Hends. by rewrite <- Hpend, Hst, app_assoc.
  - apply Hends. by rewrite <- Hpend, Hst, app_assoc.
Qed.

(** ** The body *)

(** A receiver that differs in what it writes the body with. *)
Record same_sink (s s' : state) : Prop := {
  ss_handler : s'.1 = with_endline s'.1.(endline_buf_) (with_chunk_size s'.1.(chunk_size_) s.1);
  ss_world : same_but_dest s.2 s'.2
}.

#[export] Instance same_sink_preorder : PreOrder same_sink.
Proof.
  split; [intros [[] w]; by constructor|]. intros s1 s2 s3 [E1 W1] [E2 W2].
  constructor; [|by etransitivity]. rewrite E1 in E2. exact E2.
Qed.

Lemma forward_same (w : world K) b w' b' st : forward w b = Ok (w', b', st) -> same_but_dest w w'.
Proof.
  unfold forward. intros Hf. apply bind_ok_inv in Hf as (c & _ & Hf).
  apply bind_ok_inv in Hf as ([[[k c'] b1] st1] & _ & [= <- _ _]). apply with_dest_same.
Qed.

Lemma set_chunk_size_same (s : state) n s' : set_chunk_size s n = Ok s' -> same_sink s s'.
Proof.
  unfold set_chunk_size. intros Hs. do 8 (apply bind_ok_inv in Hs as (? & _ & Hs)).
  injection Hs as <-. by constructor.
Qed.

Lemma parse_body_same p (s : state) b st b' p' s' :
  body_parser.parse_body p s b = Ok (st, b', p', s') -> same_sink s s'.
Proof.
  apply body_keeps; try apply _.
  - intros [h w] b1 c r' b2 st1 Hb. simpl in Hb. unfold set_body in Hb.
    apply bind_ok_inv in Hb as ([[w1 b3] st2] & Hf & Hb). apply bind_ok_inv in Hb as (st3 & _ & [= <- _ _]).
    constructor; [by destruct h|]. by eapply forward_same.
  - intros r n r'. apply set_chunk_size_same.
  - intros [h w] r' st1 Hb. simpl in Hb. unfold forward_chunk_size in Hb.
    apply bind_ok_inv in Hb as ([[w1 b3] st2] & Hf & Hb). apply bind_ok_inv in Hb as (st3 & _ & [= <- _]).
    constructor; [by destruct h|]. by eapply forward_same.
  - intros [h w] r' st1 Hb. simpl in Hb. unfold forward_chunk_trailer in Hb.
    apply bind_ok_inv in Hb as ([[w1 b3] st2] & Hf & Hb). apply bind_ok_inv in Hb as (st3 & _ & [= <- _]).
    constructor; [by destruct h|]. by eapply forward_same.
Qed.

Lemma well_sink h w h1 w1 p :
  well h w -> same_sink (h, w) (h1, w1) -> sink_ok (h1, w1) -> max_chunk p = CHUNK_SIZE_LENGTH ->
  well (with_body_parser p h1) w1.
Proof.
  intros [_ ? ? ? ? ? ?] [Eh Hw] [] Hp. simpl in *. constructor; try (by rewrite Eh); try done.
  by rewrite (sb_cache _ _ Hw).
Qed.

(** A message begins. *)
Record begins (h : t A) (w : world K) : Prop := {
  be_well : well h w;
  be_state : h.(message_state_) = START_MESSAGE;
  be_body : no_body h;
  be_message : message_ok z (header_handler.message_buffer_ h.(header_handler_))
}.

Lemma begins_inv base fs l h w b :
  wf b -> begins h w -> whole_messages fs l -> sent_to_dest w = base ++ l -> inv base fs None h w b.
Proof.
  intros Hwf [] Hl Hs. apply inv_stage; [done|done|]. unfold stage. rewrite be_state0. eauto.
Qed.

Lemma line_reset b : line_ok b -> line_ok (rwb.reset b).
Proof.
  intros [Hk _]. apply kept_reset in Hk as [Hs _]. constructor; [by apply stored_kept|apply Hs].
Qed.

Lemma initialize_yields h w :
  well h w -> yields True (initialize_state h w) (fun '(h', w') =>
    begins h' w' /\ sent_to_dest w' = sent_to_dest w).
Proof.
  intros [[Hd Hl He] ? ? ? ? ? ?]. unfold initialize_state.
  eapply yields_bind; [by apply (reset_yields z)|]. intros [hh c] [Hm Hc]. simpl. split; [|done].
  constructor; try done. constructor; try done.
  - constructor; try done. by apply line_reset.
  - exact (message_ok_kept _ _ Hm).
Qed.

Lemma flush_ok w :
  dest_open w -> exists w', flush w = Ok w' /\ same_but_dest w w' /\ dest_open w' /\
    sent_to_dest w' = sent_to_dest w.
Proof.
  intros (c & Hc & Ho). unfold flush. rewrite Hc. cbn [of_option]. rewrite bind_ok.
  eexists. split; [reflexivity|]. split; [apply with_dest_same|].
  unfold dest_open, sent_to_dest, connection.flush, connection.cork_state. rewrite Hc. simpl.
  set (k1 := sys_setsockopt_cork _ _ 0).
  pose proof (cork_streams k1 (connection.fd_ c) 1) as [Hs1 Ho1].
  pose proof (cork_streams (kernel_ w) (connection.fd_ c) 0) as [Hs0 Ho0]. fold k1 in Hs0, Ho0.
  split; [|by rewrite Hs1, Hs0]. exists c. split; [done|]. intros Hw. auto.
Qed.

Lemma turn_body base fs h w b :
  h.(message_state_) = PARSE_BODY -> wf b -> well h w -> stage base fs h w b ->
  yields True (do_parse_body h w b) (turn_post base fs h w b).
Proof.
  intros Es Hwf Hw Hs. unfold do_parse_body. revert Hs. unfold stage. rewrite Es.
  intros (fs0 & f & l & -> & Hl & Ee & Hn & Hinv & Hset).
  assert (forall h', event h w h' = []) as Ev by (intros h'; unfold event; by rewrite Es).
  pose proof (body_call _ _ _ _ _ Hn Hinv) as Hcall.
  destruct (body_parser.parse_body _ _ _) as [[[[st b1] p1] [h1 w1]]| | |] eqn:Ep; try done. rewrite bind_ok.
  apply parse_body_same in Ep as Hsame. pose proof (body_settles _ _ _ _ _ _ _ _ _ Hinv Hset Ep) as Hsettles.
  destruct Hcall as (Hleft & Ee1 & Hm1 & out & Hout & Hpart & Hst).
  rewrite Ee in Hpart, Ee1, Hst. destruct Hleft as [Hwf1 Hok1 _ [_ Hwl1 Hpp1]]. simpl in Hout.
  assert (well (with_body_parser p1 h1) w1) as Hw1.
  { apply (well_sink h w); try done. rewrite Hm1. apply Hw. }
  assert (message_state_ h1 = PARSE_BODY) as Es1 by (pose proof (ss_handler _ _ Hsame) as E; simpl in E; by rewrite E).
  set (h2 := with_body_parser p1 h1) in *.
  assert (message_state_ h2 = PARSE_BODY) as Es2 by exact Es1.
  assert (exists l', sent_to_dest w1 = base ++ l' /\ forwards h2 (fs0 ++ [f]) l') as Hfw.
  { exists (l ++ wire f.(f_msg) ++ out). split; [by rewrite Hout, <- !app_assoc|].
    unfold forwards. rewrite Es2. by exists fs0, f, l, out. }
  assert (forall b2, body_inv (base ++ l ++ wire f.(f_msg)) f.(f_length) p1 (h1, w1) b2 ->
    settled p1 (h1, w1) b2 -> stage base (fs0 ++ [f]) h2 w1 b2) as Hstage.
  { intros b2 Hb Hs2. unfold stage. rewrite Es2. exists fs0, f, l. split; [done|]. split; [done|].
    split; [done|]. split; [done|]. split; [|by eapply settled_receiver; [|exact Hs2]].
    eapply body_inv_receiver; [|exact Hb]. constructor; try done. exact (we_sink _ _ Hw1). }
  assert (forall st', st' <> socketlib.COMPLETE -> settles http.WRITE_INCOMPLETE (place_of p1) (h1, w1) b1 ->
    body_inv (base ++ l ++ wire f.(f_msg)) f.(f_length) p1 (h1, w1) b1 ->
    turn_post base (fs0 ++ [f]) h w b (Some st', h2, w1, b1)) as Hstops.
  { intros st' Hne Hset1 Hb1. simpl. rewrite Ev, app_nil_r. split; [|done]. split; [done|]. split; [done|].
    split; [done|]. split; [apply Hstage; [done|by apply (settles_settled http.WRITE_INCOMPLETE)]|].
    intros [?|Hfw2] b2 Hb2; [done|]. destruct (free_place _ _ _ Hwf1 Hfw2 Hset1) as [Hpl Hfree].
    apply Hstage; [by eapply body_inv_buffer|apply Hfree]. }
  destruct st; try by apply Hstops.
  - destruct (flush_ok w1 (sk_dest _ Hok1)) as (w2 & Hfl & Hbut & Hd2 & Hs2). rewrite Hfl, bind_ok.
    assert (well (clear_current_pipeline_data h2) w2) as Hw2.
    { destruct Hw1 as [[_ ? ?] ? ? ? ? ? ?]. constructor; try done. by rewrite (sb_cache _ _ Hbut). }
    eapply yields_bind; [by apply initialize_yields|]. intros [h3 w3] [Hb Hs3]. simpl.
    rewrite Ev, app_nil_r. split; [|split; [done|]].
    + eapply (begins_inv _ _ (l ++ wire f.(f_msg) ++ out)); [done|done| |].
      * constructor; [done|]. by exists out.
      * by rewrite Hs3, Hs2, Hout, <- !app_assoc.
    + intros _. unfold measure, rank. rewrite Es, (be_state _ _ Hb). lia.
  - assert (forall b2, wf b2 -> stage base (fs0 ++ [f]) h2 w1 b2) as Hany
      by (intros b2 Hb2; apply Hstage; [by apply Hst|by eapply settles_next]).
    simpl. rewrite Ev, app_nil_r. split; [|done]. split; [done|]. split; [done|]. split; [done|]. auto.
Qed.

Lemma turn_ok base fs h w b :
  wf b -> well h w -> stage base fs h w b -> yields True (turn h w b) (turn_post base fs h w b).
Proof.
  intros Hwf Hw Hs. unfold http_proxy_stream_handler.turn. destruct (message_state_ h) eqn:Es.
  - by apply turn_start.
  - by apply turn_header.
  - by apply turn_push.
  - by apply turn_body.
Qed.

(** ** Sequences of turns *)

(** Between two calls anything may happen that sends nothing to the
    destination: the other stream runs, the poller marks sockets ready. *)
Record meanwhile (w w' : world K) : Prop := {
  mw_sent : sent_to_dest w' = sent_to_dest w;
  mw_open : dest_open w';
  mw_ready : dest_ready w -> dest_ready w';
  mw_cache : cache_ok z w'.(header_cache_)
}.

(** The buffer of the next call. *)
Record next_buffer (st : socketlib.STATUS) (b b' : read_write_buffer) : Prop := {
  nb_wf : wf b';
  nb_same : b' = b \/ (st = socketlib.COMPLETE \/ rwb.fully_written b = true) /\ just_read b'
}.

(** The sizes the handler is made with. *)
Definition sizes_ok (num_headers : Z) : Prop :=
  0 <= z.(n_line1) < 2 ^ 31 /\ 0 <= z.(n_line2) < 2 ^ 31 /\ 0 <= z.(n_line3) < 2 ^ 31 /\
  0 <= num_headers < 2 ^ 31.

(** What can come about: [None] inside a call of [process_data], the last
    status between two calls.  [base] is what the destination was sent
    before the handler was last reset, [fs] are the messages whose header was
    written whole since.  Between two calls the handler may be asked for the
    forward address, and the destination may be replaced by a new socket as
    long as nothing was sent. *)
Inductive reach : list Z -> list forwarded -> option socketlib.STATUS -> t A -> world K ->
    read_write_buffer -> Prop :=
  | reach_make ty n e i s c h c' w h' w' b :
      sizes_ok n -> cache_ok z c ->
      http_proxy_stream_handler.make ty z.(n_line1) z.(n_line2) z.(n_line3) n e i s c = Ok (h, c') ->
      cache_ok z w.(header_cache_) -> dest_open w ->
      http_proxy_stream_handler.reset h w = Ok (h', w') -> wf b -> just_read b ->
      reach (sent_to_dest w') [] (Some socketlib.COMPLETE) h' w' b
  | reach_reset base fs o h w b w2 h' w' b' :
      reach base fs o h w b -> dest_open w2 -> cache_ok z w2.(header_cache_) ->
      http_proxy_stream_handler.reset h w2 = Ok (h', w') -> wf b' -> just_read b' ->
      reach (sent_to_dest w') [] (Some socketlib.COMPLETE) h' w' b'
  | reach_meanwhile base fs st h w b w2 b2 :
      reach base fs (Some st) h w b -> meanwhile w w2 -> next_buffer st b b2 ->
      reach base fs (Some st) h w2 b2
  | reach_address base fs st h w b s h' :
      reach base fs (Some st) h w b -> get_forward_address_status host_rules_ h = Ok (s, h') ->
      reach base fs (Some st) h' w b
  | reach_connect base fs st h w b w2 :
      reach base fs (Some st) h w b -> sent_to_dest w = base -> dest_open w2 ->
      cache_ok z w2.(header_cache_) -> reach (sent_to_dest w2) fs (Some st) h w2 b
  | reach_call base fs st h w b :
      reach base fs (Some st) h w b -> reach base fs None h w b
  | reach_turn base fs h w b o h' w' b' :
      reach base fs None h w b -> turn h w b = Ok (o, h', w', b') ->
      reach base (fs ++ event h w h') o h' w' b'
  | reach_flush base fs h w b :
      reach base fs None h w b -> b.(working_length_) = 0 -> h.(message_state_) = PARSE_HEADER ->
      reach base fs (Some socketlib.COMPLETE) h w b.

Lemma well_meanwhile h w w2 : well h w -> dest_open w2 -> cache_ok z w2.(header_cache_) -> well h w2.
Proof. intros [[_ Hl He] ? ? ? ? ? ?] Hd Hc. by constructor. Qed.

Lemma reset_yields_begins h w :
  well h w -> yields True (http_proxy_stream_handler.reset h w) (fun '(h', w') => begins h' w').
Proof.
  intros Hw. unfold http_proxy_stream_handler.reset.
  eapply yields_bind; [apply empty_queue_returns|]. intros q _.
  eapply yields_mono; [apply initialize_yields; eapply well_io; [exact Hw|apply with_queue_io|apply with_current_same]|].
  intros [h' w'] [Hb _]. exact Hb.
Qed.

Lemma make_well ty n e i s c h c' :
  sizes_ok n -> cache_ok z c ->
  http_proxy_stream_handler.make ty z.(n_line1) z.(n_line2) z.(n_line3) n e i s c = Ok (h, c') ->
  cache_ok z c' /\ forall w : world K, cache_ok z w.(header_cache_) -> dest_open w -> well h w.
Proof.
  intros (Hz1 & Hz2 & Hz3 & Hn) Hc Hm. unfold http_proxy_stream_handler.make in Hm.
  rewrite error_response_made, bind_ok in Hm. apply bind_ok_inv in Hm as ([hh c2] & Hh & [= <- <-]).
  assert (message_kept z (message_buffer.make true z.(n_line1) z.(n_line2) z.(n_line3) n)) as Hk
    by (constructor; simpl; done || by apply stored_kept, stored_make).
  apply (yields_ok _ _ _ _ (reset_yields z (header_handler.HeaderHandler _ 0 0 false false http.NONE ty) c Hk Hc))
    in Hh as [Hm Hc2].
  split; [done|]. intros w Hcw Hd. constructor; try done.
  - constructor; [done| |apply make_static_ok; [forall_concrete|done]].
    constructor; [|done]. apply stored_kept, stored_make. unfold CHUNK_SIZE_LENGTH. lia.
  - apply make_writer_ok.
  - exact (message_ok_kept _ _ Hm).
Qed.

Lemma begins_start base h w b :
  begins h w -> wf b -> base = sent_to_dest w -> inv base [] (Some socketlib.COMPLETE) h w b.
Proof.
  intros Hb Hwf ->. apply inv_ends; [by rewrite (be_state _ _ Hb)|].
  apply (begins_inv _ _ []); [done|done|constructor|by rewrite app_nil_r].
Qed.

(** ** Between two calls *)

Lemma inv_some base fs st h w b :
  wf b -> well h w -> stage base fs h w b ->
  (st = socketlib.COMPLETE \/ rwb.fully_written b = true -> forall b2, wf b2 -> stage base fs h w b2) ->
  inv base fs (Some st) h w b.
Proof.
  intros Hwf Hw Hs Hf. destruct (inv_stage _ _ _ _ _ Hwf Hw Hs) as (_ & _ & Hfw & _). by repeat (split; [done|]).
Qed.

Lemma stage_receiver base fs h w h2 w2 b :
  sent_to_dest w2 = sent_to_dest w -> (dest_ready w -> dest_ready w2) -> sink_ok (h2, w2) ->
  h2 = with_address h2.(forward_address_) h -> stage base fs h w b -> stage base fs h2 w2 b.
Proof.
  intros Hs Hrdy Hok Eh. unfold stage.
  assert (message_state_ h2 = message_state_ h) as -> by by rewrite Eh.
  assert (written h2 = written h) as Ew by by rewrite Eh.
  destruct (message_state_ h); rewrite ?Hs.
  1, 2: intros (? & ? & ?); rewrite Eh; done.
  - rewrite Ew. intros (? & ? & ? & ?). rewrite Eh. done.
  - intros (fs0 & f & l & ? & ? & Ee & ? & Hinv & Hset). exists fs0, f, l.
    assert (body_parser_ h2 = body_parser_ h) as -> by by rewrite Eh. do 4 (split; [done|]).
    split; [|by eapply settled_receiver; [|exact Hset]]. eapply body_inv_receiver; [|exact Hinv].
    constructor; try done; simpl; by rewrite Eh.
Qed.

Lemma address_same (h : t A) : h = with_address h.(forward_address_) h.
Proof. by destruct h. Qed.

Lemma inv_meanwhile base fs st h w b w2 b2 :
  inv base fs (Some st) h w b -> meanwhile w w2 -> next_buffer st b b2 -> inv base fs (Some st) h w2 b2.
Proof.
  intros (Hwf & Hw & _ & Hs & Hf) [Hsent Hd Hrdy Hc] [Hwf2 Hb].
  pose proof (well_meanwhile _ _ _ Hw Hd Hc) as Hw2.
  assert (forall b, stage base fs h w b -> stage base fs h w2 b) as Hst.
  { intros b0. apply stage_receiver; try done; [apply Hw2|apply address_same]. }
  apply inv_some; [done|done|..].
  - destruct Hb as [->|[Hb _]]; auto.
  - intros Hfree b3 Hb3. apply Hst, Hf; [|done]. destruct Hb as [->|[Hb _]]; auto.
Qed.

Lemma forward_address_same h s h' :
  get_forward_address_status host_rules_ h = Ok (s, h') -> h' = with_address h'.(forward_address_) h.
Proof.
  unfold get_forward_address_status. destruct (stream_type_ h); [|intros [= _ <-]; apply address_same].
  intros Hs. apply bind_ok_inv in Hs as (v & _ & Hs).
  destruct v; try (injection Hs as _ <-; apply address_same);
    apply bind_ok_inv in Hs as ([[i [rules|]]|] & _ & Hs);
    try (injection Hs as _ <-; apply address_same);
    apply bind_ok_inv in Hs as (u & _ & [= _ <-]); by destruct h.
Qed.

Lemma inv_address base fs st h w b h' :
  inv base fs (Some st) h w b -> h' = with_address h'.(forward_address_) h -> inv base fs (Some st) h' w b.
Proof.
  intros (Hwf & Hw & _ & Hs & Hf) Eh.
  assert (well h' w) as Hw2 by (rewrite Eh; destruct Hw as [[] ]; by constructor).
  assert (forall b, stage base fs h w b -> stage base fs h' w b) as Hst.
  { intros b0. apply stage_receiver; try done. apply Hw2. }
  apply inv_some; auto.
Qed.

Lemma wire_nonempty x : wire x <> [].
Proof.
  unfold wire, serialize. intros E. by repeat (apply app_eq_nil in E as [_ E]).
Qed.

Lemma whole_empty fs l : whole_messages fs l -> l = [] -> fs = [].
Proof.
  destruct 1 as [|fs f l m _ (body & _ & ->)]; [done|]. intros E.
  apply app_eq_nil in E as [_ E]. apply app_eq_nil in E as [E _]. by apply wire_nonempty in E.
Qed.

(** Nothing was sent: another destination will do. *)
Lemma stage_unsent base fs h w w2 b :
  sent_to_dest w = base -> stage base fs h w b -> stage (sent_to_dest w2) fs h w2 b /\
    h.(message_state_) <> PARSE_BODY.
Proof.
  intros E. assert (forall l, sent_to_dest w = base ++ l -> l = []) as Hnil.
  { intros l El. rewrite E in El. rewrite <- (app_nil_r base) in El at 1. by apply app_inv_head in El. }
  unfold stage. destruct (message_state_ h).
  1, 2: intros (Hno & Hm & l & Hl & Hs); apply Hnil in Hs as ->; split; [|done]; split; [done|]; split; [done|];
    exists []; by rewrite app_nil_r.
  - intros (Hno & Hm & Hinv & l & part & Hl & Hs & Hp). apply Hnil, app_eq_nil in Hs as [-> ->].
    split; [|done]. split; [done|]. split; [done|]. split; [done|]. exists [], []. by rewrite app_nil_r.
  - intros (fs0 & f & l & -> & _ & _ & _ & (_ & _ & [l2 Hl2] & _) & _). exfalso. simpl in Hl2.
    rewrite <- !app_assoc in Hl2. apply Hnil in Hl2. apply app_eq_nil in Hl2 as [_ Hl2].
    apply app_eq_nil in Hl2 as [Hl2 _]. by apply wire_nonempty in Hl2.
Qed.

Lemma inv_connect base fs st h w b w2 :
  inv base fs (Some st) h w b -> sent_to_dest w = base -> dest_open w2 -> cache_ok z w2.(header_cache_) ->
  inv (sent_to_dest w2) fs (Some st) h w2 b.
Proof.
  intros (Hwf & Hw & _ & Hs & _) E Hd Hc. destruct (stage_unsent base fs h w w2 b E Hs) as [Hs2 Hne].
  apply inv_ends; [done|]. apply inv_stage; [done|by eapply well_meanwhile|done].
Qed.

Lemma reach_inv base fs o h w b : reach base fs o h w b -> inv base fs o h w b.
Proof.
  induction 1 as [ty n e i s c h c' w h' w' b Hz Hc Hm Ew Hd Hr Hwf _
    |base fs o h w b w2 h' w' b' _ IH Hd Hc Hr Hwf _
    |base fs st h w b w2 b2 _ IH Hm Hb|base fs st h w b s h' _ IH Ha|base fs st h w b w2 _ IH E Hd Hc
    |base fs st h w b _ IH|base fs h w b o h' w' b' _ IH Ht|base fs h w b _ IH Hwl Es].
  - apply begins_start; [|done|done].
    exact (yields_ok _ _ _ _ (reset_yields_begins h w (proj2 (make_well _ _ _ _ _ _ _ _ Hz Hc Hm) w Ew Hd)) Hr).
  - apply begins_start; [|done|done]. destruct IH as (_ & Hw & _).
    exact (yields_ok _ _ _ _ (reset_yields_begins h w2 (well_meanwhile _ _ _ Hw Hd Hc)) Hr).
  - by eapply inv_meanwhile.
  - eapply inv_address; [done|by eapply forward_address_same].
  - by eapply inv_connect.
  - destruct IH as (Hwf & Hw & Hfw & Hs & _). by repeat (split; [done|]).
  - destruct IH as (Hwf & Hw & _ & Hs). exact (proj1 (yields_ok _ _ _ _ (turn_ok _ _ _ _ _ Hwf Hw Hs) Ht)).
  - apply inv_ends; [by rewrite Es|done].
Qed.

(** What every turn keeps, a call keeps. *)
Lemma loop_closed (P : list forwarded -> option socketlib.STATUS -> t A -> world K -> read_write_buffer -> Prop)
    base :
  (forall fs h w b o h' w' b', P fs None h w b -> turn h w b = Ok (o, h', w', b') ->
    P (fs ++ event h w h') o h' w' b') ->
  (forall fs h w b, P fs None h w b -> inv base fs None h w b) ->
  forall fuel fs h w b, P fs None h w b -> measure h w b < Z.of_nat fuel ->
  yields True (process_loop fuel h w b) (fun '(st, h', w', b') => exists fs', P (fs ++ fs') (Some st) h' w' b').
Proof.
  intros Hturn Hinv. induction fuel as [|fuel IH]; intros fs h w b Hp Hf;
    destruct (Hinv _ _ _ _ Hp) as (Hwf & Hw & _ & Hs).
  - destruct Hwf. unfold measure, rank in Hf. destruct (message_state_ h), (denied h w); lia.
  - cbn [http_proxy_stream_handler.process_loop]. pose proof (turn_ok _ _ _ _ _ Hwf Hw Hs) as Ht.
    destruct (turn h w b) as [[[[o h1] w1] b1]| | |] eqn:E; try done. rewrite bind_ok.
    pose proof (Hturn _ _ _ _ _ _ _ _ Hp E) as Hp1. destruct o as [st|].
    + simpl. by eexists.
    + destruct Ht as (_ & _ & Hm). specialize (Hm eq_refl).
      eapply yields_mono; [apply (IH _ _ _ _ Hp1); lia|]. intros [[[st h2] w2] b2] [fs' Hp2].
      exists (event h w h1 ++ fs'). by rewrite app_assoc.
Qed.

Lemma measure_fuel h w b :
  wf b -> measure h w b < Z.of_nat (4 * Z.to_nat (rwb.get_working_length b) + 6).
Proof.
  intros []. unfold measure, rank, rwb.get_working_length. destruct (message_state_ h), (denied h w); lia.
Qed.

Lemma process_reach base fs h w b :
  reach base fs None h w b ->
  yields True (process_data h w b) (fun '(st, h', w', b') =>
    exists fs', reach base (fs ++ fs') (Some st) h' w' b').
Proof.
  intros Hr. unfold http_proxy_stream_handler.process_data. destruct (_ && _) eqn:E.
  - apply andb_true_iff in E as [Hwl Es%bool_decide_eq_true]. simpl. exists []. rewrite app_nil_r.
    apply reach_flush; [done| |done]. unfold rwb.get_working_length in Hwl. lia.
  - destruct (reach_inv _ _ _ _ _ _ Hr) as [Hwf _].
    eapply (loop_closed (reach base) base); [| |exact Hr|by apply measure_fuel].
    + intros fs1 h1 w1 b1 o h2 w2 b2. apply reach_turn.
    + intros fs1 h1 w1 b1. apply reach_inv.
Qed.

End stream.

(** * Two streams at a concrete input *)

Definition sample_sizes : sizes := Sizes 16 16 16 16 16.

(** A ready connection. *)
Definition sample_socket (fd : Z) : connection.t :=
  connection.Connection true true fd (rwb.make 8) connection.CONNECTED [].

Definition sample_pool : header_cache := cache.make 4 16 16.

Definition sample_handler (ty : STREAM_TYPE) : res (t Z * header_cache) :=
  make ty 16 16 16 4 http.NONE 0 header_writer.FIELD_NAME sample_pool.

(** A world where the destination takes writes as the script says; the queue
    is the one of a new connection. *)
Definition sample_world (writes : list (nat + errno)) (c : header_cache) : world script :=
  let '(q, hp) := pipeline_data_queue.make ∅ in
  World script (Script writes [] []) (Some (sample_socket 3)) (Some (sample_socket 4)) q hp c
    access_log.make [].

Definition sample_start (ty : STREAM_TYPE) (writes : list (nat + errno)) : res (t Z * world script) :=
  '(h, c) ← sample_handler ty; reset h (sample_world writes c).

Definition sample_date : log_record.tm := log_record.Tm 1 0 100 0 0 0 0.

Definition sample_rules : gmap (list Z) (host_rules.t Z) := ∅.

Definition sample_run (s : res (t Z * world script)) (b : read_write_buffer) :=
  '(h, w) ← s; process_data sample_rules None (fun _ => sample_date) h w b.

Lemma sample_rules_ok : rules_ok sample_rules.
Proof. intros name rules Hr. unfold sample_rules in Hr. by rewrite lookup_empty in Hr. Qed.

Lemma sample_postprocessor : postprocessor_ok sample_sizes None.
Proof. by intros pp m Hpp. Qed.

Lemma sample_pool_ok : cache_ok sample_sizes sample_pool.
Proof.
  apply Forall_forall. intros h Hh. apply hb_ok_kept. apply list_elem_of_In in Hh.
  assert (h = hb.make 16 16) as ->.
  { unfold sample_pool, cache.make in Hh. cbn in Hh. repeat destruct Hh as [<-|Hh]; done. }
  apply (hb_make_ok sample_sizes); split; reflexivity || discriminate.
Qed.

Lemma sample_reach ty writes h w b :
  sample_start ty writes = Ok (h, w) -> wf b -> just_read b ->
  reach sample_sizes sample_rules None (fun _ => sample_date) (sent_to_dest w) [] None h w b.
Proof.
  intros Hs Hwf Hjust. unfold sample_start in Hs. apply bind_ok_inv in Hs as ([h0 c] & Hm & Hr).
  assert (dest_open (sample_world writes c)) as Hd.
  { exists (sample_socket 4). split; [|intros _; exact I]. unfold sample_world. by destruct (pipeline_data_queue.make ∅). }
  assert (reach sample_sizes sample_rules None (fun _ => sample_date) (sent_to_dest w) []
    (Some socketlib.COMPLETE) h w b) as Hstart.
  { assert (sizes_ok sample_sizes 4) as Hn by (repeat split; discriminate || reflexivity).
    eapply (reach_make sample_sizes _ _ _ ty 4); [exact Hn|exact sample_pool_ok|exact Hm| |exact Hd|exact Hr|exact Hwf|exact Hjust].
    assert (header_cache_ (sample_world writes c) = c) as ->
      by (unfold sample_world; by destruct (pipeline_data_queue.make ∅)).
    exact (proj1 (make_well (K := script) sample_sizes _ _ _ _ _ _ _ _ Hn sample_pool_ok Hm)). }
  apply (reach_call _ _ _ _ _ _ _ _ _ _ Hstart).
Qed.

Definition sample_post : list Z :=
  str "POST /a HTTP/1.0" ++ [CR; LF] ++ str "Content-Length: 3" ++ [CR; LF; CR; LF] ++ str "abc".

Lemma sample_post_wf : wf (store 64 sample_post).
Proof. apply sample_wf; [unfold sample_post, CR, LF; forall_concrete|vm_compute; lia]. Qed.

(** * Properties *)
Section properties.
Context {K : Type} `{OsLaws K} {A : Type}.
Variable z : sizes.
Variable host_rules_ : gmap (list Z) (host_rules.t A).
Variable request_postprocessor_ : option (message_buffer.t -> res (bool * message_buffer.t)).
Variable localtime : nat -> log_record.tm.

(** C5: over any sequence of calls of [process_data] of a handler that was
    made and reset, with buffers cut anywhere, a destination that blocks after
    any byte or fails, the other stream running between the calls, and
    whatever the calls answered, what the handler has sent is the
    messages whose headers it wrote, one after the other: each the
    serialisation of a header, then a whole body with the framing that header
    announced; of the last message it is a prefix of the header, or the header
    and a part of the body. *)
Theorem messages_forwarded base fs o (h : t A) (w : world K) b :
  rules_ok host_rules_ -> postprocessor_ok z request_postprocessor_ ->
  reach z host_rules_ request_postprocessor_ localtime base fs o h w b ->
  exists l, sent_to_dest w = base ++ l /\ forwards h fs l.
Proof.
  intros Hrules Hpost Hr.
  by destruct (reach_inv _ _ _ _ Hrules Hpost _ _ _ _ _ _ Hr) as (_ & _ & Hf & _).
Qed.

(** C7: a call of [process_data] ends, whatever the buffer, the destination
    and the state between two calls: its loop does not run for more than four
    turns for every byte of the buffer and six more.  It stops at a check or
    a null pointer, or it returns a status, and then it was a sequence of
    turns. *)
Theorem process_data_ends base fs (h : t A) (w : world K) b :
  rules_ok host_rules_ -> postprocessor_ok z request_postprocessor_ ->
  reach z host_rules_ request_postprocessor_ localtime base fs None h w b ->
  match process_data host_rules_ request_postprocessor_ localtime h w b with
  | Ok (st, h', w', b') => exists fs',
      reach z host_rules_ request_postprocessor_ localtime base (fs ++ fs') (Some st) h' w' b'
  | Aborted | Undef => True
  | NoFuel => False
  end.
Proof.
  intros Hrules Hpost Hr. pose proof (process_reach _ _ _ _ Hrules Hpost _ _ _ _ _ Hr) as Hy.
  by destruct (process_data _ _ _ _ _ _) as [[[[st h'] w'] b']| | |].
Qed.

End properties.

Lemma messages_forwarded_witness :
  exists h w b h' w' b' l,
    sample_start REQUEST (replicate 20 (inl 100%nat)) = Ok (h, w) /\ b = store 64 sample_post /\
    process_data sample_rules None (fun _ => sample_date) h w b = Ok (socketlib.COMPLETE, h', w', b') /\
    sent_to_dest w' = [] ++ l /\ l = sample_post /\ exists fs, forwards h' fs l.
Proof.
  destruct (sample_start REQUEST (replicate 20 (inl 100%nat))) as [[h w]| | |] eqn:Es;
    try (vm_compute in Es; discriminate).
  pose proof (sample_reach _ _ _ _ _ Es sample_post_wf (conj eq_refl (conj eq_refl eq_refl))) as Hr.
  pose proof (process_reach _ _ _ _ sample_rules_ok sample_postprocessor _ _ _ _ _ Hr) as Hp.
  destruct (process_data sample_rules None (fun _ => sample_date) h w (store 64 sample_post))
    as [[[[st h'] w'] b']| | |] eqn:Ep; vm_compute in Es; injection Es as <- <-;
    try (vm_compute in Ep; discriminate).
  destruct Hp as [fs Hp].
  destruct (messages_forwarded _ _ _ _ _ _ _ _ _ _ sample_rules_ok sample_postprocessor Hp) as (l & Hl & Hf).
  eexists _, _, _, h', w', b', l. split; [reflexivity|]. split; [reflexivity|].
  vm_compute in Ep. injection Ep as <- <- <- <-.
  split; [vm_compute; reflexivity|]. split; [exact Hl|].
  split; [vm_compute in Hl; symmetry; exact Hl|]. exists fs. exact Hf.
Defined.

Lemma process_data_ends_witness :
  exists h w, sample_start RESPONSE [] = Ok (h, w) /\
    exists st h' w' b',
      process_data sample_rules None (fun _ => sample_date) h w (store 64 (str "HTTP/1.0 200")) =
      Ok (st, h', w', b') /\ st = socketlib.COMPLETE.
Proof.
  destruct (sample_start RESPONSE []) as [[h w]| | |] eqn:Es; try (vm_compute in Es; discriminate).
  exists h, w. split; [reflexivity|].
  assert (wf (store 64 (str "HTTP/1.0 200"))) as Hwf by (apply sample_wf; [forall_concrete|vm_compute; lia]).
  pose proof (process_data_ends _ _ _ _ _ _ _ _ _ sample_rules_ok sample_postprocessor
    (sample_reach _ _ _ _ _ Es Hwf (conj eq_refl (conj eq_refl eq_refl)))) as He.
  destruct (process_data sample_rules None (fun _ => sample_date) h w (store 64 (str "HTTP/1.0 200")))
    as [[[[st h'] w'] b']| | |] eqn:Ep; vm_compute in Es; injection Es as <- <-;
    try (vm_compute in Ep; discriminate).
  exists st, h', w', b'. split; [reflexivity|]. vm_compute in Ep. injection Ep as <- _ _ _. reflexivity.
Defined.
