(* ===== verification/ProxySafety.v ===== *)
(** What the two sockets of a proxied connection are sent, over any events:
    the proxy handler calls its stream handlers by their contract, so that
    each socket is sent whole messages and a part of the next.  The invariant
    of a proxy handler is kept by every step of its event handler, and by
    whatever other connections do in between. *)
From stdpp Require Import list gmap.
From S2P Require Import Prelude Status ReadWriteBuffer HttpLex Interfaces HeaderStore HeaderHandler.
From S2P Require Import HeaderParser HandlerSafety BodyParsers BodyRun BodyWindow Os Connection Net Poller.
From S2P Require Import HeaderWriter Printf MemoryManager Pipeline Url StreamHandler ProxyHandler ProxyFrame.
From S2P Require Import StreamBody StreamFrame StreamMoves StreamSafety.

Import proxy_stream_interface http_proxy_stream_handler proxy_handler.

Section proxy.
Context {K A : Type} `{NetLaws K A}.
Variable host_rules_ : gmap (list Z) (host_rules.t A).
Variable request_postprocessor_ : option (message_buffer.t -> res (bool * message_buffer.t)).
Variable localtime : nat -> log_record.tm.

(** The sizes of the stream handlers of a line, which share the header
    pool. *)
Variable zs : line -> sizes.
Hypothesis Hname : (zs REQUEST_LINE).(n_name) = (zs RESPONSE_LINE).(n_name).
Hypothesis Hvalue : (zs REQUEST_LINE).(n_value) = (zs RESPONSE_LINE).(n_value).
Hypothesis Hrules : rules_ok host_rules_.
Hypothesis Hpost : forall s, postprocessor_ok (zs s) request_postprocessor_.

Abbreviation reach s := (reach (zs s) host_rules_ request_postprocessor_ localtime).

Definition other (s : line) : line :=
  match s with REQUEST_LINE => RESPONSE_LINE | RESPONSE_LINE => REQUEST_LINE end.

Lemma cache_agrees s s' c : cache_ok (zs s) c -> cache_ok (zs s') c.
Proof.
  intros Hc. eapply Forall_impl; [exact Hc|]. intros h [Hn Hv]. destruct s, s'; constructor; congruence.
Qed.

(** What the destination of a line was sent before its handler was reset, or
    when the server's socket was made. *)
Abbreviation bases := (line -> list Z).

(** The stream handler of a line is in a state its contract allows, with the
    connection's buffer as its next one. *)
Definition line_runs (s : line) (base : list Z) (p : proxy_handler.t A) (e : env K A) : Prop :=
  exists q h fs st, handler_of s p = Some q /\ e.(env_streams) !! q = Some h /\
    reach s base fs (Some st) h (world_of s p e) (connection.buffer_ (src_of s p)).

(** No socket, or one that is open. *)
Definition socket_ok (k : K) (c : connection.t) : Prop :=
  (connection.fd_ c = -1 /\ connection.state_ c = connection.NOT_CONNECTED) \/
  (connection.fd_ c <> -1 /\ open_fd k (connection.fd_ c)).

(** Each event was set to its connection's socket. *)
Record watched (p : proxy_handler.t A) : Prop := {
  wa_client : event.fd_ p.(client_event_) = connection.fd_ p.(client_data_);
  wa_server : connection.state_ p.(server_data_) <> connection.NOT_CONNECTED ->
    event.fd_ p.(server_event_) = connection.fd_ p.(server_data_);
  wa_addresses : event.event_ p.(client_event_) <> event.event_ p.(server_event_)
}.

(** The event is pending for a socket. *)
Definition awaits (k : K) (ev : event.t) (fd mask : Z) : Prop :=
  poller.pending A k ev = true /\ event_watches (A := A) k ev.(event.event_) = (fd, mask).

(** The connection that was begun is waited for. *)
Definition connecting_waits (p : proxy_handler.t A) (e : env K A) : Prop :=
  connection.state_ p.(server_data_) = connection.CONNECTING ->
  awaits e.(env_kernel) p.(server_event_) (connection.fd_ p.(server_data_)) (Z.lor EV_READ EV_WRITE).

Record proxy_ok (base : bases) (p : proxy_handler.t A) (e : env K A) : Prop := {
  px_line s : line_runs s (base s) p e;
  px_handlers : handler_of REQUEST_LINE p <> handler_of RESPONSE_LINE p;
  px_client : connection.fd_ p.(client_data_) <> -1;
  px_socket s : socket_ok e.(env_kernel) (src_of s p);
  px_fds : connection.fd_ p.(client_data_) <> connection.fd_ p.(server_data_);
  px_watched : watched p;
  px_unsent : early p.(server_data_) ->
    sent e.(env_kernel) (connection.fd_ p.(server_data_)) = base REQUEST_LINE
}.

Lemma socket_same k c k' c' :
  socket_ok k c -> connection.fd_ c' = connection.fd_ c ->
  (connection.fd_ c <> -1 -> open_fd k (connection.fd_ c) -> open_fd k' (connection.fd_ c)) ->
  (connection.state_ c = connection.NOT_CONNECTED -> connection.state_ c' = connection.NOT_CONNECTED) ->
  socket_ok k' c'.
Proof. intros [[Hf Hs]|[Hf Ho]] E Hop Hst; [left|right]; rewrite E; auto. Qed.

Lemma socket_made k c :
  socket_ok k c -> connection.state_ c <> connection.NOT_CONNECTED ->
  connection.fd_ c <> -1 /\ open_fd k (connection.fd_ c).
Proof. by intros [[_ Hs]|Ho] Hne. Qed.

Lemma socket_usable k c : socket_ok k c -> usable k c.
Proof.
  intros Ho Hw. apply (socket_made _ _ Ho). intros E. unfold connection.open_for_write in Hw. by rewrite E in Hw.
Qed.

Lemma client_open base p e :
  proxy_ok base p e -> open_fd e.(env_kernel) (connection.fd_ p.(client_data_)).
Proof. intros Hp. destruct (px_socket _ _ _ Hp REQUEST_LINE) as [[E _]|[_ Ho]]; [by destruct (px_client _ _ _ Hp)|done]. Qed.

Lemma src_other s (p : proxy_handler.t A) : src_of (other s) p = dest_of s p.
Proof. by destruct s. Qed.

Lemma dest_other s (p : proxy_handler.t A) : dest_of (other s) p = src_of s p.
Proof. by destruct s. Qed.

Lemma line_inv s b p e :
  line_runs s b p e -> exists q h fs st, handler_of s p = Some q /\ e.(env_streams) !! q = Some h /\
    reach s b fs (Some st) h (world_of s p e) (connection.buffer_ (src_of s p)) /\
    inv (zs s) b fs (Some st) h (world_of s p e) (connection.buffer_ (src_of s p)).
Proof.
  intros (q & h & fs & st & Hq & Hh & Hr). exists q, h, fs, st. do 3 (split; [done|]).
  eapply reach_inv; [apply Hrules|apply Hpost|exact Hr].
Qed.

Lemma proxy_cache base p e s : proxy_ok base p e -> cache_ok (zs s) e.(env_cache).
Proof.
  intros Hp. destruct (line_inv _ _ _ _ (px_line _ _ _ Hp s)) as (q & h & fs & st & _ & _ & _ & _ & Hw & _).
  exact (we_cache _ _ _ Hw).
Qed.

(** Steps between two calls of a line's handler. *)
Lemma line_meanwhile s b p e p2 e2 :
  line_runs s b p e -> handler_of s p2 = handler_of s p ->
  (forall q, handler_of s p = Some q -> e2.(env_streams) !! q = e.(env_streams) !! q) ->
  sent e2.(env_kernel) (connection.fd_ (dest_of s p2)) = sent e.(env_kernel) (connection.fd_ (dest_of s p)) ->
  usable e2.(env_kernel) (dest_of s p2) ->
  (connection.ready_to_write (dest_of s p) = true -> connection.ready_to_write (dest_of s p2) = true) ->
  cache_ok (zs s) e2.(env_cache) ->
  (wf (connection.buffer_ (src_of s p)) -> wf (connection.buffer_ (src_of s p2))) ->
  connection.buffer_ (src_of s p2) = connection.buffer_ (src_of s p) \/
    rwb.fully_written (connection.buffer_ (src_of s p)) = true /\ just_read (connection.buffer_ (src_of s p2)) ->
  line_runs s b p2 e2.
Proof.
  intros Hl Hh Hstr Hsent Hu Hrdy Hc Hwf Hb. destruct (line_inv _ _ _ _ Hl) as (q & h & fs & st & Hq & Hs & Hr & Hi).
  exists q, h, fs, st. rewrite Hh, Hstr by done. split; [done|]. split; [done|].
  eapply reach_meanwhile; [exact Hr|constructor|constructor].
  - exact Hsent.
  - by eexists.
  - intros (c & [= <-] & Hc0). eexists. split; [reflexivity|]. auto.
  - exact Hc.
  - apply Hwf, Hi.
  - destruct Hb as [->|[]]; auto.
Qed.

(** One of the connections changes, and nothing is sent. *)
Lemma proxy_quiet base p e s k' c' :
  proxy_ok base p e -> quiet e.(env_kernel) (src_of s p) k' c' -> socket_ok k' c' -> watched (with_src s c' p) ->
  proxy_ok base (with_src s c' p) (with_kernel k' e).
Proof.
  intros Hp [[Hsent Hop] Hfd Hnc Hearly Hrdy Hwf Hbuf] Ho Hwa. pose proof (proxy_cache _ _ _ s Hp) as Hcache.
  assert (forall x, src_of x (with_src s c' p) = if decide (x = s) then c' else src_of x p) as Esrc
    by (intros x; by destruct s, x).
  assert (forall x, handler_of x (with_src s c' p) = handler_of x p) as Eh by (intros x; by destruct s, x).
  assert (forall x, connection.fd_ (src_of x (with_src s c' p)) = connection.fd_ (src_of x p)) as Efd.
  { intros x. rewrite Esrc. by destruct (decide (x = s)) as [->|]. }
  assert (forall x, socket_ok k' (src_of x (with_src s c' p))) as Hsock.
  { intros x. rewrite Esrc. destruct (decide (x = s)) as [->|]; [done|].
    apply (socket_same _ _ _ _ (px_socket _ _ _ Hp x)); auto. }
  destruct Hp. constructor; [| | |done| |done|].
  - intros x. apply (line_meanwhile x _ p e); try done; rewrite <- ?(src_other x).
    + by rewrite Efd.
    + apply socket_usable, Hsock.
    + rewrite Esrc. by destruct (decide (other x = s)) as [<-|].
    + by eapply cache_agrees.
    + rewrite Esrc. by destruct (decide (x = s)) as [->|].
    + rewrite Esrc. destruct (decide (x = s)) as [->|]; auto.
  - by rewrite !Eh.
  - exact (eq_ind_r (fun y => y <> _) px_client0 (Efd REQUEST_LINE)).
  - pose proof (Efd REQUEST_LINE) as E1. pose proof (Efd RESPONSE_LINE) as E2. simpl in E1, E2. by rewrite E1, E2.
  - pose proof (Efd RESPONSE_LINE) as E2. pose proof (Esrc RESPONSE_LINE) as E. simpl in E, E2. rewrite E2.
    intros He. change (sent k' (connection.fd_ (server_data_ p)) = base REQUEST_LINE).
    rewrite Hsent. apply px_unsent0. rewrite E in He. destruct (decide _) as [<-|]; auto.
Qed.

Lemma proxy_flag base p e s c' :
  proxy_ok base p e -> quiet e.(env_kernel) (src_of s p) e.(env_kernel) c' -> socket_ok e.(env_kernel) c' ->
  watched (with_src s c' p) -> proxy_ok base (with_src s c' p) e.
Proof. intros Hp Hq Ho Hw. pose proof (proxy_quiet _ _ _ _ _ _ Hp Hq Ho Hw). by destruct e. Qed.

(** A connection changes but for its socket. *)
Lemma watched_src s c' p :
  watched p -> connection.fd_ c' = connection.fd_ (src_of s p) ->
  (connection.state_ c' <> connection.NOT_CONNECTED -> connection.state_ (src_of s p) <> connection.NOT_CONNECTED) ->
  watched (with_src s c' p).
Proof.
  intros [Wc Ws Wa] Hfd Hst. destruct s; constructor; simpl in *; try done; [congruence|].
  intros Hc. rewrite Hfd. auto.
Qed.

Lemma watched_same p p' :
  watched p -> connection.fd_ (client_data_ p') = connection.fd_ (client_data_ p) ->
  connection.fd_ (server_data_ p') = connection.fd_ (server_data_ p) ->
  (connection.state_ (server_data_ p') <> connection.NOT_CONNECTED ->
   connection.state_ (server_data_ p) <> connection.NOT_CONNECTED) ->
  client_event_ p' = client_event_ p -> server_event_ p' = server_event_ p -> watched p'.
Proof. intros [Wc Ws Wa] Ec Es Hst E1 E2. constructor; rewrite ?E1, ?E2, ?Ec, ?Es; auto. Qed.

(** ** What a step leaves alone *)

(** The server's socket is made once; until it is connected nothing is sent
    to it. *)
Record keeps (base : bases) (p : proxy_handler.t A) (e : env K A) (base' : bases) (p' : proxy_handler.t A)
    (e' : env K A) : Prop := {
  ke_response : base' RESPONSE_LINE = base RESPONSE_LINE;
  ke_request : connection.state_ p.(server_data_) <> connection.NOT_CONNECTED ->
    base' REQUEST_LINE = base REQUEST_LINE;
  ke_connected : connection.state_ p'.(server_data_) = connection.NOT_CONNECTED ->
    connection.state_ p.(server_data_) = connection.NOT_CONNECTED;
  ke_early : early p.(server_data_) -> early p'.(server_data_);
  ke_connecting : connecting_waits p e -> connecting_waits p' e';
  ke_confined : confined p e p' e'
}.

Lemma keeps_refl base p e : keeps base p e base p e.
Proof. constructor; auto using confined_refl. Qed.

(** The kernel changes, and no event but the client's. *)
Lemma connecting_same p e p' k' :
  client_event_ p' = client_event_ p -> server_event_ p' = server_event_ p ->
  connection.fd_ (server_data_ p') = connection.fd_ (server_data_ p) ->
  (connection.state_ (server_data_ p') = connection.CONNECTING ->
   connection.state_ (server_data_ p) = connection.CONNECTING) ->
  (event_pending (A := A) k' (event.event_ (server_event_ p)) =
     event_pending (A := A) e.(env_kernel) (event.event_ (server_event_ p)) /\
   event_watches (A := A) k' (event.event_ (server_event_ p)) =
     event_watches (A := A) e.(env_kernel) (event.event_ (server_event_ p))) ->
  forall e', env_kernel e' = k' -> connecting_waits p e -> connecting_waits p' e'.
Proof.
  intros _ E2 Efd Hst [Hp Hw] e' <- Hc Hs. destruct (Hc (Hst Hs)) as [H1' H2'].
  unfold awaits, poller.pending in *. rewrite E2, Efd. split; congruence.
Qed.

Lemma keeps_same base p e e' :
  confined p e p e' -> (connecting_waits p e -> connecting_waits p e') -> keeps base p e base p e'.
Proof. intros Hc Hw. by constructor. Qed.

Lemma keeps_trans b1 p1 e1 b2 p2 e2 b3 p3 e3 :
  keeps b1 p1 e1 b2 p2 e2 -> keeps b2 p2 e2 b3 p3 e3 -> keeps b1 p1 e1 b3 p3 e3.
Proof.
  intros [R1 Q1 N1 E1 C1] [R2 Q2 N2 E2 C2]. constructor; try congruence; auto.
  - intros Hne. rewrite Q2, Q1; auto.
  - by eapply confined_trans.
Qed.

(** The proxy is as its invariant says, [base], [p] and [e] being before. *)
Definition proxy_kept (base : bases) (p : proxy_handler.t A) (e : env K A) (p' : proxy_handler.t A) (e' : env K A)
    : Prop :=
  exists base', keeps base p e base' p' e' /\ proxy_ok base' p' e'.

Lemma proxy_kept_trans base p e p' e' p2 e2 :
  (exists base', keeps base p e base' p' e' /\ proxy_kept base' p' e' p2 e2) -> proxy_kept base p e p2 e2.
Proof. intros (b1 & Hk1 & b2 & Hk2 & Hok). exists b2. split; [by eapply keeps_trans|done]. Qed.

Lemma kept_refl base p e : proxy_ok base p e -> proxy_kept base p e p e.
Proof. intros Hp. exists base. split; [apply keeps_refl|done]. Qed.

Lemma read_source_ok base s p e p' e' :
  proxy_ok base p e -> read_source s p e = Ok (p', e') -> proxy_kept base p e p' e'.
Proof.
  intros Hp Hr. unfold read_source in Hr. destruct (_ && _) eqn:Ec.
  2: { injection Hr as <- <-. by apply kept_refl. }
  apply andb_true_iff in Ec as [Ec1%bool_decide_eq_true Ec2%bool_decide_eq_true].
  apply bind_ok_inv in Hr as ([[k c] st] & Hc & [= <- <-]). exists base.
  destruct (line_inv _ _ _ _ (px_line _ _ _ Hp s)) as (q & h & fs & st' & _ & _ & _ & [Hwf _]).
  pose proof (quiet_read _ _ _ _ _ Hc Hwf) as Hq. pose proof (qu_streams _ _ _ _ Hq) as Hs.
  pose proof (qu_fd _ _ _ _ Hq) as Hfd. pose proof (read_calm _ _ _ _ _ Hc) as Hev. split.
  - constructor; try done.
    + destruct Hq, s; auto.
    + destruct Hq, s; simpl in *; auto. intros [E|E]; [by destruct Ec1|by destruct Ec2].
    + eapply (connecting_same p e (with_src s c p) k); [by destruct s..| |apply Hev|done].
      destruct s; [done|]. simpl. intros E. destruct (qu_early _ _ _ _ Hq (or_intror E)) as [E2|E2]; [by destruct Ec1|done].
    + apply confined_same; [done|by apply other_events_same|by destruct s..].
  - apply proxy_quiet; [done|done| |].
    + right. rewrite Hfd. destruct (socket_made _ _ (px_socket _ _ _ Hp s) Ec1) as [Hne Ho]. split; [done|]. by apply Hs.
    + apply watched_src; [apply Hp|done|done].
Qed.

(** The stream handler runs: it writes to its destination only. *)
Lemma process_source_ok base s p e p' e' st :
  proxy_ok base p e ->
  process_source host_rules_ request_postprocessor_ localtime s p e = Ok (p', e', st) ->
  proxy_kept base p e p' e'.
Proof.
  intros Hp Hc. destruct (line_inv _ _ _ _ (px_line _ _ _ Hp s)) as (q & h & fs & st0 & Hq & Hh & Hr & _).
  unfold process_source, stream_of in Hc. rewrite Hq in Hc. cbn [of_option] in Hc. rewrite bind_ok, Hh in Hc.
  cbn [of_option] in Hc. rewrite !bind_ok in Hc.
  apply bind_ok_inv in Hc as ([[[st' h'] w'] b'] & Hd & Hc). apply bind_ok_inv in Hc as ([p1 e1] & Hl & [= <- <- <-]).
  apply reach_call in Hr. pose proof (yields_ok _ _ _ _ (process_reach _ _ _ _ Hrules (Hpost s) _ _ _ _ _ Hr) Hd)
    as [fs' Hr']. apply process_moves in Hd as [Hsrc Hdest].
  change (p_src_data_ (world_of s p e)) with (Some (src_of s p)) in Hsrc.
  change (p_dest_data_ (world_of s p e)) with (Some (dest_of s p)) in Hdest.
  change (kernel_ (world_of s p e)) with e.(env_kernel) in Hdest.
  destruct (p_dest_data_ w') as [c'|] eqn:Ed; [|done]. destruct (reach_inv _ _ _ _ Hrules (Hpost s) _ _ _ _ _ _ Hr')
    as (Hwf & Hw & _ & _).
  unfold leave_world in Hl. rewrite Hsrc, Ed in Hl. cbn [of_option] in Hl. rewrite !bind_ok in Hl.
  injection Hl as <- <-. set (p2 := with_src s _ _). set (e2 := with_stream _ _ _).
  assert (src_of s p2 = connection.set_read_buffer b' (src_of s p)) as Esrc by (by destruct s).
  assert (dest_of s p2 = c') as Edest by (by destruct s).
  assert (forall x, handler_of x p2 = handler_of x p) as Eh by (intros x; by destruct s, x).
  destruct Hdest as [Hoth Hopen Hfd Hin _ _ Hnc Hcg Hcalls Hidle].
  assert (forall x, connection.fd_ (src_of x p2) = connection.fd_ (src_of x p)) as Efd
    by (intros x; destruct s, x; first [done|exact Hfd]).
  pose proof (calls_events _ _ Hcalls (event.event_ (server_event_ p))) as Hown.
  assert (sent (kernel_ w') (-1) = sent e.(env_kernel) (-1)) as Hnone.
  { destruct (decide (connection.fd_ (dest_of s p) = -1)) as [E|E]; [|by apply Hoth, not_eq_sym].
    rewrite <- E. apply Hidle, early_not_ready. left. pose proof (px_socket _ _ _ Hp (other s)) as [[_ Ho]|[Ho _]];
      rewrite src_other in Ho; [done|by destruct Ho]. }
  exists base. split.
  { constructor; try done.
    - destruct s; [exact Hnc|done].
    - intros He. destruct s; [|done]. destruct (Hidle (early_not_ready _ He)) as [-> _]. exact He.
    - apply (connecting_same p e p2 (kernel_ w')); [by destruct s..| |apply Hown|done].
      intros E. destruct s; [by apply Hcg|done].
    - constructor; try done.
      + exact (Efd REQUEST_LINE).
      + left. exact (Efd RESPONSE_LINE).
      + by destruct s.
      + by apply sends_events.
      + intros fd [->|(_ & Hc1 & Hc2)]; [exact Hnone|]. apply Hoth. by destruct s.
      + intros q' Hq'. apply lookup_insert_ne. intros <-. by destruct (Hq' s). }
  pose proof (px_fds _ _ _ Hp) as Hfds. pose proof (px_handlers _ _ _ Hp) as Hhs.
  assert (connection.fd_ (src_of s p) <> connection.fd_ (dest_of s p)) as Hne by (destruct s; simpl; congruence).
  constructor.
  - intros x. destruct (decide (x = s)) as [->|Hx].
    + exists q, h', (fs ++ fs'), st'. rewrite Eh. split; [done|]. split; [by apply lookup_insert_eq|].
      rewrite Esrc. eapply reach_meanwhile; [exact Hr'|constructor|constructor; auto].
      * unfold sent_to_dest. rewrite Ed. by rewrite <- Edest.
      * destruct (sk_dest _ (we_sink _ _ _ Hw)) as (c & Hc & Hu). simpl in Hc. rewrite Ed in Hc. injection Hc as <-.
        exists c'. split; [by rewrite <- Edest|exact Hu].
      * intros (c & Hc & Hrdy). rewrite Ed in Hc. injection Hc as <-. exists c'. split; [by rewrite <- Edest|done].
      * exact (we_cache _ _ _ Hw).
    + assert (x = other s) as -> by (by destruct s, x). apply (line_meanwhile _ _ p e); rewrite ?dest_other, ?src_other.
      * exact (px_line _ _ _ Hp (other s)).
      * apply Eh.
      * intros q' Hq'. apply lookup_insert_ne. intros <-. destruct s; simpl in *; congruence.
      * rewrite Esrc. by apply Hoth.
      * rewrite Esrc. intros Hwr. apply Hopen. exact (socket_usable _ _ (px_socket _ _ _ Hp s) Hwr).
      * by rewrite Esrc.
      * eapply cache_agrees, (we_cache _ _ _ Hw).
      * by rewrite Edest, Hin.
      * left. by rewrite Edest, Hin.
  - by rewrite !Eh.
  - pose proof (Efd REQUEST_LINE) as E. simpl in E. rewrite E. apply Hp.
  - intros x. apply (socket_same e.(env_kernel) (src_of x p)); [apply Hp|apply Efd|intros _; apply Hopen|].
    intros E. destruct (decide (x = s)) as [->|Hx]; [by rewrite Esrc|].
    assert (x = other s) as -> by (by destruct s, x). rewrite src_other in E |- *. rewrite Edest.
    by destruct (Hidle (early_not_ready _ (or_introl E))) as [-> _].
  - pose proof (Efd REQUEST_LINE) as E1. pose proof (Efd RESPONSE_LINE) as E2. simpl in E1, E2. by rewrite E1, E2.
  - apply (watched_same p); [apply Hp|apply (Efd REQUEST_LINE)|apply (Efd RESPONSE_LINE)| |by destruct s..].
    intros Hn E. apply Hn. destruct s; [|exact E]. destruct (Hidle (early_not_ready _ (or_introl E))) as [Ec _].
    transitivity (connection.state_ c'); [done|]. by rewrite Ec.
  - intros He. pose proof (Efd RESPONSE_LINE) as E2. simpl in E2. rewrite E2.
    destruct s.
    + assert (early (server_data_ p)) as He0 by (destruct He; [left; by apply Hnc|right; by apply Hcg]).
      rewrite <- (px_unsent _ _ _ Hp He0). by apply (Hidle (early_not_ready _ He0)).
    + rewrite <- (px_unsent _ _ _ Hp He). by apply Hoth, not_eq_sym.
Qed.

(** ** The connection to the server *)

Lemma with_src_same s (p : proxy_handler.t A) : with_src s (src_of s p) p = p.
Proof. by destruct s, p. Qed.

Lemma proxy_same base p e k' :
  proxy_ok base p e -> same_streams sent open_fd e.(env_kernel) k' -> proxy_ok base p (with_kernel k' e).
Proof.
  intros Hp Hs. rewrite <- (with_src_same RESPONSE_LINE p). apply proxy_quiet; [done|by apply quiet_same|..].
  - apply (socket_same _ _ _ _ (px_socket _ _ _ Hp RESPONSE_LINE)); [done| |done].
    intros _. apply (ss_open _ _ _ _ Hs).
  - rewrite with_src_same. apply Hp.
Qed.

Lemma proxy_server_event base p e ev :
  proxy_ok base p e -> watched (with_server_event ev p) -> proxy_ok base (with_server_event ev p) e.
Proof. intros [] Hw. by constructor. Qed.

(** The stream handler stores the forward address. *)
Lemma proxy_address base s p e q h h' x :
  proxy_ok base p e -> stream_of s p e = Ok (q, h) -> get_forward_address_status host_rules_ h = Ok (x, h') ->
  proxy_ok base p (with_stream q h' e).
Proof.
  intros Hp Hs Ha. unfold stream_of in Hs. apply bind_ok_inv in Hs as (q0 & Hq & Hs).
  apply bind_ok_inv in Hs as (h0 & Hh & [= -> ->]).
  destruct (handler_of s p) as [q1|] eqn:Eq; [injection Hq as ->|done].
  destruct (env_streams e !! q) as [h1|] eqn:Eh; [injection Hh as ->|done].
  pose proof Hp as []. constructor; try done. intros y. destruct (px_line0 y) as (q2 & h2 & fs & st & Hq2 & Hh2 & Hr).
  destruct (decide (y = s)) as [->|Hy].
  - rewrite Hq2 in Eq. injection Eq as ->. rewrite Hh2 in Eh. injection Eh as ->.
    exists q, h', fs, st. split; [done|]. split; [by apply lookup_insert_eq|]. by eapply reach_address.
  - exists q2, h2, fs, st. split; [done|]. split; [|done]. rewrite <- Hh2. apply lookup_insert_ne. intros <-.
    apply px_handlers0. by destruct s, y; simpl in *; congruence.
Qed.

Definition set_base (l : list Z) (base : bases) : bases :=
  fun s => match s with REQUEST_LINE => l | RESPONSE_LINE => base RESPONSE_LINE end.

(** A socket for the server is made while there is none that is connected:
    nothing was sent to the one before. *)
Lemma proxy_socket base p e k1 fd k2 c :
  proxy_ok base p e -> connection.state_ p.(server_data_) = connection.NOT_CONNECTED ->
  sys_socket (A := A) e.(env_kernel) = (k1, fd) -> connection.set_fd k1 fd p.(server_data_) = (k2, c) ->
  connection.fd_ c = fd /\ connection.state_ c = connection.NOT_CONNECTED /\
  keeps base p e (set_base (sent k2 fd) base) (with_server c p) (with_kernel k2 e) /\
  proxy_ok (set_base (sent k2 fd) base) (with_server c p) (with_kernel k2 e).
Proof.
  intros Hp Hnc Hs Hset. pose proof (proxy_cache _ _ _ REQUEST_LINE Hp) as Hcache.
  assert (connection.fd_ c = fd /\ connection.state_ c = connection.NOT_CONNECTED /\
    connection.buffer_ c = connection.buffer_ p.(server_data_) /\ same_streams sent open_fd k1 k2 /\
    same_events (event_pending (A := A)) (event_watches (A := A)) k1 k2) as (Hfd & Hst & Hb & Hk2 & He2).
  { unfold connection.set_fd in Hset.
    destruct (negb _); injection Hset as <- <-; (split; [done|]); (split; [done|]); (split; [done|]);
      [split; [apply cork_streams|apply cork_events]|done]. }
  pose proof (socket_streams (A := A) e.(env_kernel)) as Hk1. rewrite Hs in Hk1. cbn [fst] in Hk1.
  pose proof (streams_trans _ _ _ Hk1 Hk2) as [Hsent Hop].
  assert (fd <> -1 -> open_fd k2 fd /\ not (open_fd e.(env_kernel) fd)) as Hfresh.
  { intros Hne. destruct (socket_fresh _ _ _ Hs Hne). split; [by apply Hk2|done]. }
  split; [done|]. split; [done|]. split.
  { constructor; try done; [by left|intros _ E; simpl in E; congruence|]. constructor; try done.
    - right. simpl. rewrite Hfd. destruct (decide (fd = -1)) as [->|Hne]; [by left|right; by apply Hfresh].
    - intros a _ _. destruct (He2 a) as [E1 E2]. pose proof (socket_events (A := A) e.(env_kernel) a) as [E3 E4].
      rewrite Hs in E3, E4. cbn [fst env_kernel with_kernel] in *. split; congruence. }
  pose proof Hp as []. constructor; try done.
  - intros []; simpl.
    + destruct (px_line0 REQUEST_LINE) as (q & h & fs & st & Hq & Hh & Hr). exists q, h, fs, st.
      split; [done|]. split; [done|]. rewrite <- Hfd.
      apply (reach_connect _ _ _ _ _ _ _ _ (world_of REQUEST_LINE p e) _ (world_of REQUEST_LINE (with_server c p) (with_kernel k2 e)) Hr).
      * apply px_unsent0. by left.
      * exists c. split; [done|]. intros Hw. unfold connection.open_for_write in Hw. by rewrite Hst in Hw.
      * done.
    + apply (line_meanwhile _ _ p e); try done; simpl.
      * intros _. apply Hop, (client_open _ _ _ Hp).
      * by eapply cache_agrees.
      * by rewrite Hb.
      * by left.
  - intros [].
    + apply (socket_same _ _ _ _ (px_socket0 REQUEST_LINE)); auto.
    + unfold socket_ok. simpl. rewrite Hfd, Hst. destruct (decide (fd = -1)) as [->|Hne]; [by left|right].
      split; [done|by apply Hfresh].
  - simpl. rewrite Hfd. intros E. pose proof (client_open _ _ _ Hp) as Ho. rewrite E in Ho, px_client0.
    by destruct (Hfresh px_client0).
  - by destruct px_watched0 as [Wc Ws Wa].
  - simpl. by rewrite Hfd.
Qed.

(** The new socket is watched, and the connection begins. *)
Lemma keeps_connecting base p e p' k' :
  same_streams sent open_fd e.(env_kernel) k' -> other_events p e.(env_kernel) k' ->
  connecting_waits p' (with_kernel k' e) -> early p'.(server_data_) -> same_addresses p p' ->
  (connection.state_ p'.(server_data_) = connection.NOT_CONNECTED ->
   connection.state_ p.(server_data_) = connection.NOT_CONNECTED) ->
  connection.fd_ p'.(client_data_) = connection.fd_ p.(client_data_) ->
  connection.fd_ p'.(server_data_) = connection.fd_ p.(server_data_) ->
  (forall s, handler_of s p' = handler_of s p) -> keeps base p e base p' (with_kernel k' e).
Proof. intros. constructor; try done. by apply confined_same. Qed.

Lemma initiate_ok base this a p e p' e' st :
  proxy_ok base p e -> connection.state_ p.(server_data_) = connection.NOT_CONNECTED ->
  initiate_server_connect this a p e = Ok (p', e', st) -> proxy_kept base p e p' e'.
Proof.
  intros Hp Hnc Hi. unfold initiate_server_connect in Hi.
  destruct (sys_socket (A := A) (env_kernel e)) as [k1 fd] eqn:Es.
  destruct (connection.set_fd k1 fd (server_data_ p)) as [k2 c] eqn:Ec.
  destruct (proxy_socket _ _ _ _ _ _ _ Hp Hnc Es Ec) as (Hfd & Hst & Hk1 & Hp1).
  eapply proxy_kept_trans. eexists. split; [exact Hk1|].
  destruct (_ =? -1) eqn:E1; [injection Hi as <- <- _; by apply kept_refl|].
  set (p1 := with_server c p) in *. set (base1 := set_base _ _) in *. unfold event.set in Hi.
  unfold connection.fd in Hi. apply bind_ok_inv in Hi as (k3 & Ha & Hi).
  set (ev := event.Event _ _ _) in *. pose proof (yields_ok _ _ _ _ (add_event_yields _ _ _ _) Ha) as [Ht Hpend].
  pose proof (to_streams _ _ _ Ht) as Hs3.
  pose proof (streams_trans _ _ _ (event_set_streams (A := A) k2 (event.event_ (server_event_ p1)) (connection.fd_ c) 0) Hs3) as Hs2.
  pose proof (connect_streams k3 (connection.fd_ c) a) as Hs4.
  pose proof (connect_events k3 (connection.fd_ c) a) as He4.
  destruct (sys_connect k3 (connection.fd_ c) a) as [k4 x]. cbn [fst] in Hs4, He4.
  pose proof (streams_trans _ _ _ Hs2 Hs4) as Hs5.
  assert (watched (with_server_event ev p1)) as Hwa by (destruct (px_watched _ _ _ Hp1); by constructor).
  assert (proxy_ok base1 (with_server_event ev p1) (with_kernel k4 e)) as Hp2
    by exact (proxy_same _ _ _ k4 (proxy_server_event _ _ _ _ Hp1 Hwa) Hs5).
  assert (other_events p1 k2 k4) as Hoth.
  { apply (other_events_trans p1 p1 k2 k3); [done| |by apply other_events_same].
    eapply other_events_server, touches_trans; [apply touches_set|exact Ht]. }
  assert (early c) as Hearly by by left.
  destruct x as [[]|er]; [discriminate Hi|].
  destruct er; try (injection Hi as <- <- _; exists base1; split; [|exact Hp2];
    apply (keeps_connecting base1 p1 (with_kernel k2 e) _ k4); try done; intros E; simpl in E; congruence).
  injection Hi as <- <- _. exists base1. split.
  { apply (keeps_connecting base1 p1 (with_kernel k2 e) _ k4); try done; [|by right].
    intros _. destruct Hpend as [Hp3 Hw3].
    { apply (event_set_streams (A := A)). destruct (px_socket _ _ _ Hp1 RESPONSE_LINE) as [[E _]|[_ Ho]]; [|exact Ho].
      simpl in E. unfold connection.fd in E1. lia. }
    unfold awaits, poller.pending in *. simpl in *. destruct (He4 (event.event_ (server_event_ p))) as [-> ->].
    done. }
  apply (proxy_quiet _ _ _ RESPONSE_LINE k4 (connection.set_state connection.CONNECTING c)) in Hp2; [exact Hp2|..].
  - constructor; simpl; auto; [apply streams_refl|].
    unfold connection.ready_to_write, connection.open_for_write. rewrite Hst. simpl. by rewrite andb_false_r.
  - right. destruct (px_socket _ _ _ Hp2 RESPONSE_LINE) as [[E _]|Ho]; [|exact Ho].
    simpl in E. unfold connection.fd in E1. lia.
  - destruct (px_watched _ _ _ Hp1) as [Wc Ws Wa]. by constructor.
Qed.

Lemma confined_stream p (e : env K A) s q h :
  handler_of s p = Some q -> confined p e p (with_stream q h e).
Proof.
  intros Hq. constructor; try done; auto. intros q' Hq'. apply lookup_insert_ne. intros <-. by destruct (Hq' s).
Qed.

Lemma attempt_ok base this s p e p' e' st :
  proxy_ok base p e -> attempt_jit_server_connect host_rules_ this s p e = Ok (p', e', st) ->
  proxy_kept base p e p' e'.
Proof.
  intros Hp Ha. unfold attempt_jit_server_connect in Ha.
  destruct s; [|injection Ha as <- <- _; by apply kept_refl].
  destruct (bool_decide _) eqn:Enc; [|injection Ha as <- <- _; by apply kept_refl].
  apply bool_decide_eq_true in Enc.
  apply bind_ok_inv in Ha as ([q h] & Hs & Ha). apply bind_ok_inv in Ha as ([x h'] & Hx & Ha).
  pose proof (proxy_address _ _ _ _ _ _ _ _ Hp Hs Hx) as Hp1.
  assert (handler_of REQUEST_LINE p = Some q) as Hq.
  { unfold stream_of in Hs. apply bind_ok_inv in Hs as (q0 & Hq & Hs). apply bind_ok_inv in Hs as (h0 & _ & [= -> ->]).
    destruct (handler_of REQUEST_LINE p); [by injection Hq as ->|done]. }
  eapply proxy_kept_trans. exists base. split; [apply keeps_same; [by eapply confined_stream|done]|].
  destruct x; try done; try (injection Ha as <- <- _; by apply kept_refl);
    try (apply bind_ok_inv in Ha as (a & _ & Ha)); by eapply initiate_ok.
Qed.

(** ** The end of a connection *)

(** A stream handler of a pool: as it was made, or as it was left. *)
Inductive pooled (s : line) (h : stream_handler A) : Prop :=
  | pooled_made ty n e i b c c' :
      sizes_ok (zs s) n -> cache_ok (zs s) c ->
      http_proxy_stream_handler.make ty (zs s).(n_line1) (zs s).(n_line2) (zs s).(n_line3) n e i b c = Ok (h, c') ->
      pooled s h
  | pooled_used base fs o w b : reach s base fs o h w b -> pooled s h.

(** What can be said when the connection is over: each socket was sent what
    the stream handler of its line put out. *)
Definition line_told (s : line) (base : list Z) (q : Z) (p : proxy_handler.t A) (e : env K A) : Prop :=
  exists h fs st w b, e.(env_streams) !! q = Some h /\ reach s base fs (Some st) h w b /\
    sent_to_dest w = sent e.(env_kernel) (connection.fd_ (dest_of s p)).

Record told (base : bases) (p : proxy_handler.t A) (e : env K A) (base' : bases) (p' : proxy_handler.t A)
    (e' : env K A) : Prop := {
  to_response : base' RESPONSE_LINE = base RESPONSE_LINE;
  to_request : connection.state_ p.(server_data_) <> connection.NOT_CONNECTED ->
    base' REQUEST_LINE = base REQUEST_LINE;
  to_early : early p.(server_data_) ->
    base' REQUEST_LINE = sent e'.(env_kernel) (connection.fd_ p'.(server_data_));
  to_confined : confined p e p' e';
  to_buffers s : wf (connection.buffer_ (src_of s p'));
  to_cache : cache_ok (zs REQUEST_LINE) e'.(env_cache);
  to_line s : exists q, handler_of s p = Some q /\ line_told s (base' s) q p' e'
}.

Lemma runs_told s b p e : line_runs s b p e -> exists q, handler_of s p = Some q /\ line_told s b q p e.
Proof.
  intros (q & h & fs & st & Hq & Hh & Hr). exists q. split; [done|].
  by exists h, fs, st, (world_of s p e), (connection.buffer_ (src_of s p)).
Qed.

Lemma kept_told base p e p' e' : proxy_kept base p e p' e' -> exists base', told base p e base' p' e'.
Proof.
  intros (base' & [R Q N E W C] & Hp). exists base'. constructor; try done.
  - intros He. symmetry. apply (px_unsent _ _ _ Hp). auto.
  - intros s. destruct (line_inv _ _ _ _ (px_line _ _ _ Hp s)) as (q & h & fs & st' & _ & _ & _ & Hi). apply Hi.
  - by apply (proxy_cache base' p').
  - intros s. rewrite <- (cn_handlers _ _ _ _ C). apply runs_told, Hp.
Qed.

Lemma keeps_told base p e base1 p1 e1 p2 e2 :
  keeps base p e base1 p1 e1 -> (exists base2, told base1 p1 e1 base2 p2 e2) ->
  exists base2, told base p e base2 p2 e2.
Proof.
  intros [R Q N E W C] (base2 & [R2 Q2 E2 C2 B2 K2 L2]). exists base2. constructor; try congruence; auto.
  - intros Hne. rewrite Q2, Q; auto.
  - by eapply confined_trans.
  - intros s. rewrite <- (cn_handlers _ _ _ _ C). apply L2.
Qed.

(** A connection that is over has the flag of its source changed. *)
Lemma told_flag base p e base' p' e' p2 :
  told base p e base' p' e' -> (forall s, connection.fd_ (src_of s p2) = connection.fd_ (src_of s p')) ->
  (forall s, connection.buffer_ (src_of s p2) = connection.buffer_ (src_of s p')) ->
  (forall s, handler_of s p2 = handler_of s p') -> same_addresses p' p2 -> told base p e base' p2 e'.
Proof.
  intros [R Q E C B K' L] Hfd Hb Hh Ha. pose proof (Hfd REQUEST_LINE : _ (client_data_ _) = _) as Hc.
  pose proof (Hfd RESPONSE_LINE : _ (server_data_ _) = _) as Hv. constructor; try done.
  - by rewrite Hv.
  - eapply confined_trans; [exact C|]. by apply confined_flag.
  - intros s. by rewrite Hb.
  - intros s. destruct (L s) as (q & Hq & h & fs & st & w & b & Hs & Hr & Hw). exists q. split; [done|].
    exists h, fs, st, w, b. split; [done|]. split; [done|]. by rewrite Hw, <- !src_other, Hfd.
Qed.

(** ** The transfer in one direction *)

(** [COMPLETE] on the response line ends the connection. *)
Definition stream_post (s : line) (base : bases) (p : proxy_handler.t A) (e : env K A)
    (st : socketlib.STATUS) (p' : proxy_handler.t A) (e' : env K A) : Prop :=
  (s = RESPONSE_LINE /\ st = socketlib.COMPLETE \/ proxy_kept base p e p' e') /\
  exists base', told base p e base' p' e'.

Lemma kept_post s base p e st p' e' : proxy_kept base p e p' e' -> stream_post s base p e st p' e'.
Proof. intros Hk. split; [by right|by apply kept_told]. Qed.

Lemma stream_status_ok base p0 e0 st s p e o p' e' :
  proxy_kept base p0 e0 p e -> stream_status st s p e = (o, p', e') ->
  match o with Some st' => stream_post s base p0 e0 st' p' e' | None => proxy_kept base p0 e0 p' e' end.
Proof.
  intros Hk Hs. unfold stream_status in Hs. destruct st; try (injection Hs as <- <- <-; by try apply kept_post).
  - destruct (negb _); [destruct (_ || _)|]; injection Hs as <- <- <-; by try apply kept_post.
  - injection Hs as <- <- <-. destruct s.
    + apply kept_post. eapply proxy_kept_trans. destruct Hk as (base' & Hk & Hp). exists base'. split; [done|].
      destruct (set_state_fields connection.READ_SHUT (client_data_ p)) as (Efd & _).
      exists base'. split.
      { constructor; try done. by apply confined_flag; [|done|intros []|]. }
      apply (proxy_flag _ _ _ REQUEST_LINE (connection.set_state connection.READ_SHUT (client_data_ p))) in Hp;
        [done|..].
      * apply (quiet_read_shut _ _ _ (connection.buffer_ (client_data_ p))); [apply streams_refl|done|by left].
      * right. rewrite Efd. split; [apply Hp|by eapply client_open].
      * by apply watched_same with p; [apply Hp|..].
    + split; [by left|]. destruct (kept_told _ _ _ _ _ Hk) as [base' Ht]. exists base'.
      destruct (set_state_fields connection.READ_SHUT (server_data_ p)) as (E & Eb & _).
      apply (told_flag _ _ _ _ _ _ _ Ht); (done || by intros []).
Qed.

Lemma stream_turn_ok base this s p e o p' e' :
  proxy_ok base p e ->
  stream_turn host_rules_ request_postprocessor_ localtime this s p e = Ok (o, p', e') ->
  match o with Some st' => stream_post s base p e st' p' e' | None => proxy_kept base p e p' e' end.
Proof.
  intros Hp Ht. unfold stream_turn in Ht. apply bind_ok_inv in Ht as ([p1 e1] & Hr & Ht).
  apply bind_ok_inv in Ht as ([[p2 e2] st] & Hc & Ht). apply bind_ok_inv in Ht as ([[p3 e3] cst] & Ha & Ht).
  assert (proxy_kept base p e p3 e3) as Hk.
  { eapply proxy_kept_trans. destruct (read_source_ok _ _ _ _ _ _ Hp Hr) as (b1 & K1 & Hp1). exists b1. split; [done|].
    eapply proxy_kept_trans. destruct (process_source_ok _ _ _ _ _ _ _ Hp1 Hc) as (b2 & K2 & Hp2). exists b2.
    split; [done|]. by eapply attempt_ok. }
  destruct cst; try (injection Ht as <- <- <-; by apply kept_post).
  injection Ht as Ht. by eapply stream_status_ok.
Qed.

Lemma stream_loop_ok base this s fuel : forall p e p' e' st,
  proxy_ok base p e ->
  stream_loop host_rules_ request_postprocessor_ localtime fuel this s p e = Ok (p', e', st) ->
  stream_post s base p e st p' e'.
Proof.
  revert base. induction fuel as [|fuel IH]; intros base p e p' e' st Hp Hl; [done|]. cbn [stream_loop] in Hl.
  apply bind_ok_inv in Hl as ([[o p1] e1] & Ht & Hl). apply (stream_turn_ok base) in Ht; [|done].
  destruct o as [st1|]; [by injection Hl as <- <- <-|]. destruct Ht as (base1 & Hk & Hp1).
  destruct (IH _ _ _ _ _ _ Hp1 Hl) as [Hend Htold]. split; [|by eapply keeps_told].
  destruct Hend as [Hend|Hend]; [by left|right]. eapply proxy_kept_trans. eauto.
Qed.

(** ** Events *)

Lemma handle_stream_ok base this s fuel p e p' e' st :
  proxy_ok base p e ->
  handle_stream host_rules_ request_postprocessor_ localtime fuel this s p e = Ok (p', e', st) ->
  stream_post s base p e st p' e'.
Proof. apply stream_loop_ok. Qed.

Definition transfer_post (base : bases) (p : proxy_handler.t A) (e : env K A) (x : Z + unit) (p' : proxy_handler.t A)
    (e' : env K A) : Prop :=
  (exists base', told base p e base' p' e') /\ (x = inr tt -> proxy_kept base p e p' e').

Lemma post_ends s base p e st p' e' n : stream_post s base p e st p' e' -> transfer_post base p e (inl n) p' e'.
Proof. by intros [_ Ht]. Qed.

Lemma post_goes_on s base p e st p' e' x :
  stream_post s base p e st p' e' -> s = REQUEST_LINE \/ st <> socketlib.COMPLETE -> transfer_post base p e x p' e'.
Proof. intros [[[-> ->]|Hk] Ht] Hne; [by destruct Hne|]. split; [done|]. by intros _. Qed.

Lemma transfer_trans base p e base1 p1 e1 x p' e' :
  keeps base p e base1 p1 e1 -> transfer_post base1 p1 e1 x p' e' -> transfer_post base p e x p' e'.
Proof.
  intros Hk [Ht Hx]. split; [by eapply keeps_told|]. intros E. eapply proxy_kept_trans. eauto.
Qed.

Lemma second_response_ok base this fuel p e p' e' x :
  proxy_ok base p e ->
  ('(p, e, status) ← handle_stream host_rules_ request_postprocessor_ localtime fuel this RESPONSE_LINE p e;
   match status with
   | socketlib.COMPLETE => Ok (p, e, inl 0)
   | socketlib.DENY => Ok (p, e, inl (-1))
   | _ => Ok (p, e, inr tt)
   end) = Ok (p', e', x) -> transfer_post base p e x p' e'.
Proof.
  intros Hp Ht. apply bind_ok_inv in Ht as ([[p1 e1] st] & Hr & Ht). apply (handle_stream_ok base) in Hr; [|done].
  destruct st; injection Ht as <- <- <-; try (by eapply post_ends); (eapply post_goes_on; [exact Hr|by right]).
Qed.

Lemma transfer_ok base this fuel p e p' e' x :
  proxy_ok base p e ->
  transfer host_rules_ request_postprocessor_ localtime fuel this p e = Ok (p', e', x) ->
  transfer_post base p e x p' e'.
Proof.
  intros Hp Ht. unfold transfer in Ht. apply bind_ok_inv in Ht as ([[p1 e1] st] & Hr & Ht).
  apply (handle_stream_ok base) in Hr; [|done].
  assert (st = socketlib.COMPLETE \/ st = socketlib.DENY \/ proxy_kept base p e p1 e1 /\
    ('(p, e, status) ← handle_stream host_rules_ request_postprocessor_ localtime fuel this REQUEST_LINE p1 e1;
      match status with
      | socketlib.DENY =>
          let e := shutdown_request p e in
          '(p, e, status) ← handle_stream host_rules_ request_postprocessor_ localtime fuel this RESPONSE_LINE p e;
          match status with
          | socketlib.COMPLETE => Ok (p, e, inl 0)
          | socketlib.DENY => Ok (p, e, inl (-1))
          | _ => Ok (p, e, inr tt)
          end
      | _ => Ok (p, e, inr tt)
      end) = Ok (p', e', x)) as Hst.
  { destruct Hr as [[[_ ->]|Hk] _]; [by left|]. destruct st; auto. }
  destruct Hst as [->|[->|[(base1 & Hk1 & Hp1) Hst]]].
  - injection Ht as <- <- <-. by eapply post_ends.
  - injection Ht as <- <- <-. by eapply post_ends.
  - clear Ht. apply bind_ok_inv in Hst as ([[p2 e2] st2] & Hq & Hst). apply (handle_stream_ok base1) in Hq; [|done].
    eapply transfer_trans; [exact Hk1|].
    destruct st2; try (injection Hst as <- <- <-; eapply post_goes_on; [exact Hq|by left]).
    destruct Hq as [[[? _]|(base2 & Hk2 & Hp2)] _]; [done|]. eapply transfer_trans; [exact Hk2|].
    pose proof (shutdown_streams (A := A) e2.(env_kernel) (connection.fd p2.(client_data_))) as Hs.
    pose proof (shutdown_events (A := A) e2.(env_kernel) (connection.fd p2.(client_data_))) as Hev.
    assert (keeps base2 p2 e2 base2 p2 (shutdown_request p2 e2)) as Hk3.
    { apply keeps_same; [apply confined_same; try done; by apply other_events_same|]. intros Hcw.
      eapply (connecting_same p2 e2 p2); try done. }
    eapply transfer_trans; [exact Hk3|].
    eapply second_response_ok; [|exact Hst]. by apply proxy_same.
Qed.

(** Steps after which the sockets are the same. *)
Record same_sockets (p : proxy_handler.t A) (e : env K A) (p' : proxy_handler.t A) (e' : env K A) : Prop := {
  sm_confined : confined p e p' e';
  sm_state : connection.state_ p'.(server_data_) = connection.NOT_CONNECTED <->
    connection.state_ p.(server_data_) = connection.NOT_CONNECTED
}.

Lemma same_sockets_trans p1 e1 p2 e2 p3 e3 :
  same_sockets p1 e1 p2 e2 -> same_sockets p2 e2 p3 e3 -> same_sockets p1 e1 p3 e3.
Proof. intros [C1 N1] [C2 N2]. split; [by eapply confined_trans|]. by rewrite N2. Qed.

Lemma same_sockets_refl p e : same_sockets p e p e.
Proof. split; [apply confined_refl|done]. Qed.

(** The server's socket is waited for as before. *)
Definition same_server (p p' : proxy_handler.t A) : Prop :=
  connection.state_ p'.(server_data_) = connection.state_ p.(server_data_) /\
  connection.fd_ p'.(server_data_) = connection.fd_ p.(server_data_) /\ p'.(server_event_) = p.(server_event_).

(** The events set flags, *)
Lemma flag_ok base p e s c' :
  proxy_ok base p e -> quiet e.(env_kernel) (src_of s p) e.(env_kernel) c' ->
  connection.state_ c' = connection.state_ (src_of s p) ->
  proxy_ok base (with_src s c' p) e /\ same_sockets p e (with_src s c' p) e /\ same_server p (with_src s c' p).
Proof.
  intros Hp Hq Hst. pose proof (qu_fd _ _ _ _ Hq) as Hfd. split; [|split].
  - apply proxy_flag; [done|done|..].
    + apply (socket_same _ _ _ _ (px_socket _ _ _ Hp s)); [done|done|]. by rewrite Hst.
    + apply watched_src; [apply Hp|done|]. by rewrite Hst.
  - split; [apply confined_flag; by destruct s|]. destruct s; [done|]. simpl in *. by rewrite Hst.
  - by destruct s.
Qed.

Lemma handle_pollin_ok base fd p e p' :
  proxy_ok base p e -> handle_pollin fd p = Ok p' ->
  proxy_ok base p' e /\ same_sockets p e p' e /\ same_server p p'.
Proof.
  intros Hp Hh. unfold handle_pollin in Hh. destruct (_ =? _); [|destruct (_ =? _)]; [..|done]; injection Hh as <-.
  - exact (flag_ok _ _ _ REQUEST_LINE _ Hp (quiet_pollin _ _) eq_refl).
  - exact (flag_ok _ _ _ RESPONSE_LINE _ Hp (quiet_pollin _ _) eq_refl).
Qed.

Lemma handle_pollout_ok base fd p e p' :
  proxy_ok base p e -> handle_pollout fd p = Ok p' ->
  proxy_ok base p' e /\ same_sockets p e p' e /\ same_server p p'.
Proof.
  intros Hp Hh. unfold handle_pollout in Hh. destruct (_ =? _); [|destruct (_ =? _)]; [..|done]; injection Hh as <-.
  - exact (flag_ok _ _ _ REQUEST_LINE _ Hp (quiet_pollout _ _) eq_refl).
  - exact (flag_ok _ _ _ RESPONSE_LINE _ Hp (quiet_pollout _ _) eq_refl).
Qed.

(** and the server's socket may turn out to be connected.  After that a
    connection that was begun is waited for, when its event was not the one
    that came. *)
Lemma check_connect_ok base fd p e p' e' st :
  proxy_ok base p e -> check_for_server_connect fd p e = (p', e', st) ->
  proxy_ok base p' e' /\ same_sockets p e p' e' /\
  (st = socketlib.COMPLETE \/ st = socketlib.INCOMPLETE ->
   fd = connection.fd_ p.(server_data_) \/ connecting_waits p e -> connecting_waits p' e').
Proof.
  intros Hp Hc. unfold check_for_server_connect in Hc. unfold connection.fd in Hc.
  destruct (_ && _) eqn:Ec.
  2: { injection Hc as <- <- _. split; [done|]. split; [apply same_sockets_refl|]. intros _ [->|Hw]; [|done].
    intros E. rewrite Z.eqb_refl in Ec. by apply bool_decide_eq_false in Ec. }
  apply andb_true_iff in Ec as [_ Ec%bool_decide_eq_true]. unfold handle_server_connect in Hc.
  pose proof (so_error_streams e.(env_kernel) (connection.fd (server_data_ p))) as Hs.
  pose proof (so_error_events e.(env_kernel) (connection.fd (server_data_ p))) as He.
  destruct (sys_getsockopt_error _ _) as [k x]. cbn [fst] in Hs, He. unfold connection.state in Ec.
  destruct (bool_decide _); injection Hc as <- <- <-.
  - split; [|split; [|done]].
    + apply (proxy_quiet _ _ _ RESPONSE_LINE _ _ Hp (quiet_connected _ _ _ Hs Ec)).
      * apply (socket_same _ _ _ _ (px_socket _ _ _ Hp RESPONSE_LINE)); [done|intros _; apply Hs|]. simpl. by rewrite Ec.
      * apply watched_src; [apply Hp|done|]. simpl. by rewrite Ec.
    + split; [|by rewrite Ec]. apply confined_same; try done; by apply other_events_same.
  - split; [by apply proxy_same|]. split; [|by intros [?|?]]. split; [|done].
    apply confined_same; try done. by apply other_events_same.
Qed.

Lemma add_event_streams (b : bool) (k : K) ev m k' :
  (if b then poller.add_event A k ev m 0 else Ok k) = Ok k' -> same_streams sent open_fd k k'.
Proof.
  destruct b; [|intros [= <-]; apply streams_refl]. intros Ha.
  exact (to_streams _ _ _ (proj1 (yields_ok _ _ _ _ (add_event_yields _ _ _ _) Ha))).
Qed.

(** An event that is wanted is pending. *)
Lemma add_wanted (k : K) ev m k' fd :
  (if negb (m =? 0) then poller.add_event A k ev m 0 else Ok k) = Ok k' ->
  touches (A := A) ev.(event.event_) k k' /\
  (m <> 0 -> open_fd k fd -> event.fd_ ev = fd -> awaits k' ev fd m).
Proof.
  destruct (Z.eqb_spec m 0) as [->|Hne]; [intros [= <-]; split; [apply touches_refl|done]|]. intros Ha.
  destruct (yields_ok _ _ _ _ (add_event_yields _ _ _ _) Ha) as [Ht Hw]. split; [done|].
  intros _ Ho E. rewrite E in Hw. by apply Hw.
Qed.

(** What a connection waits for: in each direction in which a socket is open
    it is ready, or its event is pending. *)
Record waits (p : proxy_handler.t A) (k : K) : Prop := {
  wt_client : wanted p.(client_data_) <> 0 ->
    awaits k p.(client_event_) (connection.fd_ p.(client_data_)) (wanted p.(client_data_));
  wt_server : wanted p.(server_data_) <> 0 ->
    awaits k p.(server_event_) (connection.fd_ p.(server_data_)) (wanted p.(server_data_));
  wt_connecting : connection.state_ p.(server_data_) = connection.CONNECTING ->
    awaits k p.(server_event_) (connection.fd_ p.(server_data_)) (Z.lor EV_READ EV_WRITE)
}.

Lemma awaits_touched a (k k' : K) ev fd m :
  touches (A := A) a k k' -> event.event_ ev <> a -> awaits k ev fd m -> awaits k' ev fd m.
Proof. intros [_ Hp Hw] Hne [P W]. unfold awaits, poller.pending. by rewrite Hp, Hw. Qed.

Lemma wanted_made c : wanted c <> 0 -> connection.state_ c <> connection.NOT_CONNECTED /\ connection.state_ c <> connection.CONNECTING.
Proof.
  unfold wanted, connection.open_for_read, connection.open_for_write. intros Hw.
  split; intros E; apply Hw; rewrite E, !andb_false_r; reflexivity.
Qed.

Lemma wait_ok base p e e' :
  proxy_ok base p e -> wait p e = Ok e' ->
  proxy_ok base p e' /\ confined p e p e' /\ (connecting_waits p e -> waits p e'.(env_kernel)).
Proof.
  intros Hp Hw. unfold wait in Hw. apply bind_ok_inv in Hw as (? & _ & Hw).
  apply bind_ok_inv in Hw as (k1 & Hk1 & Hw). apply bind_ok_inv in Hw as (k2 & Hk2 & [= <-]).
  destruct (add_wanted _ _ _ _ (connection.fd_ (client_data_ p)) Hk1) as [T1 W1].
  destruct (add_wanted _ _ _ _ (connection.fd_ (server_data_ p)) Hk2) as [T2 W2].
  pose proof (streams_trans _ _ _ (to_streams _ _ _ T1) (to_streams _ _ _ T2)) as Hs.
  split; [by apply proxy_same|]. split.
  { apply confined_same; try done. apply (other_events_trans p p _ k1); [done|..];
      [by apply other_events_client|by apply other_events_server]. }
  destruct (px_watched _ _ _ Hp) as [Wc Ws Wa]. intros Hconn. constructor; simpl.
  - intros Hne. eapply awaits_touched; [exact T2|exact Wa|]. apply W1; [done|by eapply client_open|done].
  - intros Hne. destruct (wanted_made _ Hne) as [Hnc _]. apply W2; [done| |by apply Ws].
    apply (to_streams _ _ _ T1). apply (socket_made _ _ (px_socket _ _ _ Hp RESPONSE_LINE) Hnc).
  - intros E. destruct (Z.eqb_spec (wanted (server_data_ p)) 0) as [E0|Hne]; [|by destruct (wanted_made _ Hne)].
    injection Hk2 as <-. eapply awaits_touched; [exact T1|by apply not_eq_sym|]. by apply Hconn.
Qed.

(** ** The shutdown *)

Lemma close_socket_ok (k : K) ev c k' :
  close_socket (A := A) k ev c = Ok k' ->
  (forall fd, sent k' fd = sent k fd) /\
  (forall fd, fd <> -1 -> fd <> connection.fd_ c -> open_fd k fd -> open_fd k' fd).
Proof.
  unfold close_socket. destruct (negb _) eqn:En; [|by intros [= <-]]. intros Hc.
  apply bind_ok_inv in Hc as (k1 & Hd & [= <-]).
  pose proof (yields_ok _ _ _ _ (del_event_yields k ev) Hd) as [Ht _]. destruct (to_streams _ _ _ Ht) as [Hs Ho].
  split; [intros fd; by rewrite close_sent|]. intros fd _ Hfd Hopen. apply close_open; auto.
Qed.

Lemma close_socket_events (k : K) ev c k' :
  close_socket (A := A) k ev c = Ok k' -> forall a, a <> event.event_ ev ->
  event_pending (A := A) k' a = event_pending (A := A) k a /\
  event_watches (A := A) k' a = event_watches (A := A) k a.
Proof.
  unfold close_socket. destruct (negb _); [|by intros [= <-]]. intros Hc a Ha.
  apply bind_ok_inv in Hc as (k1 & Hd & [= <-]).
  pose proof (yields_ok _ _ _ _ (del_event_yields k ev) Hd) as [[_ Hp Hw] _].
  destruct (close_events (A := A) k1 (connection.fd c) a) as [-> ->]. auto.
Qed.

(** A connection that is over: its sockets are closed, and the stream
    handlers and the handler are given back to the pools. *)
Record closed (this : Z) (p : proxy_handler.t A) (e : env K A) (p' : proxy_handler.t A) (e' : env K A) : Prop := {
  cl_sent fd : fd = -1 \/ open_fd e.(env_kernel) fd /\ fd <> connection.fd_ p.(client_data_) /\
      fd <> connection.fd_ p.(server_data_) ->
    sent e'.(env_kernel) fd = sent e.(env_kernel) fd;
  cl_open fd : fd <> -1 -> fd <> connection.fd_ p.(client_data_) -> fd <> connection.fd_ p.(server_data_) ->
    open_fd e.(env_kernel) fd -> open_fd e'.(env_kernel) fd;
  cl_streams q : (forall s, handler_of s p <> Some q) -> e'.(env_streams) !! q = e.(env_streams) !! q;
  cl_addresses : same_addresses p p';
  cl_events : other_events p e.(env_kernel) e'.(env_kernel);
  cl_request : release (handler_of REQUEST_LINE p) e.(request_stream_handlers) = Ok e'.(request_stream_handlers);
  cl_response : release (handler_of RESPONSE_LINE p) e.(response_stream_handlers) = Ok e'.(response_stream_handlers);
  cl_proxy : pessimistic_memory_manager.release_element this e.(proxy_handlers) = Ok e'.(proxy_handlers);
  cl_handlers s : handler_of s p' = None;
  cl_buffers s : wf (connection.buffer_ (src_of s p'));
  cl_cache : cache_ok (zs REQUEST_LINE) e'.(env_cache)
}.

Lemma shutdown_ok base p e base' p1 e1 this p2 e2 :
  told base p e base' p1 e1 -> shutdown this p1 e1 = Ok (p2, e2) ->
  closed this p e p2 e2 /\ (forall s, exists q, handler_of s p = Some q /\ line_told s (base' s) q p2 e2) /\
  sent e2.(env_kernel) (connection.fd_ p2.(server_data_)) = sent e1.(env_kernel) (connection.fd_ p1.(server_data_)).
Proof.
  intros [R Q E [C V Hh Ha He Hs Ho Ht Cq Cr Cp] B Hc L] Hsd. unfold shutdown in Hsd.
  apply bind_ok_inv in Hsd as (k1 & Hk1 & Hsd). apply bind_ok_inv in Hsd as (k2 & Hk2 & Hsd).
  apply bind_ok_inv in Hsd as (px & Hpx & Hsd). apply bind_ok_inv in Hsd as (rq & Hrq & Hsd).
  apply bind_ok_inv in Hsd as (rs & Hrs & [= <- <-]).
  destruct (close_socket_ok _ _ _ _ Hk1) as [S1 O1], (close_socket_ok _ _ _ _ Hk2) as [S2 O2].
  pose proof (close_socket_events _ _ _ _ Hk1) as E1. pose proof (close_socket_events _ _ _ _ Hk2) as E2.
  assert (forall fd, sent k2 fd = sent e1.(env_kernel) fd) as Hsent by (intros fd; by rewrite S2, S1).
  pose proof (Hh REQUEST_LINE) as Eq. pose proof (Hh RESPONSE_LINE) as Er.
  split.
  - constructor; simpl in *.
    + intros fd Hfd. rewrite Hsent. by apply Hs.
    + intros fd Hne H1' H2' Hopen. apply O2; [done|..].
      * destruct V as [->|[V|V]]; [done|congruence|]. intros ->. done.
      * apply O1; [done|by rewrite C|by apply Ho].
    + exact Ht.
    + exact Ha.
    + apply (other_events_trans p p1 _ _ _ Ha He), (other_events_trans p1 p1 _ k1); [done|intros a H1' _|intros a _ H2'];
        auto.
    + by rewrite <- Eq, <- Cq.
    + by rewrite <- Er, <- Cr.
    + destruct (L REQUEST_LINE) as (q & Hq & _). simpl in Hq. rewrite Eq, Hq, <- Cp in *. done.
    + by intros [].
    + intros s. exact (B s).
    + exact Hc.
  - split; [|apply Hsent].
    intros s. destruct (L s) as (q & Hq & h & fs & st & w & b & Hstr & Hr & Hw). exists q. split; [done|].
    exists h, fs, st, w, b. split; [done|]. split; [done|]. rewrite Hw. symmetry. by destruct s; apply Hsent.
Qed.

(** Before the server's socket is made the base is what the new socket was
    sent; after that it stays. *)
Definition next_base (base : bases) (p p' : proxy_handler.t A) (e' : env K A) : bases := fun s =>
  match s with
  | RESPONSE_LINE => base RESPONSE_LINE
  | REQUEST_LINE =>
      if bool_decide (connection.state_ p.(server_data_) = connection.NOT_CONNECTED)
      then sent e'.(env_kernel) (connection.fd_ p'.(server_data_)) else base REQUEST_LINE
  end.

Lemma told_base base p e base' p' e' s : told base p e base' p' e' -> base' s = next_base base p p' e' s.
Proof.
  intros [R Q E]. destruct s; simpl; [|done]. case_bool_decide as Hc; [apply E; by left|by apply Q].
Qed.

Lemma told_next base p e base' p' e' : told base p e base' p' e' -> told base p e (next_base base p p' e') p' e'.
Proof.
  intros Ht. assert (forall s, base' s = next_base base p p' e' s) as Hb by (intros s; by eapply told_base).
  destruct Ht as [R Q E C B K' L]. constructor; try done; rewrite <- ?Hb; try done. intros s. by rewrite <- Hb.
Qed.

Lemma kept_base base p e p' e' : proxy_kept base p e p' e' -> proxy_ok (next_base base p p' e') p' e'.
Proof.
  intros (base' & [R Q N E _ _] & Hp).
  assert (forall s, base' s = next_base base p p' e' s) as Hb.
  { intros []; simpl; [|done]. case_bool_decide as Hc; [|by apply Q]. symmetry.
    apply (px_unsent _ _ _ Hp), E. by left. }
  destruct Hp. constructor; try done; [intros s; by rewrite <- Hb|]. by rewrite <- Hb.
Qed.

(** What an event leaves: [None] when the connection goes on. *)
Definition event_post (this : Z) (base : bases) (p : proxy_handler.t A) (e : env K A) (ret : option Z)
    (p' : proxy_handler.t A) (e' : env K A) : Prop :=
  (forall s, exists q, handler_of s p = Some q /\ line_told s (next_base base p p' e' s) q p' e') /\
  match ret with
  | None => confined p e p' e' /\ proxy_ok (next_base base p p' e') p' e' /\
      (connecting_waits p e -> waits p' e'.(env_kernel))
  | Some _ => closed this p e p' e'
  end.

Lemma told_event base p e base' p' e' n this p2 e2 :
  told base p e base' p' e' -> shutdown this p' e' = Ok (p2, e2) -> event_post this base p e (Some n) p2 e2.
Proof.
  intros Ht Hs. destruct (shutdown_ok _ _ _ _ _ _ _ _ _ Ht Hs) as (Hc & Hl & Hsent). split; [|done].
  intros s. destruct (Hl s) as (q & Hq & Hline). exists q. split; [done|].
  assert (base' s = next_base base p p2 e2 s) as <-; [|done].
  rewrite (told_base _ _ _ _ _ _ s Ht). destruct s; [|done]. simpl. by rewrite Hsent.
Qed.

Lemma kept_event this base p e p' e' :
  proxy_kept base p e p' e' -> (connecting_waits p e -> waits p' e'.(env_kernel)) ->
  event_post this base p e None p' e'.
Proof.
  intros Hk Hw. destruct (kept_told _ _ _ _ _ Hk) as [base' Ht]. split; [apply (told_next _ _ _ _ _ _ Ht)|].
  split; [apply Ht|]. split; [by eapply kept_base|done].
Qed.

Lemma closed_before this p e p1 e1 p' e' : confined p e p1 e1 -> closed this p1 e1 p' e' -> closed this p e p' e'.
Proof.
  intros [C V Hh Ha He Hs Ho Ht Cq Cr Cp] [S O T A' E' Rq Rs Rp Hn B K']. constructor; try done.
  - intros fd Hfd. rewrite S; [by apply Hs|]. destruct (decide (fd = -1)) as [->|Hne]; [by left|right].
    destruct Hfd as [?|(Hop & H1' & H2')]; [done|]. rewrite C. split; [auto|]. split; [done|].
    destruct V as [->|[V|V]]; [done|congruence|]. by intros ->.
  - intros fd Hne H1' H2' Hop. apply O; [done|by rewrite C| |by apply Ho].
    destruct V as [->|[V|V]]; [done|congruence|]. by intros ->.
  - intros q Hq. rewrite T; [by apply Ht|]. intros s. by rewrite Hh.
  - destruct Ha, A'. split; congruence.
  - by eapply other_events_trans.
  - by rewrite <- Hh, <- Cq.
  - by rewrite <- Hh, <- Cr.
  - by rewrite <- Cp.
Qed.

(** The state before the transfer has the same sockets. *)
Lemma event_post_before this base p e p1 e1 ret p' e' (P : Prop) :
  same_sockets p e p1 e1 -> (P -> connecting_waits p1 e1) -> event_post this base p1 e1 ret p' e' ->
  (forall s, exists q, handler_of s p = Some q /\ line_told s (next_base base p p' e' s) q p' e') /\
  match ret with
  | None => confined p e p' e' /\ proxy_ok (next_base base p p' e') p' e' /\ (P -> waits p' e'.(env_kernel))
  | Some _ => closed this p e p' e'
  end.
Proof.
  intros [Hc Hn] HP [Hl Hret].
  assert (forall s, next_base base p1 p' e' s = next_base base p p' e' s) as Hb.
  { intros []; simpl; [|done]. by rewrite (bool_decide_ext _ _ Hn). }
  split; [intros s; rewrite <- Hb, <- (cn_handlers _ _ _ _ Hc); apply Hl|].
  destruct ret; [by eapply closed_before|]. destruct Hret as (Hc2 & [] & Hw).
  split; [by eapply confined_trans|]. split; [|auto].
  constructor; try done; [intros s; by rewrite <- Hb|by rewrite <- Hb].
Qed.

Lemma handle_event_ok base this fuel fd revents p e p' e' ret :
  proxy_ok base p e ->
  handle_event host_rules_ request_postprocessor_ localtime fuel this fd revents p e = Ok (p', e', ret) ->
  (forall s, exists q, handler_of s p = Some q /\ line_told s (next_base base p p' e' s) q p' e') /\
  match ret with
  | None => confined p e p' e' /\ proxy_ok (next_base base p p' e') p' e' /\
      (fd = connection.fd_ p.(server_data_) \/ connecting_waits p e -> waits p' e'.(env_kernel))
  | Some _ => closed this p e p' e'
  end.
Proof.
  intros Hp Hh. unfold handle_event in Hh. apply bind_ok_inv in Hh as (p1 & Hw & Hh).
  assert (proxy_ok base p1 e /\ same_sockets p e p1 e /\ same_server p p1) as (Hp1 & Hs1 & Hv1).
  { destruct (negb (Z.land revents EV_WRITE =? 0)); [by eapply handle_pollout_ok|injection Hw as <-].
    split; [done|]. split; [apply same_sockets_refl|done]. }
  apply bind_ok_inv in Hh as (p2 & Hr & Hh).
  assert (proxy_ok base p2 e /\ same_sockets p1 e p2 e /\ same_server p1 p2) as (Hp2 & Hs2 & Hv2).
  { destruct (negb (Z.land revents EV_READ =? 0)); [by eapply handle_pollin_ok|injection Hr as <-].
    split; [done|]. split; [apply same_sockets_refl|done]. }
  destruct (check_for_server_connect fd p2 e) as [[p3 e3] st] eqn:Ec.
  destruct (check_connect_ok _ _ _ _ _ _ _ Hp2 Ec) as (Hp3 & Hs3 & Hcw).
  assert (same_server p p2) as Hv by (destruct Hv1 as (? & ? & ?), Hv2 as (? & ? & ?); repeat split; congruence).
  pose proof (same_sockets_trans _ _ _ _ _ _ (same_sockets_trans _ _ _ _ _ _ Hs1 Hs2) Hs3) as Hs.
  set (P := (st = socketlib.COMPLETE \/ st = socketlib.INCOMPLETE) /\
    (fd = connection.fd_ p.(server_data_) \/ connecting_waits p e)).
  assert (P -> connecting_waits p3 e3) as HP.
  { intros [Hst HP]. apply Hcw; [done|]. destruct Hv as (E1 & E2 & E3). destruct HP as [->|HP]; [by left|right].
    intros E. rewrite E1 in E. unfold awaits. rewrite E2, E3. by apply HP. }
  assert (forall n, ('(p, e) ← shutdown this p3 e3; Ok (p, e, Some n)) = Ok (p', e', ret) ->
    ret = Some n /\ event_post this base p3 e3 ret p' e') as Hend.
  { intros n Hsd. apply bind_ok_inv in Hsd as ([p4 e4] & Hsd & [= <- <- <-]). split; [done|].
    destruct (kept_told _ _ _ _ _ (kept_refl _ _ _ Hp3)) as [base' Ht]. by eapply told_event. }
  assert (('(p, e, x) ← transfer host_rules_ request_postprocessor_ localtime fuel this p3 e3;
      match x with
      | inl ret => '(p, e) ← shutdown this p e; Ok (p, e, Some ret)
      | inr _ => e ← wait p e; Ok (p, e, None)
      end) = Ok (p', e', ret) -> event_post this base p3 e3 ret p' e') as Hgo.
  { intros Ht. apply bind_ok_inv in Ht as ([[p4 e4] x] & Htr & Ht).
    destruct (transfer_ok _ _ _ _ _ _ _ _ Hp3 Htr) as [[base' Htold] Hx]. destruct x as [n|[]].
    - apply bind_ok_inv in Ht as ([p5 e5] & Hsd & [= <- <- <-]). by eapply told_event.
    - apply bind_ok_inv in Ht as (e5 & Hwt & [= <- <- <-]). destruct (Hx eq_refl) as (base2 & Hk2 & Hp4).
      destruct (wait_ok _ _ _ _ Hp4 Hwt) as (Hp5 & Hc5 & Hw5). apply kept_event.
      + eapply proxy_kept_trans. exists base2. split; [exact Hk2|]. exists base2. split; [|done]. 
        apply keeps_same; [done|]. intros Hcw4 E. by apply Hw5.
      + intros Hcw3. by apply Hw5, (ke_connecting _ _ _ _ _ _ Hk2). }
  assert (event_post this base p3 e3 ret p' e' /\ (ret = None -> st = socketlib.COMPLETE \/ st = socketlib.INCOMPLETE))
    as [Hpost' Hst] by (destruct st; auto; destruct (Hend _ Hh) as [-> ?]; done).
  destruct (event_post_before _ _ _ _ _ _ _ _ _ P Hs HP Hpost') as [Hl Hret]. split; [done|].
  destruct ret; [done|]. destruct Hret as (? & ? & Hwaits). split; [done|]. split; [done|].
  intros HPP. apply Hwaits. split; [by apply Hst|done].
Qed.

(** ** A new connection *)

Lemma pooled_reset s h w h' w' b :
  pooled s h -> dest_open w -> cache_ok (zs s) w.(header_cache_) ->
  http_proxy_stream_handler.reset h w = Ok (h', w') -> wf b -> just_read b ->
  reach s (sent_to_dest w') [] (Some socketlib.COMPLETE) h' w' b.
Proof.
  intros [ty n e i b0 c c' Hz Hc0 Hm|base fs o w0 b0 Hr0] Hd Hc Hr Hwf Hjust.
  - exact (reach_make _ _ _ _ _ _ _ _ _ _ _ _ _ _ _ _ Hz Hc0 Hm Hc Hd Hr Hwf Hjust).
  - exact (reach_reset _ _ _ _ _ _ _ _ _ _ _ _ _ _ Hr0 Hd Hc Hr Hwf Hjust).
Qed.

Lemma reset_moves (h : stream_handler A) (w : world K) h' w' :
  http_proxy_stream_handler.reset h w = Ok (h', w') -> moves w w'.
Proof.
  unfold http_proxy_stream_handler.reset. intros Hr. apply bind_ok_inv in Hr as (q & _ & Hr).
  apply initialize_moves in Hr. etransitivity; [|exact Hr]. apply io_moves, with_queue_io.
Qed.

(** A connection after [reset]. *)
Lemma reset_early c : early (connection.reset c).
Proof. by left. Qed.

(** The handler of a line is reset for connections that are not connected:
    it is ready for its first call, and the other line is left alone. *)
Lemma reset_stream_ok s p e p' e' q h :
  handler_of s p = Some q -> e.(env_streams) !! q = Some h -> pooled s h ->
  early (dest_of s p) -> wf (connection.buffer_ (src_of s p)) -> just_read (connection.buffer_ (src_of s p)) ->
  cache_ok (zs s) e.(env_cache) ->
  reset_stream s p e = Ok (p', e') ->
  line_runs s (sent e.(env_kernel) (connection.fd_ (dest_of s p))) p' e' /\
  same_streams sent open_fd e.(env_kernel) e'.(env_kernel) /\
  (forall x, src_of x p' = src_of x p /\ handler_of x p' = handler_of x p) /\
  (forall q', q' <> q -> e'.(env_streams) !! q' = e.(env_streams) !! q') /\
  cache_ok (zs s) e'.(env_cache) /\
  e'.(request_stream_handlers) = e.(request_stream_handlers) /\
  e'.(response_stream_handlers) = e.(response_stream_handlers) /\ e'.(proxy_handlers) = e.(proxy_handlers) /\
  p'.(client_event_) = p.(client_event_) /\ p'.(server_event_) = p.(server_event_) /\
  same_events (event_pending (A := A)) (event_watches (A := A)) e.(env_kernel) e'.(env_kernel).
Proof.
  intros Hq Hh Hpool He Hwf Hjust Hc Hr. unfold reset_stream, stream_of in Hr. rewrite Hq in Hr. cbn [of_option] in Hr.
  rewrite bind_ok, Hh in Hr. cbn [of_option] in Hr. rewrite !bind_ok in Hr.
  apply bind_ok_inv in Hr as ([h1 w1] & Hr1 & Hr). apply bind_ok_inv in Hr as ([p1 e1] & Hl & [= <- <-]).
  assert (dest_open (world_of s p e)) as Hd.
  { exists (dest_of s p). split; [done|]. intros Ho. unfold connection.open_for_write in Ho.
    destruct He as [E|E]; by rewrite E in Ho. }
  pose proof (pooled_reset _ _ _ _ _ _ Hpool Hd Hc Hr1 Hwf Hjust) as Hreach.
  destruct (reset_moves _ _ _ _ Hr1) as [Hsrc Hdest].
  change (p_src_data_ (world_of s p e)) with (Some (src_of s p)) in Hsrc.
  change (p_dest_data_ (world_of s p e)) with (Some (dest_of s p)) in Hdest.
  change (kernel_ (world_of s p e)) with e.(env_kernel) in Hdest.
  destruct (p_dest_data_ w1) as [c'|] eqn:Ed; [|done]. destruct (mo_idle _ _ _ _ Hdest (early_not_ready _ He)) as [-> Hi].
  destruct (reach_inv _ _ _ _ Hrules (Hpost s) _ _ _ _ _ _ Hreach) as (_ & Hw & _ & _).
  unfold leave_world in Hl. rewrite Hsrc, Ed in Hl. cbn [of_option] in Hl. rewrite !bind_ok in Hl.
  injection Hl as <- <-. set (p2 := with_pipeline _ _). set (e2 := with_stream _ _ _).
  assert (forall x, src_of x p2 = src_of x p /\ handler_of x p2 = handler_of x p) as Esrc
    by (intros x; by destruct s, x).
  assert (same_streams sent open_fd e.(env_kernel) (kernel_ w1)) as Hs.
  { constructor; [|apply Hdest]. intros fd. destruct (decide (fd = connection.fd_ (dest_of s p))) as [->|Hne];
      [done|by apply Hdest]. }
  pose proof (calls_events _ _ (mo_calls _ _ _ _ Hdest)) as Hev.
  assert (p2.(client_event_) = p.(client_event_) /\ p2.(server_event_) = p.(server_event_)) as [Ece Ese]
    by (by destruct s).
  split; [|split; [done|]; split; [done|]; split; [|split; [exact (we_cache _ _ _ Hw)|done]]].
  2: { intros q' Hne. by apply lookup_insert_ne. }
  exists q, h1, [], socketlib.COMPLETE. destruct (Esrc s) as [E1 ->]. split; [done|].
  split; [by apply lookup_insert_eq|]. rewrite E1. rewrite <- Hi.
  assert (dest_of s p2 = dest_of s p) as E2 by (rewrite <- !src_other; apply Esrc).
  replace (sent (kernel_ w1) (connection.fd_ (dest_of s p))) with (sent_to_dest w1)
    by (unfold sent_to_dest; by rewrite Ed).
  eapply reach_meanwhile; [exact Hreach|constructor|constructor; auto].
  - unfold sent_to_dest. rewrite Ed. simpl. by rewrite E2.
  - destruct (sk_dest _ (we_sink _ _ _ Hw)) as (c & Hc1 & Hu). simpl in Hc1. rewrite Ed in Hc1. injection Hc1 as <-.
    exists (dest_of s p). split; [by rewrite <- E2|exact Hu].
  - intros (c & Hc1 & Hrdy). rewrite Ed in Hc1. injection Hc1 as <-. by rewrite (early_not_ready _ He) in Hrdy.
  - exact (we_cache _ _ _ Hw).
Qed.

(** A proxy handler of the pool, and what a new connection needs: the stream
    handlers that are free are the pools' own. *)
Record idle (p : proxy_handler.t A) (e : env K A) : Prop := {
  id_buffers s : wf (connection.buffer_ (src_of s p));
  id_cache : cache_ok (zs REQUEST_LINE) e.(env_cache);
  id_requests : pool_bounded e.(request_stream_handlers);
  id_responses : pool_bounded e.(response_stream_handlers);
  id_request q : q ∈ free e.(request_stream_handlers) ->
    exists h, e.(env_streams) !! q = Some h /\ pooled REQUEST_LINE h;
  id_response q : q ∈ free e.(response_stream_handlers) ->
    exists h, e.(env_streams) !! q = Some h /\ pooled RESPONSE_LINE h;
  id_addresses : event.event_ p.(client_event_) <> event.event_ p.(server_event_);
  id_disjoint q : q ∈ free e.(request_stream_handlers) -> q ∉ free e.(response_stream_handlers)
}.

(** The connection's state after [reset]. *)
Record fresh (p : proxy_handler.t A) (e : env K A) : Prop := {
  fr_line s : line_runs s (sent e.(env_kernel) (-1)) p e;
  fr_handlers : handler_of REQUEST_LINE p <> handler_of RESPONSE_LINE p;
  fr_client : connection.fd_ p.(client_data_) = -1;
  fr_server : connection.fd_ p.(server_data_) = -1;
  fr_state : connection.state_ p.(server_data_) = connection.NOT_CONNECTED;
  fr_addresses : event.event_ p.(client_event_) <> event.event_ p.(server_event_)
}.

(** What [reset] takes and leaves alone. *)
Record begun (p : proxy_handler.t A) (e : env K A) (p' : proxy_handler.t A) (e' : env K A) : Prop := {
  bg_request : exists q, handler_of REQUEST_LINE p' = Some q /\
    pessimistic_memory_manager.allocate_element e.(request_stream_handlers) = Ok (Some q, e'.(request_stream_handlers));
  bg_response : exists q, handler_of RESPONSE_LINE p' = Some q /\
    pessimistic_memory_manager.allocate_element e.(response_stream_handlers) = Ok (Some q, e'.(response_stream_handlers));
  bg_proxies : e'.(proxy_handlers) = e.(proxy_handlers);
  bg_kernel : same_streams sent open_fd e.(env_kernel) e'.(env_kernel);
  bg_addresses : same_addresses p p';
  bg_events : same_events (event_pending (A := A)) (event_watches (A := A)) e.(env_kernel) e'.(env_kernel);
  bg_streams q : (forall s, handler_of s p' <> Some q) -> e'.(env_streams) !! q = e.(env_streams) !! q
}.

(** The other line is reset, and the queue emptied. *)
Lemma line_early s b p e p2 e2 :
  line_runs s b p e -> (forall x, src_of x p2 = src_of x p) -> handler_of s p2 = handler_of s p ->
  (forall q, handler_of s p = Some q -> e2.(env_streams) !! q = e.(env_streams) !! q) ->
  (forall fd, sent e2.(env_kernel) fd = sent e.(env_kernel) fd) -> early (dest_of s p) ->
  cache_ok (zs s) e2.(env_cache) -> line_runs s b p2 e2.
Proof.
  intros Hl Hsrc Hh Hstr Hsent He Hc. apply (line_meanwhile _ _ p e); rewrite <- ?(src_other s), ?Hsrc; auto.
  intros Ho. rewrite src_other in Ho. unfold connection.open_for_write in Ho. destruct He as [E|E]; by rewrite E in Ho.
Qed.

Lemma handler_allocated s (p : proxy_handler.t A) (e : env K A) x p' e' :
  reset_stream s p e = Ok (p', e') -> handler_of s p = x -> exists q, x = Some q.
Proof.
  unfold reset_stream, stream_of. intros Hr <-. destruct (handler_of s p); [by eexists|done].
Qed.

Lemma proxy_reset_ok p e p' e' :
  idle p e -> proxy_handler.reset p e = Ok (p', e') -> fresh p' e' /\ begun p e p' e'.
Proof.
  intros Hi Hr. unfold proxy_handler.reset in Hr. apply bind_ok_inv in Hr as ([o1 m1] & Ha1 & Hr).
  set (p0 := with_handlers o1 _ _) in Hr. set (e0 := with_pools m1 _ _ _) in Hr.
  apply bind_ok_inv in Hr as ([p1 e1] & Hr1 & Hr).
  destruct (handler_allocated _ _ _ _ _ _ Hr1 eq_refl) as [q1 Eq1]. simpl in Eq1. subst o1.
  assert (q1 ∈ free e.(request_stream_handlers)) as Hq1
    by (rewrite (proj1 (allocate_bounded _ _ _ (id_requests _ _ Hi) Ha1)); apply list_elem_of_here).
  destruct (id_request _ _ Hi _ Hq1) as (h1 & Hh1 & Hpool1).
  destruct (reset_stream_ok REQUEST_LINE p0 e0 p1 e1 q1 h1) as (Hl1 & Hs1 & Hsrc1 & Hstr1 & Hc1 & Erq & Epool & Epx & Ece1 & Ese1 & Hev1); try done.
  { by left. }
  { apply reset_wf, (id_buffers _ _ Hi REQUEST_LINE). }
  { apply reset_just_read. }
  { exact (id_cache _ _ Hi). }
  apply bind_ok_inv in Hr as ([o2 m2] & Ha2 & Hr).
  set (p2 := with_handlers _ o2 p1) in Hr. set (e2 := with_pools _ m2 _ e1) in Hr.
  apply bind_ok_inv in Hr as ([p3 e3] & Hr2 & Hr). apply bind_ok_inv in Hr as (qq & _ & [= <- <-]).
  destruct (handler_allocated _ _ _ _ _ _ Hr2 eq_refl) as [q2 Eq2]. simpl in Eq2. subst o2.
  rewrite Epool in Ha2. change (response_stream_handlers e0) with (response_stream_handlers e) in Ha2.
  assert (q2 ∈ free e.(response_stream_handlers)) as Hq2
    by (rewrite (proj1 (allocate_bounded _ _ _ (id_responses _ _ Hi) Ha2)); apply list_elem_of_here).
  destruct (id_response _ _ Hi _ Hq2) as (h2 & Hh2 & Hpool2).
  assert (q2 <> q1) as Hne by (intros ->; by apply (id_disjoint _ _ Hi _ Hq1)).
  assert (forall x, src_of x p2 = src_of x p0) as Esrc2
    by (intros []; [exact (proj1 (Hsrc1 REQUEST_LINE))|exact (proj1 (Hsrc1 RESPONSE_LINE))]).
  destruct (reset_stream_ok RESPONSE_LINE p2 e2 p3 e3 q2 h2) as (Hl2 & Hs2 & Hsrc2 & Hstr2 & Hc2 & Erq2 & Ers2 & Epx2 & Ece2 & Ese2 & Hev2); try done.
  { change (env_streams e2) with (env_streams e1). by rewrite Hstr1. }
  { change (dest_of RESPONSE_LINE p2) with (src_of REQUEST_LINE p2). rewrite Esrc2. by left. }
  { rewrite Esrc2. apply reset_wf, (id_buffers _ _ Hi RESPONSE_LINE). }
  { rewrite Esrc2. apply reset_just_read. }
  { eapply cache_agrees, Hc1. }
  set (p4 := with_pipeline qq p3).
  assert (forall x, src_of x p4 = src_of x p0) as Esrc4.
  { intros x. rewrite <- Esrc2. destruct x; [exact (proj1 (Hsrc2 REQUEST_LINE))|exact (proj1 (Hsrc2 RESPONSE_LINE))]. }
  assert (handler_of REQUEST_LINE p4 = Some q1) as Eq4.
  { etransitivity; [exact (proj2 (Hsrc2 REQUEST_LINE))|]. exact (proj2 (Hsrc1 REQUEST_LINE)). }
  assert (handler_of RESPONSE_LINE p4 = Some q2) as Eq5 by exact (proj2 (Hsrc2 RESPONSE_LINE)).
  pose proof (streams_trans _ _ _ Hs1 Hs2) as Hs12. pose proof Hs12 as [Hsent _].
  assert (forall x, early (src_of x p0)) as Hearly by (intros []; by left).
  pose proof (Esrc4 REQUEST_LINE : client_data_ p4 = client_data_ p0) as Ecl.
  pose proof (Esrc4 RESPONSE_LINE : server_data_ p4 = server_data_ p0) as Esv.
  assert (same_addresses p p4) as Hadr.
  { split; [change (client_event_ p4) with (client_event_ p3); by rewrite Ece2; change (client_event_ p2) with (client_event_ p1);
      rewrite Ece1|change (server_event_ p4) with (server_event_ p3); by rewrite Ese2; change (server_event_ p2) with (server_event_ p1);
      rewrite Ese1]. }
  split.
  2: { constructor; try done.
    - exists q1. split; [done|]. rewrite Erq2. change (request_stream_handlers e2) with (request_stream_handlers e1).
      by rewrite Erq.
    - exists q2. split; [done|]. by rewrite Ers2.
    - rewrite Epx2. exact Epx.
    - intros a. destruct (Hev2 a) as [-> ->]. apply Hev1.
    - intros q Hq. rewrite Hstr2; [apply Hstr1|]; intros ->; [by apply (Hq REQUEST_LINE)|by apply (Hq RESPONSE_LINE)]. }
  constructor; [|..|by rewrite Ecl|by rewrite Esv|by rewrite Esv|].
  - intros []; rewrite Hsent.
    + apply (line_early _ _ p1 e1); auto; try done.
      * intros x. by rewrite Esrc4, (proj1 (Hsrc1 x)).
      * by rewrite Eq4, (proj2 (Hsrc1 REQUEST_LINE)).
      * intros q. rewrite (proj2 (Hsrc1 REQUEST_LINE)). intros [= <-]. by apply Hstr2.
      * apply Hs2.
      * rewrite <- src_other, (proj1 (Hsrc1 _)). apply Hearly.
      * eapply cache_agrees, Hc2.
    + apply (line_early _ _ p3 e3); auto; try done.
      * change (env_kernel e2) with (env_kernel e1) in Hl2. rewrite (ss_sent _ _ _ _ Hs1) in Hl2.
        change (dest_of RESPONSE_LINE p2) with (src_of REQUEST_LINE p2) in Hl2. by rewrite Esrc2 in Hl2.
      * rewrite <- src_other. change (src_of (other RESPONSE_LINE) p3) with (src_of REQUEST_LINE p4).
        rewrite Esrc4. apply Hearly.
  - rewrite Eq4, Eq5. congruence.
  - destruct Hadr as [-> ->]. exact (id_addresses _ _ Hi).
Qed.

(** The client's socket is a new destination for the response line. *)
Definition start_base (p : proxy_handler.t A) (e : env K A) : bases := fun s =>
  sent e.(env_kernel) (connection.fd_ (dest_of s p)).

Record joined (client_socket : Z) (p : proxy_handler.t A) (e : env K A) (p' : proxy_handler.t A) (e' : env K A)
    : Prop := {
  jo_client : connection.fd_ p'.(client_data_) = client_socket;
  jo_server : p'.(server_data_) = p.(server_data_);
  jo_handlers s : handler_of s p' = handler_of s p;
  jo_addresses : same_addresses p p';
  jo_waits : waits p' e'.(env_kernel);
  jo_env : exists k, e' = with_kernel k e /\ touches (A := A) (event.event_ p.(client_event_)) e.(env_kernel) k
}.

Lemma add_client_ok this client_socket p e p' e' st :
  fresh p e -> client_socket <> -1 -> open_fd e.(env_kernel) client_socket ->
  add_client this client_socket p e = Ok (p', e', st) ->
  proxy_ok (start_base p' e') p' e' /\ joined client_socket p e p' e'.
Proof.
  intros [Hl Hh Hc Hs Hst Hadr] Hne Hopen Ha. unfold add_client in Ha. apply bind_ok_inv in Ha as (? & _ & Ha).
  unfold connection.set_fd in Ha. replace (negb (client_socket =? -1)) with true in Ha by lia.
  set (c := connection.Connection _ _ _ _ _ _) in Ha. unfold event.set in Ha.
  apply bind_ok_inv in Ha as (k & Hadd & [= <- <- _]). change (connection.Connection _ _ _ _ _ _) with c.
  set (ev := event.Event _ _ _) in *.
  destruct (yields_ok _ _ _ _ (add_event_yields _ _ _ _) Hadd) as [Ht Hpend].
  pose proof (touches_trans _ _ _ _ (touches_cork (event.event_ ev) (connection.fd_ c) 1 (env_kernel e))
    (touches_trans _ _ _ _ (touches_set (A := A) _ _ _ _) Ht)) as Hk. pose proof (to_streams _ _ _ Hk) as [Hsent Hop].
  assert (awaits k ev client_socket (Z.lor EV_READ EV_WRITE)) as Haw.
  { apply Hpend. apply (ss_open _ _ _ _ (event_set_streams (A := A) _ _ _ _)),
      (ss_open _ _ _ _ (cork_streams (env_kernel e) (connection.fd_ c) 1)), Hopen. }
  set (c1 := connection.set_state connection.CONNECTED c).
  set (p1 := with_client_event ev (with_client c1 p)).
  split.
  2: { constructor; [done|done|by intros []|done| |by exists k].
    assert (wanted (server_data_ p) = 0) as Hw0.
    { destruct (Z.eq_dec (wanted (server_data_ p)) 0) as [|Hw]; [done|]. by destruct (wanted_made _ Hw). }
    constructor; simpl; [done|by rewrite Hw0|by rewrite Hst]. }
  assert (forall s, cache_ok (zs s) e.(env_cache)) as Hcache.
  { intros s. destruct (line_inv _ _ _ _ (Hl s)) as (? & ? & ? & ? & _ & _ & _ & _ & Hw & _). exact (we_cache _ _ _ Hw). }
  assert (open_fd k client_socket) as Hopen' by by apply Hop.
  constructor.
  - intros [].
    + unfold start_base. cbn [dest_of server_data_ p1 with_client_event with_client env_kernel with_kernel].
      rewrite Hsent, Hs. apply (line_meanwhile _ _ p e); auto; simpl.
      intros Ho. unfold connection.open_for_write in Ho. by rewrite Hst in Ho.
    + destruct (Hl RESPONSE_LINE) as (q & h & fs & st' & Hq & Hstr & Hr). exists q, h, fs, st'.
      split; [done|]. split; [done|].
      apply (reach_connect _ _ _ _ _ _ _ _ (world_of RESPONSE_LINE p e) _ (world_of RESPONSE_LINE p1 (with_kernel k e)) Hr).
      * change (sent (env_kernel e) (connection.fd_ (client_data_ p)) = sent (env_kernel e) (-1)). by rewrite Hc.
      * exists c1. split; [done|]. intros _. exact Hopen'.
      * apply Hcache.
  - exact Hh.
  - exact Hne.
  - intros []; [by right|by left].
  - change (client_socket <> connection.fd_ (server_data_ p)). by rewrite Hs.
  - constructor; [done| |done]. simpl. by rewrite Hst.
  - done.
Qed.

(** ** Over the life of a connection *)

(** Other connections run, on other sockets and with other stream handlers. *)
Record elsewhere (p : proxy_handler.t A) (e e' : env K A) : Prop := {
  el_sent s : sent e'.(env_kernel) (connection.fd_ (dest_of s p)) = sent e.(env_kernel) (connection.fd_ (dest_of s p));
  el_open s : connection.fd_ (dest_of s p) <> -1 ->
    open_fd e.(env_kernel) (connection.fd_ (dest_of s p)) -> open_fd e'.(env_kernel) (connection.fd_ (dest_of s p));
  el_streams s q : handler_of s p = Some q -> e'.(env_streams) !! q = e.(env_streams) !! q;
  el_cache : cache_ok (zs REQUEST_LINE) e'.(env_cache)
}.

(** A handler of the pool is given a client, then events come, in any order
    and with any answers of the kernel, until the handler shuts down. *)
Inductive proxied (this : Z) : bases -> bool -> proxy_handler.t A -> env K A -> Prop :=
  | proxied_client client_socket p e p1 e1 p' e' st :
      idle p e -> proxy_handler.reset p e = Ok (p1, e1) ->
      client_socket <> -1 -> open_fd e1.(env_kernel) client_socket ->
      add_client this client_socket p1 e1 = Ok (p', e', st) ->
      proxied this (start_base p' e') true p' e'
  | proxied_event base p e fuel fd revents p' e' ret :
      proxied this base true p e ->
      handle_event host_rules_ request_postprocessor_ localtime fuel this fd revents p e = Ok (p', e', ret) ->
      proxied this (next_base base p p' e') (bool_decide (ret = None)) p' e'
  | proxied_elsewhere base p e e' :
      proxied this base true p e -> elsewhere p e e' -> proxied this base true p e'.

Lemma elsewhere_ok base p e e' : proxy_ok base p e -> elsewhere p e e' -> proxy_ok base p e'.
Proof.
  intros Hp []. pose proof Hp as [].
  assert (forall s, socket_ok e'.(env_kernel) (src_of s p)) as Hs.
  { intros s. apply (socket_same _ _ _ _ (px_socket0 s)); [done| |done].
    rewrite <- dest_other. apply el_open0. }
  constructor; try done.
  - intros s. apply (line_meanwhile _ _ p e); auto; [by apply el_streams0|..].
    + rewrite <- src_other. apply socket_usable, Hs.
    + eapply cache_agrees, el_cache0.
  - intros He. etransitivity; [exact (el_sent0 REQUEST_LINE)|auto].
Qed.

Lemma proxied_ok this base live p e :
  proxied this base live p e ->
  (forall s, exists q, line_told s (base s) q p e /\ (live = true -> handler_of s p = Some q)) /\
  (live = true -> proxy_ok base p e).
Proof.
  assert (forall base p e, proxy_ok base p e ->
    forall s, exists q, line_told s (base s) q p e /\ (true = true -> handler_of s p = Some q)) as Htold.
  { intros base0 p0 e0 Hp s. destruct (runs_told _ _ _ _ (px_line _ _ _ Hp s)) as (q & Hq & Hl). by exists q. }
  induction 1 as [cs p e p1 e1 p' e' st Hi Hr Hne Ho Ha|base p e fuel fd revents p' e' ret _ [_ IH] Hh
    |base p e e' _ [_ IH] He].
  - destruct (add_client_ok _ _ _ _ _ _ _ (proj1 (proxy_reset_ok _ _ _ _ Hi Hr)) Hne Ho Ha) as [Hp _]. auto.
  - pose proof (handle_event_ok _ _ _ _ _ _ _ _ _ _ (IH eq_refl) Hh) as [Hl Hret]. destruct ret as [n|].
    + rewrite bool_decide_eq_false_2 by done. split; [|done]. intros s. destruct (Hl s) as (q & _ & Hq). by exists q.
    + rewrite bool_decide_eq_true_2 by done. destruct Hret as (_ & Hp & _). auto.
  - pose proof (elsewhere_ok _ _ _ _ (IH eq_refl) He) as Hp. auto.
Qed.

End proxy.

(** ** The property *)


(** ** At a concrete input *)

(** A client on socket 4 posts to a server on socket 5, which answers; the
    pools have one element each. *)
Definition sample_response : list Z :=
  str "HTTP/1.0 200 OK" ++ [CR; LF] ++ str "Content-Length: 2" ++ [CR; LF; CR; LF] ++ str "hi".

Definition sample_kernel : host :=
  let talks l := Script (replicate 20 (inl 100%nat)) [inl l] [] in
  Host {[4 := talks sample_post; 5 := talks sample_response]} [5] [] [] [] ∅ {[4]}.

Definition one_element (q : Z) : pessimistic_memory_manager.t Z :=
  pessimistic_memory_manager.make 1 (fun _ => q).

Definition sample_env : res (proxy_handler.t Z * env host Z) :=
  '(hq, c) ← http_proxy_stream_handler.make (A := Z) REQUEST 16 16 16 4 http.NONE 0 header_writer.FIELD_NAME sample_pool;
  '(hr, c) ← http_proxy_stream_handler.make (A := Z) RESPONSE 16 16 16 4 http.NONE 0 header_writer.FIELD_NAME c;
  let '(p, heap) := proxy_handler.make 1000 1001 128 (7, 80) ∅ in
  '(_, proxies) ← pessimistic_memory_manager.allocate_element (one_element 300);
  Ok (p, Env host Z sample_kernel heap c access_log.make [] (<[200 := hr]> {[100 := hq]})
        (one_element 100) (one_element 200) proxies).

(** A state on the way, with the bases. *)
Abbreviation sample_point := ((line -> list Z) * proxy_handler.t Z * env host Z)%type.

Definition sample_opened : res sample_point :=
  '(p, e) ← sample_env;
  '(p, e) ← proxy_handler.reset p e;
  if bool_decide (4 ∈ e.(env_kernel).(opened)) then
    '(p, e, _) ← add_client 300 4 p e;
    Ok (start_base p e, p, e)
  else Undef.

(** An event after which the connection goes on. *)
Definition sample_event (fd revents : Z) (x : sample_point) : res sample_point :=
  let '(base, p, e) := x in
  '(p', e', ret) ← handle_event sample_rules None (fun _ => sample_date) 10 300 fd revents p e;
  if bool_decide (ret = None) then Ok (next_base base p p' e', p', e') else Undef.

(** The client is readable, the server's socket is connected, then it is
    readable. *)
Definition sample_proxied : res sample_point :=
  x ← sample_opened;
  x ← sample_event 4 (Z.lor EV_READ EV_WRITE) x;
  x ← sample_event 5 EV_WRITE x;
  sample_event 5 EV_READ x.

Lemma one_element_free q x : x ∈ free (one_element q) -> x = q.
Proof. unfold free. by intros Hx%list_elem_of_singleton. Qed.

Lemma sample_idle p e : sample_env = Ok (p, e) -> idle sample_rules None (fun _ => sample_date) (fun _ => sample_sizes) p e.
Proof.
  unfold sample_env. intros He. apply bind_ok_inv in He as ([hq c1] & Hq & He).
  apply bind_ok_inv in He as ([hr c2] & Hr & He).
  destruct (proxy_handler.make 1000 1001 128 (7, 80) ∅) as [p1 heap] eqn:Ep.
  apply bind_ok_inv in He as ([x proxies] & _ & [= <- <-]).
  assert (sizes_ok sample_sizes 4) as Hn by (repeat split; discriminate || reflexivity).
  pose proof (proj1 (make_well (K := host) sample_sizes _ _ _ _ _ _ _ _ Hn sample_pool_ok Hq)) as Hc1.
  pose proof (proj1 (make_well (K := host) sample_sizes _ _ _ _ _ _ _ _ Hn Hc1 Hr)) as Hc2.
  assert (forall q, pool_bounded (one_element q)) as Hpool
    by (intros q; by apply make_bounded).
  constructor; try done; simpl.
  - intros s. assert (connection.buffer_ (src_of s p1) = rwb.make 128) as ->
      by (destruct s; vm_compute in Ep; injection Ep as <- _; reflexivity). by apply make_wf.
  - exact (Hpool 100).
  - exact (Hpool 200).
  - intros q ->%one_element_free. exists hq. split; [done|].
    eapply pooled_made; [exact Hn|exact sample_pool_ok|exact Hq].
  - intros q ->%one_element_free. exists hr. split; [done|].
    eapply pooled_made; [exact Hn|exact Hc1|exact Hr].
  - vm_compute in Ep. by injection Ep as <- _.
  - intros q ->%one_element_free E%one_element_free. discriminate E.
Qed.

Abbreviation sample_reached x :=
  (proxied sample_rules None (fun _ => sample_date) (fun _ => sample_sizes) 300 x.1.1 true x.1.2 x.2).

Lemma sample_opened_ok x : sample_opened = Ok x -> sample_reached x.
Proof.
  unfold sample_opened. intros Hx. apply bind_ok_inv in Hx as ([p e] & He & Hx).
  apply bind_ok_inv in Hx as ([p1 e1] & Hr & Hx). case_bool_decide as Ho; [|done].
  apply bind_ok_inv in Hx as ([[p2 e2] st] & Ha & [= <-]).
  eapply (proxied_client _ _ _ _ _ 4); [exact (sample_idle _ _ He)|exact Hr|discriminate|exact Ho|exact Ha].
Qed.

Lemma sample_event_ok fd revents x x' :
  sample_reached x -> sample_event fd revents x = Ok x' -> sample_reached x'.
Proof.
  destruct x as [[base p] e]. intros Hp Hx. unfold sample_event in Hx.
  apply bind_ok_inv in Hx as ([[p1 e1] ret] & Hh & Hx). case_bool_decide as Hret; [|done].
  injection Hx as <-. pose proof (proxied_event _ _ _ _ _ _ _ _ _ _ _ _ _ _ Hp Hh) as Hn.
  by rewrite (bool_decide_eq_true_2 _ Hret) in Hn.
Qed.

Lemma sample_proxied_ok x : sample_proxied = Ok x -> sample_reached x.
Proof.
  unfold sample_proxied. intros Hx. apply bind_ok_inv in Hx as (x1 & H1 & Hx).
  apply bind_ok_inv in Hx as (x2 & H2 & Hx). apply bind_ok_inv in Hx as (x3 & H3 & H4).
  apply (sample_event_ok _ _ _ _ (sample_event_ok _ _ _ _ (sample_event_ok _ _ _ _ (sample_opened_ok _ H1) H2) H3) H4).
Qed.

(** What the two sockets were sent. *)
Definition sample_sent (s : line) : res (list Z * list Z) :=
  '(base, p, e) ← sample_proxied;
  Ok (base s, sent e.(env_kernel) (connection.fd_ (dest_of s p))).

