(* ===== verification/ServerSafety.v ===== *)
(** All connections of the server at once: each works on sockets and stream
    handlers of its own, so that what one of them is sent does not depend on
    the others.  The pools keep the stream handlers that are free apart from
    those in use. *)
From stdpp Require Import list gmap.
From S2P Require Import Prelude Status ReadWriteBuffer HttpLex Interfaces HeaderStore HeaderHandler.
From S2P Require Import HeaderParser HandlerSafety BodyParsers BodyRun BodyWindow Os Connection Net Poller.
From S2P Require Import HeaderWriter Printf MemoryManager Pipeline Url StreamHandler ProxyHandler NewConnection.
From S2P Require Import ProxyFrame StreamBody StreamFrame StreamMoves StreamSafety ProxySafety.

Import http_proxy_stream_handler proxy_handler new_connection_handler.

Section server.
Context {K A : Type} `{NetLaws K A}.
Variable host_rules_ : gmap (list Z) (host_rules.t A).
Variable pp : option (message_buffer.t -> res (bool * message_buffer.t)).
Variable localtime : nat -> log_record.tm.
Variable zs : line -> sizes.
Hypothesis Hname : (zs REQUEST_LINE).(n_name) = (zs RESPONSE_LINE).(n_name).
Hypothesis Hvalue : (zs REQUEST_LINE).(n_value) = (zs RESPONSE_LINE).(n_value).
Hypothesis Hrules : rules_ok host_rules_.
Hypothesis Hpost : forall s, postprocessor_ok (zs s) pp.

Abbreviation proxy_ok := (proxy_ok host_rules_ pp localtime zs).
Abbreviation pooled := (pooled host_rules_ pp localtime zs).
Abbreviation cached e := (cache_ok (zs REQUEST_LINE) (env_cache e)).

(** A handler that is not in use. *)
Definition resting (p : proxy_handler.t A) : Prop :=
  (forall s, handler_of s p = None) /\ (forall s, wf (connection.buffer_ (src_of s p))) /\
  event.event_ p.(client_event_) <> event.event_ p.(server_event_).

(** The pools, and what the stream handlers in them are. *)
Record pools_ok (e : env K A) : Prop := {
  po_requests : pool_bounded e.(request_stream_handlers);
  po_responses : pool_bounded e.(response_stream_handlers);
  po_proxies : pool_bounded e.(proxy_handlers);
  po_distinct : NoDup (free e.(request_stream_handlers) ++ free e.(response_stream_handlers));
  po_distinct_proxies : NoDup (free e.(proxy_handlers));
  po_request q : q ∈ free e.(request_stream_handlers) ->
    exists h, e.(env_streams) !! q = Some h /\ pooled REQUEST_LINE h;
  po_response q : q ∈ free e.(response_stream_handlers) ->
    exists h, e.(env_streams) !! q = Some h /\ pooled RESPONSE_LINE h;
  po_cache : cached e
}.

(** Two connections have no socket and no stream handler in common. *)
Record apart (p1 p2 : proxy_handler.t A) : Prop := {
  ap_fds s1 s2 : connection.fd_ (src_of s1 p1) = connection.fd_ (src_of s2 p2) -> connection.fd_ (src_of s2 p2) = -1;
  ap_handlers s1 s2 q : handler_of s1 p1 = Some q -> handler_of s2 p2 <> Some q
}.

(** The handlers of a connection are not free. *)
Definition taken (p : proxy_handler.t A) (e : env K A) : Prop :=
  forall s q, handler_of s p = Some q ->
    q ∉ free e.(request_stream_handlers) ++ free e.(response_stream_handlers).

(** Each handler is not in use, or a connection of its own. *)
Record server_ok (bs : Z -> line -> list Z) (s : server K A) : Prop := {
  so_pools : pools_ok s.(server_env);
  so_proxy this p : s.(server_proxies) !! this = Some p ->
    resting p \/ proxy_ok (bs this) p s.(server_env) /\ taken p s.(server_env);
  so_free this : this ∈ free s.(server_env).(proxy_handlers) ->
    exists p, s.(server_proxies) !! this = Some p /\ resting p;
  so_apart this1 p1 this2 p2 : this1 <> this2 ->
    s.(server_proxies) !! this1 = Some p1 -> s.(server_proxies) !! this2 = Some p2 ->
    resting p1 \/ resting p2 \/ apart p1 p2
}.

Lemma apart_sym p1 p2 : apart p1 p2 -> apart p2 p1.
Proof.
  intros [Hf Hh]. constructor.
  - intros s1 s2 E. rewrite <- E. by apply (Hf s2).
  - intros s1 s2 q Hq Hq2. by apply (Hh s2 s1 q).
Qed.

Lemma proxy_handler_of base p e s : proxy_ok base p e -> exists q, handler_of s p = Some q.
Proof. intros Hp. destruct (px_line _ _ _ _ _ _ _ Hp s) as (q & h & fs & st & Hq & _). by exists q. Qed.

Lemma resting_not base p e : resting p -> proxy_ok base p e -> False.
Proof.
  intros [Hr _] Hp. destruct (proxy_handler_of _ _ _ REQUEST_LINE Hp) as [q Hq]. by rewrite Hr in Hq.
Qed.

(** ** The others *)

(** What a step of a connection does to the sockets and to the stream
    handlers of another. *)
Lemma others_ok base p e p2 e' :
  proxy_ok base p2 e -> apart p p2 ->
  (forall fd, fd = -1 \/ open_fd e.(env_kernel) fd /\ fd <> connection.fd_ p.(client_data_) /\
      fd <> connection.fd_ p.(server_data_) ->
    sent e'.(env_kernel) fd = sent e.(env_kernel) fd) ->
  (forall fd, fd <> -1 -> fd <> connection.fd_ p.(client_data_) -> fd <> connection.fd_ p.(server_data_) ->
    open_fd e.(env_kernel) fd -> open_fd e'.(env_kernel) fd) ->
  (forall q, (forall s, handler_of s p <> Some q) -> e'.(env_streams) !! q = e.(env_streams) !! q) ->
  cached e' -> proxy_ok base p2 e'.
Proof.
  intros Hp [Hf Hh] Hsent Hopen Hstr Hc.
  assert (forall s, connection.fd_ (src_of s p2) <> -1 -> connection.fd_ (src_of s p2) <> connection.fd_ p.(client_data_) /\
    connection.fd_ (src_of s p2) <> connection.fd_ p.(server_data_)) as Hfds.
  { intros s Hne. split; intros E; apply Hne; [by apply (Hf REQUEST_LINE)|by apply (Hf RESPONSE_LINE)]. }
  eapply elsewhere_ok; [done..|exact Hp|]. constructor; [| | |done].
  - intros s. rewrite <- src_other. apply Hsent.
    destruct (px_socket _ _ _ _ _ _ _ Hp (other s)) as [[E _]|[Hne Ho]]; [by left|right].
    split; [done|]. by apply Hfds.
  - intros s. rewrite <- src_other. intros Hne Ho. apply Hopen; [done|by apply Hfds..|done].
  - intros s q Hq. apply Hstr. intros s' Hq'. by apply (Hh s' s q).
Qed.

(** A step that a connection goes on after. *)
Lemma apart_confined p e p' e' p2 base :
  proxy_ok base p2 e -> confined p e p' e' -> apart p p2 -> apart p' p2.
Proof.
  intros Hp Hc [Hf Hh]. constructor.
  - intros s1 s2 E. destruct (px_socket _ _ _ _ _ _ _ Hp s2) as [[E2 _]|[Hne Ho]]; [done|].
    destruct s1; simpl in E.
    + rewrite (cn_client _ _ _ _ Hc) in E. by apply (Hf REQUEST_LINE).
    + destruct (cn_server _ _ _ _ Hc) as [E2|[E2|Hno]]; [rewrite E2 in E; by apply (Hf RESPONSE_LINE)|congruence|].
      by rewrite E in Hno.
  - intros s1 s2 q. rewrite (cn_handlers _ _ _ _ Hc). apply Hh.
Qed.

(** ** An event of a connection *)

Abbreviation handle_event := (proxy_handler.handle_event host_rules_ pp localtime).
Abbreviation next_base := (next_base (K := K) (A := A)).

Definition set_bases (this : Z) (b : line -> list Z) (bs : Z -> line -> list Z) : Z -> line -> list Z :=
  fun x => if decide (x = this) then b else bs x.

Lemma pools_same e e' :
  pools_ok e -> e'.(request_stream_handlers) = e.(request_stream_handlers) ->
  e'.(response_stream_handlers) = e.(response_stream_handlers) -> e'.(proxy_handlers) = e.(proxy_handlers) ->
  (forall q, q ∈ free e.(request_stream_handlers) ++ free e.(response_stream_handlers) ->
    e'.(env_streams) !! q = e.(env_streams) !! q) ->
  cached e' -> pools_ok e'.
Proof.
  intros [] Eq Er Ep Hs Hc. constructor; rewrite ?Eq, ?Er, ?Ep; try done.
  - intros q Hq. rewrite Hs by set_solver. auto.
  - intros q Hq. rewrite Hs by set_solver. auto.
Qed.

Lemma taken_same p e p' e' :
  taken p e -> (forall s, handler_of s p' = handler_of s p) ->
  e'.(request_stream_handlers) = e.(request_stream_handlers) ->
  e'.(response_stream_handlers) = e.(response_stream_handlers) -> taken p' e'.
Proof. intros Ht Hh Eq Er s q Hq. rewrite Eq, Er. apply (Ht s). by rewrite <- Hh. Qed.

(** The connection that the event is for, and another. *)
Lemma one_other bs s this p p' e' (b : line -> list Z) :
  server_ok bs s -> s.(server_proxies) !! this = Some p ->
  pools_ok e' -> resting p' \/ proxy_ok b p' e' /\ taken p' e' ->
  (forall x, x ∈ free e'.(proxy_handlers) ->
     x <> this /\ x ∈ free s.(server_env).(proxy_handlers) \/ x = this /\ resting p') ->
  (forall x p2, x <> this -> s.(server_proxies) !! x = Some p2 -> proxy_ok (bs x) p2 s.(server_env) ->
     taken p2 s.(server_env) -> resting p \/ apart p p2 ->
     proxy_ok (bs x) p2 e' /\ taken p2 e' /\ (resting p' \/ apart p' p2)) ->
  server_ok (set_bases this b bs) (Server K A e' (<[this := p']> s.(server_proxies))).
Proof.
  intros [Hpools Hproxy Hfree Hapart] Hp Hpools' Hp' Hfree' Hother.
  assert (forall x p2, x <> this -> s.(server_proxies) !! x = Some p2 ->
    resting p2 \/ (proxy_ok (bs x) p2 e' /\ taken p2 e') /\ (resting p' \/ apart p' p2)) as Hx.
  { intros x p2 Hne Hp2. destruct (Hproxy _ _ Hp2) as [Hr|[Hok Ht]]; [by left|].
    destruct (Hapart this p x p2 (not_eq_sym Hne) Hp Hp2) as [Hr|[Hr|Ha]]; [|by left|].
    - destruct (Hother _ _ Hne Hp2 Hok Ht (or_introl Hr)) as (Hok2 & Ht2 & Ha2). auto.
    - destruct (Hother _ _ Hne Hp2 Hok Ht (or_intror Ha)) as (Hok2 & Ht2 & Ha2). auto. }
  constructor; simpl.
  - done.
  - intros x p2 Hp2. unfold set_bases. destruct (decide (x = this)) as [->|Hne].
    + rewrite lookup_insert_eq in Hp2. by injection Hp2 as <-.
    + rewrite lookup_insert_ne in Hp2 by done. destruct (Hx _ _ Hne Hp2) as [Hr|[[Hok Ht] _]]; auto.
  - intros x Hf. destruct (Hfree' _ Hf) as [[Hne Hf2]|[-> Hr]].
    + rewrite lookup_insert_ne by done. auto.
    + exists p'. by rewrite lookup_insert_eq.
  - intros x1 p1 x2 p2 Hne Hp1 Hp2. destruct (decide (x1 = this)) as [->|Hne1], (decide (x2 = this)) as [->|Hne2].
    + done.
    + rewrite lookup_insert_eq in Hp1. injection Hp1 as <-. rewrite lookup_insert_ne in Hp2 by done.
      destruct (Hx _ _ Hne2 Hp2) as [Hr|[_ [Hr|Ha]]]; auto.
    + rewrite lookup_insert_eq in Hp2. injection Hp2 as <-. rewrite lookup_insert_ne in Hp1 by done.
      destruct (Hx _ _ Hne1 Hp1) as [Hr|[_ [Hr|Ha]]]; auto using apart_sym.
    + rewrite lookup_insert_ne in Hp1, Hp2 by done. by apply (Hapart x1 p1 x2 p2).
Qed.

Lemma event_goes_on bs s this p p' e' :
  server_ok bs s -> s.(server_proxies) !! this = Some p -> taken p s.(server_env) ->
  proxy_ok (bs this) p s.(server_env) ->
  confined p s.(server_env) p' e' -> proxy_ok (next_base (bs this) p p' e') p' e' ->
  server_ok (set_bases this (next_base (bs this) p p' e') bs) (Server K A e' (<[this := p']> s.(server_proxies))).
Proof.
  intros Hs Hp Ht Hok Hc Hok'. pose proof Hs as [Hpools Hproxy Hfree _].
  assert (cached e') as Hcache by by eapply proxy_cache.
  apply (one_other _ _ _ p); [done|done| | | |].
  - apply (pools_same s.(server_env)); try done; [by apply Hc..|]. intros q Hq. apply (cn_streams _ _ _ _ Hc).
    intros ln Hh. by apply (Ht ln q).
  - right. split; [done|]. apply (taken_same p s.(server_env)); try done; by apply Hc.
  - intros x. rewrite (cn_proxies _ _ _ _ Hc). intros Hx. left. split; [|done]. intros ->.
    destruct (Hfree _ Hx) as (p2 & Hp2 & Hr). rewrite Hp in Hp2. injection Hp2 as <-. by eapply resting_not.
  - intros x p2 Hne Hp2 Hok2 Ht2 [Hr|Ha]; [by destruct (resting_not _ _ _ Hr Hok)|].
    split; [|split].
    + apply (others_ok _ p s.(server_env)); try done; [by apply Hc|intros; by apply Hc|by apply Hc].
    + apply (taken_same p2 s.(server_env)); try done; by apply Hc.
    + right. by eapply apart_confined.
Qed.

(** Its stream handlers and itself go back to the pools. *)
Lemma pools_closed this p e p' e' base :
  pools_ok e -> taken p e -> handler_of REQUEST_LINE p <> handler_of RESPONSE_LINE p ->
  this ∉ free e.(proxy_handlers) -> closed zs this p e p' e' ->
  (forall ln, exists q, handler_of ln p = Some q /\ line_told host_rules_ pp localtime zs ln (base ln) q p' e') ->
  pools_ok e' /\ exists q1 q2, handler_of REQUEST_LINE p = Some q1 /\ handler_of RESPONSE_LINE p = Some q2 /\
    free e'.(request_stream_handlers) = q1 :: free e.(request_stream_handlers) /\
    free e'.(response_stream_handlers) = q2 :: free e.(response_stream_handlers) /\
    free e'.(proxy_handlers) = this :: free e.(proxy_handlers).
Proof.
  intros [Bq Br Bp Nd Ndp Pq Pr Pc] Ht Hne Hthis [Hs Ho Hstr _ _ Rq Rr Rp Hn Hb Hc] Htold.
  destruct (Htold REQUEST_LINE) as (q1 & Hq1 & h1 & fs1 & st1 & w1 & b1 & Hh1 & Hr1 & _).
  destruct (Htold RESPONSE_LINE) as (q2 & Hq2 & h2 & fs2 & st2 & w2 & b2 & Hh2 & Hr2 & _).
  rewrite Hq1 in Rq. rewrite Hq2 in Rr.
  destruct (release_bounded _ _ _ Bq Rq) as [Fq Bq'], (release_bounded _ _ _ Br Rr) as [Fr Br'].
  destruct (release_bounded _ _ _ Bp Rp) as [Fp Bp'].
  pose proof (Ht _ _ Hq1) as T1. pose proof (Ht _ _ Hq2) as T2.
  assert (q1 <> q2) as Hne' by congruence.
  assert (forall q, q ∈ free e.(request_stream_handlers) ++ free e.(response_stream_handlers) ->
    e'.(env_streams) !! q = e.(env_streams) !! q) as Hsame.
  { intros q Hq. apply Hstr. intros ln Hln. by apply (Ht _ _ Hln). }
  split; [|by exists q1, q2].
  constructor; rewrite ?Fq, ?Fr, ?Fp; try done.
  - rewrite <- app_comm_cons, <- Permutation_middle. rewrite NoDup_cons, NoDup_cons. set_solver.
  - by rewrite NoDup_cons.
  - intros q [->|Hq]%elem_of_cons; [exists h1; split; [done|by eapply pooled_used]|].
    rewrite Hsame by set_solver. auto.
  - intros q [->|Hq]%elem_of_cons; [exists h2; split; [done|by eapply pooled_used]|].
    rewrite Hsame by set_solver. auto.
Qed.

Lemma event_ends bs s this p p' e' base :
  server_ok bs s -> s.(server_proxies) !! this = Some p -> taken p s.(server_env) ->
  proxy_ok (bs this) p s.(server_env) -> closed zs this p s.(server_env) p' e' ->
  (forall ln, exists q, handler_of ln p = Some q /\ line_told host_rules_ pp localtime zs ln (base ln) q p' e') ->
  server_ok (set_bases this base bs) (Server K A e' (<[this := p']> s.(server_proxies))).
Proof.
  intros Hs Hp Ht Hok Hc Htold. pose proof Hs as [Hpools Hproxy Hfree _].
  assert (this ∉ free s.(server_env).(proxy_handlers)) as Hthis.
  { intros Hx. destruct (Hfree _ Hx) as (p2 & Hp2 & Hr). rewrite Hp in Hp2. injection Hp2 as <-. by eapply resting_not. }
  assert (resting p') as Hrest.
  { split; [apply Hc|]. split; [apply Hc|]. destruct (cl_addresses _ _ _ _ _ _ Hc) as [-> ->].
    exact (wa_addresses _ (px_watched _ _ _ _ _ _ _ Hok)). }
  destruct (pools_closed _ _ _ _ _ _ Hpools Ht (px_handlers _ _ _ _ _ _ _ Hok) Hthis Hc Htold)
    as (Hpools' & q1 & q2 & Hq1 & Hq2 & Fq & Fr & Fp).
  apply (one_other _ _ _ p); [done|done|done|by left| |].
  - intros x. rewrite Fp. intros [->|Hx]%elem_of_cons; [by right|left]. split; [|done]. by intros ->.
  - intros x p2 Hne Hp2 Hok2 Ht2 [Hr|Ha]; [by destruct (resting_not _ _ _ Hr Hok)|].
    split; [|split; [|by left]].
    + apply (others_ok _ p s.(server_env)); try done; by apply Hc.
    + intros ln q Hq. rewrite Fq, Fr. pose proof (Ht2 _ _ Hq). pose proof (ap_handlers _ _ Ha REQUEST_LINE ln _ Hq1).
      pose proof (ap_handlers _ _ Ha RESPONSE_LINE ln _ Hq2). assert (q <> q1 /\ q <> q2) by (split; congruence).
      set_solver.
Qed.

Lemma proxy_event_ok bs s this p fuel fd revents p' e' ret :
  server_ok bs s -> s.(server_proxies) !! this = Some p -> taken p s.(server_env) ->
  proxy_ok (bs this) p s.(server_env) -> handle_event fuel this fd revents p s.(server_env) = Ok (p', e', ret) ->
  server_ok (set_bases this (next_base (bs this) p p' e') bs) (Server K A e' (<[this := p']> s.(server_proxies))) /\
  forall ln, exists q, handler_of ln p = Some q /\
    line_told host_rules_ pp localtime zs ln (next_base (bs this) p p' e' ln) q p' e'.
Proof.
  intros Hs Hp Ht Hok Hh.
  pose proof (handle_event_ok _ _ _ _ Hname Hvalue Hrules Hpost _ _ _ _ _ _ _ _ _ _ Hok Hh) as [Htold Hret].
  split; [|done]. destruct ret as [n|]; [by eapply event_ends|]. destruct Hret as (? & ? & _). by apply (event_goes_on _ _ _ p).
Qed.

(** ** A new connection *)

Abbreviation start_base := (start_base (K := K) (A := A)).

Lemma proxy_base base base' p e : (forall ln, base' ln = base ln) -> proxy_ok base p e -> proxy_ok base' p e.
Proof. intros E []. constructor; try done; [intros ln; by rewrite E|by rewrite E]. Qed.

Lemma server_base bs bs' s : (forall this ln, bs' this ln = bs this ln) -> server_ok bs s -> server_ok bs' s.
Proof.
  intros E []. constructor; try done. intros this p Hp. destruct (so_proxy0 _ _ Hp) as [Hr|[Hok Ht]]; [by left|right].
  split; [|done]. eapply proxy_base; [|exact Hok]. auto.
Qed.

(** Steps that send nothing and leave the stream handlers of a connection
    alone. *)
Lemma others_same base p2 e e' :
  proxy_ok base p2 e -> same_streams sent open_fd e.(env_kernel) e'.(env_kernel) ->
  (forall s q, handler_of s p2 = Some q -> e'.(env_streams) !! q = e.(env_streams) !! q) -> cached e' ->
  proxy_ok base p2 e'.
Proof.
  intros Hp [Hs Ho] Hstr Hc. eapply elsewhere_ok; [done..|exact Hp|]. constructor; auto.
Qed.

Lemma server_same bs s k' :
  server_ok bs s -> same_streams sent open_fd s.(server_env).(env_kernel) k' ->
  server_ok bs (Server K A (with_kernel k' s.(server_env)) s.(server_proxies)).
Proof.
  intros [Hpools Hproxy Hfree Hapart] Hk. constructor; try done.
  - by apply (pools_same s.(server_env)); try done; apply Hpools.
  - intros this p Hp. destruct (Hproxy _ _ Hp) as [Hr|[Hok Ht]]; [by left|right]. split; [|done].
    apply (others_same _ _ s.(server_env)); try done. apply Hpools.
Qed.

(** What the beginning of a connection to the server leaves alone. *)
Lemma initiate_touches this a p (e : env K A) p' e' st :
  initiate_server_connect this a p e = Ok (p', e', st) ->
  touches (A := A) (event.event_ p.(server_event_)) e.(env_kernel) e'.(env_kernel) /\
  p'.(client_data_) = p.(client_data_) /\ p'.(client_event_) = p.(client_event_) /\
  (early p.(server_data_) -> early p'.(server_data_)).
Proof.
  intros Hi. unfold initiate_server_connect in Hi.
  pose proof (touches_socket (A := A) (event.event_ p.(server_event_)) e.(env_kernel)) as Hk1.
  destruct (sys_socket (A := A) (env_kernel e)) as [k1 fd] eqn:Es. cbn [fst] in Hk1.
  destruct (connection.set_fd k1 fd (server_data_ p)) as [k2 c] eqn:Ec.
  assert (touches (A := A) (event.event_ p.(server_event_)) k1 k2 /\
    connection.state_ c = connection.state_ (server_data_ p)) as [Hk2 Hst].
  { unfold connection.set_fd in Ec. destruct (negb _); injection Ec as <- <-; split; try done;
      first [apply touches_cork|apply touches_refl]. }
  assert (early (server_data_ p) -> early c) as Hearly by (unfold early; by rewrite Hst).
  pose proof (touches_trans _ _ _ _ Hk1 Hk2) as Hk. destruct (_ =? -1); [by injection Hi as <- <- _|].
  unfold event.set in Hi. apply bind_ok_inv in Hi as (k3 & Ha & Hi).
  apply (yields_ok _ _ _ _ (add_event_yields _ _ _ _)) in Ha as [Ha _].
  pose proof (touches_connect (A := A) (event.event_ p.(server_event_)) (connection.fd c) a k3) as Hs4.
  destruct (sys_connect k3 (connection.fd c) a) as [k4 x]. cbn [fst] in Hs4.
  assert (touches (A := A) (event.event_ p.(server_event_)) e.(env_kernel) k4) as Hk4.
  { eapply touches_trans; [exact Hk|]. eapply touches_trans; [apply touches_set|].
    eapply touches_trans; [exact Ha|exact Hs4]. }
  destruct x as [[]|er]; [discriminate Hi|]. destruct er; injection Hi as <- <- _; try done.
  split; [done|]. split; [done|]. split; [done|]. intros _. by right.
Qed.

Lemma early_wanted c : early c -> wanted c = 0.
Proof.
  intros He. destruct (Z.eq_dec (wanted c) 0) as [|Hw]; [done|]. by destruct (wanted_made _ Hw), He.
Qed.

Lemma connect_at_once_ok base this p e p' e' :
  proxy_ok base p e -> connection.state_ p.(server_data_) = connection.NOT_CONNECTED -> waits p e.(env_kernel) ->
  connect_at_once host_rules_ this p e = Ok (p', e') ->
  confined p e p' e' /\ proxy_ok (next_base base p p' e') p' e' /\
  same_streams sent open_fd e.(env_kernel) e'.(env_kernel) /\ waits p' e'.(env_kernel).
Proof.
  intros Hp Hnc Hwt Hc. unfold connect_at_once in Hc. apply bind_ok_inv in Hc as ([q h] & Hs & Hc).
  apply bind_ok_inv in Hc as ([x h'] & Hx & Hc).
  assert (handler_of REQUEST_LINE p = Some q) as Hq.
  { unfold stream_of in Hs. apply bind_ok_inv in Hs as (q0 & Hq & Hs). apply bind_ok_inv in Hs as (h0 & _ & [= -> ->]).
    destruct (handler_of REQUEST_LINE p); [by injection Hq as ->|done]. }
  pose proof (proxy_address _ _ _ _ _ _ _ _ _ _ _ _ Hp Hs Hx) as Hp1.
  assert (keeps base p e base p (with_stream q h' e)) as Hk1.
  { apply keeps_same; [by eapply confined_stream|]. intros Hcw. exact Hcw. }
  assert (proxy_kept host_rules_ pp localtime zs base p e p' e' /\
    same_streams sent open_fd e.(env_kernel) e'.(env_kernel) /\ waits p' e'.(env_kernel)) as (Hk & Hstr & Hw).
  { destruct x; try (injection Hc as <- <-; split; [by exists base|split; [apply streams_refl|exact Hwt]]).
    apply bind_ok_inv in Hc as ([[p2 e2] st] & Hi & [= <- <-]).
    destruct (initiate_touches _ _ _ _ _ _ _ Hi) as (Ht & Ecl & Eev & Hearly).
    assert (proxy_kept host_rules_ pp localtime zs base p (with_stream q h' e) p2 e2) as Hk2 by by eapply initiate_ok.
    split; [|split; [exact (to_streams _ _ _ Ht)|]].
    { eapply proxy_kept_trans. exists base. split; [exact Hk1|exact Hk2]. }
    constructor.
    - rewrite Ecl, Eev. intros Hne. eapply awaits_touched; [exact Ht| |by apply Hwt].
      apply (wa_addresses _ (px_watched _ _ _ _ _ _ _ Hp)).
    - rewrite early_wanted; [done|]. apply Hearly. by left.
    - destruct Hk2 as (b2 & Hk2 & _). apply (ke_connecting _ _ _ _ _ _ Hk2). intros E. simpl in E. congruence. }
  split; [|split; [by eapply kept_base|done]]. destruct Hk as (b & Hk & _). apply Hk.
Qed.

(** What a new client is given: a handler that was free. *)
Record hosted (s : server K A) (this : Z) (p' : proxy_handler.t A) (s' : server K A) : Prop := {
  ho_resting : exists p, s.(server_proxies) !! this = Some p /\ resting p /\ same_addresses p p' /\
    other_events p s.(server_env).(env_kernel) s'.(server_env).(env_kernel);
  ho_waits : waits p' s'.(server_env).(env_kernel);
  ho_proxies : s'.(server_proxies) = <[this := p']> s.(server_proxies);
  ho_streams : same_streams sent open_fd s.(server_env).(env_kernel) s'.(server_env).(env_kernel)
}.

(** A handler of the pool is reset for the client: its stream handlers were
    free and are not any more. *)
Record settled (p : proxy_handler.t A) (e : env K A) (p1 : proxy_handler.t A) (e1 : env K A) : Prop := {
  se_fresh : fresh host_rules_ pp localtime zs p1 e1;
  se_begun : begun p e p1 e1;
  se_cache : cached e1;
  se_taken : taken p1 e1;
  se_were_free ln q : handler_of ln p1 = Some q ->
    q ∈ free e.(request_stream_handlers) ++ free e.(response_stream_handlers);
  se_distinct : NoDup (free e1.(request_stream_handlers) ++ free e1.(response_stream_handlers));
  se_requests : pool_bounded e1.(request_stream_handlers);
  se_responses : pool_bounded e1.(response_stream_handlers);
  se_request q : q ∈ free e1.(request_stream_handlers) -> q ∈ free e.(request_stream_handlers);
  se_response q : q ∈ free e1.(response_stream_handlers) -> q ∈ free e.(response_stream_handlers)
}.

Lemma reset_settles p e p1 e1 :
  pools_ok e -> resting p -> proxy_handler.reset p e = Ok (p1, e1) -> settled p e p1 e1.
Proof.
  intros [Bq Br Bp Nd Ndp Pq Pr Pc] (_ & Hbuf & Hadr) Hr.
  assert (idle host_rules_ pp localtime zs p e) as Hidle.
  { constructor; try done. intros q Hq Hq2. apply NoDup_app in Nd as (_ & Nd & _). by apply (Nd q). }
  destruct (proxy_reset_ok _ _ _ _ Hname Hvalue Hrules Hpost _ _ _ _ Hidle Hr) as [Hfresh Hbegun].
  pose proof Hbegun as [(q1 & Hq1 & A1) (q2 & Hq2 & A2) _ _ _ _ _].
  destruct (allocate_bounded _ _ _ Bq A1) as [F1 B1], (allocate_bounded _ _ _ Br A2) as [F2 B2].
  rewrite F1, F2, <- app_comm_cons, <- Permutation_middle, !NoDup_cons in Nd. destruct Nd as (N1 & N2 & N3).
  assert (forall ln q, handler_of ln p1 = Some q -> q = q1 \/ q = q2) as Hq
    by (intros [] q Hq; [left|right]; congruence).
  constructor; try done.
  - pose proof (fr_line _ _ _ _ _ _ Hfresh REQUEST_LINE) as Hl.
    destruct (line_inv _ _ _ _ Hrules Hpost _ _ _ _ Hl) as (? & ? & ? & ? & _ & _ & _ & _ & Hw & _).
    exact (we_cache _ _ _ Hw).
  - intros ln q [->| ->]%Hq; [|done]. intros Hin. apply N1. by right.
  - intros ln q [->| ->]%Hq; rewrite F1, F2, elem_of_app, !elem_of_cons; auto.
  - intros q Hin. rewrite F1. by right.
  - intros q Hin. rewrite F2. by right.
Qed.

(** The handlers of a connection are not those of a new one. *)
Lemma new_apart client_fd base p e p1 e1 p2 e2 px :
  settled p e p1 e1 -> joined client_fd p1 e1 p2 e2 -> proxy_ok base px e -> taken px e ->
  (forall ln, connection.fd_ (src_of ln px) <> client_fd) -> apart p2 px.
Proof.
  intros Hs [Hc Hv Hh _ _ _] Hok Ht Hne. constructor.
  - intros [] ln E; simpl in E.
    + destruct (Hne ln). congruence.
    + rewrite Hv, (fr_server _ _ _ _ _ _ (se_fresh _ _ _ _ Hs)) in E. done.
  - intros s1 s2 q Hq Hq2. rewrite Hh in Hq. by apply (Ht _ _ Hq2), (se_were_free _ _ _ _ Hs s1).
Qed.

(** It starts with what its sockets were sent before. *)
Lemma next_start p2 e2 p3 e3 base :
  connection.state_ p2.(server_data_) = connection.NOT_CONNECTED -> confined p2 e2 p3 e3 ->
  base RESPONSE_LINE = sent e2.(env_kernel) (connection.fd_ p2.(client_data_)) ->
  same_streams sent open_fd e2.(env_kernel) e3.(env_kernel) ->
  forall ln, start_base p3 e3 ln = next_base base p2 p3 e3 ln.
Proof.
  intros Hnc Hc Hb [Hs _] [].
  - unfold ProxySafety.next_base. by rewrite bool_decide_eq_true_2.
  - unfold ProxySafety.start_base. simpl. by rewrite Hb, Hs, (cn_client _ _ _ _ Hc).
Qed.

(** What a client is given, and what is left of the others. *)
Record hosts (client_fd : Z) (p : proxy_handler.t A) (e : env K A) (p' : proxy_handler.t A) (e' : env K A) : Prop := {
  hs_addresses : same_addresses p p';
  hs_events : other_events p e.(env_kernel) e'.(env_kernel);
  hs_waits : waits p' e'.(env_kernel);
  hs_pools : pools_ok e';
  hs_ok : proxy_ok (start_base p' e') p' e';
  hs_taken : taken p' e';
  hs_streams : same_streams sent open_fd e.(env_kernel) e'.(env_kernel);
  hs_proxies : e'.(proxy_handlers) = e.(proxy_handlers);
  hs_other base px : proxy_ok base px e -> taken px e ->
    (forall ln, connection.fd_ (src_of ln px) <> client_fd) ->
    proxy_ok base px e' /\ taken px e' /\ apart p' px
}.

Lemma pools_settled p e p1 e1 e' :
  pools_ok e -> settled p e p1 e1 -> e'.(request_stream_handlers) = e1.(request_stream_handlers) ->
  e'.(response_stream_handlers) = e1.(response_stream_handlers) -> e'.(proxy_handlers) = e.(proxy_handlers) ->
  (forall q, (forall ln, handler_of ln p1 <> Some q) -> e'.(env_streams) !! q = e.(env_streams) !! q) ->
  cached e' -> pools_ok e'.
Proof.
  intros [] [] Eq Er Ep Hstr Hc. constructor; rewrite ?Eq, ?Er, ?Ep; try done.
  - intros q Hq. rewrite Hstr; [by apply po_request0, se_request0|]. intros ln Hln.
    apply (se_taken0 _ _ Hln). rewrite elem_of_app. by left.
  - intros q Hq. rewrite Hstr; [by apply po_response0, se_response0|]. intros ln Hln.
    apply (se_taken0 _ _ Hln). rewrite elem_of_app. by right.
Qed.

Lemma hosts_settled client_fd p e p1 e1 p2 k2 p' e' :
  pools_ok e -> settled p e p1 e1 -> joined client_fd p1 e1 p2 (with_kernel k2 e1) ->
  touches (A := A) (event.event_ p1.(client_event_)) e1.(env_kernel) k2 -> confined p2 (with_kernel k2 e1) p' e' ->
  same_streams sent open_fd k2 e'.(env_kernel) -> proxy_ok (start_base p' e') p' e' -> waits p' e'.(env_kernel) ->
  hosts client_fd p e p' e'.
Proof.
  intros Hpe Hse Hjo Hk2' Hcon Hk3 Hok Hwt. pose proof (to_streams _ _ _ Hk2') as Hk2. pose proof (se_begun _ _ _ _ Hse) as Hbg.
  pose proof (streams_trans _ _ _ (bg_kernel _ _ _ _ Hbg) (streams_trans _ _ _ Hk2 Hk3)) as Hk.
  assert (cached e') as Hc by by eapply proxy_cache.
  assert (forall q, (forall ln, handler_of ln p1 <> Some q) -> e'.(env_streams) !! q = e.(env_streams) !! q) as Hstr.
  { intros q Hq. rewrite (cn_streams _ _ _ _ Hcon); [by apply (bg_streams _ _ _ _ Hbg)|].
    intros ln. rewrite (jo_handlers _ _ _ _ _ Hjo). apply Hq. }
  pose proof (cn_requests _ _ _ _ Hcon : _ = request_stream_handlers e1) as Erq.
  pose proof (cn_responses _ _ _ _ Hcon : _ = response_stream_handlers e1) as Ers.
  assert (e'.(proxy_handlers) = e.(proxy_handlers)) as Epx
    by (rewrite (cn_proxies _ _ _ _ Hcon); exact (bg_proxies _ _ _ _ Hbg)).
  assert (same_addresses p p2) as Ha2.
  { destruct (bg_addresses _ _ _ _ Hbg), (jo_addresses _ _ _ _ _ Hjo). split; congruence. }
  constructor; try done.
  - destruct Ha2, (cn_addresses _ _ _ _ Hcon). split; congruence.
  - eapply (other_events_trans p p2 _ k2); [exact Ha2| |exact (cn_events _ _ _ _ Hcon)].
    eapply (other_events_trans p p1); [exact (bg_addresses _ _ _ _ Hbg)| |by apply other_events_client].
    apply other_events_same, Hbg.
  - by eapply pools_settled.
  - intros ln q Hq. rewrite Erq, Ers. apply (se_taken _ _ _ _ Hse ln).
    by rewrite (cn_handlers _ _ _ _ Hcon), (jo_handlers _ _ _ _ _ Hjo) in Hq.
  - intros base px Hokx Htx Hne.
    assert (forall e' : env K A, same_streams sent open_fd e.(env_kernel) e'.(env_kernel) ->
      (forall q, (forall ln, handler_of ln p1 <> Some q) -> e'.(env_streams) !! q = e.(env_streams) !! q) ->
      cached e' -> proxy_ok base px e') as Hothers.
    { intros e2 He' Hs' Hc'. apply (others_same _ _ e); try done. intros ln q Hq. apply Hs'. intros ln' Hq'.
      by apply (Htx _ _ Hq), (se_were_free _ _ _ _ Hse ln'). }
    split; [by apply Hothers|]. split.
    + intros ln q Hq Hin. rewrite Erq, Ers in Hin. apply (Htx _ _ Hq). rewrite elem_of_app in Hin |- *.
      destruct Hin; [left; by apply (se_request _ _ _ _ Hse)|right; by apply (se_response _ _ _ _ Hse)].
    + eapply (apart_confined _ (with_kernel k2 e1)); [|exact Hcon|by eapply new_apart].
      apply Hothers; [eapply streams_trans; [apply (bg_kernel _ _ _ _ Hbg)|exact Hk2]|apply Hbg|apply Hse].
Qed.

(** The calls for a client. *)
Lemma host_ok this client_fd p e p1 e1 p2 e2 st p' e' :
  pools_ok e -> resting p -> client_fd <> -1 -> open_fd e.(env_kernel) client_fd ->
  proxy_handler.reset p e = Ok (p1, e1) -> add_client this client_fd p1 e1 = Ok (p2, e2, st) ->
  (match st with socketlib.COMPLETE => connect_at_once host_rules_ this p2 e2 | _ => Ok (p2, e2) end) = Ok (p', e') ->
  hosts client_fd p e p' e'.
Proof.
  intros Hpe Hrest Hne Hopen Hr Hadd Hco. pose proof (reset_settles _ _ _ _ Hpe Hrest Hr) as Hse.
  pose proof (se_fresh _ _ _ _ Hse) as Hfr.
  assert (open_fd e1.(env_kernel) client_fd) as Hopen1 by by apply (bg_kernel _ _ _ _ (se_begun _ _ _ _ Hse)).
  assert (proxy_ok (start_base p2 e2) p2 e2 /\ joined client_fd p1 e1 p2 e2) as [Hok2 Hjo]
    by (eapply add_client_ok; eassumption).
  pose proof Hjo as [Hcl Hsv Hhs _ Hwt2 (k2 & -> & Hk2)].
  assert (connection.state_ p2.(server_data_) = connection.NOT_CONNECTED) as Hnc
    by (rewrite Hsv; apply (fr_state _ _ _ _ _ _ Hfr)).
  assert (confined p2 (with_kernel k2 e1) p' e' /\
    proxy_ok (next_base (start_base p2 (with_kernel k2 e1)) p2 p' e') p' e' /\
    same_streams sent open_fd k2 e'.(env_kernel) /\ waits p' e'.(env_kernel)) as (Hcon & Hok3 & Hk3 & Hw3).
  { destruct st; try (injection Hco as <- <-; split; [apply confined_refl|split; [|split; [apply streams_refl|done]]];
      eapply kept_base; [done..|apply kept_refl, Hok2]). eapply connect_at_once_ok; eassumption. }
  pose proof (next_start _ _ _ _ (start_base p2 (with_kernel k2 e1)) Hnc Hcon eq_refl Hk3) as Hbase.
  apply (proxy_base _ _ _ _ Hbase) in Hok3. by eapply hosts_settled.
Qed.

Lemma new_client_ok bs s client_fd s' :
  server_ok bs s -> client_fd <> -1 -> open_fd s.(server_env).(env_kernel) client_fd ->
  (forall x px, s.(server_proxies) !! x = Some px -> proxy_ok (bs x) px s.(server_env) ->
    forall ln, connection.fd_ (src_of ln px) <> client_fd) ->
  new_client host_rules_ client_fd s = Ok s' ->
  exists this p', hosted s this p' s' /\ not (resting p') /\
    server_ok (set_bases this (start_base p' s'.(server_env)) bs) s'.
Proof.
  intros Hs Hne Hopen Hfree Hn. unfold new_client in Hn. apply bind_ok_inv in Hn as ([o pool] & Ha & Hn).
  destruct o as [this|]; [|done]. cbn [of_option] in Hn. rewrite bind_ok in Hn.
  pose proof Hs as [Hpools Hproxy Hresting Hapart].
  destruct (allocate_bounded _ _ _ (po_proxies _ Hpools) Ha) as [Fp Bp].
  destruct (Hresting this) as (p & Hp & Hrest); [rewrite Fp; apply list_elem_of_here|].
  rewrite Hp in Hn. cbn [of_option] in Hn. rewrite bind_ok in Hn.
  apply bind_ok_inv in Hn as ([p1 e1] & Hr & Hn). apply bind_ok_inv in Hn as ([[p2 e2] st] & Hadd & Hn).
  apply bind_ok_inv in Hn as ([p3 e3] & Hco & [= <-]). cbn [server_env server_proxies].
  pose proof (po_distinct_proxies _ Hpools) as Nd. rewrite Fp, NoDup_cons in Nd.
  set (e := with_pools _ _ pool _) in Hr.
  assert (pools_ok e) as Hpe by (destruct Hpools; constructor; try done; apply Nd).
  pose proof (host_ok this client_fd p e p1 e1 p2 e2 st p3 e3 Hpe Hrest Hne Hopen Hr Hadd Hco)
    as [Hadr3 Hev3 Hw3 Hpools3 Hok3 Ht3 Hk3 Epx Hother].
  exists this, p3. split; [constructor; [by exists p|done..]|]. split; [by intros ?; eapply resting_not|].
  apply (one_other _ _ _ p); [done|done|done|by right| |].
  - intros x. rewrite Epx. change (free (proxy_handlers e)) with (free pool). intros Hx. left. rewrite Fp.
    split; [intros ->; by apply Nd|by right].
  - intros x px Hx Hpx Hokx Htx _. destruct (Hother (bs x) px) as (Hok' & Ht' & Ha').
    + apply (others_same _ _ s.(server_env)); try done; apply Hpools.
    + done.
    + intros ln. by eapply Hfree.
    + auto.
Qed.

(** ** The listening socket *)

(** A connection that is new since [s] starts with what its sockets were sent
    before. *)
Definition opened_bases (bs : Z -> line -> list Z) (s s' : server K A) : Z -> line -> list Z := fun this =>
  match s.(server_proxies) !! this, s'.(server_proxies) !! this with
  | Some p, Some p' =>
      match handler_of REQUEST_LINE p with
      | Some _ => bs this
      | None => start_base p' s'.(server_env)
      end
  | _, _ => bs this
  end.

Lemma start_same p (e e' : env K A) :
  same_streams sent open_fd e.(env_kernel) e'.(env_kernel) -> forall ln, start_base p e ln = start_base p e' ln.
Proof. intros [Hs _] ln. unfold ProxySafety.start_base. by rewrite Hs. Qed.

Lemma not_resting bs s this p :
  server_ok bs s -> s.(server_proxies) !! this = Some p -> not (resting p) ->
  proxy_ok (bs this) p s.(server_env) /\ is_Some (handler_of REQUEST_LINE p).
Proof.
  intros Hs Hp Hn. destruct (so_proxy _ _ Hs _ _ Hp) as [Hr|[Hok _]]; [done|]. split; [done|].
  destruct (proxy_handler_of _ _ _ REQUEST_LINE Hok) as [q Hq]. by exists q.
Qed.

(** What an event of the listening socket leaves. *)
Record admitted (bs : Z -> line -> list Z) (s s' : server K A) : Prop := {
  ad_ok : server_ok (opened_bases bs s s') s';
  ad_streams : same_streams sent open_fd s.(server_env).(env_kernel) s'.(server_env).(env_kernel);
  ad_kept this p : s.(server_proxies) !! this = Some p -> not (resting p) -> s'.(server_proxies) !! this = Some p
}.

Lemma admitted_same bs s s' :
  server_ok bs s -> s'.(server_proxies) = s.(server_proxies) -> server_ok bs s' ->
  same_streams sent open_fd s.(server_env).(env_kernel) s'.(server_env).(env_kernel) -> admitted bs s s'.
Proof.
  intros Hs Hp Hs' Hk. constructor; [|done|by intros this p; rewrite Hp]. destruct Hs' as [P Q F Ap].
  constructor; try done. intros this p Hp'. destruct (Q _ _ Hp') as [Hr|[Hok Ht]]; [by left|right].
  split; [|done]. unfold opened_bases. rewrite <- Hp, Hp'.
  destruct (proxy_handler_of _ _ _ REQUEST_LINE Hok) as [q Hq]. by rewrite Hq.
Qed.

Lemma admitted_new bs s this p s1 s2 :
  hosted s this p s1 -> not (resting p) ->
  admitted (set_bases this (start_base p s1.(server_env)) bs) s1 s2 -> admitted bs s s2.
Proof.
  intros [(p0 & Hp0 & Hr0 & _) _ Hpx Hk] Hnr [Hok Hk2 Hkept].
  assert (s1.(server_proxies) !! this = Some p) as Hp1 by (rewrite Hpx; apply lookup_insert_eq).
  pose proof (Hkept _ _ Hp1 Hnr) as Hp2. constructor; [|by eapply streams_trans|].
  - destruct Hok as [P Q F Ap]. constructor; try done. intros x px Hx.
    destruct (Q _ _ Hx) as [Hr|[Hokx Ht]]; [by left|right]. split; [|done].
    eapply proxy_base; [|exact Hokx]. intros ln. unfold opened_bases, set_bases. rewrite Hx.
    destruct (decide (x = this)) as [->|Hne].
    + rewrite Hp0, Hp1. rewrite Hp2 in Hx. injection Hx as <-. rewrite (proj1 Hr0).
      destruct (handler_of REQUEST_LINE p) as [q|]; [|done]. symmetry. by apply start_same.
    + rewrite Hpx, lookup_insert_ne by done. done.
  - intros x px Hx Hn. apply Hkept; [|done]. rewrite Hpx. rewrite lookup_insert_ne; [done|].
    intros ->. rewrite Hp0 in Hx. by injection Hx as <-.
Qed.

(** A client that [accept] gave is hosted. *)
Lemma accepted_ok bs s fd k client_fd s2 :
  server_ok bs s -> let s1 := Server K A (with_kernel k s.(server_env)) s.(server_proxies) in
  server_ok bs s1 -> sys_accept (A := A) s.(server_env).(env_kernel) fd = (k, client_fd) -> client_fd <> -1 ->
  new_client host_rules_ client_fd s1 = Ok s2 ->
  exists this p', hosted s1 this p' s2 /\ not (resting p') /\
    server_ok (set_bases this (start_base p' s2.(server_env)) bs) s2.
Proof.
  intros Hs s1 Hs1 Ea Hne Hn. destruct (accept_fresh _ _ _ _ Ea Hne) as (Hopen & Hfresh & _).
  apply new_client_ok with (client_fd := client_fd); try done.
  intros x px Hx Hokx ln E. destruct (so_proxy _ _ Hs x px Hx) as [Hr|[Hok _]].
  - by eapply resting_not.
  - destruct (px_socket _ _ _ _ _ _ _ Hok ln) as [[E2 _]|[_ Ho]]; [congruence|]. by rewrite E in Ho.
Qed.

Lemma accept_loop_ok fuel : forall bs s fd s',
  server_ok bs s -> accept_loop host_rules_ fuel fd s = Ok s' -> admitted bs s s'.
Proof.
  induction fuel as [|fuel IH]; intros bs s fd s' Hs Hl; [done|]. cbn [accept_loop] in Hl. unfold accept_client in Hl.
  pose proof (accept_streams (A := A) s.(server_env).(env_kernel) fd) as Hk.
  destruct (sys_accept _ fd) as [k client_fd] eqn:Ea. cbn [fst] in Hk.
  pose proof (server_same _ _ _ Hs Hk) as Hs1. set (s1 := Server K A _ _) in *.
  destruct (Z.eqb_spec client_fd (-1)) as [->|Hne].
  { injection Hl as <-. by apply admitted_same. }
  apply bind_ok_inv in Hl as (s2 & Hn & Hl).
  destruct (accepted_ok _ _ _ _ _ _ Hs Hs1 Ea Hne Hn) as (this & p & Hh & Hnr & Hs2).
  pose proof (IH _ _ _ _ Hs2 Hl) as Had. eapply admitted_new in Had; [|exact Hh|exact Hnr].
  destruct Had as [Hok Hk2 Hkept]. constructor; [exact Hok|by eapply streams_trans|exact Hkept].
Qed.

Lemma listen_ok bs s fuel fd revents ev s' n :
  server_ok bs s -> new_connection_handler.handle_event host_rules_ fuel fd revents ev s = Ok (s', n) ->
  admitted bs s s'.
Proof.
  intros Hs Hh. unfold new_connection_handler.handle_event in Hh. apply bind_ok_inv in Hh as (s1 & Hl & Hh).
  apply bind_ok_inv in Hh as (k & Ha & [= <- <-]). apply (add_event_streams true) in Ha.
  destruct (accept_loop_ok _ _ _ _ _ Hs Hl) as [Hok Hk Hkept].
  constructor; [|by eapply streams_trans|done].
  eapply server_base; [|by apply server_same]. intros this ln. unfold opened_bases. cbn [server_proxies server_env].
  destruct (server_proxies s !! this) as [p|]; [|done]. destruct (server_proxies s1 !! this) as [p1|]; [|done].
  destruct (handler_of REQUEST_LINE p); [done|]. symmetry.
  exact (start_same p1 (server_env s1) (with_kernel k (server_env s1)) Ha ln).
Qed.

(** ** Over the life of the server *)

(** The two event structures in a proxy handler. *)
Definition owns (p : proxy_handler.t A) (a : Z) : Prop :=
  a = event.event_ p.(client_event_) \/ a = event.event_ p.(server_event_).

#[export] Instance owns_dec p a : Decision (owns p a).
Proof. unfold owns. apply _. Defined.

(** The server before the first event: every handler and every stream handler
    is in its pool. *)
Record started (s : server K A) : Prop := {
  sd_pools : pools_ok s.(server_env);
  sd_proxy this p : s.(server_proxies) !! this = Some p -> resting p;
  sd_free this : this ∈ free s.(server_env).(proxy_handlers) -> is_Some (s.(server_proxies) !! this);
  sd_events this1 p1 this2 p2 a : this1 <> this2 ->
    s.(server_proxies) !! this1 = Some p1 -> s.(server_proxies) !! this2 = Some p2 -> owns p1 a -> not (owns p2 a)
}.

(** The event library takes an event off its list before it calls back. *)
Definition fired (ev : event.t) (s : server K A) : server K A :=
  Server K A (with_kernel (event_del (A := A) s.(server_env).(env_kernel) ev.(event.event_)) s.(server_env))
    s.(server_proxies).

(** Events of the listening socket and of the connections, in any order.  An
    event is for a connection that is not over: [shutdown] deletes the events
    of the others.  The event of the listening socket is not in a proxy
    handler.  [bs] are the bytes the sockets of each connection were sent
    before it began. *)
Inductive serves : (Z -> line -> list Z) -> server K A -> Prop :=
  | serves_started bs s : started s -> serves bs s
  | serves_client bs s fuel fd revents ev s' n :
      serves bs s -> (forall this p, s.(server_proxies) !! this = Some p -> not (owns p (event.event_ ev))) ->
      new_connection_handler.handle_event host_rules_ fuel fd revents ev s = Ok (s', n) ->
      serves (opened_bases bs s s') s'
  | serves_event bs s fuel ev revents this p p' s' :
      serves bs s -> s.(server_proxies) !! this = Some p -> is_Some (handler_of REQUEST_LINE p) ->
      ev = p.(client_event_) \/ ev = p.(server_event_) -> event.p_event_handler_ ev = Some this ->
      proxy_event host_rules_ pp localtime fuel ev (event.fd_ ev) revents (fired ev s) = Ok s' ->
      s'.(server_proxies) !! this = Some p' ->
      serves (set_bases this (next_base (bs this) p p' s'.(server_env)) bs) s'.

(** A connection has the sockets and stream handlers of its two lines. *)
Lemma serving_proxy bs s this p :
  server_ok bs s -> s.(server_proxies) !! this = Some p -> is_Some (handler_of REQUEST_LINE p) ->
  proxy_ok (bs this) p s.(server_env) /\ taken p s.(server_env).
Proof.
  intros Hs Hp [q Hq]. destruct (so_proxy _ _ Hs _ _ Hp) as [[Hr _]|Hok]; [|done]. by rewrite Hr in Hq.
Qed.

Lemma proxy_event_inv fuel ev fd revents this s p s' :
  event.p_event_handler_ ev = Some this -> s.(server_proxies) !! this = Some p ->
  proxy_event host_rules_ pp localtime fuel ev fd revents s = Ok s' ->
  exists p' e' ret, handle_event fuel this fd revents p s.(server_env) = Ok (p', e', ret) /\
    s' = Server K A e' (<[this := p']> s.(server_proxies)).
Proof.
  intros Hev Hp Hh. unfold proxy_event, poller.event_callback in Hh. rewrite Hev in Hh. cbn [of_option] in Hh.
  rewrite bind_ok, Hp in Hh. cbn [of_option] in Hh. rewrite bind_ok in Hh.
  apply bind_ok_inv in Hh as ([[p' e'] ret] & Hh & [= <-]). by exists p', e', ret.
Qed.

Lemma fired_ok bs s ev : server_ok bs s -> server_ok bs (fired ev s).
Proof. intros Hs. apply server_same; [done|]. apply event_del_streams. Qed.

Lemma serves_ok bs s : serves bs s -> server_ok bs s.
Proof.
  induction 1 as [bs s [Hpools Hproxy Hfree _]|bs s fuel fd revents ev s' n _ IH _ Hh
    |bs s fuel ev revents this p p' s' _ IH Hp Hq _ Hev Hh Hp'].
  - constructor; [done|intros; left; by eapply Hproxy| |intros; left; by eapply Hproxy].
    intros this Hf. destruct (Hfree _ Hf) as [p Hp]. exists p. eauto.
  - by eapply ad_ok, listen_ok.
  - apply (fired_ok _ _ ev) in IH. change (server_proxies (fired ev s) !! this = Some p) in Hp.
    destruct (serving_proxy _ _ _ _ IH Hp Hq) as [Hok Ht].
    destruct (proxy_event_inv _ _ _ _ _ _ _ _ Hev Hp Hh) as (p2 & e2 & ret & Hev2 & ->).
    simpl in Hp'. rewrite lookup_insert_eq in Hp'. injection Hp' as <-.
    by destruct (proxy_event_ok _ _ _ _ _ _ _ _ _ _ IH Hp Ht Hok Hev2).
Qed.

(** ** What is delivered *)

(** Each socket of a connection, whose handler was [p], was sent what the
    stream handler of its line put out. *)
Definition delivered (base : line -> list Z) (p p' : proxy_handler.t A) (e : env K A) : Prop :=
  forall ln, exists q h fs l, handler_of ln p = Some q /\ e.(env_streams) !! q = Some h /\
    sent e.(env_kernel) (connection.fd_ (dest_of ln p')) = base ln ++ l /\ forwards h fs l.

Lemma told_delivered base p p' e :
  (forall ln, exists q, handler_of ln p = Some q /\ line_told host_rules_ pp localtime zs ln (base ln) q p' e) ->
  delivered base p p' e.
Proof.
  intros Ht ln. destruct (Ht ln) as (q & Hq & h & fs & st & w & b & Hh & Hr & Hs).
  destruct (reach_inv _ _ _ _ Hrules (Hpost ln) _ _ _ _ _ _ Hr) as (_ & _ & (l & Hl & Hf) & _).
  exists q, h, fs, l. split; [done|]. split; [done|]. by rewrite <- Hs.
Qed.

Lemma running_delivered base p e : proxy_ok base p e -> delivered base p p e.
Proof. intros Hp. apply told_delivered. intros ln. by apply runs_told, Hp. Qed.

End server.

(** ** The property *)


(** ** At a concrete input *)

(** Two clients, on sockets 4 and 6, post through the proxy; the pools have
    two elements each. *)
Definition two_elements (q : Z) : pessimistic_memory_manager.t Z :=
  pessimistic_memory_manager.make 2 (fun i => q + Z.of_nat i).

Definition with_body (l body : list Z) : list Z := take (length l - length body) l ++ body.

(** What is posted and answered on the connection [this]. *)
Definition said (this : Z) (ln : line) : list Z :=
  match ln with
  | REQUEST_LINE => with_body sample_post (str (if this =? 300 then "abc" else "xyz"))
  | RESPONSE_LINE => with_body sample_response (str (if this =? 300 then "hi" else "no"))
  end.

Definition two_clients : host :=
  let talks this ln := Script (replicate 20 (inl 100%nat)) [inl (said this ln)] [] in
  Host {[4 := talks 300 REQUEST_LINE; 5 := talks 300 RESPONSE_LINE;
         6 := talks 301 REQUEST_LINE; 7 := talks 301 RESPONSE_LINE]}
    [5; 7] [] [] [4; 6] ∅ {[3]}.

Definition sample_make (ty : STREAM_TYPE) (c : header_cache) : res (stream_handler Z * header_cache) :=
  http_proxy_stream_handler.make ty 16 16 16 4 http.NONE 0 header_writer.FIELD_NAME c.

Definition sample_server : res (server host Z) :=
  '(h1, c) ← sample_make REQUEST sample_pool;
  '(h2, c) ← sample_make REQUEST c;
  '(h3, c) ← sample_make RESPONSE c;
  '(h4, c) ← sample_make RESPONSE c;
  let '(p1, heap) := proxy_handler.make 1000 1001 128 (7, 80) ∅ in
  let '(p2, heap) := proxy_handler.make 1002 1003 128 (7, 80) heap in
  Ok (Server host Z
        (Env host Z two_clients heap c access_log.make []
           (<[100 := h1]> (<[101 := h2]> (<[200 := h3]> {[201 := h4]})))
           (two_elements 100) (two_elements 200) (two_elements 300))
        (<[300 := p1]> {[301 := p2]})).

(** A state on the way, with the bases. *)
Abbreviation sample_state := ((Z -> line -> list Z) * server host Z)%type.

Definition sample_listen (x : sample_state) : res sample_state :=
  _ ← (if bool_decide (map_Forall (fun _ p => not (owns p 1)) x.2.(server_proxies)) then Ok tt else Undef);
  '(s, _) ← new_connection_handler.handle_event sample_rules 10 3 EV_READ (event.Event 1 3 None) x.2;
  Ok (opened_bases x.1 x.2 s, s).

Definition sample_step (this fd revents : Z) (x : sample_state) : res sample_state :=
  let '(bs, s) := x in
  p ← of_option (s.(server_proxies) !! this);
  _ ← of_option (handler_of REQUEST_LINE p);
  let ev := if event.fd_ p.(client_event_) =? fd then p.(client_event_) else p.(server_event_) in
  _ ← (if bool_decide (event.p_event_handler_ ev = Some this) then Ok tt else Undef);
  s' ← proxy_event sample_rules None (fun _ => sample_date) 10 ev (event.fd_ ev) revents (fired ev s);
  p' ← of_option (s'.(server_proxies) !! this);
  Ok (set_bases this (next_base (bs this) p p' s'.(server_env)) bs, s').

(** The events of the two connections alternate. *)
Definition sample_served : res sample_state :=
  s ← sample_server;
  x ← sample_listen (fun _ _ => [], s);
  x ← sample_step 300 4 (Z.lor EV_READ EV_WRITE) x;
  x ← sample_step 301 6 (Z.lor EV_READ EV_WRITE) x;
  x ← sample_step 301 7 EV_WRITE x;
  x ← sample_step 300 5 EV_WRITE x;
  x ← sample_step 301 7 EV_READ x;
  sample_step 300 5 EV_READ x.

Abbreviation sample_serves x := (serves sample_rules None (fun _ => sample_date) (fun _ => sample_sizes) x.1 x.2).

Lemma sample_started s : sample_server = Ok s -> started sample_rules None (fun _ => sample_date) (fun _ => sample_sizes) s.
Proof.
  unfold sample_server. intros He. apply bind_ok_inv in He as ([h1 c1] & M1 & He).
  apply bind_ok_inv in He as ([h2 c2] & M2 & He). apply bind_ok_inv in He as ([h3 c3] & M3 & He).
  apply bind_ok_inv in He as ([h4 c4] & M4 & He).
  destruct (proxy_handler.make 1000 1001 128 (7, 80) ∅) as [p1 heap1] eqn:Ep1.
  destruct (proxy_handler.make 1002 1003 128 (7, 80) heap1) as [p2 heap2] eqn:Ep2. injection He as <-.
  assert (sizes_ok sample_sizes 4) as Hn by (repeat split; discriminate || reflexivity).
  assert (forall ty c h c', cache_ok sample_sizes c -> sample_make ty c = Ok (h, c') -> cache_ok sample_sizes c') as Hmake
    by (intros ty c h c' Hc Hm; exact (proj1 (make_well (K := host) sample_sizes _ _ _ _ _ _ _ _ Hn Hc Hm))).
  pose proof (Hmake _ _ _ _ sample_pool_ok M1) as C1. pose proof (Hmake _ _ _ _ C1 M2) as C2.
  pose proof (Hmake _ _ _ _ C2 M3) as C3. pose proof (Hmake _ _ _ _ C3 M4) as C4.
  assert (forall ln ty c h c', cache_ok sample_sizes c -> sample_make ty c = Ok (h, c') ->
    pooled (K := host) sample_rules None (fun _ => sample_date) (fun _ => sample_sizes) ln h) as Hpooled
    by (intros ln ty c h c' Hc Hm; eapply pooled_made; [exact Hn|exact Hc|exact Hm]).
  assert (forall q, pool_bounded (two_elements q)) as Hpool by (intros q; by apply make_bounded).
  assert (forall a b l q hp p hp', proxy_handler.make a b l q hp = (p, hp') -> 0 <= l < 2 ^ 31 -> a <> b -> resting (A := Z) p) as Hrest.
  { intros a b l q hp p hp' Hp Hl Hab. unfold proxy_handler.make in Hp. destruct (pipeline_data_queue.make hp).
    injection Hp as <- <-. split; [by intros []|]. split; [|done]. intros []; by apply make_wf. }
  assert (forall a b l q hp p hp', proxy_handler.make a b l q hp = (p, hp') ->
    forall x, owns (A := Z) p x <-> x = a \/ x = b) as Howns.
  { intros a b l q hp p hp' Hp x. unfold proxy_handler.make in Hp. destruct (pipeline_data_queue.make hp).
    by injection Hp as <- _. }
  pose proof (Hrest _ _ _ _ _ _ _ Ep1 ltac:(lia) ltac:(lia)) as R1.
  pose proof (Hrest _ _ _ _ _ _ _ Ep2 ltac:(lia) ltac:(lia)) as R2.
  constructor; [constructor; simpl; try done|..].
  - apply (NoDup_ListNoDup [100; 101; 200; 201]). repeat constructor; simpl; lia.
  - apply (NoDup_ListNoDup [300; 301]). repeat constructor; simpl; lia.
  - intros q [->|[->|[]%not_elem_of_nil]%elem_of_cons]%elem_of_cons; [exists h1|exists h2]; (split; [done|]).
    all: eapply Hpooled; [|eassumption]; first [exact sample_pool_ok|assumption].
  - intros q [->|[->|[]%not_elem_of_nil]%elem_of_cons]%elem_of_cons; [exists h3|exists h4]; (split; [done|]).
    all: eapply Hpooled; [|eassumption]; first [exact sample_pool_ok|assumption].
  - intros this p Hp. simpl in Hp. apply lookup_insert_Some in Hp as [[_ <-]|[_ Hp]]; [done|].
    by apply lookup_singleton_Some in Hp as [_ <-].
  - intros this [->|[->|[]%not_elem_of_nil]%elem_of_cons]%elem_of_cons; eexists; reflexivity.
  - intros this1 q1 this2 q2 a Hne Hq1 Hq2. simpl in Hq1, Hq2.
    pose proof (Howns _ _ _ _ _ _ _ Ep1 a) as O1. pose proof (Howns _ _ _ _ _ _ _ Ep2 a) as O2.
    assert (forall x q, (<[300:=p1]> {[301:=p2]} : gmap Z (proxy_handler.t Z)) !! x = Some q ->
      x = 300 /\ q = p1 \/ x = 301 /\ q = p2) as Hx.
    { intros x q Hq. apply lookup_insert_Some in Hq as [[<- <-]|[_ Hq]]; [by left|].
      apply lookup_singleton_Some in Hq as [<- <-]. by right. }
    destruct (Hx _ _ Hq1) as [[-> ->]|[-> ->]], (Hx _ _ Hq2) as [[-> ->]|[-> ->]]; rewrite ?O1, ?O2; try done; lia.
Qed.

Lemma sample_listen_ok x x' : sample_serves x -> sample_listen x = Ok x' -> sample_serves x'.
Proof.
  unfold sample_listen. intros Hx Hl. apply bind_ok_inv in Hl as ([] & Ho & Hl). case_bool_decide as Hno; [|done].
  apply bind_ok_inv in Hl as ([s n] & Hh & [= <-]).
  eapply serves_client; [exact Hx| |exact Hh]. exact Hno.
Qed.

Lemma sample_step_ok this fd revents x x' : sample_serves x -> sample_step this fd revents x = Ok x' -> sample_serves x'.
Proof.
  destruct x as [bs s]. unfold sample_step. intros Hx Hl. apply bind_ok_inv in Hl as (p & Hp & Hl).
  apply bind_ok_inv in Hl as (q & Hq & Hl). set (ev := if _ =? _ then _ else _) in Hl.
  apply bind_ok_inv in Hl as ([] & Hev & Hl). apply bind_ok_inv in Hl as (s' & Hh & Hl).
  apply bind_ok_inv in Hl as (p' & Hp' & [= <-]). case_bool_decide as Hthis; [|done].
  destruct (server_proxies s !! this) as [p0|] eqn:E; [injection Hp as ->|done].
  destruct (handler_of REQUEST_LINE p) as [q0|] eqn:Eq; [|done].
  destruct (server_proxies s' !! this) as [p1|] eqn:E'; [injection Hp' as ->|done].
  eapply serves_event; [exact Hx|exact E|by exists q0| |exact Hthis|exact Hh|exact E'].
  unfold ev. case_match; auto.
Qed.

Lemma sample_served_ok x : sample_served = Ok x -> sample_serves x.
Proof.
  unfold sample_served. intros Hx. apply bind_ok_inv in Hx as (s & Hs & Hx). apply sample_started in Hs.
  apply bind_ok_inv in Hx as (x1 & X1 & Hx). apply bind_ok_inv in Hx as (x2 & X2 & Hx).
  apply bind_ok_inv in Hx as (x3 & X3 & Hx). apply bind_ok_inv in Hx as (x4 & X4 & Hx).
  apply bind_ok_inv in Hx as (x5 & X5 & Hx). apply bind_ok_inv in Hx as (x6 & X6 & Hx).
  eapply sample_step_ok, Hx. eapply sample_step_ok, X6. eapply sample_step_ok, X5. eapply sample_step_ok, X4.
  eapply sample_step_ok, X3. eapply sample_step_ok, X2. eapply sample_listen_ok, X1. by apply serves_started.
Qed.

(** What a socket of the connection was sent before it began and in all, and
    whether the connection is in use. *)
Definition served (this : Z) (ln : line) : res (list Z * list Z * bool) :=
  '(bs, s) ← sample_served;
  p ← of_option (s.(server_proxies) !! this);
  Ok (bs this ln, sent s.(server_env).(env_kernel) (connection.fd_ (dest_of ln p)),
      bool_decide (is_Some (handler_of REQUEST_LINE p))).

