(* ===== verification/ServerLiveness.v ===== *)
(** No lost wake-ups.  The event library forgets an event when it calls back,
    so that a connection that does not register again for what it needs is
    never heard of any more.  After every event, each connection in use has a
    pending event for each direction in which one of its sockets is open and
    not known to be ready, and for a connection that was begun. *)
From stdpp Require Import list gmap.
From S2P Require Import Prelude Status ReadWriteBuffer HttpLex Interfaces HeaderStore HeaderHandler.
From S2P Require Import HeaderParser HandlerSafety BodyParsers BodyRun BodyWindow Os Connection Net Poller.
From S2P Require Import HeaderWriter Printf MemoryManager Pipeline Url StreamHandler ProxyHandler NewConnection.
From S2P Require Import ProxyFrame StreamBody StreamFrame StreamMoves StreamSafety ProxySafety ServerSafety.

Import http_proxy_stream_handler proxy_handler new_connection_handler.

Section liveness.
Context {K A : Type} `{NetLaws K A}.

Abbreviation in_use p := (is_Some (handler_of REQUEST_LINE p)).

(** Every connection waits for what it needs, with events of its own. *)
Record woken (s : server K A) : Prop := {
  wk_own this1 p1 this2 p2 a : this1 <> this2 ->
    s.(server_proxies) !! this1 = Some p1 -> s.(server_proxies) !! this2 = Some p2 -> owns p1 a -> not (owns p2 a);
  wk_waits this p : s.(server_proxies) !! this = Some p -> in_use p -> waits p s.(server_env).(env_kernel)
}.

(** What is waited for does not depend on the events of others. *)
Lemma waits_same (p : proxy_handler.t A) (k k' : K) :
  (forall a, owns p a -> event_pending (A := A) k' a = event_pending (A := A) k a /\
    event_watches (A := A) k' a = event_watches (A := A) k a) ->
  waits p k -> waits p k'.
Proof.
  intros Hk [Wc Ws Wn].
  destruct (Hk _ (or_introl eq_refl)) as [Pc Ec], (Hk _ (or_intror eq_refl)) as [Ps Es].
  constructor; unfold awaits, poller.pending in *; rewrite ?Pc, ?Ec, ?Ps, ?Es; auto.
Qed.

Lemma woken_same s k' :
  woken s -> (forall this p a, s.(server_proxies) !! this = Some p -> owns p a ->
    event_pending (A := A) k' a = event_pending (A := A) s.(server_env).(env_kernel) a /\
    event_watches (A := A) k' a = event_watches (A := A) s.(server_env).(env_kernel) a) ->
  woken (Server K A (with_kernel k' s.(server_env)) s.(server_proxies)).
Proof.
  intros [Ho Hw] Hk. constructor; [done|]. intros this p Hp Hu. apply (waits_same _ s.(server_env).(env_kernel)); eauto.
Qed.

Lemma owns_same (p p' : proxy_handler.t A) a : same_addresses p p' -> owns p' a <-> owns p a.
Proof. intros [Ec Es]. unfold owns. by rewrite Ec, Es. Qed.

(** A step of one connection. *)
Lemma woken_one s this p p' e' :
  woken s -> s.(server_proxies) !! this = Some p -> same_addresses p p' ->
  other_events p s.(server_env).(env_kernel) e'.(env_kernel) -> (in_use p' -> waits p' e'.(env_kernel)) ->
  woken (Server K A e' (<[this := p']> s.(server_proxies))).
Proof.
  intros [Ho Hw] Hp Ha He Hp'.
  assert (forall x q, <[this := p']> s.(server_proxies) !! x = Some q ->
    x = this /\ q = p' \/ x <> this /\ s.(server_proxies) !! x = Some q) as Hx.
  { intros x q Hq. apply lookup_insert_Some in Hq as [[<- <-]|[Hne Hq]]; auto. }
  constructor; simpl.
  - intros x1 q1 x2 q2 a Hne Hq1 Hq2. destruct (Hx _ _ Hq1) as [[-> ->]|[N1 L1]], (Hx _ _ Hq2) as [[-> ->]|[N2 L2]];
      rewrite ?(owns_same _ _ _ Ha); eauto.
  - intros x q Hq Hu. destruct (Hx _ _ Hq) as [[-> ->]|[Hne Hl]]; [auto|].
    apply (waits_same _ s.(server_env).(env_kernel)); [|by eapply Hw]. intros a Hqa.
    pose proof (Ho _ _ _ _ a Hne Hl Hp Hqa) as Hno. apply He; intros ->; apply Hno; [by left|by right].
Qed.

Variable host_rules_ : gmap (list Z) (host_rules.t A).
Variable pp : option (message_buffer.t -> res (bool * message_buffer.t)).
Variable localtime : nat -> log_record.tm.
Variable zs : line -> sizes.
Hypothesis Hname : (zs REQUEST_LINE).(n_name) = (zs RESPONSE_LINE).(n_name).
Hypothesis Hvalue : (zs REQUEST_LINE).(n_value) = (zs RESPONSE_LINE).(n_value).
Hypothesis Hrules : rules_ok host_rules_.
Hypothesis Hpost : forall s, postprocessor_ok (zs s) pp.

Abbreviation server_ok := (server_ok host_rules_ pp localtime zs).

(** ** The listening socket *)

Lemma accept_loop_woken fuel : forall bs s fd s',
  server_ok bs s -> woken s -> accept_loop host_rules_ fuel fd s = Ok s' ->
  woken s' /\ forall this p', s'.(server_proxies) !! this = Some p' ->
    exists p, s.(server_proxies) !! this = Some p /\ same_addresses p p'.
Proof.
  induction fuel as [|fuel IH]; intros bs s fd s' Hs Hw Hl; [done|]. cbn [accept_loop] in Hl. unfold accept_client in Hl.
  pose proof (accept_streams (A := A) s.(server_env).(env_kernel) fd) as Hk.
  pose proof (accept_events (A := A) s.(server_env).(env_kernel) fd) as Hev.
  destruct (sys_accept _ fd) as [k client_fd] eqn:Ea. cbn [fst] in Hk, Hev.
  pose proof (server_same _ _ _ _ Hname Hvalue Hrules Hpost _ _ _ Hs Hk) as Hs1.
  pose proof (woken_same s k Hw (fun _ _ a _ _ => Hev a)) as Hw1. set (s1 := Server K A _ _) in *.
  destruct (Z.eqb_spec client_fd (-1)) as [->|Hne].
  { injection Hl as <-. split; [done|]. intros this p' Hp'. by exists p'. }
  apply bind_ok_inv in Hl as (s2 & Hn & Hl).
  destruct (accepted_ok _ _ _ _ Hname Hvalue Hrules Hpost _ _ _ _ _ _ Hs Hs1 Ea Hne Hn)
    as (this & p' & [(p & Hp & Hrest & Ha & He) Hwt Epx _] & _ & Hs2).
  assert (woken s2) as Hw2.
  { destruct s2 as [e2 px2]. cbn [server_proxies] in Epx. rewrite Epx.
    exact (woken_one s1 this p p' e2 Hw1 Hp Ha He (fun _ => Hwt)). }
  destruct (IH _ _ _ _ Hs2 Hw2 Hl) as [Hw' Hsame]. split; [done|]. intros x px Hx.
  destruct (Hsame _ _ Hx) as (p2 & Hp2 & A2). rewrite Epx in Hp2.
  apply lookup_insert_Some in Hp2 as [[<- <-]|[_ Hp2]]; [|by exists p2].
  exists p. split; [done|]. destruct Ha, A2. split; congruence.
Qed.

Lemma listen_woken bs s fuel fd revents ev s' n :
  server_ok bs s -> woken s -> (forall this p, s.(server_proxies) !! this = Some p -> not (owns p (event.event_ ev))) ->
  new_connection_handler.handle_event host_rules_ fuel fd revents ev s = Ok (s', n) -> woken s'.
Proof.
  intros Hs Hw Hev Hh. unfold new_connection_handler.handle_event in Hh. apply bind_ok_inv in Hh as (s1 & Hl & Hh).
  apply bind_ok_inv in Hh as (k & Ha & [= <- <-]). destruct (accept_loop_woken _ _ _ _ _ Hs Hw Hl) as [Hw1 Hsame].
  destruct (yields_ok _ _ _ _ (add_event_yields _ _ _ _) Ha) as [[_ Tp Tw] _].
  apply woken_same; [done|]. intros this p a Hp Hown.
  destruct (Hsame _ _ Hp) as (p0 & Hp0 & Ha0). apply (owns_same _ _ _ Ha0) in Hown.
  assert (a <> event.event_ ev) as Hne by (intros ->; by eapply Hev). auto.
Qed.

(** ** An event of a connection *)

Lemma event_woken bs s fuel ev revents this p s' :
  server_ok bs s -> woken s -> s.(server_proxies) !! this = Some p -> in_use p ->
  ev = p.(client_event_) \/ ev = p.(server_event_) -> event.p_event_handler_ ev = Some this ->
  proxy_event host_rules_ pp localtime fuel ev (event.fd_ ev) revents (fired ev s) = Ok s' -> woken s'.
Proof.
  intros Hs Hw Hp Hu Hev Hthis Hh.
  apply (fired_ok _ _ _ _ Hname Hvalue Hrules Hpost _ _ ev) in Hs as Hs1.
  destruct (serving_proxy _ _ _ _ _ _ _ _ Hs1 Hp Hu) as [Hok _].
  destruct (proxy_event_inv _ _ _ _ _ _ _ _ (fired ev s) p _ Hthis Hp Hh) as (p' & e' & ret & Hh2 & ->).
  destruct (handle_event_ok _ _ _ _ Hname Hvalue Hrules Hpost _ _ _ _ _ _ _ _ _ _ Hok Hh2) as [_ Hret].
  assert (same_addresses p p' /\ other_events p (fired ev s).(server_env).(env_kernel) e'.(env_kernel) /\
    (in_use p' -> waits p' e'.(env_kernel))) as (Ha & He & Hw').
  { destruct ret as [n|].
    - split; [apply Hret|]. split; [apply Hret|]. rewrite (cl_handlers _ _ _ _ _ _ Hret REQUEST_LINE). by intros [? ?].
    - destruct Hret as (Hc & _ & Hwt). split; [apply Hc|]. split; [apply Hc|]. intros _. apply Hwt.
      destruct (px_watched _ _ _ _ _ _ _ Hok) as [_ Ws Wa]. destruct Hev as [->| ->].
      + right. intros E. eapply awaits_touched; [apply touches_del|by apply not_eq_sym|].
        apply (wt_connecting _ _ (wk_waits _ Hw _ _ Hp Hu)). exact E.
      + destruct (decide (connection.state_ p.(server_data_) = connection.CONNECTING)) as [E|E].
        * left. apply Ws. by rewrite E.
        * by right. }
  change (server_proxies (fired ev s)) with (server_proxies s).
  apply (woken_one _ _ p); try done. eapply (other_events_trans p p); [done| |exact He].
  destruct Hev as [->| ->]; [apply other_events_client|apply other_events_server]; apply touches_del.
Qed.

Lemma serves_woken bs s : serves host_rules_ pp localtime zs bs s -> woken s.
Proof.
  intros Hs. induction Hs as [bs s Hst|bs s fuel fd revents ev s' n Hs IH Hev Hh
    |bs s fuel ev revents this p p' s' Hs IH Hp Hq Hev Hthis Hh Hp'];
    [|apply (serves_ok _ _ _ _ Hname Hvalue Hrules Hpost) in Hs..].
  - constructor; [by apply Hst|]. intros this p Hp [q Hq].
    destruct (sd_proxy _ _ _ _ _ Hst _ _ Hp) as [Hr _]. by rewrite Hr in Hq.
  - by eapply listen_woken.
  - by eapply event_woken.
Qed.

(** ** What the masks mean *)

(** A pending event for the socket, with a bit of the mask. *)
Definition event_comes (k : K) (ev : event.t) (fd bit : Z) : Prop :=
  exists mask, awaits k ev fd mask /\ Z.land mask bit = bit.

(** The socket of a line's source and its event. *)
Definition event_of (ln : line) (p : proxy_handler.t A) : event.t :=
  match ln with REQUEST_LINE => p.(client_event_) | RESPONSE_LINE => p.(server_event_) end.

Lemma wanted_read c : connection.open_for_read c = true -> connection.ready_to_read c = false ->
  wanted c <> 0 /\ Z.land (wanted c) EV_READ = EV_READ.
Proof. unfold wanted. intros -> ->. by destruct (negb (connection.ready_to_write c) && _). Qed.

Lemma wanted_write c : connection.open_for_write c = true -> connection.ready_to_write c = false ->
  wanted c <> 0 /\ Z.land (wanted c) EV_WRITE = EV_WRITE.
Proof. unfold wanted. intros -> ->. by destruct (negb (connection.ready_to_read c) && _). Qed.

Lemma waits_comes p (k : K) ln bit :
  waits p k -> wanted (src_of ln p) <> 0 /\ Z.land (wanted (src_of ln p)) bit = bit ->
  event_comes k (event_of ln p) (connection.fd_ (src_of ln p)) bit.
Proof. intros [Wc Ws _] [Hne Hb]. destruct ln; eexists; split; [by apply Wc|done|by apply Ws|done]. Qed.

End liveness.

(** ** The property *)

(** C3: no lost wake-ups.  The library forgets an event before it calls
    back; still, whatever clients connect, in whatever order the events come
    and whatever the kernel answers, between two events each socket of a
    connection in use has, in each direction in which it is open, been found
    ready or an event pending that will report it, and a connection to the
    server that was begun has its event pending. *)
Theorem no_lost_wakeup {K A : Type} `{NetLaws K A} (host_rules_ : gmap (list Z) (host_rules.t A))
    (pp : option (message_buffer.t -> res (bool * message_buffer.t))) (localtime : nat -> log_record.tm)
    (zs : line -> sizes) bs (s : server K A) this p :
  (zs REQUEST_LINE).(n_name) = (zs RESPONSE_LINE).(n_name) ->
  (zs REQUEST_LINE).(n_value) = (zs RESPONSE_LINE).(n_value) ->
  rules_ok host_rules_ -> (forall ln, postprocessor_ok (zs ln) pp) ->
  serves host_rules_ pp localtime zs bs s ->
  s.(server_proxies) !! this = Some p -> is_Some (handler_of REQUEST_LINE p) ->
  let comes ln := event_comes s.(server_env).(env_kernel) (event_of ln p) (connection.fd_ (src_of ln p)) in
  (forall ln, connection.open_for_read (src_of ln p) = true ->
     connection.ready_to_read (src_of ln p) = true \/ comes ln EV_READ) /\
  (forall ln, connection.open_for_write (src_of ln p) = true ->
     connection.ready_to_write (src_of ln p) = true \/ comes ln EV_WRITE) /\
  (connection.state_ p.(server_data_) = connection.CONNECTING ->
     comes RESPONSE_LINE EV_READ /\ comes RESPONSE_LINE EV_WRITE).
Proof.
  intros Hn Hv Hrules Hpost Hs Hp Hu comes.
  pose proof (wk_waits _ (serves_woken _ _ _ _ Hn Hv Hrules Hpost _ _ Hs) _ _ Hp Hu) as Hw.
  split; [|split].
  - intros ln Ho. destruct (connection.ready_to_read _) eqn:E; [by left|right]. by apply waits_comes, wanted_read.
  - intros ln Ho. destruct (connection.ready_to_write _) eqn:E; [by left|right]. by apply waits_comes, wanted_write.
  - intros E. split; eexists; (split; [by apply (wt_connecting _ _ Hw)|done]).
Qed.

(** ** At a concrete input *)

(** After the first two events of the sample, both connections to the server
    were begun. *)
Definition sample_waiting : res sample_state :=
  s ← sample_server;
  x ← sample_listen (fun _ _ => [], s);
  x ← sample_step 300 4 (Z.lor EV_READ EV_WRITE) x;
  sample_step 301 6 (Z.lor EV_READ EV_WRITE) x.

Lemma sample_waiting_ok x : sample_waiting = Ok x -> sample_serves x.
Proof.
  unfold sample_waiting. intros Hx. apply bind_ok_inv in Hx as (s & Hs & Hx). apply sample_started in Hs.
  apply bind_ok_inv in Hx as (x1 & X1 & Hx). apply bind_ok_inv in Hx as (x2 & X2 & Hx).
  eapply sample_step_ok, Hx. eapply sample_step_ok, X2. eapply sample_listen_ok, X1. by apply serves_started.
Qed.

(** Whether the connection is in use and the state of its server. *)
Definition sample_connecting (x : sample_state) (this : Z) : option (bool * connection.STATE * Z) :=
  p ← x.2.(server_proxies) !! this;
  Some (bool_decide (is_Some (handler_of REQUEST_LINE p)), connection.state_ p.(server_data_),
    connection.fd_ p.(server_data_)).

Lemma no_lost_wakeup_witness :
  exists bs s p, sample_waiting = Ok (bs, s) /\ s.(server_proxies) !! 301 = Some p /\
    connection.state_ p.(server_data_) = connection.CONNECTING /\
    event_comes (A := Z) s.(server_env).(env_kernel) p.(server_event_) (connection.fd_ p.(server_data_)) EV_WRITE /\
    connection.fd_ p.(server_data_) = 7.
Proof.
  assert ((x ← sample_waiting; of_option (sample_connecting x 301)) = Ok (true, connection.CONNECTING, 7)) as Hx
    by (vm_compute; reflexivity).
  destruct sample_waiting as [[bs s]| | |] eqn:E; try discriminate Hx.
  rewrite bind_ok in Hx. unfold sample_connecting in Hx. cbn [snd] in Hx.
  destruct (server_proxies s !! 301) as [p|] eqn:Ep; [|discriminate Hx].
  injection Hx as Hu Hst Hfd. apply bool_decide_eq_true in Hu.
  exists bs, s, p. split; [reflexivity|]. split; [exact Ep|]. split; [exact Hst|]. split; [|exact Hfd].
  destruct (no_lost_wakeup sample_rules None (fun _ => sample_date) (fun _ => sample_sizes) bs s 301 p
    eq_refl eq_refl sample_rules_ok (fun _ => sample_postprocessor) (sample_waiting_ok _ E) Ep Hu) as (_ & _ & Hc).
  exact (proj2 (Hc Hst)).
Defined.
