(* ===== verification/StartupSafety.v ===== *)
(** The server that the program sets up is one that the properties of
    ServerSafety.v and ServerLiveness.v are about: every pool is full of
    handlers that were never used, and the host rules are made of bytes. *)
From stdpp Require Import list gmap.
From S2P Require Import Prelude Status ReadWriteBuffer HttpLex Interfaces HeaderStore HeaderHandler.
From S2P Require Import HeaderParser HandlerSafety BodyParsers BodyRun BodyWindow Os Connection Net Poller.
From S2P Require Import HeaderWriter Printf MemoryManager Pipeline Url ConfigFile ConfigReading StreamHandler.
From S2P Require Import ProxyHandler NewConnection Startup ProxyFrame StreamBody StreamFrame StreamMoves StreamSafety.
From S2P Require Import ProxySafety ServerSafety ServerLiveness.

Import config_file http_proxy_stream_handler proxy_handler new_connection_handler.

(** * The URLs of the configuration *)
Section urls.

Import url.

(** The characters that were written to the scratch buffer are bytes. *)
Definition buffer_bytes (buf : buffer) : Prop :=
  Forall (fun o => match o with Some c => is_byte c | None => True end) buf.

Lemma put_bytes i c buf : is_byte c -> buffer_bytes buf -> buffer_bytes (put i c buf).
Proof. intros Hc Hb. by apply Forall_insert. Qed.

Lemma buffer_string_bytes buf s : buffer_bytes buf -> buffer_string buf = Ok s -> bytes_ok s.
Proof.
  intros Hb. revert s. induction Hb as [|[c|] buf Hc Hb IH]; intros s Hs; simpl in Hs; try done.
  destruct (c =? 0); [injection Hs as <-; constructor|].
  apply bind_ok_inv in Hs as (s' & Hs' & [= <-]). constructor; [exact Hc|by apply IH].
Qed.

Lemma skip_to_path_bytes l : bytes_ok l -> bytes_ok (skip_to_path l).
Proof. induction 1 as [|c l Hc Hl IH]; [constructor|]. simpl. destruct (c =? 47); [by constructor|done]. Qed.

Lemma port_loop_bytes l : forall p, bytes_ok l -> bytes_ok (port_loop l p).2.
Proof.
  induction l as [|c l IH]; intros p Hl; [constructor|]. cbn [port_loop]. inversion Hl; subst.
  destruct (_ && _); [auto|done].
Qed.

Lemma parse_port_bytes l : bytes_ok l -> bytes_ok (parse_port l).2.
Proof.
  intros Hl. unfold parse_port. pose proof (port_loop_bytes l 0 Hl) as Hp. destruct (port_loop l 0). by apply skip_to_path_bytes.
Qed.

Lemma protocol_loop_bytes l : forall buf indx, bytes_ok l -> buffer_bytes buf ->
  let '(_, cur, buf', _) := protocol_loop l buf indx in bytes_ok cur /\ buffer_bytes buf'.
Proof.
  induction l as [|c l IH]; intros buf indx Hl Hb; [by split|]. cbn [protocol_loop]. inversion Hl; subst.
  destruct (negb _); [by split|]. destruct (_ && _).
  - split; [by apply Forall_drop|]. by apply put_bytes.
  - apply IH; [done|by apply put_bytes].
Qed.

Lemma bracket_loop_bytes l : forall buf indx x, bytes_ok l -> buffer_bytes buf ->
  bracket_loop l buf indx = Ok x -> bytes_ok x.1.1 /\ buffer_bytes x.1.2.
Proof.
  induction l as [|c l IH]; intros buf indx x Hl Hb Hx; cbn [bracket_loop] in Hx.
  - destruct (_ <? _)%nat; [done|]. by injection Hx as <-.
  - inversion Hl; subst. destruct (_ && _); [|by injection Hx as <-]. eapply IH; [done| |exact Hx]. by apply put_bytes.
Qed.

(** The host and the rest of the URL. *)
Definition host_bytes (x : host_result) : Prop :=
  match x with
  | Invalid => True
  | Host host _ cur _ => (forall h, host = Some h -> bytes_ok h) /\ bytes_ok cur
  end.

Lemma parse_bracketed_bytes l buf indx port x : bytes_ok l -> buffer_bytes buf ->
  parse_bracketed l buf indx port = Ok x -> host_bytes x.
Proof.
  intros Hl Hb Hx. unfold parse_bracketed in Hx. apply bind_ok_inv in Hx as ([[cur buf'] indx'] & Hx1 & Hx).
  destruct (bracket_loop_bytes _ _ _ _ (Forall_drop _ 1 _ Hl) Hb Hx1) as [Hc Hb']. simpl in Hc, Hb'.
  apply bind_ok_inv in Hx as (b & _ & Hx). destruct (negb b); [by injection Hx as <-|].
  apply bind_ok_inv in Hx as (h & Hh & Hx). assert (bytes_ok h) as Hhb
    by (eapply buffer_string_bytes; [|exact Hh]; by apply put_bytes).
  destruct cur as [|c cur]; [done|]. inversion Hc; subst. destruct (_ =? 58); [|injection Hx as <-; by split; [intros ? [= <-]|]].
  pose proof (parse_port_bytes (drop 1 cur) ltac:(by apply Forall_drop)) as Hp.
  destruct (parse_port (drop 1 cur)) as [p cur']. injection Hx as <-. by split; [intros ? [= <-]|].
Qed.

Lemma host_loop_bytes l : forall buf indx port x, bytes_ok l -> buffer_bytes buf ->
  host_loop l buf indx port = Ok x -> host_bytes x.
Proof.
  induction l as [|c l IH]; intros buf indx port x Hl Hb Hx; cbn [host_loop] in Hx;
    (destruct (negb _); [injection Hx as <-; by split|]); (destruct (xorb _ _); [by injection Hx as <-|]);
    (destruct (_ =? 91); [by eapply parse_bracketed_bytes|]);
    (destruct (_ =? 58);
      [apply bind_ok_inv in Hx as (h & Hh & Hx); apply buffer_string_bytes in Hh; [|by apply put_bytes];
       match type of Hx with context [parse_port ?r] =>
         pose proof (parse_port_bytes r ltac:(by apply Forall_drop)) as Hp; destruct (parse_port r) as [p cur'] end;
       injection Hx as <-; by split; [intros ? [= <-]|]|]).
  - apply bind_ok_inv in Hx as (h & Hh & [= <-]). apply buffer_string_bytes in Hh; [|by apply put_bytes].
    split; [by intros ? [= <-]|constructor].
  - inversion Hl; subst. destruct (c =? 47).
    + apply bind_ok_inv in Hx as (h & Hh & [= <-]). apply buffer_string_bytes in Hh; [|by apply put_bytes].
      by split; [intros ? [= <-]|].
    + eapply IH; [done| |exact Hx]. by apply put_bytes.
Qed.

Lemma make_bytes {A} (resolver : list Z -> A) s resolve port u : bytes_ok s ->
  url.make resolver (Some s) resolve port = Ok u -> url_bytes u.
Proof.
  intros Hs Hm. unfold url.make in Hm. apply bind_ok_inv in Hm as ([st u0] & Hp & [= <-]).
  assert (url_bytes u0) as Hu.
  { unfold parse_url in Hp. cbn [of_option] in Hp. rewrite bind_ok in Hp.
    set (buf0 := put 0 0 _) in Hp. assert (buffer_bytes buf0) as Hb0
      by (apply put_bytes; [done|by apply Forall_replicate]).
    pose proof (protocol_loop_bytes s buf0 0 Hs Hb0) as Hl.
    destruct (protocol_loop s buf0 0) as [[[found cur] buf] indx]. destruct Hl as [Hc Hb].
    apply bind_ok_inv in Hp as (proto & _ & Hp).
    destruct cur as [|c cur]; [injection Hp as _ <-; by split; constructor|].
    apply bind_ok_inv in Hp as (r & Hr & Hp). apply host_loop_bytes in Hr; [|done|by apply put_bytes].
    destruct r as [|host p cur' buf']; injection Hp as _ <-; [by split; constructor|].
    destruct Hr as [Hh Hc']. split; simpl.
    - destruct host; [by apply Hh|constructor].
    - unfold parse_path. destruct cur'; [forall_concrete|]. by apply Forall_take. }
  by destruct resolve.
Qed.

End urls.

(** ** The rules *)
Section rules.
Context {A : Type}.
Variable resolver : list Z -> A.
Variable unset_port : Z.

Abbreviation bytes_of_rules rules :=
  (url_bytes (host_rules.default_forward_url rules) /\
   Forall (fun r => url_bytes r.(host_rules.forward_url_)) rules.(host_rules.rules_)).

Lemma url_from_bytes v u : value_bytes v -> url_from resolver unset_port v = Ok u -> url_bytes u.
Proof.
  intros Hv Hu. unfold url_from in Hu. apply bind_ok_inv in Hu as (s & Hs & Hu).
  eapply make_bytes; [|exact Hu]. apply c_str_ok. by eapply read_string_bytes.
Qed.

Lemma virtual_host_bytes config i v : config_bytes config -> virtual_host config i = Ok v -> value_bytes v.
Proof.
  intros Hc Hv. unfold virtual_host in Hv. apply bind_ok_inv in Hv as (h & Hh & Hv).
  eapply value_at_bytes; [|exact Hv]. by eapply config_at_bytes.
Qed.

Lemma rule_loop_bytes n : forall cur_rule i config rules rules',
  config_bytes config -> bytes_of_rules rules ->
  rule_loop resolver unset_port n cur_rule i config rules = Ok rules' -> bytes_of_rules rules'.
Proof.
  induction n as [|n IH]; intros cur_rule i config rules rules' Hc Hr Hl; cbn [rule_loop] in Hl; [by injection Hl as <-|].
  apply bind_ok_inv in Hl as (vh & Hvh & Hl). apply bind_ok_inv in Hl as (rule & Hrule & Hl).
  apply bind_ok_inv in Hl as (v & Hv & Hl). apply bind_ok_inv in Hl as (fw & Hfw & Hl).
  apply bind_ok_inv in Hl as (u & Hu & Hl). apply bind_ok_inv in Hl as (p & _ & Hl).
  apply bind_ok_inv in Hl as (path & _ & Hl).
  apply virtual_host_bytes in Hvh; [|done]. apply value_named_bytes in Hrule; [|done].
  apply value_at_bytes in Hv; [|done]. apply value_named_bytes in Hfw; [|done].
  apply url_from_bytes in Hu; [|done]. eapply IH; [exact Hc| |exact Hl].
  destruct Hr as [Hd Hrs]. split; [done|]. simpl. apply Forall_app. split; [done|]. by constructor.
Qed.

Lemma rules_of_host_bytes config i name rules :
  config_bytes config -> rules_of_host resolver unset_port config i = Ok (name, rules) -> bytes_of_rules rules.
Proof.
  intros Hc Hr. unfold rules_of_host in Hr. apply bind_ok_inv in Hr as (vh & Hvh & Hr).
  apply virtual_host_bytes in Hvh; [|done]. apply bind_ok_inv in Hr as (v & Hv & Hr).
  apply value_named_bytes in Hv; [|done]. apply bind_ok_inv in Hr as (u & Hu & Hr).
  apply url_from_bytes in Hu; [|done]. apply bind_ok_inv in Hr as (v2 & _ & Hr).
  apply bind_ok_inv in Hr as (preserve & _ & Hr). apply bind_ok_inv in Hr as (rule & _ & Hr).
  apply bind_ok_inv in Hr as (rules' & Hl & Hr). apply bind_ok_inv in Hr as (v3 & _ & Hr).
  apply bind_ok_inv in Hr as (n & _ & [= _ <-]).
  assert (bytes_of_rules (host_rules.make u preserve)) as H0 by (split; [done|constructor]).
  destruct rule as [rule|]; [by eapply rule_loop_bytes|by injection Hl as <-].
Qed.

Lemma host_rules_loop_bytes n : forall i config m m',
  config_bytes config -> rules_ok m -> host_rules_loop resolver unset_port n i config m = Ok m' -> rules_ok m'.
Proof.
  induction n as [|n IH]; intros i config m m' Hc Hm Hl; cbn [host_rules_loop] in Hl; [by injection Hl as <-|].
  apply bind_ok_inv in Hl as ([name rules] & Hr & Hl). apply rules_of_host_bytes in Hr; [|done].
  eapply IH; [exact Hc| |exact Hl]. intros name' rules' Hl'.
  apply lookup_insert_Some in Hl' as [[_ <-]|[_ Hl']]; [done|]. by eapply Hm.
Qed.

Lemma build_host_rules_ok config m :
  config_bytes config -> build_host_rules resolver unset_port config ∅ = Ok m -> rules_ok m.
Proof.
  intros Hc Hb. unfold build_host_rules in Hb. apply bind_ok_inv in Hb as (hosts & _ & Hb).
  eapply host_rules_loop_bytes; [exact Hc| |exact Hb]. by intros ? ? ?%lookup_empty_Some.
Qed.

End rules.

(** * The pools *)

(** The objects that [new] makes do not overlap. *)
Record layout_ok (l : layout) : Prop := {
  lo_request : Inj (=) (=) (request_at l);
  lo_response : Inj (=) (=) (response_at l);
  lo_proxy : Inj (=) (=) (proxy_at l);
  lo_streams i j : request_at l i <> response_at l j;
  lo_client : Inj (=) (=) (client_event_at l);
  lo_server : Inj (=) (=) (server_event_at l);
  lo_events i j : client_event_at l i <> server_event_at l j;
  lo_listen i : new_connection_event_at l <> client_event_at l i /\ new_connection_event_at l <> server_event_at l i
}.

Lemma NoDup_map {X Y} (f : X -> Y) l : Inj (=) (=) f -> NoDup l -> NoDup (map f l).
Proof.
  intros Hf. induction 1 as [|x l Hx Hl IH]; [constructor|]. simpl. constructor; [|done].
  intros (y & E & Hy)%list_elem_of_In%in_map_iff. apply Hf in E as ->. apply Hx. by apply list_elem_of_In.
Qed.

Lemma free_made n (at_ : nat -> Z) : free (pool_at n at_) = map at_ (seq 0 n).
Proof. done. Qed.

Lemma in_pool n (at_ : nat -> Z) q : q ∈ free (pool_at n at_) -> exists j, (j < n)%nat /\ q = at_ j.
Proof.
  rewrite free_made. intros (j & <- & Hj)%list_elem_of_In%in_map_iff. exists j. split; [|done]. apply in_seq in Hj. lia.
Qed.

Section pools.
Context {K A : Type} `{NetLaws K A}.
Variable rules : gmap (list Z) (host_rules.t A).
Variable pp : option (message_buffer.t -> res (bool * message_buffer.t)).
Variable localtime : nat -> log_record.tm.
Variable zs : line -> sizes.

Abbreviation pooled := (pooled (K := K) (A := A) rules pp localtime zs).

Lemma clone_streams_ok ln ty nh e i b at_ (n : nat) : Inj (=) (=) at_ -> sizes_ok (zs ln) nh ->
  forall j streams c streams' c', cache_ok (zs ln) c ->
  clone_streams n j at_ (http_proxy_stream_handler.make (A := A) ty (zs ln).(n_line1) (zs ln).(n_line2) (zs ln).(n_line3)
    nh e i b) streams c = Ok (streams', c') ->
  cache_ok (zs ln) c' /\ (forall q, (forall x, q <> at_ x) -> streams' !! q = streams !! q) /\
  (forall x, (x < j)%nat -> streams' !! at_ x = streams !! at_ x) /\
  forall x, (j <= x < j + n)%nat -> exists h, streams' !! at_ x = Some h /\ pooled ln h.
Proof.
  intros Hinj Hn. induction n as [|n IH]; intros j streams c streams' c' Hc Hl; cbn [clone_streams] in Hl.
  { injection Hl as <- <-. split; [done|]. split; [done|]. split; [done|]. intros x Hx. lia. }
  apply bind_ok_inv in Hl as ([h c1] & Hm & Hl).
  destruct (make_well (K := K) _ _ _ _ _ _ _ _ _ Hn Hc Hm) as [Hc1 _].
  destruct (IH _ _ _ _ _ Hc1 Hl) as (Hc' & Hq & Hlow & Hx). split; [done|]. split; [|split].
  - intros q Hne. rewrite Hq by done. apply lookup_insert_ne. auto.
  - intros x Hlt. rewrite Hlow by lia. apply lookup_insert_ne. intros ->%Hinj. lia.
  - intros x Hr. destruct (decide (x = j)) as [->|Hne]; [|apply Hx; lia].
    exists h. rewrite Hlow by lia. split; [apply lookup_insert_eq|]. eapply pooled_made; [exact Hn|exact Hc|exact Hm].
Qed.

(** The prototype of the proxy handlers. *)
Definition plain (p : proxy_handler.t A) : Prop := forall s,
  exists raw, connection.buffer_ (src_of s p) = RWB (Some raw) false 0 0 0 0 /\ raw_size raw < 2 ^ 31.

Lemma copy_connection_ok c raw c' : connection.buffer_ c = RWB (Some raw) false 0 0 0 0 -> raw_size raw < 2 ^ 31 ->
  copy_connection c = Ok c' -> wf (connection.buffer_ c').
Proof.
  intros Eb Hr Hc. unfold copy_connection in Hc. apply bind_ok_inv in Hc as (b & Hb & [= <-]). simpl.
  rewrite Eb in Hb. unfold rwb.copy in Hb. simpl in Hb. injection Hb as <-.
  apply reset_wf. constructor; unfold raw_of, raw_size in *; simpl; rewrite ?length_replicate; try lia; [done|].
  by apply Forall_replicate.
Qed.

(** A handler of the pool, and where its events are. *)
Definition made_at (l : layout) (x : nat) (p : proxy_handler.t A) : Prop :=
  resting p /\ event.event_ p.(client_event_) = client_event_at l x /\ event.event_ p.(server_event_) = server_event_at l x.

Lemma copy_ok l x prototype heap p heap' : layout_ok l -> plain prototype ->
  proxy_handler.copy (client_event_at l x) (server_event_at l x) prototype heap = Ok (p, heap') -> made_at l x p.
Proof.
  intros Hl Hp Hc. unfold proxy_handler.copy in Hc. apply bind_ok_inv in Hc as (c1 & H1' & Hc).
  apply bind_ok_inv in Hc as (c2 & H2' & Hc). destruct (pipeline_data_queue.copy _ heap). injection Hc as <- <-.
  destruct (Hp REQUEST_LINE) as (r1 & E1 & B1), (Hp RESPONSE_LINE) as (r2 & E2 & B2).
  split; [|done]. split; [by intros []|]. split; [|apply (lo_events _ Hl)].
  intros []; [by eapply (copy_connection_ok (client_data_ prototype))|by eapply (copy_connection_ok (server_data_ prototype))].
Qed.

Lemma copy_proxies_ok l prototype (n : nat) : layout_ok l -> plain prototype ->
  forall j proxies heap proxies' heap',
  copy_proxies n j l prototype proxies heap = Ok (proxies', heap') ->
  (forall x, (x < j)%nat -> proxies' !! proxy_at l x = proxies !! proxy_at l x) /\
  (forall x, (j <= x < j + n)%nat -> exists p, proxies' !! proxy_at l x = Some p) /\
  forall this p, proxies' !! this = Some p -> proxies !! this = Some p \/
    exists x, (j <= x)%nat /\ this = proxy_at l x /\ made_at l x p.
Proof.
  intros Hl Hp. induction n as [|n IH]; intros j proxies heap proxies' heap' Hc; cbn [copy_proxies] in Hc.
  { injection Hc as <- <-. split; [done|]. split; [intros; lia|]. auto. }
  apply bind_ok_inv in Hc as ([p1 heap1] & H1' & Hc). apply copy_ok in H1'; [|done..].
  destruct (IH _ _ _ _ _ Hc) as (Hlow & Hx & Hall). split; [|split].
  - intros x Hlt. rewrite Hlow by lia. apply lookup_insert_ne. intros ->%(lo_proxy _ Hl). lia.
  - intros x Hr. destruct (decide (x = j)) as [->|Hne]; [|apply Hx; lia].
    exists p1. rewrite Hlow by lia. apply lookup_insert_eq.
  - intros this p Hthis. destruct (Hall _ _ Hthis) as [Hins|(x & Hx1 & Hx2 & Hx3)]; [|right; exists x; split; [lia|done]].
    apply lookup_insert_Some in Hins as [[<- <-]|[_ Hins]]; [right; by exists j|by left].
Qed.

End pools.

(** * The server *)

(** A setting that fits an [int] as well. *)
Definition fits (config : contents) (section name : list Z) : Prop := forall v n,
  setting config section name = Ok v -> read_unsigned v = Ok n -> n < 2 ^ 31.

(** A setting read as an [int] that is not negative. *)
Definition natural (config : contents) (section name : list Z) : Prop := forall v n,
  setting config section name = Ok v -> read_int v = Ok n -> 0 <= n.

(** Sizes that the buffers can have. *)
Record limits_ok (config : contents) : Prop := {
  li_buffer : fits config (str "proxy") (str "input-buffer-size");
  li_uri : fits config (str "http-parser") (str "max-URI-length");
  li_headers : fits config (str "http-parser") (str "max-num-headers");
  li_name : natural config (str "http-parser") (str "max-header-name-length");
  li_value : natural config (str "http-parser") (str "max-header-value-length")
}.

(** The sizes of the two streams' messages. *)
Definition main_sizes (uri name value : Z) (ln : line) : sizes :=
  match ln with
  | REQUEST_LINE => Sizes max_method_length uri max_version_length name value
  | RESPONSE_LINE => Sizes max_version_length uri 50 name value
  end.

Lemma cache_ok_lines uri name value ln ln' c :
  cache_ok (main_sizes uri name value ln) c -> cache_ok (main_sizes uri name value ln') c.
Proof. intros Hc. eapply Forall_impl; [exact Hc|]. intros h [Hn Hv]. by constructor; destruct ln, ln'. Qed.

Lemma fold_digits_nonneg b ds : 0 <= b -> Forall (fun d => 0 <= d) ds ->
  forall v, 0 <= v -> 0 <= fold_left (fun v d => b * v + d) ds v.
Proof. intros Hb. induction 1 as [|d ds Hd _ IH]; intros v Hv; [done|]. simpl. apply IH. nia. Qed.

Lemma digits_value_nonneg ds : Forall (fun d => 0 <= d) ds -> 0 <= Printf.value 10 ds.
Proof. intros Hds. by apply fold_digits_nonneg. Qed.

Lemma leading_digits_nonneg s : Forall (fun d => 0 <= d) (leading_digits s).
Proof.
  induction s as [|c s IH]; [constructor|]. cbn [leading_digits]. destruct (is_digit c) eqn:E; [|constructor].
  constructor; [|done]. unfold is_digit in E. breflect. lia.
Qed.

Lemma extract_int_range lo hi s n : lo <= 0 <= hi -> extract_int lo hi s = Some n -> lo <= n <= hi.
Proof.
  intros Hlo He. unfold extract_int in He. set (s' := match find_if _ s with Some k => _ | None => _ end) in He.
  destruct (if c_at s' 0 =? 45 then _ else _) as [neg s2].
  pose proof (digits_value_nonneg _ (leading_digits_nonneg s2)) as Hv.
  destruct (leading_digits s2) as [|d ds]; [done|]. set (v := Printf.value 10 (d :: ds)) in *.
  destruct (Z.eqb_spec lo 0) as [->|Hne].
  - destruct (Z.ltb_spec hi v); [done|]. destruct neg; injection He as <-; [|lia].
    pose proof (Z.mod_pos_bound (- v) (hi + 1)). lia.
  - destruct ((lo <=? _) && _) eqn:E; [|done]. injection He as <-. breflect. lia.
Qed.

Lemma read_unsigned_range v n : read_unsigned v = Ok n -> 0 <= n < 2 ^ 32.
Proof.
  intros Hr. unfold read_unsigned in Hr. apply bind_ok_inv in Hr as (s & _ & Hr).
  destruct (extract_int _ _ s) eqn:E; [injection Hr as ->|done]. apply extract_int_range in E; lia.
Qed.

Lemma read_int_range v n : read_int v = Ok n -> - 2 ^ 31 <= n < 2 ^ 31.
Proof.
  intros Hr. unfold read_int in Hr. apply bind_ok_inv in Hr as (s & _ & Hr).
  destruct (extract_int _ _ s) eqn:E; [injection Hr as ->|done]. apply extract_int_range in E; lia.
Qed.

Section main.
Context {K A : Type} `{NetLaws K A}.
Variable resolver : list Z -> A.
Variable from_string : list Z -> option A.
Variable unset_port : Z.
Variable unset_members : unset.
Variable localtime : nat -> log_record.tm.

(** The pools of the server are as it needs them. *)
Lemma pools_made rules zs (n : nat) l k heap headers log streams :
  layout_ok l -> Z.of_nat n < 2 ^ 32 -> cache_ok (zs REQUEST_LINE) headers ->
  (forall x, (x < n)%nat -> exists h, streams !! request_at l x = Some h /\
    pooled (K := K) (A := A) rules None localtime zs REQUEST_LINE h) ->
  (forall x, (x < n)%nat -> exists h, streams !! response_at l x = Some h /\
    pooled (K := K) (A := A) rules None localtime zs RESPONSE_LINE h) ->
  pools_ok rules None localtime zs
    (Env K A k heap headers log [] streams (pool_at n (request_at l)) (pool_at n (response_at l)) (pool_at n (proxy_at l))).
Proof.
  intros Hl Hn Hc Hreq Hresp. constructor; simpl; try (by apply make_bounded); try done.
  - rewrite !free_made. apply NoDup_app. split; [apply NoDup_map; [apply Hl|apply NoDup_seq]|]. split.
    + intros q (x & <- & _)%list_elem_of_In%in_map_iff (y & E & _)%list_elem_of_In%in_map_iff.
      by apply (lo_streams _ Hl x y).
    + apply NoDup_map; [apply Hl|apply NoDup_seq].
  - rewrite free_made. apply NoDup_map; [apply Hl|apply NoDup_seq].
  - intros q (x & Hx & ->)%in_pool. auto.
  - intros q (x & Hx & ->)%in_pool. auto.
Qed.

(** What [make_server] leaves. *)
Lemma make_server_ok l k headers log config s rules pool_size name value :
  layout_ok l -> config_bytes config -> limits_ok config ->
  headers = cache.make pool_size name value -> 0 <= name < 2 ^ 31 -> 0 <= value < 2 ^ 31 ->
  make_server resolver from_string unset_port unset_members l k headers log config = Ok (s, rules) ->
  rules_ok rules /\ s.(server_env).(env_kernel) = k /\
  (forall this p, s.(server_proxies) !! this = Some p -> exists x, made_at l x p) /\
  exists uri, started rules None localtime (main_sizes uri name value) s.
Proof.
  intros Hl Hb [Lb Lu Lh _ _] -> Hname Hvalue Hm. unfold make_server in Hm.
  do 3 (apply bind_ok_inv in Hm as (? & _ & Hm)). do 2 (apply bind_ok_inv in Hm as (? & _ & Hm)).
  apply bind_ok_inv in Hm as (? & _ & Hm). apply bind_ok_inv in Hm as (max & Hmax%read_unsigned_range & Hm).
  apply bind_ok_inv in Hm as (v & Hs & Hm). apply bind_ok_inv in Hm as (buffer & Hbuf & Hm).
  pose proof (Lb _ _ Hs Hbuf) as Hb1. apply read_unsigned_range in Hbuf.
  do 4 (apply bind_ok_inv in Hm as (? & _ & Hm)).
  destruct (proxy_handler.make _ _ buffer _ ∅) as [prototype heap] eqn:Ep.
  apply bind_ok_inv in Hm as ([proxies heap1] & Hp & Hm). apply bind_ok_inv in Hm as (rules' & Hr & Hm).
  apply bind_ok_inv in Hm as (vu & Hsu & Hm). apply bind_ok_inv in Hm as (uri & Hu & Hm).
  apply bind_ok_inv in Hm as (vh & Hsh & Hm). apply bind_ok_inv in Hm as (nh & Hh & Hm).
  do 4 (apply bind_ok_inv in Hm as (? & _ & Hm)).
  pose proof (Lu _ _ Hsu Hu) as Hu1. pose proof (Lh _ _ Hsh Hh) as Hh1. apply read_unsigned_range in Hu, Hh.
  apply bind_ok_inv in Hm as ([h1 c1] & M1 & Hm). apply bind_ok_inv in Hm as ([h2 c2] & M2 & Hm).
  apply bind_ok_inv in Hm as ([streams1 c3] & S1 & Hm). apply bind_ok_inv in Hm as ([streams2 c4] & S2 & Hm).
  injection Hm as <- <-. set (zs := main_sizes uri name value).
  assert (forall ln, sizes_ok (zs ln) nh) as Hn by (intros []; repeat split; simpl; lia || done).
  assert (cache_ok (zs REQUEST_LINE) (cache.make pool_size name value)) as C0.
  { apply Forall_replicate. constructor; by apply stored_kept, stored_make. }
  destruct (make_well (K := K) (zs REQUEST_LINE) _ _ _ _ _ _ _ _ (Hn REQUEST_LINE) C0 M1) as [C1 _].
  destruct (make_well (K := K) (zs RESPONSE_LINE) _ _ _ _ _ _ _ _ (Hn RESPONSE_LINE)
    (cache_ok_lines _ _ _ _ RESPONSE_LINE _ C1) M2) as [C2 _].
  apply (cache_ok_lines _ _ _ _ REQUEST_LINE) in C2.
  destruct (clone_streams_ok (K := K) rules' None localtime zs REQUEST_LINE _ _ _ _ _ _ _ (lo_request _ Hl) (Hn REQUEST_LINE)
    _ _ _ _ _ C2 S1) as (C3 & _ & _ & R1). apply (cache_ok_lines _ _ _ _ RESPONSE_LINE) in C3.
  destruct (clone_streams_ok (K := K) rules' None localtime zs RESPONSE_LINE _ _ _ _ _ _ _ (lo_response _ Hl) (Hn RESPONSE_LINE)
    _ _ _ _ _ C3 S2) as (C4 & Q2 & _ & R2). apply (cache_ok_lines _ _ _ _ REQUEST_LINE) in C4.
  assert (plain prototype) as Hplain.
  { unfold proxy_handler.make in Ep. destruct (pipeline_data_queue.make ∅). injection Ep as <- _.
    assert (raw_size (replicate (Z.to_nat buffer) 0) < 2 ^ 31) as Hsz by (unfold raw_size; rewrite length_replicate; lia).
    intros []; (eexists; split; [reflexivity|exact Hsz]). }
  destruct (copy_proxies_ok l prototype (Z.to_nat max) Hl Hplain _ _ _ _ _ Hp) as (_ & P1 & P2).
  assert (forall this p, proxies !! this = Some p -> exists i, this = proxy_at l i /\ made_at l i p) as P3.
  { intros this p Hthis. destruct (P2 _ _ Hthis) as [[]%lookup_empty_Some|(i & _ & Hx & Hx2)]. by exists i. }
  split; [by eapply build_host_rules_ok|]. split; [done|].
  split; [intros this p Hthis; destruct (P3 _ _ Hthis) as (i & _ & Hx); by exists i|].
  exists uri. constructor; simpl.
  - apply pools_made; [done|lia|exact C4| |].
    + intros i Hx. destruct (R1 i ltac:(lia)) as (h & Hh0 & Hh2). exists h. split; [|exact Hh2].
      rewrite Q2; [exact Hh0|]. intros y. apply (lo_streams _ Hl).
    + intros i Hx. apply R2. lia.
  - intros this p Hthis. destruct (P3 _ _ Hthis) as (i & _ & Hx). apply Hx.
  - intros this (i & Hx & ->)%in_pool. destruct (P1 i ltac:(lia)) as [p Hp1]. by exists p.
  - intros this1 p1 this2 p2 a Hne Hp1 Hp2.
    destruct (P3 _ _ Hp1) as (i & Ex & _ & Ec1 & Es1), (P3 _ _ Hp2) as (y & Ey & _ & Ec2 & Es2).
    assert (i <> y) as Hxy by congruence. unfold owns. rewrite Ec1, Es1, Ec2, Es2.
    intros [->| ->] [E|E].
    + by apply Hxy, (lo_client _ Hl).
    + by apply (lo_events _ Hl) in E.
    + symmetry in E. by apply (lo_events _ Hl) in E.
    + by apply Hxy, (lo_server _ Hl).
Qed.

Lemma started_kernel rules pp zs (s : server K A) k :
  started rules pp localtime zs s ->
  started rules pp localtime zs (Server K A (with_kernel k s.(server_env)) s.(server_proxies)).
Proof. intros [[] Hp Hf He]. by constructor. Qed.

Lemma u32_natural n : 0 <= n < 2 ^ 31 -> 0 <= u32 n < 2 ^ 31.
Proof. intros Hn. by rewrite u32_small by lia. Qed.

Lemma parsed_bytes `{lexical} file b config : (forall f, file = Some f -> bytes_ok f) ->
  parse_file file [] = Ok (b, config) -> config_bytes config.
Proof.
  intros Hf Hp. destruct file as [f|]; [|injection Hp as _ <-; constructor].
  eapply parse_file_bytes; [by apply Hf|exact Hp].
Qed.

(** What [main] leaves when it comes to the dispatch loop. *)
Lemma main_ok `{lexical} l sys k file b config s rules ev :
  (forall f, file = Some f -> bytes_ok f) -> parse_file file [] = Ok (b, config) -> limits_ok config -> layout_ok l ->
  main resolver from_string unset_port unset_members l sys k config = Ok (Serves s rules ev) ->
  rules_ok rules /\
  (exists uri name value, started rules None localtime (main_sizes uri name value) s) /\
  event.event_ ev = new_connection_event_at l /\ event.p_event_handler_ ev = Some (new_connection_handler_at l) /\
  (forall this p, s.(server_proxies) !! this = Some p -> not (owns p (event.event_ ev))) /\
  awaits s.(server_env).(env_kernel) ev (event.fd_ ev) (Z.lor EV_READ EV_WRITE).
Proof.
  intros Hfile Hp Hlim Hl Hm. unfold main in Hm.
  apply bind_ok_inv in Hm as (v0 & _ & Hm). apply bind_ok_inv in Hm as (pool_size & _ & Hm).
  apply bind_ok_inv in Hm as (v1 & Hs1 & Hm). apply bind_ok_inv in Hm as (name & Hn & Hm).
  apply bind_ok_inv in Hm as (v2 & Hs2 & Hm). apply bind_ok_inv in Hm as (value & Hv & Hm).
  pose proof (li_name _ Hlim _ _ Hs1 Hn) as Hn0. pose proof (li_value _ Hlim _ _ Hs2 Hv) as Hv0.
  apply read_int_range in Hn, Hv.
  do 9 (apply bind_ok_inv in Hm as (? & _ & Hm)).
  pose proof (socket_fresh (K := K) (A := A) k) as Hfresh. destruct (sys_socket k) as [k1 fd].
  destruct (Z.eqb_spec fd (-1)) as [|Hfd]; [done|]. destruct (negb (bind_done sys)); [done|].
  destruct (negb (listen_done sys)); [done|]. apply bind_ok_inv in Hm as (? & _ & Hm).
  destruct (negb _); [done|]. apply bind_ok_inv in Hm as (? & _ & Hm). destruct (negb _); [done|].
  apply bind_ok_inv in Hm as ([s1 rules1] & Hmk & Hm). simpl in Hm.
  apply bind_ok_inv in Hm as (k2 & Hadd & [= <- <- <-]).
  destruct (make_server_ok _ _ _ _ _ _ _ _ _ _ Hl (parsed_bytes _ _ _ Hfile Hp) Hlim eq_refl
    (u32_natural name ltac:(lia)) (u32_natural value ltac:(lia)) Hmk) as (Hr & Hk & Hat & uri & Hst).
  split; [done|]. split; [eexists uri, _, _; by apply started_kernel|]. split; [done|]. split; [done|]. split.
  - intros this p Hthis. destruct (Hat _ _ Hthis) as (i & _ & E1 & E2). unfold owns. rewrite E1, E2.
    destruct (lo_listen _ Hl i) as [H1' H2']. by intros [?|?].
  - pose proof (yields_ok _ _ _ _ (add_event_yields _ _ _ _) Hadd) as [_ Hw]. simpl in Hw |- *. apply Hw.
    apply (ss_open _ _ _ _ (event_set_streams _ _ _ _)). by apply (Hfresh _ _ eq_refl).
Qed.

End main.

(** ** The property *)

(** C12: the program sets up a server that the other properties hold of.
    Whatever bytes the configuration file holds, when the sizes it gives fit
    an [int] and the program comes to its dispatch loop, the host rules are
    made of bytes, the pools are full of handlers that do not overlap and were
    never used, so that every later state of the server is one of those
    [server_forwards] and [no_lost_wakeup] speak of; and the listening socket
    has its event pending, which belongs to the handler of new connections and
    to no proxy handler. *)
Theorem startup_serves {K A : Type} `{NetLaws K A, lexical} (resolver : list Z -> A)
    (from_string : list Z -> option A) (unset_port : Z) (unset_members : unset) (localtime : nat -> log_record.tm)
    l sys (k : K) file b config s rules ev :
  (forall f, file = Some f -> bytes_ok f) -> parse_file file [] = Ok (b, config) -> limits_ok config -> layout_ok l ->
  main resolver from_string unset_port unset_members l sys k config = Ok (Serves s rules ev) ->
  rules_ok rules /\
  (exists zs, (zs REQUEST_LINE).(n_name) = (zs RESPONSE_LINE).(n_name) /\
     (zs REQUEST_LINE).(n_value) = (zs RESPONSE_LINE).(n_value) /\
     (forall ln, postprocessor_ok (zs ln) None) /\ forall bs, serves rules None localtime zs bs s) /\
  event.p_event_handler_ ev = Some (new_connection_handler_at l) /\
  (forall this p, s.(server_proxies) !! this = Some p -> not (owns p (event.event_ ev))) /\
  event_comes (A := A) s.(server_env).(env_kernel) ev (event.fd_ ev) EV_READ.
Proof.
  intros Hfile Hp Hlim Hl Hm.
  destruct (main_ok _ _ _ _ localtime _ _ _ _ _ _ _ _ _ Hfile Hp Hlim Hl Hm)
    as (Hr & (uri & name & value & Hst) & _ & Hh & Ho & Hw).
  split; [done|]. split; [|split; [done|split; [done|by eexists]]].
  exists (main_sizes uri name value). split; [done|]. split; [done|]. split; [done|].
  intros bs. by constructor.
Qed.

(** ** At a concrete input *)

(** A file like the example that comes with the program, with two hosts and
    small pools. *)
Definition sample_file : list Z :=
  concat (map (fun l => l ++ [LF])
   [str "# The following is used by the example"; str "proxy.run-as-daemon=no"; [];
    str "proxy.listen-address[0].address=127.0.0.1"; str "proxy.listen-address[0].port=8080";
    str "proxy.default-forward-address.address=10.0.0.9"; str "proxy.default-forward-address.port=80";
    str "access-log.enable=yes"; str "access-log.location=/var/log/sfrp";
    str "virtual-host[0].host-name=a.org"; str "virtual-host[0].default-forward-url=http://b.org:81/x";
    str "virtual-host[0].preserve-host=no"; str "virtual-host[0].rule[0].match-path=/img";
    str "virtual-host[0].rule[0].forward-url=http://c.org/";
    str "virtual-host[1].host-name=d.org"; str "virtual-host[1].default-forward-url=http://e.org/";
    str "virtual-host[1].preserve-host=true"; str "http-parser.max-URI-length=40";
    str "http-parser.max-num-headers=5"; str "http-parser.max-header-name-length=20";
    str "http-parser.max-header-value-length=30"; str "http-parser.header-pool-size=20";
    str "proxy.input-buffer-size=30"; str "proxy.user=www"; str "proxy.client-timeout-milliseconds=30000";
    str "proxy.server-timeout-milliseconds=10000"; str "proxy.max-connections=2"]).

Definition sample_layout : layout :=
  Layout (fun i => 5 * Z.of_nat i) (fun i => 5 * Z.of_nat i + 1) (fun i => 5 * Z.of_nat i + 2)
    (fun i => 5 * Z.of_nat i + 3) (fun i => 5 * Z.of_nat i + 4) (-1) (-2).

Definition sample_system : system :=
  System (fun _ => 9) true true (fun user => if bool_decide (user = str "www") then Some 33 else None) true true.

Definition start_host : host := Host ∅ [3] [] [] [] ∅ ∅.

Definition sample_parsed : res (bool * contents) := parse_file (Some sample_file) [].

Definition sample_contents : contents := match sample_parsed with Ok (_, c) => c | _ => [] end.

Definition sample_main : res (Startup.outcome (K := host) (A := list Z)) :=
  main (fun name => name) Some 0 (Unset http.NONE 0 header_writer.START_LINE_TOKEN1) sample_layout sample_system
    start_host sample_contents.

Lemma sample_limits_ok : limits_ok sample_contents.
Proof.
  constructor; intros v n Hs Hr; vm_compute in Hs; injection Hs as <-; vm_compute in Hr; injection Hr as <-; done.
Qed.

Lemma sample_layout_ok : layout_ok sample_layout.
Proof. constructor; simpl; try lia; intros i j; lia. Qed.

Lemma sample_file_ok f : Some sample_file = Some f -> bytes_ok f.
Proof. intros [= <-]. apply (bool_decide_unpack _). vm_compute. exact I. Qed.

Lemma startup_serves_witness :
  sample_parsed = Ok (true, sample_contents) /\
  exists s rules ev, sample_main = Ok (Serves s rules ev) /\
    dom rules = {[str "a.org"; str "d.org"]} /\ rules_ok rules /\
    (forall bs, exists zs, serves rules None (fun _ => sample_date) zs bs s) /\
    (exists p, s.(server_proxies) !! 7 = Some p /\ not (owns p (event.event_ ev))) /\
    event_comes (A := list Z) s.(server_env).(env_kernel) ev 3 EV_READ.
Proof.
  assert (sample_parsed = Ok (true, sample_contents)) as Hp by (vm_compute; reflexivity).
  split; [exact Hp|].
  assert (match sample_main with
          | Ok (Serves s rules ev) => dom rules = {[str "a.org"; str "d.org"]} /\ event.fd_ ev = 3 /\
              is_Some (s.(server_proxies) !! 7)
          | _ => False
          end) as Hm by (vm_compute; split; [reflexivity|split; [reflexivity|eexists; reflexivity]]).
  destruct sample_main as [[code|s rules ev]| | |] eqn:E; try contradiction.
  destruct Hm as (Hdom & Hfd & p & Hpx). exists s, rules, ev. split; [reflexivity|]. split; [exact Hdom|].
  unfold sample_main in E.
  destruct (startup_serves (K := host) (A := list Z) (fun name => name) Some 0 (Unset http.NONE 0 header_writer.START_LINE_TOKEN1)
    (fun _ => sample_date) sample_layout sample_system start_host (Some sample_file) true sample_contents s rules ev
    sample_file_ok Hp sample_limits_ok sample_layout_ok E) as (Hr & (zs & _ & _ & _ & Hs) & _ & Ho & Hw).
  split; [exact Hr|]. split; [intros bs; exists zs; apply Hs|]. split; [exists p; split; [exact Hpx|by eapply Ho]|].
  rewrite Hfd in Hw. exact Hw.
Defined.
