(* ===== verification/StreamEnds.v ===== *)
(** What a header parser and a body parser leave when they answer that they
    are done with the buffer: the buffer is written to its end, so that the
    connection reads the next one, or the start line has grown, which it can
    do only so often. *)
From stdpp Require Import list gmap.
From S2P Require Import Prelude Status ReadWriteBuffer HttpLex Interfaces HeaderStore HeaderHandler.
From S2P Require Import HeaderParser HandlerSafety BodyParsers BodyRun BodyWindow Os Connection HeaderWriter.
From S2P Require Import Printf Pipeline Url StreamHandler StreamBody StreamFrame StreamSafety.

(** * Headers *)

(** The statuses of a header that goes on in the next buffer. *)
Definition unfinished (st : http.STATUS) : Prop :=
  match st with
  | http.COMPLETE | http.INVALID | http.DATAOVERFLOW => False
  | _ => True
  end.

Section headers.
Import header_parser.

Variable b : read_write_buffer.
Hypothesis Hwf : wf b.

Lemma parse_token_grows o cur delims st o' cur' :
  0 <= cur -> 0 <= o <= b.(working_length_) ->
  parse_token b o o cur MAX_FIELD_LENGTH delims = Ok (st, o', cur') ->
  cur <= cur' /\ o <= o' <= b.(working_length_) /\
  (unfinished st -> o' = b.(working_length_) /\ cur' = cur + (b.(working_length_) - o) /\ cur' < MAX_FIELD_LENGTH).
Proof.
  intros Hcur Ho Hp. destruct (parse_token_any b Hwf o cur delims Hcur Ho) as (st2 & o2 & cur2 & E & Ho2 & _ & _).
  rewrite Hp in E. injection E as <- <- <-.
  rewrite parse_token_scan in Hp by (done || unfold MAX_FIELD_LENGTH; lia).
  fold (HeaderParser.rest b o) in Hp. destruct (scan_token delims _ cur (HeaderParser.rest b o)) as [[st1 k] cur1] eqn:Es.
  injection Hp as -> <- ->. apply scan_token_result in Es. pose proof (rest_length b Hwf o Ho) as Hl.
  destruct Es as [pre ? ? ? ? ? ?|pre ? ? ? ? ? ? ?|? ?|pre ? ? ? ?]; try (pose proof (raw_size_nonneg pre));
    (split; [lia|]); (split; [done|]); try done. intros _. simpl. unfold raw_size in *. lia.
Qed.

Lemma parse_equal_unfinished o cur cs st o' cur' :
  0 <= cur -> 0 <= o <= b.(working_length_) ->
  parse_equal b o o cur MAX_FIELD_LENGTH cs = Ok (st, o', cur') -> unfinished st ->
  o' = b.(working_length_).
Proof.
  intros Hcur Ho Hp Hst. rewrite parse_equal_scan in Hp by (done || unfold MAX_FIELD_LENGTH; lia).
  fold (HeaderParser.rest b o) in Hp. pose proof (rest_length b Hwf o Ho) as Hl. revert Hl Hp. generalize (HeaderParser.rest b o).
  intros l Hl Hp. destruct (scan_spaces MAX_FIELD_LENGTH cur l) as [[st1 k] cur1] eqn:Es.
  injection Hp as -> <- _. assert (unfinished st -> st = http.INCOMPLETE /\ k = length l) as Hk.
  { clear Hl Ho Hst. revert cur Hcur k cur1 Es. induction l as [|c l IH]; intros cur Hcur k cur1 Es; cbn [scan_spaces] in Es.
    - destruct (_ <=? _); by injection Es as <- <- _.
    - destruct (_ <=? _); [by injection Es as <- _ _|]. destruct (negb _); [by injection Es as <- _ _|].
      destruct (scan_spaces _ _ l) as [[st2 k2] cur2] eqn:E2. injection Es as <- <- _. intros Hu.
      destruct (IH (cur + 1) ltac:(lia) _ _ E2 Hu) as [-> ->]. done. }
  destruct (Hk Hst) as [-> ->]. unfold raw_size in Hl. simpl. lia.
Qed.

Lemma parse_char_unfinished o c st o' :
  0 <= o <= b.(working_length_) -> parse_char b o o c = Ok (st, o') -> unfinished st ->
  o' = o /\ o = b.(working_length_).
Proof.
  intros Ho Hp Hst. rewrite parse_char_spec in Hp by (done || lia). fold (HeaderParser.rest b o) in Hp.
  pose proof (rest_length b Hwf o Ho) as Hl. destruct (HeaderParser.rest b o) as [|d l]; [|].
  - injection Hp as <- <-. unfold raw_size in Hl. simpl in Hl. lia.
  - destruct (d =? c); by injection Hp as <- _.
Qed.

End headers.

(** How much of the start line the parser can still take. *)
Section start_line.
Import header_parser.
Context {R : Type} `{i_header_receiver R}.

Definition tokens_left (p : header_parser.t) : Z :=
  match p.(status_line_state_) with
  | STATUS_LINE_TOKEN_1 => 3
  | STATUS_LINE_TOKEN_2 => 2
  | STATUS_LINE_TOKEN_3 => 1
  | STATUS_LINE_LF => 0
  end.

Definition line_left (p : header_parser.t) : Z :=
  (MAX_FIELD_LENGTH + 1) * tokens_left p + Z.max 0 (MAX_FIELD_LENGTH - p.(current_length_)).

Lemma line_left_bounds p : 0 <= p.(current_length_) -> 0 <= line_left p < 4 * (MAX_FIELD_LENGTH + 1).
Proof. unfold line_left, tokens_left, MAX_FIELD_LENGTH. destruct (status_line_state_ p); lia. Qed.

Lemma next_state_left d p p' : next_status_line_state d p = Ok p' -> p.(status_line_state_) <> STATUS_LINE_LF ->
  line_left p' < line_left p /\ p'.(current_state_) = p.(current_state_) /\ p'.(current_length_) = 0.
Proof.
  unfold next_status_line_state, line_left, tokens_left, MAX_FIELD_LENGTH. intros Hn Hs.
  destruct (status_line_state_ p) eqn:E; try done.
  - apply bind_ok_inv in Hn as (? & _ & [= <-]). cbn [set_status_line_state status_line_state_ current_length_ current_state_]. (split; [lia|done]).
  - destruct (d =? CR); [injection Hn as <-; cbn [set_status_line_state status_line_state_ current_length_ current_state_]; (split; [lia|done])|]. destruct (d =? SP); [|done]. injection Hn as <-. cbn [set_status_line_state status_line_state_ current_length_ current_state_]. (split; [lia|done]).
  - apply bind_ok_inv in Hn as (? & _ & [= <-]). cbn [set_status_line_state status_line_state_ current_length_ current_state_]. (split; [lia|done]).
Qed.

Lemma with_length_left n p : p.(current_length_) <= n ->
  line_left (with_length n p) <= line_left p /\
  (p.(current_length_) < n < MAX_FIELD_LENGTH -> line_left (with_length n p) < line_left p).
Proof. unfold line_left, tokens_left, MAX_FIELD_LENGTH. cbn [with_length status_line_state_ current_length_]. destruct (status_line_state_ p); lia. Qed.

Lemma status_token_left b p r o option st o' p' r' :
  wf b -> 0 <= p.(current_length_) -> 0 <= o <= b.(working_length_) -> p.(status_line_state_) <> STATUS_LINE_LF ->
  parse_status_token p r b o o option = Ok (st, o', p', r') ->
  line_left p' <= line_left p /\ p'.(current_state_) = p.(current_state_) /\ 0 <= p'.(current_length_) /\
  o <= o' <= b.(working_length_) /\
  (unfinished st \/ st = http.COMPLETE -> o < b.(working_length_) -> line_left p' < line_left p).
Proof.
  intros Hwf Hcur Ho Hs Hp. unfold parse_status_token in Hp. apply bind_ok_inv in Hp as (delims & _ & Hp).
  apply bind_ok_inv in Hp as ([[st1 o1] cur] & Ht & Hp).
  destruct (parse_token_grows b Hwf _ _ _ _ _ _ Hcur Ho Ht) as (Hc & Ho1 & Hun).
  destruct (with_length_left cur p Hc) as [Hle Hlt].
  destruct st1; try (injection Hp as <- <- <- <-; simpl; repeat split; try done || lia; intros []; done).
  - apply bind_ok_inv in Hp as ([r1 st2] & _ & Hp). destruct (refuses st2) eqn:Er; cbn [negb] in Hp.
    + injection Hp as <- <- <- <-. simpl. repeat split; try done || lia.
      intros Hst. exfalso. by destruct st2, Hst.
    + apply bind_ok_inv in Hp as (d & _ & Hp). apply bind_ok_inv in Hp as (p2 & Hn & [= <- <- <- <-]).
      apply next_state_left in Hn as (Hn & En & El); [|done]. simpl in En. repeat split; try done || lia.
  - apply bind_ok_inv in Hp as ([r1 st2] & _ & Hp). injection Hp as <- <- <- <-. simpl.
    destruct (Hun I) as (-> & -> & Hm). repeat split; try done || lia.
Qed.

Lemma status_line_left fuel : forall b p r o option st o' p' r',
  wf b -> 0 <= p.(current_length_) -> 0 <= o <= b.(working_length_) ->
  status_line_loop fuel p r b o option = Ok (st, o', p', r') ->
  line_left p' <= line_left p /\ p'.(current_state_) = p.(current_state_) /\ 0 <= p'.(current_length_) /\
  o <= o' <= b.(working_length_) /\ (unfinished st -> o < b.(working_length_) -> line_left p' < line_left p).
Proof.
  induction fuel as [|fuel IH]; intros b p r o option st o' p' r' Hwf Hcur Ho Hp; [done|].
  cbn [status_line_loop] in Hp.
  assert (p.(status_line_state_) = STATUS_LINE_LF \/ p.(status_line_state_) <> STATUS_LINE_LF)
    as [Es|Es] by (destruct (status_line_state_ p); auto).
  - rewrite Es in Hp. apply bind_ok_inv in Hp as ([st1 o1] & Hc & [= <- <- <- <-]).
    destruct (parse_char_any b Hwf o LF Ho) as (st2 & o2 & E & Ho2 & _). rewrite Hc in E. injection E as <- <-.
    repeat split; try done || lia. intros Hu Hlt.
    destruct (parse_char_unfinished b Hwf _ _ _ _ Ho Hc Hu). lia.
  - assert (forall m k, (match p.(status_line_state_) with STATUS_LINE_LF => m | _ => k end
            : res (http.STATUS * Z * header_parser.t * R)) = k) as Hm by (intros; by destruct (status_line_state_ p)).
    rewrite Hm in Hp. clear Hm. apply bind_ok_inv in Hp as ([[[st1 o1] p1] r1] & Ht & Hp).
    destruct (status_token_left _ _ _ _ _ _ _ _ _ Hwf Hcur Ho Es Ht) as (Hle & Ecs & Hc1 & Ho1 & Hlt).
    destruct (bool_decide_reflect (st1 = http.COMPLETE)) as [->|Hne].
    + apply IH in Hp as (Hle2 & Ecs2 & Hc2 & Ho2 & _); [|done|done|lia]. repeat split; try lia || congruence.
      intros _ Ho3. specialize (Hlt (or_intror eq_refl) Ho3). lia.
    + injection Hp as <- <- <- <-. repeat split; try done || lia. auto.
Qed.

(** The receiver does not leave the end of the fields open. *)
Hypothesis Hend : forall r r' st, end_fields r = Ok (r', st) -> not (unfinished st).

(** A header that goes on: everything was taken, or the start line is read
    again from its beginning, with less left for the parser to take. *)
Definition goes_on (b : read_write_buffer) (p : header_parser.t) (o : Z)
    (x : http.STATUS * bool * Z * read_write_buffer * header_parser.t * R) : Prop :=
  let '(st, fin, o', b', p', r') := x in
  (b'.(working_length_) = b.(working_length_) /\ b'.(write_end_position_) = b.(write_end_position_)) /\
  (unfinished st \/ st = http.COMPLETE /\ fin = false ->
   o' = b.(working_length_) \/
   o' = o /\ p.(current_state_) = STATUS_LINE /\ p'.(current_state_) = STATUS_LINE /\
   line_left p' < line_left p).

(** What the scanners leave. *)
Ltac char_any Hc :=
  match goal with Ho : _ <= ?o <= _, Hwf : wf ?b |- _ =>
    match type of Hc with parse_char _ _ _ ?c = _ =>
      let E := fresh in let Ho2 := fresh in
      destruct (parse_char_any b Hwf o c Ho) as (? & ? & E & Ho2 & _); rewrite Hc in E; injection E as <- <-;
      pose proof (parse_char_unfinished b Hwf _ _ _ _ Ho Hc) as Hun
    end
  end.

Ltac token_any Ht :=
  match goal with Ho : _ <= ?o <= _, Hwf : wf ?b, Hcur : 0 <= current_length_ _ |- _ =>
    let Hc := fresh in let Ho2 := fresh in
    destruct (parse_token_grows b Hwf _ _ _ _ _ _ Hcur Ho Ht) as (Hc & Ho2 & Hun)
  end.

Ltac spaces_any Ht :=
  match goal with Ho : _ <= ?o <= _, Hwf : wf ?b, Hcur : 0 <= current_length_ _ |- _ =>
    match type of Ht with parse_equal _ _ _ _ _ ?cs = _ =>
      let E := fresh in let Ho2 := fresh in
      destruct (parse_equal_any b Hwf o _ cs Hcur Ho) as (? & ? & ? & E & Ho2 & ? & _);
      rewrite Ht in E; injection E as <- <- <-;
      pose proof (parse_equal_unfinished b Hwf _ _ _ _ _ _ Hcur Ho Ht) as Hun
    end
  end.

(** The loop stops in the buffer, or at its end. *)
Ltac stops :=
  match goal with Hp : Ok _ = Ok _ |- _ =>
    injection Hp as <-; split; [done|]; intros [?|[? ?]];
      [left; match goal with Hun : unfinished _ -> _, Hu : unfinished _ |- _ => specialize (Hun Hu); lia end|done]
  end.

Lemma headers_loop_goes_on fuel : forall b p r o option x,
  wf b -> 0 <= p.(current_length_) -> 0 <= o <= b.(working_length_) ->
  (p.(current_state_) = STATUS_LINE -> o = b.(process_position_)) ->
  headers_loop fuel p r b o option = Ok x -> goes_on b p o x.
Proof.
  induction fuel as [|fuel IH]; intros b p r o option x Hwf Hcur Ho Hpos Hp; [done|].
  assert (forall p2 r2 o2, p2.(current_state_) <> STATUS_LINE -> 0 <= p2.(current_length_) ->
    o <= o2 <= b.(working_length_) -> headers_loop fuel p2 r2 b o2 option = Ok x -> goes_on b p o x) as Hnext.
  { intros p2 r2 o2 Hs2 Hc2 Ho2 Hx. apply IH in Hx; [|done..|lia|done].
    destruct x as [[[[[st fin] o'] b'] p'] r']. destruct Hx as [Hw Hg]. split; [done|]. intros Hu.
    destruct (Hg Hu) as [?|(_ & E & _)]; [by left|done]. }
  cbn [headers_loop] in Hp. destruct (current_state_ p) eqn:Es.
  - unfold parse_status_line, rwb.get_working_length, rwb.get_process_position in Hp. rewrite <- (Hpos eq_refl) in Hp.
    apply bind_ok_inv in Hp as ([[[st1 b1] p1] r1] & Hst & Hp).
    apply bind_ok_inv in Hst as ([[[st2 o2] p2] r2] & Hl & Hst).
    destruct (status_line_left _ _ _ _ _ _ _ _ _ _ Hwf Hcur Ho Hl) as (Hle & Ecs & Hc2 & Ho2 & Hlt).
    rewrite set_process_position_ok, bind_ok in Hst by lia.
    rewrite set_write_position_ok, bind_ok in Hst by (simpl; lia). injection Hst as -> Eb -> ->.
    assert (b1 = parsed_to o2 b) as -> by (by rewrite <- Eb). clear Eb.
    destruct (bool_decide_reflect (st1 = http.COMPLETE)) as [->|Hne].
    + apply IH in Hp; [|apply parsed_to_wf; [done|lia]|simpl; lia|simpl; lia|done].
      destruct x as [[[[[st fin] o'] b'] p'] r']. destruct Hp as [Hw Hg]. split; [done|]. intros Hu.
      destruct (Hg Hu) as [?|(_ & E & _)]; [by left|done].
    + injection Hp as <-. split; [done|]. intros [Hu|[? _]]; [|done].
      destruct (decide (o = b.(working_length_))) as [|Hne2]; [by left|right].
      split; [done|]. split; [done|]. split; [congruence|]. apply Hlt; [done|lia].
  - apply bind_ok_inv in Hp as ([st o1] & Hc & Hp). char_any Hc.
    destruct st; try stops; refine (Hnext _ _ _ _ _ _ Hp); simpl; try done || lia.
  - apply bind_ok_inv in Hp as ([st o1] & Hc & Hp). char_any Hc. destruct st; try stops.
    apply bind_ok_inv in Hp as ([r1 st1] & He & [= <-]). split; [done|]. apply Hend in He.
    intros [Hu|[-> Hf]]; [done|]. by rewrite bool_decide_eq_true_2 in Hf.
  - apply bind_ok_inv in Hp as ([[st o1] cur] & Ht & Hp). token_any Ht. destruct st; try stops.
    + apply bind_ok_inv in Hp as ([r1 fw] & _ & Hp). destruct (overflows fw); [stops|].
      refine (Hnext _ _ _ _ _ _ Hp); simpl; try done || lia.
    + apply bind_ok_inv in Hp as ([r1 fw] & _ & [= <-]). split; [done|]. left. by apply Hun.
  - apply bind_ok_inv in Hp as ([[st o1] cur] & Ht & Hp). spaces_any Ht. destruct st; try stops.
    refine (Hnext _ _ _ _ _ _ Hp); simpl; try done || lia.
  - apply bind_ok_inv in Hp as ([st o1] & Hc & Hp). char_any Hc. destruct st; try stops.
    refine (Hnext _ _ _ _ _ _ Hp); simpl; try done || lia.
  - apply bind_ok_inv in Hp as ([[st o1] cur] & Ht & Hp). spaces_any Ht. destruct st; try stops.
    refine (Hnext _ _ _ _ _ _ Hp); simpl; try done || lia. by destruct (o1 =? o).
  - apply bind_ok_inv in Hp as ([[st o1] cur] & Ht & Hp). token_any Ht. destruct st; try stops.
    + apply bind_ok_inv in Hp as ([r1 fw] & _ & Hp). destruct (overflows fw); [stops|].
      refine (Hnext _ _ _ _ _ _ Hp); simpl; try done || lia.
    + apply bind_ok_inv in Hp as ([r1 fw] & _ & [= <-]). split; [done|]. left. by apply Hun.
Qed.

Lemma parse_headers_goes_on b p r option st b' p' r' :
  wf b -> 0 <= p.(current_length_) -> parse_headers p r b option = Ok (st, b', p', r') ->
  b'.(write_end_position_) = b.(write_end_position_) /\ b'.(write_position_) = b'.(process_position_) /\
  (unfinished st -> rwb.fully_written b' = true \/
    b'.(process_position_) = b.(process_position_) /\ p.(current_state_) = STATUS_LINE /\
    p'.(current_state_) = STATUS_LINE /\ line_left p' < line_left p).
Proof.
  intros Hwf Hcur Hp. pose proof Hwf as []. unfold parse_headers in Hp.
  apply bind_ok_inv in Hp as ([[[[[st1 fin] o] b1] p1] r1] & Hl & Hp).
  apply headers_loop_goes_on in Hl as [[Hw He] Hg]; [|done..].
  apply bind_ok_inv in Hp as (b2 & H1' & Hp). apply bind_ok_inv in Hp as (b3 & H2' & [= Est <- <- <-]).
  unfold rwb.set_process_position in H1'. apply bind_ok_inv in H1' as (? & _ & [= <-]).
  unfold rwb.set_write_position in H2'. apply bind_ok_inv in H2' as (? & _ & [= <-]). simpl.
  split; [done|]. split; [done|]. intros Hu.
  assert (unfinished st1 \/ st1 = http.COMPLETE /\ fin = false) as Hu1.
  { destruct (bool_decide_reflect (st1 = http.COMPLETE)) as [->|Hne]; [|left; simpl in Est; by rewrite Est].
    destruct fin; cbn [andb negb] in Est; [by rewrite <- Est in Hu|by right]. }
  destruct (Hg Hu1) as [->|(-> & Hs)]; [left|right; done].
  unfold rwb.fully_written. simpl. rewrite Hw. lia.
Qed.

End start_line.

(** * Bodies *)

Lemma set_process_inv n b b' : rwb.set_process_position n b = Ok b' -> n <= b.(working_length_) /\
  b' = RWB b.(p_buffer_) b.(b_using_static_buffer_) b.(working_length_) n b.(write_end_position_) b.(write_position_).
Proof.
  unfold rwb.set_process_position, CHECK_CONDITION. destruct (n <=? _) eqn:E; [|done]. intros [= <-].
  split; [by apply Z.leb_le|done].
Qed.

Lemma set_write_inv n b b' : rwb.set_write_position n b = Ok b' -> n <= b.(working_length_) /\
  b' = RWB b.(p_buffer_) b.(b_using_static_buffer_) b.(working_length_) b.(process_position_) b.(write_end_position_) n.
Proof.
  unfold rwb.set_write_position, CHECK_CONDITION. destruct (n <=? _) eqn:E; [|done]. intros [= <-].
  split; [by apply Z.leb_le|done].
Qed.

Lemma set_write_end_inv n b b' : rwb.set_write_end_position n b = Ok b' -> n <= b.(working_length_) /\
  b' = RWB b.(p_buffer_) b.(b_using_static_buffer_) b.(working_length_) b.(process_position_) n b.(write_position_).
Proof.
  unfold rwb.set_write_end_position, CHECK_CONDITION. destruct (n <=? _) eqn:E; [|done]. intros [= <-].
  split; [by apply Z.leb_le|done].
Qed.

(** Where the positions of a buffer are, for a parser that is given it. *)
Record moves_on (b b' : read_write_buffer) : Prop := {
  mv_wf : wf b';
  mv_working : b'.(working_length_) = b.(working_length_);
  mv_process : b.(process_position_) <= b'.(process_position_)
}.

Lemma moves_on_refl b : wf b -> moves_on b b.
Proof. intros Hb. by constructor. Qed.

Lemma moves_on_trans b1 b2 b3 : moves_on b1 b2 -> moves_on b2 b3 -> moves_on b1 b3.
Proof. intros [] []. constructor; [done|congruence|lia]. Qed.

(** The end of the window is that of the buffer, or it is behind. *)
Definition loose (b : read_write_buffer) : Prop :=
  b.(working_length_) <= b.(write_end_position_) \/ b.(write_end_position_) <= b.(process_position_).

Lemma parse_n_length_left b cur max st b' cur' :
  wf b -> 0 <= max < 2 ^ 32 -> parse_n_length_buffer b cur max = Ok (st, b', cur') ->
  moves_on b b' /\ b'.(write_position_) = b.(write_position_) /\
  (st = http.INCOMPLETE -> b'.(process_position_) = b.(working_length_)).
Proof.
  intros Hwf Hmax Hp. pose proof Hwf as []. unfold parse_n_length_buffer in Hp.
  unfold rwb.get_working_length, rwb.get_process_position in Hp.
  rewrite (u32_small (working_length_ b - process_position_ b)) in Hp by lia.
  set (add := if working_length_ b - process_position_ b <? u32 (max - cur) then working_length_ b - process_position_ b
              else u32 (max - cur)) in Hp.
  assert (0 <= add <= working_length_ b - process_position_ b) as Hadd.
  { unfold add. pose proof (u32_bound (max - cur)). destruct (Z.ltb_spec (working_length_ b - process_position_ b) (u32 (max - cur))); lia. }
  apply bind_ok_inv in Hp as (? & _ & Hp). apply bind_ok_inv in Hp as (b1 & Hs & [= Est <- <-]).
  rewrite u32_small in Hs by lia. apply set_process_inv in Hs as [_ ->]. simpl.
  split; [constructor; simpl; [apply wf_positions; lia || done|done|lia]|]. split; [done|].
  intros ->. destruct (Z.ltb_spec (u32 (cur + add)) max) as [Hlt|]; [|done].
  unfold add in Hlt |- *. destruct (Z.ltb_spec (working_length_ b - process_position_ b) (u32 (max - cur))); [lia|].
  exfalso. unfold u32 in Hlt. rewrite Z.add_mod_idemp_r in Hlt by done.
  replace (cur + (max - cur)) with max in Hlt by lia. rewrite Z.mod_small in Hlt by lia. lia.
Qed.

(** The three setters, undone. *)
Ltac set_inv :=
  repeat match goal with
  | H : rwb.set_process_position _ _ = Ok _ |- _ => apply set_process_inv in H as [? ->]
  | H : rwb.set_write_position _ _ = Ok _ |- _ => apply set_write_inv in H as [? ->]
  | H : rwb.set_write_end_position _ _ = Ok _ |- _ => apply set_write_end_inv in H as [? ->]
  end;
  unfold rwb.get_process_position, rwb.get_working_length in *;
  cbn [p_buffer_ b_using_static_buffer_ working_length_ process_position_ write_end_position_ write_position_] in *.

Ltac moved :=
  constructor; [apply wf_positions; simpl; lia || done|done|simpl; lia].

Section chunks.
Import chunked_body_parser.

(** A parser that was given this buffer before. *)
Definition ck_aligned (p : t) (b : read_write_buffer) : Prop :=
  0 <= p.(chunksize_) < 2 ^ 32 /\ loose b /\
  match p.(state_) with
  | PARSE_CHUNKSIZE_LF | PARSE_TRAILER_CR | PARSE_TRAILER_LF => b.(process_position_) <= b.(write_position_)
  | FORWARD_INCOMPLETE_CHUNK => b.(working_length_) <= b.(write_end_position_)
  | FORWARD_COMPLETE_CHUNK => b.(process_position_) <= b.(write_end_position_)
  | _ => True
  end.

Lemma parse_chunk_size_left n : forall p b st b' p', wf b -> 0 <= p.(chunksize_) < 2 ^ 32 ->
  parse_chunk_size_loop n p b = Ok (st, b', p') ->
  moves_on b b' /\ 0 <= p'.(chunksize_) < 2 ^ 32 /\ p'.(state_) = p.(state_) /\
  (st = http.INCOMPLETE -> b'.(process_position_) = b.(working_length_)).
Proof.
  induction n as [|n IH]; intros p b st b' p' Hwf Hr Hp; pose proof Hwf as [];
    cbn [parse_chunk_size_loop] in Hp; unfold rwb.get_working_length, rwb.get_process_position in Hp;
    (destruct (Z.leb_spec (working_length_ b) (process_position_ b));
      [injection Hp as <- <- <-; split; [by apply moves_on_refl|split; [done|split; [done|intros _; lia]]]|]); [done|].
  apply bind_ok_inv in Hp as (ch & _ & Hp). rewrite (u32_small (process_position_ b + 1)) in Hp by lia.
  assert (forall p2 b2 x, wf b -> 0 <= p2.(chunksize_) < 2 ^ 32 -> p2.(state_) = p.(state_) ->
    rwb.set_process_position (process_position_ b + 1) b = Ok b2 -> parse_chunk_size_loop n p2 b2 = Ok x ->
    moves_on b x.1.2 /\ 0 <= x.2.(chunksize_) < 2 ^ 32 /\ x.2.(state_) = p.(state_) /\
    (x.1.1 = http.INCOMPLETE -> x.1.2.(process_position_) = b.(working_length_))) as Hnext.
  { intros p2 b2 [[st2 b3] p3] _ Hr2 Es2 Hs Hx. apply set_process_inv in Hs as [Hle ->].
    apply IH in Hx as (Hm & Hr3 & Es3 & Hi); [|apply wf_positions; lia || done|done]. simpl in *.
    split; [eapply moves_on_trans; [|exact Hm]; moved|]. split; [done|]. split; [congruence|done]. }
  destruct (_ && _).
  { destruct (_ <=? _); [injection Hp as <- <- <-; split; [by apply moves_on_refl|done]|].
    apply bind_ok_inv in Hp as (b2 & Hs & Hp). exact (Hnext (with_size _ _ _ _) _ _ Hwf (u32_bound _) eq_refl Hs Hp). }
  destruct (_ && _).
  { apply bind_ok_inv in Hp as (b2 & Hs & Hp). exact (Hnext (with_size _ _ _ _) _ _ Hwf Hr eq_refl Hs Hp). }
  destruct (_ =? _).
  - apply bind_ok_inv in Hp as (b2 & Hs & [= <- <- <-]). set_inv. split; [moved|done].
  - injection Hp as <- <- <-. split; [by apply moves_on_refl|done].
Qed.

Lemma parse_char_process_left b c st b' : wf b -> parse_char_process b c = Ok (st, b') ->
  moves_on b b' /\ b'.(write_end_position_) = b.(write_end_position_) /\ b'.(write_position_) = b.(write_position_) /\
  (st <> http.COMPLETE -> b' = b) /\ (st = http.INCOMPLETE -> b.(working_length_) <= b.(process_position_)).
Proof.
  intros Hwf Hp. pose proof Hwf as []. unfold parse_char_process, rwb.get_working_length, rwb.get_process_position in Hp.
  destruct (Z.leb_spec (working_length_ b) (process_position_ b)).
  { injection Hp as <- <-. split; [by apply moves_on_refl|done]. }
  apply bind_ok_inv in Hp as (ch & _ & Hp). destruct (_ =? _).
  - apply bind_ok_inv in Hp as (b2 & Hs & [= <- <-]). rewrite u32_small in Hs by lia. set_inv. split; [moved|done].
  - injection Hp as <- <-. split; [by apply moves_on_refl|done].
Qed.

Context {R : Type} `{BodyReceiver R}.

Lemma set_body_left (r : R) b c r' b' st : receiver_ok r -> wf b -> set_body r b c = Ok (r', b', st) ->
  receiver_ok r' /\ moves_on b b' /\ b'.(process_position_) = b.(process_position_) /\
  b'.(write_end_position_) = b.(write_end_position_) /\ b.(write_position_) <= b'.(write_position_) /\
  (st = http.COMPLETE -> b.(write_end_position_) <= b'.(write_position_)).
Proof.
  intros Hok Hwf Hs. pose proof Hwf as [].
  destruct (yields_ok _ _ _ _ (set_body_yields r b c Hok Hwf) Hs) as (k & -> & Hk & _ & Hst & _ & Hok' & _).
  split; [done|]. simpl. split; [|split; [done|split; [done|split; [lia|]]]].
  - assert (b.(write_position_) + Z.of_nat k <= b.(working_length_)) as Hle.
    { unfold window, slice in Hk. rewrite length_take in Hk. lia. }
    constructor; [apply written_to_wf; [done|lia]|done|simpl; lia].
  - intros ->. destruct (Z.le_gt_cases b.(write_position_) b.(write_end_position_)) as [Hle|]; [|lia].
    rewrite (Hst eq_refl), window_length by done. lia.
Qed.

(** What a step leaves. *)
Definition ck_left (b : read_write_buffer) (x : outcome (R := R)) : Prop :=
  let '(o, b', p', r') := x in
  receiver_ok r' /\ moves_on b b' /\ ck_aligned p' b' /\ (o = Some http.INCOMPLETE -> rwb.fully_written b' = true).

Lemma fully b : b.(working_length_) <= b.(write_position_) -> rwb.fully_written b = true.
Proof. intros Hle. unfold rwb.fully_written. by apply Z.leb_le. Qed.

(** The steps, one by one. *)
Section steps.
Variables (p : t) (r : R) (b : read_write_buffer).
Hypothesis Hok : receiver_ok r.
Hypothesis Hwf : wf b.
Hypothesis Hr : 0 <= p.(chunksize_) < 2 ^ 32.
Hypothesis Hl : loose b.

Lemma loose_on b' : moves_on b b' -> b'.(write_end_position_) = b.(write_end_position_) -> loose b'.
Proof using Hl. intros [] E. unfold loose in *. rewrite E. lia. Qed.

Lemma chunksize_left x : p.(state_) = PARSE_CHUNKSIZE -> do_parse_chunksize p r b = Ok x -> ck_left b x.
Proof using Hok Hwf Hr.
  intros Es Hp. unfold do_parse_chunksize in Hp. apply bind_ok_inv in Hp as ([[st b1] p1] & Hc & Hp).
  destruct (parse_chunk_size_left _ _ _ _ _ _ Hwf Hr Hc) as (Hm & Hr1 & Es1 & Hi). pose proof (mv_wf _ _ Hm) as [].
  apply bind_ok_inv in Hp as (b2 & Hcl & Hp). unfold close_window in Hcl. apply bind_ok_inv in Hcl as (b3 & H1' & H2').
  set_inv. destruct Hm as [_ Hw Hpr]. assert (moves_on b (RWB (p_buffer_ b1) (b_using_static_buffer_ b1)
    (working_length_ b1) (process_position_ b1) (process_position_ b1) (process_position_ b1))) as Hm
    by (constructor; [apply wf_positions; lia || done|done|done]).
  destruct st; injection Hp as <-; (split; [done|]); (split; [done|]); (split; [split; [done|split; [by right|]]|]);
    simpl; rewrite ?Es1, ?Es; try done; try lia. intros _. apply fully. simpl. rewrite Hi; [lia|done].
Qed.

Lemma chunksize_lf_left x : p.(state_) = PARSE_CHUNKSIZE_LF -> b.(process_position_) <= b.(write_position_) ->
  do_parse_chunksize_lf p r b = Ok x -> ck_left b x.
Proof using Hok Hwf Hr Hl.
  intros Es Hs Hp. unfold do_parse_chunksize_lf in Hp. apply bind_ok_inv in Hp as ([st b1] & Hc & Hp).
  destruct (parse_char_process_left _ _ _ _ Hwf Hc) as (Hm & Ee & Ew & Hsame & Hi). pose proof (loose_on _ Hm Ee) as Hl1.
  destruct st; [|rewrite Hsame in * by done; injection Hp as <-; split; [done|split; [done|split]];
    [split; [done|split; [done|by rewrite Es]]|intros E; apply fully; specialize (Hi ltac:(congruence)); lia]..].
  apply bind_ok_inv in Hp as (r1 & Hr1 & [= <-]).
  destruct (set_chunk_size_total r _ Hok Hr) as (r2 & E & _ & Hok2 & _). rewrite Hr1 in E. injection E as <-.
  split; [done|]. split; [done|]. by split.
Qed.

Lemma trailer_left c next x : p.(state_) = PARSE_TRAILER_CR \/ p.(state_) = PARSE_TRAILER_LF ->
  next = PARSE_TRAILER_LF \/ next = FORWARD_TRAILER_CRLF -> b.(process_position_) <= b.(write_position_) ->
  do_parse_trailer c next p r b = Ok x -> ck_left b x.
Proof using Hok Hwf Hr Hl.
  intros Es Hn Hs Hp. unfold do_parse_trailer in Hp. apply bind_ok_inv in Hp as ([st b1] & Hc & Hp).
  destruct (parse_char_process_left _ _ _ _ Hwf Hc) as (Hm & Ee & Ew & Hsame & Hi). pose proof (loose_on _ Hm Ee) as Hl1.
  destruct st; [|rewrite Hsame in * by done; injection Hp as <-; split; [done|split; [done|split]];
    [split; [done|split; [done|by destruct Es as [-> | ->]]]|intros E; apply fully; specialize (Hi ltac:(congruence)); lia]..].
  apply bind_ok_inv in Hp as (b2 & H1' & [= <-]). destruct Hm as [[] Hw Hpr]. set_inv.
  split; [done|]. split; [constructor; [apply wf_positions; lia || done|done|done]|].
  split; [|done]. split; [done|]. split; [exact Hl1|]. destruct Hn as [-> | ->]; simpl; [lia|done].
Qed.

Lemma forward_chunksize_left x : do_forward_chunksize p r b = Ok x -> p.(state_) = FORWARD_CHUNKSIZE -> ck_left b x.
Proof using Hok Hwf Hr Hl.
  intros Hp Es. unfold do_forward_chunksize in Hp. apply bind_ok_inv in Hp as ([r1 st] & Hf & Hp).
  destruct (forward_chunk_size_total r Hok) as (r2 & put & st2 & E & _ & _ & _ & _ & Hok2 & _).
  rewrite Hf in E. injection E as <- <-. pose proof Hwf as [].
  assert (forall o, o <> Some http.INCOMPLETE -> ck_left b (o, b, p, r1)) as Hstay.
  { intros o Ho. split; [done|]. split; [by apply moves_on_refl|]. split; [|done]. split; [done|split; [done|by rewrite Es]]. }
  destruct st; try (injection Hp as <-; by apply Hstay). destruct (0 <? _).
  - injection Hp as <-. split; [done|]. split; [by apply moves_on_refl|done].
  - apply bind_ok_inv in Hp as (b2 & H1' & [= <-]). set_inv. split; [done|].
    split; [constructor; [apply wf_positions; lia || done|done|done]|]. split; [|done].
    split; [done|]. split; [exact Hl|]. simpl. lia.
Qed.

Lemma parse_chunk_left x : p.(state_) = PARSE_CHUNK -> do_parse_chunk p r b = Ok x -> ck_left b x.
Proof using Hok Hwf Hr.
  intros Es Hp. unfold do_parse_chunk in Hp. pose proof Hwf as [].
  apply bind_ok_inv in Hp as (b1 & H1' & Hp). apply bind_ok_inv in Hp as ([[st b2] cur] & Hn & Hp).
  apply bind_ok_inv in Hp as (b3 & H2' & Hp). set_inv.
  apply parse_n_length_left in Hn as ([[] Hw Hpr] & Ew & Hi); [|apply wf_positions; lia || done|done]. cbn in *.
  assert (moves_on b (RWB (p_buffer_ b2) (b_using_static_buffer_ b2) (working_length_ b2) (process_position_ b2)
    (process_position_ b2) (write_position_ b2))) as Hm by (constructor; [apply wf_positions; lia || done|done|done]).
  destruct st; injection Hp as <-; (split; [done|]); (split; [done|]); (split; [|done]);
    (split; [done|]); (split; [by right|]); simpl; rewrite ?Es; try done; try lia.
  rewrite (Hi eq_refl). lia.
Qed.

Lemma forward_incomplete_left x : p.(state_) = FORWARD_INCOMPLETE_CHUNK -> b.(working_length_) <= b.(write_end_position_) ->
  do_forward_incomplete p r b = Ok x -> ck_left b x.
Proof using Hok Hwf Hr Hl.
  intros Es Hs Hp. unfold do_forward_incomplete in Hp. apply bind_ok_inv in Hp as ([[r1 b1] st] & Hb & Hp).
  destruct (set_body_left _ _ _ _ _ _ Hok Hwf Hb) as (Hok1 & Hm & Ep & Ee & Hw & Hf).
  pose proof (loose_on _ Hm Ee) as Hl1. destruct Hm as [Hwf1 Hw1 Hp1]. pose proof Hwf1 as [].
  destruct st; try (injection Hp as <-; split; [done|]; split; [by constructor|]; split; [|done];
    split; [done|]; split; [done|]; rewrite Es, Ee; lia).
  apply bind_ok_inv in Hp as (b2 & H1' & [= <-]). set_inv. pose proof (Hf eq_refl). split; [done|].
  split; [constructor; [apply wf_positions; lia || done|done|done]|]. split; [split; [done|split; [by left|done]]|].
  intros _. apply fully. simpl. lia.
Qed.

Lemma forward_complete_left x : p.(state_) = FORWARD_COMPLETE_CHUNK -> b.(process_position_) <= b.(write_end_position_) ->
  do_forward_complete p r b = Ok x -> ck_left b x.
Proof using Hok Hwf Hr Hl.
  intros Es Hs Hp. unfold do_forward_complete in Hp. apply bind_ok_inv in Hp as ([[r1 b1] st] & Hb & Hp).
  destruct (set_body_left _ _ _ _ _ _ Hok Hwf Hb) as (Hok1 & Hm & Ep & Ee & Hw & Hf).
  pose proof (loose_on _ Hm Ee) as Hl1. destruct Hm as [Hwf1 Hw1 Hp1]. pose proof Hwf1 as [].
  destruct st; try (injection Hp as <-; split; [done|]; split; [by constructor|]; split; [|done];
    split; [done|]; split; [done|]; rewrite Es, Ee; lia).
  apply bind_ok_inv in Hp as (b2 & H1' & [= <-]). set_inv. pose proof (Hf eq_refl). split; [done|].
  split; [constructor; [apply wf_positions; lia || done|done|done]|]. split; [|done].
  split; [done|split; [by left|]]. simpl. lia.
Qed.

Lemma forward_trailer_left x : p.(state_) = FORWARD_TRAILER_CRLF -> do_forward_trailer p r b = Ok x -> ck_left b x.
Proof using Hok Hwf Hr Hl.
  intros Es Hp. unfold do_forward_trailer in Hp. apply bind_ok_inv in Hp as ([r1 st] & Hf & Hp).
  destruct (forward_chunk_trailer_total r Hok) as (r2 & put & st2 & E & _ & _ & _ & _ & Hok2).
  rewrite Hf in E. injection E as <- <-.
  assert (forall o p2 r2, receiver_ok r2 -> 0 <= p2.(chunksize_) < 2 ^ 32 ->
    p2.(state_) = FORWARD_TRAILER_CRLF \/ p2.(state_) = PARSE_CHUNKSIZE ->
    o <> Some http.INCOMPLETE -> ck_left b (o, b, p2, r2)) as Hstay.
  { intros o p2 r2 Hr2 Hrange Hs2 Ho. split; [done|]. split; [by apply moves_on_refl|]. split; [|done].
    split; [done|split; [done|]]. by destruct Hs2 as [-> | ->]. }
  destruct st; try (injection Hp as <-; apply Hstay; auto). destruct (_ =? 0).
  - apply bind_ok_inv in Hp as ([[r3 b3] st3] & Hb & [= <-]).
    assert (wf (rwb.make 0)) as Hwf0 by (apply make_wf; lia).
    destruct (set_body_left _ _ _ _ _ _ Hok2 Hwf0 Hb) as (Hok3 & _). apply Hstay; auto.
  - injection Hp as <-. apply Hstay; auto. simpl. lia.
Qed.

End steps.

Lemma step_left p (r : R) b x : receiver_ok r -> wf b -> ck_aligned p b -> parse_step p r b = Ok x -> ck_left b x.
Proof.
  intros Hok Hwf (Hr & Hl & Hs) Hp. unfold parse_step in Hp. destruct (state_ p) eqn:Es.
  - by eapply chunksize_left.
  - by eapply parse_chunk_left.
  - by eapply chunksize_lf_left.
  - by eapply forward_chunksize_left.
  - by eapply forward_incomplete_left.
  - by eapply forward_complete_left.
  - by eapply trailer_left; [..|exact Hp]; auto.
  - by eapply trailer_left; [..|exact Hp]; auto.
  - by eapply forward_trailer_left.
Qed.

Lemma chunks_left fuel : forall p (r : R) b st b' p' r', receiver_ok r -> wf b -> ck_aligned p b ->
  parse_loop fuel p r b = Ok (st, b', p', r') -> ck_left b (Some st, b', p', r').
Proof.
  induction fuel as [|fuel IH]; intros p r b st b' p' r' Hok Hwf Ha Hp; [done|]. cbn [parse_loop] in Hp.
  apply bind_ok_inv in Hp as ([[[o b1] p1] r1] & Hs & Hp). apply step_left in Hs as (Hok1 & Hm1 & Ha1 & Hf1); [|done..].
  destruct o as [st1|]; [injection Hp as <- <- <- <-; by split|].
  apply IH in Hp as (Hok2 & Hm2 & Ha2 & Hf2); [|done|apply Hm1|done].
  split; [done|]. split; [by eapply moves_on_trans|done].
Qed.

(** ** The other encodings *)

Definition cl_aligned (p : content_length_body_parser.t) (b : read_write_buffer) : Prop :=
  0 <= p.(content_length_body_parser.content_length_) < 2 ^ 32 /\ loose b /\
  (p.(content_length_body_parser.parse_state_) = content_length_body_parser.INCOMPLETE_MESSAGE_BODY_FORWARD ->
   b.(working_length_) <= b.(write_end_position_)).

Import content_length_body_parser.

Definition cl_left (b : read_write_buffer) (x : result (R := R)) : Prop :=
  let '(st, b', p', r') := x in
  receiver_ok r' /\ moves_on b b' /\ cl_aligned p' b' /\ (st = http.INCOMPLETE -> rwb.fully_written b' = true).

Lemma cl_loop_left fuel : forall p (r : R) b x, receiver_ok r -> wf b -> cl_aligned p b ->
  parse_loop fuel p r b = Ok x -> cl_left b x.
Proof.
  induction fuel as [|fuel IH]; intros p r b x Hok Hwf (Hr & Hl & Hs) Hp; [done|]. cbn [parse_loop] in Hp.
  pose proof Hwf as []. destruct (parse_state_ p) eqn:Es.
  - apply bind_ok_inv in Hp as (b1 & H1' & Hp). apply bind_ok_inv in Hp as ([[st b2] cur] & Hn & Hp).
    apply bind_ok_inv in Hp as (b3 & H2' & Hp). set_inv.
    apply parse_n_length_left in Hn as ([[] Hw Hpr] & Ew & Hi); [|apply wf_positions; lia || done|done]. cbn in *.
    set (b4 := RWB _ _ _ _ _ _) in Hp.
    assert (moves_on b b4) as Hm by (constructor; [apply wf_positions; lia || done|done|done]).
    assert (loose b4) as Hl4 by by right.
    assert (forall p2, 0 <= p2.(content_length_) < 2 ^ 32 -> (p2.(parse_state_) = INCOMPLETE_MESSAGE_BODY_FORWARD ->
      st = http.INCOMPLETE) -> parse_loop fuel p2 r b4 = Ok x -> cl_left b x) as Hnext.
    { intros p2 Hr2 Hs2 Hx. apply IH in Hx; [|done|apply Hm|].
      - destruct x as [[[st2 b5] p5] r5]. destruct Hx as (Hok5 & Hm5 & Hx). split; [done|].
        split; [by eapply moves_on_trans|done].
      - split; [done|]. split; [done|]. intros E. unfold b4. simpl. rewrite (Hi (Hs2 E)). lia. }
    destruct st; (eapply Hnext; [| |exact Hp]); simpl; rewrite ?Es; done.
  - unfold forward_incomplete in Hp. apply bind_ok_inv in Hp as ([[r1 b1] st] & Hb & Hp).
    destruct (set_body_left _ _ _ _ _ _ Hok Hwf Hb) as (Hok1 & Hm & Ep & Ee & Hw & Hf).
    assert (loose b1) as Hl1 by (unfold loose in *; rewrite Ep, Ee, (mv_working _ _ Hm); exact Hl).
    specialize (Hs eq_refl). assert (forall st2 p2, 0 <= p2.(content_length_) < 2 ^ 32 ->
      (st2 = http.INCOMPLETE -> st = http.COMPLETE) -> cl_left b (st2, b1, p2, r1)) as Hends.
    { intros st2 p2 Hr2 Hst. split; [done|]. split; [done|]. split.
      - split; [done|]. split; [done|]. intros _. by rewrite Ee, (mv_working _ _ Hm).
      - intros E. apply fully. rewrite (mv_working _ _ Hm). pose proof (Hf (Hst E)). lia. }
    destruct st; injection Hp as <-; by apply Hends.
  - unfold forward_complete in Hp. apply bind_ok_inv in Hp as ([[r1 b1] st] & Hb & Hp).
    destruct (set_body_left _ _ _ _ _ _ Hok Hwf Hb) as (Hok1 & Hm & Ep & Ee & Hw & Hf).
    assert (loose b1) as Hl1 by (unfold loose in *; rewrite Ep, Ee, (mv_working _ _ Hm); exact Hl).
    assert (forall st2, st2 <> http.INCOMPLETE -> cl_left b (st2, b1, p, r1)) as Hends.
    { intros st2 Hst. split; [done|]. split; [done|]. split; [|done].
      split; [done|]. split; [done|]. by rewrite Es. }
    destruct st; injection Hp as <-; by apply Hends.
Qed.

(** What the parser of a body and its buffer are like between two calls.  The
    window of a body that ends with the connection reaches to the end of the
    buffer, but in two cases that a caller may allow: [inverted], the window
    ends before it begins, which only happens when the receiver never takes
    all of such a window; and [lost], it may end anywhere. *)
Definition body_aligned (inverted lost : Prop) (p : body_parser.t) (b : read_write_buffer) : Prop :=
  loose b /\
  match p.(body_parser.body_encoding_) with
  | http.NONE => True
  | http.CHUNKED => ck_aligned p.(body_parser.chunked_) b
  | http.CONTENT_LENGTH => cl_aligned p.(body_parser.content_length_) b
  | http.END_CONNECTION =>
      b.(working_length_) <= b.(write_end_position_) \/
      inverted /\ b.(write_end_position_) < b.(write_position_) \/ lost
  end.

Lemma body_aligned_just_read inverted lost p b b' :
  wf b' -> body_aligned inverted lost p b -> just_read b' -> body_aligned inverted lost p b'.
Proof.
  intros [] [_ Ha] (Ep & Ew & Ee). assert (loose b') as Hl by (left; lia). split; [done|].
  destruct (body_parser.body_encoding_ p); [done| |left; lia|].
  - destruct Ha as (? & _ & _). split; [done|]. split; [done|].
    destruct (chunked_body_parser.state_ (body_parser.chunked_ p)); done || lia.
  - destruct Ha as (? & _ & _). split; [done|]. split; [done|]. intros _. lia.
Qed.

Lemma body_left inverted lost p (r : R) b st b' p' r' :
  (inverted -> p.(body_parser.body_encoding_) = http.END_CONNECTION -> b.(write_end_position_) < b.(write_position_) ->
   forall c r' b', set_body r b c <> Ok (r', b', http.COMPLETE)) ->
  receiver_ok r -> wf b -> body_aligned inverted lost p b -> body_parser.parse_body p r b = Ok (st, b', p', r') ->
  moves_on b b' /\ body_aligned inverted lost p' b' /\
  p'.(body_parser.body_encoding_) = p.(body_parser.body_encoding_) /\
  (st = http.INCOMPLETE -> rwb.fully_written b' = true \/
     lost /\ p.(body_parser.body_encoding_) = http.END_CONNECTION).
Proof.
  intros Hfull Hok Hwf [Hl Ha] Hp. unfold body_parser.parse_body in Hp.
  destruct (body_parser.body_encoding_ p) eqn:Ee.
  - injection Hp as <- <- <- <-. split; [by apply moves_on_refl|]. split; [by split; rewrite ?Ee|done].
  - apply bind_ok_inv in Hp as ([[[st1 b1] c] r1] & Hc & [= <- <- <- <-]).
    apply chunks_left in Hc as (_ & Hm & Ha1 & Hf); [|done..]. split; [done|]. split.
    + split; [apply Ha1|]. exact Ha1.
    + split; [done|]. intros ->. by left; apply Hf.
  - apply bind_ok_inv in Hp as ([[st1 b1] r1] & Hc & [= <- <- <- <-]).
    unfold end_connection_body_parser.parse_end_connection_body in Hc.
    apply bind_ok_inv in Hc as ([[r2 b2] st2] & Hb & [= <- <- <-]).
    destruct (set_body_left _ _ _ _ _ _ Hok Hwf Hb) as (_ & Hm & Ep & E2 & Hw & Hf). pose proof Hm as [_ Hwk _].
    split; [done|]. split; [split; [unfold loose in *; rewrite Ep, E2, Hwk; exact Hl|]|split; [done|]].
    + rewrite Ee, E2, Hwk. destruct Ha as [?|[[? ?]|?]]; [by left|right; left; split; [done|lia]|right; by right].
    + intros Hst. assert (st2 = http.COMPLETE) as -> by by destruct st2. pose proof (Hf eq_refl).
      destruct Ha as [?|[[Hi Hlt]|?]]; [left; apply fully; lia|by destruct (Hfull Hi eq_refl Hlt _ _ _ Hb)|by right].
  - apply bind_ok_inv in Hp as ([[[st1 b1] c] r1] & Hc & [= <- <- <- <-]).
    apply cl_loop_left in Hc as (_ & Hm & Ha1 & Hf); [|done..]. split; [done|]. split.
    + split; [apply Ha1|]. exact Ha1.
    + split; [done|]. intros ->. by left; apply Hf.
Qed.

End chunks.
