(* ===== verification/StreamProgress.v ===== *)
(** What a call of a stream handler leaves when it answers that it is done
    with the buffer: the buffer is written to its end, so that the connection
    reads the next one, or the call has come closer to that, or it is the
    response stream and nothing was asked that the bytes could answer. *)
From stdpp Require Import list gmap.
From S2P Require Import Prelude Status ReadWriteBuffer HttpLex Interfaces HeaderStore HeaderHandler.
From S2P Require Import HeaderParser HandlerSafety BodyParsers BodyRun BodyWindow Os Connection HeaderWriter.
From S2P Require Import Printf Pipeline Url StreamHandler StreamBody StreamFrame StreamSafety StreamEnds.

Import proxy_stream_interface http_proxy_stream_handler.

Section progress.
Context {K : Type} `{OsLaws K} {A : Type}.
Abbreviation state := (t A * world K)%type.

(** ** What the parsers rely on *)

Lemma set_body_full (s : state) b c s' b' :
  receiver_ok s -> wf b -> Interfaces.set_body s b c = Ok (s', b', http.COMPLETE) ->
  b.(write_position_) <= b.(write_end_position_).
Proof.
  intros [Hd _ _] Hwf Hb. destruct (Z.le_gt_cases b.(write_position_) b.(write_end_position_)) as [|Hlt]; [done|].
  exfalso. destruct s as [h w]. simpl in Hb. unfold set_body in Hb.
  apply bind_ok_inv in Hb as ([[w1 b1] st] & Hf & Hb). apply bind_ok_inv in Hb as (st' & Hc & [= _ _ ->]).
  destruct (yields_ok _ _ _ _ (forward_inverted _ _ Hd Hwf ltac:(lia)) Hf) as (_ & -> & _). done.
Qed.

Lemma end_fields_ends (s s' : header_handler.state) st : end_fields s = Ok (s', st) -> not (unfinished st).
Proof.
  simpl. unfold header_handler.lift, header_handler.end_fields. intros He.
  apply bind_ok_inv in He as ([h st2] & He & [= _ ->]). destruct (header_handler.stream_type_ _).
  - apply bind_ok_inv in He as (v & _ & He). destruct v; injection He as _ <-; simpl; auto.
    destruct (header_handler.have_host_header_ _); simpl; auto.
  - injection He as _ <-. simpl. auto.
Qed.

(** ** Between two turns *)

(** The handler writes the error response, or has written it last. *)
Definition refusing (h : t A) : Prop := h.(writer_message_) = Some ERROR_MESSAGE.

(** The buffer is one that the handler was given before, or that was just
    read. *)
Definition aligned (h : t A) (b : read_write_buffer) : Prop :=
  loose b /\
  match h.(message_state_) with
  | START_MESSAGE | PARSE_HEADER => True
  | PUSH_HEADER =>
      b.(working_length_) <= b.(write_end_position_) \/ b.(write_end_position_) < b.(write_position_) \/ refusing h
  | PARSE_BODY => body_aligned True (refusing h) h.(body_parser_) b
  end.

Lemma just_read_loose b : just_read b -> loose b.
Proof. intros (_ & _ & E). left. lia. Qed.

Lemma aligned_just_read h b b' : wf b' -> aligned h b -> just_read b' -> aligned h b'.
Proof.
  intros Hwf [_ Ha] Hb. pose proof (just_read_loose _ Hb) as Hl. split; [done|]. destruct Hb as (Ep & Ew & Ee).
  destruct (message_state_ h); [done|done|left; lia|]. by eapply body_aligned_just_read.
Qed.

(** What the calls that are still to come can do at most: bytes to parse,
    each of them twice, and the start line, whose current token the parser
    can only lengthen. *)
Definition line_bound : Z := 4 * (MAX_FIELD_LENGTH + 1).

Definition phase (h : t A) (w : world K) : Z :=
  match h.(message_state_) with
  | START_MESSAGE | PARSE_HEADER => 0
  | PUSH_HEADER => if denied h w then 0 else 1
  | PARSE_BODY => 1
  end.

Definition potential (h : t A) (w : world K) (b : read_write_buffer) : Z :=
  line_bound * (2 * (b.(working_length_) - b.(process_position_)) + phase h w) + line_left h.(header_parser_).

Lemma phase_bounds h w : 0 <= phase h w <= 1.
Proof. unfold phase. destruct (message_state_ h), (denied h w); lia. Qed.

Lemma potential_nonneg h w b : wf b -> 0 <= header_parser.current_length_ h.(header_parser_) -> 0 <= potential h w b.
Proof.
  intros [] Hl. pose proof (phase_bounds h w). pose proof (line_left_bounds _ Hl).
  unfold potential, line_bound, MAX_FIELD_LENGTH in *. lia.
Qed.

(** A byte, or a phase, is worth more than a start line. *)
Lemma potential_falls h w b h' w' b' :
  0 <= header_parser.current_length_ h.(header_parser_) -> 0 <= header_parser.current_length_ h'.(header_parser_) ->
  2 * (b'.(working_length_) - b'.(process_position_)) + phase h' w' <
    2 * (b.(working_length_) - b.(process_position_)) + phase h w ->
  potential h' w' b' < potential h w b.
Proof.
  intros Hl Hl' Hlt. pose proof (line_left_bounds _ Hl). pose proof (line_left_bounds _ Hl').
  unfold potential, line_bound, MAX_FIELD_LENGTH in *. nia.
Qed.

(** ** A response without a request *)

(** The response stream is at the start of a message and no request is
    complete: it answers that it is done with a buffer that it has left as it
    is. *)
Definition unasked (h : t A) (w : world K) : Prop :=
  h.(message_state_) = START_MESSAGE /\ h.(stream_type_) = RESPONSE /\
  set_current_pipeline_data h w = Ok (false, h, w).

(** A body that ends with the connection, after an error response that was
    not refused to the end: its request was marked no longer when the last
    byte of the response was written. *)
Definition unmarked (h : t A) : Prop :=
  h.(message_state_) = PARSE_BODY /\ refusing h /\
  body_parser.body_encoding_ h.(body_parser_) = http.END_CONNECTION.

(** ** The turns *)

(** What a status other than [COMPLETE] may be. *)
Definition answers (st : socketlib.STATUS) : Prop :=
  match st with
  | socketlib.INCOMPLETE | socketlib.SRC_CLOSED | socketlib.DEST_CLOSED | socketlib.DENY => True
  | _ => False
  end.

Definition turn_left (h : t A) (w : world K) (b : read_write_buffer) (x : outcome (K := K) (A := A)) : Prop :=
  let '(o, h', w', b') := x in
  aligned h' b' /\
  match o with
  | None => potential h' w' b' <= potential h w b
  | Some socketlib.COMPLETE => h'.(message_state_) <> PUSH_HEADER /\
      (rwb.fully_written b' = true \/ unasked h' w' \/ unmarked h' \/ potential h' w' b' < potential h w b)
  | Some st => answers st
  end.

Lemma set_current_not (h : t A) (w : world K) (h' : t A) w' :
  set_current_pipeline_data h w = Ok (false, h', w') -> h.(stream_type_) = RESPONSE ->
  w' = w /\ h' = with_current h'.(current_pipeline_data_) h /\ set_current_pipeline_data h' w = Ok (false, h', w).
Proof.
  unfold set_current_pipeline_data. intros Hs Et. rewrite Et in Hs.
  destruct (pipeline_data_queue.queue_empty (get_pipeline_data_queue w)) eqn:Ee.
  - injection Hs as <- <-. split; [done|]. split; [apply with_current_same|]. by rewrite Et.
  - apply bind_ok_inv in Hs as (p & Hp & Hs). apply bind_ok_inv in Hs as ([q d] & Hc & Hs).
    destruct (negb _) eqn:Ed.
    + injection Hs as <- <-. split; [done|]. split; [done|]. simpl. rewrite Et, Hp, bind_ok.
      change (with_current (Some p) (with_current (Some p) h)) with (with_current (Some p) h).
      by rewrite Hc, bind_ok, Ed.
    + by apply bind_ok_inv in Hs as (q' & _ & Hs).
Qed.

Lemma start_left h w b x : h.(message_state_) = START_MESSAGE -> loose b ->
  do_start_message h w b = Ok x -> turn_left h w b x.
Proof.
  intros Es Hl Ht. unfold do_start_message in Ht. apply bind_ok_inv in Ht as ([[set h1] w1] & Hc & Ht).
  pose proof (yields_ok _ _ _ _ (set_current_yields h w) Hc) as (_ & p & Eh).
  assert (message_state_ h1 = START_MESSAGE) as Es1 by by rewrite Eh.
  destruct set; cbn [negb] in Ht.
  - apply bind_ok_inv in Ht as ([q d] & Hd & Ht).
    assert (forall h2 w2 b2, x = (None, h2, w2, b2) -> message_state_ h2 = PARSE_HEADER \/
      message_state_ h2 = PUSH_HEADER /\ refusing h2 /\ denied h2 w2 = true -> header_parser_ h2 = header_parser_ h ->
      b2 = b -> turn_left h w b x) as Hgo.
    { intros h2 w2 b2 -> Hs Ep ->. split; [split; [done|destruct Hs as [->|(-> & Hr & _)]; auto]|].
      unfold potential, phase. rewrite Ep, Es. destruct Hs as [->|(-> & _ & ->)]; lia. }
    destruct (pipeline_data.process_type_ d) eqn:Ep.
    + injection Ht as <-. eapply Hgo; [reflexivity|by left|by rewrite Eh|done].
    + injection Ht as <-. eapply Hgo; [reflexivity|by left|by rewrite Eh|done].
    + apply bind_ok_inv in Ht as ([e c] & _ & Ht). apply bind_ok_inv in Ht as (h2 & Hw & [= <-]).
      unfold start_writer in Hw. apply bind_ok_inv in Hw as (? & _ & [= <-]).
      eapply Hgo; [reflexivity|right|by rewrite Eh|done]. split; [done|]. split; [done|].
      unfold denied. change (current _ (with_cache c w1)) with (current h1 w1). by rewrite Hd, Ep.
  - injection Ht as <-. split; [split; [done|by rewrite Es1]|].
    assert (stream_type_ h1 = stream_type_ h) as -> by by rewrite Eh.
    destruct (stream_type_ h) eqn:Et; [done|]. rewrite Es1. split; [done|].
    destruct (set_current_not _ _ _ _ Hc Et) as (-> & Eh2 & Hagain).
    right. left. split; [done|]. split; [by rewrite Eh2|done].
Qed.

Variable z : sizes.
Variable host_rules_ : gmap (list Z) (host_rules.t A).
Variable request_postprocessor_ : option (message_buffer.t -> res (bool * message_buffer.t)).
Variable localtime : nat -> log_record.tm.
Hypothesis Hrules : rules_ok host_rules_.
Hypothesis Hpost : postprocessor_ok z request_postprocessor_.

Abbreviation do_parse_header := (do_parse_header host_rules_ request_postprocessor_ localtime).
Abbreviation turn := (turn host_rules_ request_postprocessor_ localtime).
Abbreviation process_loop := (process_loop host_rules_ request_postprocessor_ localtime).
Abbreviation process_data := (process_data host_rules_ request_postprocessor_ localtime).
Abbreviation reach := (reach z host_rules_ request_postprocessor_ localtime).

Lemma refused_status parse_status (h : t A) (w : world K) st w' : header_refused parse_status h w = Ok (st, w') ->
  answers st \/ st = socketlib.COMPLETE /\ (parse_status = http.COMPLETE \/ unfinished parse_status).
Proof.
  unfold header_refused. intros Hr.
  destruct parse_status; try (injection Hr as <- _; right; split; [done|by auto; right]);
    (destruct (stream_type_ h); [|injection Hr as <- _; by left]);
    (apply bind_ok_inv in Hr as ([p d] & _ & Hr)); (apply bind_ok_inv in Hr as ([p2 d2] & _ & [= <- _])); by left.
Qed.

Lemma header_left h w b x : h.(message_state_) = PARSE_HEADER -> wf b -> well z h w -> loose b ->
  message_ok z (header_handler.message_buffer_ h.(header_handler_)) ->
  do_parse_header h w b = Ok x -> turn_left h w b x.
Proof.
  intros Es Hwf Hw Hl Hm Ht. unfold http_proxy_stream_handler.do_parse_header in Ht.
  apply bind_ok_inv in Ht as ([[[st b1] p1] [hh c]] & Hp & Ht). pose proof (we_parser _ _ _ Hw) as Hcur.
  assert (handler_safe z (header_handler_ h, header_cache_ w)) as Hsafe by (split; [exact Hm|apply Hw]).
  pose proof (yields_ok _ _ _ _ (parse_headers_any (may_fail := True) (inv := handler_safe z) _ _ _ _ Hsafe Hwf Hcur) Hp)
    as (Hwf1 & _ & Hwl & Hpp & _ & Hgrow & Hlen & [Hm1 Hc1]).
  apply (parse_headers_goes_on end_fields_ends) in Hp as (He & Ew & Hgo); [|done..].
  pose proof Hwf as []. pose proof Hwf1 as []. set (h1 := with_parser p1 hh h) in *.
  assert (loose b1) as Hl1 by (unfold loose in *; lia).
  destruct (bool_decide_reflect (st = http.COMPLETE)) as [->|Hne].
  - apply bind_ok_inv in Ht as ([h2 w2] & Hc & [= <-]).
    assert (dest_open (with_cache c w)) as Hd by exact (sk_dest _ (we_sink _ _ _ Hw)).
    pose proof (header_complete_yields z host_rules_ request_postprocessor_ localtime Hrules Hpost h1 _ Hd Hm1) as Hy.
    destruct (yields_ok _ _ _ _ Hy Hc) as (_ & m & _ & ->).
    specialize (Hgrow eq_refl). split; [split; [done|simpl; unfold loose in Hl; lia]|].
    apply Z.lt_le_incl, potential_falls; [done|done|]. pose proof (phase_bounds h w).
    match goal with |- _ + ?x < _ => assert (x <= 1) as Hx by apply phase_bounds end. lia.
  - assert (('(st, w) ← header_refused st h1 (with_cache c w); Ok (Some st, h1, w, b1)) = Ok x) as Ht2 by (by destruct st).
    clear Ht. apply bind_ok_inv in Ht2 as ([st2 w2] & Hr & [= <-]). split; [split; [done|simpl; by rewrite Es]|].
    apply refused_status in Hr as [Ha|[-> [?|Hu]]]; [by destruct st2|done|].
    split; [simpl; by rewrite Es|]. destruct (Hgo Hu) as [Hf|(Ep & _ & _ & Hll)]; [by left|do 3 right].
    unfold potential, phase. change (message_state_ h1) with (message_state_ h). rewrite Es, Hwl, Ep.
    change (header_parser_ h1) with p1. lia.
Qed.

Lemma push_left h w b x : h.(message_state_) = PUSH_HEADER -> is_Some h.(writer_message_) ->
  hw_inv (message_of (written h)) h.(header_writer_) (written h) -> dest_open w -> no_body h -> aligned h b ->
  do_push_header h w b = Ok x -> turn_left h w b x.
Proof.
  intros Es Hwm Hinv Hd Hno Ha Ht. unfold do_push_header in Ht.
  destruct (write_message_ok _ h w Hwm Hinv Hd) as (h1 & w1 & st & m & Hwr & Hsame & Hbut & _ & _ & _ & Hst).
  rewrite Hwr, bind_ok in Ht. pose proof (sw_handler _ _ Hsame) as Eh. pose proof Ha as [Hl Ha2]. rewrite Es in Ha2.
  assert (refusing h1 = refusing h) as Href by (unfold refusing; by rewrite Eh).
  assert (message_state_ h1 = PUSH_HEADER) as Es1 by by rewrite Eh.
  destruct st; try done; try (injection Ht as <-; split; [|done]; split; [done|]; by rewrite Es1, Href).
  unfold header_pushed in Ht. change (current (with_state PARSE_BODY h1) w1) with (current h1 w1) in Ht.
  rewrite (current_written _ _ _ _ Hsame Hbut) in Ht. apply bind_ok_inv in Ht as ([p d] & Hc & Ht).
  assert (denied h w = match d.(pipeline_data.process_type_) with pipeline_data.DENY => true | _ => false end)
    as Ed by (unfold denied; by rewrite Hc).
  assert (header_parser_ h1 = header_parser_ h) as Ehp by by rewrite Eh.
  assert (forall e size, aligned (with_body_parser (body_parser.reset e size (body_parser_ h1)) (with_state PARSE_BODY h1)) b)
    as Hbody.
  { intros e size. split; [done|]. split; [done|]. simpl. pose proof (u32_bound (s32 size)).
    destruct e; [done| |change (refusing (with_body_parser _ _)) with (refusing h1); rewrite Href; tauto|]; (split; [simpl; lia || done|]; by split). }
  assert (forall h2 w2, message_state_ h2 = PARSE_BODY -> header_parser_ h2 = header_parser_ h1 -> denied h w = false ->
    potential h2 w2 b <= potential h w b) as Hle.
  { intros h2 w2 Es2 Ep2 Hden. unfold potential, phase. rewrite Es2, Ep2, Ehp, Es, Hden. lia. }
  set (w2 := set_request_complete p d w1) in Ht.
  change (stream_type_ (with_state PARSE_BODY h1)) with (stream_type_ h1) in Ht.
  change (body_parser_ (with_state PARSE_BODY h1)) with (body_parser_ h1) in Ht.
  destruct (pipeline_data.process_type_ d) eqn:Ep.
  - injection Ht as <-. split; [apply Hbody|]. by apply Hle.
  - destruct (stream_type_ h1); injection Ht as <-; (split; [apply Hbody|]; by apply Hle).
  - injection Ht as <-. split; [|done]. split; [done|]. split; [done|]. simpl. rewrite Eh. simpl. by rewrite Hno.
Qed.

Lemma message_done (h : t A) (w : world K) h' w' : complete_message h w = Ok (h', w') ->
  h'.(message_state_) = START_MESSAGE /\ h'.(header_parser_) = header_parser.reset h.(header_parser_) /\
  h'.(stream_type_) = h.(stream_type_) /\ h'.(writer_message_) = h.(writer_message_).
Proof.
  unfold complete_message, initialize_state. intros Hc. by apply bind_ok_inv in Hc as ([hh c] & _ & [= <- _]).
Qed.

Lemma body_turn_left h w b x : h.(message_state_) = PARSE_BODY -> wf b -> sink_ok (h, w) -> aligned h b ->
  0 <= header_parser.current_length_ h.(header_parser_) ->
  do_parse_body h w b = Ok x -> turn_left h w b x.
Proof.
  intros Es Hwf Hok [Hl Ha] Hcur Ht. rewrite Es in Ha. unfold do_parse_body in Ht.
  apply bind_ok_inv in Ht as ([[[st b1] p1] [h1 w1]] & Hp & Ht).
  apply parse_body_same in Hp as Hsame. pose proof (ss_handler _ _ Hsame) as Eh. simpl in Eh.
  apply (body_left True (refusing h)) in Hp as (Hm & Ha1 & Ee & Hst); [|..|exact Ha]; try done.
  2: { intros _ _ Hlt c r' b' Hb. pose proof (set_body_full _ _ _ _ _ Hok Hwf Hb). lia. }
  destruct Hm as [Hwf1 Hwl Hpp]. pose proof Ha1 as [Hl1 _].
  assert (message_state_ h1 = PARSE_BODY) as Es1 by by rewrite Eh.
  assert (refusing h1 = refusing h) as Href by (unfold refusing; by rewrite Eh).
  assert (aligned (with_body_parser p1 h1) b1) as Hal.
  { split; [done|]. cbn [message_state_ with_body_parser]. rewrite Es1. split; [done|]. destruct Ha1 as [_ Ha1].
    change (refusing (with_body_parser p1 h1)) with (refusing h1). rewrite Href. exact Ha1. }
  destruct st; try (injection Ht as <-; by split).
  - apply bind_ok_inv in Ht as (w2 & _ & Ht). apply bind_ok_inv in Ht as ([h3 w3] & Hc & [= <-]).
    apply message_done in Hc as (Es3 & Ep3 & _). split; [by split; rewrite ?Es3|].
    apply Z.lt_le_incl, potential_falls; [done|by rewrite Ep3|]. unfold phase. rewrite Es, Es3. lia.
  - injection Ht as <-. split; [done|]. split; [simpl; by rewrite Es1|].
    destruct (Hst eq_refl) as [?|[Hr He]]; [by left|do 2 right; left]. split; [done|].
    split; [|simpl; congruence].
    change (refusing h1). by rewrite Href.
Qed.

Lemma turn_leaves base fs h w b x : inv z base fs None h w b -> aligned h b -> turn h w b = Ok x -> turn_left h w b x.
Proof.
  intros (Hwf & Hw & _ & Hs) Ha Ht. unfold http_proxy_stream_handler.turn in Ht. pose proof Ha as [Hl _].
  unfold stage in Hs. destruct (message_state_ h) eqn:Es.
  - by apply start_left.
  - apply header_left; try done. apply Hs.
  - destruct Hs as (? & ? & ? & _). apply push_left; try done. apply Hw.
  - apply body_turn_left; try done; apply Hw.
Qed.

(** ** Calls *)

Lemma reach_aligned base fs o h w b : reach base fs o h w b -> aligned h b.
Proof.
  assert (forall (h : t A) (w : world K) h' w' b, http_proxy_stream_handler.reset h w = Ok (h', w') -> just_read b -> aligned h' b) as Hreset.
  { intros h0 w0 h' w' b0 Hr Hb. unfold http_proxy_stream_handler.reset in Hr. apply bind_ok_inv in Hr as (q & _ & Hr).
    unfold initialize_state in Hr. apply bind_ok_inv in Hr as ([hh c] & _ & [= <- _]).
    split; [by apply just_read_loose|done]. }
  induction 1 as [ty n e i s c h c' w h' w' b Hz Hc Hm Ew Hd Hr Hwf Hb
    |base fs o h w b w2 h' w' b' _ _ Hd Hc Hr Hwf Hb
    |base fs st h w b w2 b2 _ IH Hm Hb|base fs st h w b s h' _ IH Ha|base fs st h w b w2 _ IH E Hd Hc
    |base fs st h w b _ IH|base fs h w b o h' w' b' Hr IH Ht|base fs h w b _ IH Hwl Es]; try by eauto.
  - destruct Hb as [Hwf [->|[_ Hb]]]; [done|by eapply aligned_just_read].
  - apply forward_address_same in Ha. rewrite Ha. exact IH.
  - apply (turn_leaves base fs) in Ht; [apply Ht|by eapply reach_inv|done].
Qed.

(** A request is given a new element of the queue, which is not marked. *)
Lemma set_current_request (h : t A) (w : world K) h' w' :
  h.(stream_type_) = REQUEST -> set_current_pipeline_data h w = Ok (true, h', w') -> denied h' w' = false.
Proof.
  intros Et Hs. unfold set_current_pipeline_data in Hs. rewrite Et in Hs. destruct (pipeline_data_queue.queue_full _); [done|].
  apply bind_ok_inv in Hs as ([[p q] hp] & Hq & [= <- <-]). unfold pipeline_data_queue.queue_element in Hq.
  do 4 (apply bind_ok_inv in Hq as (? & _ & Hq)). apply bind_ok_inv in Hq as (d & _ & Hq).
  do 2 (apply bind_ok_inv in Hq as (? & _ & Hq)). injection Hq as <- <- <-.
  unfold denied, current. simpl. by rewrite lookup_insert_eq.
Qed.

Definition kind_kept (h h' : t A) : Prop :=
  h'.(stream_type_) = h.(stream_type_) /\ (h.(stream_type_) = REQUEST -> refusing h' -> refusing h).

Lemma turn_kind base fs h w b o h' w' b' : inv z base fs None h w b -> turn h w b = Ok (o, h', w', b') -> kind_kept h h'.
Proof.
  intros (Hwf & Hw & _ & Hs) Ht. unfold http_proxy_stream_handler.turn in Ht. unfold kind_kept, refusing.
  unfold stage in Hs. destruct (message_state_ h) eqn:Es.
  - unfold do_start_message in Ht. apply bind_ok_inv in Ht as ([[set h1] w1] & Hc & Ht).
    pose proof (yields_ok _ _ _ _ (set_current_yields h w) Hc) as (_ & p & Eh).
    destruct set; cbn [negb] in Ht; [|injection Ht as _ <- _ _; by rewrite Eh].
    apply bind_ok_inv in Ht as ([q d] & Hd & Ht).
    destruct (pipeline_data.process_type_ d) eqn:Ep; try (injection Ht as _ <- _ _; by rewrite Eh).
    apply bind_ok_inv in Ht as ([e c] & _ & Ht). apply bind_ok_inv in Ht as (h2 & Hw2 & [= _ <- _ _]).
    unfold start_writer in Hw2. apply bind_ok_inv in Hw2 as (? & _ & [= <-]). simpl. split; [by rewrite Eh|].
    intros Et _. pose proof (set_current_request _ _ _ _ Et Hc) as Hden. unfold denied in Hden. by rewrite Hd, Ep in Hden.
  - unfold http_proxy_stream_handler.do_parse_header in Ht.
    apply bind_ok_inv in Ht as ([[[st b1] p1] [hh c]] & Hp & Ht). destruct Hs as (_ & Hm & _).
    assert (handler_safe z (header_handler_ h, header_cache_ w)) as Hsafe by (split; [exact Hm|apply Hw]).
    pose proof (yields_ok _ _ _ _ (parse_headers_any (may_fail := True) (inv := handler_safe z) _ _ _ _ Hsafe Hwf
      (we_parser _ _ _ Hw)) Hp) as (_ & _ & _ & _ & _ & _ & _ & [Hm1 _]).
    assert (dest_open (with_cache c w)) as Hd by exact (sk_dest _ (we_sink _ _ _ Hw)).
    destruct st; try (apply bind_ok_inv in Ht as ([st2 w2] & _ & [= _ <- _ _]); done).
    apply bind_ok_inv in Ht as ([h2 w2] & Hc & [= _ <- _ _]).
    pose proof (header_complete_yields z host_rules_ request_postprocessor_ localtime Hrules Hpost (with_parser p1 hh h)
      _ Hd Hm1) as Hy. by destruct (yields_ok _ _ _ _ Hy Hc) as (_ & m & _ & ->).
  - destruct Hs as (_ & Hwm & Hinv & _). unfold do_push_header in Ht.
    destruct (write_message_ok _ h w Hwm Hinv (sk_dest _ (we_sink _ _ _ Hw))) as (h1 & w1 & st & m & Hwr & Hsame & _).
    rewrite Hwr, bind_ok in Ht. pose proof (sw_handler _ _ Hsame) as Eh.
    assert (stream_type_ h1 = stream_type_ h /\ writer_message_ h1 = writer_message_ h) as [E1 E2] by by rewrite Eh.
    destruct st; try (injection Ht as _ <- _ _; by rewrite E1, E2).
    unfold header_pushed in Ht. apply bind_ok_inv in Ht as ([p d] & _ & Ht).
    destruct (pipeline_data.process_type_ d), (stream_type_ (with_state PARSE_BODY h1)) eqn:Ek;
      injection Ht as _ <- _ _; simpl in *; rewrite ?E1, ?E2; done || congruence.
  - unfold do_parse_body in Ht. apply bind_ok_inv in Ht as ([[[st b1] p1] [h1 w1]] & Hp & Ht).
    apply parse_body_same in Hp as Hsame. pose proof (ss_handler _ _ Hsame) as Eh. simpl in Eh.
    assert (stream_type_ h1 = stream_type_ h /\ writer_message_ h1 = writer_message_ h) as [E1 E2] by by rewrite Eh.
    destruct st; try (injection Ht as _ <- _ _; simpl; by rewrite E1, E2).
    apply bind_ok_inv in Ht as (w2 & _ & Ht). apply bind_ok_inv in Ht as ([h3 w3] & Hc & [= _ <- _ _]).
    apply message_done in Hc as (_ & _ & E3 & E4). simpl in E3, E4. by rewrite E3, E4, E1, E2.
Qed.

Lemma reset_kind (h : t A) (w : world K) h' w' : http_proxy_stream_handler.reset h w = Ok (h', w') ->
  h'.(stream_type_) = h.(stream_type_) /\ h'.(writer_message_) = h.(writer_message_).
Proof.
  unfold http_proxy_stream_handler.reset, initialize_state. intros Hr. apply bind_ok_inv in Hr as (q & _ & Hr).
  by apply bind_ok_inv in Hr as ([hh c] & _ & [= <- _]).
Qed.

(** The request stream never writes the error response. *)
Lemma request_never_refuses base fs o h w b : reach base fs o h w b -> h.(stream_type_) = REQUEST -> not (refusing h).
Proof.
  unfold refusing. induction 1 as [ty n e i s c h c' w h' w' b Hz Hc Hm Ew Hd Hr Hwf Hb
    |base fs o h w b w2 h' w' b' _ IH Hd Hc Hr Hwf Hb
    |base fs st h w b w2 b2 _ IH Hm Hb|base fs st h w b s h' _ IH Ha|base fs st h w b w2 _ IH E Hd Hc
    |base fs st h w b _ IH|base fs h w b o h' w' b' Hr IH Ht|base fs h w b _ IH Hwl Es]; try by auto.
  - apply reset_kind in Hr as [_ ->]. unfold http_proxy_stream_handler.make in Hm.
    apply bind_ok_inv in Hm as ([? ?] & _ & Hm). by apply bind_ok_inv in Hm as ([? ?] & _ & [= <- _]).
  - apply reset_kind in Hr as [-> ->]. exact IH.
  - apply forward_address_same in Ha. rewrite Ha. exact IH.
  - destruct (turn_kind base fs _ _ _ _ _ _ _ (reach_inv _ _ _ _ Hrules Hpost _ _ _ _ _ _ Hr) Ht) as [Et Hk].
    rewrite Et. intros E Hrf. exact (IH E (Hk E Hrf)).
Qed.


(** What a call leaves, whatever it was given. *)
Definition call_left (h : t A) (w : world K) (b : read_write_buffer)
    (x : result (K := K) (A := A)) : Prop :=
  let '(st, h', w', b') := x in
  match st with
  | socketlib.COMPLETE => h'.(message_state_) <> PUSH_HEADER /\
      (rwb.fully_written b' = true \/ unasked h' w' \/ unmarked h' \/ potential h' w' b' < potential h w b)
  | _ => answers st
  end.

Lemma loop_left fuel : forall base fs h w b x, reach base fs None h w b -> process_loop fuel h w b = Ok x ->
  call_left h w b x.
Proof.
  induction fuel as [|fuel IH]; intros base fs h w b x Hr Hp; [done|]. cbn [http_proxy_stream_handler.process_loop] in Hp.
  apply bind_ok_inv in Hp as ([[[o h1] w1] b1] & Ht & Hp).
  pose proof (turn_leaves _ _ _ _ _ _ (reach_inv _ _ _ _ Hrules Hpost _ _ _ _ _ _ Hr) (reach_aligned _ _ _ _ _ _ Hr) Ht)
    as [_ Hleft]. destruct o as [st|]; [injection Hp as <-; by destruct st|].
  apply (IH _ _ _ _ _ _ (reach_turn _ _ _ _ _ _ _ _ _ _ _ _ _ Hr Ht)) in Hp. destruct x as [[[st h2] w2] b2].
  destruct st; try done. simpl in *. destruct Hp as [? Hp]. split; [done|].
  destruct Hp as [?|[?|[?|?]]]; auto. do 3 right. lia.
Qed.

Lemma process_left base fs h w b x : reach base fs None h w b -> process_data h w b = Ok x -> call_left h w b x.
Proof.
  intros Hr Hp. unfold http_proxy_stream_handler.process_data in Hp. destruct (_ && _) eqn:E.
  - injection Hp as <-. apply andb_true_iff in E as [Hwl Es%bool_decide_eq_true]. split; [by rewrite Es|left].
    destruct (reach_inv _ _ _ _ Hrules Hpost _ _ _ _ _ _ Hr) as [[] _]. apply fully.
    unfold rwb.get_working_length in Hwl. lia.
  - by eapply loop_left.
Qed.

Lemma loop_kind fuel : forall base fs h w b st h' w' b', reach base fs None h w b ->
  process_loop fuel h w b = Ok (st, h', w', b') -> h'.(stream_type_) = h.(stream_type_).
Proof.
  induction fuel as [|fuel IH]; intros base fs h w b st h' w' b' Hr Hp; [done|].
  cbn [http_proxy_stream_handler.process_loop] in Hp. apply bind_ok_inv in Hp as ([[[o h1] w1] b1] & Ht & Hp).
  destruct (turn_kind _ _ _ _ _ _ _ _ _ (reach_inv _ _ _ _ Hrules Hpost _ _ _ _ _ _ Hr) Ht) as [Et _].
  destruct o as [st1|]; [by injection Hp as _ <- _ _|].
  rewrite <- Et. eapply IH; [|exact Hp]. by eapply reach_turn.
Qed.

Lemma process_kind base fs h w b st h' w' b' : reach base fs None h w b ->
  process_data h w b = Ok (st, h', w', b') -> h'.(stream_type_) = h.(stream_type_).
Proof.
  intros Hr Hp. unfold http_proxy_stream_handler.process_data in Hp. destruct (_ && _); [by injection Hp as _ <- _ _|].
  by eapply loop_kind.
Qed.

(** A stream that waits for a request stays as it is. *)
Lemma unasked_stays h w b : unasked h w -> process_data h w b = Ok (socketlib.COMPLETE, h, w, b).
Proof.
  intros (Es & Et & Hc). unfold http_proxy_stream_handler.process_data. rewrite bool_decide_eq_false_2, andb_false_r by congruence.
  rewrite Nat.add_comm. cbn [Nat.add http_proxy_stream_handler.process_loop].
  unfold http_proxy_stream_handler.turn. rewrite Es. unfold do_start_message.
  rewrite Hc, bind_ok. cbn [negb]. by rewrite Et, bind_ok.
Qed.

End progress.
