(* ===== verification/HttpExchange.v ===== *)
(** An exchange of http/client/http_client_handler.cpp: the request that is
    sent, and the body that the user is handed, over any sequence of calls
    with a socket that may block or fail at any byte.  The handler keeps the
    promises of client/client_handler.cpp's clients, for every user that keeps
    its own. *)
From stdpp Require Import list gmap.
From S2P Require Import Prelude Status ReadWriteBuffer HttpLex Interfaces HeaderStore HeaderHandler.
From S2P Require Import HeaderParser HandlerSafety BodyParsers BodyRun Os Connection Net Poller HeaderWriter.
From S2P Require Import StreamBody StreamMoves StreamSafety StreamEnds StreamProgress ClientHandler HttpClient ProxyFrame ClientEvents.

Import http_client_handler.

(** * What the user promises *)

(** A call that only tells something leaves what was taken, and the
    response. *)
Record user_kept {U} `{i_http_client U} (ok : U -> Prop) (taken : U -> list Z) (u u' : U) : Prop := {
  uk_ok : ok u';
  uk_taken : taken u' = taken u;
  uk_response : get_response u' = get_response u
}.

Definition callbacks {U} `{i_http_client U} : list (U -> U) :=
  [invalid_header; invalid_body; user_dns_failed; user_connect_failed; user_timeout; user_shutdown;
   send_header_failed; send_body_failed; headers_complete; request_complete].

(** [taken] is the body that the user was handed. *)
Class HttpUser (U : Type) `{i_http_client U} := {
  user_ok : U -> Prop;
  taken : U -> list Z;
  request_assigned m u : user_ok u -> get_request (assign_request m u) = m /\
    user_kept user_ok taken u (assign_request m u);
  response_assigned m u : user_ok u -> get_response (assign_response m u) = m /\
    get_request (assign_response m u) = get_request u /\ taken (assign_response m u) = taken u /\
    user_ok (assign_response m u);
  callback_kept f u : f ∈ callbacks -> user_ok u -> user_kept user_ok taken u (f u);
  handle_body_yields u b c :
    user_ok u -> wf b ->
    yields (b.(write_end_position_) < b.(write_position_)) (handle_body u b c)
      (fun '(u', b', st) => exists k : nat,
        b' = written_to (b.(write_position_) + Z.of_nat k) b /\
        (k <= length (window b))%nat /\ taken u' = taken u ++ take k (window b) /\
        (st = http.COMPLETE -> k = length (window b)) /\ st <> http.WRITE_INCOMPLETE /\ user_ok u');
  handle_body_response u b c u' b' st :
    handle_body u b c = Ok (u', b', st) -> get_response u' = get_response u;
  handle_body_default u : user_ok u ->
    exists u' b' st, handle_body u rwb.make_default true = Ok (u', b', st) /\ user_kept user_ok taken u u'
}.

(** It takes all that it is handed. *)
Definition greedy (U : Type) `{i_http_client U} : Prop := forall (u : U) b c u' b' st,
  handle_body u b c = Ok (u', b', st) -> st = http.COMPLETE.

#[export] Program Instance user_receives {U} `{HttpUser U} : BodyReceiver U := {
  receiver_ok := user_ok;
  received := taken;
  size_bytes _ := [];
  trailer_bytes := [];
  size_left _ := [];
  trailer_left _ := []
}.
Next Obligation.
  intros U H1 H2 u b c Hu Hwf. simpl. eapply yields_mono; [by apply handle_body_yields|].
  intros [[u' b'] st] (k & ? & ? & ? & ? & ? & ?). by exists k.
Qed.
Next Obligation. intros U H1 H2 u n Hu Hn. by exists u. Qed.
Next Obligation. intros U H1 H2 u Hu. exists u, [], http.COMPLETE. by rewrite app_nil_r. Qed.
Next Obligation. intros U H1 H2 u Hu. exists u, [], http.COMPLETE. by rewrite app_nil_r. Qed.

Lemma body_response {U} `{HttpUser U} p (u : U) b st b' p' u' :
  body_parser.parse_body p u b = Ok (st, b', p', u') -> get_response u' = get_response u.
Proof.
  intros Hp. enough (flip (fun x y : U => get_response x = get_response y) u u') by done. revert Hp.
  apply body_keeps; try (by intros; simplify_eq/=).
  - split; [by intros x|]. intros x y z E1 E2. unfold flip in *. congruence.
  - intros r b1 c r' b2 st1 Hb. by eapply handle_body_response.
Qed.

(** * The exchange *)
Section exchange.
Context {K : Type} `{OsLaws K} {U : Type} `{HttpUser U}.
Variable z : sizes.

(** [base] was sent to the socket, and [base_body] handed to the user, before
    the exchange; [req] is the request. *)
Variables (base base_body : list Z) (req : msg).

(** What is sent: the request and one more empty line. *)
Definition asked : list Z := wire req ++ message_buffer.new_line.

(** What always holds. *)
Record held (h : t U) (c : header_cache) : Prop := {
  hl_user : user_ok h.(p_http_client_);
  hl_response : message_kept z (get_response h.(p_http_client_));
  hl_cache : cache_ok z c
}.

Record sound (h : t U) (c : header_cache) : Prop := {
  sd_held : held h c;
  sd_chunk : max_chunk h.(body_parser_) = CHUNK_SIZE_LENGTH;
  sd_parser : 0 <= header_parser.current_length_ h.(header_parser_)
}.

(** The framing of the body, as the header announced it. *)
Definition announced (h : t U) : http.BODY_ENCODING * Z :=
  (header_handler.get_body_encoding h.(header_handler_),
   u32 (s32 (header_handler.get_message_size h.(header_handler_)))).

(** What holds before the first byte of the body: [l] was sent. *)
Record unanswered (l : list Z) (k : K) (h : t U) (fd : Z) (b : read_write_buffer) : Prop := {
  ua_sent : sent k fd = base ++ l;
  ua_taken : taken h.(p_http_client_) = base_body;
  ua_response : message_ok z (get_response h.(p_http_client_));
  ua_buffer : b.(working_length_) <= b.(write_end_position_)
}.

(** Where the exchange is. *)
Definition stage (k : K) (h : t U) (fd : Z) (b : read_write_buffer) : Prop :=
  match h.(message_state_) with
  | PUSH_HEADER =>
      let m := get_request h.(p_http_client_) in
      h.(connected_) = true /\ hw_inv req h.(header_writer_) m /\
      static_buffer message_buffer.new_line h.(endline_buf_) /\
      window h.(endline_buf_) = message_buffer.new_line /\
      exists part, unanswered part k h fd b /\ part ++ pending req h.(header_writer_) m = wire req
  | PUSH_BODY =>
      static_buffer message_buffer.new_line h.(endline_buf_) /\
      exists part, unanswered (wire req ++ part) k h fd b /\
        part ++ window h.(endline_buf_) = message_buffer.new_line
  | PARSE_RESPONSE_HEADER => unanswered asked k h fd b
  | PARSE_BODY =>
      sent k fd = base ++ asked /\
      body_parser.body_encoding_ h.(body_parser_) = (announced h).1 /\ 0 <= (announced h).2 < 2 ^ 32 /\
      body_inv base_body (announced h).2 h.(body_parser_) h.(p_http_client_) b /\
      body_aligned False False h.(body_parser_) b
  end.

(** Between two calls: a buffer that was written may be replaced. *)
Record serving (k : K) (h : t U) (c : header_cache) (d : connection.t) : Prop := {
  sv_sound : sound h c;
  sv_wf : wf (connection.buffer_ d);
  sv_stage : stage k h (connection.fd_ d) (connection.buffer_ d);
  sv_next b : rwb.fully_written (connection.buffer_ d) = true -> wf b -> just_read b ->
    stage k h (connection.fd_ d) b
}.

(** A new handler on a socket that nothing was sent to yet. *)
Record waiting (k : K) (h : t U) (c : header_cache) (d : connection.t) : Prop := {
  wg_sound : sound h c;
  wg_state : h.(message_state_) = PUSH_HEADER;
  wg_request : printable (get_request h.(p_http_client_)) /\ message_of (get_request h.(p_http_client_)) = req;
  wg_writer : writer_ok h.(header_writer_);
  wg_endline : static_buffer message_buffer.new_line h.(endline_buf_) /\
    window h.(endline_buf_) = message_buffer.new_line;
  wg_unanswered : unanswered [] k h (connection.fd_ d) (connection.buffer_ d)
}.

(** What the user was handed of the response. *)
Definition answered (st : socketlib.STATUS) (h : t U) : Prop :=
  exists out, taken h.(p_http_client_) = base_body ++ out /\
    body_part (R := U) (announced h).1 (announced h).2 out /\
    (st = socketlib.COMPLETE -> greedy U -> body_output (R := U) (announced h).1 (announced h).2 out).

(** How the exchange ends. *)
Record finished (st : socketlib.STATUS) (k : K) (h : t U) (c : header_cache) (d : connection.t) : Prop := {
  fi_held : held h c;
  fi_sent : exists l, sent k (connection.fd_ d) = base ++ l /\ l `prefix_of` asked /\
    (l = asked /\ answered st h \/ taken h.(p_http_client_) = base_body /\ st <> socketlib.COMPLETE)
}.

(** ** The turns *)

Abbreviation state := (http_client_handler.state (K := K) (U := U)).

Definition bytes_of (s : state) : read_write_buffer := connection.buffer_ s.(socket_).
Definition fd_of (s : state) : Z := connection.fd_ s.(socket_).

Record going (s : state) : Prop := {
  gg_sound : sound s.(handler_) s.(cache_);
  gg_stage : stage s.(kernel_) s.(handler_) (fd_of s) (bytes_of s);
  gg_wf : wf (bytes_of s);
  gg_open : open_fd s.(kernel_) (fd_of s)
}.

Definition rank (s : state) : nat :=
  match s.(handler_).(message_state_) with
  | PUSH_HEADER => 3
  | PUSH_BODY => 2
  | PARSE_RESPONSE_HEADER => 1
  | PARSE_BODY => 0
  end.

Definition effort (h : t U) : Z :=
  match h.(message_state_) with
  | PARSE_BODY => 0
  | _ => line_left h.(header_parser_)
  end.

Lemma effort_bounds (h : t U) c : sound h c -> 0 <= effort h <= line_bound.
Proof.
  intros []. pose proof (line_left_bounds _ sd_parser0). unfold effort, line_bound in *.
  destruct (message_state_ h); unfold MAX_FIELD_LENGTH in *; lia.
Qed.

Definition stream_post (s : state) (x : socketlib.STATUS * state) : Prop :=
  let '(st, s') := x in
  uses s.(kernel_) s.(socket_) s'.(kernel_) s'.(socket_) /\ wf (bytes_of s') /\
  match st with
  | socketlib.COMPLETE | socketlib.DENY | socketlib.DEST_CLOSED =>
      finished st s'.(kernel_) s'.(handler_) s'.(cache_) s'.(socket_)
  | socketlib.READ_INCOMPLETE => serving s'.(kernel_) s'.(handler_) s'.(cache_) s'.(socket_) /\
      connection.open_for_read s'.(socket_) = true /\
      connection.state_ s'.(socket_) = connection.state_ s.(socket_) /\
      (rwb.fully_written (bytes_of s') = true \/ effort s'.(handler_) < effort s.(handler_))
  | socketlib.WRITE_INCOMPLETE => serving s'.(kernel_) s'.(handler_) s'.(cache_) s'.(socket_) /\
      connection.ready_to_write s'.(socket_) = false /\
      connection.state_ s'.(socket_) = connection.state_ s.(socket_)
  | _ => False
  end.

(** A turn that goes on is a step to the next of the four states. *)
Definition turn_post (s : state) (x : outcome (K := K) (U := U)) : Prop :=
  let '(o, s') := x in
  match o with
  | None => uses s.(kernel_) s.(socket_) s'.(kernel_) s'.(socket_) /\ going s' /\ (rank s' < rank s)%nat /\
      connection.state_ s'.(socket_) = connection.state_ s.(socket_) /\
      effort s'.(handler_) <= effort s.(handler_)
  | Some st => stream_post s (st, s')
  end.

Lemma uses_refl (k : K) d : uses k d k d.
Proof. constructor; auto. apply rtc_refl. Qed.

Lemma uses_trans (k1 : K) d1 k2 d2 k3 d3 : uses k1 d1 k2 d2 -> uses k2 d2 k3 d3 -> uses k1 d1 k3 d3.
Proof. intros [] []. constructor; [congruence|congruence|auto|by etransitivity]. Qed.

Lemma moved_uses (k : K) d k' d' : moved k d k' d' -> uses k d k' d'.
Proof. intros []. by constructor. Qed.

(** Another buffer does not matter before the body. *)
Lemma stage_next k h fd b b2 :
  h.(message_state_) <> PARSE_BODY -> stage k h fd b -> just_read b2 -> stage k h fd b2.
Proof.
  intros Hne Hs (_ & _ & Ee). assert (b2.(working_length_) <= b2.(write_end_position_)) as Hb by lia.
  revert Hs. unfold stage. destruct (message_state_ h); [| | |done].
  - intros (? & ? & ? & ? & part & [] & ?). do 4 (split; [done|]). exists part. by split.
  - intros (? & part & [] & ?). split; [done|]. exists part. by split.
  - intros []. by constructor.
Qed.

Lemma serving_early (s : state) :
  going s -> s.(handler_).(message_state_) <> PARSE_BODY ->
  serving s.(kernel_) s.(handler_) s.(cache_) s.(socket_).
Proof.
  intros [] Hne. constructor; [done|done|done|]. intros b _ _ Hb. by eapply stage_next.
Qed.

Lemma held_notify f (h : t U) c : f ∈ callbacks -> held h c -> held (notify f h) c /\
  taken (notify f h).(p_http_client_) = taken h.(p_http_client_).
Proof.
  intros Hf []. destruct (callback_kept f _ Hf hl_user0) as [Ho Ht Hr].
  split; [|exact Ht]. constructor; simpl; [done|by rewrite Hr|done].
Qed.

Lemma elem_callbacks (f : U -> U) : In f callbacks -> f ∈ callbacks.
Proof. apply list_elem_of_In. Qed.

Ltac callback := apply elem_callbacks; cbn; tauto.

(** The request line and the fields. *)
Lemma push_header_ok (s : state) :
  going s -> s.(handler_).(message_state_) = PUSH_HEADER -> yields True (do_push_header s) (turn_post s).
Proof.
  intros [Hsd Hst Hwf Ho] Es. unfold do_push_header. revert Hst. unfold stage. rewrite Es.
  intros (Hcn & Hinv & Hend & Hwin & part & Hua & Hpart). rewrite Hcn. cbn [negb].
  set (m := get_request _) in *.
  destruct (write_header_ok req s.(kernel_) _ m s.(socket_) Hinv (fun _ => Ho) (hw_cursor _ _ _ Hinv))
    as ([[[[k w] m'] c] st] & Hr & l & Hsends & Hinv' & Hst).
  rewrite Hr, bind_ok. unfold header_writer.write_header in Hr. apply write_header_loop_moves in Hr as Hmv.
  pose proof Hsd as [[Hu Hresp Hca] Hck Hpp]. destruct (request_assigned m' _ Hu) as [Hget [Hu' Htk Hrs]].
  set (u' := assign_request m' _) in *. set (h1 := with_writer w true u' _).
  assert (uses s.(kernel_) s.(socket_) k c) as Huses by by apply moved_uses.
  assert (connection.buffer_ c = bytes_of s) as Eb by apply Hsends.
  assert (connection.fd_ c = fd_of s) as Ef by apply Hsends.
  assert (sound h1 s.(cache_)) as Hsd1.
  { constructor; [constructor; [exact Hu'|simpl; by rewrite Hrs|done]|done|done]. }
  assert (unanswered (part ++ l) k h1 (connection.fd_ c) (connection.buffer_ c)) as Hua1.
  { destruct Hua. rewrite Ef, Eb. constructor; simpl; [|congruence|by rewrite Hrs|done].
    unfold fd_of in *. by rewrite (sd_sent _ _ _ _ _ Hsends), ua_sent0, app_assoc. }
  assert (open_fd k (connection.fd_ c)) as Ho1 by (rewrite Ef; by apply Hsends).
  assert (wf (connection.buffer_ c)) as Hwf1 by by rewrite Eb.
  destruct st; try done; cbn [yields turn_post stream_post].
  - destruct Hst as (-> & Ec & Hrdy). split; [done|]. split.
    + constructor; [by destruct Hsd1 as [[] ]| |exact Hwf1|exact Ho1]. unfold stage. cbn [handler_ message_state_ with_state].
      split; [exact Hend|]. exists []. rewrite app_nil_r. split; [|exact Hwin].
      rewrite Hpart in Hua1. destruct Hua1. by constructor.
    + unfold rank. rewrite Es. simpl. split; [lia|]. split; [by rewrite Ec|]. unfold effort. simpl. rewrite Es. done.
  - destruct Hst as (Hpend & Hrdy & Estate). split; [done|]. split; [done|]. split; [|done].
    apply (serving_early (State k h1 c s.(cache_))); [|simpl; by rewrite Es].
    constructor; [done| |done|done]. unfold stage. cbn [handler_ h1 message_state_ with_writer]. rewrite Es.
    split; [done|]. change (get_request (p_http_client_ _)) with (get_request u'). rewrite Hget.
    split; [done|]. split; [done|]. split; [done|]. exists (part ++ l). split; [exact Hua1|].
    change (header_writer_ _) with w. by rewrite <- app_assoc, <- Hpend.
  - destruct Hst as (Hpend & _). split; [done|]. split; [done|].
    destruct (held_notify send_header_failed h1 s.(cache_)) as [Hh Ht]; [callback|apply Hsd1|].
    constructor; [exact Hh|]. exists (part ++ l). split; [apply Hua1|]. split.
    + unfold asked. rewrite <- Hpart, Hpend, <- !app_assoc. rewrite app_assoc. by eexists.
    + right. split; [|done]. cbn [tell with_handler handler_]. rewrite Ht. apply Hua1.
Qed.

(** The empty line. *)
Lemma push_body_ok (s : state) :
  going s -> s.(handler_).(message_state_) = PUSH_BODY -> yields True (do_push_body s) (turn_post s).
Proof.
  intros [Hsd Hst Hwf Ho] Es. unfold do_push_body. revert Hst. unfold stage. rewrite Es.
  intros (Hend & part & Hua & Hpart). destruct (endline_window _ Hend) as [Hwe Hle].
  destruct (write_ok s.(kernel_) s.(socket_) _ Hwe Hle (fun _ => Ho)) as (k & c & b & st & n & Hw & Hwr).
  rewrite Hw, bind_ok. unfold connection.non_blocking_write in Hw. apply write_loop_moves in Hw as Hmv.
  destruct Hwr as [Hb Hn Hsent _ Hop Hf Hbuf _ _ Hst]. set (h1 := with_endline b _).
  assert (uses s.(kernel_) s.(socket_) k c) as Huses by by apply moved_uses.
  destruct (window_written _ n Hwe Hle Hn) as (_ & Hwin & _). rewrite <- Hb in Hwin.
  assert (sound h1 s.(cache_)) as Hsd1 by (by destruct Hsd as [[] ]).
  assert (static_buffer message_buffer.new_line b) as Hend1.
  { rewrite Hb. apply static_buffer_written; [done|]. by apply (writing_written _ _ n (st_writing _ _ Hend)). }
  set (put := take n (window (endline_buf_ (handler_ s)))) in *.
  assert (unanswered (wire req ++ part ++ put) k h1 (connection.fd_ c) (connection.buffer_ c)) as Hua1.
  { destruct Hua. rewrite Hf, Hbuf. constructor; simpl; [|done..].
    unfold fd_of in *. by rewrite Hsent, ua_sent0, <- !app_assoc. }
  assert (open_fd k (connection.fd_ c)) as Ho1 by (rewrite Hf; by apply Hop).
  assert (wf (connection.buffer_ c)) as Hwf1 by by rewrite Hbuf.
  assert ((part ++ put) ++ drop n (window (endline_buf_ (handler_ s))) = message_buffer.new_line) as Hall.
  { unfold put. by rewrite <- app_assoc, take_drop. }
  destruct st; try done; cbn [yields turn_post stream_post].
  - destruct Hst as (-> & Ec & Hrdy). split; [done|]. split.
    + constructor; [by destruct Hsd1 as [[] ]| |exact Hwf1|exact Ho1]. unfold stage. cbn [handler_ message_state_ with_state].
      rewrite drop_all, app_nil_r in Hall. rewrite Hall in Hua1. by destruct Hua1.
    + unfold rank. rewrite Es. simpl. split; [lia|]. split; [by rewrite Ec|]. unfold effort. simpl. rewrite Es. done.
  - destruct Hst as (Hrdy & Estate & _). split; [done|]. split; [done|]. split; [|done].
    apply (serving_early (State k h1 c s.(cache_))); [|simpl; by rewrite Es].
    constructor; [done| |done|done]. unfold stage. cbn [handler_ h1 message_state_ with_endline]. rewrite Es.
    split; [done|]. exists (part ++ put). split; [exact Hua1|]. change (endline_buf_ _) with b. by rewrite Hwin.
  - split; [done|]. split; [done|].
    destruct (held_notify send_body_failed h1 s.(cache_)) as [Hh Ht]; [callback|apply Hsd1|].
    constructor; [exact Hh|]. eexists. split; [apply Hua1|]. split.
    + unfold asked. rewrite <- Hall, <- !app_assoc. do 2 apply prefix_app. by apply prefix_app_r.
    + right. split; [|done]. cbn [tell with_handler handler_]. rewrite Ht. apply Hua1.
Qed.

(** The header of the response. *)
Lemma response_parsed (s : state) p hh cache b :
  going s -> message_ok z (header_handler.message_buffer_ hh) -> cache_ok z cache -> 0 <= header_parser.current_length_ p ->
  let h1 := with_response p hh s.(handler_) in
  sound h1 cache /\
  (unanswered asked s.(kernel_) s.(handler_) (fd_of s) (bytes_of s) -> b.(working_length_) <= b.(write_end_position_) ->
   unanswered asked s.(kernel_) h1 (fd_of s) b).
Proof.
  intros [Hsd _ _ _] Hm Hca Hp h1. pose proof Hsd as [[Hu Hresp _] Hck _].
  destruct (response_assigned (header_handler.get_message_buffer hh) _ Hu) as (Hget & _ & Htk & Hu').
  split.
  - constructor; [constructor; [exact Hu'| |exact Hca]|done|done]. simpl. rewrite Hget. by apply message_ok_kept.
  - intros [] Hb. constructor; simpl; [done|congruence|by rewrite Hget|done].
Qed.

Lemma parse_header_ok (s : state) :
  going s -> s.(handler_).(message_state_) = PARSE_RESPONSE_HEADER ->
  yields True (do_parse_response_header s) (turn_post s).
Proof.
  intros Hg Es. pose proof Hg as [Hsd Hst Hwf Ho]. unfold do_parse_response_header. revert Hst. unfold stage. rewrite Es.
  intros Hua. pose proof Hsd as [[Hu Hresp Hca] Hck Hpp]. unfold connection.read_buffer. fold (bytes_of s).
  pose proof (parse_headers_any (R := header_handler.state) (may_fail := True) (inv := handler_safe z)
    header_parser.LOOSE (bytes_of s) (header_parser_ (handler_ s)) (response_handler (handler_ s), cache_ s)) as Hany.
  assert (yields True (header_parser.parse_headers (header_parser_ (handler_ s)) (response_handler (handler_ s), cache_ s)
    (bytes_of s) header_parser.LOOSE) (headers_post (inv := handler_safe z) (bytes_of s))) as Hy.
  { apply Hany; [split; [exact (ua_response _ _ _ _ _ Hua)|done]|done|done]. }
  clear Hany. destruct (header_parser.parse_headers _ _ _ _) as [[[[st b] p] [hh cache]]| | |] eqn:Ep; try done.
  rewrite bind_ok. destruct Hy as (Hwf1 & _ & Hwl & Hpr & Hww & Hgrow & Hlen & [Hm1 Hc1]).
  apply (parse_headers_goes_on end_fields_ends) in Ep as (He & Ew & Hgo); [|done..].
  destruct (response_parsed s p hh cache b Hg Hm1 Hc1 Hlen) as [Hsd1 Hua1].
  specialize (Hua1 Hua). rewrite Hwl, He in Hua1. specialize (Hua1 (ua_buffer _ _ _ _ _ Hua)).
  set (h1 := with_response p hh (handler_ s)) in *. set (d1 := connection.set_read_buffer b (socket_ s)) in *.
  set (s1 := State (kernel_ s) h1 d1 cache).
  assert (message_state_ h1 = PARSE_RESPONSE_HEADER) as Es1 by exact Es.
  assert (uses s.(kernel_) s.(socket_) s.(kernel_) d1) as Huses by (constructor; auto; apply rtc_refl).
  assert (going s1) as Hg1 by (constructor; [done|unfold stage, s1; cbn [handler_]; by rewrite Es1|done|done]).
  assert (turn_post s (Some socketlib.DENY, tell invalid_header s1)) as Hdeny.
  { cbn [turn_post stream_post]. split; [done|]. split; [done|].
    destruct (held_notify invalid_header h1 cache) as [Hh Ht]; [callback|apply Hsd1|].
    constructor; [exact Hh|]. exists asked. split; [apply Hua1|]. split; [done|]. right.
    split; [|done]. change (handler_ (tell invalid_header s1)) with (notify invalid_header h1). rewrite Ht. apply Hua1. }
  assert (unfinished st -> turn_post s (Some socketlib.READ_INCOMPLETE, s1) \/ connection.open_for_read d1 = false) as Hread.
  { intros Hun. destruct (connection.open_for_read d1) eqn:Eo; [left|by right]. cbn [turn_post stream_post].
    split; [done|]. split; [done|]. split; [apply serving_early; [done|unfold s1; cbn [handler_]; by rewrite Es1]|].
    split; [done|]. split; [done|]. destruct (Hgo Hun) as [Hf|(_ & _ & _ & Hlt)]; [by left|right].
    unfold effort. change (message_state_ (handler_ s1)) with (message_state_ h1). by rewrite Es1, Es. }
  change (connection.open_for_read (socket_ s1)) with (connection.open_for_read d1).
  destruct st; try exact Hdeny;
    try (destruct (Hread I) as [Hr| ->]; [|exact Hdeny];
         destruct (connection.open_for_read d1); [exact Hr|exact Hdeny]).
  cbn [yields turn_post]. set (bp := body_parser.reset _ _ _).
  destruct Hsd1 as [Hh1 Hck1 Hpp1].
  destruct (held_notify headers_complete (with_body_parser bp (p_http_client_ h1) (with_state PARSE_BODY h1)) cache)
    as [Hh2 Ht2]; [callback|by destruct Hh1|]. cbn [p_http_client_ with_body_parser] in Ht2.
  set (h2 := notify headers_complete _) in *.
  assert (received (p_http_client_ h2) = base_body) as Hrec
    by (change (taken (p_http_client_ h2) = base_body); rewrite Ht2; apply Hua1).
  split; [done|]. split; [|split; [unfold rank; rewrite Es; simpl; lia|split; [done|]]].
  2: exact (proj1 (effort_bounds _ _ Hsd)).
  constructor; [constructor; [exact Hh2|exact Hck1|exact Hpp1]| |exact Hwf1|exact Ho].
  unfold stage. change (message_state_ _) with PARSE_BODY. cbv iota.
  change (handler_ (tell _ _)) with h2. change (body_parser_ h2) with bp. change (announced h2) with (announced h1).
  split; [apply Hua1|]. split; [done|]. split; [apply u32_bound|]. split.
  - rewrite <- Hrec. exact (body_start _ _ _ _ _ (hl_user _ _ Hh2) Hwf1 Hck1).
  - change (bytes_of _) with b. pose proof (ua_buffer _ _ _ _ _ Hua). assert (loose b) as Hl by (left; lia).
    unfold bp, body_aligned, body_parser.reset. cbn [body_parser.body_encoding_ body_parser.chunked_ body_parser.content_length_].
    split; [exact Hl|]. destruct (header_handler.get_body_encoding _).
    + done.
    + split; [simpl; lia|]. split; [done|]. done.
    + left. lia.
    + split; [apply u32_bound|]. split; [done|]. done.
Qed.

(** The body. *)
Lemma greedy_unblocked p (u : U) b st b' p' u' :
  greedy U -> body_parser.parse_body p u b = Ok (st, b', p', u') -> unblocked st.
Proof.
  intros Hg. apply body_unblocked.
  - intros r b1 c r' b2 st2 Hb. by eapply Hg.
  - by intros r r' st2 [= _ <-].
  - by intros r r' st2 [= _ <-].
Qed.

(** The end of the exchange, when the user was told [f]. *)
Lemma body_ends f st (s : state) d h c k out :
  f ∈ callbacks -> sent k (connection.fd_ d) = base ++ asked -> held h c ->
  taken h.(p_http_client_) = base_body ++ out -> body_part (R := U) (announced h).1 (announced h).2 out ->
  (st = socketlib.COMPLETE -> greedy U -> body_output (R := U) (announced h).1 (announced h).2 out) ->
  finished st k (notify f h) c d.
Proof.
  intros Hf Hsent Hh Ht Hp Ho. destruct (held_notify f h c Hf Hh) as [Hh1 Ht1].
  constructor; [exact Hh1|]. exists asked. split; [done|]. split; [done|]. left. split; [done|].
  exists out. split; [by rewrite Ht1|]. by split.
Qed.

Lemma parse_body_ok (s : state) :
  going s -> s.(handler_).(message_state_) = PARSE_BODY -> yields True (do_parse_body s) (turn_post s).
Proof.
  intros [Hsd Hst Hwf Ho] Es. unfold do_parse_body. revert Hst. unfold stage. rewrite Es.
  intros (Hsent & Ee & Hn & Hinv & Hal). unfold connection.read_buffer. fold (bytes_of s).
  pose proof Hsd as [[Hu Hresp Hca] Hck Hpp].
  pose proof (body_call _ _ _ _ _ Hn Hinv) as Hcall.
  destruct (body_parser.parse_body _ _ _) as [[[[st b] p] u]| | |] eqn:Ep; try done. rewrite bind_ok.
  pose proof (body_response _ _ _ _ _ _ _ Ep) as Hr1.
  assert (greedy U -> unblocked st) as Hgr by (intros Hg; by eapply greedy_unblocked).
  apply (body_left False False) in Ep as Hbl; [|done|exact Hu|exact Hwf|exact Hal].
  destruct Hbl as ([Hwf1 Hwl1 _] & Hal1 & Ee1 & Hfull).
  destruct Hcall as ([_ Hok1 _ _] & _ & Hmx & out & Hout & Hpart & Hend). simpl in Hout, Hok1.
  rewrite Ee in Ee1, Hpart, Hend. rewrite Hck in Hmx.
  set (h1 := with_body_parser p u (handler_ s)). set (d1 := connection.set_read_buffer b (socket_ s)).
  set (s1 := State (kernel_ s) h1 d1 (cache_ s)).
  change (announced (handler_ s)) with (announced h1) in *.
  assert (uses s.(kernel_) s.(socket_) s.(kernel_) d1) as Huses by (constructor; auto; apply rtc_refl).
  assert (held h1 (cache_ s)) as Hh1 by (constructor; [exact Hok1|simpl; by rewrite Hr1|done]).
  assert (forall f st', f ∈ callbacks ->
    match st' with socketlib.COMPLETE | socketlib.DENY => True | _ => False end ->
    (st' = socketlib.COMPLETE -> greedy U -> body_output (R := U) (announced h1).1 (announced h1).2 out) ->
    turn_post s (Some st', tell f s1)) as Hends.
  { intros f st' Hf Hs' Hbo. cbn [turn_post stream_post]. split; [done|]. split; [done|].
    assert (finished st' (kernel_ s) (notify f h1) (cache_ s) d1) as Hfin by (by apply (body_ends f st' s d1 h1 _ _ out)).
    by destruct st'. }
  change (connection.open_for_read (socket_ s1)) with (connection.open_for_read d1).
  assert (turn_post s (Some socketlib.DENY, tell invalid_body s1)) as Hdeny by (apply Hends; [callback|done|done]).
  destruct st; try exact Hdeny.
  - apply Hends; [callback|done|done].
  - destruct (connection.open_for_read d1) eqn:Eo; cbn [negb].
    + cbn [yields turn_post stream_post]. split; [done|]. split; [done|]. split; [|].
      * assert (forall b2, wf b2 -> body_aligned False False p b2 -> stage (kernel_ s) h1 (connection.fd_ d1) b2) as Hstage.
        { intros b2 Hw2 Ha2. unfold stage. change (message_state_ h1) with (message_state_ (handler_ s)). rewrite Es.
          split; [done|]. split; [exact Ee1|]. split; [done|]. split; [by apply Hend|done]. }
        constructor; [by constructor|done|by apply Hstage|].
        intros b2 _ Hw2 Hj2. apply Hstage; [done|by eapply body_aligned_just_read].
      * split; [done|]. split; [done|]. left. by destruct (Hfull eq_refl) as [?|[? _]].
    + unfold body_parser.encoding. rewrite Ee1. case_bool_decide as Eend; [|exact Hdeny].
      destruct (handle_body_default u Hok1) as (u2 & b2 & st2 & Hb2 & [Ho2 Ht2 Hr2]). rewrite Hb2, bind_ok.
      assert (finished socketlib.COMPLETE (kernel_ s) (notify request_complete (with_body_parser p u2 h1)) (cache_ s) d1) as Hfin.
      { apply (body_ends request_complete _ s d1 _ _ _ out); [callback|done| |simpl; congruence|done|].
        - constructor; [exact Ho2|simpl; by rewrite Hr2, Hr1|done].
        - intros _ _. change (announced (with_body_parser p u2 h1)) with (announced h1). rewrite Eend. constructor. }
      cbn [yields turn_post stream_post]. split; [done|]. split; [done|]. exact Hfin.
  - apply Hends; [callback|done|]. intros _ Hg. by destruct (Hgr Hg).
  - apply Hends; [callback|done|]. intros _ Hg. by destruct (Hgr Hg).
Qed.

(** ** The loop *)

Lemma http_turn_ok (s : state) : going s -> yields True (turn s) (turn_post s).
Proof.
  intros Hg. unfold turn. destruct (message_state_ (handler_ s)) eqn:Es.
  - by apply push_header_ok.
  - by apply push_body_ok.
  - by apply parse_header_ok.
  - by apply parse_body_ok.
Qed.

Lemma stream_post_from (s0 s : state) x :
  uses s0.(kernel_) s0.(socket_) s.(kernel_) s.(socket_) ->
  connection.state_ s.(socket_) = connection.state_ s0.(socket_) ->
  effort s.(handler_) <= effort s0.(handler_) -> stream_post s x -> stream_post s0 x.
Proof.
  intros Hu Est Heff. destruct x as [st s']. unfold stream_post. intros (Hu' & Hwf & Hst).
  split; [by eapply uses_trans|]. split; [done|]. destruct st; try done.
  - destruct Hst as (? & ? & ? & Hp). split; [done|]. split; [done|]. split; [congruence|].
    destruct Hp as [?|?]; [by left|right; lia].
  - destruct Hst as (? & ? & ?). split; [done|]. split; [done|]. congruence.
Qed.

Lemma http_loop_ok fuel : forall s : state, going s -> (rank s < fuel)%nat ->
  yields True (stream_loop fuel s) (stream_post s).
Proof.
  induction fuel as [|fuel IH]; intros s Hg Hf; [lia|]. cbn [stream_loop].
  eapply yields_bind; [by apply http_turn_ok|]. intros [[st|] s1] Hp; [exact Hp|].
  destruct Hp as (Hu & Hg1 & Hr & Est & He). eapply yields_mono; [apply IH; [done|lia]|].
  intros x Hx. by eapply stream_post_from.
Qed.

Lemma http_stream_ok (s : state) : going s -> yields True (handle_stream s) (stream_post s).
Proof.
  intros Hg. apply http_loop_ok; [done|]. unfold rank. destruct (message_state_ _); lia.
Qed.

(** ** The promises of a client *)

Lemma stage_kernel (k k' : K) h fd b : sent k' fd = sent k fd -> stage k h fd b -> stage k' h fd b.
Proof.
  intros E. unfold stage. destruct (message_state_ h).
  - intros (? & ? & ? & ? & part & [] & ?). do 4 (split; [done|]). exists part. split; [|done]. constructor; congruence.
  - intros (? & part & [] & ?). split; [done|]. exists part. split; [|done]. constructor; congruence.
  - intros []. constructor; congruence.
  - intros (Hs & ?). split; [congruence|done].
Qed.

Lemma serving_kept (k : K) h c d k' d' : serving k h c d -> follows k d k' d' -> serving k' h c d'.
Proof.
  intros [Hs Hwf Hst Hn] [Fs Fo Ff Fw Fb]. specialize (Fw Hwf). constructor; [done|done|..]; rewrite Ff.
  - apply (stage_kernel k); [done|]. destruct Fb as [->|[Hf Hj]]; auto.
  - intros b Hfull Hb Hj. apply (stage_kernel k); [done|]. destruct Fb as [E|[Hf _]]; [|auto]. rewrite E in Hfull. auto.
Qed.

Lemma waiting_kept (k : K) h c d k' d' : waiting k h c d -> follows k d k' d' -> waiting k' h c d'.
Proof.
  intros [? ? ? ? ? []] [Fs Fo Ff Fw Fb]. constructor; try done. rewrite Ff. constructor; [congruence|done|done|].
  destruct Fb as [->|[_ (_ & _ & E)]]; [done|lia].
Qed.

Lemma connect_ok (k : K) h c d : waiting k h c d -> wf (connection.buffer_ d) ->
  serving k (connect h) c d.
Proof.
  intros [Hsd Es [Hpr Hreq] Hwr [He Hwin] Hua] Hwf.
  assert (stage k (connect h) (connection.fd_ d) (connection.buffer_ d)) as Hst.
  { destruct (writer_start _ _ Hwr Hpr) as [Hinv Hp]. rewrite Hreq in *.
    unfold stage. change (message_state_ (connect h)) with (message_state_ h). rewrite Es.
    split; [done|]. split; [exact Hinv|]. split; [done|]. split; [done|].
    exists []. split; [by destruct Hua|exact Hp]. }
  constructor; [by destruct Hsd as [[] ]|done|done|]. intros b _ _ Hj.
  eapply stage_next; [|exact Hst|done]. change (message_state_ (connect h)) with (message_state_ h). by rewrite Es.
Qed.

Lemma http_shutdown_ok (h : t U) c : held h c -> returns (shutdown h c).
Proof.
  intros [Hu Hm Hc]. unfold shutdown. eapply yields_bind; [|by intros [hh c'] _].
  eapply yields_mono; [by apply (reset_yields z)|done].
Qed.

End exchange.

(** The handler as a client of client/client_handler.cpp. *)
#[export] Program Instance http_client_laws {K} `{OsLaws K} {U} `{HttpUser U} (z : sizes) (base base_body : list Z)
    (req : msg) : ClientLaws K (t U * header_cache) | 10 := {
  client_waiting k hc d := waiting z base base_body req k hc.1 hc.2 d /\ wf (connection.buffer_ d);
  client_serving k hc d := serving z base base_body req k hc.1 hc.2 d;
  client_done st k hc d := finished z base base_body req st k hc.1 hc.2 d;
  client_sound hc := held z hc.1 hc.2;
  client_effort hc := effort hc.1;
  client_bound := line_bound
}.
Next Obligation.
  intros K Hos Hlaws U H1 H2 z base base_body req k [h c] d k' d' [Hw Hwf] Hf. simpl in *.
  split; [by eapply waiting_kept|by apply (fo_wf _ _ _ _ Hf)].
Qed.
Next Obligation. intros K Hos Hlaws U H1 H2 z base base_body req k [h c] d k' d' Hs Hf. by eapply serving_kept. Qed.
Next Obligation. intros K Hos Hlaws U H1 H2 z base base_body req k [h c] d [Hw _]. apply Hw. Qed.
Next Obligation.
  intros K Hos Hlaws U H1 H2 z base base_body req k [h c] d [Hs _ _ _]. split; [apply Hs|by eapply effort_bounds].
Qed.
Next Obligation. intros K Hos Hlaws U H1 H2 z base base_body req st k [h c] d Hf. apply Hf. Qed.
Next Obligation.
  intros K Hos Hlaws U H1 H2 z base base_body req [h c] Hh. simpl in *.
  split; apply (held_notify z _ h c); try done; apply elem_callbacks; cbn; tauto.
Qed.
Next Obligation.
  intros K Hos Hlaws U H1 H2 z base base_body req [h c] Hh. by apply (http_shutdown_ok z).
Qed.
Next Obligation.
  intros K Hos Hlaws U H1 H2 z base base_body req k [h c] d [Hw Hwf] Ho. simpl in *.
  split; [apply uses_refl|]. split; [by apply connect_ok|done].
Qed.
Next Obligation.
  intros K Hos Hlaws U H1 H2 z base base_body req k [h c] d Hs Ho Hwf. simpl in *.
  eapply yields_bind; [apply (http_stream_ok z base base_body req (State k h d c)); by destruct Hs|].
  intros [st s'] Hp. simpl. exact Hp.
Qed.
