(* ===== verification/ClientProperties.v ===== *)
(** What becomes of a connection that this side begins, with the HTTP client
    on it: it is served to its end, the request goes out whole before the
    response is read, and the user is handed the body that the response
    announced. *)
From stdpp Require Import list gmap.
From S2P Require Import Prelude Status ReadWriteBuffer HttpLex Interfaces HeaderStore HeaderHandler.
From S2P Require Import HeaderParser HandlerSafety BodyParsers BodyRun Os Connection Net Poller HeaderWriter.
From S2P Require Import StreamBody StreamMoves StreamSafety ClientHandler HttpClient ProxyFrame ClientEvents HttpExchange.

Import client_handler.

(** * A new client *)

Lemma make_waiting {K} `{OsLaws K} {U} `{HttpUser U} z (u : U) be i ws c h c1 (k : K) d :
  user_ok u -> message_kept z (get_response u) -> cache_ok z c -> printable (get_request u) ->
  http_client_handler.make u be i ws c = Ok (h, c1) ->
  just_read (connection.buffer_ d) ->
  waiting z (sent k (connection.fd_ d)) (taken u) (message_of (get_request u)) k h c1 d.
Proof.
  intros Hu Hm Hc Hp Hmk Hj. unfold http_client_handler.make, header_handler.make in Hmk.
  apply bind_ok_inv in Hmk as ([hh1 c2] & Hr1 & Hmk). apply bind_ok_inv in Hmk as ([hh2 c3] & Hr2 & [= <- <-]).
  eapply yields_ok in Hr1; [|eapply (reset_yields z); [exact Hm|exact Hc]]. destruct Hr1 as [Hm1 Hc1].
  set (u1 := assign_response (header_handler.get_message_buffer hh1) u) in *.
  destruct (response_assigned (header_handler.get_message_buffer hh1) u Hu) as (Er1 & Eq1 & Et1 & Hu1).
  fold u1 in Er1, Eq1, Et1, Hu1. unfold http_client_handler.response_handler in Hr2.
  cbn [http_client_handler.p_http_client_ http_client_handler.header_handler_] in Hr2. rewrite Er1 in Hr2.
  eapply yields_ok in Hr2; [|eapply (reset_yields z); [exact (message_ok_kept _ _ Hm1)|exact Hc1]].
  destruct Hr2 as [Hm2 Hc2].
  destruct (response_assigned (header_handler.get_message_buffer hh2) u1 Hu1) as (Er2 & Eq2 & Et2 & Hu2).
  constructor; simpl.
  - constructor; [constructor; simpl; [done|rewrite Er2; by apply message_ok_kept|done]|done|done].
  - done.
  - by rewrite Eq2, Eq1.
  - apply make_writer_ok.
  - assert (static_buffer message_buffer.new_line (rwb.reset (rwb.make_static (Some strings_.(endline_))))) as He
      by apply (static_buffer_reset _ _ (wo_endline _ (make_writer_ok i ws))).
    split; [done|]. reflexivity.
  - constructor; simpl; [by rewrite app_nil_r|congruence|by rewrite Er2|]. destruct Hj as (_ & _ & E). lia.
Qed.

(** What an exchange has come to: [l] was sent, [u] is the user, [h] the
    handler. *)
Definition exchanged {U} `{HttpUser U} (base base_body : list Z) (req : msg) (h : http_client_handler.t U)
    (sent_now : list Z) : Prop :=
  let taken_now := taken h.(http_client_handler.p_http_client_) in
  exists l, sent_now = base ++ l /\ l `prefix_of` asked req /\
    (taken_now = base_body \/ l = asked req /\ exists out, taken_now = base_body ++ out /\
       body_part (R := U) (announced h).1 (announced h).2 out).

Lemma unanswered_exchanged {K} `{OsLaws K} {U} `{HttpUser U} z base base_body req l (k : K) (h : http_client_handler.t U) fd b :
  unanswered z base base_body l k h fd b -> l `prefix_of` asked req ->
  exchanged base base_body req h (sent k fd).
Proof. intros [] Hl. exists l. auto. Qed.

Lemma stage_exchanged {K} `{OsLaws K} {U} `{HttpUser U} z base base_body req (k : K) (h : http_client_handler.t U) fd b :
  stage z base base_body req k h fd b -> exchanged base base_body req h (sent k fd).
Proof.
  unfold stage. destruct (http_client_handler.message_state_ h).
  - intros (_ & _ & _ & _ & part & Hua & Hp). eapply unanswered_exchanged; [done|]. unfold asked. rewrite <- Hp, <- app_assoc.
    by apply prefix_app_r.
  - intros (_ & part & Hua & Hp). eapply unanswered_exchanged; [done|]. unfold asked. rewrite <- Hp.
    apply prefix_app. by apply prefix_app_r.
  - intros Hua. by eapply unanswered_exchanged.
  - intros (Hs & He & [Hn _] & Hinv & _). destruct (body_inv_part _ _ _ _ _ Hn Hinv) as (out & Ho & Hp).
    exists (asked req). split; [done|]. split; [done|]. right. split; [done|]. exists out. by rewrite <- He.
Qed.

(** ** A user and a network to try them with *)

(** The user keeps what it is handed; a stingy one takes nothing. *)
Record sample_user (stingy : bool) := SampleUser {
  su_request : message_buffer.t;
  su_response : message_buffer.t;
  su_taken : list Z;
  su_complete : bool
}.
Arguments SampleUser {stingy}.
Arguments su_request {stingy}.
Arguments su_response {stingy}.
Arguments su_taken {stingy}.
Arguments su_complete {stingy}.

#[export] Instance sample_client (stingy : bool) : i_http_client (sample_user stingy) := {
  invalid_header u := u;
  invalid_body u := u;
  user_dns_failed u := u;
  user_connect_failed u := u;
  user_timeout u := u;
  user_shutdown u := u;
  send_header_failed u := u;
  send_body_failed u := u;
  headers_complete u := u;
  handle_body u b _ :=
    let k := if stingy then O else length (window b) in
    Ok (SampleUser u.(su_request) u.(su_response) (u.(su_taken) ++ take k (window b)) u.(su_complete),
        written_to (b.(write_position_) + Z.of_nat k) b, if stingy then http.IOFAILURE else http.COMPLETE);
  request_complete u := SampleUser u.(su_request) u.(su_response) u.(su_taken) true;
  get_request u := u.(su_request);
  assign_request m u := SampleUser m u.(su_response) u.(su_taken) u.(su_complete);
  get_response u := u.(su_response);
  assign_response m u := SampleUser u.(su_request) m u.(su_taken) u.(su_complete)
}.

#[export] Program Instance sample_keeps (stingy : bool) : HttpUser (sample_user stingy) := {
  user_ok _ := True;
  taken := su_taken
}.
Next Obligation. by intros stingy m u _. Qed.
Next Obligation. by intros stingy m u _. Qed.
Next Obligation.
  intros stingy f u Hf _. apply list_elem_of_In in Hf. cbn in Hf.
  repeat (destruct Hf as [<-|Hf]; [by constructor|]). done.
Qed.
Next Obligation.
  intros stingy u b c _ Hwf. cbn. exists (if stingy then O else length (window b)).
  split; [done|]. split; [destruct stingy; lia|]. split; [done|]. by destruct stingy.
Qed.
Next Obligation. by intros stingy u b c u' b' st [= <- _ _]. Qed.
Next Obligation.
  intros stingy u _. cbn. do 3 eexists. split; [done|]. constructor; cbn; [done| |done].
  destruct stingy; by rewrite app_nil_r.
Qed.

#[export] Instance sample_monitor : i_fp_monitor (list Z) := {
  add_fd m fd := fd :: m;
  remove_fd m fd := List.filter (fun x => negb (x =? fd)) m
}.

Definition sample_response : message_buffer.t := message_buffer.make true 16 16 16 4.

Lemma sample_response_kept : message_kept sample_sizes sample_response.
Proof. constructor; simpl; done || by apply stored_kept, stored_make. Qed.

Definition sample_new (stingy : bool) : sample_user stingy :=
  SampleUser HeaderStore.sample_message sample_response [] false.

Definition sample_make (stingy : bool) : res (http_client_handler.t (sample_user stingy) * header_cache) :=
  http_client_handler.make (sample_new stingy) http.NONE 0 header_writer.FIELD_NAME sample_pool.

(** The kernel answers 100 bytes to every write, and a response to the first
    read. *)
Definition sample_answer : list Z :=
  str "HTTP/1.0 200 OK" ++ [CR; LF] ++ str "Content-Length: 2" ++ [CR; LF; CR; LF] ++ str "hi".
Definition sample_kernel : host :=
  Host {[5 := Script (replicate 20 (inl 100%nat)) [inl sample_answer] []]} [5] [] [] [] ∅ ∅.

Definition sample_object (c : http_client_handler.t (sample_user false) * header_cache)
    : client_handler.state host (http_client_handler.t (sample_user false) * header_cache) (list Z) :=
  State sample_kernel (make 9 64 30 (Some c)) (Some []).

Abbreviation sample_state :=
  (client_handler.state host (http_client_handler.t (sample_user false) * header_cache) (list Z)).

(** The request goes out with the first event, the response comes with the
    second. *)
Record sample_trace (c : http_client_handler.t (sample_user false) * header_cache) (s1 s s' : sample_state) : Prop := {
  st_make : sample_make false = Ok c;
  st_begin : initiate_server_connect (A := Z) 1 (7, 80) (sample_object c) = Ok (Alive, s1, socketlib.COMPLETE);
  st_write : handle_event (A := Z) 5000 5 EV_WRITE s1 = Ok (Alive, s);
  st_read : handle_event (A := Z) 5000 5 EV_READ s = Ok (Deleted, s');
  st_taken : (fun c => su_taken (http_client_handler.p_http_client_ c.1)) <$> s'.(handler_).(p_client_) = Some (str "hi");
  st_fd : connection.fd_ (data s1) = 5;
  st_fd_still : connection.fd_ (data s) = 5;
  st_nothing_sent : sent s1.(kernel_) 5 = [];
  st_reads : reads (A := Z) s1 = 1%nat;
  st_reads_left : reads (A := Z) s = 1%nat;
  st_buffer : connection.buffer_ (data s1) = connection.buffer_ (connection.reset (connection.make 64))
}.

Lemma sample_traced : exists c s1 s s', sample_trace c s1 s s'.
Proof.
  do 4 eexists. constructor; [vm_compute; reflexivity|vm_compute; reflexivity|vm_compute; reflexivity|
    vm_compute; reflexivity|reflexivity..].
Qed.

Definition sample_promises : ClientLaws host (http_client_handler.t (sample_user false) * header_cache) :=
  http_client_laws sample_sizes [] [] (message_of HeaderStore.sample_message).

Lemma sample_printable : printable HeaderStore.sample_message.
Proof. exact (printable_ok _ _ sample_message_ok). Qed.

Lemma meanwhile_refl {K} `{OsLaws K} fd (k : K) : meanwhile fd k k.
Proof. by constructor. Qed.

Lemma with_data_same {K C M} (s : client_handler.state K C M) : with_data s.(kernel_) (data s) s = s.
Proof. by destruct s as [? [] ?]. Qed.

Lemma sample_fuel (s : sample_state) : reads (A := Z) s = 1%nat ->
  event_fuel (A := Z) (ClientLaws0 := sample_promises) (with_data s.(kernel_) (data s) s) <= Z.of_nat 5000.
Proof. intros Hr. rewrite with_data_same. unfold event_fuel. rewrite Hr. vm_compute. discriminate. Qed.

(** The first of the two events. *)
Lemma sample_runs c s1 s s' :
  sample_trace c s1 s s' -> runs (A := Z) (ClientLaws0 := sample_promises) s1 s.
Proof.
  intros []. eapply (runs_event _ s1 s1.(kernel_) 5000 5 EV_WRITE);
    [constructor|apply meanwhile_refl|by rewrite with_data_same|by apply sample_fuel].
Qed.

Lemma sample_waiting c s1 s s' : sample_trace c s1 s s' ->
  client_waiting (ClientLaws := sample_promises) s1.(kernel_) c (data s1).
Proof.
  intros []. destruct c as [h c1]. split; [|rewrite st_buffer0; apply reset_wf; by apply make_wf].
  pose proof (make_waiting sample_sizes (sample_new false) http.NONE 0 header_writer.FIELD_NAME sample_pool h c1
    s1.(kernel_) (data s1) I sample_response_kept sample_pool_ok sample_printable st_make0) as Hw.
  rewrite st_fd0, st_nothing_sent0, st_buffer0 in Hw. exact (Hw (reset_just_read _)).
Qed.

(** What the call for an event may come to: one of its checks may stop the
    program, but it ends. *)
Definition handled {K A C M : Type}
    `{NetLaws K A, !FiniteReads K A, !i_client K C, !ClientLaws K C, !i_fp_monitor M}
    (s : client_handler.state K C M) (r : res (life * client_handler.state K C M)) : Prop :=
  match r with
  | Ok (Alive, s') => alive s' /\ waits (A := A) s'
  | Ok (Deleted, s') => gone (A := A) s s'
  | Aborted | Undef => True
  | NoFuel => False
  end.

(** The receiver of a body did not take all it was handed. *)
Definition receiver_blocked (st : http.STATUS) : Prop := st = http.WRITE_INCOMPLETE \/ st = http.IOFAILURE.

(** * Properties *)

(** C10: a connection this side begins is served to its end, with any client
    that keeps its promises.  After the first call and after any sequence of
    events that left the object alive, its event is registered for at least
    one direction: for both while the connection is under way, and later for
    every direction that is open and not known to be ready.  The next event
    is handled within a number of turns bounded by what the socket still
    answers.  Unless one of its checks stops the program, it leaves the object
    alive and waiting again, or deletes it; then no event is left that would call it, and the client was shut down exactly
    once, after a timeout, a connection that failed, or a stream that ended. *)
Theorem client_served_to_its_end {K A C M : Type}
    `{NetLaws K A, !FiniteReads K A, !i_client K C, !ClientLaws K C, !i_fp_monitor M}
    (s0 s1 s : client_handler.state K C M) c this a st :
  unused (A := A) s0 -> s0.(handler_).(p_client_) = Some c -> client_sound c ->
  initiate_server_connect this a s0 = Ok (Alive, s1, st) -> client_waiting s1.(kernel_) c (data s1) ->
  runs (A := A) s1 s ->
  alive s /\ waits (A := A) s /\
  forall k fuel fd revents, meanwhile (connection.fd_ (data s)) s.(kernel_) k ->
    event_fuel (A := A) (with_data k (data s) s) <= Z.of_nat fuel ->
    handled (with_data k (data s) s) (handle_event (A := A) fuel fd revents (with_data k (data s) s)).
Proof.
  intros Hu Hc Hs Hi Hcw Hr.
  pose proof (yields_ok _ _ _ _ (client_initiate_ok s0 c this a Hu Hc Hs) Hi) as Hb.
  destruct (begun_alive _ _ _ _ (un_wf _ Hu) Hc Hb Hcw) as [Ha1 Hw1].
  destruct (runs_alive _ _ Ha1 Hw1 Hr) as [Ha Hw]. split; [done|]. split; [done|].
  intros k fuel fd revents Hm Hf. pose proof (client_event_ok _ fuel fd revents (alive_meanwhile _ _ Ha Hm) Hf) as He.
  unfold handled. destruct (handle_event _ _ _ _) as [[[] s']| | |]; try done. by destruct He as (? & ? & _).
Qed.

Lemma client_served_to_its_end_witness :
  exists c s1 s s', sample_trace c s1 s s' /\ alive (ClientLaws0 := sample_promises) s /\
    waits (A := Z) s /\ gone (A := Z) (ClientLaws0 := sample_promises) s s'.
Proof.
  destruct sample_traced as (c & s1 & s & s' & Ht). exists c, s1, s, s'. split; [done|].
  assert (connection.fd_ (data (sample_object c)) = -1 /\ wf (connection.buffer_ (data (sample_object c)))) as [_ Hwf]
    by (split; [done|apply reset_wf; by apply make_wf]).
  pose proof (sample_waiting _ _ _ _ Ht) as Hw.
  destruct (client_served_to_its_end (A := Z) (ClientLaws0 := sample_promises) (sample_object c) s1 s c 1 (7, 80)
    socketlib.COMPLETE) as (Ha & Hwt & Hnext); [by constructor|done| |apply Ht|done|by eapply sample_runs|].
  { exact (waiting_sound (ClientLaws := sample_promises) _ _ _ Hw). }
  split; [done|]. split; [done|].
  specialize (Hnext s.(kernel_) 5000%nat 5 EV_READ (meanwhile_refl _ _) (sample_fuel _ (st_reads_left _ _ _ _ Ht))).
  rewrite with_data_same, (st_read _ _ _ _ Ht) in Hnext. exact Hnext.
Defined.



(** A user that does not take all it is handed is told that the request
    is complete: of the statuses with which the parser of the body stops,
    those of a receiver that blocked or failed are taken for the end of the
    body. *)
Theorem blocked_body_completes {K U : Type} `{os K, i_http_client U} (k : K) (h : http_client_handler.t U) d c st b p u :
  h.(http_client_handler.message_state_) = http_client_handler.PARSE_BODY ->
  body_parser.parse_body h.(http_client_handler.body_parser_) h.(http_client_handler.p_http_client_)
    (connection.buffer_ d) = Ok (st, b, p, u) ->
  receiver_blocked st ->
  exists h', http_client_handler.handle_stream (http_client_handler.State k h d c) =
    Ok (socketlib.COMPLETE, http_client_handler.State k h' (connection.set_read_buffer b d) c) /\
    h'.(http_client_handler.p_http_client_) = request_complete u.
Proof.
  intros Es Ep Hst. unfold http_client_handler.handle_stream, http_client_handler.stream_loop, http_client_handler.turn.
  cbn [http_client_handler.handler_]. rewrite Es. unfold http_client_handler.do_parse_body.
  cbn [http_client_handler.handler_ http_client_handler.socket_]. unfold connection.read_buffer. rewrite Ep, bind_ok.
  destruct Hst as [-> | ->]; rewrite bind_ok; by eexists.
Qed.

(** The body is two bytes long; the user took none and was told that the
    request is complete. *)
Definition stingy_handler : res (http_client_handler.t (sample_user true)) :=
  '(h, _) ← sample_make true;
  Ok (http_client_handler.with_body_parser
        (body_parser.reset http.CONTENT_LENGTH 2 h.(http_client_handler.body_parser_))
        h.(http_client_handler.p_http_client_) (http_client_handler.with_state http_client_handler.PARSE_BODY h)).

Lemma blocked_body_completes_witness :
  exists h h' k' d' c', stingy_handler = Ok h /\
    http_client_handler.handle_stream (http_client_handler.State sample_kernel h
      (connection.set_read_buffer (store 16 (str "hi")) (connection.make 16)) sample_pool) =
      Ok (socketlib.COMPLETE, http_client_handler.State k' h' d' c') /\
    su_taken h'.(http_client_handler.p_http_client_) = [] /\
    su_complete h'.(http_client_handler.p_http_client_) = true.
Proof.
  destruct stingy_handler as [h| | |] eqn:Eh; try (vm_compute in Eh; discriminate). exists h.
  set (d := connection.set_read_buffer (store 16 (str "hi")) (connection.make 16)).
  destruct (body_parser.parse_body h.(http_client_handler.body_parser_) h.(http_client_handler.p_http_client_)
    (connection.buffer_ d)) as [[[[st b] p] u]| | |] eqn:Ep;
    [|revert Ep; vm_compute in Eh; injection Eh as <-; vm_compute; discriminate..].
  assert (st = http.IOFAILURE /\ su_taken u = [] /\ h.(http_client_handler.message_state_) = http_client_handler.PARSE_BODY)
    as (Est & Eu & Em)
    by (revert Ep; vm_compute in Eh; injection Eh as <-; vm_compute; intros [= <- _ _ <-]; done).
  destruct (blocked_body_completes (U := sample_user true) sample_kernel h d sample_pool st b p u Em Ep (or_intror Est))
    as (h' & Hh & Hu).
  exists h'. do 3 eexists. split; [done|]. split; [exact Hh|]. by rewrite Hu, <- Eu.
Defined.
