(* ===== verification/ProxyEnds.v ===== *)
(** The loops of proxylib/proxy_handler.cpp end: [handle_stream] in each
    direction, and [handle_event].  There is one way in which they do not: the
    server has sent bytes and no request is complete that they could answer.
    Then the response stream says that it is done with the buffer, the buffer
    is not written, the socket is still ready, and the loop turns for ever. *)
From stdpp Require Import list gmap.
From S2P Require Import Prelude Status ReadWriteBuffer HttpLex Interfaces HeaderStore HeaderHandler.
From S2P Require Import HeaderParser HandlerSafety BodyParsers BodyRun Os Connection Net Poller HeaderWriter Printf.
From S2P Require Import MemoryManager Pipeline Url StreamHandler ProxyHandler StreamBody StreamFrame StreamMoves.
From S2P Require Import NewConnection ProxyFrame StreamSafety ProxySafety ServerSafety ServerLiveness StreamEnds StreamProgress.

Import proxy_stream_interface proxy_handler.

Section ends.
Context {K A : Type} `{NetLaws K A, !FiniteReads K A}.
Variable host_rules_ : gmap (list Z) (host_rules.t A).
Variable request_postprocessor_ : option (message_buffer.t -> res (bool * message_buffer.t)).
Variable localtime : nat -> log_record.tm.
Variable zs : line -> sizes.
Hypothesis Hname : (zs REQUEST_LINE).(n_name) = (zs RESPONSE_LINE).(n_name).
Hypothesis Hvalue : (zs REQUEST_LINE).(n_value) = (zs RESPONSE_LINE).(n_value).
Hypothesis Hrules : rules_ok host_rules_.
Hypothesis Hpost : forall s, postprocessor_ok (zs s) request_postprocessor_.

Abbreviation proxy_ok := (proxy_ok host_rules_ request_postprocessor_ localtime zs).
Abbreviation process_source := (process_source host_rules_ request_postprocessor_ localtime).
Abbreviation stream_turn := (stream_turn host_rules_ request_postprocessor_ localtime).
Abbreviation stream_loop := (stream_loop host_rules_ request_postprocessor_ localtime).
Abbreviation handle_stream := (handle_stream host_rules_ request_postprocessor_ localtime).
Abbreviation attempt_jit_server_connect := (attempt_jit_server_connect host_rules_).

(** ** What a turn reduces *)

(** The reads the source still answers, *)
Definition reads_left (s : line) (p : proxy_handler.t A) (e : env K A) : nat :=
  read_calls (A := A) e.(env_kernel) (connection.fd_ (src_of s p)).

(** and, of the buffer that was read last, what its stream can do with it. *)
Definition level (s : line) (p : proxy_handler.t A) (e : env K A) : Z :=
  if rwb.fully_written (connection.buffer_ (src_of s p)) then 0
  else match stream_of s p e with
       | Ok (_, h) => 1 + Z.max 0 (potential h (world_of s p e) (connection.buffer_ (src_of s p)))
       | _ => 1
       end.

(** A line that does not go on: its source is ready, its buffer is not
    written, and the stream handler says that it is done with it. *)
Definition stalled (s : line) (p : proxy_handler.t A) (e : env K A) : Prop :=
  connection.ready_to_read (src_of s p) = true /\
  rwb.fully_written (connection.buffer_ (src_of s p)) = false /\
  exists q h, stream_of s p e = Ok (q, h) /\ (unasked h (world_of s p e) \/ unmarked h).

(** ** The parts of a turn *)

Lemma read_left s p e p1 e1 :
  read_source s p e = Ok (p1, e1) -> connection.ready_to_read (src_of s p1) = true ->
  p1 = p /\ e1 = e /\ rwb.fully_written (connection.buffer_ (src_of s p)) = false \/
  (reads_left s p1 e1 < reads_left s p e)%nat.
Proof.
  intros Hr Hrdy. unfold read_source in Hr. set (c := src_of s p) in *. unfold connection.state in Hr.
  assert (forall p0 : proxy_handler.t A, connection.ready_to_read (src_of s p0) = true ->
    connection.state_ (src_of s p0) <> connection.NOT_CONNECTED /\ connection.state_ (src_of s p0) <> connection.CONNECTING)
    as Hopen.
  { intros p0 Hp0. unfold connection.ready_to_read, connection.open_for_read in Hp0.
    split; intros E; rewrite E, andb_false_r in Hp0; done. }
  destruct (_ && _) eqn:Ec.
  2: { injection Hr as <- <-. destruct (Hopen _ Hrdy) as [N1 N2]. fold c in N1, N2.
       by rewrite !bool_decide_eq_true_2 in Ec. }
  apply bind_ok_inv in Hr as ([[k c1] st] & Hc & [= <- <-]). replace (src_of s (with_src s c1 p)) with c1 in Hrdy by by destruct s.
  unfold reads_left. replace (src_of s (with_src s c1 p)) with c1 by by destruct s. fold c. cbn [env_kernel with_kernel].
  destruct (read_progress _ _ _ _ _ Hc Hrdy) as [(-> & -> & Ef)|Hlt]; [left|by right].
  unfold c. rewrite with_src_same. by destruct e.
Qed.

(** What the stream left, in the proxy. *)
Record processed (s : line) (p : proxy_handler.t A) (e : env K A) (st : socketlib.STATUS) (p2 : proxy_handler.t A)
    (e2 : env K A) (q : Z) (h h' : stream_handler A) (w' : world K) (b' : read_write_buffer) : Prop := {
  pr_handler : stream_of s p e = Ok (q, h);
  pr_left : call_left h (world_of s p e) (connection.buffer_ (src_of s p)) (st, h', w', b');
  pr_wf : wf (connection.buffer_ (src_of s p)) /\ wf b';
  pr_length : 0 <= header_parser.current_length_ h.(http_proxy_stream_handler.header_parser_) /\
    0 <= header_parser.current_length_ h'.(http_proxy_stream_handler.header_parser_);
  pr_request : h.(http_proxy_stream_handler.stream_type_) = REQUEST -> not (refusing h') /\
    h'.(http_proxy_stream_handler.stream_type_) = REQUEST;
  pr_next : stream_of s p2 e2 = Ok (q, h');
  pr_src : src_of s p2 = connection.set_read_buffer b' (src_of s p);
  pr_reads : (reads_left s p2 e2 <= reads_left s p e)%nat;
  pr_queue : (world_of s p2 e2).(StreamHandler.pipeline_data_queue_) = w'.(StreamHandler.pipeline_data_queue_);
  pr_heap : (world_of s p2 e2).(heap_) = w'.(heap_)
}.

Lemma process_source_left base s p e p2 e2 st :
  proxy_ok base p e -> process_source s p e = Ok (p2, e2, st) ->
  exists q h h' w' b', processed s p e st p2 e2 q h h' w' b'.
Proof.
  intros Hp Hc. destruct (line_inv _ _ _ _ Hrules Hpost _ _ _ _ (px_line _ _ _ _ _ _ _ Hp s)) as (q & h & fs & st0 & Hq & Hh & Hr & Hi).
  unfold proxy_handler.process_source, stream_of in Hc. rewrite Hq in Hc. cbn [of_option] in Hc. rewrite bind_ok, Hh in Hc.
  cbn [of_option] in Hc. rewrite !bind_ok in Hc.
  apply bind_ok_inv in Hc as ([[[st' h'] w'] b'] & Hd & Hc). apply bind_ok_inv in Hc as ([p1 e1] & Hl & [= <- <- <-]).
  apply reach_call in Hr. pose proof (yields_ok _ _ _ _ (process_reach _ _ _ _ Hrules (Hpost s) _ _ _ _ _ Hr) Hd)
    as [fs' Hr']. pose proof (process_left _ _ _ _ Hrules (Hpost s) _ _ _ _ _ _ Hr Hd) as Hleft.
  exists q, h, h', w', b'. apply process_moves in Hd as Hmv. destruct Hmv as [Hsrc Hdest].
  change (p_src_data_ (world_of s p e)) with (Some (src_of s p)) in Hsrc.
  change (p_dest_data_ (world_of s p e)) with (Some (dest_of s p)) in Hdest.
  change (kernel_ (world_of s p e)) with e.(env_kernel) in Hdest.
  destruct (p_dest_data_ w') as [c'|] eqn:Ed; [|done].
  unfold leave_world in Hl. rewrite Hsrc, Ed in Hl. cbn [of_option] in Hl. rewrite !bind_ok in Hl.
  injection Hl as <- <-. set (p2 := with_src s _ _). set (e2 := with_stream _ _ _).
  assert (src_of s p2 = connection.set_read_buffer b' (src_of s p)) as Esrc by (by destruct s).
  destruct (reach_inv _ _ _ _ Hrules (Hpost s) _ _ _ _ _ _ Hr') as (Hwf' & Hw' & _).
  destruct Hi as (Hwf & Hw & _). constructor.
  - unfold stream_of. rewrite Hq. cbn [of_option]. by rewrite bind_ok, Hh.
  - exact Hleft.
  - done.
  - split; [apply Hw|apply Hw'].
  - intros Et. pose proof (process_kind _ _ _ _ Hrules (Hpost s) _ _ _ _ _ _ _ _ _ Hr Hd) as Ek. rewrite Et in Ek.
    split; [|done]. exact (request_never_refuses _ _ _ _ Hrules (Hpost s) _ _ _ _ _ _ Hr' Ek).
  - unfold stream_of. replace (handler_of s p2) with (handler_of s p) by by destruct s. rewrite Hq. cbn [of_option].
    rewrite bind_ok. unfold e2. simpl. by rewrite lookup_insert_eq.
  - exact Esrc.
  - unfold reads_left. rewrite Esrc. apply sends_reads. apply Hdest.
  - by destruct s.
  - done.
Qed.

(** A connection is made for the request line; its source is the client. *)
Lemma add_event_reads (k : K) ev m t k' fd : poller.add_event A k ev m t = Ok k' ->
  (read_calls (A := A) k' fd <= read_calls (A := A) k fd)%nat.
Proof.
  unfold poller.add_event. intros Ha. apply bind_ok_inv in Ha as (k1 & H1' & Ha).
  assert (read_calls (A := A) k1 fd <= read_calls (A := A) k fd)%nat as Hle.
  { destruct (poller.pending _ _ _); [|by injection H1' as <-]. apply bind_ok_inv in H1' as (k2 & Hd & H1').
    apply bind_ok_inv in H1' as (? & _ & [= <-]). unfold poller.del_event in Hd.
    destruct (_ && _); [|by injection Hd as <-].
    apply bind_ok_inv in Hd as (? & _ & [= <-]). apply reads_event_del. }
  pose proof (reads_fcntl (A := A) k1 (event.fd_ ev) fd) as Hf.
  destruct (sys_fcntl_setfl k1 _) as [k2 set]. cbn [fst] in Hf. destruct (negb set); [injection Ha as <-; lia|].
  apply bind_ok_inv in Ha as (? & _ & [= <-]).
  etransitivity; [apply reads_event_add|]. etransitivity; [apply reads_event_set|]. lia.
Qed.

Lemma initiate_reads this a (p : proxy_handler.t A) (e : env K A) (p' : proxy_handler.t A) (e' : env K A) st : initiate_server_connect this a p e = Ok (p', e', st) ->
  client_data_ p' = client_data_ p /\ (forall s, handler_of s p' = handler_of s p) /\ e'.(env_streams) = e.(env_streams) /\
  (reads_left REQUEST_LINE p' e' <= reads_left REQUEST_LINE p e)%nat.
Proof.
  unfold initiate_server_connect. pose proof (fun fd => reads_socket (A := A) (env_kernel e) fd) as R1.
  destruct (sys_socket (A := A) (env_kernel e)) as [k1 fd] eqn:Es. cbn [fst] in R1.
  destruct (connection.set_fd k1 fd (server_data_ p)) as [k2 c] eqn:Ec.
  assert (forall fd, (read_calls (A := A) k2 fd <= read_calls (A := A) (env_kernel e) fd)%nat) as R2.
  { intros fd0. etransitivity; [|apply R1]. unfold connection.set_fd in Ec.
    destruct (negb _); injection Ec as <- _; [apply reads_cork|done]. }
  unfold reads_left. intros Hi. destruct (_ =? -1); [by injection Hi as <- <- _|]. unfold event.set in Hi.
  apply bind_ok_inv in Hi as (k3 & Ha & Hi). pose proof (fun fd => add_event_reads _ _ _ _ _ fd Ha) as R3.
  pose proof (fun fd => reads_connect k3 (connection.fd c) a fd) as R4.
  destruct (sys_connect k3 _ a) as [k4 x]. cbn [fst] in R4.
  assert (read_calls (A := A) k4 (connection.fd_ (client_data_ p)) <=
    read_calls (A := A) (env_kernel e) (connection.fd_ (client_data_ p)))%nat as R5.
  { etransitivity; [apply R4|]. etransitivity; [apply R3|]. etransitivity; [apply reads_event_set|apply R2]. }
  destruct x as [[]|[]]; try done; by injection Hi as <- <- _.
Qed.

Lemma attempt_left this s p e p' e' st q h :
  attempt_jit_server_connect this s p e = Ok (p', e', st) -> stream_of s p e = Ok (q, h) ->
  src_of s p' = src_of s p /\ (reads_left s p' e' <= reads_left s p e)%nat /\
  (exists h', stream_of s p' e' = Ok (q, h') /\ h' = http_proxy_stream_handler.with_address h'.(http_proxy_stream_handler.forward_address_) h) /\
  (s = RESPONSE_LINE -> p' = p /\ e' = e).
Proof.
  intros Ha Hs. unfold proxy_handler.attempt_jit_server_connect in Ha.
  assert (p' = p -> e' = e -> src_of s p' = src_of s p /\ (reads_left s p' e' <= reads_left s p e)%nat /\
    (exists h', stream_of s p' e' = Ok (q, h') /\ h' = http_proxy_stream_handler.with_address h'.(http_proxy_stream_handler.forward_address_) h) /\
    (s = RESPONSE_LINE -> p' = p /\ e' = e)) as Hsame.
  { intros -> ->. do 2 (split; [done|]). split; [|done]. exists h. split; [done|apply address_same]. }
  destruct s; [|by injection Ha as <- <- _; apply Hsame].
  destruct (bool_decide _); [|by injection Ha as <- <- _; apply Hsame].
  rewrite Hs, bind_ok in Ha. apply bind_ok_inv in Ha as ([x h'] & Hx & Ha). apply forward_address_same in Hx.
  assert (forall p' e' : _, client_data_ p' = client_data_ p -> (forall s, handler_of s p' = handler_of s p) ->
    e'.(env_streams) = (with_stream q h' e).(env_streams) ->
    (reads_left REQUEST_LINE p' e' <= reads_left REQUEST_LINE p e)%nat ->
    src_of REQUEST_LINE p' = src_of REQUEST_LINE p /\ (reads_left REQUEST_LINE p' e' <= reads_left REQUEST_LINE p e)%nat /\
    (exists h', stream_of REQUEST_LINE p' e' = Ok (q, h') /\ h' = http_proxy_stream_handler.with_address h'.(http_proxy_stream_handler.forward_address_) h) /\
    (REQUEST_LINE = RESPONSE_LINE -> p' = p /\ e' = e)) as Hgo.
  { intros p1 e1 Ec Eh Ee Hle. do 2 (split; [done|]). split; [|done]. exists h'. split; [|done].
    unfold stream_of in *. rewrite Eh, Ee. apply bind_ok_inv in Hs as (q0 & Hq & Hs). rewrite Hq, bind_ok.
    apply bind_ok_inv in Hs as (h0 & _ & [= -> ->]). simpl. by rewrite lookup_insert_eq. }
  destruct x; try done; try (by injection Ha as <- <- _; apply Hgo);
    try (apply bind_ok_inv in Ha as (a & _ & Ha)); apply initiate_reads in Ha as (? & ? & ? & ?); by apply Hgo.
Qed.

(** ** A turn is defined *)

Lemma equals_returns cs b : returns (rwb.equals cs b).
Proof.
  unfold rwb.equals. eapply (yields_bind _ _ _ (fun _ => True)); [|by intros ? _]. unfold rwb.compare_no_case.
  assert (forall n i, rwb.get_working_length b <= i + Z.of_nat n -> returns (rwb.compare_loop n b cs i)) as Hloop
    by (induction n as [|n IH]; intros i Hi; cbn [rwb.compare_loop]; unfold rwb.at_, rwb.get_raw_buffer;
        returns_by_cases; [lia|apply IH; lia]).
  apply Hloop. lia.
Qed.

Lemma index_returns cs m : returns (message_buffer.get_header_index_by_name cs m).
Proof.
  unfold message_buffer.get_header_index_by_name. generalize 0. induction (message_buffer.headers_ m) as [|h hs IH]; intros i; [done|].
  cbn [message_buffer.index_by_name]. unfold hb.name_equals.
  eapply yields_bind; [apply equals_returns|]. intros [] _; [done|apply IH].
Qed.

Lemma address_returns (h : stream_handler A) : returns (http_proxy_stream_handler.get_forward_address_status host_rules_ h).
Proof.
  unfold http_proxy_stream_handler.get_forward_address_status, http_proxy_stream_handler.find_host,
    http_proxy_stream_handler.forward_url_of, request_buffer_wrapper.get_http_version, rwb.append_to_string,
    rwb.append_to_string_range, rwb.range, rwb.get_raw_buffer, message_buffer.get_field_value, message_buffer.get_header.
  pose proof equals_returns. pose proof index_returns. returns_by_cases.
Qed.

Lemma initiate_returns this a (p : proxy_handler.t A) (e : env K A) : returns (initiate_server_connect this a p e).
Proof.
  unfold initiate_server_connect, event.set. destruct (sys_socket _) as [k1 fd].
  destruct (connection.set_fd _ _ _) as [k2 c]. destruct (_ =? -1); [done|].
  eapply yields_bind; [apply add_event_yields|]. intros k3 _. destruct (sys_connect _ _ _) as [k4 [[]|[]]]; done.
Qed.

Lemma turn_returns base this s p e : proxy_ok base p e -> returns (stream_turn this s p e).
Proof.
  intros Hp. unfold proxy_handler.stream_turn.
  apply (yields_bind _ _ _ (fun '(p1, e1) => proxy_kept host_rules_ request_postprocessor_ localtime zs base p e p1 e1)).
  - pose proof (fun p1 e1 => read_source_ok host_rules_ request_postprocessor_ localtime zs Hname Hvalue Hrules Hpost base s p e p1 e1 Hp)
      as Hok. destruct (read_source s p e) as [[p1 e1]| | |] eqn:Er; try done; [by apply Hok|].
    unfold read_source in Er. destruct (_ && _); [|done]. pose proof (read_returns (env_kernel e) (src_of s p)) as Hr.
    by destruct (connection.non_blocking_read _ _) as [[[k c] st]| | |].
  - intros [p1 e1] (base1 & _ & Hp1).
    destruct (line_inv _ _ _ _ Hrules Hpost _ _ _ _ (px_line _ _ _ _ _ _ _ Hp1 s)) as (q & h & fs & st0 & Hq & Hh & Hr & _).
    apply (yields_bind _ _ _ (fun _ => True)).
    + unfold proxy_handler.process_source, stream_of. rewrite Hq. cbn [of_option]. rewrite bind_ok, Hh. cbn [of_option].
      rewrite !bind_ok. eapply yields_bind; [eapply process_reach; [done..|by eapply reach_call]|].
      intros [[[st h'] w'] b'] _. unfold leave_world. destruct (p_src_data_ w'), (p_dest_data_ w'); done.
    + intros [[p2 e2] st] _. apply (yields_bind _ _ _ (fun _ => True)); [|intros [[p3 e3] []] _; done].
      unfold proxy_handler.attempt_jit_server_connect. destruct s; [|done]. destruct (bool_decide _); [|done].
      apply (yields_bind _ _ _ (fun _ => True)); [unfold stream_of; past; past; done|].
      intros [q2 h2] _. eapply yields_bind; [apply address_returns|]. intros [[] h3] _; try done; [apply initiate_returns|].
      past. apply initiate_returns.
Qed.

(** ** A turn that goes on *)

(** The handler of the request line is for requests. *)
Definition request_kind (p : proxy_handler.t A) (e : env K A) : Prop := forall q h,
  stream_of REQUEST_LINE p e = Ok (q, h) -> h.(http_proxy_stream_handler.stream_type_) = REQUEST.

Lemma unasked_same h (w w2 : world K) : unasked (A := A) h w ->
  w2.(StreamHandler.pipeline_data_queue_) = w.(StreamHandler.pipeline_data_queue_) -> w2.(heap_) = w.(heap_) ->
  unasked h w2.
Proof.
  intros (Es & Et & Hc) Eq Eh. split; [done|]. split; [done|]. revert Hc.
  unfold http_proxy_stream_handler.set_current_pipeline_data, get_pipeline_data_queue, http_proxy_stream_handler.current.
  rewrite Et, Eq, Eh. destruct (pipeline_data_queue.queue_empty _); [done|].
  destruct (pipeline_data_queue.front _) as [p| | |]; try done. rewrite !bind_ok.
  destruct (of_option _ ≫= _) as [[p2 d]| | |]; try done. rewrite !bind_ok. destruct (negb _); [by intros [= ->]|].
  by destruct (pipeline_data_queue.dequeue_element _).
Qed.

Lemma potential_world h (w w2 : world K) b : h.(http_proxy_stream_handler.message_state_) <> http_proxy_stream_handler.PUSH_HEADER ->
  potential (A := A) h w b = potential h w2 b.
Proof. unfold potential, phase. by destruct (http_proxy_stream_handler.message_state_ h). Qed.

Lemma read_streams_same s p (e : env K A) p1 e1 x : read_source s p e = Ok (p1, e1) -> stream_of x p1 e1 = stream_of x p e.
Proof.
  unfold read_source. intros Hr. destruct (_ && _); [|by injection Hr as <- <-].
  apply bind_ok_inv in Hr as ([[k c] st] & _ & [= <- <-]). by destruct s, x.
Qed.

Definition turn_falls (s : line) (p : proxy_handler.t A) (e : env K A) (p' : proxy_handler.t A) (e' : env K A) : Prop :=
  (reads_left s p' e' < reads_left s p e)%nat \/
  (reads_left s p' e' <= reads_left s p e)%nat /\ 0 <= level s p' e' < level s p e.

Lemma turn_goes_on base this s p e p' e' :
  proxy_ok base p e -> (s = REQUEST_LINE -> request_kind p e) -> stream_turn this s p e = Ok (None, p', e') ->
  (s = REQUEST_LINE -> request_kind p' e') /\ (turn_falls s p e p' e' \/ s = RESPONSE_LINE /\ stalled s p' e').
Proof.
  intros Hp Hkind Ht. unfold proxy_handler.stream_turn in Ht. apply bind_ok_inv in Ht as ([p1 e1] & Hr & Ht).
  apply bind_ok_inv in Ht as ([[p2 e2] st] & Hc & Ht). apply bind_ok_inv in Ht as ([[p3 e3] cst] & Ha & Ht).
  destruct (read_source_ok _ _ _ _ Hname Hvalue Hrules Hpost _ _ _ _ _ _ Hp Hr) as (base1 & _ & Hp1).
  destruct (process_source_left _ _ _ _ _ _ _ Hp1 Hc) as (q & h & h' & w' & b' & [Hq Hleft [Hwf Hwf'] [Hl Hl'] Hreq Hnext Hsrc Hrds Hqu Hhe]).
  destruct (attempt_left _ _ _ _ _ _ _ _ _ Ha Hnext) as (Hsrc3 & Hrds3 & (h3 & Hq3 & Eh3) & Hsame).
  assert (cst = socketlib.COMPLETE /\ st = socketlib.COMPLETE /\ connection.ready_to_read (src_of s p3) = true /\
    p' = p3 /\ e' = e3) as (-> & -> & Hrdy & -> & ->).
  { destruct cst; try done. injection Ht as Ht. split; [done|]. unfold stream_status in Ht.
    unfold call_left in Hleft. destruct st; try done. destruct (connection.ready_to_read (src_of s p3)); [by injection Ht as <- <-|].
    cbn [negb] in Ht. by destruct (_ || _). }
  clear Ht. destruct Hleft as [Hns Hleft].
  assert (s = REQUEST_LINE -> not (refusing h') /\ h'.(http_proxy_stream_handler.stream_type_) = REQUEST) as Hk.
  { intros ->. apply Hreq, (Hkind eq_refl q). by rewrite <- Hq, (read_streams_same _ _ _ _ _ _ Hr). }
  split.
  { intros E q2 h2 Hq2. subst s. rewrite Hq3 in Hq2. injection Hq2 as <- <-. rewrite Eh3. simpl. by apply Hk. }
  assert (connection.buffer_ (src_of s p3) = b') as Hb by (by rewrite Hsrc3, Hsrc).
  assert (0 <= level s p3 e3) as Hpos.
  { unfold level. destruct (rwb.fully_written (connection.buffer_ (src_of s p3))); [lia|]. rewrite Hq3. lia. }
  assert (connection.ready_to_read (src_of s p1) = true) as Hrdy1 by (rewrite Hsrc3, Hsrc in Hrdy; exact Hrdy).
  destruct (read_left _ _ _ _ _ Hr Hrdy1) as [(-> & -> & Hf)|Hlt]; [|left; left; lia].
  destruct (rwb.fully_written b') eqn:Hf'.
  { left. right. split; [lia|]. split; [done|]. unfold level. rewrite Hb, Hf', Hf, Hq. lia. }
  assert (unasked h' w' \/ unmarked h' -> s = RESPONSE_LINE /\ stalled s p3 e3) as Hstall.
  { intros Hun. assert (s = RESPONSE_LINE) as ->.
    { destruct s; [|done]. destruct (Hk eq_refl) as [Hnr Et]. destruct Hun as [(_ & Et' & _)|(_ & Hr' & _)]; [congruence|done]. }
    split; [done|]. destruct (Hsame eq_refl) as [-> ->]. rewrite Hnext in Hq3. injection Hq3 as <-.
    split; [done|]. split; [by rewrite Hb|]. exists q, h'. split; [done|].
    destruct Hun as [Hun|Hun]; [left; by eapply unasked_same|by right]. }
  destruct Hleft as [?|[Hun|[Hun|Hlt]]]; [congruence|by auto|by auto|].
  - left. right. split; [lia|]. split; [done|]. unfold level. rewrite Hb, Hf', Hf, Hq, Hq3.
    assert (potential h3 (world_of s p3 e3) b' = potential h' w' b') as ->.
    { rewrite Eh3. change (potential h' (world_of s p3 e3) b' = potential h' w' b'). by apply potential_world. }
    pose proof (potential_nonneg h' w' b' Hwf' Hl'). lia.
Qed.

(** ** The loop *)

(** One more turn of the loop of [handle_stream]. *)
Definition turns (this : Z) (s : line) (x y : proxy_handler.t A * env K A) : Prop :=
  stream_turn this s x.1 x.2 = Ok (None, y.1, y.2).

(** The loop comes to a state in which it does not go on. *)
Definition stalls (this : Z) (p : proxy_handler.t A) (e : env K A) : Prop :=
  exists p' e', rtc (turns this RESPONSE_LINE) (p, e) (p', e') /\ stalled RESPONSE_LINE p' e'.

Lemma loop_more this s (n m : nat) : (n <= m)%nat -> forall p e, stream_loop n this s p e <> NoFuel ->
  stream_loop m this s p e = stream_loop n this s p e.
Proof.
  intros Hle. revert m Hle. induction n as [|n IH]; intros m Hle p e Hn; [done|]. destruct m as [|m]; [lia|].
  cbn [proxy_handler.stream_loop] in *. destruct (stream_turn this s p e) as [[[o p1] e1]| | |]; try done.
  rewrite !bind_ok in *. destruct o; [done|]. apply IH; [lia|done].
Qed.

Lemma loop_ends this s : forall (n l : nat) base p e, proxy_ok base p e -> (s = REQUEST_LINE -> request_kind p e) ->
  (reads_left s p e < n)%nat -> (Z.to_nat (level s p e) < l)%nat ->
  (exists fuel, stream_loop fuel this s p e <> NoFuel) \/ s = RESPONSE_LINE /\ stalls this p e.
Proof.
  induction n as [|n IHn]; [intros; lia|]. induction l as [|l IHl]; [intros; lia|].
  intros base p e Hp Hk Hn Hl. pose proof (turn_returns _ this s _ _ Hp) as Hret.
  destruct (stream_turn this s p e) as [[[o p1] e1]| | |] eqn:Et; try done;
    [|left; exists 1%nat; cbn [proxy_handler.stream_loop]; by rewrite Et..].
  destruct o as [st|]; [left; exists 1%nat; cbn [proxy_handler.stream_loop]; by rewrite Et|].
  destruct (stream_turn_ok _ _ _ _ Hname Hvalue Hrules Hpost _ _ _ _ _ _ _ _ Hp Et) as (base1 & _ & Hp1).
  destruct (turn_goes_on _ _ _ _ _ _ _ Hp Hk Et) as [Hk1 Hfall].
  assert ((exists fuel, stream_loop fuel this s p1 e1 <> NoFuel) \/ s = RESPONSE_LINE /\ stalls this p1 e1) as Hnext.
  { destruct Hfall as [[Hlt|[Hle Hlev]]|[-> Hst]].
    - by eapply (IHn (S (Z.to_nat (level s p1 e1)))); [exact Hp1|exact Hk1|lia..].
    - by eapply IHl; [exact Hp1|exact Hk1|lia..].
    - right. split; [done|]. exists p1, e1. by split; [apply rtc_refl|]. }
  destruct Hnext as [[fuel Hf]|[-> (p' & e' & Hs & Hst)]].
  - left. exists (S fuel). cbn [proxy_handler.stream_loop]. by rewrite Et, bind_ok.
  - right. split; [done|]. exists p', e'. split; [|done]. by eapply rtc_l; [|exact Hs].
Qed.

Lemma stream_ends this s base p e : proxy_ok base p e -> (s = REQUEST_LINE -> request_kind p e) ->
  (exists n, forall fuel, (n <= fuel)%nat -> handle_stream fuel this s p e = handle_stream n this s p e /\
    handle_stream n this s p e <> NoFuel) \/ s = RESPONSE_LINE /\ stalls this p e.
Proof.
  intros Hp Hk. destruct (loop_ends this s _ _ base p e Hp Hk (Nat.lt_succ_diag_r _) (Nat.lt_succ_diag_r _)) as [[n Hn]|?]; [left|by right].
  exists n. intros fuel Hle. split; [by apply loop_more|done].
Qed.

(** What is answered before it is asked: the response line turns for ever. *)
Definition waiting (p : proxy_handler.t A) (e : env K A) : Prop :=
  connection.ready_to_read p.(server_data_) = true /\
  rwb.fully_written (connection.buffer_ p.(server_data_)) = false /\
  exists q h, stream_of RESPONSE_LINE p e = Ok (q, h) /\ unasked h (world_of RESPONSE_LINE p e).

Lemma waiting_turns this p e : waiting p e -> stream_turn this RESPONSE_LINE p e = Ok (None, p, e).
Proof.
  intros (Hr & Hf & q & h & Hs & Hu). unfold proxy_handler.stream_turn.
  assert (read_source RESPONSE_LINE p e = Ok (p, e)) as ->.
  { unfold read_source. simpl. destruct (_ && _); [|done]. unfold connection.non_blocking_read, connection.read_buffer.
    rewrite Hr, Hf. simpl. by destruct p, e. }
  rewrite bind_ok. unfold proxy_handler.process_source. rewrite Hs, bind_ok.
  rewrite unasked_stays by done. unfold leave_world. simpl. unfold stream_status. simpl.
  change (connection.ready_to_read (connection.set_read_buffer _ _)) with (connection.ready_to_read (server_data_ p)).
  rewrite Hr. simpl.
  unfold stream_of in Hs. apply bind_ok_inv in Hs as (q0 & Hq & Hs). apply bind_ok_inv in Hs as (h0 & Hh & [= -> ->]).
  destruct (env_streams e !! q) as [h1|] eqn:E; [injection Hh as ->|done].
  do 2 f_equal; [do 2 f_equal; by destruct p as [? [] ? ? ? ? ? ?]|]. destruct e. unfold with_stream. simpl in *. f_equal. by apply insert_id.
Qed.

Lemma waiting_spins this p e fuel : waiting p e -> handle_stream fuel this RESPONSE_LINE p e = NoFuel.
Proof.
  intros Hw. unfold proxy_handler.handle_stream. induction fuel as [|fuel IH]; [done|]. cbn [proxy_handler.stream_loop].
  by rewrite waiting_turns, bind_ok.
Qed.

(** ** An event *)

Abbreviation transfer := (transfer host_rules_ request_postprocessor_ localtime).
Abbreviation handle_event := (handle_event host_rules_ request_postprocessor_ localtime).

(** The response line leaves the handler of the request line alone. *)
Lemma response_kind this (p : proxy_handler.t A) (e : env K A) o p' e' :
  handler_of REQUEST_LINE p <> handler_of RESPONSE_LINE p -> request_kind p e ->
  stream_turn this RESPONSE_LINE p e = Ok (o, p', e') ->
  handler_of REQUEST_LINE p' <> handler_of RESPONSE_LINE p' /\ request_kind p' e'.
Proof.
  intros Hne Hk Ht. unfold proxy_handler.stream_turn in Ht. apply bind_ok_inv in Ht as ([p1 e1] & Hr & Ht).
  apply bind_ok_inv in Ht as ([[p2 e2] st] & Hc & Ht). apply bind_ok_inv in Ht as ([[p3 e3] cst] & [= <- <- <-] & Ht).
  assert (handler_of REQUEST_LINE p1 <> handler_of RESPONSE_LINE p1 /\ request_kind p1 e1) as [Hne1 Hk1].
  { split; [|intros q h; rewrite (read_streams_same _ _ _ _ _ _ Hr); apply Hk]. unfold read_source in Hr.
    destruct (_ && _); [|by injection Hr as <- <-]. by apply bind_ok_inv in Hr as ([[k c] st'] & _ & [= <- <-]). }
  assert (handler_of REQUEST_LINE p2 <> handler_of RESPONSE_LINE p2 /\ request_kind p2 e2) as [Hne2 Hk2].
  { unfold proxy_handler.process_source in Hc. apply bind_ok_inv in Hc as ([q h] & Hq & Hc).
    apply bind_ok_inv in Hc as ([[[st' h'] w'] b'] & _ & Hc). apply bind_ok_inv in Hc as ([p4 e4] & Hl & [= <- <- <-]).
    unfold leave_world in Hl. apply bind_ok_inv in Hl as (? & _ & Hl). apply bind_ok_inv in Hl as (? & _ & [= <- <-]).
    split; [exact Hne1|]. intros q2 h2 Hq2. apply (Hk1 q2). rewrite <- Hq2. unfold stream_of in *. simpl in *.
    apply bind_ok_inv in Hq as (q0 & Hq & H'). apply bind_ok_inv in H' as (h0 & _ & [= -> ->]).
    destruct (p_request_stream_handler_ p1) as [q1|]; [|done]. cbn [of_option]. rewrite !bind_ok.
    rewrite lookup_insert_ne; [done|]. intros ->. by destruct (p_response_stream_handler_ p1); simplify_eq/=. }
  injection Ht as Ht. unfold stream_status in Ht.
  destruct st; try (injection Ht as _ <- <-; by split). destruct (negb _); [destruct (_ || _)|]; by injection Ht as _ <- <-.
Qed.

Lemma response_kinds this fuel : forall (p : proxy_handler.t A) (e : env K A) p' e' st,
  handler_of REQUEST_LINE p <> handler_of RESPONSE_LINE p -> request_kind p e ->
  handle_stream fuel this RESPONSE_LINE p e = Ok (p', e', st) -> request_kind p' e'.
Proof.
  unfold proxy_handler.handle_stream. induction fuel as [|fuel IH]; intros p e p' e' st Hne Hk Hl; [done|].
  cbn [proxy_handler.stream_loop] in Hl. apply bind_ok_inv in Hl as ([[o p1] e1] & Ht & Hl).
  apply response_kind in Ht as [Hne1 Hk1]; [|done..]. destruct o; [by injection Hl as <- <- _|by eapply IH].
Qed.

(** Where a call of [transfer] begins to serve the response line: at once,
    and when a request was refused again, for the error response. *)
Inductive serves_response (this : Z) (p : proxy_handler.t A) (e : env K A) : proxy_handler.t A -> env K A -> Prop :=
  | serves_first : serves_response this p e p e
  | serves_refused n p1 e1 st p2 e2 :
      handle_stream n this RESPONSE_LINE p e = Ok (p1, e1, st) ->
      handle_stream n this REQUEST_LINE p1 e1 = Ok (p2, e2, socketlib.DENY) ->
      serves_response this p e p2 (shutdown_request p2 e2).

Lemma transfer_ends base this p e : proxy_ok base p e -> request_kind p e ->
  (exists n, forall fuel, (n <= fuel)%nat -> transfer fuel this p e <> NoFuel) \/
  exists p1 e1, serves_response this p e p1 e1 /\ stalls this p1 e1.
Proof.
  intros Hp Hk. unfold proxy_handler.transfer.
  destruct (stream_ends this RESPONSE_LINE _ _ _ Hp ltac:(done)) as [[n1 Hn1]|[_ Hst]];
    [|right; exists p, e; by split; [apply serves_first|]].
  pose proof (proj2 (Hn1 n1 (le_n _))) as Hf1. destruct (handle_stream n1 this RESPONSE_LINE p e) as [[[p1 e1] st1]| | |] eqn:E1; try done;
    [|left; exists n1; intros fuel Hle; by rewrite (proj1 (Hn1 fuel Hle))..].
  assert (st1 = socketlib.COMPLETE \/ st1 = socketlib.DENY \/ exists base1, proxy_ok base1 p1 e1) as Hst1.
  { destruct (handle_stream_ok _ _ _ _ Hname Hvalue Hrules Hpost _ _ _ _ _ _ _ _ _ Hp E1) as [[[_ ->]|(b1 & _ & Hp1)] _]; eauto. }
  destruct Hst1 as [->|[->|(base1 & Hp1)]];
    [left; exists n1; intros fuel Hle; by rewrite (proj1 (Hn1 fuel Hle))..|].
  pose proof (response_kinds _ _ _ _ _ _ _ (px_handlers _ _ _ _ _ _ _ Hp) Hk E1) as Hk1.
  destruct (stream_ends this REQUEST_LINE _ _ _ Hp1 ltac:(done)) as [[n2 Hn2]|[? _]]; [|done].
  pose proof (proj2 (Hn2 n2 (le_n _))) as Hf2.
  destruct (handle_stream n2 this REQUEST_LINE p1 e1) as [[[p2 e2] st2]| | |] eqn:E2; try done;
    [|left; exists (Nat.max n1 n2); intros fuel Hle; rewrite (proj1 (Hn1 fuel ltac:(lia))), bind_ok;
      destruct st1; try done; by rewrite (proj1 (Hn2 fuel ltac:(lia)))..].
  destruct (decide (st2 = socketlib.DENY)) as [->|Hne];
    [|left; exists (Nat.max n1 n2); intros fuel Hle; rewrite (proj1 (Hn1 fuel ltac:(lia))), bind_ok;
      destruct st1; try done; rewrite (proj1 (Hn2 fuel ltac:(lia))), bind_ok; by destruct st2].
  destruct (handle_stream_ok _ _ _ _ Hname Hvalue Hrules Hpost _ _ _ _ _ _ _ _ _ Hp1 E2) as [[[? _]|(base2 & _ & Hp2)] _]; [done|].
  assert (proxy_ok base2 p2 (shutdown_request p2 e2)) as Hp3 by (apply proxy_same; [done..|apply shutdown_streams]).
  destruct (stream_ends this RESPONSE_LINE _ _ _ Hp3 ltac:(done)) as [[n3 Hn3]|[_ Hst]].
  - left. exists (Nat.max n1 (Nat.max n2 n3)). intros fuel Hle. rewrite (proj1 (Hn1 fuel ltac:(lia))), bind_ok.
    destruct st1; try done; rewrite (proj1 (Hn2 fuel ltac:(lia))), bind_ok; cbv zeta;
      (pose proof (Hn3 fuel ltac:(lia)) as [-> Hf3]);
      destruct (handle_stream n3 this RESPONSE_LINE p2 (shutdown_request p2 e2)) as [[[p4 e4] []]| | |]; done.
  - right. exists p2, (shutdown_request p2 e2). split; [|done]. apply (serves_refused _ _ _ (Nat.max n1 n2) p1 e1 st1).
    + by rewrite (proj1 (Hn1 (Nat.max n1 n2) ltac:(lia))).
    + by rewrite (proj1 (Hn2 (Nat.max n1 n2) ltac:(lia))).
Qed.

Lemma shutdown_returns this (p : proxy_handler.t A) (e : env K A) : returns (shutdown this p e).
Proof.
  unfold shutdown, close_socket, poller.del_event, release, pessimistic_memory_manager.release_element.
  returns_by_cases.
Qed.

Lemma wait_returns (p : proxy_handler.t A) (e : env K A) : returns (wait p e).
Proof.
  assert (forall (k : K) ev m, returns (poller.add_event A k ev m 0)) as Hadd
    by (intros k ev m; eapply yields_mono; [apply add_event_yields|done]).
  unfold wait. returns_by_cases; try apply Hadd.
Qed.

(** What [handle_event] does before it transfers. *)
Definition event_begins (fd revents : Z) (p : proxy_handler.t A) (e : env K A)
    : res (proxy_handler.t A * env K A * socketlib.STATUS) :=
  p ← (if negb (Z.land revents EV_WRITE =? 0) then handle_pollout fd p else Ok p);
  p ← (if negb (Z.land revents EV_READ =? 0) then handle_pollin fd p else Ok p);
  Ok (check_for_server_connect fd p e).

Lemma event_begun base fd revents p e : proxy_ok base p e -> request_kind p e ->
  yields True (event_begins fd revents p e) (fun '(p1, e1, _) => proxy_ok base p1 e1 /\ request_kind p1 e1).
Proof.
  intros Hp Hk. unfold event_begins.
  assert (forall p1 : proxy_handler.t A, p_request_stream_handler_ p1 = p_request_stream_handler_ p -> request_kind p1 e) as Hkind.
  { intros p1 E q h. unfold stream_of. simpl. rewrite E. apply Hk. }
  apply (yields_bind _ _ _ (fun p1 => proxy_ok base p1 e /\ p_request_stream_handler_ p1 = p_request_stream_handler_ p)).
  - destruct (negb _); [|done]. destruct (handle_pollout fd p) as [p1| | |] eqn:E; try done;
      [|unfold handle_pollout in E; destruct (_ =? _); [done|destruct (_ =? _); [done|by simpl in E]]..].
    split; [by eapply handle_pollout_ok|]. unfold handle_pollout in E.
    destruct (_ =? _); [by injection E as <-|destruct (_ =? _); [by injection E as <-|done]].
  - intros p1 [Hp1 E1]. apply (yields_bind _ _ _ (fun p2 => proxy_ok base p2 e /\ p_request_stream_handler_ p2 = p_request_stream_handler_ p)).
    + destruct (negb _); [|done]. destruct (handle_pollin fd p1) as [p2| | |] eqn:E; try done;
        [|unfold handle_pollin in E; destruct (_ =? _); [done|destruct (_ =? _); [done|by simpl in E]]..].
      split; [by eapply handle_pollin_ok|]. unfold handle_pollin in E.
      destruct (_ =? _); [by injection E as <-|destruct (_ =? _); [by injection E as <-|done]].
    + intros p2 [Hp2 E2]. simpl. destruct (check_for_server_connect fd p2 e) as [[p3 e3] st] eqn:Ec.
      split; [by eapply check_connect_ok|]. unfold check_for_server_connect, handle_server_connect in Ec.
      destruct (_ && _); [|injection Ec as <- <- _; by apply Hkind].
      destruct (sys_getsockopt_error _ _). destruct (bool_decide _); injection Ec as <- <- _; by apply Hkind.
Qed.

Lemma proxy_event_ends base this fd revents p e : proxy_ok base p e -> request_kind p e ->
  (exists n, forall fuel, (n <= fuel)%nat -> handle_event fuel this fd revents p e <> NoFuel) \/
  exists p0 e0 st p1 e1, event_begins fd revents p e = Ok (p0, e0, st) /\ serves_response this p0 e0 p1 e1 /\
    stalls this p1 e1.
Proof.
  intros Hp Hk. pose proof (event_begun _ fd revents _ _ Hp Hk) as Hb.
  assert (forall fuel, handle_event fuel this fd revents p e =
    ('(p, e, status) ← event_begins fd revents p e;
    match status with
    | socketlib.COMPLETE | socketlib.INCOMPLETE =>
        '(p, e, x) ← transfer fuel this p e;
        match x with
        | inl ret => '(p, e) ← shutdown this p e; Ok (p, e, Some ret)
        | inr _ => e ← wait p e; Ok (p, e, None)
        end
    | _ => '(p, e) ← shutdown this p e; Ok (p, e, Some (-1))
    end)) as Heq.
  { intros fuel. unfold proxy_handler.handle_event, event_begins.
    destruct (if negb (Z.land revents EV_WRITE =? 0) then _ else _) as [p1| | |]; try done. rewrite !bind_ok.
    destruct (if negb (Z.land revents EV_READ =? 0) then _ else _) as [p2| | |]; try done. }
  destruct (event_begins fd revents p e) as [[[p0 e0] st]| | |] eqn:Ev; try done;
    [|left; exists O; intros fuel _; by rewrite Heq..].
  destruct Hb as [Hp0 Hk0].
  destruct (transfer_ends _ this _ _ Hp0 Hk0) as [[n Hn]|(p1 & e1 & Hs & Hst)].
  - left. exists n. intros fuel Hle. rewrite Heq, bind_ok. specialize (Hn fuel Hle).
    pose proof (shutdown_returns this p0 e0) as Hsd.
    destruct st; try (by destruct (shutdown this p0 e0) as [[]| | |]);
      (destruct (transfer fuel this p0 e0) as [[[p2 e2] [ret|[]]]| | |]; try done; rewrite bind_ok;
       [pose proof (shutdown_returns this p2 e2); by destruct (shutdown this p2 e2) as [[]| | |]
       |pose proof (wait_returns p2 e2); by destruct (wait p2 e2)]).
  - right. by exists p0, e0, st, p1, e1.
Qed.

Lemma spins_from this x y fuel : rtc (turns this RESPONSE_LINE) x y -> waiting y.1 y.2 ->
  handle_stream fuel this RESPONSE_LINE x.1 x.2 = NoFuel.
Proof.
  intros Hs Hw. revert fuel. induction Hs as [y|x1 x2 x3 Ht _ IH]; intros fuel; [by apply waiting_spins|].
  unfold proxy_handler.handle_stream in *. destruct fuel as [|fuel]; [done|]. cbn [proxy_handler.stream_loop].
  rewrite Ht, bind_ok. by apply IH.
Qed.

(** What makes the response line wait, as a check. *)
Definition waiting_b (p : proxy_handler.t A) (e : env K A) : bool :=
  connection.ready_to_read p.(server_data_) && negb (rwb.fully_written (connection.buffer_ p.(server_data_))) &&
  match stream_of RESPONSE_LINE p e with
  | Ok (_, h) =>
      match h.(http_proxy_stream_handler.message_state_), h.(http_proxy_stream_handler.stream_type_),
        http_proxy_stream_handler.set_current_pipeline_data h (world_of RESPONSE_LINE p e) with
      | http_proxy_stream_handler.START_MESSAGE, RESPONSE, Ok (false, h', _) =>
          bool_decide (h'.(http_proxy_stream_handler.current_pipeline_data_) = h.(http_proxy_stream_handler.current_pipeline_data_))
      | _, _, _ => false
      end
  | _ => false
  end.

Lemma waiting_check p e : waiting_b p e = true -> waiting p e.
Proof.
  unfold waiting_b. intros Hb. apply andb_true_iff in Hb as [Hb Hs].
  apply andb_true_iff in Hb as [Hr Hf%negb_true_iff]. split; [done|]. split; [done|].
  destruct (stream_of RESPONSE_LINE p e) as [[q h]| | |]; try done. exists q, h. split; [done|].
  destruct (http_proxy_stream_handler.message_state_ h) eqn:Es, (http_proxy_stream_handler.stream_type_ h) eqn:Et; try done.
  destruct (http_proxy_stream_handler.set_current_pipeline_data h _) as [[[[] h'] w']| | |] eqn:Ec; try done.
  apply bool_decide_eq_true in Hs. destruct (set_current_not _ _ _ _ Ec Et) as (_ & Eh & Hagain).
  assert (h' = h) as -> by (rewrite Eh, Hs; symmetry; apply with_current_same). by split.
Qed.

End ends.

(** * Properties *)

(** C4: an event is handled in finitely many steps.  Whatever clients
    connect, in whatever order the events came and whatever the kernel
    answers, as long as a socket that is read gives finitely many answers
    before it blocks, [handle_event] of a connection in use returns or stops
    at a check: each of its loops over a socket reads again, or comes to the
    end of the buffer, or gets further in a message, and never runs for ever.
    The one exception is a response line that is at the start of a message
    while no request is complete, or that reads on after an error response
    whose request was unmarked meanwhile, with bytes of the server in its
    buffer. *)
Theorem handle_event_ends {K A : Type} `{NetLaws K A, !FiniteReads K A}
    (host_rules_ : gmap (list Z) (host_rules.t A))
    (pp : option (message_buffer.t -> res (bool * message_buffer.t))) (localtime : nat -> log_record.tm)
    (zs : line -> sizes) bs (s : server K A) this p fd revents :
  (zs REQUEST_LINE).(n_name) = (zs RESPONSE_LINE).(n_name) ->
  (zs REQUEST_LINE).(n_value) = (zs RESPONSE_LINE).(n_value) ->
  rules_ok host_rules_ -> (forall ln, postprocessor_ok (zs ln) pp) ->
  serves host_rules_ pp localtime zs bs s ->
  s.(server_proxies) !! this = Some p -> is_Some (handler_of REQUEST_LINE p) -> request_kind p s.(server_env) ->
  (exists n, forall fuel, (n <= fuel)%nat ->
     proxy_handler.handle_event host_rules_ pp localtime fuel this fd revents p s.(server_env) <> NoFuel) \/
  (exists p0 e0 st p1 e1, event_begins fd revents p s.(server_env) = Ok (p0, e0, st) /\
     serves_response host_rules_ pp localtime this p0 e0 p1 e1 /\ stalls host_rules_ pp localtime this p1 e1).
Proof.
  intros Hn Hv Hrules Hpost Hs Hp Hq Hk. apply serves_ok in Hs as Hok; [|done..].
  destruct (serving_proxy _ _ _ _ _ _ _ _ Hok Hp Hq) as [Hpx _].
  exact (proxy_event_ends _ _ _ _ Hn Hv Hrules Hpost _ _ _ _ _ _ Hpx Hk).
Qed.

(** ** At a concrete input *)

(** The handler of the connection's request line, as a check. *)
Definition request_kind_b {K A} (p : proxy_handler.t A) (e : env K A) : bool :=
  match stream_of REQUEST_LINE p e with
  | Ok (_, h) => match h.(http_proxy_stream_handler.stream_type_) with REQUEST => true | RESPONSE => false end
  | _ => true
  end.

Lemma request_kind_check {K A} (p : proxy_handler.t A) (e : env K A) : request_kind_b p e = true -> request_kind p e.
Proof.
  unfold request_kind_b. intros Hb q h Hq. rewrite Hq in Hb. by destruct (http_proxy_stream_handler.stream_type_ h).
Qed.

Definition waiting_checks (x : sample_state) : option (bool * bool) :=
  p ← x.2.(server_proxies) !! 301;
  Some (bool_decide (is_Some (handler_of REQUEST_LINE p)), request_kind_b p x.2.(server_env)).

Lemma handle_event_ends_witness :
  exists bs s p, sample_waiting = Ok (bs, s) /\ s.(server_proxies) !! 301 = Some p /\
    ((exists n, forall fuel, (n <= fuel)%nat ->
      proxy_handler.handle_event sample_rules None (fun _ => sample_date) fuel 301 7 EV_WRITE p s.(server_env) <> NoFuel) \/
     (exists p0 e0 st p1 e1, event_begins 7 EV_WRITE p s.(server_env) = Ok (p0, e0, st) /\
       serves_response sample_rules None (fun _ => sample_date) 301 p0 e0 p1 e1 /\
       stalls sample_rules None (fun _ => sample_date) 301 p1 e1)).
Proof.
  assert ((x ← sample_waiting; of_option (waiting_checks x)) = Ok (true, true)) as Hx by (vm_compute; reflexivity).
  destruct sample_waiting as [[bs s]| | |] eqn:E; try discriminate Hx.
  rewrite bind_ok in Hx. unfold waiting_checks in Hx. cbn [snd] in Hx.
  destruct (server_proxies s !! 301) as [p|] eqn:Ep; [|discriminate Hx].
  injection Hx as Hu Hk. apply bool_decide_eq_true in Hu.
  exists bs, s, p. split; [reflexivity|]. split; [exact Ep|].
  exact (handle_event_ends sample_rules None (fun _ => sample_date) (fun _ => sample_sizes) bs s 301 p 7 EV_WRITE
    eq_refl eq_refl sample_rules_ok (fun _ => sample_postprocessor) (sample_waiting_ok _ E) Ep Hu (request_kind_check _ _ Hk)).
Defined.

(** C8: the exception is one: when the response line comes to the start of a
    message with bytes of the server in its buffer and the socket ready, and
    no request is complete, [handle_event] never returns, whatever its fuel.
    The stream handler answers that it is done with a buffer it has not
    touched, and the loop of [handle_stream] calls it with that buffer again.
    A server that sends bytes it was not asked for stops the proxy. *)
Theorem early_response_spins {K A : Type} `{NetLaws K A}
    (host_rules_ : gmap (list Z) (host_rules.t A))
    (pp : option (message_buffer.t -> res (bool * message_buffer.t))) (localtime : nat -> log_record.tm)
    this fd revents p (e : env K A) p0 e0 st p1 e1 :
  event_begins fd revents p e = Ok (p0, e0, st) -> st = socketlib.COMPLETE \/ st = socketlib.INCOMPLETE ->
  rtc (turns host_rules_ pp localtime this RESPONSE_LINE) (p0, e0) (p1, e1) -> waiting p1 e1 ->
  forall fuel, proxy_handler.handle_event host_rules_ pp localtime fuel this fd revents p e = NoFuel.
Proof.
  intros Hb Hst Hs Hw fuel. pose proof (spins_from _ _ _ _ _ _ fuel Hs Hw) as Hspin. cbn [fst snd] in Hspin.
  unfold proxy_handler.handle_event, proxy_handler.transfer, event_begins in *.
  apply bind_ok_inv in Hb as (p2 & E2 & Hb). apply bind_ok_inv in Hb as (p3 & E3 & [= Hb]).
  rewrite E2, bind_ok, E3, bind_ok, Hb. destruct Hst as [-> | ->]; by rewrite Hspin.
Qed.

(** The server answers the request of the first client, and then once more,
    as servers do that give up an idle connection. *)
Definition early_host : host :=
  let talks this ln := Script (replicate 20 (inl 100%nat)) [inl (said this ln)] [] in
  Host {[4 := talks 300 REQUEST_LINE;
         5 := Script (replicate 20 (inl 100%nat)) [inl (said 300 RESPONSE_LINE); inl (str "HTTP/1.1 408 Request Timeout")] []]}
    [5] [] [] [4] ∅ {[3]}.

(** The client was answered; the event that brought the answer goes on. *)
Definition early_event : res (proxy_handler.t Z * env host Z) :=
  s ← sample_server;
  x ← sample_listen (fun _ _ => [], Server host Z (with_kernel early_host s.(server_env)) s.(server_proxies));
  x ← sample_step 300 4 (Z.lor EV_READ EV_WRITE) x;
  '(_, s) ← sample_step 300 5 EV_WRITE x;
  p ← of_option (s.(server_proxies) !! 300);
  Ok (p, s.(server_env)).

(** [n] turns of the response line. *)
Fixpoint some_turns (n : nat) (x : proxy_handler.t Z * env host Z) : res (proxy_handler.t Z * env host Z) :=
  match n with
  | O => Ok x
  | S n =>
      '(o, p, e) ← stream_turn sample_rules None (fun _ => sample_date) 300 RESPONSE_LINE x.1 x.2;
      match o : option socketlib.STATUS with None => some_turns n (p, e) | Some _ => Undef end
  end.

Lemma some_turns_rtc n : forall x y, some_turns n x = Ok y ->
  rtc (turns sample_rules None (fun _ => sample_date) 300 RESPONSE_LINE) x y.
Proof.
  induction n as [|n IH]; intros x y Hx; cbn [some_turns] in Hx; [injection Hx as <-; apply rtc_refl|].
  apply bind_ok_inv in Hx as ([[o p] e] & Ht & Hx). destruct o; [done|].
  eapply rtc_l; [|by apply IH]. exact Ht.
Qed.

Definition early_state : res (proxy_handler.t Z * env host Z * bool) :=
  '(p, e) ← early_event;
  '(p, e, st) ← event_begins 5 EV_READ p e;
  '(p1, e1) ← some_turns 2 (p, e);
  Ok (p, e, bool_decide (st = socketlib.COMPLETE \/ st = socketlib.INCOMPLETE) && waiting_b p1 e1).

Lemma early_response_spins_witness :
  exists p e, early_event = Ok (p, e) /\ forall fuel,
    proxy_handler.handle_event sample_rules None (fun _ => sample_date) fuel 300 5 EV_READ p e = NoFuel.
Proof.
  assert ((x ← early_state; Ok x.2) = Ok true) as Hx by (vm_compute; reflexivity).
  unfold early_state in Hx. destruct early_event as [[p e]| | |] eqn:E; try discriminate Hx.
  exists p, e. split; [reflexivity|]. rewrite bind_ok in Hx.
  destruct (event_begins 5 EV_READ p e) as [[[p0 e0] st]| | |] eqn:Eb; try discriminate Hx. rewrite bind_ok in Hx.
  destruct (some_turns 2 (p0, e0)) as [[p1 e1]| | |] eqn:Et; try discriminate Hx. rewrite !bind_ok in Hx.
  injection Hx as Hx. cbn [snd] in Hx. apply andb_true_iff in Hx as [Hst Hw]. apply bool_decide_eq_true in Hst.
  exact (early_response_spins sample_rules None (fun _ => sample_date) 300 5 EV_READ p e p0 e0 st p1 e1 Eb Hst
    (some_turns_rtc 2 _ _ Et) (waiting_check _ _ Hw)).
Defined.
