(* ===== verification/StreamProperties.v ===== *)
(** How a message starts, and how a request that was refused is answered. *)
From stdpp Require Import list gmap.
From S2P Require Import Prelude Status ReadWriteBuffer HttpLex Interfaces HeaderStore HeaderHandler.
From S2P Require Import HeaderParser HandlerSafety BodyParsers BodyRun Os Connection HeaderWriter Printf.
From S2P Require Import Pipeline Url StreamHandler StreamBody StreamFrame StreamSafety.

Import proxy_stream_interface http_proxy_stream_handler.

(** * How a message starts *)
Section start.
Context {K : Type} `{OsLaws K} {A : Type}.
Variable host_rules_ : gmap (list Z) (host_rules.t A).
Variable request_postprocessor_ : option (message_buffer.t -> res (bool * message_buffer.t)).
Variable localtime : nat -> log_record.tm.

Abbreviation turn := (turn host_rules_ request_postprocessor_ localtime).
Abbreviation process_data := (process_data host_rules_ request_postprocessor_ localtime).

(** The oldest request of the queue was read whole. *)
Definition request_ready (w : world K) : bool :=
  match head w.(pipeline_data_queue_).(pipeline_data_queue.active_queue_) with
  | Some p => match w.(heap_) !! p with Some d => d.(pipeline_data.request_complete_) | None => false end
  | None => false
  end.

(** The handler may start a message. *)
Definition may_start (h : t A) (w : world K) : bool :=
  match h.(stream_type_) with
  | REQUEST => negb (pipeline_data_queue.queue_full w.(pipeline_data_queue_))
  | RESPONSE => request_ready w
  end.

(** A call whose first turn returns. *)
Lemma process_returns (h : t A) (w : world K) b st h' w' b' :
  h.(message_state_) <> PARSE_HEADER -> turn h w b = Ok (Some st, h', w', b') ->
  process_data h w b = Ok (st, h', w', b').
Proof.
  intros Hs Ht. unfold http_proxy_stream_handler.process_data.
  rewrite bool_decide_eq_false_2, andb_false_r by done.
  rewrite Nat.add_comm. cbn [Nat.add process_loop]. by rewrite Ht.
Qed.

(** A call whose first turn goes on and whose second one returns. *)
Lemma process_returns_later (h : t A) (w : world K) b h1 w1 b1 st h' w' b' :
  h.(message_state_) <> PARSE_HEADER -> turn h w b = Ok (None, h1, w1, b1) ->
  turn h1 w1 b1 = Ok (Some st, h', w', b') -> process_data h w b = Ok (st, h', w', b').
Proof.
  intros Hs Ht Ht1. unfold http_proxy_stream_handler.process_data.
  rewrite bool_decide_eq_false_2, andb_false_r by done.
  rewrite Nat.add_comm. cbn [Nat.add process_loop]. rewrite Ht, bind_ok. cbn [process_loop]. by rewrite Ht1.
Qed.

Lemma front_head q p act :
  q.(pipeline_data_queue.active_queue_) = p :: act ->
  pipeline_data_queue.queue_empty q = false /\ pipeline_data_queue.front q = Ok p.
Proof. destruct q as [qa qf]. simpl. by intros ->. Qed.

(** The request stream takes a new element. *)
Lemma request_starts ps (h : t A) (w : world K) b p fs :
  h.(message_state_) = START_MESSAGE -> h.(stream_type_) = REQUEST ->
  queue_ok ps w.(pipeline_data_queue_) w.(heap_) ->
  w.(pipeline_data_queue_).(pipeline_data_queue.free_list_) = p :: fs ->
  let act := w.(pipeline_data_queue_).(pipeline_data_queue.active_queue_) in
  turn h w b = Ok (None, with_state PARSE_HEADER (with_current (Some p) h),
    with_queue (pipeline_data_queue.PipelineDataQueue (act ++ [p]) fs)
      (<[p := pipeline_data.make]> w.(heap_)) w, b).
Proof.
  intros Es Et Hq Hf act. unfold http_proxy_stream_handler.turn. rewrite Es.
  unfold do_start_message, set_current_pipeline_data. rewrite Et.
  unfold get_pipeline_data_queue, pipeline_data_queue.queue_full. rewrite Hf.
  pose proof (queue_element_ok _ _ _ Hq) as Hqe. rewrite Hf in Hqe. destruct Hqe as (d & _ & -> & _ & _).
  rewrite !bind_ok. unfold current. simpl. by rewrite lookup_insert_eq.
Qed.

(** The response stream takes the oldest request, which was read whole. *)
Lemma response_starts ps (h : t A) (w : world K) b p act d :
  h.(message_state_) = START_MESSAGE -> h.(stream_type_) = RESPONSE ->
  queue_ok ps w.(pipeline_data_queue_) w.(heap_) ->
  w.(pipeline_data_queue_).(pipeline_data_queue.active_queue_) = p :: act ->
  w.(heap_) !! p = Some d -> d.(pipeline_data.request_complete_) = true -> dest_open w ->
  same_message error_message h.(error_response_) ->
  let w' := with_queue (pipeline_data_queue.PipelineDataQueue act
    (p :: w.(pipeline_data_queue_).(pipeline_data_queue.free_list_))) w.(heap_) w in
  turn h w b = Ok (None,
    match d.(pipeline_data.process_type_) with
    | pipeline_data.DENY =>
        with_state PUSH_HEADER (begun ERROR_MESSAGE error_message (with_current (Some p) h))
    | _ => with_state PARSE_HEADER (with_current (Some p) h)
    end, w', b).
Proof.
  intros Es Et Hq Ha Hd Hc Ho He w'. unfold http_proxy_stream_handler.turn. rewrite Es.
  unfold do_start_message, set_current_pipeline_data. rewrite Et.
  destruct (front_head _ _ _ Ha) as [Hne Hfr]. unfold get_pipeline_data_queue. rewrite Hne, Hfr.
  simpl. unfold current. simpl. rewrite Hd. simpl. rewrite Hc. simpl.
  pose proof (dequeue_element_ok _ _ _ Hq) as Hdq. rewrite Ha in Hdq. destruct Hdq as [-> _].
  simpl. rewrite Hd. simpl. destruct (pipeline_data.process_type_ d); try done.
  rewrite (error_reset _ _ He), bind_ok, start_writer_ok, bind_ok by exact Ho. done.
Qed.

(** C17: a message starts only when the pipeline lets it: a request when the
    queue has room, and then its element is new and the last of the queue; a
    response when the oldest request was read whole, and then it is this
    request that the response takes from the queue.  Otherwise the call
    returns at once, [INCOMPLETE] for a request and [COMPLETE] for a
    response, nothing sent or read and the queue as it was. *)
Theorem message_starts_in_turn ps (h : t A) (w : world K) b :
  h.(message_state_) = START_MESSAGE -> queue_ok ps w.(pipeline_data_queue_) w.(heap_) ->
  dest_open w -> same_message error_message h.(error_response_) ->
  let act := w.(pipeline_data_queue_).(pipeline_data_queue.active_queue_) in
  if may_start h w then
    exists p h' w', turn h w b = Ok (None, h', w', b) /\ h'.(current_pipeline_data_) = Some p /\
      sent_to_dest w' = sent_to_dest w /\
      let act' := w'.(pipeline_data_queue_).(pipeline_data_queue.active_queue_) in
      match h.(stream_type_) with
      | REQUEST => act' = act ++ [p] /\ (p ∉ act) /\ w'.(heap_) !! p = Some pipeline_data.make
      | RESPONSE => act = p :: act' /\ w'.(heap_) = w.(heap_)
      end
  else exists p, process_data h w b =
    Ok (match h.(stream_type_) with REQUEST => socketlib.INCOMPLETE | RESPONSE => socketlib.COMPLETE end,
      with_current p h, w, b).
Proof.
  intros Es Hq Ho He act. unfold may_start, request_ready, pipeline_data_queue.queue_full.
  destruct (stream_type_ h) eqn:Et.
  - pose proof (queue_element_ok _ _ _ Hq) as Hqe.
    destruct (pipeline_data_queue.free_list_ (pipeline_data_queue_ w)) as [|p fs] eqn:Ef; simpl.
    + exists h.(current_pipeline_data_). rewrite <- with_current_same.
      apply process_returns; [by rewrite Es|]. unfold http_proxy_stream_handler.turn. rewrite Es.
      unfold do_start_message, set_current_pipeline_data, pipeline_data_queue.queue_full,
        get_pipeline_data_queue. by rewrite Et, Ef, bind_ok, Et.
    + destruct Hqe as (d & _ & _ & _ & Hnew). eexists p, _, _.
      split; [by apply (request_starts ps)|]. split; [done|]. split; [done|]. simpl.
      split; [done|]. split; [done|]. by rewrite lookup_insert_eq.
  - fold act. destruct act as [|p act'] eqn:Ea; simpl; unfold act in Ea.
    + exists h.(current_pipeline_data_). rewrite <- with_current_same.
      apply process_returns; [by rewrite Es|]. unfold http_proxy_stream_handler.turn. rewrite Es.
      unfold do_start_message, set_current_pipeline_data, pipeline_data_queue.queue_empty,
        get_pipeline_data_queue. by rewrite Et, Ea, bind_ok, Et.
    + destruct (qk_live _ _ _ Hq p) as [d Hd].
      { rewrite <- (qk_elements _ _ _ Hq), Ea. apply list_elem_of_here. }
      rewrite Hd. destruct (pipeline_data.request_complete_ d) eqn:Ec.
      * eexists p, _, _. split; [by apply (response_starts ps)|]. simpl. split; [by destruct (pipeline_data.process_type_ d)|done].
      * exists (Some p). apply process_returns; [by rewrite Es|].
        unfold http_proxy_stream_handler.turn. rewrite Es.
        destruct (front_head _ _ _ Ea) as [Hne Hfr].
        unfold do_start_message, set_current_pipeline_data, get_pipeline_data_queue.
        rewrite Et, Hne, Hfr. simpl.
        unfold current. simpl. rewrite Hd. simpl. rewrite Ec. simpl. by rewrite Et.
Qed.

(** * A request that is refused *)

(** The element of a request that was refused. *)
Definition refused (d : pipeline_data.t) : pipeline_data.t :=
  pipeline_data.PipelineData d.(pipeline_data.logrecord_) pipeline_data.DENY true.

Definition bad_request : list Z :=
  str "HTTP/1.x 400 Bad Request" ++ [CR; LF] ++ str "Connection: close" ++ [CR; LF; CR; LF].

Lemma bad_request_wire : wire (message_of error_message) = bad_request.
Proof. vm_compute. reflexivity. Qed.

Lemma request_refused (h : t A) (w : world K) b p d st b1 pp hh c :
  h.(message_state_) = PARSE_HEADER -> h.(stream_type_) = REQUEST ->
  h.(current_pipeline_data_) = Some p -> w.(heap_) !! p = Some d ->
  header_parser.parse_headers h.(header_parser_) (h.(header_handler_), w.(header_cache_)) b
    header_parser.STRICT = Ok (st, b1, pp, (hh, c)) ->
  st = http.INVALID \/ st = http.DATAOVERFLOW ->
  exists w', turn h w b = Ok (Some socketlib.DENY, with_parser pp hh h, w', b1) /\
    w'.(heap_) = <[p := refused d]> w.(heap_) /\
    w'.(pipeline_data_queue_) = w.(pipeline_data_queue_) /\ sent_to_dest w' = sent_to_dest w.
Proof.
  intros Es Et Hp Hd Hparse Hst. unfold http_proxy_stream_handler.turn. rewrite Es.
  unfold do_parse_header. rewrite Hparse, bind_ok.
  set (h1 := with_parser pp hh h). set (w1 := with_cache c w).
  assert (current h1 w1 = Ok (p, d)) as Hcur.
  { unfold current. cbn [h1 w1 current_pipeline_data_ heap_ with_parser with_cache]. rewrite Hp. simpl. by rewrite Hd. }
  assert (header_refused st h1 w1 = ('(p, d) ← current h1 w1;
    let w := set_process_type p pipeline_data.DENY d w1 in
    '(p, d) ← current h1 w; Ok (socketlib.DENY, set_request_complete p d w))) as Hr
    by (unfold header_refused; cbn [h1 stream_type_ with_parser]; rewrite Et; by destruct Hst as [->| ->]).
  exists (set_request_complete p (pipeline_data.PipelineData d.(pipeline_data.logrecord_) pipeline_data.DENY
    d.(pipeline_data.request_complete_)) (set_process_type p pipeline_data.DENY d w1)).
  split; [|split; [|split]].
  - assert (header_refused st h1 w1 = Ok (socketlib.DENY, set_request_complete p
      (pipeline_data.PipelineData d.(pipeline_data.logrecord_) pipeline_data.DENY
        d.(pipeline_data.request_complete_)) (set_process_type p pipeline_data.DENY d w1))) as Hr2.
    { rewrite Hr, Hcur, bind_ok. unfold current.
      cbn [h1 current_pipeline_data_ with_parser heap_ set_process_type with_queue]. rewrite Hp. simpl.
      by rewrite lookup_insert_eq. }
    by destruct Hst as [->| ->]; rewrite Hr2.
  - simpl. by rewrite insert_insert_eq.
  - done.
  - done.
Qed.

(** The response stream sends the static response. *)
Lemma denied_answered z ps (h : t A) (w : world K) b p act d :
  h.(message_state_) = START_MESSAGE -> h.(stream_type_) = RESPONSE -> well z h w ->
  queue_ok ps w.(pipeline_data_queue_) w.(heap_) ->
  w.(pipeline_data_queue_).(pipeline_data_queue.active_queue_) = p :: act ->
  w.(heap_) !! p = Some (refused d) ->
  exists st h' w' l, process_data h w b = Ok (st, h', w', b) /\
    sent_to_dest w' = sent_to_dest w ++ l /\
    match st with
    | socketlib.SRC_CLOSED => l = bad_request
    | socketlib.INCOMPLETE => l `prefix_of` bad_request /\ h'.(message_state_) = PUSH_HEADER
    | socketlib.DEST_CLOSED => l `prefix_of` bad_request
    | _ => False
    end.
Proof.
  intros Es Et Hw Hq Ha Hd. pose proof (sk_dest _ (we_sink _ _ _ Hw)) as Ho. simpl in Ho.
  pose proof (response_starts ps h w b p act _ Es Et Hq Ha Hd eq_refl Ho (we_error _ _ _ Hw)) as Hstart.
  cbn [refused pipeline_data.process_type_] in Hstart. set (w1 := with_queue _ _ w) in Hstart.
  set (h1 := with_state PUSH_HEADER _) in Hstart.
  destruct (writer_start _ _ (we_writer _ _ _ Hw) error_printable) as [Hinv Hpend].
  destruct (write_message_ok (message_of error_message) h1 w1) as
    (h2 & w2 & st & l & Hwr & Hsame & Hbut & Hsent & _ & _ & Hst); [by eexists|exact Hinv|exact Ho|].
  change (pending (message_of error_message) (header_writer_ h1) (written h1)) with
    (pending (message_of error_message) (header_writer.reset (header_writer_ h)) error_message) in Hst.
  rewrite Hpend, bad_request_wire in Hst. pose proof (sw_handler _ _ Hsame) as Eh.
  assert (turn h1 w1 b = do_push_header h1 w1 b) as Ht by done.
  unfold do_push_header in Ht. rewrite Hwr, bind_ok in Ht.
  assert (message_state_ h <> PARSE_HEADER) as Hne by by rewrite Es.
  destruct st; try done.
  - unfold header_pushed in Ht.
    assert (current (with_state PARSE_BODY h2) w2 = Ok (p, refused d)) as Hcur.
    { rewrite Eh. unfold current. cbn [current_pipeline_data_ with_state with_writer h1 begun with_current].
      simpl. rewrite (sb_heap _ _ Hbut). change (heap_ w1) with (heap_ w). by rewrite Hd. }
    rewrite Hcur, bind_ok in Ht. cbn [refused pipeline_data.process_type_] in Ht.
    eexists _, _, _, l. split; [exact (process_returns_later _ _ _ _ _ _ _ _ _ _ Hne Hstart Ht)|].
    split; [exact Hsent|exact (proj1 Hst)].
  - eexists _, _, _, l. split; [exact (process_returns_later _ _ _ _ _ _ _ _ _ _ Hne Hstart Ht)|].
    split; [exact Hsent|]. split; [rewrite Hst; by apply prefix_app_r|by rewrite Eh].
  - eexists _, _, _, l. split; [exact (process_returns_later _ _ _ _ _ _ _ _ _ _ Hne Hstart Ht)|].
    split; [exact Hsent|]. rewrite Hst. by apply prefix_app_r.
Qed.

(** C13: a request whose header is refused is not forwarded: the call answers
    [DENY], sends nothing and marks the request's element.  When the response
    stream gets to this element, whatever the origin server's buffer holds,
    it sends the static [400 Bad Request] instead of a response, reads nothing
    of the buffer, and ends the connection by [SRC_CLOSED] when all of it was
    sent; before that only a prefix of it was sent. *)
Theorem refused_request_answered z (hr : t A) (wr : world K) b p d st b1 pp hh c :
  hr.(message_state_) = PARSE_HEADER -> hr.(stream_type_) = REQUEST ->
  hr.(current_pipeline_data_) = Some p -> wr.(heap_) !! p = Some d -> b.(working_length_) <> 0 ->
  header_parser.parse_headers hr.(header_parser_) (hr.(header_handler_), wr.(header_cache_)) b
    header_parser.STRICT = Ok (st, b1, pp, (hh, c)) ->
  st = http.INVALID \/ st = http.DATAOVERFLOW ->
  exists hr' wr', process_data hr wr b = Ok (socketlib.DENY, hr', wr', b1) /\
    sent_to_dest wr' = sent_to_dest wr /\
    forall ps (hs : t A) (ws : world K) b2 act,
    hs.(message_state_) = START_MESSAGE -> hs.(stream_type_) = RESPONSE -> well z hs ws ->
    ws.(heap_) = wr'.(heap_) -> queue_ok ps ws.(pipeline_data_queue_) ws.(heap_) ->
    ws.(pipeline_data_queue_).(pipeline_data_queue.active_queue_) = p :: act ->
    exists st' hs' ws' l, process_data hs ws b2 = Ok (st', hs', ws', b2) /\
      sent_to_dest ws' = sent_to_dest ws ++ l /\
      match st' with
      | socketlib.SRC_CLOSED => l = bad_request
      | socketlib.INCOMPLETE => l `prefix_of` bad_request /\ hs'.(message_state_) = PUSH_HEADER
      | socketlib.DEST_CLOSED => l `prefix_of` bad_request
      | _ => False
      end.
Proof.
  intros Es Et Hp Hd Hwl Hparse Hst.
  destruct (request_refused _ _ _ _ _ _ _ _ _ _ Es Et Hp Hd Hparse Hst) as (w' & Ht & Hh & Hq & Hs).
  exists (with_parser pp hh hr), w'. split; [|split; [done|]].
  - unfold http_proxy_stream_handler.process_data, rwb.get_working_length.
    rewrite (proj2 (Z.eqb_neq _ _) Hwl). cbn [andb]. rewrite Nat.add_comm.
    cbn [Nat.add process_loop]. by rewrite Ht.
  - intros ps hs ws b2 act Es2 Et2 Hw2 Eh Hq2 Ha2. eapply (denied_answered z ps); try done.
    rewrite Eh, Hh. by rewrite lookup_insert_eq.
Qed.

End start.

(** ** At concrete inputs *)

Definition sample_heap : pipeline_data_queue.heap :=
  {[ 7 := pipeline_data.make; 8 := pipeline_data.make ]}.

(** A queue whose only request is the element [7]. *)
Definition sample_queue : pipeline_data_queue.t := pipeline_data_queue.PipelineDataQueue [7] [8].

Lemma sample_queue_ok hp :
  is_Some (hp !! 7) -> is_Some (hp !! 8) -> queue_ok [7; 8] sample_queue hp.
Proof.
  intros H7 H8. constructor; [done| |].
  - by apply (bool_decide_unpack (NoDup [7; 8])).
  - intros p Hp. apply elem_of_cons in Hp as [->|Hp]; [done|]. by apply list_elem_of_singleton in Hp as ->.
Qed.

Lemma sample_well ty writes h w : sample_start ty writes = Ok (h, w) -> well sample_sizes h w.
Proof.
  intros Hs. pose proof (reach_inv _ _ _ _ sample_rules_ok sample_postprocessor _ _ _ _ _ _
    (sample_reach _ _ _ _ _ Hs sample_post_wf (conj eq_refl (conj eq_refl eq_refl)))) as Hi. apply Hi.
Qed.

Lemma well_queue z {A} (h : t A) (w : world script) q hp : well z h w -> well z h (with_queue q hp w).
Proof. intros Hw. eapply well_io; [exact Hw|apply with_queue_io|apply with_current_same]. Qed.

Lemma message_starts_in_turn_witness :
  exists h w p, sample_start RESPONSE [] = Ok (h, w) /\
    process_data sample_rules None (fun _ => sample_date) h (with_queue sample_queue sample_heap w)
      (store 64 (str "HTTP/1.0 200")) =
    Ok (socketlib.COMPLETE, with_current p h, with_queue sample_queue sample_heap w,
      store 64 (str "HTTP/1.0 200")).
Proof.
  destruct (sample_start RESPONSE []) as [[h w]| | |] eqn:Es; try (vm_compute in Es; discriminate).
  pose proof (well_queue _ _ _ sample_queue sample_heap (sample_well _ _ _ _ Es)) as Hw.
  pose proof (message_starts_in_turn sample_rules None (fun _ => sample_date) [7; 8] h
    (with_queue sample_queue sample_heap w) (store 64 (str "HTTP/1.0 200"))) as Ht.
  assert (message_state_ h = START_MESSAGE /\ stream_type_ h = RESPONSE) as [Hs Hty]
    by (vm_compute in Es; injection Es as <- <-; split; reflexivity).
  assert (may_start h (with_queue sample_queue sample_heap w) = false) as Hm
    by (unfold may_start; rewrite Hty; vm_compute; reflexivity).
  rewrite Hm in Ht. destruct Ht as [p Hp].
  - exact Hs.
  - apply sample_queue_ok; by eexists.
  - apply (we_sink _ _ _ Hw).
  - apply (we_error _ _ _ Hw).
  - exists h, w, p. split; [reflexivity|]. rewrite Hty in Hp. exact Hp.
Defined.

(** A request stream in the middle of its header, whose element is [7]. *)
Definition sample_reading (s : t Z * world script) : t Z * world script :=
  (with_state PARSE_HEADER (with_current (Some 7) s.1), with_queue sample_queue sample_heap s.2).

Lemma refused_request_answered_witness :
  exists hr wr hs ws hr' wr' b' hs' ws' l,
    sample_start REQUEST [] = Ok (hr, wr) /\ sample_start RESPONSE (replicate 20 (inl 100%nat)) = Ok (hs, ws) /\
    let s := sample_reading (hr, wr) in
    process_data sample_rules None (fun _ => sample_date) s.1 s.2 (store 64 (str "BAD / HTTP/1.0")) =
      Ok (socketlib.DENY, hr', wr', b') /\
    process_data sample_rules None (fun _ => sample_date) hs (with_queue sample_queue (heap_ wr') ws)
      (store 64 (str "HTTP/1.0 200")) = Ok (socketlib.SRC_CLOSED, hs', ws', store 64 (str "HTTP/1.0 200")) /\
    sent_to_dest ws' = [] ++ l /\ l = bad_request.
Proof.
  destruct (sample_start REQUEST []) as [[hr wr]| | |] eqn:Er; try (vm_compute in Er; discriminate).
  destruct (sample_start RESPONSE (replicate 20 (inl 100%nat))) as [[hs ws]| | |] eqn:Es;
    try (vm_compute in Es; discriminate).
  pose proof (sample_well _ _ _ _ Es) as Hw.
  set (s := sample_reading (hr, wr)). set (b := store 64 (str "BAD / HTTP/1.0")).
  destruct (header_parser.parse_headers (header_parser_ s.1) (header_handler_ s.1, header_cache_ s.2) b
    header_parser.STRICT) as [[[[st b1] pp] [hh c]]| | |] eqn:Ep;
    pose proof Ep as Ep'; pose proof Er as Er'; vm_compute in Er'; injection Er' as <- <-;
    vm_compute in Ep'; try discriminate Ep'.
  assert (st = http.INVALID) as -> by congruence.
  destruct (refused_request_answered sample_rules None (fun _ => sample_date) sample_sizes s.1 s.2 b 7
    pipeline_data.make http.INVALID b1 pp hh c) as (hr' & wr' & Hpr & _ & Hall);
    [reflexivity|reflexivity|reflexivity|reflexivity|discriminate|exact Ep|by left|].
  assert (heap_ wr' = <[7 := refused pipeline_data.make]> sample_heap) as Eh
    by (pose proof Hpr as Hpr'; vm_compute in Hpr'; injection Hpr' as _ <- _; vm_compute; reflexivity).
  clear Ep Ep'.
  destruct (Hall [7; 8] hs (with_queue sample_queue (heap_ wr') ws) (store 64 (str "HTTP/1.0 200")) [])
    as (st' & hs' & ws' & l & Hps & Hsent & Hl);
    try (vm_compute in Es; injection Es as <- <-; reflexivity).
  - by apply well_queue.
  - simpl. rewrite Eh. apply sample_queue_ok; by eexists.
  - vm_compute in Es; injection Es as <- <-. eexists _, _, _, _, hr', wr', b1, hs', ws', l.
    split; [reflexivity|]. split; [reflexivity|].
    split; [exact Hpr|].
    rewrite Eh in *. pose proof Hps as Hps'. vm_compute in Hps'. assert (st' = socketlib.SRC_CLOSED) as -> by congruence.
    split; [exact Hps|]. split; [exact Hsent|exact Hl].
Defined.

(** ** What the code does not mean to do *)

(** The check of [is_dest_disconnected] is the wrong way round: it never
    returns. *)
Lemma is_dest_disconnected_never_returns {K} (w : world K) b : is_dest_disconnected w <> Ok b.
Proof. unfold is_dest_disconnected. by destruct (p_dest_data_ w). Qed.

(** A request that the postprocessor refuses goes on as one it accepts,
    without a line in the log. *)
Lemma postprocessor_refusal_ignored {K} `{os K} {A} rules process_request localtime (h : t A) (w : world K) m m' hh :
  h.(stream_type_) = REQUEST -> get_dest w <> None ->
  update_header_host_and_path rules (header_handler.message_buffer_ h.(header_handler_)) = Ok m ->
  hh = header_handler.with_message m h.(header_handler_) ->
  process_request m = Ok (false, m') ->
  header_complete rules (Some process_request) localtime h w =
    Ok (with_state PUSH_HEADER (begun HEADER_MESSAGE h.(error_response_) (with_header m' h)), w).
Proof.
  intros Et Hd Hup -> Hpp. unfold header_complete, header_handler.get_message_buffer.
  cbn [header_handler_ with_state]. rewrite Hup, bind_ok. unfold start_writer.
  destruct (get_dest w); [|done]. cbn [of_option]. rewrite bind_ok. simpl. rewrite Et. simpl.
  unfold header_handler.get_message_buffer. simpl. by rewrite Hpp.
Qed.

(** A response that ends with its connection, in the buffer of another
    response: the header leaves the write position behind the write end, and
    the write aborts. *)
Definition sample_responses : list Z :=
  str "HTTP/1.0 200 O" ++ [CR; LF] ++ str "Content-Length: 1" ++ [CR; LF; CR; LF] ++ str "a" ++
  str "HTTP/1.0 200 O" ++ [CR; LF; CR; LF] ++ str "bc".

Definition sample_answered : pipeline_data_queue.heap :=
  let d := pipeline_data.PipelineData log_record.reset pipeline_data.NORMAL true in {[ 7 := d; 8 := d ]}.

Lemma end_connection_after_body_aborts :
  ('(h, w) ← sample_start RESPONSE (replicate 40 (inl 100%nat));
   '(_, _, _, b) ← process_data sample_rules None (fun _ => sample_date) h
     (with_queue (pipeline_data_queue.PipelineDataQueue [7; 8] []) sample_answered w)
     (store 128 sample_responses); Ok b) = Aborted.
Proof. vm_compute. reflexivity. Qed.
