(* ===== verification/MessageForwarding.v ===== *)
(** A whole message through the handler: a header that is in the buffer is
    read, rewritten by the host rules and written to the destination, and its
    body follows with the framing its fields announce. *)
From stdpp Require Import list gmap.
From S2P Require Import Prelude Status ReadWriteBuffer HttpLex StartLine Interfaces HeaderStore HeaderHandler.
From S2P Require Import HeaderParser HandlerSafety BodyParsers BodyRun Os Connection HeaderWriter Printf.
From S2P Require Import Pipeline Url StreamHandler StreamBody StreamFrame HostRouting StreamSafety StreamProperties.

Import proxy_stream_interface http_proxy_stream_handler.

Lemma serialize_nonempty t1 t2 t3 fields : exists x l, serialize t1 t2 t3 fields = x :: l.
Proof. unfold serialize. destruct t1; simpl; eauto. Qed.

Section forwarding.
Context {K : Type} `{OsLaws K} {A : Type}.
Variable z : sizes.
Variable host_rules_ : gmap (list Z) (host_rules.t A).
Variable localtime : nat -> log_record.tm.

Abbreviation turn := (turn host_rules_ None localtime).
Abbreviation process_loop := (process_loop host_rules_ None localtime).
Abbreviation process_data := (process_data host_rules_ None localtime).

(** A handler that waits for the first byte of a message. *)
Record awaits (h : t A) (w : world K) : Prop := {
  aw_well : well z h w;
  aw_state : h.(message_state_) = PARSE_HEADER;
  aw_parser : h.(header_parser_) = header_parser.make;
  aw_type : header_handler.stream_type_ h.(header_handler_) = h.(stream_type_);
  aw_fresh : handler_fresh z h.(header_handler_);
  aw_body : no_body h
}.

(** A message that it takes. *)
Record takes (h : t A) (w : world K) (t1 t2 t3 : list Z) (fields : list (list Z * list Z)) : Prop := {
  tk_line : start_line_wf t1 t2 t3;
  tk_fields : Forall field_wf fields;
  tk_token1 : token_fits z.(n_line1) t1;
  tk_token2 : token_fits z.(n_line2) t2;
  tk_token3 : token_fits z.(n_line3) t3;
  tk_fit : Forall (field_fits z) fields;
  tk_max : Z.of_nat (length fields) <=
    message_buffer.max_fields_ (header_handler.message_buffer_ h.(header_handler_));
  tk_pool : Z.of_nat (length fields) <= cache.num_available_headers w.(header_cache_);
  tk_complete : message_complete h.(stream_type_) t1 t3 fields
}.

(** What is forwarded for it. *)
Definition forwarded_as (ty : STREAM_TYPE) (t1 t2 t3 : list Z) (fields : list (list Z * list Z)) : forwarded :=
  let i := fold_left note_field fields (initial_info ty t2) in
  Forwarded (rewritten host_rules_ (Msg t1 t2 t3 fields)) i.(encoding) (u32 (s32 i.(body_size))).

Lemma no_postprocessor : postprocessor_ok z None.
Proof. by intros pp m Hpp. Qed.

(** The turn that reads the header. *)
Lemma header_turn (h : t A) (w : world K) b t1 t2 t3 fields rest p d :
  rules_ok host_rules_ -> awaits h w -> takes h w t1 t2 t3 fields ->
  wf b -> unprocessed b = serialize t1 t2 t3 fields ++ rest ->
  current h w = Ok (p, d) -> d.(pipeline_data.process_type_) = pipeline_data.NORMAL ->
  access_log.is_open w.(access_log_) = false ->
  rewrite_fits host_rules_ z (Msg t1 t2 t3 fields) = true ->
  let f := forwarded_as h.(stream_type_) t1 t2 t3 fields in
  exists h1 w1 b1, turn h w b = Ok (None, h1, w1, b1) /\ h1.(message_state_) = PUSH_HEADER /\
    unprocessed b1 = rest /\ message_of (written h1) = f.(f_msg) /\
    framing h1 w1 = (f.(f_encoding), f.(f_length)) /\ sent_to_dest w1 = sent_to_dest w.
Proof.
  intros Hrules [Hw Es Ep Ety Hfresh Hno] [Hl Hf Ht1 Ht2 Ht3 Hfit Hmax Hpool Hcomp] Hwf Hb Hcur Hty Hlog Hrf f.
  destruct (deliver_message_ok z _ w.(header_cache_) t1 t2 t3 fields Hfresh (we_cache _ _ _ Hw))
    as (hh & c & Hd & [Hm _] & Hc & E1 & E2 & E3 & E4 & Hi & _); try done.
  { by rewrite Ety. }
  destruct (parse_message_ok b _ _ header_parser.STRICT _ _ _ _ _ Hwf Hb Hl Hf Hd) as (pp & Hparse).
  destruct (rest_app b Hwf _ _ _ Hb (wf_process _ Hwf)) as (_ & Erest & _).
  unfold http_proxy_stream_handler.turn. rewrite Es. unfold do_parse_header. rewrite Ep, Hparse, bind_ok.
  set (h1 := with_parser pp hh h). set (w1 := with_cache c w).
  assert (message_of (header_handler.message_buffer_ hh) = Msg t1 t2 t3 fields) as Emsg
    by (unfold message_of; by rewrite E1, E2, E3, E4).
  pose proof (update_header_spec host_rules_ z _ Hrules Hm) as Hup. rewrite Emsg, Hrf in Hup.
  destruct Hup as (m' & Hup & Hm' & Em').
  assert (current h1 w1 = Ok (p, d)) as Hcur1 by exact Hcur.
  assert (forall h2 : t A, log_request localtime h2 w1 = Ok w1) as Hnolog
    by (intros h2; unfold log_request; cbn [w1 access_log_ with_cache]; by rewrite Hlog).
  assert (header_complete host_rules_ None localtime h1 w1 =
    Ok (with_state PUSH_HEADER (begun HEADER_MESSAGE h1.(error_response_) (with_header m' h1)), w1)) as Hhc.
  { unfold header_complete, header_handler.get_message_buffer.
    cbn [h1 header_handler_ with_parser with_state header_parser_ error_response_].
    rewrite Hup, bind_ok, start_writer_ok, bind_ok by exact (sk_dest _ (we_sink _ _ _ Hw)).
    by rewrite Hnolog. }
  rewrite Hhc, bind_ok. eexists _, _, _. split; [reflexivity|]. split; [done|].
  split; [exact Erest|]. split; [exact Em'|]. split; [|done].
  unfold framing. match goal with |- context [current ?h2 w1] => change (current h2 w1) with (current h1 w1) end.
  rewrite Hcur1, Hty. unfold info in Hi. cbn. unfold f, forwarded_as. cbn. rewrite Ety in Hi. rewrite <- Hi. done.
Qed.

(** A turn that writes the header leaves it in the writer or has written it
    whole. *)
Lemma push_event base fs (h : t A) (w : world K) b o h' w' b' :
  h.(message_state_) = PUSH_HEADER -> well z h w -> stage z base fs h w b ->
  turn h w b = Ok (o, h', w', b') ->
  (event h w h' = [] /\ h'.(message_state_) = PUSH_HEADER /\
    message_of (written h') = message_of (written h) /\ framing h' w' = framing h w) \/
  event h w h' = [Forwarded (message_of (written h)) (framing h w).1 (framing h w).2].
Proof.
  intros Es Hw Hs Ht. unfold http_proxy_stream_handler.turn in Ht. rewrite Es in Ht.
  unfold stage in Hs. rewrite Es in Hs. destruct Hs as (_ & Hwm & Hinv & _).
  destruct (write_message_ok _ h w Hwm Hinv (sk_dest _ (we_sink _ _ _ Hw)))
    as (h1 & w1 & st & l & Hwr & Hsame & Hbut & _ & _ & Hinv1 & _).
  unfold do_push_header in Ht. rewrite Hwr, bind_ok in Ht. pose proof (sw_handler _ _ Hsame) as Eh.
  assert (st <> socketlib.COMPLETE -> Ok (Some st, h1, w1, b) = Ok (o, h', w', b') ->
    (event h w h' = [] /\ h'.(message_state_) = PUSH_HEADER /\
      message_of (written h') = message_of (written h) /\ framing h' w' = framing h w)) as Hkeep.
  { intros _ [= _ <- <- _]. unfold event. rewrite Es. assert (message_state_ h1 = PUSH_HEADER) as Es1 by by rewrite Eh.
    rewrite Es1. split; [done|]. split; [done|]. split; [exact (hw_message _ _ _ Hinv1)|].
    unfold framing. rewrite (current_written _ _ _ _ Hsame Hbut). by rewrite Eh. }
  destruct st; try (left; by apply Hkeep). right. unfold header_pushed in Ht.
  apply bind_ok_inv in Ht as ([p d] & _ & Ht). unfold event. rewrite Es.
  assert (message_state_ h' = PARSE_BODY) as ->; [|done].
  destruct (pipeline_data.process_type_ d), (stream_type_ (with_state PARSE_BODY h1));
    injection Ht as _ <- _ _; done.
Qed.

(** The first message of a call that begins with its header in the writer. *)
Lemma forwards_first base (h : t A) (w : world K) b f fuel :
  rules_ok host_rules_ -> inv z base [] None h w b -> h.(message_state_) = PUSH_HEADER ->
  message_of (written h) = f.(f_msg) -> framing h w = (f.(f_encoding), f.(f_length)) ->
  measure h w b < Z.of_nat fuel ->
  yields True (process_loop fuel h w b) (fun '(st, h', w', b') => exists l,
    sent_to_dest w' = base ++ l /\
    (h'.(message_state_) = PUSH_HEADER /\ l `prefix_of` wire f.(f_msg) \/
     exists fs, forwards h' (f :: fs) l)).
Proof.
  intros Hrules Hinv Es Em Ef Hfuel.
  set (P := fun fs o (h' : t A) (w' : world K) b' => inv z base fs o h' w' b' /\
    ((fs = [] /\ h'.(message_state_) = PUSH_HEADER /\ message_of (written h') = f.(f_msg) /\
      framing h' w' = (f.(f_encoding), f.(f_length))) \/ exists fs', fs = f :: fs')).
  eapply yields_mono.
  - apply (loop_closed z host_rules_ None localtime Hrules no_postprocessor P base);
      [| | |exact Hfuel]; [|by intros ? ? ? ? [? _]|split; [exact Hinv|by left]].
    intros fs h1 w1 b1 o h2 w2 b2 [Hi Hcase] Ht. destruct Hi as (Hwf & Hw & _ & Hs).
    split.
    { exact (proj1 (yields_ok _ _ _ _ (turn_ok _ _ _ _ Hrules no_postprocessor _ _ _ _ _ Hwf Hw Hs) Ht)). }
    destruct Hcase as [(-> & Es1 & Em1 & Ef1)|[fs' ->]]; [|by right; eexists].
    destruct (push_event _ _ _ _ _ _ _ _ _ Es1 Hw Hs Ht) as [(-> & Es2 & Em2 & Ef2)| ->].
    + left. split; [done|]. split; [done|]. by rewrite Em2, Ef2.
    + right. exists []. rewrite Em1, Ef1. by destruct f.
  - intros [[[st h'] w'] b'] (fs & (_ & _ & (l & Hl & Hf) & _) & Hcase). exists l. split; [done|].
    destruct Hcase as [(E & Es' & Em' & _)|[fs' E]]; simpl in E.
    + left. split; [done|]. rewrite E in Hf. unfold forwards in Hf. rewrite Es', Em' in Hf.
      destruct Hf as (l0 & part & -> & Hw0 & Hp). inversion Hw0 as [|? ? ? ? ? ? E0]; subst; [done|].
      by destruct fs0.
    + right. exists fs'. by rewrite <- E.
Qed.

Lemma process_goes_on (h : t A) (w : world K) b h1 w1 b1 :
  (rwb.get_working_length b =? 0) = false -> turn h w b = Ok (None, h1, w1, b1) ->
  process_data h w b = process_loop (4 * Z.to_nat (rwb.get_working_length b) + 5) h1 w1 b1.
Proof.
  intros Hne Ht. unfold http_proxy_stream_handler.process_data. rewrite Hne. cbn [andb].
  replace (4 * Z.to_nat (rwb.get_working_length b) + 6)%nat with
    (S (4 * Z.to_nat (rwb.get_working_length b) + 5)) by lia.
  generalize (4 * Z.to_nat (rwb.get_working_length b) + 5)%nat. intros n.
  cbn [http_proxy_stream_handler.process_loop]. by rewrite Ht, bind_ok.
Qed.

(** C6: a message whose header is in the buffer, which fits the handler's
    buffers and pool, and whose rewritten path and host fit too, is read and
    goes on its way: the header turn takes exactly its bytes and leaves in the
    writer the message that the host rules make of it.  Whatever the
    destination does, a call that returns has then sent a prefix of that
    header, or that message first: its header and a body with the encoding
    and length that its fields announce, and what follows it. *)
Theorem message_read_and_forwarded (h : t A) (w : world K) b t1 t2 t3 fields rest p d :
  rules_ok host_rules_ -> awaits h w -> takes h w t1 t2 t3 fields ->
  wf b -> unprocessed b = serialize t1 t2 t3 fields ++ rest ->
  current h w = Ok (p, d) -> d.(pipeline_data.process_type_) = pipeline_data.NORMAL ->
  access_log.is_open w.(access_log_) = false ->
  rewrite_fits host_rules_ z (Msg t1 t2 t3 fields) = true ->
  let f := forwarded_as h.(stream_type_) t1 t2 t3 fields in
  (exists h1 w1 b1, turn h w b = Ok (None, h1, w1, b1) /\ h1.(message_state_) = PUSH_HEADER /\
    unprocessed b1 = rest /\ message_of (written h1) = f.(f_msg) /\ sent_to_dest w1 = sent_to_dest w) /\
  match process_data h w b with
  | Ok (st, h', w', b') => exists l, sent_to_dest w' = sent_to_dest w ++ l /\
      (h'.(message_state_) = PUSH_HEADER /\ l `prefix_of` wire f.(f_msg) \/
       exists fs, forwards h' (f :: fs) l)
  | Aborted | Undef => True
  | NoFuel => False
  end.
Proof.
  intros Hrules Ha Ht Hwf Hb Hcur Hty Hlog Hrf f.
  destruct (header_turn h w b t1 t2 t3 fields rest p d Hrules Ha Ht Hwf Hb Hcur Hty Hlog Hrf)
    as (h1 & w1 & b1 & Hturn & Es1 & Hrest & Em & Ef & Hs1).
  split; [exists h1, w1, b1; by repeat split|].
  assert (stage z (sent_to_dest w) [] h w b) as Hstage.
  { unfold stage. rewrite (aw_state _ _ Ha). split; [apply Ha|].
    split; [exact (ho_message _ _ (fresh_ok _ _ (aw_fresh _ _ Ha)))|].
    exists []. rewrite app_nil_r. split; [constructor|done]. }
  pose proof (yields_ok _ _ _ _ (turn_ok z host_rules_ None localtime Hrules no_postprocessor _ _ _ _ _ Hwf
    (aw_well _ _ Ha) Hstage) Hturn) as (Hinv & _ & Hm). specialize (Hm eq_refl).
  assert (event h w h1 = []) as Ev by (unfold event; by rewrite (aw_state _ _ Ha)).
  rewrite Ev in Hinv. pose proof (measure_fuel h w b Hwf) as Hfuel.
  assert ((rwb.get_working_length b =? 0) = false) as Hne.
  { pose proof (unprocessed_length b Hwf) as Hl. rewrite Hb, raw_size_app in Hl.
    unfold rwb.get_working_length. apply Z.eqb_neq. pose proof (wf_process _ Hwf).
    destruct (serialize_nonempty t1 t2 t3 fields) as (x & l & E). rewrite E in Hl.
    pose proof (raw_size_nonneg rest). unfold raw_size in *. simpl length in Hl. lia. }
  rewrite (process_goes_on h w b _ _ _ Hne Hturn).
  pose proof (forwards_first (sent_to_dest w) h1 w1 b1 f (4 * Z.to_nat (rwb.get_working_length b) + 5)
    Hrules Hinv Es1 Em Ef ltac:(lia)) as Hy.
  by destruct (process_loop _ h1 w1 b1) as [[[[st h'] w'] b']| | |].
Qed.

End forwarding.

(** ** At a concrete input *)

Lemma posted_start_line_wf : start_line_wf (str "POST") (str "/a") (str "HTTP/1.0").
Proof. constructor; (split; [repeat constructor|reflexivity]). Qed.

Lemma posted_field_wf : field_wf (str "Content-Length", str "3").
Proof. constructor; (reflexivity || discriminate || (repeat constructor)). Qed.

Lemma posted_takes (h : t Z) (w : world script) :
  message_buffer.max_fields_ (header_handler.message_buffer_ h.(header_handler_)) = 4 ->
  cache.num_available_headers w.(header_cache_) = 4 -> stream_type_ h = REQUEST ->
  takes sample_sizes h w (str "POST") (str "/a") (str "HTTP/1.0") [(str "Content-Length", str "3")].
Proof.
  intros Hm Hc Ht. constructor; try (split; [forall_concrete|split; discriminate || reflexivity]).
  - exact posted_start_line_wf.
  - constructor; [exact posted_field_wf|constructor].
  - constructor; [|constructor]. constructor; try (split; [forall_concrete|split; discriminate || reflexivity]).
  - rewrite Hm. discriminate.
  - rewrite Hc. discriminate.
  - intros _. split; [reflexivity|]. intros E. exfalso. revert E. vm_compute. discriminate.
Qed.

Lemma message_read_and_forwarded_witness :
  exists h w b st h' w' b' l,
    sample_start REQUEST (replicate 20 (inl 100%nat)) = Ok (h, w) /\ b = store 64 sample_post /\
    let s := sample_reading (h, w) in
    process_data sample_rules None (fun _ => sample_date) s.1 s.2 b = Ok (st, h', w', b') /\
    sent_to_dest w' = [] ++ l /\
    l = wire (Msg (str "POST") (str "/a") (str "HTTP/1.0") [(str "Content-Length", str "3")]) ++ str "abc" /\
    exists fs, forwards h' (Forwarded (Msg (str "POST") (str "/a") (str "HTTP/1.0")
      [(str "Content-Length", str "3")]) http.CONTENT_LENGTH 3 :: fs) l.
Proof.
  destruct (sample_start REQUEST (replicate 20 (inl 100%nat))) as [[h w]| | |] eqn:Es;
    try (vm_compute in Es; discriminate).
  pose proof (sample_well _ _ _ _ Es) as Hw.
  pose proof (reach_inv _ _ _ _ sample_rules_ok sample_postprocessor _ _ _ _ _ _
    (sample_reach _ _ _ _ _ Es sample_post_wf (conj eq_refl (conj eq_refl eq_refl)))) as (_ & _ & _ & Hstage).
  set (s := sample_reading (h, w)).
  assert (message_state_ h = START_MESSAGE) as Est by (vm_compute in Es; injection Es as <- _; reflexivity).
  unfold stage in Hstage. rewrite Est in Hstage. destruct Hstage as (Hno & Hm & _).
  assert (awaits sample_sizes s.1 s.2) as Haw.
  { constructor; try (vm_compute in Es; injection Es as <- <-; reflexivity).
    - apply well_queue, well_state. eapply well_io; [exact Hw|reflexivity|reflexivity].
    - constructor; try (vm_compute in Es; injection Es as <- <-; reflexivity).
      constructor; [exact Hm|]. vm_compute in Es. injection Es as <- <-. reflexivity. }
  destruct (message_read_and_forwarded sample_sizes sample_rules (fun _ => sample_date) s.1 s.2
    (store 64 sample_post) (str "POST") (str "/a") (str "HTTP/1.0") [(str "Content-Length", str "3")]
    (str "abc") 7 pipeline_data.make) as [_ Hpd].
  - exact sample_rules_ok.
  - exact Haw.
  - apply posted_takes; vm_compute in Es; injection Es as <- <-; reflexivity.
  - exact sample_post_wf.
  - reflexivity.
  - reflexivity.
  - reflexivity.
  - vm_compute in Es; injection Es as <- <-; reflexivity.
  - reflexivity.
  - clear Hw Haw Hno Hm.
    destruct (process_data sample_rules None (fun _ => sample_date) s.1 s.2 (store 64 sample_post))
      as [[[[st h'] w'] b']| | |] eqn:Ep;
      pose proof Ep as Ep'; pose proof Es as Es'; vm_compute in Es'; injection Es' as <- <-;
      vm_compute in Ep'; try discriminate Ep'.
    destruct Hpd as (l & Hl & Hcase). eexists _, _, _, st, h', w', b', l.
    split; [reflexivity|]. split; [reflexivity|]. split; [exact Ep|].
    injection Ep' as _ <- <- _. split; [exact Hl|].
    split; [vm_compute in Hl; symmetry; exact Hl|].
    destruct Hcase as [[Hp _]|Hf]; [discriminate Hp|exact Hf].
Defined.
